(* ===== verification/_CoqProject ===== *)
-Q . S2P
Prelude.v
Text.v
Paths.v
Words.v
Domain.v
Config.v
Digits.v
Capability.v
Wal.v
Registry.v
Values.v
Contract.v
Intent.v
Episode.v
Condition.v
Measure.v
Session.v
Aggregate.v
Filename.v
Kernel.v
Protocol.v
Recovery.v
Store.v
Invariant.v
Operations.v
Client.v
Finalize.v
Evaluation.v
Waits.v
Admission.v
Sealed.v
Coordinator.v
SessionSafety.v
EpisodeSafety.v
Skills.v
SkillSafety.v
LinuxFile.v
LinuxFileSafety.v
Tools.v
Run.v
RunSafety.v
Activation.v
Cli.v
Daemon.v
DaemonSafety.v
Scenario.v
Codec.v
EvalScenario.v
LinuxWitnesses.v
RunWitnesses.v
DaemonWitnesses.v
CommitSafety.v
Discovery.v
Directory.v
Gate.v
GateWitnesses.v
Schema.v
SchemaSafety.v
McpClient.v
McpRequests.v
McpProvider.v
McpManifest.v
McpSafety.v
McpWitnesses.v
ControlWire.v
Rules.v
RuleStore.v
RuleStoreSafety.v
RuleActivation.v
Scheduler.v
SchedulerSafety.v
SchedulerActivation.v
SchedulerLoop.v
SchedulerWitnesses.v
RuleWorkload.v
RuleJournal.v
RuleJournalSafety.v
RuleProvider.v
RuleProviderSafety.v
RuleServer.v
