(* ===== verification/Prelude.v ===== *)
(** * A verification of the tuning agent and of the scheduler it tunes

    The repository holds three programs that change a running Linux host together.
    The tuning agent ([src/tuning_agent]) lets a language model experiment with kernel
    parameters and with capabilities of MCP servers, under a transaction that can
    always be rolled back, and commits a change only when an A/B measurement earned
    it.  The scheduler ([src/schedule/scx_agent_classed]) runs processes by rules on
    their names, kept on disk, in memory and in a BPF map.  The scheduler's MCP server
    ([src/schedule/scx_agent_classed_mcp]) lets the agent change these rules.  This
    library models the three and proves what makes them trustworthy: no crash and no
    failing call loses track of a change, a commit rests on evidence, a receipt on a
    readback, and nothing reaches beyond the authority the administrator gave.

    ** The parts and the files

    Foundations.  [Prelude.v]: results, the state and error monad [M] with its three
    outcomes (return, throw, panic), the judgement [wp] with its tactics, machine
    integers, lists.  [Text.v], [Words.v], [Paths.v], [Digits.v]: what the code uses
    of Rust's strings, numbers and paths.  [Values.v]: [f64] in binary64 arithmetic,
    and JSON values.

    The values of the agent.  [Domain.v] ([domain/]); [Capability.v], [Registry.v]
    ([capability/]: provider traits as records of operations on a world, registry,
    policy, snapshot); [Config.v] ([config/]).

    Transactions ([kernel/transaction/]).  [Wal.v]: the log, its interface
    [TransactionWal] and the file behind it.  [Kernel.v]: [TransactionKernel], every
    operation on the state [Sys] of kernel, log, world and trace.  [Recovery.v]:
    [recover].  [Filename.v], [Store.v], [Directory.v]: the directory of the logs.
    [Invariant.v], [Operations.v], [Client.v], [Finalize.v], [Sealed.v]: the link
    between a kernel and its log, kept by every operation.  [CommitSafety.v] and
    [Discovery.v]: the theorems on runs with crashes.

    Evaluation ([kernel/evaluation/]).  [Contract.v], [Intent.v]: what an episode
    binds itself to.  [Condition.v]: conditions and the verdict.  [Measure.v],
    [Session.v], [Aggregate.v]: measuring.  [Protocol.v], [Evaluation.v], [Waits.v],
    [Admission.v]: the A/B protocol under its deadline, against the interface
    [PortSpec] of a transaction, which [Coordinator.v] discharges for the kernel.

    Episodes ([runtime/episode/], [agent/], [skill/]).  [Episode.v]: the state
    machine.  [Coordinator.v], [SessionSafety.v], [EpisodeSafety.v]: the session of
    commands.  [Skills.v], [SkillSafety.v], [Tools.v]: what the language model is
    offered and what its calls mean.  [Run.v], [RunSafety.v]: the rounds around it.

    The daemon ([activation/], [runtime/], [main.rs]).  [Activation.v], [Daemon.v],
    [DaemonSafety.v]: requests, the loop, episode identifiers.  [Gate.v]: the recovery
    gate at start-up.  [Cli.v]: the command line.

    Adapters ([adapters/]).  [LinuxFile.v], [LinuxFileSafety.v]: the driver that
    writes one file.  [Schema.v], [SchemaSafety.v]: JSON schemas.  [McpClient.v],
    [McpRequests.v]: frames, responses, threads of a connection.  [McpProvider.v],
    [McpManifest.v], [McpSafety.v]: remote capabilities.

    The scheduler.  [ControlWire.v] ([control-api/]): the control messages.  [Rules.v]
    ([rules/mod.rs]).  [RuleStore.v], [RuleStoreSafety.v] ([rules/store.rs]): the
    document of learned rules on a disk that loses power.  [RuleActivation.v]
    ([activation.rs]).  [Scheduler.v], [SchedulerSafety.v], [SchedulerActivation.v],
    [SchedulerLoop.v] ([scheduler.rs], [policy.rs], [cli.rs]): control requests, the
    gathering of unknown names, the start and the loop.

    The scheduler's MCP server.  [RuleWorkload.v] ([workload.rs]), [RuleJournal.v],
    [RuleJournalSafety.v] ([journal.rs], [lib.rs]), [RuleProvider.v],
    [RuleProviderSafety.v] ([control.rs], [provider.rs], [rpc.rs]), and [RuleServer.v],
    where the server talks to the scheduler of [Scheduler.v].

    Concrete instances.  [Scenario.v], [Codec.v], [EvalScenario.v],
    [LinuxWitnesses.v], [RunWitnesses.v], [DaemonWitnesses.v], [GateWitnesses.v],
    [McpWitnesses.v], [SchedulerWitnesses.v] and the end of [RuleServer.v] instantiate
    every parameter, run the definitions and discharge the hypotheses of the theorems.

    ** How code is modelled

    A definition follows a function line by line, its guards, early returns and error
    texts included.  A method that changes state is a computation on an explicit
    state, and a computation that fails keeps the state it had reached; a [BTreeMap]
    index, [expect] and [unreachable!] can panic.  Integers are [Z] with their width
    written out where it matters; floats are the specification floats of the Standard
    Library; strings are their UTF-8 bytes.  System calls take their outcomes from the
    environment: from lists of scheduled failures (logs, directories, disks, BPF maps,
    clocks) or from a parameter ([FileSystem], [UnixSockets], [ControlSocket]).
    Threads are step relations ([client_step], [id_step], [loop_step], the worker of
    [RuleActivation.v]); crashes are steps that keep any prefix of a log, or calls
    where the machine stops, after which a disk may come back in any state that was
    not synced away ([power_loss]).

    Some states keep a history no code reads: the trace of effects of a transaction
    and an evaluation, the commands of a session and a run, the results of the gate,
    the requests of the daemon, the writes of the file driver, the identifiers and
    delivered values of the MCP client, the exchanges of the scheduler's MCP server.

    Interfaces state what one part promises to another: [WalLaws], [WalCodec] and [TornLines] (a
    log), [TransactionStoreLaws], [PortSpec] (a transaction, for the evaluation),
    [SnapshotSpec] (a capability snapshot), [ToolCallerLaws] (an MCP client, for the
    providers), [SchedulerContract] (a scheduler, for its MCP server).  Code outside
    the repository is a parameter with the behaviour it documents: [Json], [JsonData],
    [JsonLaws], [JsonNumbers], [ObjectLaws], [Serialize], [Sha256], the codecs serde
    derives ([McpCodecs], [DocumentCodecLaws], [JournalCodecLaws], [ServerCodecs]),
    the language model ([AgentReasoner]), the audit log ([AuditSink]), clocks.

    ** What is proved

    Transactions: after any run and any crash [recover] rebuilds the kernel up to the
    operations whose outcome is unknown; intents precede effects; a commit needs the
    authorization of the active candidate with every change read back; a rollback
    returns only with every resource read back at its baseline; what discovery says of
    a log is what recovery makes of it, wherever a crash cut its file.  Evaluation: the protocol measures what it
    says in the order it says, every session is closed once, waits fit the schedule,
    the verdict is [Improved] exactly with all the evidence for it.  Episodes and
    runs: whatever the model answers and whatever fails, every run ends, and ends
    closed, clean, committed with a durable record or marked for recovery; a tool call
    is decoded exactly as its name and arguments say, and names a capability of the
    snapshot where it runs one.  Daemon: it freezes after an episode that returned an
    outcome that needs recovery, keeps its cooldown, repeats no event and never reuses
    an identifier; the recovery gate opens only on a reconciled store.  Adapters: the
    file driver writes only under its path, its receipts say what the file shows, and
    its changes are reversible where the kernel takes the lines and shows them again;
    a compiled schema decides conformance; replies reach their requests and frames any chunking; remote
    mutations stay in their namespace.  Scheduler: disk, memory and BPF map agree
    before and after every request whatever fails, or the scheduler stops; learned
    rules survive crashes whole; one activation at a time.  MCP server: receipts rest
    on readbacks, operations are journaled before they act and act at most once (their
    records are kept unless a [stat] of the journal fails), and
    in front of the scheduler an applied change is in force and its restore gives the
    old rules back; a measurement's readiness and fingerprint mean what they say.
    The findings of the manifest list where code and intention part.

    ** Fuel and bounds

    Recursion is structural where the code's is.  Otherwise the argument that bounds
    it is proved or evidently large enough: the digits of [f64_display]; the length of
    the identifier in [shorten_prefix]; [sample_count] in the sampling loop;
    [max_rounds + max_skill_rounds + 1] rounds of a run; 64 KiB + 2 reads of a client;
    the bytes of the stream + 1 in [read_responses]; [MAX_TOOL_PAGES] pages;
    [MAX_SCHEMA_DEPTH + 1 - depth] in a schema; the number of candidates in
    [omit_candidates]; 32 attempts at a temporary file, as in the code;
    [SETTLE_FUEL] = 503 rounds for a settling time of at most 5000 ms in steps of
    10 ms ([sampling_ends]).  The turns of the daemon and the answers of [serve_stdio]
    are for any number.

    ** What the models leave out of the parts they cover

    The theorems on runs with crashes rest on [WalLaws], by which an append that fails
    leaves no entry; [FileWal] keeps that when a failing call of [write_synced] wrote
    nothing ([clean_calls]), and a finding says what happens otherwise.  Crashes of a
    run keep whole entries ([crash_log]); that a file can be cut anywhere, inside a
    line too, is at the end of [Wal.v] and in [Directory.v].  The validation of measurement and
    comparison arguments and the comparison itself are functions of a provider
    ([MeasurementProvider], [ComparisonPolicy]), so the theorems on an evaluation say
    nothing of remote tools called by them.  [loop_step] makes successful iterations
    only; the worker runs between them.  The file driver's writes are recorded by the
    name they were made under, so a link exchanged between the check and the write is
    not seen.  [client_step] takes an identifier and sends its request in one step.
    [conforms] shares with the validator the types of values, their equality, the
    rounding of numbers and the encoding of items.

    ** Not modelled

    Panics of [println!] and of poisoned locks; allocation failures.  Binding the Unix
    socket ([UnixIpcSource::bind]) and the clients' side of it; spawning and killing
    the MCP process and its threads; the HTTP client of the language model
    ([adapters/openai]).  [TransactionStore::new] with its ownership checks, the lock
    of the runtime directory, and the JSON-lines file of the audit log.  The Markdown
    parser and the registry of skills.  [Runtime::new] and [runtime/bootstrap.rs],
    which wire the parts together, and the readers of [/proc] behind the built-in
    measurement and probe.  In the scheduler: loading and attaching the BPF program,
    the topology map, metrics and the report at exit, the control socket and the
    statistics server; in its MCP server the constants of [schema.rs] and failures of
    its standard output.  The benchmarks ([src/bench]) are Python and C.  All of these
    are system calls, constants, or glue without decisions of their own. *)

From stdpp Require Export base gmap sets list strings fin_maps sorting pretty.

(** ** Results and outcomes

    [result E A] is Rust's [Result<A, E>].  [outcome E A] adds the third way a
    Rust call can end, a panic (indexing a [BTreeMap] with a missing key,
    [expect] on [None]). *)

Inductive result (E A : Type) : Type :=
  | Ok (a : A)
  | Err (e : E).
Arguments Ok {E A} a.
Arguments Err {E A} e.

Inductive outcome (E A : Type) : Type :=
  | Ret (a : A)
  | Throw (e : E)
  | Panic.
Arguments Ret {E A} a.
Arguments Throw {E A} e.
Arguments Panic {E A}.

#[export] Instance result_eq_dec `{EqDecision E, EqDecision A} : EqDecision (result E A).
Proof. solve_decision. Defined.

#[export] Instance result_ret {E} : MRet (result E) := λ A a, Ok a.
#[export] Instance result_bind {E} : MBind (result E) := λ A B f m,
  match m with Ok a => f a | Err e => Err e end.

#[export] Instance outcome_ret {E} : MRet (outcome E) := λ A a, Ret a.
#[export] Instance outcome_bind {E} : MBind (outcome E) := λ A B f m,
  match m with Ret a => f a | Throw e => Throw e | Panic => Panic end.

Definition map_err {E E' A} (f : E → E') (r : result E A) : result E' A :=
  match r with Ok a => Ok a | Err e => Err (f e) end.

Definition ok_or {E A} (e : E) (o : option A) : result E A :=
  match o with Some a => Ok a | None => Err e end.

Definition is_ok {E A} (r : result E A) : bool :=
  match r with Ok _ => true | Err _ => false end.

Definition of_result {E A} (r : result E A) : outcome E A :=
  match r with Ok a => Ret a | Err e => Throw e end.

(** [reject b e]: [if b { return Err(e) }], the early return of the source. *)
Definition reject {E} (b : bool) (e : E) : result E unit :=
  if b then Err e else Ok tt.

(** Left fold of a fallible step over a list: a [for] loop whose body uses [?]. *)
Fixpoint fold_result {E S A} (f : S → A → result E S) (s : S) (l : list A) : result E S :=
  match l with
  | [] => Ok s
  | a :: l => match f s a with Ok s' => fold_result f s' l | Err e => Err e end
  end.

(** [iter().map(f).collect::<Result<Vec<_>, _>>()]. *)
Fixpoint collect_result {E A B} (f : A → result E B) (l : list A) : result E (list B) :=
  match l with
  | [] => Ok []
  | a :: l => match f a with
              | Ok b => match collect_result f l with Ok bs => Ok (b :: bs) | Err e => Err e end
              | Err e => Err e
              end
  end.

(** The same for a body that can also panic. *)
Fixpoint fold_outcome {E S A} (f : S → A → outcome E S) (s : S) (l : list A) : outcome E S :=
  match l with
  | [] => Ret s
  | a :: l => match f s a with
              | Ret s' => fold_outcome f s' l
              | Throw e => Throw e
              | Panic => Panic
              end
  end.

(** [Vec::sort_by] with a comparison: a stable sort. *)
Fixpoint insert_sorted {A} (le : A → A → bool) (a : A) (l : list A) : list A :=
  match l with
  | [] => [a]
  | b :: l' => if le a b then a :: l else b :: insert_sorted le a l'
  end.
Definition sort_by {A} (le : A → A → bool) (l : list A) : list A :=
  foldr (insert_sorted le) [] l.

Lemma bool_decide_neq_refl {A} (x : A) `{!Decision (x ≠ x)} : bool_decide (x ≠ x) = false.
Proof. apply bool_decide_eq_false. auto. Qed.

(** A rejection that does not fire. *)
Lemma reject_false {E} (b : bool) (e : E) : b = false → reject b e = Ok tt.
Proof. by intros ->. Qed.

Lemma insert_sorted_perm {A} (le : A → A → bool) a l : insert_sorted le a l ≡ₚ a :: l.
Proof.
  induction l as [|b l IH]; simpl; [done|]. destruct (le a b); [done|].
  rewrite IH. constructor.
Qed.

Lemma sort_by_perm {A} (le : A → A → bool) l : sort_by le l ≡ₚ l.
Proof. unfold sort_by. induction l as [|a l IH]; simpl; [done|]. by rewrite insert_sorted_perm, IH. Qed.

Lemma insert_sorted_Sorted {A} (le : A → A → bool) a l :
  (∀ x y, le x y = true ∨ le y x = true) →
  Sorted (λ x y, le x y = true) l → Sorted (λ x y, le x y = true) (insert_sorted le a l).
Proof.
  intros Htot. induction l as [|b l IH]; intros Hl; simpl; [by repeat constructor|].
  destruct (le a b) eqn:Hab; [constructor; [done|by constructor]|].
  apply Sorted_inv in Hl as [Hl Hb]. constructor; [by apply IH|].
  assert (le b a = true) as Hba by (destruct (Htot a b); congruence).
  destruct l as [|c l]; simpl; [by constructor|]. destruct (le a c); constructor; [done|].
  by apply HdRel_inv in Hb.
Qed.

Lemma sort_by_Sorted {A} (le : A → A → bool) l :
  (∀ x y, le x y = true ∨ le y x = true) → Sorted (λ x y, le x y = true) (sort_by le l).
Proof.
  intros Htot. unfold sort_by. induction l as [|a l IH]; simpl; [constructor|].
  by apply insert_sorted_Sorted.
Qed.

Lemma sort_by_id {A} (le : A → A → bool) l : Sorted (λ x y, le x y = true) l → sort_by le l = l.
Proof.
  unfold sort_by. induction 1 as [|a l Hl IH Hd]; simpl; [done|]. rewrite IH.
  destruct Hd as [|b l Hab]; simpl; [done|]. by rewrite Hab.
Qed.

(** ** Filtered lists *)

Lemma list_filter_ext_in {A} (P Q : A → Prop) `{!∀ x, Decision (P x), !∀ x, Decision (Q x)} (l : list A) :
  (∀ x, x ∈ l → P x ↔ Q x) → base.filter P l = base.filter Q l.
Proof.
  induction l as [|a l IH]; intros Hext; [done|]. rewrite !filter_cons, IH by set_solver.
  apply decide_ext, Hext. by left.
Qed.

Lemma list_filter_fmap {A B} (f : A → B) (P : B → Prop) `{!∀ x, Decision (P x)} (l : list A) :
  base.filter P (f <$> l) = f <$> base.filter (λ x, P (f x)) l.
Proof. induction l as [|a l IH]; [done|]. csimpl. rewrite !filter_cons, IH. by case_decide. Qed.

(** Filtering by membership in a filtered list. *)
Lemma list_filter_in_filter {A} `{EqDecision A} (P : A → Prop) `{!∀ x, Decision (P x)} (l : list A) :
  base.filter (λ x, x ∈ base.filter P l) l = base.filter P l.
Proof.
  apply list_filter_ext_in. intros x Hx. rewrite list_elem_of_filter. naive_solver.
Qed.

Section ResultLemmas.
Context {E : Type}.

Lemma result_bind_Ok {A B} (m : result E A) (f : A → result E B) b :
  (m ≫= f) = Ok b ↔ ∃ a, m = Ok a ∧ f a = Ok b.
Proof. destruct m; naive_solver. Qed.

Lemma reject_Ok (b : bool) (e : E) u : reject b e = Ok u ↔ b = false.
Proof. destruct b, u; naive_solver. Qed.

Lemma reject_bind_Ok {B} (m : result E unit) (k : result E B) b :
  (m ≫= λ _, k) = Ok b ↔ m = Ok tt ∧ k = Ok b.
Proof. destruct m as [[]|]; naive_solver. Qed.

Lemma ok_or_bind_Ok {A B} (e : E) (o : option A) (f : A → result E B) b :
  (ok_or e o ≫= f) = Ok b ↔ ∃ a, o = Some a ∧ f a = Ok b.
Proof. destruct o; naive_solver. Qed.

Lemma ok_or_Ok {A} (e : E) (o : option A) a : ok_or e o = Ok a ↔ o = Some a.
Proof. destruct o; naive_solver. Qed.

Lemma map_err_Ok {E' A} (f : E' → E) (r : result E' A) a : map_err f r = Ok a ↔ r = Ok a.
Proof. destruct r; naive_solver. Qed.

Lemma of_result_Ret {A} (r : result E A) a : of_result r = Ret a ↔ r = Ok a.
Proof. destruct r; naive_solver. Qed.

Lemma fold_result_app {S A} (f : S → A → result E S) s l1 l2 :
  fold_result f s (l1 ++ l2) = fold_result f s l1 ≫= λ s', fold_result f s' l2.
Proof. revert s. induction l1 as [|a l1 IH]; intros s; simpl; [done|]. by destruct (f s a). Qed.

Lemma fold_result_snoc {S A} (f : S → A → result E S) s l a :
  fold_result f s (l ++ [a]) = fold_result f s l ≫= λ s', f s' a.
Proof. rewrite fold_result_app. destruct (fold_result f s l); simpl; [by destruct (f _ a)|done]. Qed.

Lemma fold_result_prefix {S A} (f : S → A → result E S) s l1 l2 s2 :
  fold_result f s (l1 ++ l2) = Ok s2 → ∃ s1, fold_result f s l1 = Ok s1.
Proof. rewrite fold_result_app, result_bind_Ok. naive_solver. Qed.

(** An invariant preserved by every step holds at the end of a loop. *)
Lemma fold_result_inv {S A} (f : S → A → result E S) (P : S → Prop) s l s' :
  (∀ s a s', a ∈ l → P s → f s a = Ok s' → P s') →
  P s → fold_result f s l = Ok s' → P s'.
Proof.
  revert s. induction l as [|a l IH]; intros s Hf Hs; simpl; [by intros [= <-]|].
  destruct (f s a) eqn:Ha; [|done]. apply IH; [|eapply Hf; eauto; set_solver].
  intros; eapply Hf; eauto; set_solver.
Qed.

(** A loop whose body succeeds from every state satisfying an invariant the
    body preserves succeeds. *)
Lemma fold_result_total {S A} (f : S → A → result E S) (I : list A → S → Prop) l s :
  I [] s →
  (∀ pre a post s, l = pre ++ a :: post → I pre s → ∃ s', f s a = Ok s' ∧ I (pre ++ [a]) s') →
  ∃ s', fold_result f s l = Ok s' ∧ I l s'.
Proof.
  intros H0 Hstep. cut (∀ post pre s, l = pre ++ post → I pre s →
    ∃ s', fold_result f s post = Ok s' ∧ I l s').
  { intros H. eapply (H l []); done. }
  clear s H0. induction post as [|a post IH]; intros pre s Hl HI; simpl.
  - rewrite app_nil_r in Hl. subst. eauto.
  - destruct (Hstep pre a post s Hl HI) as (s' & -> & HI').
    eapply (IH (pre ++ [a])); [|done]. by rewrite Hl, <- app_assoc.
Qed.

Lemma collect_result_Ok {A B} (f : A → result E B) l bs :
  collect_result f l = Ok bs ↔ Forall2 (λ a b, f a = Ok b) l bs.
Proof.
  revert bs. induction l as [|a l IH]; intros bs; simpl.
  - split; [by intros [= <-]|]. by inversion 1.
  - split.
    + destruct (f a) as [b|] eqn:Ha; [|done].
      destruct (collect_result f l) as [bs'|] eqn:Hl; [|done].
      intros [= <-]. constructor; [done|]. by apply IH.
    + inversion 1 as [|? ? ? bs' Ha Hl]; subst. rewrite Ha.
      apply IH in Hl. by rewrite Hl.
Qed.
End ResultLemmas.

(** ** Stateful code: state passing with errors that keep the state

    A method [&mut self -> Result<A, E>] is a function of the state; on [Err]
    the changes made before the early return stay, as in Rust. *)

Definition M (S E A : Type) : Type := S → outcome E A * S.

#[export] Instance M_ret {S E} : MRet (M S E) := λ A a s, (Ret a, s).
#[export] Instance M_bind {S E} : MBind (M S E) := λ A B f m s,
  match m s with
  | (Ret a, s') => f a s'
  | (Throw e, s') => (Throw e, s')
  | (Panic, s') => (Panic, s')
  end.

Definition throw {S E A} (e : E) : M S E A := λ s, (Throw e, s).
Definition panic {S E A} : M S E A := λ s, (Panic, s).
Definition gets {S E A} (f : S → A) : M S E A := λ s, (Ret (f s), s).
Definition modify {S E} (f : S → S) : M S E unit := λ s, (Ret tt, f s).

(** A pure [Result] propagated with [?]. *)
Definition lift {S E A} (r : result E A) : M S E A := λ s, (of_result r, s).

(** Indexing with [changes[id]], [expect]: a missing value panics. *)
Definition expect {S E A} (o : option A) : M S E A :=
  λ s, (match o with Some a => Ret a | None => Panic end, s).

(** Matching on a [Result] instead of propagating it. *)
Definition attempt {S E E' A} (m : M S E A) : M S E' (result E A) := λ s,
  match m s with
  | (Ret a, s') => (Ret (Ok a), s')
  | (Throw e, s') => (Ret (Err e), s')
  | (Panic, s') => (Panic, s')
  end.

(** [for a in l { f(a)?; }]. *)
Fixpoint for_each {S E A} (f : A → M S E unit) (l : list A) : M S E unit :=
  match l with
  | [] => mret tt
  | a :: l => f a ≫= λ _, for_each f l
  end.

(** ** A postcondition for each way a computation can end

    [wp m Q R s]: run from [s], [m] does not panic, a value it returns satisfies
    [Q] with the final state, an error it throws satisfies [R]. *)

Definition wp {S E A} (m : M S E A) (Q : A → S → Prop) (R : E → S → Prop) (s : S) : Prop :=
  match m s with
  | (Ret a, s') => Q a s'
  | (Throw e, s') => R e s'
  | (Panic, _) => False
  end.

Section Wp.
Context {S E : Type}.
Implicit Types (s : S).

Lemma wp_ret {A} (a : A) (Q : A → S → Prop) (R : E → S → Prop) s :
  Q a s → wp (mret a) Q R s.
Proof. done. Qed.

Lemma wp_throw {A} e (Q : A → S → Prop) (R : E → S → Prop) s :
  R e s → wp (throw e) Q R s.
Proof. done. Qed.

Lemma wp_gets {A} (f : S → A) (Q : A → S → Prop) (R : E → S → Prop) s :
  Q (f s) s → wp (gets f) Q R s.
Proof. done. Qed.

Lemma wp_modify f (Q : unit → S → Prop) (R : E → S → Prop) s :
  Q tt (f s) → wp (modify f) Q R s.
Proof. done. Qed.

Lemma wp_lift {A} (r : result E A) (Q : A → S → Prop) (R : E → S → Prop) s :
  (∀ a, r = Ok a → Q a s) → (∀ e, r = Err e → R e s) → wp (lift r) Q R s.
Proof. unfold wp, lift. destruct r; simpl; eauto. Qed.

Lemma wp_expect {A} (o : option A) (Q : A → S → Prop) (R : E → S → Prop) s a :
  o = Some a → Q a s → wp (expect o) Q R s.
Proof. unfold wp, expect. by intros ->. Qed.

Lemma wp_bind {A B} (m : M S E A) (f : A → M S E B) Q R s :
  wp m (λ a, wp (f a) Q R) R s → wp (m ≫= f) Q R s.
Proof.
  unfold wp, mbind, M_bind. destruct (m s) as [[] s']; auto.
Qed.

Lemma wp_mono {A} (m : M S E A) (Q Q' : A → S → Prop) (R R' : E → S → Prop) s :
  wp m Q' R' s → (∀ a s', Q' a s' → Q a s') → (∀ e s', R' e s' → R e s') → wp m Q R s.
Proof. unfold wp. destruct (m s) as [[] s']; auto. Qed.

Lemma wp_and {A} (m : M S E A) (Q Q' : A → S → Prop) (R R' : E → S → Prop) s :
  wp m Q R s → wp m Q' R' s →
  wp m (λ a s', Q a s' ∧ Q' a s') (λ e s', R e s' ∧ R' e s') s.
Proof. unfold wp. destruct (m s) as [[] s']; auto. Qed.

Lemma wp_attempt {E' A} (m : M S E A) (Q : result E A → S → Prop) (R : E' → S → Prop) s :
  wp m (λ a, Q (Ok a)) (λ e, Q (Err e)) s → wp (attempt m) Q R s.
Proof. unfold wp, attempt. destruct (m s) as [[] s']; auto. Qed.

Lemma wp_for_each {A} (I : list A → S → Prop) (f : A → M S E unit) l
    (Q : unit → S → Prop) (R : E → S → Prop) s :
  I [] s →
  (∀ pre a post s, l = pre ++ a :: post → I pre s → wp (f a) (λ _, I (pre ++ [a])) R s) →
  (∀ s, I l s → Q tt s) →
  wp (for_each f l) Q R s.
Proof.
  intros H0 Hstep HQ.
  cut (∀ post pre s, l = pre ++ post → I pre s → wp (for_each f post) Q R s).
  { intros H. by apply (H l []). }
  clear s H0. induction post as [|a post IH]; intros pre s Hl HI; simpl.
  - apply wp_ret, HQ. rewrite app_nil_r in Hl. by subst.
  - apply wp_bind. eapply wp_mono; [by eapply Hstep| |done].
    intros [] s'. apply IH. by rewrite Hl, <- app_assoc.
Qed.

(** Reading a result off a specification. *)
Lemma wp_elim_ret {A} (m : M S E A) Q R s a s' :
  wp m Q R s → m s = (Ret a, s') → Q a s'.
Proof. unfold wp. intros H Hm. by rewrite Hm in H. Qed.

Lemma wp_elim_throw {A} (m : M S E A) Q R s e s' :
  wp m Q R s → m s = (Throw e, s') → R e s'.
Proof. unfold wp. intros H Hm. by rewrite Hm in H. Qed.

Lemma wp_no_panic {A} (m : M S E A) Q R s : wp m Q R s → (m s).1 ≠ Panic.
Proof. unfold wp. by destruct (m s) as [[] s']. Qed.
End Wp.

(** [wp_step] runs the head of a computation by the rule for its shape;
    [wp_call H] uses the specification [H] of a called operation. *)
Ltac wp_step :=
  lazymatch goal with
  | |- wp (mret _) _ _ _ => apply wp_ret
  | |- wp (throw _) _ _ _ => apply wp_throw
  | |- wp (gets _) _ _ _ => apply wp_gets
  | |- wp (modify _) _ _ _ => apply wp_modify
  | |- wp (lift _) _ _ _ => apply wp_lift; intros ? ?
  | |- wp (attempt _) _ _ _ => apply wp_attempt
  | |- wp (mbind _ _) _ _ _ => apply wp_bind
  | |- wp (match ?x with _ => _ end) _ _ _ => destruct x eqn:?
  | |- wp (match ?x with _ => _ end _) _ _ _ => destruct x eqn:?
  end; simpl.
Ltac wp_steps := repeat wp_step.
Tactic Notation "wp_call" uconstr(H) := eapply wp_mono; [eapply H| |].

Lemma fold_checks_Ok {E A} (f : A → result E unit) l :
  fold_result (λ _ a, f a) tt l = Ok tt ↔ Forall (λ a, f a = Ok tt) l.
Proof.
  induction l as [|a l IH]; simpl; [split; [intros _; constructor|done]|].
  rewrite Forall_cons. destruct (f a) as [[]|]; [rewrite IH|]; naive_solver.
Qed.

Lemma fold_reject_Ok {E A} (f : A → bool) (e : A → E) l u :
  fold_result (λ _ a, reject (f a) (e a)) u l = Ok tt ↔ Forall (λ a, f a = false) l.
Proof.
  destruct u. induction l as [|a l IH]; simpl; [by split|].
  rewrite Forall_cons. destruct (f a); simpl; [naive_solver|]. rewrite IH. naive_solver.
Qed.

(** ** Machine integers *)

Definition u64_max : Z := 2 ^ 64 - 1.
Definition u64_saturating_add (a b : Z) : Z := Z.min (a + b) u64_max.
Definition u64_saturating_mul (a b : Z) : Z := Z.min (a * b) u64_max.
Definition u32_saturating_sub (a b : Z) : Z := Z.max (a - b) 0.
Definition u64_wrap (a : Z) : Z := a mod 2 ^ 64.

Lemma u64_saturating_add_bounds a b :
  (0 ≤ a ≤ u64_max → 0 ≤ b ≤ u64_max → 0 ≤ u64_saturating_add a b ≤ u64_max)%Z.
Proof. unfold u64_saturating_add, u64_max. lia. Qed.

Lemma u64_wrap_small a : (0 ≤ a ≤ u64_max)%Z → u64_wrap a = a.
Proof. unfold u64_wrap, u64_max. intros. apply Z.mod_small. lia. Qed.

(** ** Tactics of the development *)

(** Case analysis on every [decide], [match] and pair in the hypotheses, closing
    contradictory branches. *)
Ltac crush_match := repeat (case_match; simplify_eq/=; try done).
