(* ===== verification/Text.v ===== *)
(** * Strings

    Rust strings as UTF-8 byte strings ([String.string], one [ascii] per byte):
    [str::len] is [String.length].  The functions of the standard library the
    core uses on them: [chars], [char::is_whitespace], [char::is_control],
    [trim], UTF-8 validation, prefixes and suffixes, file extensions, and the
    decimal rendering of [format!]. *)

From Stdlib Require Export Ascii.
From S2P Require Export Prelude.

(** ** Characters *)

Definition continuation (acc : N) (b : ascii) : N :=
  N.lor (N.shiftl acc 6) (N.land (N_of_ascii b) 63).

(** [str::chars]: the Unicode scalar values of a UTF-8 string. *)
Fixpoint chars (s : string) : list N :=
  match s with
  | EmptyString => []
  | String a s1 =>
    let n := N_of_ascii a in
    if (n <? 128)%N then n :: chars s1 else
    match s1 with
    | EmptyString => [n]
    | String b s2 =>
      if (n <? 224)%N then continuation (N.land n 31) b :: chars s2 else
      match s2 with
      | EmptyString => [n]
      | String c s3 =>
        if (n <? 240)%N then continuation (continuation (N.land n 15) b) c :: chars s3 else
        match s3 with
        | EmptyString => [n]
        | String d s4 =>
          continuation (continuation (continuation (N.land n 7) b) c) d :: chars s4
        end
      end
    end
  end.

(** The same characters, each with the bytes it takes. *)
Fixpoint chars_with_bytes (s : string) : list (N * string) :=
  match s with
  | EmptyString => []
  | String a s1 =>
    let n := N_of_ascii a in
    let head := (n, String a "") in
    if (n <? 128)%N then head :: chars_with_bytes s1 else
    match s1 with
    | EmptyString => [head]
    | String b s2 =>
      if (n <? 224)%N then
        (continuation (N.land n 31) b, String a (String b "")) :: chars_with_bytes s2 else
      match s2 with
      | EmptyString => [head]
      | String c s3 =>
        if (n <? 240)%N then
          (continuation (continuation (N.land n 15) b) c, String a (String b (String c "")))
          :: chars_with_bytes s3 else
        match s3 with
        | EmptyString => [head]
        | String d s4 =>
          (continuation (continuation (continuation (N.land n 7) b) c) d,
            String a (String b (String c (String d "")))) :: chars_with_bytes s4
        end
      end
    end
  end.

(** [char::is_whitespace], the Unicode property White_Space. *)
Definition is_whitespace (c : N) : bool :=
  ((9 <=? c) && (c <=? 13) || (c =? 32) || (c =? 133) || (c =? 160) || (c =? 5760)
   || (8192 <=? c) && (c <=? 8202) || (c =? 8232) || (c =? 8233) || (c =? 8239)
   || (c =? 8287) || (c =? 12288))%N.

(** [char::is_control], the general category Cc. *)
Definition is_control (c : N) : bool :=
  ((c <=? 31) || (127 <=? c) && (c <=? 159))%N.

(** [str::trim], on the characters of the string. *)
Fixpoint drop_whitespace (l : list N) : list N :=
  match l with
  | [] => []
  | c :: l' => if is_whitespace c then drop_whitespace l' else l
  end.
Definition trim_chars (l : list N) : list N :=
  reverse (drop_whitespace (reverse (drop_whitespace l))).

(** [str::trim]. *)
Fixpoint drop_blanks (l : list (N * string)) : list (N * string) :=
  match l with
  | [] => []
  | (c, bytes) :: l' => if is_whitespace c then drop_blanks l' else l
  end.
Definition trim (s : string) : string :=
  foldr (λ p rest, p.2 +:+ rest) "" (reverse (drop_blanks (reverse (drop_blanks (chars_with_bytes s))))).

(** [str::split_whitespace]: the maximal runs of other characters; [word] is
    the run being read. *)
Fixpoint split_words (word : string) (l : list (N * string)) : list string :=
  match l with
  | [] => if bool_decide (word = "") then [] else [word]
  | (c, bytes) :: l =>
    if is_whitespace c then
      if bool_decide (word = "") then split_words "" l else word :: split_words "" l
    else split_words (word +:+ bytes) l
  end.
Definition split_whitespace (s : string) : list string := split_words "" (chars_with_bytes s).

(** [value.trim() != value], [value.trim().is_empty()]. *)
Definition has_surrounding_whitespace (s : string) : bool :=
  bool_decide (trim_chars (chars s) ≠ chars s).
Definition is_blank (s : string) : bool :=
  bool_decide (trim_chars (chars s) = []).

(** ** UTF-8 validation ([String::from_utf8], [OsStr::to_str]) *)

Record Utf8Error := MkUtf8Error { valid_up_to : nat; error_len : option nat }.

Definition byte_in (lo hi : N) (a : ascii) : bool :=
  ((lo <=? N_of_ascii a) && (N_of_ascii a <=? hi))%N.

(** The second byte after a three-byte or four-byte lead: no overlong form, no
    surrogate, nothing above U+10FFFF. *)
Definition second_of_three (lead : N) : ascii → bool :=
  if (lead =? 224)%N then byte_in 160 191
  else if (lead =? 237)%N then byte_in 128 159
  else byte_in 128 191.
Definition second_of_four (lead : N) : ascii → bool :=
  if (lead =? 240)%N then byte_in 144 191
  else if (lead =? 244)%N then byte_in 128 143
  else byte_in 128 191.

(** The first error of a byte string, [None] when it is UTF-8. *)
Fixpoint utf8_error (i : nat) (s : string) : option Utf8Error :=
  match s with
  | EmptyString => None
  | String a s1 =>
    let n := N_of_ascii a in
    if (n <? 128)%N then utf8_error (1 + i) s1
    else if byte_in 194 223 a then
      match s1 with
      | EmptyString => Some (MkUtf8Error i None)
      | String b s2 =>
        if byte_in 128 191 b then utf8_error (2 + i) s2 else Some (MkUtf8Error i (Some 1))
      end
    else if byte_in 224 239 a then
      match s1 with
      | EmptyString => Some (MkUtf8Error i None)
      | String b s2 =>
        if negb (second_of_three n b) then Some (MkUtf8Error i (Some 1)) else
        match s2 with
        | EmptyString => Some (MkUtf8Error i None)
        | String c s3 =>
          if byte_in 128 191 c then utf8_error (3 + i) s3 else Some (MkUtf8Error i (Some 2))
        end
      end
    else if byte_in 240 244 a then
      match s1 with
      | EmptyString => Some (MkUtf8Error i None)
      | String b s2 =>
        if negb (second_of_four n b) then Some (MkUtf8Error i (Some 1)) else
        match s2 with
        | EmptyString => Some (MkUtf8Error i None)
        | String c s3 =>
          if negb (byte_in 128 191 c) then Some (MkUtf8Error i (Some 2)) else
          match s3 with
          | EmptyString => Some (MkUtf8Error i None)
          | String d s4 =>
            if byte_in 128 191 d then utf8_error (4 + i) s4 else Some (MkUtf8Error i (Some 3))
          end
        end
      end
    else Some (MkUtf8Error i (Some 1))
  end.

Definition is_utf8 (s : string) : bool :=
  match utf8_error 0 s with None => true | Some _ => false end.

(** ** Prefixes, suffixes and extensions *)

(** [str::strip_prefix], [str::strip_suffix]. *)
Fixpoint strip_prefix (p s : string) : option string :=
  match p, s with
  | EmptyString, _ => Some s
  | String a p', String b s' => if Ascii.eqb a b then strip_prefix p' s' else None
  | String _ _, EmptyString => None
  end.
Fixpoint strip_suffix (p s : string) : option string :=
  if String.eqb s p then Some ""
  else match s with
       | EmptyString => None
       | String a s' => String a <$> strip_suffix p s'
       end.

(** [Path::extension] of a file name: what follows the last dot, unless the name
    has no other part. *)
Fixpoint split_last_dot (s : string) : option (string * string) :=
  match s with
  | EmptyString => None
  | String a s' =>
    match split_last_dot s' with
    | Some (stem, extension) => Some (String a stem, extension)
    | None => if Ascii.eqb a "."%char then Some ("", s') else None
    end
  end.
Definition extension (name : string) : option string :=
  match split_last_dot name with
  | Some (EmptyString, _) | None => None
  | Some (_, extension) => Some extension
  end.

(** ** Numbers: [str::parse::<u64>] and [str::parse::<u32>] *)

Definition digit_value (a : ascii) : option Z :=
  if byte_in 48 57 a then Some (Z.of_N (N_of_ascii a) - 48)%Z else None.

Fixpoint parse_digits (bound acc : Z) (s : string) : option Z :=
  match s with
  | EmptyString => Some acc
  | String a s =>
    match digit_value a with
    | Some d => let acc := (acc * 10 + d)%Z in if (bound <? acc)%Z then None else parse_digits bound acc s
    | None => None
    end
  end.

(** A sign is read over; an empty number is an error. *)
Definition parse_unsigned (bound : Z) (s : string) : option Z :=
  match s with
  | EmptyString => None
  | String a rest =>
    if bool_decide (a = "043"%char) then
      match rest with EmptyString => None | _ => parse_digits bound 0 rest end
    else parse_digits bound 0 s
  end.
Definition u32_max : Z := 2 ^ 32 - 1.
Definition parse_u64 : string → option Z := parse_unsigned u64_max.
Definition parse_u32 : string → option Z := parse_unsigned u32_max.

(** ** Rendering *)

(** [{n}] for an unsigned integer. *)
Definition show (n : Z) : string := pretty n.

Definition Utf8Error_display (e : Utf8Error) : string :=
  match error_len e with
  | Some n => "invalid utf-8 sequence of " +:+ show (Z.of_nat n) +:+ " bytes from index "
              +:+ show (Z.of_nat (valid_up_to e))
  | None => "incomplete utf-8 byte sequence from index " +:+ show (Z.of_nat (valid_up_to e))
  end.

(** ** Facts *)

Lemma string_app_cons a (s t : string) : (String a s +:+ t)%string = String a (s +:+ t)%string.
Proof. done. Qed.

Lemma string_app_nil_r (s : string) : (s +:+ "")%string = s.
Proof. induction s as [|a s IH]; [done|]. by rewrite string_app_cons, IH. Qed.

Lemma string_app_assoc (s t u : string) : (s +:+ (t +:+ u) = (s +:+ t) +:+ u)%string.
Proof. induction s as [|a s IH]; [done|]. by rewrite !string_app_cons, IH. Qed.

Lemma string_length_app (s t : string) :
  String.length (s +:+ t)%string = String.length s + String.length t.
Proof. induction s as [|a s IH]; [done|]. rewrite string_app_cons. simpl. by rewrite IH. Qed.

Lemma drop_whitespace_idemp l : drop_whitespace (drop_whitespace l) = drop_whitespace l.
Proof.
  induction l as [|c l IH]; simpl; [done|]. destruct (is_whitespace c) eqn:Hc; [done|].
  simpl. by rewrite Hc.
Qed.

Lemma drop_whitespace_all l :
  drop_whitespace l = [] ↔ Forall (λ c, is_whitespace c = true) l.
Proof.
  induction l as [|c l IH]; simpl.
  - split; [constructor|done].
  - rewrite Forall_cons. destruct (is_whitespace c) eqn:Hc; [|naive_solver]. naive_solver.
Qed.

(** A string is blank exactly when all its characters are white space. *)
Lemma is_blank_spec s : is_blank s = true ↔ Forall (λ c, is_whitespace c = true) (chars s).
Proof.
  unfold is_blank, trim_chars. rewrite bool_decide_eq_true, <- drop_whitespace_all.
  generalize (chars s). intros l. split.
  - intros H. apply (f_equal reverse) in H. rewrite reverse_involutive in H.
    change (reverse []) with (@nil N) in H. rewrite drop_whitespace_all in H.
    rewrite Forall_reverse in H. rewrite <- drop_whitespace_all in H.
    by rewrite drop_whitespace_idemp in H.
  - by intros ->.
Qed.

Lemma strip_prefix_Some p s t : strip_prefix p s = Some t ↔ s = (p +:+ t)%string.
Proof.
  revert s. induction p as [|a p IH]; intros s.
  - simpl. split; [by intros [= ->]|by intros ->].
  - rewrite string_app_cons. destruct s as [|b s]; simpl; [done|].
    destruct (Ascii.eqb_spec a b) as [->|Hab]; [|naive_solver].
    rewrite IH. naive_solver.
Qed.

Lemma string_app_not_right (s t : string) : (s +:+ t)%string = t → s = "".
Proof.
  intros H. apply (f_equal String.length) in H. rewrite string_length_app in H.
  destruct s; [done|]. simpl in H. lia.
Qed.

Lemma strip_suffix_Some p s t : strip_suffix p s = Some t ↔ s = (t +:+ p)%string.
Proof.
  revert t. induction s as [|a s IH]; intros t; cbn [strip_suffix].
  - destruct p; simpl; [|split; [done|by destruct t]].
    split; [by intros [= <-]|]. by destruct t.
  - destruct (String.eqb_spec (String a s) p) as [<-|Hp].
    + split; [by intros [= <-]|]. intros H. symmetry in H.
      by rewrite (string_app_not_right _ _ H).
    + destruct t as [|b t].
      * split; [by destruct (strip_suffix p s)|]. intros H. by destruct Hp.
      * rewrite string_app_cons. specialize (IH t).
        destruct (strip_suffix p s) as [t'|]; simpl; naive_solver.
Qed.

(** ** Visible ASCII *)

Definition visible (a : ascii) : Prop := (33 ≤ N_of_ascii a ≤ 126)%N.
Definition visible_text (s : string) : Prop := Forall visible (String.list_ascii_of_string s).

Lemma visible_text_app s t : visible_text s → visible_text t → visible_text (s +:+ t)%string.
Proof.
  unfold visible_text. induction s as [|a s IH]; [done|]. rewrite string_app_cons. simpl.
  rewrite !Forall_cons. naive_solver.
Qed.

Lemma chars_visible s :
  visible_text s → chars s = N_of_ascii <$> String.list_ascii_of_string s.
Proof.
  unfold visible_text, visible. induction s as [|a s IH]; simpl; [done|].
  rewrite Forall_cons. intros [Ha Hs]. rewrite IH by done.
  by rewrite (proj2 (N.ltb_lt _ _)) by lia.
Qed.

Lemma is_whitespace_visible n : (33 ≤ n ≤ 126)%N → is_whitespace n = false.
Proof.
  intros. unfold is_whitespace. repeat (apply orb_false_iff; split).
  all: rewrite ?andb_false_iff, ?N.leb_gt, ?N.eqb_neq; lia.
Qed.

Lemma trim_visible l : Forall (λ n, 33 ≤ n ≤ 126)%N l → trim_chars l = l.
Proof.
  assert (∀ l, Forall (λ n, 33 ≤ n ≤ 126)%N l → drop_whitespace l = l) as Hdrop.
  { intros [|n l']; [done|]. rewrite Forall_cons. intros [Hn _]. simpl.
    by rewrite is_whitespace_visible. }
  intros Hl. unfold trim_chars. rewrite (Hdrop l) by done.
  rewrite Hdrop by (by apply Forall_reverse). apply reverse_involutive.
Qed.

Lemma visible_no_surrounding_whitespace s :
  visible_text s → has_surrounding_whitespace s = false.
Proof.
  intros Hs. unfold has_surrounding_whitespace. rewrite bool_decide_eq_false. intros H. apply H.
  rewrite chars_visible by done. apply trim_visible, Forall_fmap. exact Hs.
Qed.

Lemma visible_no_control s : visible_text s → existsb is_control (chars s) = false.
Proof.
  intros Hs. rewrite chars_visible by done. unfold visible_text, visible in Hs.
  induction Hs as [|a l Ha _ IH]; [done|].
  rewrite fmap_cons. cbn [existsb]. rewrite IH, orb_false_r.
  unfold is_control. rewrite orb_false_iff, andb_false_iff, !N.leb_gt. lia.
Qed.
