(* ===== verification/Paths.v ===== *)
(** * Paths ([std::path] on Unix) and configuration text

    A path is its string; its components decide equality and prefixes.  Maps and
    sets with string keys are walked in the order of their keys. *)

From stdpp Require Import gmap strings.
From S2P Require Export Text.

Local Open Scope nat_scope.

(** A [BTreeMap<String, _>] in the order of its keys. *)
Definition in_key_order {A} (m : gmap string A) : list (string * A) :=
  sort_by (λ p q, String.leb p.1 q.1) (map_to_list m).
Definition values_in_order {A} (m : gmap string A) : list A := (in_key_order m).*2.
Definition names_in_order (s : gset string) : list string := sort_by String.leb (elements s).

Lemma in_key_order_elem {A} (m : gmap string A) k v : (k, v) ∈ in_key_order m ↔ m !! k = Some v.
Proof. unfold in_key_order. rewrite sort_by_perm. apply elem_of_map_to_list. Qed.

(** [str::split] at a character. *)
Fixpoint split_at (c : ascii) (word s : string) : list string :=
  match s with
  | EmptyString => [word]
  | String a s => if Ascii.eqb a c then word :: split_at c "" s else split_at c (word +:+ String a "") s
  end.
Definition split (c : ascii) (s : string) : list string := split_at c "" s.

Fixpoint split_once (c : ascii) (s : string) : option (string * string) :=
  match s with
  | EmptyString => None
  | String a s =>
    if Ascii.eqb a c then Some ("", s)
    else match split_once c s with Some (l, r) => Some (String a l, r) | None => None end
  end.

(** The parts around the last occurrence of a character ([str::rfind]). *)
Fixpoint split_last (c : ascii) (s : string) : option (string * string) :=
  match s with
  | EmptyString => None
  | String a s =>
    match split_last c s with
    | Some (l, r) => Some (String a l, r)
    | None => if Ascii.eqb a c then Some ("", s) else None
    end
  end.

(** [str::contains] and [str::replace] of a character. *)
Definition contains_char (c : ascii) (s : string) : bool :=
  existsb (Ascii.eqb c) (String.list_ascii_of_string s).
Definition replace_char (c d : ascii) (s : string) : string :=
  String.string_of_list_ascii ((λ a, if Ascii.eqb a c then d else a) <$> String.list_ascii_of_string s).

Definition slash : ascii := "047"%char.
Definition dot : ascii := "046"%char.

(** ** Components *)

Inductive Component := RootDir | CurDir | ParentDir | Normal (name : string).
#[export] Instance Component_eq_dec : EqDecision Component.
Proof. solve_decision. Defined.

Definition has_root (path : string) : bool :=
  match path with String a _ => Ascii.eqb a slash | EmptyString => false end.
Definition is_absolute (path : string) : bool := has_root path.

(** An empty part or [.] is no component. *)
Definition component (part : string) : option Component :=
  if bool_decide (part = "") || bool_decide (part = ".") then None
  else if bool_decide (part = "..") then Some ParentDir else Some (Normal part).

(** [Path::components]: a leading [.] of a relative path stays. *)
Definition components (path : string) : list Component :=
  let parts := split slash path in
  if has_root path then RootDir :: omap component parts
  else match parts with
       | part :: rest => if bool_decide (part = ".") then CurDir :: omap component rest
                         else omap component parts
       | [] => []
       end.

(** [Path::starts_with]. *)
Definition path_starts_with (path root : string) : bool :=
  bool_decide (components root `prefix_of` components path).

Definition is_alphanumeric (a : ascii) : bool :=
  byte_in 48 57 a || byte_in 65 90 a || byte_in 97 122 a.

(** The test on a sysctl key, of the configuration and of the driver. *)
Definition sysctl_key_valid (key : string) : bool :=
  negb (bool_decide (key = "") || contains_char slash key
        || existsb (λ part, bool_decide (part = "")
             || negb (forallb (λ a, is_alphanumeric a || Ascii.eqb a "095"%char || Ascii.eqb a "045"%char)
                        (String.list_ascii_of_string part)))
             (split dot key)).

Example components_of_a_path :
  components "/sys//fs/./cgroup/../x" = [RootDir; Normal "sys"; Normal "fs"; Normal "cgroup"; ParentDir; Normal "x"]
  ∧ components "./a" = [CurDir; Normal "a"] ∧ components "" = []
  ∧ path_starts_with "/proc/sysx" "/proc/sys" = false ∧ path_starts_with "/proc/sys/a" "/proc/sys" = true.
Proof. by vm_compute. Qed.
