(* ===== verification/Words.v ===== *)
(** * Splitting text into words and joining them

    [split_whitespace] of words joined by one space gives the words back, for
    words of valid UTF-8. *)

From S2P Require Export Text.

Open Scope string_scope.
Open Scope list_scope.

(** A character with all its bytes: decoding it does not depend on what follows. *)
Definition whole (p : N * string) : Prop :=
  p.2 ≠ "" ∧ ∀ rest, chars_with_bytes (p.2 +:+ rest) = p :: chars_with_bytes rest.

Definition flat (l : list (N * string)) : string := foldr (λ p s, p.2 +:+ s) "" l.

Definition is_word (w : string) : Prop :=
  ∃ l, l ≠ [] ∧ Forall whole l ∧ Forall (λ p, is_whitespace p.1 = false) l ∧ w = flat l.

Lemma byte_in_bounds lo hi a : byte_in lo hi a = true → (lo <= N_of_ascii a <= hi)%N.
Proof. unfold byte_in. rewrite andb_true_iff, !N.leb_le. done. Qed.

(** [chars_with_bytes] by the class of the first byte. *)
Lemma chars_ascii a s :
  (N_of_ascii a < 128)%N →
  chars_with_bytes (String a s) = (N_of_ascii a, String a "") :: chars_with_bytes s.
Proof. intros H. simpl. apply N.ltb_lt in H. by rewrite H. Qed.

Lemma chars_two a b s :
  (128 <= N_of_ascii a < 224)%N →
  chars_with_bytes (String a (String b s))
  = (continuation (N.land (N_of_ascii a) 31) b, String a (String b "")) :: chars_with_bytes s.
Proof.
  intros [H1 H2]. cbn [chars_with_bytes]. apply N.ltb_ge in H1. apply N.ltb_lt in H2.
  by rewrite H1, H2.
Qed.

Lemma chars_three a b c s :
  (224 <= N_of_ascii a < 240)%N →
  chars_with_bytes (String a (String b (String c s)))
  = (continuation (continuation (N.land (N_of_ascii a) 15) b) c, String a (String b (String c "")))
    :: chars_with_bytes s.
Proof.
  intros [H1 H2]. cbn [chars_with_bytes].
  assert ((N_of_ascii a <? 128)%N = false) as -> by (apply N.ltb_ge; lia).
  apply N.ltb_ge in H1. apply N.ltb_lt in H2. by rewrite H1, H2.
Qed.

Lemma chars_four a b c d s :
  (240 <= N_of_ascii a)%N →
  chars_with_bytes (String a (String b (String c (String d s))))
  = (continuation (continuation (continuation (N.land (N_of_ascii a) 7) b) c) d,
      String a (String b (String c (String d "")))) :: chars_with_bytes s.
Proof.
  intros H. cbn [chars_with_bytes].
  assert ((N_of_ascii a <? 128)%N = false) as -> by (apply N.ltb_ge; lia).
  assert ((N_of_ascii a <? 224)%N = false) as -> by (apply N.ltb_ge; lia).
  apply N.ltb_ge in H. by rewrite H.
Qed.

(** Peels the tests off a byte string without UTF-8 errors. *)
Ltac utf8_cases :=
  repeat match goal with
  | H : utf8_error _ _ = None |- _ =>
    progress cbn [utf8_error] in H
  | H : match ?s with EmptyString => _ | String _ _ => _ end = None |- _ =>
    destruct s; [discriminate H|]
  | H : (if negb ?b then _ else _) = None |- _ => destruct b eqn:?; [|discriminate H]; cbn [negb] in H
  | H : (if ?b then _ else Some _) = None |- _ => destruct b eqn:?; [|discriminate H]
  | H : (if ?b then _ else _) = None |- _ => destruct b eqn:?
  end.

Lemma utf8_whole n s i :
  String.length s <= n → utf8_error i s = None → Forall whole (chars_with_bytes s).
Proof.
  revert s i. induction n as [|n IH]; intros [|a s] i Hn H; simpl in Hn; try lia; [constructor..|].
  utf8_cases.
  - apply N.ltb_lt in Heqb. rewrite chars_ascii by done.
    constructor; [|by apply (IH _ (1 + i)%nat); [lia|]].
    split; [done|]. intros rest. by apply chars_ascii.
  - apply byte_in_bounds in Heqb0. rewrite chars_two by lia. simpl in Hn.
    constructor; [|by apply (IH _ (2 + i)%nat); [lia|]].
    split; [done|]. intros rest. apply chars_two. lia.
  - apply byte_in_bounds in Heqb1. rewrite chars_three by lia. simpl in Hn.
    constructor; [|by apply (IH _ (3 + i)%nat); [lia|]].
    split; [done|]. intros rest. apply chars_three. lia.
  - apply byte_in_bounds in Heqb2. rewrite chars_four by lia. simpl in Hn.
    constructor; [|by apply (IH _ (4 + i)%nat); [lia|]].
    split; [done|]. intros rest. apply chars_four. lia.
Qed.

Lemma flat_app l1 l2 : flat (l1 ++ l2) = flat l1 +:+ flat l2.
Proof. induction l1 as [|p l1 IH]; simpl; [done|]. by rewrite IH, string_app_assoc. Qed.

Lemma flat_nonempty l : l ≠ [] → Forall whole l → flat l ≠ "".
Proof.
  destruct l as [|[c b] l]; [done|]. intros _ [[Hb _] _]%Forall_cons. simpl in *.
  by destruct b.
Qed.

Lemma chars_flat l rest :
  Forall whole l → chars_with_bytes (flat l +:+ rest) = l ++ chars_with_bytes rest.
Proof.
  induction 1 as [|p l [_ Hp] _ IH]; simpl; [done|]. by rewrite <- string_app_assoc, Hp, IH.
Qed.

Lemma split_words_run acc l r :
  Forall (λ p, is_whitespace p.1 = false) l →
  split_words acc (l ++ r) = split_words (acc +:+ flat l) r.
Proof.
  revert acc. induction l as [|[c b] l IH]; intros acc Hl; simpl; [by rewrite string_app_nil_r|].
  apply Forall_cons in Hl as [Hc Hl]. simpl in Hc. rewrite Hc, IH by done.
  by rewrite string_app_assoc.
Qed.

(** Every piece is a word. *)
Lemma split_words_are_words l acc :
  Forall whole l → Forall whole acc → Forall (λ p, is_whitespace p.1 = false) acc →
  Forall is_word (split_words (flat acc) l).
Proof.
  assert (∀ acc, acc ≠ [] → Forall whole acc → Forall (λ p, is_whitespace p.1 = false) acc →
    is_word (flat acc)) as Hword by (intros a ???; by exists a).
  intros Hl. revert acc. induction Hl as [|[c b] l Hcb Hl IH]; intros acc Hacc Hns; simpl.
  - destruct acc as [|p acc]; [by rewrite bool_decide_eq_true_2|].
    rewrite bool_decide_eq_false_2 by (by apply flat_nonempty). constructor; [|constructor].
    by apply Hword.
  - destruct (is_whitespace c) eqn:Hc.
    + assert (Forall is_word (split_words "" l)) as Hrest
        by (apply (IH []); constructor).
      destruct acc as [|p acc]; [by rewrite bool_decide_eq_true_2|].
      rewrite bool_decide_eq_false_2 by (by apply flat_nonempty). constructor; [|done].
      by apply Hword.
    + replace (flat acc +:+ b) with (flat (acc ++ [(c, b)]))
        by (rewrite flat_app; simpl; by rewrite string_app_nil_r).
      apply IH; apply Forall_app; (split; [done|]); constructor; done || constructor.
Qed.

Lemma split_whitespace_words s : is_utf8 s = true → Forall is_word (split_whitespace s).
Proof.
  unfold is_utf8. destruct (utf8_error 0 s) eqn:H; [done|]. intros _.
  apply (split_words_are_words _ []); [|constructor..]. by eapply utf8_whole.
Qed.

Lemma split_whitespace_join ws :
  Forall is_word ws → split_whitespace (String.concat " " ws) = ws.
Proof.
  unfold split_whitespace.
  induction 1 as [|w ws (l & Hne & Hl & Hns & ->) Hws IH]; [done|].
  assert (split_words "" (l ++ []) = [flat l]) as Hlast.
  { rewrite split_words_run by done. simpl.
    by rewrite bool_decide_eq_false_2 by (by apply flat_nonempty). }
  destruct ws as [|w' ws].
  - cbn [String.concat]. rewrite <- (string_app_nil_r (flat l)) at 1.
    by rewrite chars_flat by done.
  - change (String.concat " " (flat l :: w' :: ws))
      with (flat l +:+ String " " (String.concat " " (w' :: ws))).
    rewrite chars_flat, split_words_run by done.
    rewrite chars_ascii by done. cbn [split_words].
    change (is_whitespace (N_of_ascii " ")) with true. cbv iota.
    rewrite bool_decide_eq_false_2 by (by apply flat_nonempty). by rewrite IH.
Qed.
