(* ===== verification/Domain.v ===== *)
(** * Domain values ([tuning_agent/src/domain/])

    Identifiers, content digests, candidates, commit authorizations, capability
    metadata, mutation and measurement records.  [serde_json::Value], its
    encoding and SHA-256 are code outside the repository: parameters, given by
    the classes [Json], [Serialize] and [Sha256]. *)

From Stdlib Require Export Floats.SpecFloat.
From S2P Require Export Prelude Text.

Open Scope string_scope.
Open Scope list_scope.
Open Scope nat_scope.

#[export] Instance spec_float_eq_dec : EqDecision spec_float.
Proof. solve_decision. Defined.

(** ** Code outside the repository *)

(** [serde_json::Value], with the operations the core uses. *)
Class Json := {
  Value : Type;
  Value_eq_dec :: EqDecision Value;
  Value_Null : Value;
  is_null : Value → bool;
  is_object : Value → bool;
  is_array : Value → bool;
  is_boolean : Value → bool;
  as_f64 : Value → option spec_float;
}.

(** [serde_json::to_vec] at a type, and [Sha256::digest] rendered with [{:x}]. *)
Class Serialize (A : Type) := to_vec : A → result string string.
Class Sha256 := sha256_hex : string → string.

(** ** Identifiers ([ids.rs]) *)

(** The [string_id!] macro generates one private newtype per name. *)
Inductive id_name :=
  | N_Capability | N_Change | N_Contract | N_Digest | N_MeasurementSession | N_Operation
  | N_Provider | N_ProviderVersion | N_Transaction | N_Commit.

Definition label (n : id_name) : string :=
  match n with
  | N_Capability => "capability id"
  | N_Change => "change id"
  | N_Contract => "contract id"
  | N_Digest => "digest"
  | N_MeasurementSession => "measurement session id"
  | N_Operation => "operation id"
  | N_Provider => "provider id"
  | N_ProviderVersion => "provider version"
  | N_Transaction => "transaction id"
  | N_Commit => "commit id"
  end.

Record string_id (n : id_name) := StringId { as_str : string }.
Arguments StringId {n} as_str.
Arguments as_str {n} s.
Add Printing Constructor string_id.

Definition CapabilityId := string_id N_Capability.
Definition ChangeId := string_id N_Change.
Definition ContractId := string_id N_Contract.
Definition Digest := string_id N_Digest.
Definition MeasurementSessionId := string_id N_MeasurementSession.
Definition OperationId := string_id N_Operation.
Definition ProviderId := string_id N_Provider.
Definition ProviderVersion := string_id N_ProviderVersion.
Definition TransactionId := string_id N_Transaction.
Definition CommitId := string_id N_Commit.

#[export] Instance string_id_eq_dec n : EqDecision (string_id n).
Proof. solve_decision. Defined.
#[export] Instance string_id_countable n : Countable (string_id n).
Proof. refine (inj_countable' as_str StringId _). by intros []. Defined.

(** The derived order of identifiers, that of their bytes. *)
Definition id_le {n} (x y : string_id n) : bool := String.leb (as_str x) (as_str y).

Lemma id_le_total {n} (x y : string_id n) : id_le x y = true ∨ id_le y x = true.
Proof. unfold id_le. destruct (String.leb_total (as_str x) (as_str y)); auto. Qed.

Lemma id_le_trans {n} (x y z : string_id n) : id_le x y = true → id_le y z = true → id_le x z = true.
Proof.
  unfold id_le. intros H1 H2. apply Is_true_true.
  apply (transitivity (R := String.le) (y := as_str y)); by apply Is_true_true.
Qed.

Lemma id_le_antisymm {n} (x y : string_id n) : id_le x y = true → id_le y x = true → x = y.
Proof.
  destruct x as [x], y as [y]. unfold id_le. simpl. intros. f_equal. by apply String.leb_antisym.
Qed.

(** The identifiers of a [BTreeSet] in its order. *)
Definition ids_in_order {n} (ids : gset (string_id n)) : list (string_id n) :=
  sort_by id_le (elements ids).

Lemma elem_of_ids_in_order {n} (ids : gset (string_id n)) id : id ∈ ids_in_order ids ↔ id ∈ ids.
Proof. unfold ids_in_order. by rewrite sort_by_perm, elem_of_elements. Qed.

Definition validate_identifier (label value : string) (max_len : nat) : result string unit :=
  if bool_decide (value = "") then Err (label +:+ " must not be empty")
  else if has_surrounding_whitespace value then
    Err (label +:+ " must not have surrounding whitespace")
  else if bool_decide (max_len < String.length value) then
    Err (label +:+ " exceeds " +:+ show (Z.of_nat max_len) +:+ " bytes")
  else if existsb is_control (chars value) then
    Err (label +:+ " must not contain control characters")
  else Ok tt.

(** [$name::new], shared by [FromStr], [TryFrom] and [Deserialize]. *)
Definition string_id_new (n : id_name) (value : string) : result string (string_id n) :=
  _ ← validate_identifier (label n) value 256;
  Ok (StringId value).

Definition EpisodeId_new (value : Z) : Z := value.
Abbreviation EpisodeId := Z.

Record ResourceKey := MkResourceKey { resource_str : string }.
#[export] Instance ResourceKey_eq_dec : EqDecision ResourceKey.
Proof. solve_decision. Defined.
#[export] Instance ResourceKey_countable : Countable ResourceKey.
Proof. refine (inj_countable' resource_str MkResourceKey _). by intros []. Defined.

Definition ResourceKey_new (value : string) : result string ResourceKey :=
  _ ← validate_identifier "resource key" value 4096;
  Ok (MkResourceKey value).

Lemma validate_identifier_visible label s max_len :
  s ≠ "" → visible_text s → String.length s ≤ max_len → validate_identifier label s max_len = Ok tt.
Proof.
  intros Hne Hs Hlen. unfold validate_identifier.
  rewrite bool_decide_eq_false_2, visible_no_surrounding_whitespace, bool_decide_eq_false_2,
    visible_no_control by (done || lia). done.
Qed.

(** ** Content digests ([content_digest.rs]) *)

Definition content_digest {A} `{Serialize A, Sha256} (value : A) : result string Digest :=
  encoded ← map_err (λ error, "failed to serialize digest input: " +:+ error) (to_vec value);
  string_id_new N_Digest ("sha256:" +:+ sha256_hex encoded).

(** [{:x}] of a SHA-256 digest: 64 lower-case hexadecimal digits. *)
Class Sha256Laws `{!Sha256} : Prop := {
  sha256_hex_length s : String.length (sha256_hex s) = 64;
  sha256_hex_visible s : visible_text (sha256_hex s);
}.

Lemma content_digest_encoded {A} `{Serialize A, !Sha256, !Sha256Laws} (a : A) s :
  to_vec a = Ok s → content_digest a = Ok (StringId ("sha256:" +:+ sha256_hex s)).
Proof.
  intros Ha. unfold content_digest, string_id_new. rewrite Ha. simpl.
  rewrite validate_identifier_visible; [done|done| |].
  - apply visible_text_app; [|apply sha256_hex_visible].
    unfold visible_text, visible. simpl. repeat constructor; vm_compute; discriminate.
  - rewrite string_length_app, sha256_hex_length. simpl. lia.
Qed.

(** ** Candidates ([candidate.rs]) *)

Record Candidate := MkCandidate { change_ids : list ChangeId; candidate_digest : Digest }.
#[export] Instance Candidate_eq_dec : EqDecision Candidate.
Proof. solve_decision. Defined.

Section Candidate.
Context `{Serialize (list ChangeId), Sha256}.

Definition Candidate_new (ids : list ChangeId) : result string Candidate :=
  if bool_decide (ids = []) then Err "candidate must contain at least one change"
  else if bool_decide (size (list_to_set ids : gset ChangeId) ≠ length ids) then
    Err "candidate contains duplicate change ids"
  else
    digest ← content_digest ids;
    Ok (MkCandidate ids digest).

(** [Deserialize for Candidate], from the fields serde decoded. *)
Definition Candidate_deserialize (ids : list ChangeId) (digest : Digest) : result string Candidate :=
  candidate ← Candidate_new ids;
  _ ← reject (bool_decide (candidate_digest candidate ≠ digest))
    "candidate digest does not match change ids";
  Ok candidate.
End Candidate.

(** Encoding a list of identifiers does not fail. *)
Class EncodesIds `{Serialize (list ChangeId)} : Prop :=
  encode_ids (ids : list ChangeId) : ∃ s, to_vec ids = Ok s.

Lemma size_list_to_set_NoDup (ids : list ChangeId) :
  size (list_to_set ids : gset ChangeId) = length ids ↔ NoDup ids.
Proof.
  split; [|intros; by apply size_list_to_set].
  induction ids as [|id ids IH]; [constructor|].
  rewrite list_to_set_cons. cbn [length]. intros Hs.
  assert (size (list_to_set ids : gset ChangeId) ≤ length ids).
  { clear. induction ids as [|id ids IH]; [done|]. rewrite list_to_set_cons. cbn [length].
    pose proof (size_union_alt {[id]} (list_to_set ids : gset ChangeId)) as Hu.
    rewrite size_singleton in Hu. rewrite Hu.
    assert (size (list_to_set ids ∖ {[id]} : gset ChangeId) ≤ size (list_to_set ids : gset ChangeId)).
    { apply subseteq_size. set_solver. }
    lia. }
  destruct (decide (id ∈ ids)) as [Hin|Hin].
  - rewrite subseteq_union_1_L in Hs; [lia|]. rewrite singleton_subseteq_l. by apply elem_of_list_to_set.
  - constructor; [done|]. apply IH. rewrite size_union, size_singleton in Hs; [lia|].
    apply disjoint_singleton_l. by rewrite elem_of_list_to_set.
Qed.

Lemma Candidate_new_Ok `{Serialize (list ChangeId), !Sha256} (ids : list ChangeId) (c : Candidate) :
  Candidate_new ids = Ok c ↔
  ids ≠ [] ∧ NoDup ids ∧ change_ids c = ids ∧ content_digest ids = Ok (candidate_digest c).
Proof.
  unfold Candidate_new. case_bool_decide as He; [naive_solver|].
  case_bool_decide as Hd.
  - rewrite size_list_to_set_NoDup in Hd. naive_solver.
  - rewrite size_list_to_set_NoDup in Hd.
    rewrite result_bind_Ok. destruct c as [ids' d]. simpl. split; [naive_solver|].
    intros (_ & _ & -> & Hc). eauto.
Qed.

Lemma Candidate_new_total `{EncodesIds, !Sha256, !Sha256Laws} (ids : list ChangeId) :
  ids ≠ [] → NoDup ids → ∃ c, Candidate_new ids = Ok c.
Proof.
  intros Hne Hnd. destruct (encode_ids ids) as [s Hs].
  exists (MkCandidate ids (StringId ("sha256:" +:+ sha256_hex s))).
  apply Candidate_new_Ok. split_and!; try done. by apply content_digest_encoded.
Qed.

Definition candidate_contains (c : Candidate) (id : ChangeId) : bool :=
  bool_decide (id ∈ change_ids c).

(** ** Evaluation pins and commit authorizations ([evaluation.rs], [commit.rs]) *)

Record EvaluationIntentPin := MkEvaluationIntentPin {
  pin_episode_id : EpisodeId;
  pin_intent_digest : Digest;
  pin_contract_digest : Digest;
}.
#[export] Instance EvaluationIntentPin_eq_dec : EqDecision EvaluationIntentPin.
Proof. solve_decision. Defined.

Record CommitAuthorization := MkCommitAuthorization {
  auth_intent_pin : EvaluationIntentPin;
  auth_candidate_digest : Digest;
  auth_decision_digest : Digest;
  auth_evaluation_evidence_digest : Digest;
  authorization_digest : Digest;
}.
#[export] Instance CommitAuthorization_eq_dec : EqDecision CommitAuthorization.
Proof. solve_decision. Defined.

Record AuthorizationPayload := MkAuthorizationPayload {
  payload_intent_pin : EvaluationIntentPin;
  payload_candidate_digest : Digest;
  payload_decision_digest : Digest;
  payload_evaluation_evidence_digest : Digest;
}.

Section CommitAuthorization.
Context `{Serialize AuthorizationPayload, Sha256}.

Definition CommitAuthorization_issue (intent_pin : EvaluationIntentPin)
    (candidate_digest decision_digest evaluation_evidence_digest : Digest)
    : result string CommitAuthorization :=
  digest ← content_digest (MkAuthorizationPayload intent_pin candidate_digest
    decision_digest evaluation_evidence_digest);
  Ok (MkCommitAuthorization intent_pin candidate_digest decision_digest
    evaluation_evidence_digest digest).

(** [Deserialize for CommitAuthorization]: the decoded fields are re-issued
    and the stored digest is compared. *)
Definition CommitAuthorization_deserialize (unchecked : CommitAuthorization)
    : result string CommitAuthorization :=
  authorization ← CommitAuthorization_issue (auth_intent_pin unchecked)
    (auth_candidate_digest unchecked) (auth_decision_digest unchecked)
    (auth_evaluation_evidence_digest unchecked);
  _ ← reject (bool_decide (authorization_digest authorization ≠ authorization_digest unchecked))
    "commit authorization digest does not match its evidence digests";
  Ok authorization.
End CommitAuthorization.

Definition auth_contract_digest (a : CommitAuthorization) : Digest :=
  pin_contract_digest (auth_intent_pin a).

(** ** Phases and capability metadata ([episode.rs], [capability.rs]) *)

Inductive EpisodePhase :=
  | Clean | Experimenting | CommitPending | RollingBack | RecoveryRequired | Committed.
#[export] Instance EpisodePhase_eq_dec : EqDecision EpisodePhase.
Proof. solve_decision. Defined.

(** [phase as u8]. *)
Definition phase_index (p : EpisodePhase) : nat :=
  match p with
  | Clean => 0 | Experimenting => 1 | CommitPending => 2
  | RollingBack => 3 | RecoveryRequired => 4 | Committed => 5
  end.

Inductive CapabilityKind := Probe | Mutation | Measurement | Comparison.
#[export] Instance CapabilityKind_eq_dec : EqDecision CapabilityKind.
Proof. solve_decision. Defined.

Inductive CapabilityRole := AgentSelectable | RuntimeSystemGuardrail.
#[export] Instance CapabilityRole_eq_dec : EqDecision CapabilityRole.
Proof. solve_decision. Defined.

Inductive EffectClass :=
  | PureComputation | ReadOnly | ManagedObservation | ReversibleMutation | IrreversibleMutation.
#[export] Instance EffectClass_eq_dec : EqDecision EffectClass.
Proof. solve_decision. Defined.

Inductive ProviderClass := Builtin | Local | Mcp.
#[export] Instance ProviderClass_eq_dec : EqDecision ProviderClass.
Proof. solve_decision. Defined.

Record ProviderPin := MkProviderPin {
  provider_id : ProviderId;
  provider_version : ProviderVersion;
  provider_class : ProviderClass;
  manifest_digest : Digest;
}.
#[export] Instance ProviderPin_eq_dec : EqDecision ProviderPin.
Proof. solve_decision. Defined.

Record CapabilityLimits := MkCapabilityLimits { timeout_ms : Z; max_output_bytes : Z }.
#[export] Instance CapabilityLimits_eq_dec : EqDecision CapabilityLimits.
Proof. solve_decision. Defined.

Definition CapabilityLimits_default : CapabilityLimits := MkCapabilityLimits 30000 (64 * 1024).

Section CapabilityMeta.
Context `{J : Json}.

Record CapabilityMeta := MkCapabilityMeta {
  meta_id : CapabilityId;
  kind : CapabilityKind;
  effect : EffectClass;
  provider : ProviderPin;
  description : string;
  input_schema : Value;
  output_schema : Value;
  role : CapabilityRole;
  allowed_phases : list EpisodePhase;
  limits : CapabilityLimits;
  deterministic : bool;
  idempotent : bool;
}.
#[export] Instance CapabilityMeta_eq_dec : EqDecision CapabilityMeta.
Proof. solve_decision. Defined.

Definition CapabilityMeta_new (id : CapabilityId) (kind : CapabilityKind) (effect : EffectClass)
    (provider : ProviderPin) (description : string) (input_schema output_schema : Value)
    : CapabilityMeta :=
  {| meta_id := id; kind := kind; effect := effect; provider := provider;
     description := description; input_schema := input_schema; output_schema := output_schema;
     role := AgentSelectable; allowed_phases := []; limits := CapabilityLimits_default;
     deterministic := false; idempotent := false |}.

(** [Vec::dedup]: drops each element equal to its predecessor. *)
Fixpoint dedup_phases (l : list EpisodePhase) : list EpisodePhase :=
  match l with
  | p :: (q :: _) as l' => if bool_decide (p = q) then dedup_phases l' else p :: dedup_phases l'
  | l => l
  end.

Definition phase_le (p q : EpisodePhase) : Prop := phase_index p ≤ phase_index q.
#[export] Instance phase_le_dec : RelDecision phase_le.
Proof. intros p q. unfold phase_le. apply _. Defined.

Definition with_allowed_phases (m : CapabilityMeta) (phases : list EpisodePhase) : CapabilityMeta :=
  {| meta_id := meta_id m; kind := kind m; effect := effect m; provider := provider m;
     description := description m; input_schema := input_schema m;
     output_schema := output_schema m; role := role m;
     allowed_phases := dedup_phases (merge_sort phase_le phases);
     limits := limits m; deterministic := deterministic m; idempotent := idempotent m |}.

Definition is_allowed_in (m : CapabilityMeta) (phase : EpisodePhase) : bool :=
  bool_decide (phase ∈ allowed_phases m).

Definition is_agent_selectable (m : CapabilityMeta) : bool :=
  bool_decide (role m = AgentSelectable).
End CapabilityMeta.

(** ** Provider errors ([error.rs]) *)

Inductive ProviderErrorKind :=
  | InvalidRequest | PermissionDenied | Conflict | Unavailable
  | Timeout | Protocol | UnknownState | Internal.

(** [{:?}] of the derived [Debug]. *)
Definition ProviderErrorKind_debug (k : ProviderErrorKind) : string :=
  match k with
  | InvalidRequest => "InvalidRequest"
  | PermissionDenied => "PermissionDenied"
  | Conflict => "Conflict"
  | Unavailable => "Unavailable"
  | Timeout => "Timeout"
  | Protocol => "Protocol"
  | UnknownState => "UnknownState"
  | Internal => "Internal"
  end.

Record ProviderError := MkProviderError {
  provider_error_kind : ProviderErrorKind;
  provider_error_message : string;
  retryable : bool;
}.

Definition ProviderError_new (k : ProviderErrorKind) (message : string) : ProviderError :=
  MkProviderError k message false.

Definition with_retryable (e : ProviderError) (retryable : bool) : ProviderError :=
  MkProviderError (provider_error_kind e) (provider_error_message e) retryable.

Definition ProviderError_display (e : ProviderError) : string :=
  ProviderErrorKind_debug (provider_error_kind e) +:+ ": " +:+ provider_error_message e.

(** ** Invocations, probes and mutations ([invocation.rs], [probe.rs], [mutation.rs]) *)

Record InvocationContext := MkInvocationContext {
  ctx_episode_id : EpisodeId;
  ctx_operation_id : OperationId;
}.

Section Mutation.
Context `{J : Json}.

Record ProbeRequest := MkProbeRequest { probe_context : InvocationContext; probe_arguments : Value }.
Record ProbeEvidence := MkProbeEvidence {
  observed_at_ns : Z; probe_data : Value; warnings : list string }.

Record MutationState := MkMutationState { state_value : Value; state_digest : Digest }.
#[export] Instance MutationState_eq_dec : EqDecision MutationState.
Proof. solve_decision. Defined.

(** [Deserialize for MutationState]. *)
Definition MutationState_deserialize `{Serialize Value, Sha256} (value : Value) (digest : Digest)
    : result string MutationState :=
  expected ← content_digest value;
  _ ← reject (bool_decide (digest ≠ expected)) "mutation state digest does not match its value";
  Ok (MkMutationState value digest).

Record MutationPrepareRequest := MkPrepareRequest {
  prepare_context : InvocationContext; prepare_arguments : Value }.

Record PreparedMutation := MkPreparedMutation {
  prepared_capability_id : CapabilityId;
  prepared_provider : ProviderPin;
  prepared_resource : ResourceKey;
  baseline : MutationState;
  desired : MutationState;
  prepared_driver_data : Value;
}.
#[export] Instance PreparedMutation_eq_dec : EqDecision PreparedMutation.
Proof. solve_decision. Defined.

Record MutationApplyRequest := MkApplyRequest {
  apply_operation_id : OperationId; apply_prepared : PreparedMutation }.
Record MutationRestoreRequest := MkRestoreRequest {
  restore_operation_id : OperationId; restore_prepared : PreparedMutation }.
Record MutationFinalizeRequest := MkFinalizeRequest {
  finalize_operation_id : OperationId; finalize_prepared : PreparedMutation }.
Record MutationQuery := MkQuery { query_operation_id : OperationId }.
Record MutationVerifyRequest := MkVerifyRequest {
  verify_operation_id : OperationId;
  verify_prepared : PreparedMutation;
  verify_expected : MutationState;
}.

Inductive MutationOperationState := NotApplied | Applied | Restored | Finalized_op | Unknown.
#[export] Instance MutationOperationState_eq_dec : EqDecision MutationOperationState.
Proof. solve_decision. Defined.

Record MutationReceipt := MkReceipt {
  receipt_operation_id : OperationId;
  receipt_state : MutationOperationState;
  receipt_observed : option MutationState;
  receipt_driver_data : Value;
}.
#[export] Instance MutationReceipt_eq_dec : EqDecision MutationReceipt.
Proof. solve_decision. Defined.

Record MutationStatus := MkStatus {
  status_operation_id : OperationId;
  status_state : MutationOperationState;
  status_observed : option MutationState;
  status_driver_data : Value;
}.

Record MutationVerification := MkVerification {
  matched : bool;
  verification_observed : option MutationState;
  verification_details : Value;
}.
End Mutation.

(** ** Measurements and comparisons ([measurement.rs], [comparison.rs]) *)

Inductive MetricKind := Gauge | Counter | Boolean | Histogram.
#[export] Instance MetricKind_eq_dec : EqDecision MetricKind.
Proof. solve_decision. Defined.

Inductive MetricQuality := Valid | Partial | Invalid.
#[export] Instance MetricQuality_eq_dec : EqDecision MetricQuality.
Proof. solve_decision. Defined.

(** [f64::is_finite]. *)
Definition f64_is_finite (x : spec_float) : bool :=
  match x with S754_zero _ | S754_finite _ _ _ => true | _ => false end.

Section Measurement.
Context `{J : Json}.

Record MetricValue := MkMetricValue {
  metric_value : Value; metric_unit : string; metric_kind : MetricKind }.

Record MetricBatch := MkMetricBatch {
  started_at_ns : Z;
  ended_at_ns : Z;
  quality : MetricQuality;
  workload_fingerprint : option string;
  metrics : gmap string MetricValue;
  provenance : Value;
}.

Definition validate_text (label value : string) (max_len : nat) : result string unit :=
  reject (bool_decide (value = "") || bool_decide (max_len < String.length value)
          || has_surrounding_whitespace value || existsb is_control (chars value))
    (label +:+ " is invalid").

Definition metric_kind_matches (metric : MetricValue) : bool :=
  match metric_kind metric with
  | Gauge | Counter =>
    match as_f64 (metric_value metric) with Some x => f64_is_finite x | None => false end
  | Boolean => is_boolean (metric_value metric)
  | Histogram => is_array (metric_value metric) || is_object (metric_value metric)
  end.

Definition validate_metric (entry : string * MetricValue) : result string unit :=
  let '(name, metric) := entry in
  _ ← validate_text "metric name" name 256;
  _ ← validate_text ("metric '" +:+ name +:+ "' unit") (metric_unit metric) 128;
  reject (negb (metric_kind_matches metric))
    ("metric '" +:+ name +:+ "' value does not match its declared kind").

(** A [BTreeMap] is visited in the byte order of its keys. *)
Definition key_le {A} (x y : string * A) : Prop := String.leb x.1 y.1 = true.
#[export] Instance key_le_dec {A} : RelDecision (@key_le A).
Proof. intros x y. unfold key_le. apply _. Defined.

Definition metrics_in_order (m : gmap string MetricValue) : list (string * MetricValue) :=
  merge_sort key_le (map_to_list m).

Definition MetricBatch_validate (b : MetricBatch) : result string unit :=
  _ ← reject (ended_at_ns b <? started_at_ns b)%Z "metric batch ends before it starts";
  _ ← reject (bool_decide (metrics b = ∅)) "metric batch must contain at least one metric";
  _ ← reject (bool_decide (4096 < size (metrics b))) "metric batch contains more than 4096 metrics";
  _ ← match workload_fingerprint b with
      | Some fingerprint => validate_text "workload fingerprint" fingerprint 4096
      | None => Ok tt
      end;
  fold_result (λ _ entry, validate_metric entry) tt (metrics_in_order (metrics b)).

Record MeasurementOpenRequest := MkOpenRequest {
  open_context : InvocationContext; open_specification : Value }.
Record MeasurementSession := MkSession { session_id : MeasurementSessionId; session_data : Value }.
Record MeasurementSampleRequest := MkSampleRequest {
  sample_context : InvocationContext; sample_session : MeasurementSession }.
Record CleanupReceipt := MkCleanupReceipt {
  cleanup_session_id : MeasurementSessionId; cleaned_up : bool; cleanup_details : Value }.

Record ComparisonRequest := MkComparisonRequest {
  comparison_context : InvocationContext;
  comparison_contract_id : ContractId;
  comparison_specification : Value;
  comparison_baseline : MetricBatch;
  comparison_candidate : MetricBatch;
}.
End Measurement.

Inductive ComparisonConclusion := Improved | NotImproved | Inconclusive.
#[export] Instance ComparisonConclusion_eq_dec : EqDecision ComparisonConclusion.
Proof. solve_decision. Defined.

Section Comparison.
Context `{J : Json}.
Record ConditionEvidence := MkConditionEvidence {
  condition_name : string; condition_passed : bool; condition_details : Value }.
Record ComparisonEvidence := MkComparisonEvidence {
  conclusion : ComparisonConclusion;
  conditions : list ConditionEvidence;
  comparison_details : Value;
}.
End Comparison.
