(* ===== verification/Config.v ===== *)
(** * The configuration ([tuning_agent/src/config/model.rs])

    The sections of the configuration file with their defaults, and the validation
    every configuration passes before the runtime is built; [config_valid] says
    what it promises, section by section.

    The second part shows that the validation accepts exactly the configurations it
    promises ([config_valid]). *)

From S2P Require Export Paths Domain.

Local Open Scope Z_scope.

(** ** The sections *)

Record LlmConfig := MkLlmConfig {
  base_url : string; api_key : string; llm_model : string; llm_timeout_ms : Z; retry_count : Z }.
Definition LlmConfig_default : LlmConfig := MkLlmConfig "" "" "" 30000 3.

Record ReasoningConfig := MkReasoningConfig { reasoning_max_rounds : Z }.
Definition ReasoningConfig_default : ReasoningConfig := MkReasoningConfig 4.

Record SafetyConfig := MkSafetyConfig { evaluation_timeout_ms : Z; cooldown_ms : Z }.
Definition SafetyConfig_default : SafetyConfig := MkSafetyConfig 600000 30000.

Record ActivationConfig := MkActivationConfig { socket_path : string; timer_interval_ms : option Z }.
Definition ActivationConfig_default : ActivationConfig :=
  MkActivationConfig "/tmp/tuning-agent.sock" None.

Record AuditConfig := MkAuditConfig { audit_path : string }.
Definition AuditConfig_default : AuditConfig := MkAuditConfig "logs/audit.jsonl".

Record TransactionConfig := MkTransactionConfig { wal_dir : string }.
Definition TransactionConfig_default : TransactionConfig := MkTransactionConfig "state/transactions".

Record SkillConfig := MkSkillConfig {
  skills_enabled : bool;
  roots : list string;
  max_skills : Z;
  max_catalog_chars : Z;
  max_loaded_skills : Z;
  max_skill_rounds : Z;
  max_reference_reads : Z;
  max_skill_bytes : Z;
  max_reference_bytes : Z;
  max_references_per_skill : Z;
  max_registry_bytes : Z;
}.
Definition SkillConfig_default : SkillConfig :=
  MkSkillConfig false [] 64 8000 4 4 8 (128 * 1024) (256 * 1024) 128 (16 * 1024 * 1024).

Inductive LocalMutationTargetConfig :=
  | Config_Sysctl (key : string)
  | Config_ProcSys (path : string)
  | Config_Sysfs (path : string)
  | Config_Cgroup (path : string).

Record LocalMutationConfig := MkLocalMutation {
  local_id : string; local_description : string; local_target : LocalMutationTargetConfig }.

Record CapabilityConfig := MkCapabilityConfig {
  allowed_capabilities : list string;
  denied_capabilities : list string;
  local_mutations : list LocalMutationConfig;
}.
Definition CapabilityConfig_default : CapabilityConfig := MkCapabilityConfig [] [] [].

Record McpServerConfig := MkMcpServer {
  server_id : string;
  server_enabled : bool;
  command : string;
  args : list string;
  env : gmap string string;
  request_timeout_ms : Z;
  server_allowed : list string;
  allow_mutations : bool;
}.
Definition McpServerConfig_default : McpServerConfig := MkMcpServer "" true "" [] ∅ 30000 [] false.

Record McpConfig := MkMcpConfig { mcp_enabled : bool; servers : list McpServerConfig }.
Definition McpConfig_default : McpConfig := MkMcpConfig true [].

Record Config := MkConfig {
  llm : LlmConfig;
  reasoning : ReasoningConfig;
  safety : SafetyConfig;
  activation_config : ActivationConfig;
  audit_config : AuditConfig;
  transaction_config : TransactionConfig;
  skills_config : SkillConfig;
  capabilities_config : CapabilityConfig;
  mcp : McpConfig;
}.
Definition Config_default : Config :=
  MkConfig LlmConfig_default ReasoningConfig_default SafetyConfig_default ActivationConfig_default
    AuditConfig_default TransactionConfig_default SkillConfig_default CapabilityConfig_default
    McpConfig_default.

(** ** Validation *)

Definition SafetyConfig_validate (c : SafetyConfig) : result string unit :=
  _ ← reject ((evaluation_timeout_ms c =? 0) || (3600000 <? evaluation_timeout_ms c))
        "safety.evaluation_timeout_ms must be between 1 and 3600000";
  reject (86400000 <? cooldown_ms c) "safety.cooldown_ms must not exceed 86400000".

Definition TransactionConfig_validate (c : TransactionConfig) : result string unit :=
  reject (bool_decide (wal_dir c = "")) "transaction.wal_dir must not be empty".

Definition validate_bounded (field : string) (value minimum maximum : Z) : result string unit :=
  reject ((value <? minimum) || (maximum <? value))
    (field +:+ " must be between " +:+ show minimum +:+ " and " +:+ show maximum).

(** One turn of the loop over the roots; paths are compared by their components. *)
Definition validate_root (seen : list (list Component)) (root : string)
    : result string (list (list Component)) :=
  _ ← reject (negb (is_absolute root)) ("skills root '" +:+ root +:+ "' must be an absolute path");
  _ ← reject (bool_decide (components root ∈ seen))
        ("skills.roots contains duplicate path '" +:+ root +:+ "'");
  Ok (components root :: seen).

Definition SkillConfig_validate (c : SkillConfig) : result string unit :=
  _ ← reject (skills_enabled c && bool_decide (roots c = []))
        "skills.roots must not be empty when skills are enabled";
  _ ← fold_result validate_root [] (roots c);
  _ ← validate_bounded "skills.max_skills" (max_skills c) 1 256;
  _ ← validate_bounded "skills.max_catalog_chars" (max_catalog_chars c) 256 65536;
  _ ← validate_bounded "skills.max_loaded_skills" (max_loaded_skills c) 1 32;
  _ ← validate_bounded "skills.max_skill_rounds" (max_skill_rounds c) 1 32;
  _ ← validate_bounded "skills.max_reference_reads" (max_reference_reads c) 1 256;
  _ ← validate_bounded "skills.max_skill_bytes" (max_skill_bytes c) 1024 (1024 * 1024);
  _ ← validate_bounded "skills.max_reference_bytes" (max_reference_bytes c) 1024 (2 * 1024 * 1024);
  _ ← validate_bounded "skills.max_references_per_skill" (max_references_per_skill c) 1 1024;
  validate_bounded "skills.max_registry_bytes" (max_registry_bytes c) (max_skill_bytes c)
    (256 * 1024 * 1024).

Definition validate_name (field name : string) : result string unit :=
  reject (bool_decide (name = "") || (256 <? Z.of_nat (String.length name))
          || has_surrounding_whitespace name || existsb is_control (chars name))
    (field +:+ " contains invalid value '" +:+ name +:+ "'").

Definition validate_next_name (field : string) (seen : gset string) (name : string)
    : result string (gset string) :=
  _ ← validate_name field name;
  _ ← reject (bool_decide (name ∈ seen)) (field +:+ " contains duplicate value '" +:+ name +:+ "'");
  Ok ({[name]} ∪ seen).

Definition validate_names (field : string) (names : list string) : result string unit :=
  _ ← fold_result (validate_next_name field) ∅ names; Ok tt.

Definition validate_target_path (id path root : string) : result string unit :=
  reject (negb (is_absolute path) || negb (path_starts_with path root))
    ("local mutation '" +:+ id +:+ "' path must be absolute and beneath '" +:+ root +:+ "'").

Definition LocalMutationTargetConfig_validate (t : LocalMutationTargetConfig) (id : string)
    : result string unit :=
  match t with
  | Config_Sysctl key =>
    reject (negb (sysctl_key_valid key)) ("local mutation '" +:+ id +:+ "' has an invalid sysctl key")
  | Config_ProcSys path => validate_target_path id path "/proc/sys"
  | Config_Sysfs path => validate_target_path id path "/sys"
  | Config_Cgroup path => validate_target_path id path "/sys/fs/cgroup"
  end.

Definition LocalMutationConfig_validate (c : LocalMutationConfig) : result string unit :=
  _ ← validate_name "local mutation id" (local_id c);
  _ ← reject (is_blank (local_description c) || (4096 <? Z.of_nat (String.length (local_description c)))
              || existsb is_control (chars (local_description c)))
        ("local mutation '" +:+ local_id c +:+ "' requires a valid description of at most 4096 bytes");
  LocalMutationTargetConfig_validate (local_target c) (local_id c).

Definition validate_local_mutation (seen : gset string) (c : LocalMutationConfig)
    : result string (gset string) :=
  _ ← LocalMutationConfig_validate c;
  _ ← reject (bool_decide (local_id c ∈ seen))
        ("capabilities.local_mutations contains duplicate id '" +:+ local_id c +:+ "'");
  Ok ({[local_id c]} ∪ seen).

Definition CapabilityConfig_validate (c : CapabilityConfig) : result string unit :=
  _ ← validate_names "capabilities.allowed_capabilities" (allowed_capabilities c);
  _ ← validate_names "capabilities.denied_capabilities" (denied_capabilities c);
  _ ← match List.find (λ id, bool_decide (id ∈ allowed_capabilities c)) (denied_capabilities c) with
      | Some id => Err ("capability '" +:+ id +:+ "' is present in both allow and deny lists")
      | None => Ok tt
      end;
  _ ← reject (256 <? Z.of_nat (length (local_mutations c)))
        "capabilities.local_mutations must not exceed 256 entries";
  _ ← fold_result validate_local_mutation ∅ (local_mutations c);
  Ok tt.

Definition validate_env_key (id key : string) : result string unit :=
  reject (bool_decide (key = "") || contains_char "061"%char key || existsb is_control (chars key))
    ("mcp server '" +:+ id +:+ "' contains invalid environment key '" +:+ key +:+ "'").

Definition McpServerConfig_validate (c : McpServerConfig) : result string unit :=
  let about := "mcp server '" +:+ server_id c +:+ "'" in
  _ ← reject (server_enabled c && is_blank (command c))
        (about +:+ " requires a non-empty command when enabled");
  _ ← reject (server_enabled c && negb (is_absolute (command c)))
        (about +:+ " command must be an absolute path");
  _ ← reject (server_enabled c && ((request_timeout_ms c =? 0) || (300000 <? request_timeout_ms c)))
        (about +:+ ".request_timeout_ms must be between 1 and 300000");
  _ ← reject ((256 <? Z.of_nat (length (args c))) || (128 <? Z.of_nat (size (env c))))
        (about +:+ " has too many arguments or environment variables");
  _ ← validate_names "mcp server allowed_capabilities" (server_allowed c);
  fold_result (λ _ entry, validate_env_key (server_id c) entry.1) tt (in_key_order (env c)).

Definition validate_server (seen : gset string) (c : McpServerConfig) : result string (gset string) :=
  _ ← validate_name "mcp server id" (server_id c);
  _ ← reject (bool_decide (server_id c ∈ seen)) ("duplicate mcp server id '" +:+ server_id c +:+ "'");
  _ ← McpServerConfig_validate c;
  Ok ({[server_id c]} ∪ seen).

Definition McpConfig_validate (c : McpConfig) : result string unit :=
  _ ← reject (32 <? Z.of_nat (length (servers c))) "mcp.servers must not exceed 32 entries";
  _ ← fold_result validate_server ∅ (servers c);
  Ok tt.

Definition Config_validate (c : Config) : result string unit :=
  _ ← reject ((reasoning_max_rounds (reasoning c) =? 0) || (64 <? reasoning_max_rounds (reasoning c)))
        "reasoning.max_rounds must be between 1 and 64";
  _ ← reject ((llm_timeout_ms (llm c) =? 0) || (300000 <? llm_timeout_ms (llm c)))
        "llm.timeout_ms must be between 1 and 300000";
  _ ← reject (10 <? retry_count (llm c)) "llm.retry_count must not exceed 10";
  _ ← SafetyConfig_validate (safety c);
  _ ← reject (bool_decide (socket_path (activation_config c) = "")) "activation.socket_path must not be empty";
  _ ← reject (bool_decide (audit_path (audit_config c) = "")) "audit.path must not be empty";
  _ ← TransactionConfig_validate (transaction_config c);
  _ ← SkillConfig_validate (skills_config c);
  _ ← CapabilityConfig_validate (capabilities_config c);
  McpConfig_validate (mcp c).

(** ** Loading ([config/loader.rs]) *)

(** [fs::read_to_string], [Path::exists] and [toml::from_str] at [Config]. *)
Section Load.
Context (read_to_string : string → result string string) (exists_path : string → bool)
  (toml_from_str : string → result string Config).

Definition Config_load_file (path : string) : result string Config :=
  content ← map_err (λ err, "failed to read config '" +:+ path +:+ "': " +:+ err) (read_to_string path);
  config ← map_err (λ err, "failed to parse config '" +:+ path +:+ "': " +:+ err) (toml_from_str content);
  _ ← Config_validate config;
  Ok config.

Definition Config_load (path : option string) : result string Config :=
  match path with
  | Some path => Config_load_file path
  | None => if exists_path "tuning-agent.toml" then Config_load_file "tuning-agent.toml" else Ok Config_default
  end.
End Load.

Example defaults_are_valid : Config_validate Config_default = Ok tt.
Proof. by vm_compute. Qed.

(** * What a validated configuration promises *)

Local Open Scope Z_scope.

(** ** Loops that refuse repetitions *)

(** A turn of such a loop: checks, the test that the key is new, more checks. *)
Lemma fold_distinct {A} (before after : A → result string unit) (key : A → string) (err : A → string)
    (l : list A) (seen : gset string) :
  is_ok (fold_result (λ seen x,
     _ ← before x; _ ← reject (bool_decide (key x ∈ seen)) (err x); _ ← after x;
     Ok ({[key x]} ∪ seen)) seen l) = true
  ↔ Forall (λ x, before x = Ok tt ∧ after x = Ok tt) l ∧ NoDup (key <$> l)
    ∧ Forall (λ x, key x ∉ seen) l.
Proof.
  revert seen. induction l as [|x l IH]; intros seen; cbn [fold_result].
  { split; [|done]. intros _. split_and!; constructor. }
  rewrite !Forall_cons, fmap_cons, NoDup_cons.
  destruct (before x) as [[]|e]; simpl; [|naive_solver]. unfold reject.
  case_bool_decide as Hk; simpl; [naive_solver|].
  destruct (after x) as [[]|e]; simpl; [|naive_solver]. rewrite IH, !Forall_forall.
  assert (key x ∉ key <$> l ↔ ∀ y, y ∈ l → key y ≠ key x) as ->.
  { rewrite list_elem_of_fmap. naive_solver. }
  split.
  - intros (Hl & Hnd & Hn). split_and!; try done; intros y Hy; specialize (Hn y Hy); set_solver.
  - intros ((_ & Hl) & (Hx & Hnd) & (_ & Hn)). split_and!; try done.
    intros y Hy. specialize (Hx y Hy). specialize (Hn y Hy). set_solver.
Qed.

Lemma is_ok_unit (r : result string unit) : is_ok r = true ↔ r = Ok tt.
Proof. by destruct r as [[]|]. Qed.

Lemma reject_step_Ok {E B} (b : bool) (e : E) (k : result E B) r :
  (_ ← reject b e; k) = Ok r ↔ b = false ∧ k = Ok r.
Proof. rewrite reject_bind_Ok, reject_Ok. done. Qed.

Lemma discard_Ok {A} (r : result string A) : (_ ← r; Ok tt) = Ok tt ↔ is_ok r = true.
Proof. by destruct r. Qed.

Lemma fold_result_ext {S A} (f g : S → A → result string S) s (l : list A) :
  (∀ s a, f s a = g s a) → fold_result f s l = fold_result g s l.
Proof.
  intros Hfg. revert s. induction l as [|a l IH]; intros s; simpl; [done|]. rewrite Hfg.
  by destruct (g s a).
Qed.

(** ** Names *)

Record name_valid (name : string) : Prop := {
  nv_length : name ≠ "" ∧ Z.of_nat (String.length name) <= 256;
  nv_trimmed : has_surrounding_whitespace name = false;
  nv_printable : existsb is_control (chars name) = false;
}.

Lemma validate_name_Ok field name : validate_name field name = Ok tt ↔ name_valid name.
Proof.
  unfold validate_name. rewrite reject_Ok, !orb_false_iff, bool_decide_eq_false, Z.ltb_ge.
  split; [by intros [[[? ?] ?] ?]|by intros [[] ? ?]].
Qed.

Definition names_valid (names : list string) : Prop := Forall name_valid names ∧ NoDup names.

Lemma validate_names_Ok field names : validate_names field names = Ok tt ↔ names_valid names.
Proof.
  unfold validate_names. rewrite discard_Ok.
  rewrite (fold_result_ext _ (λ seen x, _ ← validate_name field x;
    _ ← reject (bool_decide (id x ∈ seen)) (field +:+ " contains duplicate value '" +:+ x +:+ "'");
    _ ← (λ _, Ok tt) x; Ok ({[id x]} ∪ seen))) by done.
  rewrite fold_distinct, list_fmap_id. unfold names_valid. split.
  - intros (Hv & Hnd & _). split; [|done]. eapply Forall_impl; [exact Hv|].
    intros x [Hx _]. by apply validate_name_Ok in Hx.
  - intros [Hv Hnd]. split_and!; [|done|].
    + eapply Forall_impl; [exact Hv|]. intros x Hx. split; [by apply validate_name_Ok|done].
    + apply Forall_forall. intros x _. apply not_elem_of_empty.
Qed.

(** ** Sections *)

Definition within (minimum maximum value : Z) : Prop := minimum <= value <= maximum.

Lemma validate_bounded_Ok field value minimum maximum :
  validate_bounded field value minimum maximum = Ok tt ↔ within minimum maximum value.
Proof. unfold validate_bounded, within. rewrite reject_Ok, orb_false_iff, !Z.ltb_ge. done. Qed.

Record skills_valid (c : SkillConfig) : Prop := {
  sv_roots : skills_enabled c = true → roots c ≠ [];
  sv_absolute : Forall (λ root, is_absolute root = true) (roots c);
  sv_distinct : NoDup (components <$> roots c);
  sv_skills : within 1 256 (max_skills c);
  sv_catalog : within 256 65536 (max_catalog_chars c);
  sv_loaded : within 1 32 (max_loaded_skills c);
  sv_rounds : within 1 32 (max_skill_rounds c);
  sv_reads : within 1 256 (max_reference_reads c);
  sv_skill_bytes : within 1024 (1024 * 1024) (max_skill_bytes c);
  sv_reference_bytes : within 1024 (2 * 1024 * 1024) (max_reference_bytes c);
  sv_references : within 1 1024 (max_references_per_skill c);
  sv_registry : within (max_skill_bytes c) (256 * 1024 * 1024) (max_registry_bytes c);
}.

Lemma validate_roots_Ok l seen :
  is_ok (fold_result validate_root seen l) = true
  ↔ Forall (λ root, is_absolute root = true) l ∧ NoDup (components <$> l)
    ∧ Forall (λ root, components root ∉ seen) l.
Proof.
  revert seen. induction l as [|x l IH]; intros seen; cbn [fold_result].
  { split; [|done]. intros _. split_and!; constructor. }
  rewrite !Forall_cons, fmap_cons, NoDup_cons. unfold validate_root at 1, reject.
  destruct (is_absolute x); simpl; [|naive_solver].
  case_bool_decide as Hk; simpl; [naive_solver|]. rewrite IH, !Forall_forall.
  assert (components x ∉ components <$> l ↔ ∀ y, y ∈ l → components y ≠ components x) as ->.
  { rewrite list_elem_of_fmap. naive_solver. }
  setoid_rewrite not_elem_of_cons. split.
  - intros (Hl & Hnd & Hn). split_and!; try done; intros y Hy; apply (Hn y Hy).
  - intros ((_ & Hl) & (Hx & Hnd) & (_ & Hn)). split_and!; [done..|].
    intros y Hy. split; [by apply Hx|by apply Hn].
Qed.

Lemma validate_bounded_bind_Ok field v a b (r : result string unit) :
  (_ ← validate_bounded field v a b; r) = Ok tt ↔ within a b v ∧ r = Ok tt.
Proof.
  rewrite <- (validate_bounded_Ok field). destruct (validate_bounded _ _ _ _) as [[]|]; cbn.
  - split; [by intros ->|by intros [_ ->]].
  - split; [discriminate|by intros [? _]].
Qed.

Lemma validate_roots_bind_Ok l (r : result string unit) :
  (_ ← fold_result validate_root [] l; r) = Ok tt
  ↔ (Forall (λ root, is_absolute root = true) l ∧ NoDup (components <$> l)) ∧ r = Ok tt.
Proof.
  assert (is_ok (fold_result validate_root [] l) = true
          ↔ Forall (λ root, is_absolute root = true) l ∧ NoDup (components <$> l)) as Hl.
  { rewrite validate_roots_Ok. split; [tauto|]. intros [? ?]. split_and!; [done..|].
    apply Forall_forall. intros x _. apply not_elem_of_nil. }
  rewrite <- Hl. destruct (fold_result _ _ _); simpl; naive_solver.
Qed.

Lemma SkillConfig_validate_Ok c : SkillConfig_validate c = Ok tt ↔ skills_valid c.
Proof.
  unfold SkillConfig_validate.
  rewrite reject_step_Ok, validate_roots_bind_Ok.
  do 8 rewrite validate_bounded_bind_Ok. rewrite validate_bounded_Ok, andb_false_iff.
  rewrite bool_decide_eq_false.
  split.
  - intros (He & (Ha & Hd) & H1 & H2 & H3 & H4 & H5 & H6 & H7 & H8 & H9). split; try assumption.
    intros Hen. destruct He as [He|He]; [congruence|exact He].
  - intros [He ???????????]. split.
    { destruct (skills_enabled c); [right; by apply He|by left]. }
    repeat match goal with |- _ ∧ _ => split end; assumption.
Qed.

Definition target_valid (t : LocalMutationTargetConfig) : Prop :=
  match t with
  | Config_Sysctl key => sysctl_key_valid key = true
  | Config_ProcSys path => is_absolute path = true ∧ path_starts_with path "/proc/sys" = true
  | Config_Sysfs path => is_absolute path = true ∧ path_starts_with path "/sys" = true
  | Config_Cgroup path => is_absolute path = true ∧ path_starts_with path "/sys/fs/cgroup" = true
  end.

Record local_mutation_valid (c : LocalMutationConfig) : Prop := {
  lv_id : name_valid (local_id c);
  lv_description : is_blank (local_description c) = false
    ∧ Z.of_nat (String.length (local_description c)) <= 4096
    ∧ existsb is_control (chars (local_description c)) = false;
  lv_target : target_valid (local_target c);
}.

Lemma LocalMutationConfig_validate_Ok c : LocalMutationConfig_validate c = Ok tt ↔ local_mutation_valid c.
Proof.
  unfold LocalMutationConfig_validate. rewrite result_bind_Ok.
  assert (LocalMutationTargetConfig_validate (local_target c) (local_id c) = Ok tt
          ↔ target_valid (local_target c)) as Ht.
  { destruct (local_target c); simpl; unfold validate_target_path;
      rewrite reject_Ok, ?orb_false_iff, ?negb_false_iff; done. }
  split.
  - intros ([] & Hn%validate_name_Ok & Hr). rewrite reject_step_Ok, !orb_false_iff, Z.ltb_ge in Hr.
    destruct Hr as [[[? ?] ?] ?%Ht]. by split.
  - intros [Hn (? & ? & ?) ?%Ht]. exists tt. split; [by apply validate_name_Ok|].
    rewrite reject_step_Ok, !orb_false_iff, Z.ltb_ge. by split_and!.
Qed.

Record capabilities_valid (c : CapabilityConfig) : Prop := {
  cv_allowed : names_valid (allowed_capabilities c);
  cv_denied : names_valid (denied_capabilities c);
  cv_disjoint : Forall (λ id, id ∉ allowed_capabilities c) (denied_capabilities c);
  cv_count : Z.of_nat (length (local_mutations c)) <= 256;
  cv_mutations : Forall local_mutation_valid (local_mutations c) ∧ NoDup (local_id <$> local_mutations c);
}.

Lemma find_none (l1 l2 : list string) :
  List.find (λ id, bool_decide (id ∈ l1)) l2 = None ↔ Forall (λ id, id ∉ l1) l2.
Proof.
  induction l2 as [|x l2 IH]; simpl; [split; [intros _; constructor|done]|].
  rewrite Forall_cons. case_bool_decide; [naive_solver|]. rewrite IH. naive_solver.
Qed.

Lemma CapabilityConfig_validate_Ok c : CapabilityConfig_validate c = Ok tt ↔ capabilities_valid c.
Proof.
  unfold CapabilityConfig_validate.
  assert (∀ field names (r : result string unit),
    (_ ← validate_names field names; r) = Ok tt ↔ names_valid names ∧ r = Ok tt) as Hn.
  { intros. rewrite <- (validate_names_Ok field). by destruct (validate_names _ _) as [[]|]; naive_solver. }
  rewrite !Hn, result_bind_Ok.
  assert (is_ok (fold_result validate_local_mutation ∅ (local_mutations c)) = true
    ↔ Forall local_mutation_valid (local_mutations c) ∧ NoDup (local_id <$> local_mutations c)) as Hl.
  { rewrite (fold_result_ext _ (λ seen x, _ ← LocalMutationConfig_validate x;
      _ ← reject (bool_decide (local_id x ∈ seen))
            ("capabilities.local_mutations contains duplicate id '" +:+ local_id x +:+ "'");
      _ ← (λ _, Ok tt) x; Ok ({[local_id x]} ∪ seen))) by done.
    rewrite fold_distinct, !Forall_forall. setoid_rewrite LocalMutationConfig_validate_Ok.
    split; [naive_solver|]. intros [? ?]. split_and!; [naive_solver|done|]. intros; apply not_elem_of_empty. }
  split.
  - intros (Ha & Hd & [] & Hf & Hr). rewrite reject_step_Ok, discard_Ok, Hl, Z.ltb_ge in Hr.
    destruct Hr as [? ?]. split; try done. apply find_none. by destruct (List.find _ _).
  - intros [Ha Hd Hdis Hc Hm]. split_and!; [done..|]. exists tt. split.
    + apply find_none in Hdis. by rewrite Hdis.
    + rewrite reject_step_Ok, discard_Ok, Hl, Z.ltb_ge. done.
Qed.

Record server_valid (c : McpServerConfig) : Prop := {
  mv_command : server_enabled c = true → is_blank (command c) = false ∧ is_absolute (command c) = true
    ∧ request_timeout_ms c ≠ 0 ∧ request_timeout_ms c <= 300000;
  mv_sizes : Z.of_nat (length (args c)) <= 256 ∧ Z.of_nat (size (env c)) <= 128;
  mv_allowed : names_valid (server_allowed c);
  mv_env : map_Forall (λ key _, key ≠ "" ∧ contains_char "061"%char key = false
                                ∧ existsb is_control (chars key) = false) (env c);
}.

Lemma McpServerConfig_validate_Ok c : McpServerConfig_validate c = Ok tt ↔ server_valid c.
Proof.
  unfold McpServerConfig_validate. cbv zeta. rewrite !reject_step_Ok, result_bind_Ok.
  rewrite !andb_false_iff, !orb_false_iff, !Z.ltb_ge, Z.eqb_neq, negb_false_iff.
  assert (fold_result (λ _ entry, validate_env_key (server_id c) entry.1) tt (in_key_order (env c)) = Ok tt
    ↔ map_Forall (λ key _, key ≠ "" ∧ contains_char "061"%char key = false
                           ∧ existsb is_control (chars key) = false) (env c)) as He.
  { rewrite fold_checks_Ok, Forall_forall. unfold validate_env_key. setoid_rewrite reject_Ok.
    setoid_rewrite orb_false_iff. setoid_rewrite orb_false_iff. setoid_rewrite bool_decide_eq_false. split.
    - intros H k v Hk. apply in_key_order_elem in Hk. by destruct (H _ Hk) as [[? ?] ?].
    - intros H [k v] Hk. apply in_key_order_elem in Hk. destruct (H _ _ Hk) as (? & ? & ?). by split_and!. }
  split.
  - intros (H1 & H2 & H3 & H4 & [] & Hn%validate_names_Ok & Hr%He). split; try done.
    intros Hen. naive_solver congruence.
  - intros [Hc Hs Hn Hv]. destruct (server_enabled c).
    + destruct (Hc eq_refl) as (? & ? & ? & ?). split_and!; try (by right); try done; try apply Hs.
      exists tt. split; [by apply validate_names_Ok|by apply He].
    + split_and!; try (by left); try apply Hs. exists tt. split; [by apply validate_names_Ok|by apply He].
Qed.

Record mcp_valid (c : McpConfig) : Prop := {
  mc_count : Z.of_nat (length (servers c)) <= 32;
  mc_ids : Forall (λ s, name_valid (server_id s)) (servers c) ∧ NoDup (server_id <$> servers c);
  mc_servers : Forall server_valid (servers c);
}.

Lemma McpConfig_validate_Ok c : McpConfig_validate c = Ok tt ↔ mcp_valid c.
Proof.
  unfold McpConfig_validate. rewrite reject_step_Ok, discard_Ok, Z.ltb_ge.
  unfold validate_server. rewrite fold_distinct, !Forall_forall.
  setoid_rewrite McpServerConfig_validate_Ok. setoid_rewrite validate_name_Ok. split.
  - intros (? & Hv & Hnd & _). split; [done| |]; [split; [|done]|]; apply Forall_forall; naive_solver.
  - intros [? [Hn Hnd] Hs]. rewrite Forall_forall in Hn, Hs. split_and!; [done|naive_solver|done|].
    intros; apply not_elem_of_empty.
Qed.

Record config_valid (c : Config) : Prop := {
  cf_rounds : reasoning_max_rounds (reasoning c) ≠ 0 ∧ reasoning_max_rounds (reasoning c) <= 64;
  cf_llm : llm_timeout_ms (llm c) ≠ 0 ∧ llm_timeout_ms (llm c) <= 300000 ∧ retry_count (llm c) <= 10;
  cf_safety : evaluation_timeout_ms (safety c) ≠ 0 ∧ evaluation_timeout_ms (safety c) <= 3600000
    ∧ cooldown_ms (safety c) <= 86400000;
  cf_paths : socket_path (activation_config c) ≠ "" ∧ audit_path (audit_config c) ≠ ""
    ∧ wal_dir (transaction_config c) ≠ "";
  cf_skills : skills_valid (skills_config c);
  cf_capabilities : capabilities_valid (capabilities_config c);
  cf_mcp : mcp_valid (mcp c);
}.

Lemma Config_validate_Ok c : Config_validate c = Ok tt ↔ config_valid c.
Proof.
  assert (∀ (a r : result string unit), (_ ← a; r) = Ok tt ↔ a = Ok tt ∧ r = Ok tt) as Hb.
  { intros [[]|] r; simpl; naive_solver. }
  unfold Config_validate, SafetyConfig_validate, TransactionConfig_validate.
  rewrite !Hb, !reject_Ok, !orb_false_iff, !Z.ltb_ge, !Z.eqb_neq, !bool_decide_eq_false.
  rewrite SkillConfig_validate_Ok, CapabilityConfig_validate_Ok, McpConfig_validate_Ok.
  split; [intros; split; naive_solver|intros []; naive_solver].
Qed.

(** Loading accepts exactly the configurations whose every section is within its
    bounds: round and time limits, absolute and distinct skill roots, names that are
    trimmed, printable and distinct, no capability both allowed and denied, local
    targets beneath their file systems, servers started by absolute commands; and
    what is loaded without a file is such a configuration too. *)
Theorem loaded_configurations_are_valid read_to_string exists_path toml_from_str path c :
  (Config_validate c = Ok tt ↔ config_valid c)
  ∧ (Config_load read_to_string exists_path toml_from_str path = Ok c → config_valid c).
Proof.
  split; [apply Config_validate_Ok|].
  assert (∀ file, Config_load_file read_to_string toml_from_str file = Ok c → config_valid c) as Hf.
  { intros file. unfold Config_load_file. rewrite result_bind_Ok. intros (text & _ & H).
    rewrite result_bind_Ok in H. destruct H as (c' & _ & H).
    rewrite result_bind_Ok in H. destruct H as ([] & Hv & [= <-]). by apply Config_validate_Ok. }
  unfold Config_load. destruct path as [file|]; [apply Hf|]. destruct (exists_path _); [apply Hf|].
  intros [= <-]. apply Config_validate_Ok, defaults_are_valid.
Qed.

(** A configuration file with a local target and an MCP server. *)
Definition sample_config : Config :=
  {| llm := LlmConfig_default; reasoning := ReasoningConfig_default; safety := SafetyConfig_default;
     activation_config := ActivationConfig_default; audit_config := AuditConfig_default;
     transaction_config := TransactionConfig_default; skills_config := SkillConfig_default;
     capabilities_config := MkCapabilityConfig ["mutation.vm_swappiness"] []
       [MkLocalMutation "mutation.vm_swappiness" "Controls swapping" (Config_ProcSys "/proc/sys/vm/swappiness")];
     mcp := MkMcpConfig true [MkMcpServer "classed" true "/usr/bin/classed" ["--stdio"] {["HOME" := "/"]}
                                30000 [] true] |}.

Lemma loaded_configurations_are_valid_witness : config_valid sample_config.
Proof.
  apply (loaded_configurations_are_valid (λ _, Ok "a configuration") (λ _, true) (λ _, Ok sample_config) None).
  vm_compute. reflexivity.
Defined.
