(* ===== verification/Digits.v ===== *)
(** * Decimal renderings

    The text of a machine integer is visible and short, so the identifiers the
    runtime derives from counters and digests are valid. *)

From S2P Require Export Domain.

Lemma digit_visible n : visible (pretty_N_char n).
Proof. unfold visible. destruct n as [|[[[|[]|]|[|[]|]|]|[[|[]|]|[|[]|]|]|]]; vm_compute; split; discriminate. Qed.

Lemma pretty_N_go_visible x s : visible_text s → visible_text (pretty_N_go x s).
Proof.
  revert s. induction (N.lt_wf_0 x) as [x _ IH]; intros s Hs.
  destruct (decide (x = 0%N)) as [->|Hx]; [by rewrite pretty_N_go_0|].
  rewrite pretty_N_go_step by lia. apply IH; [apply N.div_lt; lia|].
  unfold visible_text in *. simpl. constructor; [apply digit_visible|done].
Qed.

Lemma pretty_N_go_length (k : nat) x s :
  (x < 10 ^ N.of_nat k)%N → String.length (pretty_N_go x s) ≤ k + String.length s.
Proof.
  revert k s. induction (N.lt_wf_0 x) as [x _ IH]; intros k s Hk.
  destruct (decide (x = 0%N)) as [->|Hx]; [rewrite pretty_N_go_0; lia|].
  rewrite pretty_N_go_step by lia. destruct k as [|k]; [change (10 ^ N.of_nat 0)%N with 1%N in Hk; lia|].
  etrans; [apply (IH (x `div` 10)%N) with (k := k); [apply N.div_lt; lia|]|simpl; lia].
  apply N.Div0.div_lt_upper_bound. by rewrite Nnat.Nat2N.inj_succ, N.pow_succ_r' in Hk.
Qed.

Lemma show_visible (n : Z) : visible_text (show n).
Proof.
  assert (∀ x, visible_text (pretty (x : N))) as HN.
  { intros x. unfold pretty, pretty_N. case_decide; [|by apply pretty_N_go_visible; constructor].
    repeat constructor; vm_compute; discriminate. }
  unfold show. destruct n as [|p|p]; [|apply HN|].
  - repeat constructor; vm_compute; discriminate.
  - change (pretty (Z.neg p)) with ("-" +:+ pretty (N.pos p))%string.
    apply visible_text_app; [|apply HN]. repeat constructor; vm_compute; discriminate.
Qed.

(** A [u64] has at most 20 digits. *)
Lemma show_length (n : Z) : (0 ≤ n ≤ u64_max)%Z → String.length (show n) ≤ 20.
Proof.
  intros Hn. unfold show. destruct n as [|p|p]; [vm_compute; lia| |lia].
  change (pretty (Z.pos p)) with (pretty (N.pos p)). unfold pretty, pretty_N.
  case_decide; [done|]. etrans; [apply (pretty_N_go_length 20)|simpl; lia].
  unfold u64_max in Hn. change (10 ^ N.of_nat 20)%N with 100000000000000000000%N. lia.
Qed.

(** Identifiers made of visible text. *)
Lemma string_id_visible (n : id_name) s :
  s ≠ "" → visible_text s → String.length s ≤ 256 → string_id_new n s = Ok (StringId s).
Proof. intros H1 H2 H3. unfold string_id_new. by rewrite validate_identifier_visible. Qed.

(** A digest that was computed. *)
Lemma content_digest_Ok {A} `{Serialize A, !Sha256, !Sha256Laws} (a : A) d :
  content_digest a = Ok d → visible_text (as_str d) ∧ String.length (as_str d) = 71.
Proof.
  intros Hd. pose proof Hd as Hd'. unfold content_digest in Hd'.
  apply result_bind_Ok in Hd' as (s & Hs%map_err_Ok & _).
  rewrite (content_digest_encoded a s Hs) in Hd. injection Hd as <-. split.
  - simpl as_str. apply (visible_text_app "sha256:"); [|apply sha256_hex_visible].
    repeat constructor; vm_compute; discriminate.
  - simpl as_str. by rewrite string_length_app, sha256_hex_length.
Qed.
