(* ===== verification/Capability.v ===== *)
(** * Capabilities ([tuning_agent/src/capability/])

    The provider traits (records of operations over the state [W] of the world
    outside the process), the administrator policy, the registry that validates
    every provider and the immutable snapshot an episode works with. *)

From S2P Require Export Domain.

#[export] Instance ProviderClass_countable : Countable ProviderClass.
Proof.
  refine (inj_countable' (λ c, match c with Builtin => 0 | Local => 1 | Mcp => 2 end)
    (λ n, match n with 0 => Builtin | 1 => Local | _ => Mcp end) _); by intros [].
Defined.

Definition effect_index (e : EffectClass) : nat :=
  match e with
  | PureComputation => 0 | ReadOnly => 1 | ManagedObservation => 2
  | ReversibleMutation => 3 | IrreversibleMutation => 4
  end.
#[export] Instance EffectClass_countable : Countable EffectClass.
Proof.
  refine (inj_countable' effect_index
    (λ n, match n with 0 => PureComputation | 1 => ReadOnly | 2 => ManagedObservation
                     | 3 => ReversibleMutation | _ => IrreversibleMutation end) _); by intros [].
Defined.

(** ** Provider traits ([probe.rs], [mutation.rs], [measurement.rs], [comparison.rs])

    A method [&self] of a provider may read and change the world [W]. *)

Section Traits.
Context `{J : Json} (W : Type).

Record ProbeProvider := MkProbeProvider {
  probe_meta : CapabilityMeta;
  probe : ProbeRequest → W → result ProviderError ProbeEvidence * W;
}.

Record MutationDriver := MkMutationDriver {
  driver_meta : CapabilityMeta;
  prepare : MutationPrepareRequest → W → result ProviderError PreparedMutation * W;
  driver_apply : MutationApplyRequest → W → result ProviderError MutationReceipt * W;
  status : MutationQuery → W → result ProviderError MutationStatus * W;
  verify : MutationVerifyRequest → W → result ProviderError MutationVerification * W;
  restore : MutationRestoreRequest → W → result ProviderError MutationReceipt * W;
  finalize : MutationFinalizeRequest → W → result ProviderError MutationReceipt * W;
}.

Record MeasurementProvider := MkMeasurementProvider {
  measurement_meta : CapabilityMeta;
  validate_measurement_specification : Value → result ProviderError unit;
  open_session : MeasurementOpenRequest → W → result ProviderError MeasurementSession * W;
  sample : MeasurementSampleRequest → W → result ProviderError MetricBatch * W;
  close : MeasurementSession → W → result ProviderError CleanupReceipt * W;
}.

Record ComparisonPolicy := MkComparisonPolicy {
  comparison_meta : CapabilityMeta;
  validate_comparison_specification : Value → result ProviderError unit;
  compare : ComparisonRequest → result ProviderError ComparisonEvidence;
}.

(** ** Snapshots ([snapshot.rs]) *)

Record CapabilitySnapshot := MkCapabilitySnapshot {
  snap_generation : Z;
  snap_metadata : gmap CapabilityId CapabilityMeta;
  snap_probes : gmap CapabilityId ProbeProvider;
  snap_mutations : gmap CapabilityId MutationDriver;
  snap_measurements : gmap CapabilityId MeasurementProvider;
  snap_comparisons : gmap CapabilityId ComparisonPolicy;
}.

Definition snapshot_len (s : CapabilitySnapshot) : nat := size (snap_metadata s).
Definition snapshot_meta (s : CapabilitySnapshot) (id : CapabilityId) : option CapabilityMeta :=
  snap_metadata s !! id.
Definition snapshot_probe (s : CapabilitySnapshot) (id : CapabilityId) : option ProbeProvider :=
  snap_probes s !! id.
Definition snapshot_mutation (s : CapabilitySnapshot) (id : CapabilityId) : option MutationDriver :=
  snap_mutations s !! id.
Definition snapshot_measurement (s : CapabilitySnapshot) (id : CapabilityId)
    : option MeasurementProvider := snap_measurements s !! id.
Definition snapshot_comparison (s : CapabilitySnapshot) (id : CapabilityId)
    : option ComparisonPolicy := snap_comparisons s !! id.
End Traits.

Arguments probe_meta {J W} _.
Arguments probe {J W} _ _ _.
Arguments driver_meta {J W} _.
Arguments prepare {J W} _ _ _.
Arguments driver_apply {J W} _ _ _.
Arguments status {J W} _ _ _.
Arguments verify {J W} _ _ _.
Arguments restore {J W} _ _ _.
Arguments finalize {J W} _ _ _.
Arguments measurement_meta {J W} _.
Arguments validate_measurement_specification {J W} _ _.
Arguments open_session {J W} _ _ _.
Arguments sample {J W} _ _ _.
Arguments close {J W} _ _ _.
Arguments comparison_meta {J} _.
Arguments validate_comparison_specification {J} _ _.
Arguments compare {J} _ _.
Arguments MkCapabilitySnapshot {J W} _ _ _ _ _ _.
Arguments snap_generation {J W} _.
Arguments snap_metadata {J W} _.
Arguments snap_probes {J W} _.
Arguments snap_mutations {J W} _.
Arguments snap_measurements {J W} _.
Arguments snap_comparisons {J W} _.
Arguments snapshot_len {J W} _.
Arguments snapshot_meta {J W} _ _.
Arguments snapshot_probe {J W} _ _.
Arguments snapshot_mutation {J W} _ _.
Arguments snapshot_measurement {J W} _ _.
Arguments snapshot_comparison {J W} _ _.

(** ** Registry errors ([registry.rs]) *)

Inductive RegistryErrorKind := Duplicate | InvalidMetadata | KindMismatch | PolicyDenied.
#[export] Instance RegistryErrorKind_eq_dec : EqDecision RegistryErrorKind.
Proof. solve_decision. Defined.

Record RegistryError := MkRegistryError {
  registry_error_kind : RegistryErrorKind; registry_error_message : string }.

Definition CapabilityKind_debug (k : CapabilityKind) : string :=
  match k with
  | Probe => "Probe" | Mutation => "Mutation"
  | Measurement => "Measurement" | Comparison => "Comparison"
  end.

Definition EffectClass_debug (e : EffectClass) : string :=
  match e with
  | PureComputation => "PureComputation" | ReadOnly => "ReadOnly"
  | ManagedObservation => "ManagedObservation" | ReversibleMutation => "ReversibleMutation"
  | IrreversibleMutation => "IrreversibleMutation"
  end.

(** ** Administrator policy ([policy.rs]) *)

Record AdminPolicy := MkAdminPolicy {
  allowed_capabilities : option (gset CapabilityId);
  denied_capabilities : gset CapabilityId;
  allowed_provider_classes : gset ProviderClass;
  allowed_effects : gset EffectClass;
}.

Definition MAX_CAPABILITIES : nat := 256.

Definition AdminPolicy_default : AdminPolicy :=
  {| allowed_capabilities := None;
     denied_capabilities := ∅;
     allowed_provider_classes := {[Builtin; Local]};
     allowed_effects := {[PureComputation; ReadOnly; ReversibleMutation]} |}.

Definition allow_only_capabilities (p : AdminPolicy) (ids : list CapabilityId) : AdminPolicy :=
  {| allowed_capabilities := Some (list_to_set ids);
     denied_capabilities := denied_capabilities p;
     allowed_provider_classes := allowed_provider_classes p;
     allowed_effects := allowed_effects p |}.

Definition deny_capability (p : AdminPolicy) (id : CapabilityId) : AdminPolicy :=
  {| allowed_capabilities := allowed_capabilities p;
     denied_capabilities := {[id]} ∪ denied_capabilities p;
     allowed_provider_classes := allowed_provider_classes p;
     allowed_effects := allowed_effects p |}.

Definition allow_provider_classes (p : AdminPolicy) (classes : list ProviderClass) : AdminPolicy :=
  {| allowed_capabilities := allowed_capabilities p;
     denied_capabilities := denied_capabilities p;
     allowed_provider_classes := list_to_set classes;
     allowed_effects := allowed_effects p |}.

Section Policy.
Context `{J : Json}.

Definition policy_denied (meta : CapabilityMeta) (reason : string) : RegistryError :=
  MkRegistryError PolicyDenied
    ("capability '" +:+ as_str (meta_id meta) +:+ "' rejected: " +:+ reason).

Definition policy_validate (p : AdminPolicy) (meta : CapabilityMeta) (registered_count : nat)
    : result RegistryError unit :=
  if bool_decide (MAX_CAPABILITIES ≤ registered_count) then
    Err (MkRegistryError PolicyDenied
      ("capability limit " +:+ show (Z.of_nat MAX_CAPABILITIES) +:+ " has been reached"))
  else if bool_decide (provider_class (provider meta) ∉ allowed_provider_classes p) then
    Err (policy_denied meta "provider class is not allowed")
  else if match allowed_capabilities p with
          | Some allowed => bool_decide (meta_id meta ∉ allowed)
          | None => false
          end then
    Err (policy_denied meta "capability is not allowlisted")
  else if bool_decide (meta_id meta ∈ denied_capabilities p) then
    Err (policy_denied meta "capability is denied")
  else if bool_decide (effect meta ∉ allowed_effects p) then
    Err (policy_denied meta "effect class is not allowed")
  else Ok tt.
End Policy.

(** ** The registry ([registry.rs]) *)

Section Registry.
Context `{J : Json} {W : Type}.

Record CapabilityRegistry := MkCapabilityRegistry {
  policy : AdminPolicy;
  generation : Z;
  metadata : gmap CapabilityId CapabilityMeta;
  probes : gmap CapabilityId (ProbeProvider W);
  mutations : gmap CapabilityId (MutationDriver W);
  measurements : gmap CapabilityId (MeasurementProvider W);
  comparisons : gmap CapabilityId ComparisonPolicy;
}.

Definition CapabilityRegistry_new (policy : AdminPolicy) : CapabilityRegistry :=
  MkCapabilityRegistry policy 0 ∅ ∅ ∅ ∅ ∅.

Definition valid_phases (expected_kind : CapabilityKind) : list EpisodePhase :=
  match expected_kind with
  | Probe | Mutation => [Clean; Experimenting]
  | Measurement | Comparison => [CommitPending]
  end.

Definition validate_registration (r : CapabilityRegistry) (meta : CapabilityMeta)
    (expected_kind : CapabilityKind) (effects : list EffectClass) : result RegistryError unit :=
  let cap := "capability '" +:+ as_str (meta_id meta) +:+ "'" in
  if bool_decide (is_Some (metadata r !! meta_id meta)) then
    Err (MkRegistryError Duplicate (cap +:+ " is already registered"))
  else if bool_decide (kind meta ≠ expected_kind) then
    Err (MkRegistryError KindMismatch
      (cap +:+ " declares " +:+ CapabilityKind_debug (kind meta)
       +:+ ", expected " +:+ CapabilityKind_debug expected_kind))
  else if bool_decide (effect meta ∉ effects) then
    Err (MkRegistryError InvalidMetadata
      (cap +:+ " has invalid " +:+ EffectClass_debug (effect meta)
       +:+ " effect for " +:+ CapabilityKind_debug expected_kind))
  else if bool_decide (role meta = RuntimeSystemGuardrail)
          && (bool_decide (expected_kind ≠ Measurement) || bool_decide (effect meta ≠ ReadOnly)
              || bool_decide (provider_class (provider meta) ≠ Builtin)) then
    Err (MkRegistryError InvalidMetadata (cap +:+ " has an invalid runtime system guardrail role"))
  else if is_blank (description meta) then
    Err (MkRegistryError InvalidMetadata (cap +:+ " has an empty description"))
  else if bool_decide (allowed_phases meta = []) then
    Err (MkRegistryError InvalidMetadata (cap +:+ " must declare allowed phases"))
  else if existsb (λ phase, bool_decide (phase ∉ valid_phases expected_kind)) (allowed_phases meta)
  then
    Err (MkRegistryError InvalidMetadata
      (cap +:+ " declares a phase outside its authority boundary"))
  else if bool_decide (expected_kind = Mutation) && negb (idempotent meta) then
    Err (MkRegistryError InvalidMetadata ("mutation " +:+ cap +:+ " must be idempotent"))
  else if bool_decide (expected_kind = Comparison) && negb (deterministic meta) then
    Err (MkRegistryError InvalidMetadata ("comparison " +:+ cap +:+ " must be deterministic"))
  else if is_null (input_schema meta) || is_null (output_schema meta) then
    Err (MkRegistryError InvalidMetadata (cap +:+ " must declare input/output schemas"))
  else if (timeout_ms (limits meta) =? 0)%Z || (max_output_bytes (limits meta) =? 0)%Z then
    Err (MkRegistryError InvalidMetadata (cap +:+ " has invalid execution limits"))
  else policy_validate (policy r) meta (size (metadata r)).

(** [finish_registration], after the provider was put in its typed map. *)
Definition finish_registration (r : CapabilityRegistry) (meta : CapabilityMeta)
    : CapabilityRegistry :=
  MkCapabilityRegistry (policy r) (u64_saturating_add (generation r) 1)
    (<[meta_id meta := meta]> (metadata r))
    (probes r) (mutations r) (measurements r) (comparisons r).

Definition register_probe (r : CapabilityRegistry) (p : ProbeProvider W)
    : result RegistryError CapabilityRegistry :=
  let meta := probe_meta p in
  _ ← validate_registration r meta Probe [ReadOnly];
  Ok (finish_registration
    (MkCapabilityRegistry (policy r) (generation r) (metadata r)
      (<[meta_id meta := p]> (probes r)) (mutations r) (measurements r) (comparisons r)) meta).

Definition register_mutation (r : CapabilityRegistry) (p : MutationDriver W)
    : result RegistryError CapabilityRegistry :=
  let meta := driver_meta p in
  _ ← validate_registration r meta Mutation [ReversibleMutation];
  Ok (finish_registration
    (MkCapabilityRegistry (policy r) (generation r) (metadata r)
      (probes r) (<[meta_id meta := p]> (mutations r)) (measurements r) (comparisons r)) meta).

Definition register_measurement (r : CapabilityRegistry) (p : MeasurementProvider W)
    : result RegistryError CapabilityRegistry :=
  let meta := measurement_meta p in
  _ ← validate_registration r meta Measurement [ReadOnly];
  Ok (finish_registration
    (MkCapabilityRegistry (policy r) (generation r) (metadata r)
      (probes r) (mutations r) (<[meta_id meta := p]> (measurements r)) (comparisons r)) meta).

Definition register_comparison (r : CapabilityRegistry) (p : ComparisonPolicy)
    : result RegistryError CapabilityRegistry :=
  let meta := comparison_meta p in
  _ ← validate_registration r meta Comparison [PureComputation];
  Ok (finish_registration
    (MkCapabilityRegistry (policy r) (generation r) (metadata r)
      (probes r) (mutations r) (measurements r) (<[meta_id meta := p]> (comparisons r))) meta).

Definition registry_len (r : CapabilityRegistry) : nat := size (metadata r).

Definition snapshot (r : CapabilityRegistry) : CapabilitySnapshot W :=
  MkCapabilitySnapshot (generation r) (metadata r) (probes r) (mutations r)
    (measurements r) (comparisons r).
End Registry.
Arguments CapabilityRegistry {J} W.
