(* ===== verification/Wal.v ===== *)
(** * The write-ahead log ([tuning_agent/src/kernel/transaction/{types,error,wal}.rs])

    The records of a transaction log, the [TransactionWal] trait as a class with
    its contract ([WalLaws]), and the file implementation [FileWal] over a model
    of an append-only file whose system calls may fail at any point. *)

From S2P Require Export Domain.

(** ** Log records ([types.rs], [wal.rs]) *)

Definition MAX_CHANGES_PER_TRANSACTION : nat := 64.

Inductive ChangeState :=
  | IntentDurable | AppliedUnknown | AppliedVerified | BaselineRestored | CandidateApplied
  | Finalized | RolledBack | FailedNotApplied | DriftDetected.
#[export] Instance ChangeState_eq_dec : EqDecision ChangeState.
Proof. solve_decision. Defined.

Definition ChangeState_debug (s : ChangeState) : string :=
  match s with
  | IntentDurable => "IntentDurable"
  | AppliedUnknown => "AppliedUnknown"
  | AppliedVerified => "AppliedVerified"
  | BaselineRestored => "BaselineRestored"
  | CandidateApplied => "CandidateApplied"
  | Finalized => "Finalized"
  | RolledBack => "RolledBack"
  | FailedNotApplied => "FailedNotApplied"
  | DriftDetected => "DriftDetected"
  end.

Inductive OperationIntentKind := Intent_Apply | Intent_Restore | Intent_Finalize.
#[export] Instance OperationIntentKind_eq_dec : EqDecision OperationIntentKind.
Proof. solve_decision. Defined.

Inductive TransactionSeal := Seal_Committed | Seal_RolledBack.
#[export] Instance TransactionSeal_eq_dec : EqDecision TransactionSeal.
Proof. solve_decision. Defined.

Definition TransactionSeal_debug (s : TransactionSeal) : string :=
  match s with Seal_Committed => "Committed" | Seal_RolledBack => "RolledBack" end.

Section Records.
Context `{J : Json}.

Record ChangeRecord := MkChangeRecord {
  cr_transaction_id : TransactionId;
  cr_change_id : ChangeId;
  cr_supersedes : option ChangeId;
  cr_capability_id : CapabilityId;
  cr_resource : ResourceKey;
  cr_prepared : PreparedMutation;
  cr_experiment_verified : bool;
  cr_state : ChangeState;
  cr_last_operation_id : OperationId;
  cr_last_receipt : option MutationReceipt;
  cr_message : option string;
}.
#[export] Instance ChangeRecord_eq_dec : EqDecision ChangeRecord.
Proof. solve_decision. Defined.

Inductive WalEvent :=
  | Started (intent_pin : EvaluationIntentPin) (capability_generation : Z)
  | ChangeUpsert (change : ChangeRecord)
  | OperationIntent (change_id : ChangeId) (operation_id : OperationId)
      (operation : OperationIntentKind)
  | Sealed (outcome : TransactionSeal)
  | CommitSealed (authorization : CommitAuthorization) (changes : list ChangeRecord).

Record WalEntry := MkWalEntry {
  sequence : Z;
  entry_transaction_id : TransactionId;
  event : WalEvent;
}.

(** [matches!(entry.event, Sealed { .. } | CommitSealed { .. })]. *)
Definition is_seal (e : WalEntry) : bool :=
  match event e with Sealed _ | CommitSealed _ _ => true | _ => false end.
End Records.

(** ** Errors ([error.rs]) *)

Inductive TransactionErrorKind :=
  | E_AppliedUnknown | E_CapabilityUnavailable | E_CommitOutcomeUnknown | E_CorruptWal
  | E_DuplicateChange | E_DuplicateResource | E_ExternalDrift | E_InvalidCandidate
  | E_InvalidState | E_PinMismatch | E_Provider | E_Sealed | E_Wal.
#[export] Instance TransactionErrorKind_eq_dec : EqDecision TransactionErrorKind.
Proof. solve_decision. Defined.

Record TransactionError := MkTransactionError {
  error_kind : TransactionErrorKind; error_message : string }.
#[export] Instance TransactionError_eq_dec : EqDecision TransactionError.
Proof. solve_decision. Defined.

Record WalError := MkWalError { wal_error_message : string }.
#[export] Instance WalError_eq_dec : EqDecision WalError.
Proof. solve_decision. Defined.

(** ** The [TransactionWal] trait and its contract *)

Class TransactionWal `{J : Json} (T : Type) := {
  append_durable : WalEntry → T → result WalError unit * T;
  load : T → result WalError (list WalEntry);
  seal : WalEntry → T → result WalError unit * T;
}.

(** What a client relies on: an entry whose append is acknowledged is the last
    entry of the log, an append that fails leaves the log as it was, and loading
    gives the log.  [wal_ok] is the implementation's well-formedness. *)
Class WalLaws `{J : Json} (T : Type) `{!TransactionWal T} := {
  wal_ok : T → Prop;
  durable : T → list WalEntry;
  load_durable w : wal_ok w → load w = Ok (durable w);
  append_durable_law w e :
    wal_ok w →
    match append_durable e w with
    | (Ok _, w') => wal_ok w' ∧ durable w' = durable w ++ [e]
    | (Err _, w') => wal_ok w' ∧ durable w' = durable w
    end;
  seal_law w e :
    wal_ok w →
    match seal e w with
    | (Ok _, w') => wal_ok w' ∧ durable w' = durable w ++ [e]
    | (Err _, w') => wal_ok w' ∧ durable w' = durable w
    end;
}.

(** ** An in-memory log (the [MemoryWal] of the kernel's tests) *)

Section MemoryWal.
Context `{J : Json}.

Record MemoryWal := MkMemoryWal {
  mem_entries : list WalEntry;
  mem_sealed : bool;
  fail_at_sequence : option Z;
}.

Definition memory_append (e : WalEntry) (w : MemoryWal) : result WalError unit * MemoryWal :=
  if mem_sealed w then (Err (MkWalError "sealed"), w)
  else if bool_decide (fail_at_sequence w = Some (sequence e)) then
    (Err (MkWalError "injected durable append failure"),
     MkMemoryWal (mem_entries w) (mem_sealed w) None)
  else (Ok tt, MkMemoryWal (mem_entries w ++ [e]) (mem_sealed w) (fail_at_sequence w)).

Definition memory_seal (e : WalEntry) (w : MemoryWal) : result WalError unit * MemoryWal :=
  match memory_append e w with
  | (Ok _, w') => (Ok tt, MkMemoryWal (mem_entries w') true (fail_at_sequence w'))
  | (Err err, w') => (Err err, w')
  end.

#[export] Instance MemoryWal_wal : TransactionWal MemoryWal := {
  append_durable := memory_append;
  load w := Ok (mem_entries w);
  seal := memory_seal;
}.

#[export, program] Instance MemoryWal_laws : WalLaws MemoryWal := {
  wal_ok _ := True;
  durable := mem_entries;
}.
Next Obligation. done. Qed.
Next Obligation. intros w e _. simpl. unfold memory_append. crush_match. Qed.
Next Obligation. intros w e _. simpl. unfold memory_seal, memory_append. crush_match. Qed.
End MemoryWal.

(** ** Files

    The operating-system file under a [FileWal]: its bytes, and the outcomes the
    environment has in store for the next system calls ([IoOk] once the list is
    used up), and what [File::metadata] says about it.  A
    failing [write_all] may have written a prefix; a failing
    [flush] or [sync_all] leaves what was written. *)

Inductive io_outcome := IoOk | IoFail (written : nat) (error : string).

(** A failure when the log is read back: at [try_clone], at [seek], or at the
    line of the given index. *)
Inductive read_failure := CloneFails (error : string) | SeekFails (error : string)
  | LineFails (index : nat) (error : string).

Record FileMetadata := MkMetadata { is_regular : bool; device : Z; inode : Z }.

Record OsFile := MkOsFile {
  contents : string;
  metadata : result string FileMetadata;
  call_outcomes : list io_outcome;
  read_fault : option read_failure;
}.

Definition next_outcome (f : OsFile) : io_outcome * OsFile :=
  match call_outcomes f with
  | [] => (IoOk, f)
  | o :: os => (o, MkOsFile (contents f) (metadata f) os (read_fault f))
  end.

Definition append_bytes (s : string) (f : OsFile) : OsFile :=
  MkOsFile (contents f +:+ s) (metadata f) (call_outcomes f) (read_fault f).

(** [File::write_all] on a file opened for append. *)
Definition write_all (buf : string) (f : OsFile) : result string unit * OsFile :=
  match next_outcome f with
  | (IoOk, f') => (Ok tt, append_bytes buf f')
  | (IoFail n error, f') => (Err error, append_bytes (String.substring 0 n buf) f')
  end.

(** [File::flush] and [File::sync_all]. *)
Definition sync_call (f : OsFile) : result string unit * OsFile :=
  match next_outcome f with
  | (IoOk, f') => (Ok tt, f')
  | (IoFail _ error, f') => (Err error, f')
  end.

(** [io::Result::and_then]. *)
Definition and_then (r : result string unit * OsFile)
    (k : OsFile → result string unit * OsFile) : result string unit * OsFile :=
  match r with
  | (Ok _, f) => k f
  | (Err e, f) => (Err e, f)
  end.

Definition newline : ascii := "010"%char.
Definition carriage_return : ascii := "013"%char.

(** [BufRead::lines]: a line ends at a newline, which is dropped together with a
    preceding carriage return; a last line without a newline is kept as it is. *)
Definition strip_cr (rev_line : list ascii) : list ascii :=
  match rev_line with
  | c :: l => if Ascii.eqb c carriage_return then l else rev_line
  | [] => []
  end.
Fixpoint lines_go (acc : list ascii) (s : string) : list string :=
  match s with
  | EmptyString => match acc with [] => [] | _ => [String.string_of_list_ascii (reverse acc)] end
  | String c s' =>
    if Ascii.eqb c newline
    then String.string_of_list_ascii (reverse (strip_cr acc)) :: lines_go [] s'
    else lines_go (c :: acc) s'
  end.
Definition lines (s : string) : list string := lines_go [] s.

(** ** [FileWal] *)

(** [serde_json::from_str]. *)
Class Deserialize (A : Type) := from_str : string → result string A.

Section FileWal.
Context `{J : Json, !Serialize WalEntry, !Deserialize WalEntry}.

Record FileWal := MkFileWal { file_path : string; file : OsFile; file_sealed : bool }.

(** One iteration of the loop of [load_file]. *)
Definition load_line (path : string) (fault : option read_failure)
    (acc : nat * list WalEntry) (line : string) : result WalError (nat * list WalEntry) :=
  let '(index, entries) := acc in
  match fault with
  | Some (LineFails i error) =>
    reject (i =? index) (MkWalError ("failed to read WAL '" +:+ path +:+ "' line "
                           +:+ show (Z.of_nat (index + 1)) +:+ ": " +:+ error))
  | _ => Ok tt
  end ≫= λ _,
  if is_blank line then Ok (S index, entries)
  else match from_str line with
       | Ok entry => Ok (S index, entries ++ [entry])
       | Err error => Err (MkWalError ("invalid WAL '" +:+ path +:+ "' line "
                             +:+ show (Z.of_nat (index + 1)) +:+ ": " +:+ error))
       end.

Definition load_file (f : OsFile) (path : string) : result WalError (list WalEntry) :=
  match read_fault f with
  | Some (CloneFails error) =>
    Err (MkWalError ("failed to clone WAL handle '" +:+ path +:+ "': " +:+ error))
  | Some (SeekFails error) =>
    Err (MkWalError ("failed to seek WAL '" +:+ path +:+ "': " +:+ error))
  | fault => acc ← fold_result (load_line path fault) (0, []) (lines (contents f)); Ok acc.2
  end.

Definition from_open_file (path : string) (f : OsFile) : result WalError FileWal :=
  meta ← map_err (λ error, MkWalError ("failed to inspect WAL '" +:+ path +:+ "': "
                                          +:+ error)) (metadata f);
  if negb (is_regular meta) then
    Err (MkWalError ("WAL '" +:+ path +:+ "' is not a regular file"))
  else
    entries ← load_file f path;
    Ok (MkFileWal path f (match last entries with Some e => is_seal e | None => false end)).

Definition write_synced (entry : WalEntry) (w : FileWal) : result WalError unit * FileWal :=
  if file_sealed w then (Err (MkWalError "cannot append to a sealed WAL"), w)
  else match to_vec entry with
  | Err error => (Err (MkWalError ("failed to encode WAL entry: " +:+ error)), w)
  | Ok encoded =>
    let '(r, f) :=
      and_then (and_then (and_then (write_all encoded (file w))
        (write_all (String newline ""))) sync_call) sync_call in
    (map_err (λ error, MkWalError ("failed to durably append WAL '" +:+ file_path w
                                    +:+ "': " +:+ error)) r,
     MkFileWal (file_path w) f (file_sealed w))
  end.

Definition file_append_durable (entry : WalEntry) (w : FileWal)
    : result WalError unit * FileWal :=
  if is_seal entry then (Err (MkWalError "use seal() for a terminal WAL entry"), w)
  else write_synced entry w.

Definition file_load (w : FileWal) : result WalError (list WalEntry) :=
  load_file (file w) (file_path w).

Definition file_seal (entry : WalEntry) (w : FileWal) : result WalError unit * FileWal :=
  if negb (is_seal entry) then
    (Err (MkWalError "WAL seal entry must contain a sealed event"), w)
  else match write_synced entry w with
  | (Ok _, w') => (Ok tt, MkFileWal (file_path w') (file w') true)
  | (Err e, w') => (Err e, w')
  end.

#[export] Instance FileWal_wal : TransactionWal FileWal := {
  append_durable := file_append_durable;
  load := file_load;
  seal := file_seal;
}.
End FileWal.

(** ** The file implements the contract

    When a failed append is a [write_all] that wrote nothing ([clean_calls]), and
    the JSON codec behaves as documented: decoding inverts encoding, and compact
    JSON is one non-blank line without control characters. *)

Class WalCodec `{J : Json, !Serialize WalEntry, !Deserialize WalEntry} := {
  encode_total e : ∃ s, to_vec e = Ok s;
  decode_encode e s : to_vec e = Ok s → from_str s = Ok e;
  encode_line e s : to_vec e = Ok s →
    is_blank s = false ∧ Forall (λ c, 32 ≤ N_of_ascii c)%N (String.list_ascii_of_string s);
}.

Inductive clean_calls : list io_outcome → Prop :=
  | clean_nil : clean_calls []
  | clean_1 : clean_calls [IoOk]
  | clean_2 : clean_calls [IoOk; IoOk]
  | clean_3 : clean_calls [IoOk; IoOk; IoOk]
  | clean_ok os : clean_calls os → clean_calls (IoOk :: IoOk :: IoOk :: IoOk :: os)
  | clean_fail error os : clean_calls os → clean_calls (IoFail 0 error :: os).

(** A text line: no newline inside, no carriage return at its end. *)
Definition text_line (s : string) : Prop :=
  Forall (λ c, 32 ≤ N_of_ascii c)%N (String.list_ascii_of_string s).

(** The contents of a file made of complete lines. *)
Fixpoint lines_text (ls : list string) : string :=
  match ls with
  | [] => ""
  | l :: ls => l +:+ String newline (lines_text ls)
  end.

Lemma lines_text_snoc ls l : lines_text (ls ++ [l]) = lines_text ls +:+ (l +:+ String newline "").
Proof.
  induction ls as [|k ls IH]; simpl; [done|]. rewrite IH.
  by rewrite <- string_app_assoc, string_app_cons.
Qed.

Lemma string_ascii_app s t :
  String.list_ascii_of_string (s +:+ t)
  = String.list_ascii_of_string s ++ String.list_ascii_of_string t.
Proof. induction s as [|a s IH]; [done|]. rewrite string_app_cons. simpl. by rewrite IH. Qed.

Lemma lines_go_line acc s t :
  text_line s →
  lines_go acc (s +:+ t) = lines_go (reverse (String.list_ascii_of_string s) ++ acc) t.
Proof.
  unfold text_line. revert acc. induction s as [|a s IH]; intros acc Hs; [done|].
  rewrite string_app_cons. simpl in *. apply Forall_cons in Hs as [Ha Hs].
  destruct (Ascii.eqb_spec a newline) as [->|]; [by vm_compute in Ha|].
  rewrite IH by done. by rewrite reverse_cons, <- app_assoc.
Qed.

Lemma strip_cr_text_line s :
  text_line s →
  strip_cr (reverse (String.list_ascii_of_string s)) = reverse (String.list_ascii_of_string s).
Proof.
  unfold text_line. rewrite <- Forall_reverse.
  destruct (reverse _) as [|c l]; simpl; [done|]. rewrite Forall_cons. intros [Hc _].
  destruct (Ascii.eqb_spec c carriage_return) as [->|]; [by vm_compute in Hc|done].
Qed.

Lemma lines_lines_text ls : Forall text_line ls → lines (lines_text ls) = ls.
Proof.
  unfold lines. induction 1 as [|l ls Hl _ IH]; simpl; [done|].
  rewrite lines_go_line by done. rewrite app_nil_r. simpl.
  rewrite strip_cr_text_line, reverse_involutive by done.
  by rewrite String.string_of_list_ascii_of_string, IH.
Qed.

Section FileWalLaws.
Context `{WalCodec}.

(** The file holds exactly the lines that decode to [es]. *)
Definition file_holds (f : OsFile) (es : list WalEntry) : Prop :=
  ∃ ls, contents f = lines_text ls ∧ Forall text_line ls
        ∧ Forall2 (λ l e, is_blank l = false ∧ from_str l = Ok e) ls es.

Lemma load_lines_decode path ls es i acc :
  Forall2 (λ l e, is_blank l = false ∧ from_str l = Ok e) ls es →
  fold_result (load_line path None) (i, acc) ls = Ok (i + length ls, acc ++ es).
Proof.
  intros Hl. revert i acc. induction Hl as [|l e ls es [Hb Hd] _ IH]; intros i acc; simpl.
  - by rewrite Nat.add_0_r, app_nil_r.
  - rewrite Hb, Hd, IH. f_equal. f_equal; [lia|by rewrite <- app_assoc].
Qed.

Lemma load_file_holds f path es :
  read_fault f = None → file_holds f es → load_file f path = Ok es.
Proof.
  intros Hf (ls & Hc & Ht & Hd). unfold load_file. rewrite Hf, Hc, lines_lines_text by done.
  by rewrite (load_lines_decode _ _ es).
Qed.

Definition file_wal_ok (w : FileWal) : Prop :=
  read_fault (file w) = None ∧ clean_calls (call_outcomes (file w)) ∧ ∃ es, file_holds (file w) es.

Definition file_durable (w : FileWal) : list WalEntry :=
  match file_load w with Ok es => es | Err _ => [] end.

Lemma file_durable_holds w es :
  read_fault (file w) = None → file_holds (file w) es → file_durable w = es.
Proof. intros Hf He. unfold file_durable, file_load. by rewrite (load_file_holds _ _ es). Qed.

(** The effect of [write_synced] on the file, by the outcome it consumed. *)
Lemma write_synced_clean e w es :
  file_wal_ok w → file_holds (file w) es →
  match write_synced e w with
  | (Ok _, w') => file_wal_ok w' ∧ file_holds (file w') (es ++ [e])
  | (Err _, w') => file_wal_ok w' ∧ file_holds (file w') es
  end.
Proof.
  intros Hok Hes. pose proof Hok as (Hf & Hc & _).
  destruct (encode_total e) as [s Hs].
  destruct (encode_line _ _ Hs) as [Hb Ht].
  assert (Hnew : file_holds (append_bytes (String newline "") (append_bytes s (file w))) (es ++ [e])).
  { destruct Hes as (ls & Hls & Htl & Hd). exists (ls ++ [s]). split; [|split].
    - simpl. by rewrite lines_text_snoc, Hls, string_app_assoc.
    - apply Forall_app. split; [done|by constructor].
    - apply Forall2_app; [done|]. constructor; [|done]. split; [done|by apply decode_encode]. }
  unfold write_synced. destruct (file_sealed w); [done|]. rewrite Hs.
  unfold write_all, sync_call, next_outcome.
  destruct (file w) as [c r os fault] eqn:Hfile; simpl in *.
  destruct Hc as [| | | |os Hos|error os Hos]; simpl;
    [split; [split_and!; eauto using clean_calls|done]..|].
  assert (append_bytes (String.substring 0 0 s) (MkOsFile c r os fault) = MkOsFile c r os fault) as ->.
  { unfold append_bytes. simpl. destruct s; simpl; by rewrite string_app_nil_r. }
  split; [split_and!; eauto|done].
Qed.

#[export, program] Instance FileWal_laws : WalLaws FileWal := {
  wal_ok := file_wal_ok;
  durable := file_durable;
}.
Next Obligation.
  intros w (Hf & _ & es & Hes). rewrite (file_durable_holds _ es) by done.
  by apply load_file_holds.
Qed.
Next Obligation.
  intros w e Hok. pose proof Hok as (Hf & _ & es & Hes). simpl. unfold file_append_durable.
  destruct (is_seal e); [done|]. pose proof (write_synced_clean e w es Hok Hes) as Hw.
  destruct (write_synced e w) as [[[]|] w']; destruct Hw as [Hok' Hes']; (split; [done|]);
    rewrite (file_durable_holds w es), (file_durable_holds w' _ ltac:(apply Hok') Hes'); done.
Qed.
Next Obligation.
  intros w e Hok. pose proof Hok as (Hf & _ & es & Hes). simpl. unfold file_seal.
  destruct (is_seal e); [|done]. pose proof (write_synced_clean e w es Hok Hes) as Hw.
  destruct (write_synced e w) as [[[]|] w']; destruct Hw as [Hok' Hes'].
  - split; [done|]. rewrite (file_durable_holds w es) by done.
    rewrite (file_durable_holds _ (es ++ [e])); [done| |done]. apply Hok'.
  - split; [done|]. by rewrite (file_durable_holds w es), (file_durable_holds w' _ ltac:(apply Hok') Hes').
Qed.
End FileWalLaws.

(** ** Files cut by a crash

    A crash cuts the text of a log anywhere: between two lines, before the newline
    of the last one, or inside a line. *)

(** A line that is cut is not blank, since every entry starts with its brace, and
    is no JSON document any more.  (A cut inside a character fails in
    [BufRead::lines] instead, with another message.) *)
Class TornLines `{J : Json, !Serialize WalEntry, !Deserialize WalEntry} := {
  torn_line_fails e s p q : to_vec e = Ok s → s = p +:+ q → p ≠ "" → q ≠ "" →
    is_blank p = false ∧ ∃ error, from_str p = Err error;
}.

Lemma lines_torn ls p : Forall text_line ls → text_line p → p ≠ "" → lines (lines_text ls +:+ p) = ls ++ [p].
Proof.
  unfold lines. intros Hls Hp Hne. induction Hls as [|l ls Hl _ IH]; simpl.
  - change ("" +:+ p) with p. rewrite <- (string_app_nil_r p) at 1. rewrite lines_go_line by done.
    rewrite app_nil_r. simpl.
    destruct (reverse (String.list_ascii_of_string p)) eqn:Hr.
    + apply (f_equal reverse) in Hr. rewrite reverse_involutive in Hr. by destruct p, Hne.
    + by rewrite <- Hr, reverse_involutive, String.string_of_list_ascii_of_string.
  - rewrite <- string_app_assoc, lines_go_line by done. rewrite app_nil_r, string_app_cons. simpl.
    rewrite strip_cr_text_line, reverse_involutive by done.
    by rewrite String.string_of_list_ascii_of_string, IH.
Qed.

Lemma string_app_inj_tail s t u : s +:+ u = t +:+ u → s = t.
Proof.
  intros H%(f_equal String.list_ascii_of_string). rewrite !string_ascii_app in H.
  apply app_inv_tail in H. rewrite <- (String.string_of_list_ascii_of_string s), H.
  apply String.string_of_list_ascii_of_string.
Qed.

(** One of two prefixes of a text is a prefix of the other. *)
Lemma string_app_cases a b c d :
  a +:+ b = c +:+ d → (∃ q, a = c +:+ q ∧ d = q +:+ b) ∨ (∃ q, c = a +:+ q ∧ b = q +:+ d ∧ q ≠ "").
Proof.
  revert c. induction a as [|x a IH]; intros c H.
  - destruct c as [|y c]; [left; by exists ""|right]. by exists (String y c).
  - destruct c as [|y c]; [left; by exists (String x a)|].
    rewrite !string_app_cons in H. injection H as -> H.
    destruct (IH c H) as [(q & -> & ->)|(q & -> & -> & ?)]; [left|right]; by exists q.
Qed.

(** Where a text of lines can be cut. *)
Lemma lines_text_cut ls text rest :
  lines_text ls = text +:+ rest →
  (∃ ls1 ls2, ls = ls1 ++ ls2 ∧ text = lines_text ls1)
  ∨ ∃ ls1 l ls2 p q, ls = ls1 ++ l :: ls2 ∧ l = p +:+ q ∧ p ≠ "" ∧ text = lines_text ls1 +:+ p.
Proof.
  revert text. induction ls as [|l ls IH]; intros text; cbn [lines_text].
  { destruct text; [|done]. intros _. left. by exists [], []. }
  intros [(q & Hl & _)|(q & -> & Hq & Hne)]%string_app_cases.
  - destruct text as [|x text]; [left; by exists [], (l :: ls)|].
    right. exists [], l, ls, (String x text), q. by split_and!.
  - destruct q as [|x q]; [done|]. rewrite string_app_cons in Hq. injection Hq as <- Hq.
    destruct (IH q Hq) as [(ls1 & ls2 & -> & ->)|(ls1 & l' & ls2 & p & q' & -> & -> & Hp & ->)].
    + left. by exists (l :: ls1), ls2.
    + right. exists (l :: ls1), (p +:+ q'), ls2, p, q'. split_and!; try done.
      cbn [lines_text]. by rewrite <- string_app_assoc, string_app_cons.
Qed.

Section TornLogs.
Context `{WalCodec}.

(** The lines [write_synced] writes for these entries. *)
Definition encoded (es : list WalEntry) (ls : list string) : Prop :=
  Forall2 (λ e l, to_vec e = Ok l) es ls.

(** The text is the lines of [es]; the last newline may be missing. *)
Definition whole_lines (es : list WalEntry) (text : string) : Prop :=
  ∃ ls, encoded es ls ∧ (text = lines_text ls ∨ text +:+ String newline "" = lines_text ls).

(** The text is the lines of [es] and a non-empty part of the line of [e]. *)
Definition cut_line (es : list WalEntry) (e : WalEntry) (text : string) : Prop :=
  ∃ ls l p q, encoded es ls ∧ to_vec e = Ok l ∧ l = p +:+ q ∧ p ≠ "" ∧ q ≠ ""
    ∧ text = lines_text ls +:+ p.

Lemma encoded_lines es ls :
  encoded es ls → Forall text_line ls ∧ Forall2 (λ l e, is_blank l = false ∧ from_str l = Ok e) ls es.
Proof.
  induction 1 as [|e l es ls He _ [IH1 IH2]]; [done|].
  destruct (encode_line _ _ He) as [Hb Ht]. split; constructor; try done.
  split; [done|by apply decode_encode].
Qed.

Lemma write_synced_line e w w' :
  write_synced e w = (Ok tt, w') →
  ∃ l, to_vec e = Ok l ∧ contents (file w') = contents (file w) +:+ (l +:+ String newline "").
Proof.
  unfold write_synced. destruct (file_sealed w); [done|]. destruct (to_vec e) as [l|]; [|done].
  intros Hw. exists l. split; [done|]. revert Hw. unfold write_all, sync_call, next_outcome.
  destruct (file w) as [c meta os fault]. simpl.
  destruct os as [|[] os]; simpl; [|destruct os as [|[] os]; simpl; [|destruct os as [|[] os]; simpl;
    [|destruct os as [|[] os]; simpl|]|]|]; intros [= <-]; simpl; by rewrite string_app_assoc.
Qed.

(** Appending entries to an empty file gives the lines of the entries. *)
Lemma encoded_append es ls e w w' :
  encoded es ls → contents (file w) = lines_text ls → write_synced e w = (Ok tt, w') →
  ∃ l, encoded (es ++ [e]) (ls ++ [l]) ∧ contents (file w') = lines_text (ls ++ [l]).
Proof.
  intros Hes Hc Hw. destruct (write_synced_line e w w' Hw) as (l & Hl & ->). exists l.
  rewrite lines_text_snoc, Hc. split; [|done]. apply Forall2_app; [done|by repeat constructor].
Qed.

Lemma cut_text es ls text rest :
  encoded es ls → lines_text ls = text +:+ rest →
  (∃ es1, es1 `prefix_of` es ∧ whole_lines es1 text)
  ∨ ∃ es1 e, es1 ++ [e] `prefix_of` es ∧ cut_line es1 e text.
Proof.
  intros Hes [(ls1 & ls2 & -> & ->)|(ls1 & l & ls2 & p & q & -> & Hl & Hp & ->)]%lines_text_cut.
  - apply Forall2_app_inv_r in Hes as (es1 & es2 & He1 & _ & ->). left. exists es1.
    split; [by exists es2|]. exists ls1. by split; [|left].
  - apply Forall2_app_inv_r in Hes as (es1 & es2 & He1 & He2 & ->).
    apply Forall2_cons_inv_r in He2 as (e & es3 & He & _ & ->).
    assert (es1 ++ [e] `prefix_of` es1 ++ e :: es3) as Hpre by (exists es3; by rewrite <- app_assoc).
    destruct q as [|x q].
    + left. exists (es1 ++ [e]). split; [done|]. exists (ls1 ++ [l]). split.
      * apply Forall2_app; [done|by repeat constructor].
      * right. rewrite string_app_nil_r in Hl. by rewrite lines_text_snoc, string_app_assoc, Hl.
    + right. exists es1, e. split; [done|]. exists ls1, l, p, (String x q). by split_and!.
Qed.

Lemma whole_lines_nil text : whole_lines [] text → text = "".
Proof. intros (ls & Hls%Forall2_nil_inv_l & Hc). subst ls. destruct Hc as [->|Hc]; [done|]. by destruct text. Qed.

Lemma load_whole_lines f path es :
  read_fault f = None → whole_lines es (contents f) → load_file f path = Ok es.
Proof.
  intros Hf (ls & Hes & Hc). destruct (encoded_lines _ _ Hes) as [Ht Hd].
  assert (lines (contents f) = ls) as Hls.
  { destruct Hc as [->|Hc]; [by apply lines_lines_text|].
    destruct ls as [|l ls _] using rev_ind; [by destruct (contents f)|].
    rewrite lines_text_snoc, string_app_assoc in Hc. apply string_app_inj_tail in Hc as ->.
    apply Forall_app in Ht as [Ht [Htl _]%Forall_cons]. apply lines_torn; [done|done|].
    apply Forall2_app_inv_l in Hd as (? & ? & _ & Hd & _).
    apply Forall2_cons_inv_l in Hd as (? & ? & [Hb _] & _). by intros ->. }
  unfold load_file. rewrite Hf, Hls. by rewrite (load_lines_decode _ _ es).
Qed.

Lemma load_cut_line `{!TornLines} f path es e :
  read_fault f = None → cut_line es e (contents f) → ∃ error, load_file f path = Err error.
Proof.
  intros Hf (ls & l & p & q & Hes & Hl & Hpq & Hp & Hq & Hc). destruct (encoded_lines _ _ Hes) as [Ht Hd].
  destruct (torn_line_fails e l p q) as (Hb & error & He); [done..|].
  assert (text_line p) as Htp.
  { destruct (encode_line _ _ Hl) as [_ Htl]. unfold text_line in *. rewrite Hpq, string_ascii_app in Htl.
    by apply Forall_app in Htl as [? _]. }
  unfold load_file. rewrite Hf, Hc, lines_torn by done.
  rewrite fold_result_app, (load_lines_decode _ _ es) by done. simpl. rewrite Hb, He. by eexists.
Qed.
End TornLogs.
