(* ===== verification/Registry.v ===== *)
(** * The registry's guarantees ([tuning_agent/src/capability/registry.rs])

    Every registry built by registrations satisfies [registry_ok]: the typed maps
    and the metadata agree, and each entry passed the checks of its kind and the
    administrator's policy.  [SnapshotSpec] is what the transaction kernel and
    the evaluation protocol may assume of a snapshot. *)

From S2P Require Export Capability.

Section Registry.
Context `{J : Json} {W : Type}.
Implicit Types (r : CapabilityRegistry W) (m : CapabilityMeta).

(** The effects a provider of each kind may declare. *)
Definition admitted_effect (k : CapabilityKind) : EffectClass :=
  match k with
  | Probe | Measurement => ReadOnly
  | Mutation => ReversibleMutation
  | Comparison => PureComputation
  end.

(** A capability inside the authority boundary of its kind. *)
Record admitted (k : CapabilityKind) m : Prop := {
  admitted_kind : kind m = k;
  admitted_effects : effect m = admitted_effect k;
  admitted_phases : allowed_phases m ≠ [] ∧ ∀ p, p ∈ allowed_phases m → p ∈ valid_phases k;
  admitted_role : role m = RuntimeSystemGuardrail →
    k = Measurement ∧ provider_class (provider m) = Builtin;
  admitted_idempotent : k = Mutation → idempotent m = true;
  admitted_deterministic : k = Comparison → deterministic m = true;
  admitted_limits : timeout_ms (limits m) ≠ 0%Z ∧ max_output_bytes (limits m) ≠ 0%Z;
}.

(** What the administrator's policy lets through. *)
Record permitted (p : AdminPolicy) m : Prop := {
  permitted_class : provider_class (provider m) ∈ allowed_provider_classes p;
  permitted_effect : effect m ∈ allowed_effects p;
  permitted_not_denied : meta_id m ∉ denied_capabilities p;
  permitted_listed : ∀ allowed, allowed_capabilities p = Some allowed → meta_id m ∈ allowed;
}.

Lemma policy_validate_Ok (p : AdminPolicy) m n :
  policy_validate p m n = Ok tt ↔ n < MAX_CAPABILITIES ∧ permitted p m.
Proof.
  unfold policy_validate.
  case_bool_decide; [split; [done|intros []; lia]|].
  case_bool_decide; [split; [done|by intros [_ []]]|].
  destruct (match allowed_capabilities p with Some _ => _ | None => _ end) eqn:Hl.
  { split; [done|]. intros [_ []]. destruct (allowed_capabilities p); [|done].
    apply bool_decide_eq_true in Hl. naive_solver. }
  case_bool_decide; [split; [done|by intros [_ []]]|].
  case_bool_decide; [split; [done|by intros [_ []]]|].
  split; [intros _|done]. split; [lia|]. split; [done..|].
  intros allowed Ha. rewrite Ha in Hl. apply bool_decide_eq_false in Hl. by apply dec_stable.
Qed.

Lemma validate_registration_Ok r m k :
  validate_registration r m k [admitted_effect k] = Ok tt →
  metadata r !! meta_id m = None ∧ admitted k m ∧ size (metadata r) < MAX_CAPABILITIES
  ∧ permitted (policy r) m.
Proof.
  unfold validate_registration. intros H.
  repeat (match type of H with
          | (if bool_decide ?P then _ else _) = _ =>
            destruct (bool_decide_reflect P); [discriminate H|]
          | (if ?b then _ else _) = _ => destruct b eqn:?; [discriminate H|]
          end).
  apply policy_validate_Ok in H as [Hsize Hp].
  split; [by apply eq_None_not_Some|]. split; [|done].
  repeat match goal with
         | H : ¬ (_ ≠ _) |- _ => apply dec_stable in H
         | H : ¬ (_ ∉ _) |- _ => apply dec_stable in H
         | H : _ || _ = false |- _ => apply orb_false_iff in H as [? ?]
         end.
  split; try done.
  - by apply list_elem_of_singleton.
  - split; [done|]. intros p Hin. destruct (decide (p ∈ valid_phases k)); [done|].
    match goal with H : existsb _ _ = false |- _ =>
      exfalso; apply not_true_iff_false in H; apply H end.
    apply existsb_exists. exists p. rewrite <- list_elem_of_In. split; [done|].
    by apply bool_decide_eq_true.
  - intros Hr. rewrite bool_decide_eq_true_2 in * by done. simpl in *.
    repeat match goal with
         | H : _ || _ = false |- _ => apply orb_false_iff in H as [? ?]
         | H : bool_decide _ = false |- _ => apply bool_decide_eq_false in H
         | H : ¬ (_ ≠ _) |- _ => apply dec_stable in H
         end. done.
  - intros ->. rewrite bool_decide_eq_true_2 in * by done. simpl in *.
    by apply negb_false_iff.
  - intros ->. rewrite (bool_decide_eq_true_2 (Comparison = Comparison)) in * by done. simpl in *.
    by apply negb_false_iff.
  - by rewrite <- !Z.eqb_neq.
Qed.

(** ** What registrations build *)

(** A typed map under the metadata [md]: each provider is registered under its
    own identifier and admitted as a [k]. *)
Definition typed_map {P} (meta_of : P → CapabilityMeta) (k : CapabilityKind)
    (md : gmap CapabilityId CapabilityMeta) (providers : gmap CapabilityId P) : Prop :=
  ∀ id p, providers !! id = Some p →
    md !! id = Some (meta_of p) ∧ meta_id (meta_of p) = id ∧ admitted k (meta_of p).

Record SnapshotSpec (s : CapabilitySnapshot W) : Prop := {
  spec_probes : typed_map probe_meta Probe (snap_metadata s) (snap_probes s);
  spec_mutations : typed_map driver_meta Mutation (snap_metadata s) (snap_mutations s);
  spec_measurements :
    typed_map measurement_meta Measurement (snap_metadata s) (snap_measurements s);
  spec_comparisons : typed_map comparison_meta Comparison (snap_metadata s) (snap_comparisons s);
}.

Record registry_ok r : Prop := {
  ok_snapshot : SnapshotSpec (snapshot r);
  ok_size : size (metadata r) ≤ MAX_CAPABILITIES;
  ok_generation : generation r = Z.of_nat (size (metadata r));
  ok_permitted id m : metadata r !! id = Some m → meta_id m = id ∧ permitted (policy r) m;
}.

(** One successful registration. *)
Inductive registers : CapabilityRegistry W → CapabilityRegistry W → Prop :=
  | registers_probe r p r' : register_probe r p = Ok r' → registers r r'
  | registers_mutation r d r' : register_mutation r d = Ok r' → registers r r'
  | registers_measurement r q r' : register_measurement r q = Ok r' → registers r r'
  | registers_comparison r c r' : register_comparison r c = Ok r' → registers r r'.

Lemma registry_ok_new p : registry_ok (CapabilityRegistry_new p).
Proof.
  split; simpl; [|rewrite map_size_empty; unfold MAX_CAPABILITIES; lia|done|].
  - by split; intros id q; simpl; rewrite lookup_empty.
  - intros id m. by rewrite lookup_empty.
Qed.

Lemma typed_map_other {P} (meta_of : P → CapabilityMeta) k md providers m :
  md !! meta_id m = None → typed_map meta_of k md providers →
  typed_map meta_of k (<[meta_id m := m]> md) providers.
Proof.
  intros Hm Ht id p Hp. destruct (Ht id p Hp) as (Hmd & ? & ?). split_and!; [|done..].
  rewrite lookup_insert_ne; [done|]. congruence.
Qed.

Lemma typed_map_insert {P} (meta_of : P → CapabilityMeta) k md providers p :
  md !! meta_id (meta_of p) = None → admitted k (meta_of p) → typed_map meta_of k md providers →
  typed_map meta_of k (<[meta_id (meta_of p) := meta_of p]> md)
    (<[meta_id (meta_of p) := p]> providers).
Proof.
  intros Hm Ha Ht id q. rewrite lookup_insert_Some. intros [[<- <-]|[Hne Hq]].
  - rewrite lookup_insert_eq. done.
  - destruct (Ht id q Hq) as (? & ? & ?). by rewrite lookup_insert_ne.
Qed.

(** The bookkeeping all four registrations end with. *)
Lemma registry_ok_finish r r' m :
  registry_ok r → metadata r !! meta_id m = None → size (metadata r) < MAX_CAPABILITIES →
  permitted (policy r) m → policy r' = policy r → metadata r' = metadata r →
  generation r' = generation r → SnapshotSpec (snapshot (finish_registration r' m)) →
  registry_ok (finish_registration r' m).
Proof.
  intros [_ Hs Hg Hp] Hm Hsize Hperm E1 E2 E3 Hsnap.
  assert (MAX_CAPABILITIES = 256) as Hmax by done.
  split; [done|..]; simpl; rewrite E2.
  - rewrite map_size_insert_None by done. lia.
  - rewrite map_size_insert_None, E3, Hg by done.
    unfold u64_saturating_add, u64_max. lia.
  - intros id m'. rewrite lookup_insert_Some, E1. intros [[<- <-]|[_ Hm']]; [done|by apply Hp].
Qed.

Lemma registry_ok_registers r r' : registry_ok r → registers r r' → registry_ok r'.
Proof.
  intros Hok Hr. pose proof (ok_snapshot r Hok) as [H1 H2 H3 H4]. simpl in *.
  destruct Hr as [r p r' Hr|r p r' Hr|r p r' Hr|r p r' Hr];
    apply reject_bind_Ok in Hr as [Hv%validate_registration_Ok [= <-]];
    destruct Hv as (Hm & Ha & Hsize & Hp);
    (eapply registry_ok_finish; [done..|]);
    split; simpl; solve [by apply typed_map_other | by apply typed_map_insert].
Qed.

Lemma registers_policy r r' : registers r r' → policy r' = policy r.
Proof. by intros [? ? ? H|? ? ? H|? ? ? H|? ? ? H]; apply reject_bind_Ok in H as [_ [= <-]]. Qed.

Lemma registry_ok_reachable p r :
  rtc registers (CapabilityRegistry_new p) r → registry_ok r ∧ policy r = p.
Proof.
  intros Hr. remember (CapabilityRegistry_new p) as r0 eqn:E.
  assert (registry_ok r0 ∧ policy r0 = p) as H0 by (subst; split; [apply registry_ok_new|done]).
  clear E. induction Hr as [|r0 r1 r Hs _ IH]; [done|]. destruct H0 as [H0 <-].
  apply IH. split; [by eapply registry_ok_registers|by apply registers_policy].
Qed.

(** C40. Whatever is registered, in any order, the registry stays within the
    authority boundaries: each typed map agrees with the metadata, every provider
    has the kind, effect, phases and flags of its map and is permitted by the
    administrator's policy, there are at most 256 capabilities, and the
    generation counts them. *)
Theorem registered_capabilities_are_admitted p r :
  rtc registers (CapabilityRegistry_new p) r → registry_ok r ∧ policy r = p.
Proof. apply registry_ok_reachable. Qed.
End Registry.
Arguments SnapshotSpec {J W} s.
Arguments registry_ok {J W} r.
Arguments registers {J W} r r'.
