(* ===== verification/Values.v ===== *)
(** * [f64]

    The double-precision arithmetic of the evaluation code, on the
    specification floats of the Standard Library at precision 53 and exponent
    bound 1024: the operators and methods the source uses, [f64::total_cmp] and
    the shortest decimal rendering of [format!("{x}")].

    The second part holds the accessors and constructors of [serde_json::Value] the
    evaluation code uses, with their documented laws. *)

From S2P Require Export Domain.

Open Scope Z_scope.

(** ** Arithmetic and comparison *)

Definition f64_add : spec_float → spec_float → spec_float := SFadd 53 1024.
Definition f64_sub : spec_float → spec_float → spec_float := SFsub 53 1024.
Definition f64_mul : spec_float → spec_float → spec_float := SFmul 53 1024.
Definition f64_div : spec_float → spec_float → spec_float := SFdiv 53 1024.
Definition f64_abs : spec_float → spec_float := SFabs.

(** [<=], [<], [>=]: false when an operand is a NaN. *)
Definition f64_le (x y : spec_float) : bool := SFleb x y.
Definition f64_lt (x y : spec_float) : bool := SFltb x y.
Definition f64_ge (x y : spec_float) : bool := SFleb y x.

(** [f64::max]: the other operand when one is a NaN. *)
Definition f64_max (x y : spec_float) : spec_float :=
  match x, y with
  | S754_nan, _ => y
  | _, S754_nan => x
  | _, _ => if f64_lt x y then y else x
  end.

(** A literal with an integer value. *)
Definition f64_of_Z (z : Z) : spec_float := binary_normalize 53 1024 z 0 false.
Definition f64_zero : spec_float := S754_zero false.
Definition f64_hundred : spec_float := f64_of_Z 100.
Definition f64_two : spec_float := f64_of_Z 2.
(** [f64::EPSILON], 2^-52. *)
Definition f64_EPSILON : spec_float := S754_finite false (2 ^ 52) (-104).

(** [f64::total_cmp], as [x <= y].  The specification floats have one NaN, taken
    as the positive quiet one. *)
Definition f64_total_le (x y : spec_float) : bool :=
  match x, y with
  | _, S754_nan => true
  | S754_nan, _ => false
  | S754_zero s1, S754_zero s2 => s1 || negb s2
  | _, _ => SFleb x y
  end.

(** ** [format!("{x}")] *)

(** The comparison of [d * 10^p] with [m * 2^e]. *)
Definition compare_decimal (d p m e : Z) : comparison :=
  d * 10 ^ Z.max p 0 * 2 ^ Z.max (- e) 0 ?= m * 2 ^ Z.max e 0 * 10 ^ Z.max (- p) 0.

(** The least [d] from a start on with [m * 2^e < 10^d]. *)
Fixpoint decimal_exponent (fuel : nat) (m e d : Z) : Z :=
  match fuel with
  | O => d
  | S fuel => match compare_decimal 1 d m e with
              | Gt => d
              | _ => decimal_exponent fuel m e (d + 1)
              end
  end.

(** The decimals that read back as the float [m * 2^e]: its bounds in quarters
    of its last place, which they may touch when [m] is even. *)
Definition reads_back (m e d p : Z) : bool :=
  let low := if (m =? 2 ^ 52) && (-1074 <? e) then 4 * m - 1 else 4 * m - 2 in
  let high := 4 * m + 2 in
  match compare_decimal d p low (e - 2), compare_decimal d p high (e - 2) with
  | Gt, Lt => true
  | Eq, _ | _, Eq => Z.even m
  | _, _ => false
  end.

(** The digits and exponent with the fewest digits that read back. *)
Fixpoint shortest_digits (fuel : nat) (m e exponent count : Z) : Z * Z :=
  let p := exponent - count in
  let below := (m * 2 ^ Z.max e 0 * 10 ^ Z.max (- p) 0) / (10 ^ Z.max p 0 * 2 ^ Z.max (- e) 0) in
  let above := below + 1 in
  match fuel with
  | O => (below, p)
  | S fuel =>
    match reads_back m e below p, reads_back m e above p with
    | true, false => (below, p)
    | false, true => (above, p)
    | true, true =>
      (match compare_decimal (2 * below + 1) p (2 * m) e with Gt => below | _ => above end, p)
    | false, false => shortest_digits fuel m e exponent (count + 1)
    end
  end.

Fixpoint drop_trailing_zeros (fuel : nat) (d p : Z) : Z * Z :=
  match fuel with
  | O => (d, p)
  | S fuel => if (p <? 0) && (d mod 10 =? 0) then drop_trailing_zeros fuel (d / 10) (p + 1)
              else (d, p)
  end.

Fixpoint zeros (n : nat) : string :=
  match n with O => "" | S n => String "0" (zeros n) end.

Definition decimal_display (d p : Z) : string :=
  if 0 <=? p then show d +:+ zeros (Z.to_nat p)
  else let fraction := show (d mod 10 ^ (- p)) in
       show (d / 10 ^ (- p)) +:+ "." +:+ zeros (Z.to_nat (- p) - String.length fraction) +:+ fraction.

Definition f64_display (x : spec_float) : string :=
  match x with
  | S754_nan => "NaN"
  | S754_infinity s => if s then "-inf" else "inf"
  | S754_zero s => if s then "-0" else "0"
  | S754_finite s m e =>
    let bits := Z.pos (digits2_pos m) + e in
    let exponent := decimal_exponent 4 (Z.pos m) e ((bits - 1) * 1233 / 4096 - 1) in
    let '(d, p) := shortest_digits 17 (Z.pos m) e exponent 1 in
    let '(d, p) := drop_trailing_zeros 18 d p in
    (if s then "-" else "") +:+ decimal_display d p
  end.

Example f64_display_integer : f64_display f64_hundred = "100".
Proof. vm_compute. reflexivity. Qed.
Example f64_display_tenth : f64_display (f64_div (f64_of_Z 1) (f64_of_Z 10)) = "0.1".
Proof. vm_compute. reflexivity. Qed.
Example f64_display_sum :
  f64_display (f64_add (f64_div (f64_of_Z 1) (f64_of_Z 10)) (f64_div (f64_of_Z 2) (f64_of_Z 10)))
  = "0.30000000000000004".
Proof. vm_compute. reflexivity. Qed.
Example f64_display_epsilon : f64_display f64_EPSILON = "0.0000000000000002220446049250313".
Proof. vm_compute. reflexivity. Qed.
Example f64_display_large : f64_display (f64_of_Z (10 ^ 22)) = "10000000000000000000000".
Proof. vm_compute. reflexivity. Qed.

(** ** The order of floats

    [SFcompare] on non-NaN floats is a total preorder; the proofs go through a
    key that is compared lexicographically. *)

Definition f64_key (x : spec_float) : Z * Z * Z :=
  match x with
  | S754_nan => (0, 0, 0)
  | S754_infinity s => (if s then -2 else 2, 0, 0)
  | S754_zero _ => (0, 0, 0)
  | S754_finite true m e => (-1, - e, Z.neg m)
  | S754_finite false m e => (1, e, Z.pos m)
  end.

Definition key_compare (x y : Z * Z * Z) : comparison :=
  match x.1.1 ?= y.1.1 with
  | Eq => match x.1.2 ?= y.1.2 with Eq => x.2 ?= y.2 | c => c end
  | c => c
  end.

Lemma SFcompare_key x y :
  x ≠ S754_nan → y ≠ S754_nan → SFcompare x y = Some (key_compare (f64_key x) (f64_key y)).
Proof.
  intros Hx Hy. unfold key_compare.
  destruct x as [[]|[]| |[] m1 e1], y as [[]|[]| |[] m2 e2]; try done; simpl.
  rewrite Z.compare_opp, (Z.compare_antisym e1 e2). by destruct (e1 ?= e2).
Qed.

Lemma key_compare_le x y :
  key_compare x y ≠ Gt ↔
  x.1.1 < y.1.1 ∨ x.1.1 = y.1.1 ∧ (x.1.2 < y.1.2 ∨ x.1.2 = y.1.2 ∧ x.2 <= y.2).
Proof.
  unfold key_compare.
  destruct (Z.compare_spec x.1.1 y.1.1) as [E1|E1|E1];
    [|split; [lia|done]|split; [done|lia]].
  destruct (Z.compare_spec x.1.2 y.1.2) as [E2|E2|E2];
    [|split; [lia|done]|split; [done|lia]].
  destruct (Z.compare_spec x.2 y.2); split; done || lia.
Qed.

Lemma key_le_trans x y z :
  key_compare x y ≠ Gt → key_compare y z ≠ Gt → key_compare x z ≠ Gt.
Proof. rewrite !key_compare_le. lia. Qed.

Lemma f64_le_key x y :
  f64_le x y = true ↔
  x ≠ S754_nan ∧ y ≠ S754_nan ∧ key_compare (f64_key x) (f64_key y) ≠ Gt.
Proof.
  unfold f64_le, SFleb.
  destruct (decide (x = S754_nan)) as [->|Hx]; [naive_solver|].
  destruct (decide (y = S754_nan)) as [->|Hy]; [destruct x; naive_solver|].
  rewrite SFcompare_key by done. destruct (key_compare _ _); naive_solver.
Qed.

Lemma f64_le_trans x y z : f64_le x y = true → f64_le y z = true → f64_le x z = true.
Proof.
  rewrite !f64_le_key. intros (? & _ & ?) (_ & ? & ?). split_and!; try done.
  by eapply key_le_trans.
Qed.

Lemma f64_le_refl x : x ≠ S754_nan → f64_le x x = true.
Proof.
  intros Hx. rewrite f64_le_key. split_and!; try done. unfold key_compare.
  by rewrite !Z.compare_refl.
Qed.

(** ** [total_cmp] is a total order *)

Definition total_key (x : spec_float) : Z * Z * Z :=
  match x with
  | S754_nan => (3, 0, 0)
  | S754_zero s => (0, 0, if s then 0 else 1)
  | _ => f64_key x
  end.

Lemma f64_total_le_key x y :
  f64_total_le x y = true ↔ key_compare (total_key x) (total_key y) ≠ Gt.
Proof.
  destruct x as [[]|[]| |[] m1 e1], y as [[]|[]| |[] m2 e2]; try (by split);
    change (f64_total_le ?x ?y) with (f64_le x y); rewrite f64_le_key; simpl; naive_solver.
Qed.

Lemma total_key_inj x y : total_key x = total_key y → x = y.
Proof.
  destruct x as [[]|[]| |[] m1 e1], y as [[]|[]| |[] m2 e2]; simpl; try done;
    intros [= H1 H2]; f_equal; lia.
Qed.

Lemma f64_total_le_total x y : f64_total_le x y = true ∨ f64_total_le y x = true.
Proof. rewrite !f64_total_le_key, !key_compare_le. lia. Qed.

#[export] Instance f64_total_le_trans : Transitive (λ x y, f64_total_le x y = true).
Proof. intros x y z. rewrite !f64_total_le_key, !key_compare_le. lia. Qed.

#[export] Instance f64_total_le_antisymm : AntiSymm (=) (λ x y, f64_total_le x y = true).
Proof.
  intros x y. rewrite !f64_total_le_key, !key_compare_le. intros H1 H2. apply total_key_inj.
  destruct (total_key x) as [[a1 b1] c1], (total_key y) as [[a2 b2] c2]. simpl in *.
  repeat f_equal; lia.
Qed.

(** Sorting floats forgets the order they came in. *)
Lemma sort_floats_perm l1 l2 : l1 ≡ₚ l2 → sort_by f64_total_le l1 = sort_by f64_total_le l2.
Proof.
  intros Hp. apply (Sorted_unique (λ x y, f64_total_le x y = true));
    [apply sort_by_Sorted, f64_total_le_total..|]. by rewrite !sort_by_perm.
Qed.

(** * JSON values

    The accessors and constructors of [serde_json::Value] the evaluation code
    uses ([Value::get], [as_array], [json!], ...), code outside the repository,
    with the documented laws that relate them. *)

(** [serde_json::to_value] and [serde_json::from_value] at a type. *)
Class ToValue `{J : Json} (A : Type) := to_value : A → result string Value.
Class FromValue `{J : Json} (A : Type) := from_value : Value → result string A.

Class JsonData `{J : Json} := {
  (** [value.get(key)] *)
  value_get : string → Value → option Value;
  (** [value.as_object()], its keys in order *)
  object_keys : Value → option (list string);
  as_array : Value → option (list Value);
  as_string : Value → option string;
  as_bool : Value → option bool;
  (** [json!] at a string, a boolean, a float, an integer, a list and an object *)
  json_string : string → Value;
  json_bool : bool → Value;
  json_f64 : spec_float → Value;
  json_integer : Z → Value;
  json_array : list Value → Value;
  json_object : list (string * Value) → Value;
}.

(** [json!(option)]. *)
Definition json_option `{JsonData} {A} (f : A → Value) (o : option A) : Value :=
  match o with Some a => f a | None => Value_Null end.

(** What [serde_json] documents of them: a value built by [json!] is read back
    by the accessor of its type, [is_boolean] and [as_bool] agree, and [json!]
    keeps a finite float. *)
Class JsonLaws `{JD : JsonData} : Prop := {
  as_f64_json x : f64_is_finite x = true → as_f64 (json_f64 x) = Some x;
  as_bool_json b : as_bool (json_bool b) = Some b;
  as_string_json s : as_string (json_string s) = Some s;
  as_array_json l : as_array (json_array l) = Some l;
  is_object_json l : is_object (json_object l) = true;
  is_boolean_as_bool v : is_boolean v = true ↔ is_Some (as_bool v);
  value_get_json k l : NoDup l.*1 → value_get k (json_object l) = list_to_map (M := gmap string Value) l !! k;
}.
