(* ===== verification/Contract.v ===== *)
(** * Evaluation contracts and intents
      ([tuning_agent/src/kernel/evaluation/{error,contract,freezer,intent}.rs])

    What an episode commits itself to before the first mutation: the measurement
    and comparisons, the sampling schedule, the providers they are pinned to,
    and the digests that seal them. *)

From S2P Require Export Registry Values.

Open Scope Z_scope.

(** ** Errors ([error.rs]) *)

Inductive EvaluationErrorKind :=
  | Ek_InvalidContract | Ek_BudgetExceeded | Ek_MissingCapability | Ek_Transaction
  | Ek_Measurement | Ek_Cleanup | Ek_Comparison | Ek_Protocol.
#[export] Instance EvaluationErrorKind_eq_dec : EqDecision EvaluationErrorKind.
Proof. solve_decision. Defined.

Record EvaluationError := MkEvaluationError {
  evaluation_error_kind : EvaluationErrorKind; evaluation_error_message : string }.

Definition invalid_contract (message : string) : EvaluationError :=
  MkEvaluationError Ek_InvalidContract message.

(** ** Sampling plans ([contract.rs]) *)

Definition MAX_PRIMARY_COMPARISONS : nat := 32.
Definition MAX_REGRESSION_GUARDS : nat := 32.
Definition MAX_WORKLOAD_INVARIANTS : nat := 32.

Record SamplingPlan := MkSamplingPlan {
  settle_ms : Z; sample_count : Z; sample_interval_ms : Z }.
#[export] Instance SamplingPlan_eq_dec : EqDecision SamplingPlan.
Proof. solve_decision. Defined.

Definition SamplingPlan_default : SamplingPlan := MkSamplingPlan 3000 3 1000.

Definition SamplingPlan_validate (p : SamplingPlan) : result string unit :=
  _ ← reject ((sample_count p =? 0) || (30 <? sample_count p))
        "sampling sample_count must be between 1 and 30";
  _ ← reject (60000 <? settle_ms p) "sampling settle_ms must not exceed 60000";
  _ ← reject (60000 <? sample_interval_ms p) "sampling sample_interval_ms must not exceed 60000";
  let scheduled_ms := u64_saturating_add (settle_ms p)
    (u64_saturating_mul (u32_saturating_sub (sample_count p) 1) (sample_interval_ms p)) in
  reject (300000 <? scheduled_ms)
    "sampling settle and interval schedule must not exceed 300000 ms per side".

(** The fields are a [u64], a [u32] and a [u64]. *)
Definition sampling_in_range (p : SamplingPlan) : Prop :=
  0 <= settle_ms p <= u64_max ∧ 0 <= sample_count p < 2 ^ 32 ∧ 0 <= sample_interval_ms p <= u64_max.

(** On accepted plans the saturating sums are the exact ones. *)
Lemma SamplingPlan_validate_Ok p :
  sampling_in_range p →
  SamplingPlan_validate p = Ok tt ↔
    1 <= sample_count p <= 30 ∧ settle_ms p <= 60000 ∧ sample_interval_ms p <= 60000
    ∧ settle_ms p + (sample_count p - 1) * sample_interval_ms p <= 300000.
Proof.
  intros (? & ? & ?). unfold SamplingPlan_validate.
  rewrite !reject_bind_Ok, !reject_Ok, orb_false_iff.
  unfold u64_saturating_add, u64_saturating_mul, u32_saturating_sub, u64_max in *.
  rewrite Z.eqb_neq, !Z.ltb_ge.
  split; intros; repeat split; try lia.
Qed.

(** ** Contracts ([contract.rs]) *)

Section Contract.
Context `{JD : JsonData}.

Record MeasurementBinding := MkMeasurementBinding {
  mb_capability_id : CapabilityId; mb_specification : Value }.
#[export] Instance MeasurementBinding_eq_dec : EqDecision MeasurementBinding.
Proof. solve_decision. Defined.

Record ComparisonBinding := MkComparisonBinding {
  cb_capability_id : CapabilityId; cb_specification : Value }.
#[export] Instance ComparisonBinding_eq_dec : EqDecision ComparisonBinding.
Proof. solve_decision. Defined.

Record EvaluationContractSpec := MkContractSpec {
  spec_measurement : MeasurementBinding;
  spec_primary : list ComparisonBinding;
  spec_regression_guards : list ComparisonBinding;
  spec_workload_invariants : list ComparisonBinding;
  spec_sampling : SamplingPlan;
}.

Record CapabilityBindingPin := MkBindingPin {
  bp_capability_id : CapabilityId; bp_provider : ProviderPin }.
#[export] Instance CapabilityBindingPin_eq_dec : EqDecision CapabilityBindingPin.
Proof. solve_decision. Defined.

Record FrozenEvaluationContract := MkContract {
  contract_id : ContractId;
  contract_measurement : MeasurementBinding;
  contract_primary : list ComparisonBinding;
  contract_regression_guards : list ComparisonBinding;
  contract_workload_invariants : list ComparisonBinding;
  contract_sampling : SamplingPlan;
  contract_generation : Z;
  capability_pins : list CapabilityBindingPin;
  contract_digest : Digest;
}.
#[export] Instance FrozenEvaluationContract_eq_dec : EqDecision FrozenEvaluationContract.
Proof. solve_decision. Defined.

(** The tuple [from_parts] digests. *)
Definition ContractPayload : Type :=
  ContractId * MeasurementBinding * list ComparisonBinding * list ComparisonBinding
  * list ComparisonBinding * SamplingPlan * Z * list CapabilityBindingPin.

Context `{!Serialize ContractPayload, !Sha256}.

Definition contract_payload (c : FrozenEvaluationContract) : ContractPayload :=
  (contract_id c, contract_measurement c, contract_primary c, contract_regression_guards c,
   contract_workload_invariants c, contract_sampling c, contract_generation c,
   capability_pins c).

(** The comparisons in the order the code chains them. *)
Definition contract_bindings (c : FrozenEvaluationContract) : list ComparisonBinding :=
  contract_primary c ++ contract_regression_guards c ++ contract_workload_invariants c.

(** [capability_pins.windows(2).any(|pair| pair[0].capability_id == pair[1].capability_id)]. *)
Fixpoint adjacent_pins (pins : list CapabilityBindingPin) : bool :=
  match pins with
  | p :: (q :: _) as rest =>
    bool_decide (bp_capability_id p = bp_capability_id q) || adjacent_pins rest
  | _ => false
  end.

Definition referenced_capabilities (measurement : MeasurementBinding)
    (bindings : list ComparisonBinding) : gset CapabilityId :=
  list_to_set (mb_capability_id measurement :: (cb_capability_id <$> bindings)).

Definition from_parts (id : ContractId) (measurement : MeasurementBinding)
    (primary regression_guards workload_invariants : list ComparisonBinding)
    (sampling : SamplingPlan) (generation : Z) (pins : list CapabilityBindingPin)
    : result EvaluationError FrozenEvaluationContract :=
  _ ← reject (bool_decide (primary = [])
              || bool_decide (MAX_PRIMARY_COMPARISONS < length primary)%nat)
        (invalid_contract ("evaluation contract requires between 1 and "
          +:+ show (Z.of_nat MAX_PRIMARY_COMPARISONS) +:+ " primary comparisons"));
  _ ← reject (bool_decide (MAX_REGRESSION_GUARDS < length regression_guards)%nat)
        (invalid_contract ("evaluation contract allows at most "
          +:+ show (Z.of_nat MAX_REGRESSION_GUARDS) +:+ " regression guards"));
  _ ← reject (bool_decide (MAX_WORKLOAD_INVARIANTS < length workload_invariants)%nat)
        (invalid_contract ("evaluation contract allows at most "
          +:+ show (Z.of_nat MAX_WORKLOAD_INVARIANTS) +:+ " workload invariants"));
  _ ← map_err invalid_contract (SamplingPlan_validate sampling);
  _ ← fold_result (λ _ binding, reject (negb (is_object (cb_specification binding)))
        (invalid_contract ("comparison '" +:+ as_str (cb_capability_id binding)
          +:+ "' specification must be an object")))
        tt (primary ++ regression_guards ++ workload_invariants);
  _ ← reject (negb (is_object (mb_specification measurement)))
        (invalid_contract "measurement specification must be an object");
  let pins := sort_by (λ p q, id_le (bp_capability_id p) (bp_capability_id q)) pins in
  _ ← reject (adjacent_pins pins)
        (invalid_contract "evaluation contract contains duplicate capability pins");
  let referenced :=
    referenced_capabilities measurement (primary ++ regression_guards ++ workload_invariants) in
  let pinned : gset CapabilityId := list_to_set (bp_capability_id <$> pins) in
  _ ← reject (bool_decide (referenced ≠ pinned))
        (invalid_contract
          "evaluation contract capability pins do not match referenced capabilities");
  digest ← map_err invalid_contract
    (content_digest (A := ContractPayload)
      (id, measurement, primary, regression_guards, workload_invariants, sampling, generation,
       pins));
  Ok (MkContract id measurement primary regression_guards workload_invariants sampling
        generation pins digest).

(** [Deserialize]: the decoded fields are rebuilt and the stored digest compared. *)
Definition FrozenEvaluationContract_try_from (unchecked : FrozenEvaluationContract)
    : result string FrozenEvaluationContract :=
  contract ← map_err evaluation_error_message
    (from_parts (contract_id unchecked) (contract_measurement unchecked)
      (contract_primary unchecked) (contract_regression_guards unchecked)
      (contract_workload_invariants unchecked) (contract_sampling unchecked)
      (contract_generation unchecked) (capability_pins unchecked));
  _ ← reject (bool_decide (contract_digest contract ≠ contract_digest unchecked))
        "evaluation contract digest does not match frozen contents";
  Ok contract.

(** ** Freezing a contract ([freezer.rs]) *)

Section Freezer.
Context {W : Type} (snapshot : CapabilitySnapshot W).

Definition missing (kind : string) (id : CapabilityId) : EvaluationError :=
  MkEvaluationError Ek_MissingCapability
    (kind +:+ " capability '" +:+ as_str id +:+ "' is unavailable").

Definition ensure_agent_selectable_measurement (meta : CapabilityMeta)
    : result EvaluationError unit :=
  if is_agent_selectable meta then Ok tt
  else Err (invalid_contract ("measurement '" +:+ as_str (meta_id meta)
              +:+ "' is reserved for runtime system guardrails")).

Definition ensure_commit_pending (meta : CapabilityMeta) : result EvaluationError unit :=
  if is_allowed_in meta CommitPending then Ok tt
  else Err (invalid_contract ("evaluation capability '" +:+ as_str (meta_id meta)
              +:+ "' is not allowed in commit_pending")).

(** The loop body: [ids] is [capability_ids]. *)
Definition freeze_binding (ids : gset CapabilityId) (binding : ComparisonBinding)
    : result EvaluationError (gset CapabilityId) :=
  policy ← ok_or (missing "comparison" (cb_capability_id binding))
             (snapshot_comparison snapshot (cb_capability_id binding));
  _ ← ensure_commit_pending (comparison_meta policy);
  _ ← map_err (λ error, invalid_contract ("comparison '" +:+ as_str (cb_capability_id binding)
                  +:+ "' rejected its specification: " +:+ ProviderError_display error))
        (validate_comparison_specification policy (cb_specification binding));
  Ok ({[cb_capability_id binding]} ∪ ids).

(** A pin of a referenced capability; a typed provider without metadata panics. *)
Definition pin_of (id : CapabilityId) : outcome EvaluationError CapabilityBindingPin :=
  match snapshot_meta snapshot id with
  | Some meta => Ret (MkBindingPin id (provider meta))
  | None => Panic
  end.

Definition freeze (id : ContractId) (spec : EvaluationContractSpec)
    : outcome EvaluationError FrozenEvaluationContract :=
  let binding := spec_measurement spec in
  measurement ← of_result (ok_or (missing "measurement" (mb_capability_id binding))
                  (snapshot_measurement snapshot (mb_capability_id binding)));
  _ ← of_result (ensure_agent_selectable_measurement (measurement_meta measurement));
  _ ← of_result (ensure_commit_pending (measurement_meta measurement));
  _ ← of_result (map_err (λ error,
        invalid_contract ("measurement '" +:+ as_str (mb_capability_id binding)
          +:+ "' rejected its specification: " +:+ ProviderError_display error))
        (validate_measurement_specification measurement (mb_specification binding)));
  ids ← of_result (fold_result freeze_binding {[mb_capability_id binding]}
          (spec_primary spec ++ spec_regression_guards spec ++ spec_workload_invariants spec));
  pins ← fold_outcome (λ pins id, pin ← pin_of id; mret (pins ++ [pin])) [] (ids_in_order ids);
  of_result (from_parts id binding (spec_primary spec) (spec_regression_guards spec)
    (spec_workload_invariants spec) (spec_sampling spec) (snap_generation snapshot) pins).
End Freezer.

(** ** What a valid contract is *)

Definition pins_sorted (pins : list CapabilityBindingPin) : Prop :=
  Sorted (λ p q, id_le (bp_capability_id p) (bp_capability_id q) = true) pins.

Record contract_valid (c : FrozenEvaluationContract) : Prop := {
  valid_primary : 1 <= Z.of_nat (length (contract_primary c)) <= 32;
  valid_guards : Z.of_nat (length (contract_regression_guards c)) <= 32;
  valid_invariants : Z.of_nat (length (contract_workload_invariants c)) <= 32;
  valid_sampling : SamplingPlan_validate (contract_sampling c) = Ok tt;
  valid_bindings : Forall (λ b, is_object (cb_specification b) = true) (contract_bindings c);
  valid_measurement : is_object (mb_specification (contract_measurement c)) = true;
  valid_sorted : pins_sorted (capability_pins c);
  valid_distinct : adjacent_pins (capability_pins c) = false;
  valid_pins : referenced_capabilities (contract_measurement c) (contract_bindings c)
    = list_to_set (bp_capability_id <$> capability_pins c);
  valid_digest : content_digest (contract_payload c) = Ok (contract_digest c);
}.

Lemma contract_samples c : contract_valid c → sample_count (contract_sampling c) ≠ 0.
Proof.
  intros [_ _ _ Hv _ _ _ _ _ _]. unfold SamplingPlan_validate in Hv.
  apply reject_bind_Ok in Hv as [Hv _]. apply reject_Ok, orb_false_iff in Hv as [Hv _].
  by apply Z.eqb_neq.
Qed.

Lemma pins_sort_sorted pins :
  pins_sorted (sort_by (λ p q, id_le (bp_capability_id p) (bp_capability_id q)) pins).
Proof. apply sort_by_Sorted. intros p q. apply id_le_total. Qed.

Lemma from_parts_Ok id m primary guards invariants sampling gen pins c :
  from_parts id m primary guards invariants sampling gen pins = Ok c ↔
  contract_valid c
  ∧ contract_id c = id ∧ contract_measurement c = m ∧ contract_primary c = primary
  ∧ contract_regression_guards c = guards ∧ contract_workload_invariants c = invariants
  ∧ contract_sampling c = sampling ∧ contract_generation c = gen
  ∧ capability_pins c = sort_by (λ p q, id_le (bp_capability_id p) (bp_capability_id q)) pins.
Proof.
  unfold from_parts. pose proof (pins_sort_sorted pins) as Hs.
  set (sorted := sort_by _ pins) in *.
  rewrite !reject_bind_Ok, !reject_Ok, map_err_Ok, fold_reject_Ok, orb_false_iff.
  rewrite !bool_decide_eq_false, negb_false_iff, result_bind_Ok.
  assert (MAX_PRIMARY_COMPARISONS = 32%nat ∧ MAX_REGRESSION_GUARDS = 32%nat
          ∧ MAX_WORKLOAD_INVARIANTS = 32%nat) as (-> & -> & ->) by done.
  split.
  - intros ([Hne Hp] & Hg & Hi & Hsam & Hb & Hm & Ha & Hr & d & Hd%map_err_Ok & [= <-]).
    split; [|done]. apply dec_stable in Hr.
    split; simpl; try done; try lia.
    + destruct primary; [done|]. simpl in *. lia.
    + eapply Forall_impl; [done|]. intros b. by rewrite negb_false_iff.
  - intros ([Hp Hg Hi Hsam Hb Hm _ Ha Hr Hd] & <- & <- & <- & <- & <- & <- & <- & Hpins).
    unfold contract_bindings in *. fold sorted in Hpins. rewrite Hpins in *.
    split_and!; try done; try lia.
    + intros Hnil. rewrite Hnil in Hp. simpl in Hp. lia.
    + eapply Forall_impl; [done|]. intros b. by rewrite negb_false_iff.
    + intros Hne. by apply Hne.
    + exists (contract_digest c). split; [|by destruct c; simpl in *; subst].
      apply map_err_Ok. rewrite <- Hd. unfold contract_payload. by rewrite Hpins.
Qed.

Lemma contract_valid_rebuilds c :
  contract_valid c →
  from_parts (contract_id c) (contract_measurement c) (contract_primary c)
    (contract_regression_guards c) (contract_workload_invariants c) (contract_sampling c)
    (contract_generation c) (capability_pins c) = Ok c.
Proof.
  intros Hc. apply from_parts_Ok. split; [done|]. split_and!; try done.
  symmetry. apply sort_by_id, Hc.
Qed.

Lemma adjacent_pins_nodup pins :
  pins_sorted pins → adjacent_pins pins = false → NoDup (bp_capability_id <$> pins).
Proof.
  intros Hs Ha. apply Sorted_StronglySorted in Hs; [|intros x y z; apply id_le_trans].
  induction pins as [|p pins IH]; [constructor|]. inversion Hs as [|? ? Hs' Hall]; subst.
  destruct pins as [|q pins]; [repeat constructor; set_solver|].
  simpl in Ha. apply orb_false_iff in Ha as [Hpq%bool_decide_eq_false Ha].
  rewrite fmap_cons. constructor; [|by apply IH]. rewrite list_elem_of_fmap.
  intros (r & Hr & Hin). rewrite Forall_cons in Hall. destruct Hall as [Hle Hall].
  apply elem_of_cons in Hin as [->|Hin]; [done|].
  inversion Hs' as [|? ? _ Hq]; subst. rewrite Forall_forall in Hq. specialize (Hq r Hin).
  simpl in Hq. rewrite <- Hr in Hq. apply Hpq. by apply id_le_antisymm.
Qed.

(** ** Freezing against a consistent snapshot *)

Section FreezerSpec.
Context {W : Type} (snapshot : CapabilitySnapshot W).

Definition fold_pins : list CapabilityBindingPin → list CapabilityId
    → outcome EvaluationError (list CapabilityBindingPin) :=
  fold_outcome (λ pins id, pin ← pin_of snapshot id; mret (pins ++ [pin])).

Lemma fold_pins_Ret ids acc :
  (∀ id, id ∈ ids → is_Some (snapshot_meta snapshot id)) →
  ∃ pins, fold_pins acc ids = Ret (acc ++ pins) ∧ bp_capability_id <$> pins = ids
    ∧ ∀ pin, pin ∈ pins → ∃ meta,
        snapshot_meta snapshot (bp_capability_id pin) = Some meta ∧ bp_provider pin = provider meta.
Proof.
  revert acc. induction ids as [|id ids IH]; intros acc Hall.
  - exists []. rewrite app_nil_r. split_and!; [done|done|set_solver].
  - destruct (Hall id) as [meta Hmeta]; [set_solver|].
    destruct (IH (acc ++ [MkBindingPin id (provider meta)])) as (pins & Hf & Hids & Hp);
      [set_solver|].
    exists (MkBindingPin id (provider meta) :: pins). split_and!.
    + rewrite <- (app_assoc acc [_]) in Hf. simpl in Hf. rewrite <- Hf.
      unfold fold_pins. cbn [fold_outcome]. unfold pin_of at 1. by rewrite Hmeta.
    + rewrite fmap_cons, Hids. done.
    + intros pin [->|Hin]%elem_of_cons; [by exists meta|by apply Hp].
Qed.

Definition binding_frozen (b : ComparisonBinding) : Prop :=
  ∃ policy, snapshot_comparison snapshot (cb_capability_id b) = Some policy
    ∧ is_allowed_in (comparison_meta policy) CommitPending = true
    ∧ validate_comparison_specification policy (cb_specification b) = Ok tt.

Lemma freeze_bindings_Ok bindings ids ids' :
  fold_result (freeze_binding snapshot) ids bindings = Ok ids' →
  ids' = list_to_set (cb_capability_id <$> bindings) ∪ ids ∧ Forall binding_frozen bindings.
Proof.
  revert ids. induction bindings as [|b bindings IH]; intros ids; simpl.
  - intros [= <-]. split; [set_solver|constructor].
  - destruct (freeze_binding snapshot ids b) as [ids1|] eqn:Hb; [|done]. intros Hf.
    apply IH in Hf as [-> Hall]. unfold freeze_binding in Hb.
    apply ok_or_bind_Ok in Hb as (policy & Hp & Hb).
    apply reject_bind_Ok in Hb as [Hc Hb]. apply reject_bind_Ok in Hb as [Hv [= <-]].
    split; [set_solver|]. constructor; [|done]. exists policy. split; [done|].
    unfold ensure_commit_pending in Hc. destruct (is_allowed_in _ _); [|done].
    split; [done|]. by apply map_err_Ok in Hv.
Qed.

Definition measurement_frozen (b : MeasurementBinding) : Prop :=
  ∃ provider, snapshot_measurement snapshot (mb_capability_id b) = Some provider
    ∧ is_agent_selectable (measurement_meta provider) = true
    ∧ is_allowed_in (measurement_meta provider) CommitPending = true
    ∧ validate_measurement_specification provider (mb_specification b) = Ok tt.

(** What freezing establishes about a contract and the snapshot it was frozen
    with. *)
Record frozen_with (c : FrozenEvaluationContract) : Prop := {
  frozen_valid : contract_valid c;
  frozen_generation : contract_generation c = snap_generation snapshot;
  frozen_pins pin : pin ∈ capability_pins c → ∃ meta,
    snapshot_meta snapshot (bp_capability_id pin) = Some meta ∧ bp_provider pin = provider meta;
  frozen_measurement : measurement_frozen (contract_measurement c);
  frozen_bindings : Forall binding_frozen (contract_bindings c);
}.

Lemma frozen_id_known (b : MeasurementBinding) bindings id :
  SnapshotSpec snapshot → measurement_frozen b → Forall binding_frozen bindings →
  id ∈ referenced_capabilities b bindings → is_Some (snapshot_meta snapshot id).
Proof.
  intros Hs (q & Hq & _) Hall. unfold referenced_capabilities.
  rewrite elem_of_list_to_set, elem_of_cons, list_elem_of_fmap.
  intros [->|(x & -> & Hx)].
  - destruct (spec_measurements _ Hs _ _ Hq) as [Hm _]. by eexists.
  - rewrite Forall_forall in Hall. destruct (Hall x Hx) as (policy & Hp & _).
    destruct (spec_comparisons _ Hs _ _ Hp) as [Hm _]. by eexists.
Qed.

Lemma freeze_spec id spec :
  SnapshotSpec snapshot →
  match freeze snapshot id spec with
  | Ret c => frozen_with c ∧ contract_id c = id ∧ contract_measurement c = spec_measurement spec
      ∧ contract_primary c = spec_primary spec ∧ contract_sampling c = spec_sampling spec
      ∧ contract_regression_guards c = spec_regression_guards spec
      ∧ contract_workload_invariants c = spec_workload_invariants spec
  | Throw _ => True
  | Panic => False
  end.
Proof.
  intros Hs. unfold freeze.
  destruct (snapshot_measurement snapshot _) as [q|] eqn:Hq; [|exact I]. simpl.
  unfold ensure_agent_selectable_measurement.
  destruct (is_agent_selectable _) eqn:Hsel; [|exact I]. simpl.
  unfold ensure_commit_pending. destruct (is_allowed_in (measurement_meta q) _) eqn:Hph; [|exact I].
  simpl. destruct (validate_measurement_specification q _) as [[]|] eqn:Hv; [|exact I]. simpl.
  destruct (fold_result _ _ _) as [ids|] eqn:Hf; [|exact I]. simpl.
  apply freeze_bindings_Ok in Hf as [-> Hall].
  assert (measurement_frozen (spec_measurement spec)) as Hmf by (by exists q).
  set (bindings := spec_primary spec ++ _) in *.
  replace (list_to_set (cb_capability_id <$> bindings) ∪ {[mb_capability_id (spec_measurement spec)]})
    with (referenced_capabilities (spec_measurement spec) bindings)
    by (unfold referenced_capabilities; rewrite list_to_set_cons; set_solver).
  destruct (fold_pins_Ret (ids_in_order (referenced_capabilities (spec_measurement spec) bindings)) [])
    as (pins & Hp & Hids & Hpins).
  { intros i Hi. apply (elem_of_ids_in_order (n := N_Capability)) in Hi. by eapply frozen_id_known. }
  unfold fold_pins in Hp. rewrite Hp. simpl.
  destruct (from_parts _ _ _ _ _ _ _ _) as [c|] eqn:Hc; [|exact I]. simpl.
  apply from_parts_Ok in Hc as (Hval & <- & Hm & Hpr & Hg & Hi & <- & Hgen & Hcp).
  split_and!; try done. split; try done.
  - intros pin Hin. apply Hpins. rewrite Hcp in Hin. by rewrite sort_by_perm in Hin.
  - by rewrite Hm.
  - unfold contract_bindings. by rewrite Hpr, Hg, Hi.
Qed.

(** On a snapshot of a registry, freezing never panics, and a frozen contract
    is the requested one, within its bounds, sealed by the digest of its content,
    with one pin per referenced capability at the provider the snapshot holds. *)
Theorem frozen_contract_pins_the_snapshot id spec :
  SnapshotSpec snapshot →
  freeze snapshot id spec ≠ Panic
  ∧ ∀ c, freeze snapshot id spec = Ret c →
      frozen_with c ∧ contract_id c = id ∧ contract_measurement c = spec_measurement spec
      ∧ contract_bindings c
        = spec_primary spec ++ spec_regression_guards spec ++ spec_workload_invariants spec
      ∧ NoDup (bp_capability_id <$> capability_pins c).
Proof.
  intros Hs. pose proof (freeze_spec id spec Hs) as Hf. split; [by intros E; rewrite E in Hf|].
  intros c Hc. rewrite Hc in Hf. destruct Hf as (Hfr & ? & ? & Hp & _ & Hg & Hi).
  split_and!; [done..| |].
  - unfold contract_bindings. by rewrite Hp, Hg, Hi.
  - destruct Hfr as [[] _ _ _ _]. by apply adjacent_pins_nodup.
Qed.
End FreezerSpec.
End Contract.
