(* ===== verification/Intent.v ===== *)
(** * Evaluation intents ([tuning_agent/src/kernel/evaluation/intent.rs])

    The objective statement with its normalisation, and the frozen intent: an
    episode, an objective and a contract under one digest. *)

From S2P Require Export Words Contract.

Open Scope nat_scope.

(** ** The objective statement *)

Definition MAX_OBJECTIVE_STATEMENT_BYTES : nat := Z.to_nat 4096.

Record ObjectiveStatement := MkObjective { objective_str : string }.
#[export] Instance ObjectiveStatement_eq_dec : EqDecision ObjectiveStatement.
Proof. solve_decision. Defined.

(** [ObjectiveStatement::new], also used by [Deserialize] and [TryFrom]. *)
Definition ObjectiveStatement_new (value : string) : result string ObjectiveStatement :=
  let normalized := String.concat " " (split_whitespace value) in
  _ ← reject (bool_decide (normalized = "")) "objective statement must not be empty";
  _ ← reject (bool_decide (MAX_OBJECTIVE_STATEMENT_BYTES < String.length normalized))
        ("objective statement must not exceed "
         +:+ show (Z.of_nat MAX_OBJECTIVE_STATEMENT_BYTES) +:+ " bytes");
  _ ← reject (existsb is_control (chars normalized))
        "objective statement must not contain control characters";
  Ok (MkObjective normalized).

(** A normalised objective is accepted and kept as it is when it is read
    back; it is not empty, at most 4096 bytes long, free of control characters
    and its words are separated by single spaces. *)
Theorem objective_normalization_is_stable s o :
  is_utf8 s = true → ObjectiveStatement_new s = Ok o →
  ObjectiveStatement_new (objective_str o) = Ok o
  ∧ objective_str o ≠ "" ∧ (Z.of_nat (String.length (objective_str o)) <= 4096)%Z
  ∧ Forall (λ c, is_control c = false) (chars (objective_str o))
  ∧ objective_str o = String.concat " " (split_whitespace s).
Proof.
  intros Hs%split_whitespace_words Ho. pose proof Ho as Ho'. unfold ObjectiveStatement_new in Ho.
  apply reject_bind_Ok in Ho as [He%reject_Ok%bool_decide_eq_false Ho].
  apply reject_bind_Ok in Ho as [Hl%reject_Ok%bool_decide_eq_false Ho].
  apply reject_bind_Ok in Ho as [Hc%reject_Ok [= <-]]. simpl.
  split_and!; [|done| | |done].
  - unfold ObjectiveStatement_new in *. by rewrite split_whitespace_join.
  - unfold MAX_OBJECTIVE_STATEMENT_BYTES in Hl. lia.
  - apply Forall_forall. intros c Hin. apply not_true_iff_false. intros Hcc.
    apply not_true_iff_false in Hc. apply Hc, existsb_exists. exists c.
    by rewrite <- list_elem_of_In.
Qed.

(** ** Frozen intents *)

Definition EVALUATION_INTENT_DIGEST_DOMAIN_V1 : string := "tuning-agent/evaluation-intent/v1".

Section Intent.
Context `{JD : JsonData}.

Record EvaluationIntentSpec := MkIntentSpec {
  spec_objective : ObjectiveStatement; spec_contract : EvaluationContractSpec }.

Record FrozenEvaluationIntent := MkIntent {
  intent_pin_of : EvaluationIntentPin;
  intent_objective : ObjectiveStatement;
  intent_contract : FrozenEvaluationContract;
}.
#[export] Instance FrozenEvaluationIntent_eq_dec : EqDecision FrozenEvaluationIntent.
Proof. solve_decision. Defined.

Record IntentDigestPayload := MkIntentPayload {
  ip_domain : string;
  ip_episode_id : EpisodeId;
  ip_objective : ObjectiveStatement;
  ip_contract_digest : Digest;
}.

Definition intent_episode_id (i : FrozenEvaluationIntent) : EpisodeId :=
  pin_episode_id (intent_pin_of i).

Context `{!Serialize ContractPayload, !Serialize IntentDigestPayload, !Sha256}.

Definition FrozenEvaluationIntent_from_parts (episode_id : EpisodeId)
    (objective : ObjectiveStatement) (contract : FrozenEvaluationContract)
    : result EvaluationError FrozenEvaluationIntent :=
  intent_digest ← map_err invalid_contract
    (content_digest (MkIntentPayload EVALUATION_INTENT_DIGEST_DOMAIN_V1 episode_id objective
      (contract_digest contract)));
  let pin := MkEvaluationIntentPin episode_id intent_digest (contract_digest contract) in
  Ok (MkIntent pin objective contract).

(** [TryFrom<UncheckedFrozenEvaluationIntent>], behind [Deserialize]: the contract
    was itself rebuilt when it was decoded. *)
Definition FrozenEvaluationIntent_try_from (unchecked : FrozenEvaluationIntent)
    : result string FrozenEvaluationIntent :=
  contract ← FrozenEvaluationContract_try_from (intent_contract unchecked);
  let expected_pin := intent_pin_of unchecked in
  intent ← map_err evaluation_error_message
    (FrozenEvaluationIntent_from_parts (pin_episode_id expected_pin)
      (intent_objective unchecked) contract);
  _ ← reject (bool_decide (intent_pin_of intent ≠ expected_pin))
        "evaluation intent pin does not match frozen contents";
  Ok intent.

(** ** Stored contracts and intents *)

Record intent_valid (i : FrozenEvaluationIntent) : Prop := {
  intent_contract_valid : contract_valid (intent_contract i);
  intent_pin_contract :
    pin_contract_digest (intent_pin_of i) = contract_digest (intent_contract i);
  intent_pin_digest :
    content_digest (MkIntentPayload EVALUATION_INTENT_DIGEST_DOMAIN_V1 (intent_episode_id i)
      (intent_objective i) (contract_digest (intent_contract i)))
    = Ok (pin_intent_digest (intent_pin_of i));
}.

Lemma intent_from_parts_Ok e o c i :
  FrozenEvaluationIntent_from_parts e o c = Ok i ↔
  intent_episode_id i = e ∧ intent_objective i = o ∧ intent_contract i = c
  ∧ pin_contract_digest (intent_pin_of i) = contract_digest c
  ∧ content_digest (MkIntentPayload EVALUATION_INTENT_DIGEST_DOMAIN_V1 e o (contract_digest c))
    = Ok (pin_intent_digest (intent_pin_of i)).
Proof.
  unfold FrozenEvaluationIntent_from_parts. rewrite result_bind_Ok. split.
  - intros (d & Hd%map_err_Ok & [= <-]). done.
  - destruct i as [[e' d cd] o' c']. simpl. intros (<- & <- & <- & -> & Hd).
    exists d. split; [by apply map_err_Ok|done].
Qed.

Lemma contract_try_from_Ok u c :
  FrozenEvaluationContract_try_from u = Ok c ↔
  contract_valid c ∧ contract_id c = contract_id u
  ∧ contract_measurement c = contract_measurement u ∧ contract_primary c = contract_primary u
  ∧ contract_regression_guards c = contract_regression_guards u
  ∧ contract_workload_invariants c = contract_workload_invariants u
  ∧ contract_sampling c = contract_sampling u ∧ contract_generation c = contract_generation u
  ∧ capability_pins c
    = sort_by (λ p q, id_le (bp_capability_id p) (bp_capability_id q)) (capability_pins u)
  ∧ contract_digest c = contract_digest u.
Proof.
  unfold FrozenEvaluationContract_try_from. rewrite result_bind_Ok.
  setoid_rewrite map_err_Ok. setoid_rewrite from_parts_Ok. setoid_rewrite reject_bind_Ok.
  setoid_rewrite reject_Ok. setoid_rewrite bool_decide_eq_false. split.
  - intros (c' & (? & ? & ? & ? & ? & ? & ? & ? & ?) & Hd%dec_stable & [= <-]). done.
  - intros (? & ? & ? & ? & ? & ? & ? & ? & ? & ?). exists c. split; [done|]. split; [|done].
    by intros Hne.
Qed.

(** Storage round trip: an intent built by [from_parts] on a valid contract
    is read back unchanged; whatever stored intent is accepted is valid (both
    digests are recomputed from its contents) and is the stored one up to the
    order of its capability pins. *)
Theorem stored_intents_are_authentic u i :
  (FrozenEvaluationIntent_try_from u = Ok i →
    intent_valid i ∧ intent_pin_of i = intent_pin_of u ∧ intent_objective i = intent_objective u
    ∧ contract_digest (intent_contract i) = contract_digest (intent_contract u)
    ∧ contract_bindings (intent_contract i) = contract_bindings (intent_contract u)
    ∧ capability_pins (intent_contract i) ≡ₚ capability_pins (intent_contract u))
  ∧ (intent_valid i → FrozenEvaluationIntent_try_from i = Ok i).
Proof.
  unfold FrozenEvaluationIntent_try_from. split.
  - rewrite result_bind_Ok. intros (c & Hc%contract_try_from_Ok & Hi).
    apply result_bind_Ok in Hi as (i' & Hi'%map_err_Ok%intent_from_parts_Ok & Hi).
    apply reject_bind_Ok in Hi as [Hpin%reject_Ok%bool_decide_eq_false%dec_stable [= ->]].
    destruct Hi' as (He & Ho & <- & Hcd & Hd).
    destruct Hc as (Hv & _ & _ & Hp & Hg & Hw & _ & _ & Hpins & Hdig).
    split_and!; try done.
    + split; [done|done|]. by rewrite He, Ho.
    + unfold contract_bindings. by rewrite Hp, Hg, Hw.
    + rewrite Hpins. apply sort_by_perm.
  - intros [Hv Hpc Hpd].
    assert (FrozenEvaluationContract_try_from (intent_contract i) = Ok (intent_contract i)) as ->.
    { apply contract_try_from_Ok. split_and!; try done. symmetry. apply sort_by_id, Hv. }
    simpl. assert (FrozenEvaluationIntent_from_parts (pin_episode_id (intent_pin_of i))
      (intent_objective i) (intent_contract i) = Ok i) as ->.
    { by apply intent_from_parts_Ok. }
    simpl. by rewrite bool_decide_neq_refl.
Qed.
End Intent.
