(* ===== verification/Episode.v ===== *)
(** * The episode state machine
      ([tuning_agent/src/runtime/episode/{permissions,state_machine}.rs])

    Phases, lifecycle and commit steps of one episode, the transitions with their
    guards, and which agent actions they admit.  A transition is a computation on
    the machine, so that what a refused transition leaves behind is visible. *)

From S2P Require Export Intent.

Open Scope nat_scope.

(** ** Permissions ([permissions.rs]) *)

Inductive AgentAction :=
  | Action_Probe | Action_BeginExperiment | Action_Mutation | Action_RequestCommit | Action_Abort.
#[export] Instance AgentAction_eq_dec : EqDecision AgentAction.
Proof. solve_decision. Defined.

Definition action_is_allowed_in (action : AgentAction) (phase : EpisodePhase)
    (episode_active has_frozen_intent : bool) : bool :=
  if negb episode_active then false else
  match phase with
  | Clean =>
    match action with
    | Action_Probe => true
    | Action_BeginExperiment => negb has_frozen_intent
    | Action_Mutation => has_frozen_intent
    | Action_Abort => true
    | Action_RequestCommit => false
    end
  | Experimenting =>
    match action with
    | Action_Probe | Action_Mutation | Action_RequestCommit | Action_Abort => true
    | Action_BeginExperiment => false
    end
  | CommitPending | RollingBack | RecoveryRequired | Committed => false
  end.

(** ** State ([state_machine.rs]) *)

Inductive CommitStep :=
  | InputsFrozen | RestoringBaseline | MeasuringBaseline | ReplayingCandidate
  | MeasuringCandidate | Comparing | Finalizing.
#[export] Instance CommitStep_eq_dec : EqDecision CommitStep.
Proof. solve_decision. Defined.

Inductive EpisodeLifecycle := Active | Finishing | Finished.
#[export] Instance EpisodeLifecycle_eq_dec : EqDecision EpisodeLifecycle.
Proof. solve_decision. Defined.

(** The derived [Debug] renderings that appear in messages. *)
Definition AgentAction_debug (a : AgentAction) : string :=
  match a with
  | Action_Probe => "Probe" | Action_BeginExperiment => "BeginExperiment"
  | Action_Mutation => "Mutation" | Action_RequestCommit => "RequestCommit"
  | Action_Abort => "Abort"
  end.
Definition EpisodePhase_debug (p : EpisodePhase) : string :=
  match p with
  | Clean => "Clean" | Experimenting => "Experimenting" | CommitPending => "CommitPending"
  | RollingBack => "RollingBack" | RecoveryRequired => "RecoveryRequired"
  | Committed => "Committed"
  end.
Definition EpisodeLifecycle_debug (l : EpisodeLifecycle) : string :=
  match l with Active => "Active" | Finishing => "Finishing" | Finished => "Finished" end.
Definition CommitStep_debug (s : CommitStep) : string :=
  match s with
  | InputsFrozen => "InputsFrozen" | RestoringBaseline => "RestoringBaseline"
  | MeasuringBaseline => "MeasuringBaseline" | ReplayingCandidate => "ReplayingCandidate"
  | MeasuringCandidate => "MeasuringCandidate" | Comparing => "Comparing"
  | Finalizing => "Finalizing"
  end.

Definition commit_step_index (s : CommitStep) : nat :=
  match s with
  | InputsFrozen => 0 | RestoringBaseline => 1 | MeasuringBaseline => 2
  | ReplayingCandidate => 3 | MeasuringCandidate => 4 | Comparing => 5 | Finalizing => 6
  end.

Record TransitionError := MkTransitionError { transition_error_message : string }.

Section Episode.
Context `{JD : JsonData}.

Record EpisodeStateMachine := MkEpisode {
  es_episode_id : EpisodeId;
  es_phase : EpisodePhase;
  es_lifecycle : EpisodeLifecycle;
  es_intent : option FrozenEvaluationIntent;
  es_transaction_id : option TransactionId;
  es_candidate_digest : option Digest;
  es_commit_step : option CommitStep;
}.

Definition EpisodeStateMachine_new (episode_id : EpisodeId) : EpisodeStateMachine :=
  MkEpisode episode_id Clean Active None None None None.

Definition set_phase (p : EpisodePhase) (m : EpisodeStateMachine) : EpisodeStateMachine :=
  MkEpisode (es_episode_id m) p (es_lifecycle m) (es_intent m) (es_transaction_id m)
    (es_candidate_digest m) (es_commit_step m).
Definition set_lifecycle (l : EpisodeLifecycle) (m : EpisodeStateMachine) : EpisodeStateMachine :=
  MkEpisode (es_episode_id m) (es_phase m) l (es_intent m) (es_transaction_id m)
    (es_candidate_digest m) (es_commit_step m).
Definition set_intent (i : option FrozenEvaluationIntent) (m : EpisodeStateMachine)
    : EpisodeStateMachine :=
  MkEpisode (es_episode_id m) (es_phase m) (es_lifecycle m) i (es_transaction_id m)
    (es_candidate_digest m) (es_commit_step m).
Definition set_transaction_id (t : option TransactionId) (m : EpisodeStateMachine)
    : EpisodeStateMachine :=
  MkEpisode (es_episode_id m) (es_phase m) (es_lifecycle m) (es_intent m) t
    (es_candidate_digest m) (es_commit_step m).
Definition set_candidate_digest (d : option Digest) (m : EpisodeStateMachine)
    : EpisodeStateMachine :=
  MkEpisode (es_episode_id m) (es_phase m) (es_lifecycle m) (es_intent m) (es_transaction_id m)
    d (es_commit_step m).
Definition set_commit_step (s : option CommitStep) (m : EpisodeStateMachine)
    : EpisodeStateMachine :=
  MkEpisode (es_episode_id m) (es_phase m) (es_lifecycle m) (es_intent m) (es_transaction_id m)
    (es_candidate_digest m) s.

Definition is_reasoning_stopped (m : EpisodeStateMachine) : bool :=
  bool_decide (es_lifecycle m ≠ Active).

(** ** Transitions *)

Abbreviation EM := (M EpisodeStateMachine TransitionError).

(** [if condition { return Err(TransitionError::new(message)) }]. *)
Definition refuse_if (condition : EpisodeStateMachine → bool) (message : string) : EM unit :=
  m ← gets id;
  if condition m then throw (MkTransitionError message) else mret tt.

Definition require_active : EM unit :=
  m ← gets id;
  if bool_decide (es_lifecycle m = Active) then mret tt
  else throw (MkTransitionError
    ("episode is not active; lifecycle=" +:+ EpisodeLifecycle_debug (es_lifecycle m))).

Definition require_phase (expected : EpisodePhase) : EM unit :=
  m ← gets id;
  if bool_decide (es_phase m = expected) then mret tt
  else throw (MkTransitionError ("expected phase " +:+ EpisodePhase_debug expected
    +:+ ", found " +:+ EpisodePhase_debug (es_phase m))).

Definition ensure_agent_action (action : AgentAction) : EM unit :=
  m ← gets id;
  if action_is_allowed_in action (es_phase m) (bool_decide (es_lifecycle m = Active))
       (bool_decide (is_Some (es_intent m)))
  then mret tt
  else throw (MkTransitionError ("agent action " +:+ AgentAction_debug action
    +:+ " is not allowed in phase " +:+ EpisodePhase_debug (es_phase m))).

Definition freeze_intent (intent : FrozenEvaluationIntent) : EM unit :=
  _ ← require_active;
  _ ← require_phase Clean;
  _ ← refuse_if (λ m, bool_decide (is_Some (es_intent m)))
        "evaluation intent is already frozen for this episode";
  _ ← refuse_if (λ m, bool_decide (intent_episode_id intent ≠ es_episode_id m))
        "evaluation intent belongs to a different episode";
  _ ← refuse_if (λ m, bool_decide (is_Some (es_transaction_id m)))
        "cannot freeze evaluation intent after a transaction has started";
  modify (set_intent (Some intent)).

Definition episode_begin_transaction (transaction_id : TransactionId) : EM unit :=
  _ ← require_active;
  _ ← require_phase Clean;
  _ ← refuse_if (λ m, bool_decide (es_intent m = None))
        "evaluation intent must be frozen before a transaction starts";
  _ ← refuse_if (λ m, bool_decide (is_Some (es_transaction_id m)))
        "an episode cannot own more than one open transaction";
  _ ← modify (set_transaction_id (Some transaction_id));
  modify (set_phase Experimenting).

Definition mutation_applied (transaction_id : TransactionId) : EM unit :=
  _ ← require_active;
  _ ← require_phase Experimenting;
  refuse_if (λ m, bool_decide (es_transaction_id m ≠ Some transaction_id))
    "mutation result does not belong to the active transaction".

Definition episode_request_commit (digest : Digest) : EM unit :=
  _ ← require_active;
  _ ← require_phase Experimenting;
  _ ← refuse_if (λ m, bool_decide (es_intent m = None) || bool_decide (es_transaction_id m = None))
        "commit requires a frozen evaluation intent and an active transaction";
  _ ← modify (set_candidate_digest (Some digest));
  _ ← modify (set_commit_step (Some InputsFrozen));
  _ ← modify (set_phase CommitPending);
  modify (set_lifecycle Finishing).

Definition advance_commit (step : CommitStep) : EM unit :=
  _ ← require_phase CommitPending;
  m ← gets id;
  match es_commit_step m with
  | None => throw (MkTransitionError "commit step is missing")
  | Some current =>
    if bool_decide (commit_step_index step ≠ commit_step_index current + 1) then
      throw (MkTransitionError ("invalid commit step transition from "
        +:+ CommitStep_debug current +:+ " to " +:+ CommitStep_debug step))
    else modify (set_commit_step (Some step))
  end.

Definition begin_rollback : EM unit :=
  m ← gets id;
  match es_phase m with
  | Experimenting | CommitPending =>
    _ ← modify (set_phase RollingBack);
    _ ← modify (set_lifecycle Finishing);
    modify (set_commit_step None)
  | other => throw (MkTransitionError
      ("rollback cannot start in phase " +:+ EpisodePhase_debug other))
  end.

Definition rollback_completed : EM unit :=
  _ ← require_phase RollingBack;
  _ ← modify (set_phase Clean);
  _ ← modify (set_lifecycle Finished);
  _ ← modify (set_transaction_id None);
  _ ← modify (set_candidate_digest None);
  modify (set_commit_step None).

Definition commit_completed : EM unit :=
  _ ← require_phase CommitPending;
  _ ← refuse_if (λ m, bool_decide (es_commit_step m ≠ Some Finalizing))
        "commit cannot complete before the finalizing step";
  _ ← modify (set_phase Committed);
  modify (set_lifecycle Finished).

Definition require_recovery : EM unit :=
  _ ← modify (set_phase RecoveryRequired);
  _ ← modify (set_lifecycle Finished);
  modify (set_commit_step None).

Definition stop_reasoning : EM unit :=
  m ← gets id;
  if bool_decide (es_lifecycle m = Active) then modify (set_lifecycle Finishing) else mret tt.

Definition finish_clean : EM unit :=
  _ ← require_phase Clean;
  _ ← refuse_if (λ m, bool_decide (is_Some (es_transaction_id m))
                    || bool_decide (is_Some (es_candidate_digest m))
                    || bool_decide (is_Some (es_commit_step m)))
        "clean episode cannot finish with transaction state";
  modify (set_lifecycle Finished).

(** ** Executions *)

Inductive Transition :=
  | T_FreezeIntent (intent : FrozenEvaluationIntent)
  | T_BeginTransaction (tid : TransactionId)
  | T_MutationApplied (tid : TransactionId)
  | T_RequestCommit (digest : Digest)
  | T_Advance (step : CommitStep)
  | T_BeginRollback
  | T_RollbackCompleted
  | T_CommitCompleted
  | T_RequireRecovery
  | T_StopReasoning
  | T_FinishClean.

Definition transition (t : Transition) : EM unit :=
  match t with
  | T_FreezeIntent i => freeze_intent i
  | T_BeginTransaction id => episode_begin_transaction id
  | T_MutationApplied id => mutation_applied id
  | T_RequestCommit d => episode_request_commit d
  | T_Advance s => advance_commit s
  | T_BeginRollback => begin_rollback
  | T_RollbackCompleted => rollback_completed
  | T_CommitCompleted => commit_completed
  | T_RequireRecovery => require_recovery
  | T_StopReasoning => stop_reasoning
  | T_FinishClean => finish_clean
  end.

(** A run of the machine: the accepted transitions in order.  A refused one is
    not recorded and, as [refused_transitions_change_nothing] says, not felt. *)
Inductive episode_run (m0 : EpisodeStateMachine) : list Transition → EpisodeStateMachine → Prop :=
  | run_nil : episode_run m0 [] m0
  | run_snoc ts m t m' :
      episode_run m0 ts m → transition t m = (Ret tt, m') → episode_run m0 (ts ++ [t]) m'.

(** Readable forms of the guards. *)
Lemma require_active_run m :
  require_active m = (if bool_decide (es_lifecycle m = Active) then (Ret tt, m) else
    (Throw (MkTransitionError ("episode is not active; lifecycle="
       +:+ EpisodeLifecycle_debug (es_lifecycle m))), m)).
Proof. unfold require_active, mbind, M_bind, gets, id. simpl. by destruct (bool_decide _). Qed.

Lemma require_phase_run p m :
  require_phase p m = (if bool_decide (es_phase m = p) then (Ret tt, m) else
    (Throw (MkTransitionError ("expected phase " +:+ EpisodePhase_debug p
       +:+ ", found " +:+ EpisodePhase_debug (es_phase m))), m)).
Proof. unfold require_phase, mbind, M_bind, gets, id. simpl. by destruct (bool_decide _). Qed.

Lemma refuse_if_run c s m :
  refuse_if c s m = (if c m then (Throw (MkTransitionError s), m) else (Ret tt, m)).
Proof. unfold refuse_if, mbind, M_bind, gets, id. by destruct (c m). Qed.

(** ** What each transition accepts and does *)

Definition accepted (t : Transition) (m m' : EpisodeStateMachine) : Prop :=
  match t with
  | T_FreezeIntent i =>
    es_lifecycle m = Active ∧ es_phase m = Clean ∧ es_intent m = None
    ∧ intent_episode_id i = es_episode_id m ∧ es_transaction_id m = None
    ∧ m' = set_intent (Some i) m
  | T_BeginTransaction tid =>
    es_lifecycle m = Active ∧ es_phase m = Clean ∧ es_intent m ≠ None
    ∧ es_transaction_id m = None
    ∧ m' = set_phase Experimenting (set_transaction_id (Some tid) m)
  | T_MutationApplied tid =>
    es_lifecycle m = Active ∧ es_phase m = Experimenting ∧ es_transaction_id m = Some tid ∧ m' = m
  | T_RequestCommit d =>
    es_lifecycle m = Active ∧ es_phase m = Experimenting ∧ es_intent m ≠ None
    ∧ es_transaction_id m ≠ None
    ∧ m' = MkEpisode (es_episode_id m) CommitPending Finishing (es_intent m)
             (es_transaction_id m) (Some d) (Some InputsFrozen)
  | T_Advance s =>
    es_phase m = CommitPending
    ∧ (∃ current, es_commit_step m = Some current
         ∧ commit_step_index s = commit_step_index current + 1)
    ∧ m' = set_commit_step (Some s) m
  | T_BeginRollback =>
    (es_phase m = Experimenting ∨ es_phase m = CommitPending)
    ∧ m' = MkEpisode (es_episode_id m) RollingBack Finishing (es_intent m)
             (es_transaction_id m) (es_candidate_digest m) None
  | T_RollbackCompleted =>
    es_phase m = RollingBack
    ∧ m' = MkEpisode (es_episode_id m) Clean Finished (es_intent m) None None None
  | T_CommitCompleted =>
    es_phase m = CommitPending ∧ es_commit_step m = Some Finalizing
    ∧ m' = set_lifecycle Finished (set_phase Committed m)
  | T_RequireRecovery =>
    m' = MkEpisode (es_episode_id m) RecoveryRequired Finished (es_intent m)
           (es_transaction_id m) (es_candidate_digest m) None
  | T_StopReasoning =>
    m' = if bool_decide (es_lifecycle m = Active) then set_lifecycle Finishing m else m
  | T_FinishClean =>
    es_phase m = Clean ∧ es_transaction_id m = None ∧ es_candidate_digest m = None
    ∧ es_commit_step m = None ∧ m' = set_lifecycle Finished m
  end.

(** Steps through the guards of a transition by their run lemmas. *)
Ltac em_unfold :=
  unfold freeze_intent, episode_begin_transaction, mutation_applied, episode_request_commit,
    advance_commit, begin_rollback, rollback_completed, commit_completed, require_recovery,
    stop_reasoning, finish_clean, ensure_agent_action, mbind, M_bind, gets, modify, throw, mret,
    M_ret, id.
Ltac em_steps :=
  repeat first
    [ rewrite require_active_run | rewrite require_phase_run | rewrite refuse_if_run
    | progress cbn [fst snd] | progress case_bool_decide | progress simpl ].

Lemma transition_Ret t m m' : transition t m = (Ret tt, m') ↔ accepted t m m'.
Proof.
  destruct m as [e p l i t0 d s].
  destruct t; simpl; em_unfold;
    [destruct i, t0|destruct i, t0| |destruct i, t0|destruct s|destruct p| | | | |destruct t0, d, s];
    em_steps; naive_solver.
Qed.

(** ** Histories *)

(** The transitions that move the protocol on. *)
Definition milestone (t : Transition) : bool :=
  match t with T_MutationApplied _ | T_StopReasoning => false | _ => true end.
Definition milestones (ts : list Transition) : list Transition :=
  base.filter (λ t, milestone t = true) ts.

Definition commit_steps : list CommitStep :=
  [RestoringBaseline; MeasuringBaseline; ReplayingCandidate; MeasuringCandidate; Comparing;
   Finalizing].

(** The one way to the [k]-th commit step. *)
Definition commit_prefix (i : FrozenEvaluationIntent) (tid : TransactionId) (d : Digest) (k : nat)
    : list Transition :=
  [T_FreezeIntent i; T_BeginTransaction tid; T_RequestCommit d] ++ (T_Advance <$> take k commit_steps).

Definition history_ok (ts : list Transition) (m : EpisodeStateMachine) : Prop :=
  match es_phase m with
  | Clean =>
    es_transaction_id m = None ∧ es_candidate_digest m = None ∧ es_commit_step m = None
    ∧ (es_lifecycle m = Active →
       milestones ts = match es_intent m with None => [] | Some i => [T_FreezeIntent i] end)
  | Experimenting =>
    es_lifecycle m ≠ Finished ∧ es_candidate_digest m = None ∧ es_commit_step m = None
    ∧ ∃ i tid, es_intent m = Some i ∧ es_transaction_id m = Some tid
        ∧ milestones ts = [T_FreezeIntent i; T_BeginTransaction tid]
  | CommitPending =>
    es_lifecycle m = Finishing
    ∧ ∃ i tid d step, es_intent m = Some i ∧ es_transaction_id m = Some tid
        ∧ es_candidate_digest m = Some d ∧ es_commit_step m = Some step
        ∧ milestones ts = commit_prefix i tid d (commit_step_index step)
  | Committed =>
    es_lifecycle m = Finished
    ∧ ∃ i tid d, es_intent m = Some i ∧ es_transaction_id m = Some tid
        ∧ es_candidate_digest m = Some d
        ∧ milestones ts = commit_prefix i tid d 6 ++ [T_CommitCompleted]
  | RollingBack => es_lifecycle m = Finishing ∧ es_commit_step m = None
  | RecoveryRequired => es_lifecycle m = Finished ∧ es_commit_step m = None
  end
  ∧ (∀ i, es_intent m = Some i → intent_episode_id i = es_episode_id m).

Lemma milestones_snoc ts t :
  milestones (ts ++ [t]) = milestones ts ++ (if milestone t then [t] else []).
Proof. unfold milestones. rewrite filter_app. destruct t; reflexivity. Qed.

Lemma next_commit_step s s' :
  commit_step_index s' = commit_step_index s + 1 →
  take (commit_step_index s') commit_steps = take (commit_step_index s) commit_steps ++ [s'].
Proof. by destruct s, s'. Qed.

Lemma history_ok_step ts m t m' : history_ok ts m → accepted t m m' → history_ok (ts ++ [t]) m'.
Proof.
  intros [H Hi] Ht. unfold history_ok. rewrite milestones_snoc.
  destruct m as [e p l i t0 d s]. destruct t; simpl in *.
  - destruct Ht as (-> & -> & -> & He & -> & ->). simpl in *.
    destruct H as (_ & -> & -> & Hm). rewrite Hm by done. split; [done|]. by intros ? [= <-].
  - destruct Ht as (-> & -> & Hne & -> & ->). simpl in *. destruct i as [i|]; [|done].
    destruct H as (_ & -> & -> & Hm). rewrite Hm by done. split; [|done].
    split_and!; try done. by exists i, tid.
  - destruct Ht as (-> & -> & -> & ->). simpl in *. by rewrite app_nil_r.
  - destruct Ht as (-> & -> & Hne & Hne' & ->). simpl in *. split; [|done]. split; [done|].
    destruct H as (_ & _ & _ & i' & tid & -> & -> & ->).
    by exists i', tid, digest, InputsFrozen.
  - destruct Ht as (-> & (s' & -> & Hs) & ->). simpl in *. split; [|done].
    destruct H as (-> & i' & tid & d' & s0 & -> & -> & -> & [= <-] & ->). split; [done|].
    exists i', tid, d', step. split_and!; try done. unfold commit_prefix.
    by rewrite (next_commit_step s' step), fmap_app, <- app_assoc by done.
  - destruct Ht as [_ ->]. done.
  - destruct Ht as [-> ->]. done.
  - destruct Ht as (-> & -> & ->). simpl in *. split; [|done]. split; [done|].
    destruct H as (_ & i' & tid & d' & s0 & -> & -> & -> & [= <-] & ->). by exists i', tid, d'.
  - subst. done.
  - subst. rewrite app_nil_r. case_bool_decide; [|done]. subst. split; [|done].
    destruct p; simpl in *; try (by destruct H). all: by destruct H as (? & ? & ? & H).
  - destruct Ht as (-> & -> & -> & -> & ->). done.
Qed.

Lemma run_history e ts m : episode_run (EpisodeStateMachine_new e) ts m → history_ok ts m.
Proof.
  induction 1 as [|ts m t m' _ IH Ht]; [done|].
  apply transition_Ret in Ht. by eapply history_ok_step.
Qed.

(** C34. An episode is committed only after this sequence and no other: the intent
    of this episode is frozen, a transaction begins, a commit is requested for a
    candidate, the six commit steps are taken in order, the commit completes.
    The machine still holds that intent, transaction and candidate. *)
Theorem commits_follow_the_protocol e ts m :
  episode_run (EpisodeStateMachine_new e) ts m → es_phase m = Committed →
  ∃ i tid d,
    milestones ts = [T_FreezeIntent i; T_BeginTransaction tid; T_RequestCommit d;
      T_Advance RestoringBaseline; T_Advance MeasuringBaseline; T_Advance ReplayingCandidate;
      T_Advance MeasuringCandidate; T_Advance Comparing; T_Advance Finalizing;
      T_CommitCompleted]
    ∧ es_intent m = Some i ∧ intent_episode_id i = es_episode_id m
    ∧ es_transaction_id m = Some tid ∧ es_candidate_digest m = Some d
    ∧ es_lifecycle m = Finished.
Proof.
  intros [H Hi]%run_history Hp. unfold history_ok in H. rewrite Hp in H.
  destruct H as (Hl & i & tid & d & He & Ht & Hd & ->).
  exists i, tid, d. split_and!; try done. by apply Hi.
Qed.

(** ** Termination *)

Definition lifecycle_rank (l : EpisodeLifecycle) : nat :=
  match l with Active => 0 | Finishing => 1 | Finished => 2 end.
Definition phase_rank (m : EpisodeStateMachine) : nat :=
  match es_phase m with
  | Clean => if bool_decide (es_lifecycle m = Finished) then 12
             else if bool_decide (es_intent m = None) then 0 else 1
  | Experimenting => 2
  | CommitPending =>
    match es_commit_step m with Some s => 3 + commit_step_index s | None => 3 end
  | Committed => 10
  | RollingBack => 11
  | RecoveryRequired => 13
  end.
Definition episode_rank (m : EpisodeStateMachine) : nat :=
  3 * phase_rank m + lifecycle_rank (es_lifecycle m).

Lemma rank_increases ts m t m' :
  history_ok ts m → accepted t m m' → m' ≠ m → episode_rank m < episode_rank m'.
Proof.
  intros [H _] Ht Hne. unfold episode_rank, phase_rank.
  destruct m as [e p l i t0 d s]. destruct t; simpl in *.
  - destruct Ht as (-> & -> & -> & _ & -> & ->). simpl. lia.
  - destruct Ht as (-> & -> & _ & -> & ->). simpl. destruct i; simpl; lia.
  - naive_solver.
  - destruct Ht as (-> & -> & _ & _ & ->). simpl. lia.
  - destruct Ht as (-> & (s' & -> & Hs) & ->). simpl. lia.
  - destruct Ht as [[-> | ->] ->]; simpl in *.
    + destruct H as (Hl & _). destruct l; simpl; done || lia.
    + destruct H as (-> & _). destruct s as [[]|]; simpl; lia.
  - destruct Ht as [-> ->]. destruct H as [-> _]. simpl. lia.
  - destruct Ht as (-> & -> & ->). destruct H as (-> & _). simpl. lia.
  - subst. destruct p; simpl in *.
    + destruct l; simpl; repeat case_bool_decide; simpl; done || lia.
    + destruct l; simpl; lia.
    + destruct s as [[]|], l; simpl; lia.
    + destruct l; simpl; lia.
    + by destruct H as [-> ->].
    + destruct l; simpl; lia.
  - subst. case_bool_decide; [|done]. subst. destruct p; simpl in *; lia.
  - destruct Ht as (-> & -> & -> & -> & ->). simpl.
    destruct l; simpl; [destruct i; simpl; lia..|done].
Qed.

(** A run in which every transition changes the machine. *)
Inductive busy_run (m0 : EpisodeStateMachine) : list Transition → EpisodeStateMachine → Prop :=
  | busy_nil : busy_run m0 [] m0
  | busy_snoc ts m t m' :
      busy_run m0 ts m → transition t m = (Ret tt, m') → m' ≠ m → busy_run m0 (ts ++ [t]) m'.

Lemma busy_run_run m0 ts m : busy_run m0 ts m → episode_run m0 ts m.
Proof. induction 1; econstructor; done. Qed.

(** C37. No episode goes on for ever: at most 41 transitions change the machine,
    whatever is tried and in whatever order. *)
Theorem episodes_terminate e ts m :
  busy_run (EpisodeStateMachine_new e) ts m → length ts ≤ 41.
Proof.
  intros Hr. cut (length ts ≤ episode_rank m ∧ episode_rank m ≤ 41); [lia|].
  split.
  - induction Hr as [|ts m t m' Hr IH Ht Hne]; simpl; [lia|].
    apply transition_Ret in Ht. rewrite length_app. simpl.
    pose proof (rank_increases ts m t m' (run_history e ts m (busy_run_run _ _ _ Hr)) Ht Hne). lia.
  - unfold episode_rank, phase_rank.
    destruct (es_phase m), (es_lifecycle m), (es_commit_step m) as [[]|]; simpl;
      repeat case_bool_decide; simpl; lia.
Qed.

(** ** Refusals *)

Lemma transition_refused t m :
  (∃ m', transition t m = (Ret tt, m')) ∨ ∃ e, transition t m = (Throw e, m).
Proof.
  destruct m as [e p l i t0 d s].
  destruct t; simpl; em_unfold;
    [| | | |destruct s|destruct p| | | | |]; em_steps; eauto.
Qed.

Definition action_admitted (a : AgentAction) (m : EpisodeStateMachine) : Prop :=
  es_lifecycle m = Active
  ∧ match a with
    | Action_Probe | Action_Abort => es_phase m = Clean ∨ es_phase m = Experimenting
    | Action_BeginExperiment => es_phase m = Clean ∧ es_intent m = None
    | Action_Mutation => es_phase m = Clean ∧ es_intent m ≠ None ∨ es_phase m = Experimenting
    | Action_RequestCommit => es_phase m = Experimenting
    end.

Lemma ensure_agent_action_run a m :
  (ensure_agent_action a m = (Ret tt, m) ∧ action_admitted a m)
  ∨ (∃ e, ensure_agent_action a m = (Throw e, m)) ∧ ¬ action_admitted a m.
Proof.
  em_unfold. unfold action_is_allowed_in, action_admitted. destruct m as [e p l i t0 d s]. simpl.
  destruct l; simpl; [|right; split; [eauto|by intros []]..].
  destruct p, a, i; simpl; naive_solver.
Qed.

(** Agents act only on an active episode, in the phases Clean and
    Experimenting, mutate only under a frozen intent and request a commit only
    while experimenting; a check or transition that is refused leaves the machine
    as it was. *)
Theorem agent_authority_is_bounded a t m :
  (ensure_agent_action a m = (Ret tt, m) ↔ action_admitted a m)
  ∧ (ensure_agent_action a m).2 = m
  ∧ ((∃ m', transition t m = (Ret tt, m')) ∨ ∃ e, transition t m = (Throw e, m)).
Proof.
  destruct (ensure_agent_action_run a m) as [[E Ha]|[(e & E) Ha]]; rewrite E;
    (split_and!; [|done|apply transition_refused]); by split.
Qed.
End Episode.
