(* ===== verification/Condition.v ===== *)
(** * Metric conditions, the threshold policy and the verdict
      ([tuning_agent/src/kernel/evaluation/{condition,verdict}.rs],
       [tuning_agent/src/adapters/local/comparator/threshold.rs])

    How two measurements are compared: one condition on one metric, the builtin
    policy over a list of conditions, and the central verdict over the evidence
    of all policies. *)

From S2P Require Export Capability Values.

(** ** Conditions ([condition.rs]) *)

Inductive MetricOperator :=
  | DecreasePercentGe | DecreaseAbsGe | IncreasePercentGe | IncreaseAbsGe
  | IncreasePercentLe | IncreaseAbsLe | DecreasePercentLe | DecreaseAbsLe
  | ChangePercentLe | ChangeAbsLe | CurrentLe | CurrentGe.
#[export] Instance MetricOperator_eq_dec : EqDecision MetricOperator.
Proof. solve_decision. Defined.

Record MetricCondition := MkMetricCondition {
  cond_metric : string; cond_op : MetricOperator; cond_value : spec_float }.

(** [matches!(op, CurrentLe | CurrentGe)]. *)
Definition is_current (op : MetricOperator) : bool :=
  match op with CurrentLe | CurrentGe => true | _ => false end.

Definition MetricCondition_validate (c : MetricCondition) : result string unit :=
  _ ← reject (is_blank (cond_metric c)) "metric condition requires a metric name";
  _ ← reject (negb (f64_is_finite (cond_value c)))
        ("metric condition '" +:+ cond_metric c +:+ "' has a non-finite threshold");
  reject (negb (is_current (cond_op c)) && f64_lt (cond_value c) f64_zero)
    ("metric condition '" +:+ cond_metric c +:+ "' requires a non-negative delta threshold").

Inductive ConditionOutcome := Cond_Passed | Cond_Failed | Cond_Inconclusive.
#[export] Instance ConditionOutcome_eq_dec : EqDecision ConditionOutcome.
Proof. solve_decision. Defined.

Record MetricConditionEvidence := MkConditionOutcome {
  mce_condition : MetricCondition;
  mce_outcome : ConditionOutcome;
  mce_baseline : option spec_float;
  mce_candidate : option spec_float;
  mce_reason : string;
}.

Definition inconclusive (c : MetricCondition) (baseline candidate : option spec_float)
    (reason : string) : MetricConditionEvidence :=
  MkConditionOutcome c Cond_Inconclusive baseline candidate reason.

Definition percent_change (baseline delta : spec_float) : result string spec_float :=
  if f64_le (f64_abs baseline) f64_EPSILON then
    Err "percentage comparison is undefined for a zero baseline"
  else Ok (f64_mul (f64_div delta (f64_abs baseline)) f64_hundred).

(** The comparison of one operator on two finite values. *)
Definition operator_result (op : MetricOperator) (before after threshold : spec_float)
    : result string bool :=
  let at_least (r : result string spec_float) := change ← r; Ok (f64_ge change threshold) in
  let at_most (r : result string spec_float) := change ← r; Ok (f64_le change threshold) in
  match op with
  | DecreasePercentGe => at_least (percent_change before (f64_sub before after))
  | DecreaseAbsGe => Ok (f64_ge (f64_sub before after) threshold)
  | IncreasePercentGe => at_least (percent_change before (f64_sub after before))
  | IncreaseAbsGe => Ok (f64_ge (f64_sub after before) threshold)
  | IncreasePercentLe => at_most (percent_change before (f64_max (f64_sub after before) f64_zero))
  | IncreaseAbsLe => Ok (f64_le (f64_sub after before) threshold)
  | DecreasePercentLe => at_most (percent_change before (f64_max (f64_sub before after) f64_zero))
  | DecreaseAbsLe => Ok (f64_le (f64_sub before after) threshold)
  | ChangePercentLe => at_most (percent_change before (f64_abs (f64_sub after before)))
  | ChangeAbsLe => Ok (f64_le (f64_abs (f64_sub after before)) threshold)
  | CurrentLe => Ok (f64_le after threshold)
  | CurrentGe => Ok (f64_ge after threshold)
  end.

Section Condition.
Context `{JD : JsonData}.

Definition numeric_value (m : MetricValue) : option spec_float := as_f64 (metric_value m).

Definition is_numeric (k : MetricKind) : bool :=
  match k with Gauge | Counter => true | _ => false end.

(** Both sides of a metric, when they are comparable finite numbers. *)
Definition finite_pair (before after : option spec_float) : option (spec_float * spec_float) :=
  match before, after with
  | Some x, Some y => if f64_is_finite x && f64_is_finite y then Some (x, y) else None
  | _, _ => None
  end.

Definition evaluate_metric_condition (c : MetricCondition) (baseline candidate : MetricBatch)
    : MetricConditionEvidence :=
  let about (text : string) := "metric '" +:+ cond_metric c +:+ "' " +:+ text in
  match MetricCondition_validate c with
  | Err reason => inconclusive c None None reason
  | Ok _ =>
    match metrics baseline !! cond_metric c, metrics candidate !! cond_metric c with
    | Some before_metric, Some after_metric =>
      if bool_decide (metric_kind before_metric ≠ metric_kind after_metric)
         || bool_decide (metric_unit before_metric ≠ metric_unit after_metric) then
        inconclusive c (numeric_value before_metric) (numeric_value after_metric)
          (about "has different kinds or units across A/B measurements")
      else if negb (is_numeric (metric_kind before_metric)) then
        inconclusive c None None (about "is not a numeric gauge or counter")
      else
        match finite_pair (numeric_value before_metric) (numeric_value after_metric) with
        | None => inconclusive c (numeric_value before_metric) (numeric_value after_metric)
                    (about "is not a finite number on both sides")
        | Some (before, after) =>
          match operator_result (cond_op c) before after (cond_value c) with
          | Ok true => MkConditionOutcome c Cond_Passed (Some before) (Some after)
                         "condition passed"
          | Ok false => MkConditionOutcome c Cond_Failed (Some before) (Some after)
              ("condition failed: baseline=" +:+ f64_display before +:+ ", candidate="
               +:+ f64_display after +:+ ", threshold=" +:+ f64_display (cond_value c))
          | Err reason => inconclusive c (Some before) (Some after) reason
          end
        end
    | _, _ => inconclusive c None None (about "is missing on one or both sides")
    end
  end.

(** ** The threshold policy ([threshold.rs]) *)

(** [METRIC_OPERATORS], the [snake_case] names serde uses. *)
Definition MetricOperator_name (op : MetricOperator) : string :=
  match op with
  | DecreasePercentGe => "decrease_percent_ge" | DecreaseAbsGe => "decrease_abs_ge"
  | IncreasePercentGe => "increase_percent_ge" | IncreaseAbsGe => "increase_abs_ge"
  | IncreasePercentLe => "increase_percent_le" | IncreaseAbsLe => "increase_abs_le"
  | DecreasePercentLe => "decrease_percent_le" | DecreaseAbsLe => "decrease_abs_le"
  | ChangePercentLe => "change_percent_le" | ChangeAbsLe => "change_abs_le"
  | CurrentLe => "current_le" | CurrentGe => "current_ge"
  end.
Definition ConditionOutcome_name (o : ConditionOutcome) : string :=
  match o with
  | Cond_Passed => "passed" | Cond_Failed => "failed" | Cond_Inconclusive => "inconclusive"
  end.

Record ThresholdComparisonSpec := MkThresholdSpec { spec_conditions : list MetricCondition }.

(** [serde_json::from_value] at [ThresholdComparisonSpec], serde's derived code. *)
Context (decode_threshold_spec : Value → result string ThresholdComparisonSpec).

Definition invalid_request (message : string) : ProviderError :=
  ProviderError_new InvalidRequest message.

Definition parse_specification (specification : Value)
    : result ProviderError ThresholdComparisonSpec :=
  spec ← map_err (λ error,
           invalid_request ("invalid threshold comparison specification: " +:+ error))
           (decode_threshold_spec specification);
  _ ← reject (bool_decide (spec_conditions spec = [])
              || bool_decide (256 < Z.of_nat (length (spec_conditions spec)))%Z)
        (invalid_request "threshold comparison requires between 1 and 256 conditions");
  _ ← fold_result (λ _ c, map_err invalid_request (MetricCondition_validate c)) tt
        (spec_conditions spec);
  Ok spec.

Definition domain_evidence (e : MetricConditionEvidence) : ConditionEvidence :=
  MkConditionEvidence (cond_metric (mce_condition e)) (bool_decide (mce_outcome e = Cond_Passed))
    (json_object
      [("operator", json_string (MetricOperator_name (cond_op (mce_condition e))));
       ("threshold", json_f64 (cond_value (mce_condition e)));
       ("outcome", json_string (ConditionOutcome_name (mce_outcome e)));
       ("baseline", json_option json_f64 (mce_baseline e));
       ("candidate", json_option json_f64 (mce_candidate e));
       ("reason", json_string (mce_reason e))]).

Definition has_outcome (o : ConditionOutcome) (l : list MetricConditionEvidence) : bool :=
  existsb (λ e, bool_decide (mce_outcome e = o)) l.

Definition threshold_conclusion (evaluated : list MetricConditionEvidence)
    : ComparisonConclusion :=
  if has_outcome Cond_Failed evaluated then NotImproved
  else if has_outcome Cond_Inconclusive evaluated then Inconclusive
  else Improved.

(** [meta] is the policy's own metadata. *)
Definition threshold_compare (meta : CapabilityMeta) (request : ComparisonRequest)
    : result ProviderError ComparisonEvidence :=
  spec ← parse_specification (comparison_specification request);
  let evaluated := (λ c, evaluate_metric_condition c (comparison_baseline request)
                           (comparison_candidate request)) <$> spec_conditions spec in
  Ok (MkComparisonEvidence (threshold_conclusion evaluated) (domain_evidence <$> evaluated)
    (json_object
      [("policy", json_string (as_str (meta_id meta)));
       ("contract_id", json_string (as_str (comparison_contract_id request)));
       ("condition_count", json_integer (Z.of_nat (length evaluated)))])).

Definition metric_condition_schema : Value :=
  json_object
    [("type", json_string "object");
     ("description", json_string "Compare one exact metric across baseline and candidate. decrease_* uses baseline minus candidate, increase_* uses candidate minus baseline, change_* uses absolute change, and current_* tests the candidate value. Percent operators divide by the absolute baseline; abs operators use the metric's unit.");
     ("additionalProperties", json_bool false);
     ("required", json_array [json_string "metric"; json_string "op"; json_string "value"]);
     ("properties", json_object
       [("metric", json_object
          [("type", json_string "string");
           ("minLength", json_integer 1);
           ("description",
            json_string "Exact metric name exported by the selected measurement capability.")]);
        ("op", json_object
          [("type", json_string "string");
           ("enum", json_array ((λ op, json_string (MetricOperator_name op)) <$>
              [DecreasePercentGe; DecreaseAbsGe; IncreasePercentGe; IncreaseAbsGe;
               IncreasePercentLe; IncreaseAbsLe; DecreasePercentLe; DecreaseAbsLe;
               ChangePercentLe; ChangeAbsLe; CurrentLe; CurrentGe]));
           ("description",
            json_string "Typed comparison operator applied to baseline and candidate values.")]);
        ("value", json_object
          [("type", json_string "number");
           ("description",
            json_string "Finite threshold; delta operators require a non-negative value.")])])].

(** The [expect]s of [ThresholdComparisonPolicy::new]. *)
Example threshold_identifiers_are_valid :
  string_id_new N_Provider "builtin.threshold-comparison"
    = Ok (StringId "builtin.threshold-comparison")
  ∧ string_id_new N_ProviderVersion "1" = Ok (StringId "1")
  ∧ string_id_new N_Digest "builtin-threshold-comparison-v1"
    = Ok (StringId "builtin-threshold-comparison-v1")
  ∧ string_id_new N_Capability "builtin/comparison.threshold.v1"
    = Ok (StringId "builtin/comparison.threshold.v1").
Proof. by vm_compute. Qed.

(** [ThresholdComparisonPolicy::new]. *)
Definition threshold_meta : CapabilityMeta :=
  let provider := MkProviderPin (StringId "builtin.threshold-comparison") (StringId "1") Builtin
                    (StringId "builtin-threshold-comparison-v1") in
  let m := CapabilityMeta_new (StringId "builtin/comparison.threshold.v1") Comparison
             PureComputation provider "Evaluate typed metric threshold conditions"
             (json_object
               [("type", json_string "object");
                ("required", json_array [json_string "conditions"]);
                ("additionalProperties", json_bool false);
                ("properties", json_object
                  [("conditions", json_object
                     [("type", json_string "array"); ("minItems", json_integer 1);
                      ("maxItems", json_integer 256); ("items", metric_condition_schema)])])])
             (json_object
               [("type", json_string "object");
                ("required", json_array [json_string "conclusion"; json_string "conditions"])]) in
  let m := with_allowed_phases m [CommitPending] in
  {| meta_id := meta_id m; kind := kind m; effect := effect m; provider := Domain.provider m;
     description := description m; input_schema := input_schema m;
     output_schema := output_schema m; role := role m; allowed_phases := allowed_phases m;
     limits := MkCapabilityLimits 1000 (max_output_bytes (limits m));
     deterministic := true; idempotent := true |}.

Definition ThresholdComparisonPolicy : ComparisonPolicy :=
  {| comparison_meta := threshold_meta;
     validate_comparison_specification specification :=
       (_ ← parse_specification specification; Ok tt);
     Capability.compare := threshold_compare threshold_meta |}.

(** ** The verdict ([verdict.rs]) *)

Inductive EvaluationVerdict :=
  | Verdict_Improved | Verdict_NoSignal | Verdict_Inconclusive | Verdict_Unsafe.
#[export] Instance EvaluationVerdict_eq_dec : EqDecision EvaluationVerdict.
Proof. solve_decision. Defined.

Record ComparisonEvidenceGroups := MkGroups {
  group_primary : list ComparisonEvidence;
  group_regression_guards : list ComparisonEvidence;
  group_workload_invariants : list ComparisonEvidence;
}.
Definition ComparisonEvidenceGroups_default : ComparisonEvidenceGroups := MkGroups [] [] [].

Record EvaluationDecision := MkDecision {
  verdict : EvaluationVerdict;
  decision_reason : string;
  system_guardrails : list MetricConditionEvidence;
  policy_evidence : ComparisonEvidenceGroups;
}.

Definition metric_schemas_match (baseline candidate : MetricBatch) : bool :=
  bool_decide (size (metrics baseline) = size (metrics candidate))
  && forallb (λ entry, match metrics candidate !! entry.1 with
                       | Some m => bool_decide (metric_kind entry.2 = metric_kind m)
                                   && bool_decide (metric_unit entry.2 = metric_unit m)
                       | None => false
                       end) (metrics_in_order (metrics baseline)).

Definition schemas_are_comparable (system_baseline system_candidate baseline candidate : MetricBatch)
    : bool :=
  metric_schemas_match system_baseline system_candidate && metric_schemas_match baseline candidate.

Definition has_conclusion (evidence : list ComparisonEvidence) (c : ComparisonConclusion) : bool :=
  existsb (λ e, bool_decide (conclusion e = c)) evidence.

(** An empty array: the thresholds are commented out in the source. *)
Definition fixed_system_guardrails : list MetricCondition := [].

Definition not_valid (b : MetricBatch) : bool := bool_decide (quality b ≠ Valid).

Definition fingerprints_untrusted (baseline candidate : MetricBatch) : bool :=
  match workload_fingerprint baseline, workload_fingerprint candidate with
  | Some x, Some y => bool_decide (x ≠ y)
  | _, _ => true
  end.

(** The verdict from the facts [decide] computes, in the order of its branches. *)
Definition verdict_of (guardrails : list MetricConditionEvidence)
    (measurement_incomplete schema_incompatible workload_fingerprint_untrusted : bool)
    (evidence : ComparisonEvidenceGroups) : EvaluationVerdict * string :=
  let primary := group_primary evidence in
  let guards := group_regression_guards evidence in
  let invariants := group_workload_invariants evidence in
  if has_outcome Cond_Failed guardrails then
    (Verdict_Unsafe, "a fixed system guardrail failed")
  else if has_conclusion guards NotImproved then
    (Verdict_Unsafe, "a regression guardrail failed")
  else if measurement_incomplete then
    (Verdict_Inconclusive, "one or both measurement batches are not fully valid")
  else if schema_incompatible then
    (Verdict_Inconclusive, "A/B metric names, kinds, or units are not comparable")
  else if workload_fingerprint_untrusted || has_outcome Cond_Inconclusive guardrails
          || (has_conclusion primary Inconclusive || has_conclusion guards Inconclusive
              || has_conclusion invariants Inconclusive)
          || has_conclusion invariants NotImproved then
    (Verdict_Inconclusive, "evaluation evidence is incomplete or the workload is not comparable")
  else if negb (bool_decide (primary = []))
          && forallb (λ e, bool_decide (conclusion e = Improved)) primary then
    (Verdict_Improved, "all primary objectives and guardrails passed")
  else (Verdict_NoSignal, "primary objectives did not all pass").

Definition decide_verdict (system_baseline system_candidate baseline candidate : MetricBatch)
    (policy_evidence : ComparisonEvidenceGroups) : EvaluationDecision :=
  let guardrails := (λ c, evaluate_metric_condition c system_baseline system_candidate)
                      <$> fixed_system_guardrails in
  let '(verdict, reason) := verdict_of guardrails
    (not_valid system_baseline || not_valid system_candidate || not_valid baseline
     || not_valid candidate)
    (negb (schemas_are_comparable system_baseline system_candidate baseline candidate))
    (fingerprints_untrusted baseline candidate) policy_evidence in
  MkDecision verdict reason guardrails policy_evidence.

(** ** Conditions, from outside *)

(** A metric both sides measured as the same kind of finite number. *)
Definition comparable_values (c : MetricCondition) (baseline candidate : MetricBatch)
    (x y : spec_float) : Prop :=
  ∃ before after,
    metrics baseline !! cond_metric c = Some before
    ∧ metrics candidate !! cond_metric c = Some after
    ∧ metric_kind before = metric_kind after ∧ metric_unit before = metric_unit after
    ∧ is_numeric (metric_kind before) = true
    ∧ numeric_value before = Some x ∧ numeric_value after = Some y
    ∧ f64_is_finite x = true ∧ f64_is_finite y = true.

Lemma finite_pair_Some b a x y :
  finite_pair b a = Some (x, y) ↔
  b = Some x ∧ a = Some y ∧ f64_is_finite x = true ∧ f64_is_finite y = true.
Proof.
  unfold finite_pair. destruct b as [x'|], a as [y'|]; [|split; [done|by intros (? & ? & _)]..].
  split; [|by intros ([= ->] & [= ->] & -> & ->)].
  destruct (f64_is_finite x') eqn:?, (f64_is_finite y') eqn:?; simpl; [|done..]. by intros [= <- <-].
Qed.

(** The outcome is decided by the operator exactly when the condition is valid and
    the values comparable. *)
Lemma evaluate_decided c baseline candidate (b : bool) :
  mce_outcome (evaluate_metric_condition c baseline candidate)
    = (if b then Cond_Passed else Cond_Failed) ↔
  MetricCondition_validate c = Ok tt
  ∧ ∃ x y, comparable_values c baseline candidate x y
     ∧ operator_result (cond_op c) x y (cond_value c) = Ok b.
Proof.
  unfold evaluate_metric_condition, comparable_values.
  assert (∀ (P : Prop), ¬ P → Cond_Inconclusive = (if b then Cond_Passed else Cond_Failed) ↔ P)
    as Hno by (intros P HP; split; [by destruct b|done]).
  destruct (MetricCondition_validate c) as [[]|]; [|by apply Hno; intros []].
  destruct (metrics baseline !! _) as [m1|]; [|by apply Hno; intros (_ & ? & ? & (? & ? & ? & _) & _)].
  destruct (metrics candidate !! _) as [m2|];
    [|by apply Hno; intros (_ & ? & ? & (? & ? & _ & ? & _) & _)].
  assert (∀ P : spec_float → spec_float → Prop,
    (∃ x y, (∃ before after, Some m1 = Some before ∧ Some m2 = Some after
      ∧ metric_kind before = metric_kind after ∧ metric_unit before = metric_unit after
      ∧ is_numeric (metric_kind before) = true ∧ numeric_value before = Some x
      ∧ numeric_value after = Some y ∧ f64_is_finite x = true ∧ f64_is_finite y = true) ∧ P x y) ↔
    metric_kind m1 = metric_kind m2 ∧ metric_unit m1 = metric_unit m2
      ∧ is_numeric (metric_kind m1) = true
      ∧ ∃ x y, finite_pair (numeric_value m1) (numeric_value m2) = Some (x, y) ∧ P x y) as ->.
  { intros P. setoid_rewrite finite_pair_Some. split.
    - intros (x & y & (? & ? & [= <-] & [= <-] & ? & ? & ? & ? & ? & ? & ?) & HP). eauto 15.
    - intros (? & ? & ? & x & y & (? & ? & ? & ?) & HP). exists x, y. split; [|done].
      by exists m1, m2. }
  destruct (bool_decide_reflect (metric_kind m1 ≠ metric_kind m2)) as [Hk|Hk%dec_stable];
    [by apply Hno; intros (_ & ? & _)|].
  destruct (bool_decide_reflect (metric_unit m1 ≠ metric_unit m2)) as [Hu|Hu%dec_stable];
    [by apply Hno; intros (_ & _ & ? & _)|].
  simpl. destruct (is_numeric (metric_kind m1)); [|by apply Hno; intros (_ & _ & _ & ? & _)]. simpl.
  destruct (finite_pair _ _) as [[x y]|]; [|by apply Hno; intros (_ & _ & _ & _ & ? & ? & ? & _)].
  transitivity (operator_result (cond_op c) x y (cond_value c) = Ok b).
  - destruct (operator_result _ _ _ _) as [[]|], b; simpl; by split.
  - split; [|by intros (_ & _ & _ & _ & ? & ? & [= <- <-] & ?)]. intros Ho. by eauto 10.
Qed.

(** Whether a larger threshold is harder to meet. *)
Definition lower_bound (op : MetricOperator) : bool :=
  match op with
  | DecreasePercentGe | DecreaseAbsGe | IncreasePercentGe | IncreaseAbsGe | CurrentGe => true
  | _ => false
  end.
Definition weaker_threshold (op : MetricOperator) (v v' : spec_float) : Prop :=
  if lower_bound op then f64_le v' v = true else f64_le v v' = true.

Lemma operator_result_weaker op x y v v' :
  operator_result op x y v = Ok true → weaker_threshold op v v' → operator_result op x y v' = Ok true.
Proof.
  unfold weaker_threshold, operator_result, f64_ge.
  destruct op; simpl; try destruct (percent_change _ _); simpl; try done;
    intros [= H1] H2; f_equal; (eapply f64_le_trans; eassumption).
Qed.

(** A condition passes exactly when it is valid, both sides measured its metric
    as finite numbers of the same kind and unit, and the operator accepts them;
    and what passes still passes under any weaker valid threshold. *)
Theorem conditions_are_decided_and_monotone c v baseline candidate :
  (mce_outcome (evaluate_metric_condition c baseline candidate) = Cond_Passed ↔
    MetricCondition_validate c = Ok tt
    ∧ ∃ x y, comparable_values c baseline candidate x y
       ∧ operator_result (cond_op c) x y (cond_value c) = Ok true)
  ∧ (mce_outcome (evaluate_metric_condition c baseline candidate) = Cond_Passed →
     weaker_threshold (cond_op c) (cond_value c) v →
     MetricCondition_validate (MkMetricCondition (cond_metric c) (cond_op c) v) = Ok tt →
     mce_outcome (evaluate_metric_condition (MkMetricCondition (cond_metric c) (cond_op c) v)
       baseline candidate) = Cond_Passed).
Proof.
  split; [apply (evaluate_decided _ _ _ true)|].
  intros (_ & x & y & Hxy & Ho)%(evaluate_decided _ _ _ true) Hw Hv.
  apply (evaluate_decided _ _ _ true). split; [done|]. exists x, y. split; [done|].
  by eapply operator_result_weaker.
Qed.

(** ** Conclusions and verdicts, from outside *)

Lemma existsb_bool_decide_false {A} (P : A → Prop) `{!∀ a, Decision (P a)} l :
  existsb (λ a, bool_decide (P a)) l = false ↔ Forall (λ a, ¬ P a) l.
Proof.
  induction l as [|a l IH]; simpl; [by split|].
  rewrite orb_false_iff, bool_decide_eq_false, Forall_cons, IH. done.
Qed.

Lemma existsb_bool_decide_true {A} (P : A → Prop) `{!∀ a, Decision (P a)} l :
  existsb (λ a, bool_decide (P a)) l = true ↔ Exists P l.
Proof.
  induction l as [|a l IH]; simpl; [split; [done|inversion 1]|].
  rewrite orb_true_iff, bool_decide_eq_true, Exists_cons, IH. done.
Qed.

Lemma forallb_bool_decide {A} (P : A → Prop) `{!∀ a, Decision (P a)} l :
  forallb (λ a, bool_decide (P a)) l = true ↔ Forall P l.
Proof.
  induction l as [|a l IH]; simpl; [by split|].
  rewrite andb_true_iff, bool_decide_eq_true, Forall_cons, IH. done.
Qed.

Lemma has_outcome_true {A} (f : A → MetricConditionEvidence) o l :
  has_outcome o (f <$> l) = true ↔ Exists (λ a, mce_outcome (f a) = o) l.
Proof. unfold has_outcome. by rewrite existsb_bool_decide_true, Exists_fmap. Qed.

Lemma has_outcome_false {A} (f : A → MetricConditionEvidence) o l :
  has_outcome o (f <$> l) = false ↔ Forall (λ a, mce_outcome (f a) ≠ o) l.
Proof.
  unfold has_outcome.
  by rewrite (existsb_bool_decide_false (λ e, mce_outcome e = o)), Forall_fmap.
Qed.

(** The threshold policy concludes an improvement exactly when every condition
    passed, and a non-improvement as soon as one failed, whatever could not be
    evaluated; a request it accepts has between 1 and 256 valid conditions. *)
Theorem threshold_policy_concludes request evidence :
  Capability.compare ThresholdComparisonPolicy request = Ok evidence →
  ∃ spec, decode_threshold_spec (comparison_specification request) = Ok spec
    ∧ (1 <= Z.of_nat (length (spec_conditions spec)) <= 256)%Z
    ∧ Forall (λ c, MetricCondition_validate c = Ok tt) (spec_conditions spec)
    ∧ let outcome c := mce_outcome (evaluate_metric_condition c (comparison_baseline request)
                                      (comparison_candidate request)) in
      (conclusion evidence = Improved ↔
        Forall (λ c, outcome c = Cond_Passed) (spec_conditions spec))
      ∧ (conclusion evidence = NotImproved ↔
        Exists (λ c, outcome c = Cond_Failed) (spec_conditions spec)).
Proof.
  simpl. unfold threshold_compare, parse_specification.
  rewrite result_bind_Ok. intros (spec & Hspec & [= <-]).
  apply result_bind_Ok in Hspec as (spec' & Hd%map_err_Ok & Hspec).
  apply reject_bind_Ok in Hspec as [Hlen%reject_Ok Hspec].
  apply reject_bind_Ok in Hspec as [Hv [= ->]]. exists spec. split; [done|].
  apply orb_false_iff in Hlen as [Hne%bool_decide_eq_false Hlen%bool_decide_eq_false].
  split; [destruct (spec_conditions spec); simpl in *; [done|lia]|]. split.
  { clear -Hv. induction (spec_conditions spec) as [|c cs IH]; [constructor|]. simpl in Hv.
    destruct (MetricCondition_validate c) as [[]|] eqn:Hc; [|done]. by constructor; [|apply IH]. }
  simpl. unfold threshold_conclusion. set (f := λ c, evaluate_metric_condition c _ _).
  assert (∀ c, mce_outcome (evaluate_metric_condition c (comparison_baseline request)
    (comparison_candidate request)) = mce_outcome (f c)) as Hf by done.
  setoid_rewrite Hf. rewrite Forall_forall, Exists_exists.
  destruct (has_outcome Cond_Failed _) eqn:Hfail.
  - apply has_outcome_true, Exists_exists in Hfail as (c & Hin & Hc).
    split; [split; [done|]|split; [by eauto|done]]. intros Hall. specialize (Hall c Hin). congruence.
  - apply has_outcome_false in Hfail. rewrite Forall_forall in Hfail.
    assert (¬ ∃ c, c ∈ spec_conditions spec ∧ mce_outcome (f c) = Cond_Failed) as Hno
      by (intros (c & Hin & Hc); by apply (Hfail c Hin)).
    destruct (has_outcome Cond_Inconclusive _) eqn:Hinc; (split; [|by split]).
    + split; [done|]. intros Hall.
      apply has_outcome_true, Exists_exists in Hinc as (c & Hin & Hc).
      specialize (Hall c Hin). congruence.
    + apply has_outcome_false in Hinc. rewrite Forall_forall in Hinc.
      split; [|done]. intros _ c Hin. specialize (Hfail c Hin). specialize (Hinc c Hin).
      by destruct (mce_outcome (f c)).
Qed.

(** The schema of a batch: the kind and unit of each metric. *)
Definition schema (b : MetricBatch) : gmap string (MetricKind * string) :=
  (λ m, (metric_kind m, metric_unit m)) <$> metrics b.

Lemma elem_of_metrics_in_order (m : gmap string MetricValue) entry :
  entry ∈ metrics_in_order m ↔ m !! entry.1 = Some entry.2.
Proof.
  unfold metrics_in_order. rewrite merge_sort_Permutation. destruct entry as [k v]. simpl.
  by rewrite elem_of_map_to_list.
Qed.

(** Two schemas match when they are equal, although only one side is searched. *)
Lemma metric_schemas_match_spec x y : metric_schemas_match x y = true ↔ schema x = schema y.
Proof.
  unfold metric_schemas_match, schema. rewrite andb_true_iff, bool_decide_eq_true, forallb_forall.
  split.
  - intros [Hsize Hall].
    assert (∀ k m, metrics x !! k = Some m → ∃ m', metrics y !! k = Some m'
      ∧ metric_kind m = metric_kind m' ∧ metric_unit m = metric_unit m') as Hsub.
    { intros k m Hk. specialize (Hall (k, m)). rewrite <- list_elem_of_In in Hall.
      specialize (Hall (proj2 (elem_of_metrics_in_order _ (k, m)) Hk)). simpl in Hall.
      destruct (metrics y !! k) as [m'|]; [|done].
      apply andb_true_iff in Hall as [H1%bool_decide_eq_true H2%bool_decide_eq_true]. by exists m'. }
    assert (dom (metrics x) = dom (metrics y)) as Hdom.
    { apply set_subseteq_size_eq; [|by rewrite !size_dom, Hsize].
      intros k [m Hk]%elem_of_dom. destruct (Hsub k m Hk) as (m' & Hm' & _).
      apply elem_of_dom. by eexists. }
    apply map_eq. intros k. rewrite !lookup_fmap.
    destruct (metrics x !! k) as [m|] eqn:Hk; simpl.
    + destruct (Hsub k m Hk) as (m' & -> & -> & ->). done.
    + apply not_elem_of_dom in Hk. rewrite Hdom in Hk. by apply not_elem_of_dom in Hk as ->.
  - intros He. split.
    + rewrite <- (map_size_fmap (λ m, (metric_kind m, metric_unit m)) (metrics x)), He.
      by rewrite map_size_fmap.
    + intros [k m]. rewrite <- list_elem_of_In, elem_of_metrics_in_order. simpl. intros Hk.
      assert ((λ m, (metric_kind m, metric_unit m)) <$> metrics y !! k
        = Some (metric_kind m, metric_unit m)) as Hy.
      { rewrite <- lookup_fmap, <- He, lookup_fmap, Hk. done. }
      destruct (metrics y !! k) as [m'|]; [|done]. injection Hy as -> ->.
      by rewrite !bool_decide_eq_true_2.
Qed.

Lemma has_conclusion_false l c : has_conclusion l c = false ↔ Forall (λ e, conclusion e ≠ c) l.
Proof. apply (existsb_bool_decide_false (λ e, conclusion e = c)). Qed.

Lemma has_conclusion_true l c : has_conclusion l c = true ↔ Exists (λ e, conclusion e = c) l.
Proof. apply (existsb_bool_decide_true (λ e, conclusion e = c)). Qed.

(** Evidence with only improvements. *)
Lemma all_improved l :
  has_conclusion l NotImproved = false ∧ has_conclusion l Inconclusive = false ↔
  Forall (λ e, conclusion e = Improved) l.
Proof.
  rewrite !has_conclusion_false, <- Forall_and. apply Forall_iff. intros e.
  by destruct (conclusion e); intuition.
Qed.

Section Verdict.
Context (sb sc b c : MetricBatch) (evidence : ComparisonEvidenceGroups).

(** What an improvement takes. *)
Record improves : Prop := {
  improves_primary : group_primary evidence ≠ [];
  improves_policies : Forall (λ e, conclusion e = Improved)
    (group_primary evidence ++ group_regression_guards evidence
     ++ group_workload_invariants evidence);
  improves_quality : Forall (λ batch, quality batch = Valid) [sb; sc; b; c];
  improves_schemas : schema sb = schema sc ∧ schema b = schema c;
  improves_workload : ∃ fingerprint, workload_fingerprint b = Some fingerprint
    ∧ workload_fingerprint c = Some fingerprint;
}.

Lemma fingerprints_trusted : fingerprints_untrusted b c = false ↔ ∃ fingerprint,
  workload_fingerprint b = Some fingerprint ∧ workload_fingerprint c = Some fingerprint.
Proof.
  unfold fingerprints_untrusted.
  destruct (workload_fingerprint b) as [x|], (workload_fingerprint c) as [y|];
    [|split; [done|naive_solver]..].
  rewrite bool_decide_eq_false. split; [intros ->%dec_stable; eauto|naive_solver].
Qed.

Lemma all_valid : not_valid sb || not_valid sc || not_valid b || not_valid c = false ↔
  Forall (λ batch, quality batch = Valid) [sb; sc; b; c].
Proof.
  unfold not_valid. rewrite !orb_false_iff, !bool_decide_eq_false, !Forall_cons, Forall_nil.
  split; [intros (((?%dec_stable & ?%dec_stable) & ?%dec_stable) & ?%dec_stable); done|naive_solver].
Qed.

Lemma improves_tests : improves ↔
  group_primary evidence ≠ []
  ∧ (has_conclusion (group_primary evidence) NotImproved = false
     ∧ has_conclusion (group_primary evidence) Inconclusive = false)
  ∧ (has_conclusion (group_regression_guards evidence) NotImproved = false
     ∧ has_conclusion (group_regression_guards evidence) Inconclusive = false)
  ∧ (has_conclusion (group_workload_invariants evidence) NotImproved = false
     ∧ has_conclusion (group_workload_invariants evidence) Inconclusive = false)
  ∧ not_valid sb || not_valid sc || not_valid b || not_valid c = false
  ∧ schemas_are_comparable sb sc b c = true
  ∧ fingerprints_untrusted b c = false.
Proof.
  rewrite all_valid, fingerprints_trusted, !all_improved. unfold schemas_are_comparable.
  rewrite andb_true_iff, !metric_schemas_match_spec.
  split; [intros [? Hp ? ? ?]; rewrite !Forall_app in Hp; naive_solver|].
  intros (? & ? & ? & ? & ? & ? & ?). split; try done. by rewrite !Forall_app.
Qed.

Lemma decide_verdict_cases :
  let v := verdict (decide_verdict sb sc b c evidence) in
  (v = Verdict_Improved ↔ improves)
  ∧ (v = Verdict_Unsafe ↔ has_conclusion (group_regression_guards evidence) NotImproved = true).
Proof.
  cbv zeta. rewrite improves_tests. unfold decide_verdict, verdict_of. simpl.
  assert (forallb (λ e, bool_decide (conclusion e = Improved)) (group_primary evidence) = true ↔
    has_conclusion (group_primary evidence) NotImproved = false
    ∧ has_conclusion (group_primary evidence) Inconclusive = false) as Hprim
    by (rewrite all_improved; apply forallb_bool_decide).
  set (guard_failed := has_conclusion (group_regression_guards evidence) NotImproved) in *.
  destruct guard_failed; simpl; [by intuition|].
  destruct (not_valid sb || _ || _ || _); simpl; [by intuition|].
  destruct (schemas_are_comparable sb sc b c); simpl; [|by intuition].
  destruct (fingerprints_untrusted b c); simpl; [by intuition|].
  destruct (has_conclusion (group_primary evidence) Inconclusive); simpl; [by intuition|].
  destruct (has_conclusion (group_regression_guards evidence) Inconclusive); simpl; [by intuition|].
  destruct (has_conclusion (group_workload_invariants evidence) Inconclusive); simpl; [by intuition|].
  destruct (has_conclusion (group_workload_invariants evidence) NotImproved); simpl; [by intuition|].
  case_bool_decide; simpl; [by intuition|].
  destruct (forallb _ _); simpl; by intuition.
Qed.

(** C33. The verdict is Improved exactly when there is a primary objective, every
    policy of every group concluded an improvement, all four batches are valid,
    each pair has the same schema, and both sides carry the same workload
    fingerprint; it is Unsafe exactly when a regression guard concluded the
    opposite, whatever else is missing. *)
Theorem improvement_needs_all_evidence :
  let d := decide_verdict sb sc b c evidence in
  (verdict d = Verdict_Improved ↔ improves)
  ∧ (verdict d = Verdict_Unsafe ↔
      Exists (λ e, conclusion e = NotImproved) (group_regression_guards evidence))
  ∧ policy_evidence d = evidence.
Proof.
  cbv zeta. destruct decide_verdict_cases as [Hi Hu]. split; [exact Hi|].
  split; [by rewrite <- has_conclusion_true|]. unfold decide_verdict. by case_match.
Qed.
End Verdict.
End Condition.
