(* ===== verification/Measure.v ===== *)
(** * Measurements under a deadline
      ([tuning_agent/src/kernel/evaluation/measurement.rs], and [EvaluationDeadline] of
       [protocol.rs])

    The evaluation budget on a monotonic clock, a measurement session (open,
    sample, close) and the aggregation of its samples.  A computation runs on
    [EvalSys]: the transaction behind the port, the world the providers act on,
    and the trace of clock readings and provider calls, newest first. *)

From S2P Require Export Contract.

Open Scope Z_scope.

(** ** The clock *)

(** [Instant::now] and [thread::sleep]; instants and durations in nanoseconds. *)
Class Clock (W : Type) := {
  instant_now : W → Z * W;
  thread_sleep : Z → W → W;
}.

Definition from_millis (ms : Z) : Z := ms * 10 ^ 6.
Definition as_millis (ns : Z) : Z := ns / 10 ^ 6.
(** [Instant::checked_add]: the seconds are an [i64]. *)
Definition instant_checked_add (instant duration : Z) : option Z :=
  if (instant + duration) / 10 ^ 9 <? 2 ^ 63 then Some (instant + duration) else None.
Definition saturating_duration_since (later earlier : Z) : Z := Z.max (later - earlier) 0.

Section Measure.
Context `{JD : JsonData, !Serialize MetricBatch, !Serialize CleanupReceipt}.
Context {P W : Type} `{!Clock W}.

(** ** State *)

Inductive EvalEvent :=
  | Ev_Now (t : Z)
  | Ev_Sleep (ns : Z)
  | Ev_Open (meta : CapabilityMeta) (request : MeasurementOpenRequest)
      (answer : option MeasurementSession)
  | Ev_Sample (meta : CapabilityMeta) (request : MeasurementSampleRequest)
  | Ev_Close (meta : CapabilityMeta) (session : MeasurementSession)
  | Ev_Compare (meta : CapabilityMeta) (request : ComparisonRequest)
  | Ev_RestoreBaseline (candidate : list ChangeId)
  | Ev_ReplayCandidate (candidate : list ChangeId).

Record EvalSys := MkEval { eval_port : P; eval_world : W; eval_trace : list EvalEvent }.

Abbreviation EvM := (M EvalSys EvaluationError).

Definition record_event (e : EvalEvent) (s : EvalSys) : EvalSys :=
  MkEval (eval_port s) (eval_world s) (e :: eval_trace s).

(** A provider call: it may change the world, and is recorded with its answer. *)
Definition call_provider {A} (call : W → result ProviderError A * W)
    (event : result ProviderError A → EvalEvent) : EvM (result ProviderError A) := λ s,
  let '(r, w) := call (eval_world s) in
  (Ret r, MkEval (eval_port s) w (event r :: eval_trace s)).

Definition ok {A} (r : result ProviderError A) : option A :=
  match r with Ok a => Some a | Err _ => None end.

Definition now : EvM Z := λ s,
  let '(t, w) := instant_now (eval_world s) in
  (Ret t, MkEval (eval_port s) w (Ev_Now t :: eval_trace s)).

Definition sleep (ns : Z) : EvM unit := λ s,
  (Ret tt, MkEval (eval_port s) (thread_sleep ns (eval_world s)) (Ev_Sleep ns :: eval_trace s)).

(** ** The deadline ([protocol.rs]) *)

Record EvaluationDeadline := MkDeadline { started_at : Z; expires_at : Z; timeout : Z }.

Definition budget_exceeded (message : string) : EvaluationError :=
  MkEvaluationError Ek_BudgetExceeded message.

Definition deadline_start (timeout : Z) : EvM EvaluationDeadline :=
  started_at ← now;
  match instant_checked_add started_at timeout with
  | Some expires_at => mret (MkDeadline started_at expires_at timeout)
  | None => throw (budget_exceeded
      "evaluation timeout cannot be represented by the monotonic clock")
  end.

Definition exceeded (d : EvaluationDeadline) (stage : string) : EvM EvaluationError :=
  t ← now;
  mret (budget_exceeded ("evaluation budget of " +:+ show (as_millis (timeout d))
    +:+ " ms was exceeded " +:+ stage +:+ " after "
    +:+ show (as_millis (saturating_duration_since t (started_at d))) +:+ " ms")).

Definition check (d : EvaluationDeadline) (stage : string) : EvM unit :=
  t ← now;
  if expires_at d <=? t then (error ← exceeded d stage; throw error) else mret tt.

Definition ensure_provider_call (d : EvaluationDeadline) (meta : CapabilityMeta) (stage : string)
    : EvM unit :=
  _ ← check d stage;
  t ← now;
  let remaining := saturating_duration_since (expires_at d) t in
  let declared_timeout := from_millis (timeout_ms (limits meta)) in
  if remaining <? declared_timeout then
    throw (budget_exceeded ("evaluation budget cannot admit " +:+ stage +:+ ": capability '"
      +:+ as_str (meta_id meta) +:+ "' declares a " +:+ show (timeout_ms (limits meta))
      +:+ " ms timeout but only " +:+ show (as_millis remaining) +:+ " ms remain"))
  else mret tt.

Definition settle (d : EvaluationDeadline) (duration : Z) (stage : string) : EvM unit :=
  _ ← check d stage;
  t ← now;
  let remaining := saturating_duration_since (expires_at d) t in
  if remaining <? duration then
    throw (budget_exceeded ("evaluation budget cannot admit " +:+ stage +:+ ": "
      +:+ show (as_millis duration) +:+ " ms are scheduled but only "
      +:+ show (as_millis remaining) +:+ " ms remain"))
  else
    _ ← (if duration =? 0 then mret tt else sleep duration);
    check d stage.

(** ** Aggregation of samples ([measurement.rs]) *)

Definition measurement_error (message : string) : EvaluationError :=
  MkEvaluationError Ek_Measurement message.

Definition worst_quality (current next : MetricQuality) : MetricQuality :=
  match current, next with
  | Invalid, _ | _, Invalid => Invalid
  | Partial, _ | _, Partial => Partial
  | _, _ => Valid
  end.

(** [numbers] and [booleans] after the loop of [aggregate_metric]. *)
Fixpoint collect_values (first : MetricValue) (metric : string) (samples : list MetricBatch)
    : option (list spec_float * list bool) :=
  match samples with
  | [] => Some ([], [])
  | sample :: samples =>
    value ← metrics sample !! metric;
    if bool_decide (metric_kind value ≠ metric_kind first)
       || bool_decide (metric_unit value ≠ metric_unit first) then None else
    match metric_kind value with
    | Gauge | Counter =>
      number ← as_f64 (metric_value value);
      '(numbers, booleans) ← collect_values first metric samples;
      Some (number :: numbers, booleans)
    | Boolean =>
      boolean ← as_bool (metric_value value);
      '(numbers, booleans) ← collect_values first metric samples;
      Some (numbers, boolean :: booleans)
    | Histogram => None
    end
  end.

(** The median; the indices are in range when there is a number. *)
Definition median (numbers : list spec_float) : spec_float :=
  let sorted := sort_by f64_total_le numbers in
  let middle := (length sorted / 2)%nat in
  if Nat.even (length sorted) then
    f64_div (f64_add (nth (middle - 1) sorted S754_nan) (nth middle sorted S754_nan)) f64_two
  else nth middle sorted S754_nan.

Definition aggregate_metric (samples : list MetricBatch) (metric : string) : option MetricValue :=
  sample ← head samples;
  first ← metrics sample !! metric;
  '(numbers, booleans) ← collect_values first metric samples;
  value ← match metric_kind first with
          | Gauge | Counter => Some (json_f64 (median numbers))
          | Boolean =>
            b ← head booleans;
            if forallb (Bool.eqb b) booleans then Some (json_bool b) else None
          | Histogram => None
          end;
  Some (MkMetricValue value (metric_unit first) (metric_kind first)).

(** [iter().min().unwrap_or_default()], [iter().max().unwrap_or_default()]. *)
Definition minimum (l : list Z) : Z := match l with [] => 0 | x :: l => foldl Z.min x l end.
Definition maximum (l : list Z) : Z := match l with [] => 0 | x :: l => foldl Z.max x l end.

Definition metric_names (samples : list MetricBatch) : list string :=
  sort_by String.leb (elements (⋃ ((λ s, dom (metrics s)) <$> samples) : gset string)).

(** The loop over the names: the metrics that aggregate, and the quality left. *)
Definition aggregate_step (samples : list MetricBatch)
    (acc : gmap string MetricValue * MetricQuality) (name : string)
    : gmap string MetricValue * MetricQuality :=
  match aggregate_metric samples name with
  | Some value => (<[name := value]> acc.1, acc.2)
  | None => (acc.1, worst_quality acc.2 Partial)
  end.

Definition aggregate_samples (samples : list MetricBatch) : result EvaluationError MetricBatch :=
  match samples with
  | [] => Err (measurement_error "measurement returned no samples")
  | [sample] => Ok sample
  | first :: _ =>
    let quality := foldl worst_quality Valid (quality <$> samples) in
    let '(aggregated, quality) :=
      foldl (aggregate_step samples) (∅, quality) (metric_names samples) in
    let first_fingerprint := workload_fingerprint first in
    let fingerprints_match :=
      forallb (λ s, bool_decide (workload_fingerprint s = first_fingerprint)) samples in
    Ok {| started_at_ns := minimum (started_at_ns <$> samples);
          ended_at_ns := maximum (ended_at_ns <$> samples);
          quality := if fingerprints_match then quality else worst_quality quality Partial;
          workload_fingerprint := if fingerprints_match then first_fingerprint else None;
          metrics := aggregated;
          provenance := json_object
            [("aggregation", json_string "median");
             ("sample_count", json_integer (Z.of_nat (length samples)));
             ("samples", json_array (provenance <$> samples))] |}
  end.

(** ** A measurement session ([measurement.rs]) *)

Record MeasurementEvidence := MkMeasurementEvidence {
  evidence_batch : MetricBatch;
  evidence_cleanup : CleanupReceipt;
  samples_collected : Z;
}.

Definition ensure_output_limit {A} `{!Serialize A} (meta : CapabilityMeta) (value : A)
    (label : string) : result EvaluationError unit :=
  encoded ← map_err (λ error, measurement_error ("failed to encode " +:+ label +:+ ": " +:+ error))
              (to_vec value);
  reject (max_output_bytes (limits meta) <? Z.of_nat (String.length encoded))
    (measurement_error ("measurement '" +:+ as_str (meta_id meta) +:+ "' " +:+ label
      +:+ " exceeded its " +:+ show (max_output_bytes (limits meta)) +:+ " byte output limit")).

Section Session.
Context (provider : MeasurementProvider W) (context : InvocationContext) (plan : SamplingPlan)
  (deadline : EvaluationDeadline).

(** One turn of the loop of [sample_session]; [index] counts from 0. *)
Definition sample_once (session : MeasurementSession) (index : Z) : EvM MetricBatch :=
  let n := show (index + 1) in
  let meta := measurement_meta provider in
  let request := MkSampleRequest context session in
  _ ← ensure_provider_call deadline meta ("before measurement sample " +:+ n);
  sampled ← call_provider (sample provider request) (λ _, Ev_Sample meta request);
  _ ← check deadline ("after measurement sample " +:+ n);
  batch ← lift (map_err (λ error, measurement_error ("measurement sample " +:+ n +:+ " failed: "
            +:+ ProviderError_display error)) sampled);
  _ ← lift (ensure_output_limit meta batch "measurement sample");
  _ ← lift (map_err (λ error, measurement_error ("measurement sample " +:+ n +:+ " is invalid: "
        +:+ error)) (MetricBatch_validate batch));
  _ ← (if (index + 1 <? sample_count plan) && (0 <? sample_interval_ms plan) then
         settle deadline (from_millis (sample_interval_ms plan))
           "while waiting between measurement samples"
       else mret tt);
  mret batch.

(** [for index in 0..plan.sample_count], from [index] on with [turns] turns left. *)
Fixpoint sample_loop (session : MeasurementSession) (turns : nat) (index : Z)
    : EvM (list MetricBatch) :=
  match turns with
  | O => mret []
  | S turns =>
    batch ← sample_once session index;
    batches ← sample_loop session turns (index + 1);
    mret (batch :: batches)
  end.

Definition sample_session (session : MeasurementSession) : EvM (list MetricBatch) :=
  sample_loop session (Z.to_nat (sample_count plan)) 0.

Definition cleanup_error (message : string) : EvaluationError :=
  MkEvaluationError Ek_Cleanup message.

(** The verdict on the cleanup receipt, before the other errors are looked at. *)
Definition settle_cleanup (binding : MeasurementBinding) (session : MeasurementSession)
    (samples : result EvaluationError (list MetricBatch))
    (cleanup : result ProviderError CleanupReceipt) : result EvaluationError CleanupReceipt :=
  let prefix := "measurement '" +:+ as_str (mb_capability_id binding) +:+ "' " in
  match cleanup with
  | Ok receipt =>
    if bool_decide (cleanup_session_id receipt ≠ session_id session) then
      Err (cleanup_error (prefix +:+ "returned cleanup receipt for session '"
        +:+ as_str (cleanup_session_id receipt) +:+ "', expected '"
        +:+ as_str (session_id session) +:+ "'"))
    else if cleaned_up receipt then
      _ ← ensure_output_limit (measurement_meta provider) receipt "cleanup receipt";
      Ok receipt
    else
      Err (cleanup_error (prefix +:+ "did not confirm cleanup for session '"
        +:+ as_str (cleanup_session_id receipt) +:+ "'"))
  | Err error =>
    let sample_context :=
      match samples with
      | Err sample_error =>
        "; sampling also failed: " +:+ evaluation_error_message sample_error
      | Ok _ => ""
      end in
    Err (cleanup_error (prefix +:+ "cleanup failed: " +:+ ProviderError_display error
      +:+ sample_context))
  end.

Definition collect_measurement (binding : MeasurementBinding) : EvM MeasurementEvidence :=
  let meta := measurement_meta provider in
  let request := MkOpenRequest context (mb_specification binding) in
  _ ← ensure_provider_call deadline meta "before measurement open";
  opened ← call_provider (open_session provider request) (λ r, Ev_Open meta request (ok r));
  open_budget ← attempt (check deadline "after measurement open");
  match opened with
  | Err error =>
    _ ← lift open_budget;
    throw (measurement_error ("measurement '" +:+ as_str (mb_capability_id binding)
      +:+ "' open failed: " +:+ ProviderError_display error))
  | Ok session =>
    samples ← match open_budget with
              | Ok _ => attempt (sample_session session)
              | Err error => mret (Err error)
              end;
    close_admission ← attempt (ensure_provider_call deadline meta "before measurement close");
    cleanup ← call_provider (close provider session) (λ _, Ev_Close meta session);
    close_budget ← attempt (check deadline "after measurement close");
    receipt ← lift (settle_cleanup binding session samples cleanup);
    _ ← lift close_admission;
    _ ← lift close_budget;
    batches ← lift samples;
    batch ← lift (aggregate_samples batches);
    mret (MkMeasurementEvidence batch receipt (sample_count plan))
  end.
End Session.
End Measure.
