(* ===== verification/Session.v ===== *)
(** * Measurement sessions, specified

    What [collect_measurement] does to the trace: a session that was opened is
    closed exactly once and last, and nothing but the close is started that does
    not fit the budget. *)

From S2P Require Export Measure.

Open Scope Z_scope.

Section Session.
Context `{JD : JsonData, !Serialize MetricBatch, !Serialize CleanupReceipt}.
Context {P W : Type} `{!Clock W}.
Implicit Types (s : EvalSys (P := P) (W := W)) (d : EvaluationDeadline).

(** ** Traces *)

(** Calls to providers and to the transaction, without the clock. *)
Definition is_call (e : EvalEvent) : bool :=
  match e with Ev_Now _ | Ev_Sleep _ => false | _ => true end.
(** The calls of a trace, oldest first. *)
Definition calls (tr : list EvalEvent) : list EvalEvent :=
  base.filter (λ e, is_call e = true) (reverse tr).

(** The time an admitted event may take, in nanoseconds. *)
Definition admitted_duration (e : EvalEvent) : option Z :=
  match e with
  | Ev_Open meta _ _ | Ev_Sample meta _ | Ev_Compare meta _ =>
    Some (from_millis (timeout_ms (limits meta)))
  | Ev_Sleep ns => Some ns
  | _ => None
  end.

(** Every such event directly follows a clock reading that leaves room for it. *)
Fixpoint within_budget (d : EvaluationDeadline) (tr : list EvalEvent) : Prop :=
  match tr with
  | [] => True
  | e :: older =>
    match admitted_duration e with
    | Some duration => ∃ t rest, older = Ev_Now t :: rest
        ∧ duration <= saturating_duration_since (expires_at d) t
    | None => True
    end ∧ within_budget d older
  end.

Lemma calls_app new old : calls (new ++ old) = calls old ++ calls new.
Proof. unfold calls. by rewrite reverse_app, filter_app. Qed.

Lemma calls_cons e old : calls (e :: old) = calls old ++ calls [e].
Proof. apply (calls_app [e] old). Qed.

Lemma within_budget_app d new old :
  within_budget d new → within_budget d old → within_budget d (new ++ old).
Proof.
  induction new as [|e new IH]; intros Hnew Hold; simpl; [done|].
  destruct Hnew as [He Hnew]. split; [|by apply IH].
  destruct (admitted_duration e) as [duration|]; [|done].
  destruct He as (t & rest & -> & ?). by exists t, (rest ++ old).
Qed.

(** ** A triple on traces

    [runs old m Q R]: on a system whose trace ends with [old], what [m] returns or
    throws satisfies [Q] or [R] together with the trace it leaves; the port is
    untouched and nothing panics. *)

Definition runs {A} (old : list EvalEvent) (m : M (EvalSys (P := P) (W := W)) EvaluationError A)
    (Q : A → list EvalEvent → Prop) (R : EvaluationError → list EvalEvent → Prop) : Prop :=
  ∀ s, wp m
    (λ a s', ∃ new, eval_trace s' = new ++ eval_trace s ∧ eval_port s' = eval_port s
       ∧ Q a (new ++ old))
    (λ e s', ∃ new, eval_trace s' = new ++ eval_trace s ∧ eval_port s' = eval_port s
       ∧ R e (new ++ old)) s.

Section Rules.
Context {A : Type} (old : list EvalEvent) (Q : A → list EvalEvent → Prop)
  (R : EvaluationError → list EvalEvent → Prop).

Lemma runs_ret (a : A) : Q a old → runs old (mret a) Q R.
Proof. intros HQ s. apply wp_ret. by exists []. Qed.

Lemma runs_throw e : R e old → runs old (throw e) Q R.
Proof. intros HR s. apply wp_throw. by exists []. Qed.

Lemma runs_lift (r : result EvaluationError A) :
  (∀ a, r = Ok a → Q a old) → (∀ e, r = Err e → R e old) → runs old (lift r) Q R.
Proof. intros HQ HR s. apply wp_lift; intros x Hx; exists []; naive_solver. Qed.

Lemma runs_bind {B} (m : M EvalSys EvaluationError B) (f : B → M EvalSys EvaluationError A)
    (Q1 : B → list EvalEvent → Prop) :
  runs old m Q1 R → (∀ b tr, Q1 b tr → runs tr (f b) Q R) → runs old (m ≫= f) Q R.
Proof.
  intros Hm Hf s. apply wp_bind. eapply wp_mono; [apply Hm| |done].
  intros b s1 (new & Ht & Hp & HQ). eapply wp_mono; [by eapply Hf| |];
    intros x s2 (new' & Ht' & Hp' & Hx); exists (new' ++ new);
    (split_and!; [by rewrite Ht', Ht, app_assoc|congruence|by rewrite <- app_assoc]).
Qed.

Lemma runs_lift_bind {B} (r : result EvaluationError B) (f : B → M EvalSys EvaluationError A) :
  (∀ e, r = Err e → R e old) → (∀ b, r = Ok b → runs old (f b) Q R) →
  runs old (lift r ≫= f) Q R.
Proof. intros HR Hf. destruct r as [b|e]; [by apply Hf|]. intros s. exists []. eauto. Qed.

Lemma runs_provider (call : W → result ProviderError A * W) event
    (Q' : result ProviderError A → list EvalEvent → Prop) :
  (∀ r, Q' r (event r :: old)) → runs old (call_provider call event) Q' R.
Proof.
  intros HQ s. unfold wp, call_provider. destruct (call (eval_world s)) as [r w].
  by exists [event r].
Qed.

(** A call whose answer does not depend on the world. *)
Lemma runs_provider_pure (r : result ProviderError A) event
    (Q' : result ProviderError A → list EvalEvent → Prop) :
  Q' r (event r :: old) → runs old (call_provider (λ w, (r, w)) event) Q' R.
Proof. intros HQ s. by exists [event r]. Qed.

Lemma runs_attempt (m : M EvalSys EvaluationError A)
    (Q' : result EvaluationError A → list EvalEvent → Prop) :
  runs old m (λ a, Q' (Ok a)) (λ e, Q' (Err e)) → runs old (attempt m) Q' R.
Proof. intros Hm s. apply wp_attempt. apply Hm. Qed.

Lemma runs_mono (m : M EvalSys EvaluationError A) Q' (R' : EvaluationError → list EvalEvent → Prop) :
  runs old m Q' R' → (∀ a tr, Q' a tr → Q a tr) → (∀ e tr, R' e tr → R e tr) → runs old m Q R.
Proof. intros Hm HQ HR s. eapply wp_mono; [apply Hm| |]; naive_solver. Qed.
End Rules.

Lemma runs_now old (Q : Z → list EvalEvent → Prop) R :
  (∀ t, Q t (Ev_Now t :: old)) → runs old now Q R.
Proof.
  intros HQ s. unfold wp, now. destruct (instant_now (eval_world s)) as [t w]. by exists [Ev_Now t].
Qed.

Section Budget.
Context (d : EvaluationDeadline).

(** [tr] adds nothing but clock events to [old]. *)
Definition idle (old tr : list EvalEvent) : Prop := calls tr = calls old ∧ within_budget d tr.

Lemma idle_refl old : within_budget d old → idle old old.
Proof. done. Qed.

Lemma idle_now old tr t : idle old tr → idle old (Ev_Now t :: tr).
Proof. intros [Hc Hb]. split; [by rewrite calls_cons, app_nil_r|done]. Qed.

Lemma idle_sleep old tr t ns :
  idle old (Ev_Now t :: tr) → ns <= saturating_duration_since (expires_at d) t →
  idle old (Ev_Sleep ns :: Ev_Now t :: tr).
Proof.
  intros [Hc Hb] Ht. split; [by rewrite calls_cons, app_nil_r|]. simpl. split; [by eauto|exact Hb].
Qed.

Lemma runs_check old tr stage : idle old tr → runs tr (check d stage) (λ _, idle old) (λ _, idle old).
Proof.
  intros Hi. eapply runs_bind; [apply (runs_now _ (λ _, idle old)); intros; by apply idle_now|].
  intros t tr1 Hi1. destruct (expires_at d <=? t); [|by apply runs_ret].
  eapply (runs_bind _ _ _ _ _ (λ _, idle old)); [|intros e tr2 Hi2; by apply runs_throw].
  eapply runs_bind; [apply (runs_now _ (λ _, idle old)); intros; by apply idle_now|].
  intros t' tr2 Hi2. by apply runs_ret.
Qed.

(** Admission ends with the reading that leaves room for the call. *)
Definition admits (duration : Z) (old tr : list EvalEvent) : Prop :=
  idle old tr ∧ ∃ t rest, tr = Ev_Now t :: rest
    ∧ duration <= saturating_duration_since (expires_at d) t.

Lemma runs_ensure_provider_call old tr meta stage :
  idle old tr →
  runs tr (ensure_provider_call d meta stage)
    (λ _, admits (from_millis (timeout_ms (limits meta))) old) (λ _, idle old).
Proof.
  intros Hi. eapply runs_bind; [by apply runs_check|]. intros [] tr1 Hi1.
  eapply runs_bind.
  { apply (runs_now _ (λ t tr2, idle old tr2 ∧ ∃ rest, tr2 = Ev_Now t :: rest)).
    intros t. split; [by apply idle_now|by eexists]. }
  intros t tr2 (Hi2 & rest & ->). cbv beta zeta.
  destruct (Z.ltb_spec (saturating_duration_since (expires_at d) t)
    (from_millis (timeout_ms (limits meta)))); [by apply runs_throw|].
  apply runs_ret. split; [done|]. eauto.
Qed.

Lemma runs_settle old tr duration stage :
  idle old tr → runs tr (settle d duration stage) (λ _, idle old) (λ _, idle old).
Proof.
  intros Hi. eapply runs_bind; [by apply runs_check|]. intros [] tr1 Hi1.
  eapply runs_bind.
  { apply (runs_now _ (λ t tr2, idle old tr2 ∧ ∃ rest, tr2 = Ev_Now t :: rest)).
    intros t. split; [by apply idle_now|by eexists]. }
  intros t tr2 (Hi2 & rest & ->). cbv beta zeta.
  destruct (Z.ltb_spec (saturating_duration_since (expires_at d) t) duration);
    [by apply runs_throw|].
  eapply (runs_bind _ _ _ _ _ (λ _, idle old)); [|intros [] tr3 Hi3; by apply runs_check].
  destruct (duration =? 0); [by apply runs_ret|]. intros s. exists [Ev_Sleep duration].
  split_and!; [done..|]. by apply idle_sleep.
Qed.

(** An admitted call extends the trace within the budget. *)
Lemma admits_event old tr e duration :
  admits duration old tr → admitted_duration e = Some duration →
  calls (e :: tr) = calls old ++ calls [e] ∧ within_budget d (e :: tr).
Proof.
  intros ([Hc Hb] & t & rest & -> & Ht) He. split; [by rewrite calls_cons, Hc|].
  cbn [within_budget]. rewrite He. split; [by eauto|exact Hb].
Qed.

(** ** Sessions *)

Context (provider : MeasurementProvider W) (context : InvocationContext) (plan : SamplingPlan).

Definition sample_event (session : MeasurementSession) : EvalEvent :=
  Ev_Sample (measurement_meta provider) (MkSampleRequest context session).

(** [tr] adds [n] samples to [old]. *)
Definition sampled (session : MeasurementSession) (n : nat) (old tr : list EvalEvent) : Prop :=
  calls tr = calls old ++ replicate n (sample_event session) ∧ within_budget d tr.

Lemma sampled_idle session n old tr tr' : sampled session n old tr → idle tr tr' → sampled session n old tr'.
Proof. intros [H1 H2] [H3 H4]. split; [by rewrite H3|done]. Qed.

Lemma sampled_trans session n1 n2 old tr tr' :
  sampled session n1 old tr → sampled session n2 tr tr' → sampled session (n1 + n2) old tr'.
Proof. intros [H1 H2] [H3 H4]. split; [by rewrite H3, H1, replicate_add, app_assoc|done]. Qed.

Definition sampled_at_most (n : nat) session old tr : Prop :=
  ∃ m, (m ≤ n)%nat ∧ sampled session m old tr.

Lemma idle_at_most n session old tr : idle old tr → sampled_at_most n session old tr.
Proof. intros [Hc Hb]. exists 0%nat. split; [lia|]. split; [by rewrite app_nil_r|done]. Qed.

Lemma runs_sample_once session index old :
  within_budget d old →
  runs old (sample_once provider context plan d session index)
    (λ batch tr, sampled session 1 old tr ∧ MetricBatch_validate batch = Ok tt)
    (λ _, sampled_at_most 1 session old).
Proof.
  intros Hb.
  eapply runs_bind; [eapply runs_mono; [by apply runs_ensure_provider_call, idle_refl|done|]|].
  { intros e tr Hi. by apply idle_at_most. }
  intros [] tr0 Hadm. simpl.
  eapply runs_bind; [apply (runs_provider _ _ _ _ (λ _, sampled session 1 old))|].
  { intros r. by apply (admits_event _ _ (sample_event session)) in Hadm. }
  intros r tr1 Hs. cbv beta in Hs.
  assert (∀ tr, idle tr1 tr → sampled_at_most 1 session old tr) as Hfail.
  { intros tr Hi. exists 1%nat. split; [done|]. by eapply sampled_idle. }
  destruct Hs as [Hc1 Hb1].
  eapply runs_bind; [eapply runs_mono; [by apply runs_check, idle_refl|done|by intros; apply Hfail]|].
  intros [] tr2 Hi2. apply runs_lift_bind; [by intros; apply Hfail|]. intros batch _.
  apply runs_lift_bind; [by intros; apply Hfail|]. intros [] _.
  apply runs_lift_bind; [by intros; apply Hfail|]. intros [] Hv%map_err_Ok.
  eapply (runs_bind _ _ _ _ _ (λ _, idle tr1)).
  - destruct (_ && _); [|by apply runs_ret].
    eapply runs_mono; [by apply runs_settle|done|by intros; apply Hfail].
  - intros [] tr3 Hi3. apply runs_ret. split; [|done]. by eapply sampled_idle.
Qed.

Lemma runs_sample_loop session n index old :
  within_budget d old →
  runs old (sample_loop provider context plan d session n index)
    (λ batches tr, sampled session n old tr ∧ length batches = n
       ∧ Forall (λ b, MetricBatch_validate b = Ok tt) batches)
    (λ _, sampled_at_most n session old).
Proof.
  revert index old. induction n as [|n IH]; intros index old Hb; simpl.
  - apply runs_ret. split_and!; [split; [by rewrite app_nil_r|done]|done|constructor].
  - eapply runs_bind; [eapply runs_mono; [by apply runs_sample_once|done|]|].
    { intros e tr (m & Hm & Hs). exists m. split; [lia|done]. }
    intros batch tr [Hs Hv]. pose proof Hs as [_ Hb1].
    eapply runs_bind; [eapply runs_mono; [by apply IH|done|]|].
    { intros e tr' (m & Hm & Hs'). exists (1 + m)%nat. split; [lia|]. by eapply sampled_trans. }
    intros batches tr' (Hs' & Hl & Hall). apply runs_ret. split_and!.
    + by apply (sampled_trans session 1 n old tr tr').
    + by rewrite <- Hl.
    + by constructor.
Qed.

(** The calls of a session that was opened: [n] samples, one close. *)
Definition session_calls (request : MeasurementOpenRequest) (session : MeasurementSession) (n : nat)
    : list EvalEvent :=
  Ev_Open (measurement_meta provider) request (Some session)
  :: replicate n (sample_event session) ++ [Ev_Close (measurement_meta provider) session].

(** A collection that succeeded: as many valid samples as planned, aggregated,
    and a confirmed cleanup of the session that was opened. *)
Definition collected (binding : MeasurementBinding) (old : list EvalEvent)
    (evidence : MeasurementEvidence) (tr : list EvalEvent) : Prop :=
  within_budget d tr ∧ ∃ session batches,
    calls tr = calls old ++ session_calls (MkOpenRequest context (mb_specification binding)) session
                 (Z.to_nat (sample_count plan))
    ∧ length batches = Z.to_nat (sample_count plan)
    ∧ Forall (λ b, MetricBatch_validate b = Ok tt) batches
    ∧ aggregate_samples batches = Ok (evidence_batch evidence)
    ∧ cleanup_session_id (evidence_cleanup evidence) = session_id session
    ∧ cleaned_up (evidence_cleanup evidence) = true.

(** A collection that failed: nothing was opened, or the session was closed. *)
Definition abandoned (binding : MeasurementBinding) (old tr : list EvalEvent) : Prop :=
  let request := MkOpenRequest context (mb_specification binding) in
  within_budget d tr
  ∧ (calls tr = calls old
     ∨ calls tr = calls old ++ [Ev_Open (measurement_meta provider) request None]
     ∨ ∃ session n, (n ≤ Z.to_nat (sample_count plan))%nat
         ∧ calls tr = calls old ++ session_calls request session n).

Lemma settle_cleanup_Ok binding session samples cleanup receipt :
  settle_cleanup provider binding session samples cleanup = Ok receipt →
  cleanup_session_id receipt = session_id session ∧ cleaned_up receipt = true.
Proof.
  unfold settle_cleanup. destruct cleanup as [r|e]; [|done].
  destruct (bool_decide_reflect (cleanup_session_id r ≠ session_id session)) as [|Hid%dec_stable]; [done|].
  destruct (cleaned_up r) eqn:Hc; [|done].
  intros [_ [= <-]]%reject_bind_Ok. done.
Qed.

(** The samples, and what they leave of the trace. *)
Definition sampling (session : MeasurementSession) (old : list EvalEvent)
    (samples : result EvaluationError (list MetricBatch)) (tr : list EvalEvent) : Prop :=
  match samples with
  | Ok batches => sampled session (Z.to_nat (sample_count plan)) old tr
      ∧ length batches = Z.to_nat (sample_count plan)
      ∧ Forall (λ b, MetricBatch_validate b = Ok tt) batches
  | Err _ => sampled_at_most (Z.to_nat (sample_count plan)) session old tr
  end.

Lemma sampling_idle session old samples tr tr' :
  sampling session old samples tr → idle tr tr' → sampling session old samples tr'.
Proof.
  destruct samples as [batches|]; simpl.
  - intros (Hs & ? & ?) Hi. split_and!; [by eapply sampled_idle|done..].
  - intros (m & Hm & Hs) Hi. exists m. split; [done|]. by eapply sampled_idle.
Qed.

Lemma sampling_budget session old samples tr : sampling session old samples tr → within_budget d tr.
Proof. destruct samples; simpl; [by intros ([] & _)|by intros (m & _ & [])]. Qed.

(** After the close, whatever is returned. *)
Lemma sampling_closed binding session old tr0 samples tr tr' :
  calls tr0 = calls old ++ [Ev_Open (measurement_meta provider)
    (MkOpenRequest context (mb_specification binding)) (Some session)] →
  sampling session tr0 samples tr →
  idle (Ev_Close (measurement_meta provider) session :: tr) tr' →
  abandoned binding old tr'.
Proof.
  intros H0 Hs [Hc Hb]. split; [done|]. right. right. exists session.
  assert (∃ n, (n ≤ Z.to_nat (sample_count plan))%nat ∧ sampled session n tr0 tr) as (n & Hn & [Hn' _]).
  { destruct samples; simpl in Hs; [destruct Hs as (Hs & _); by eauto|done]. }
  exists n. split; [done|]. rewrite Hc, calls_cons, Hn', H0. unfold session_calls.
  by rewrite <- !app_assoc.
Qed.

Lemma runs_collect binding old :
  within_budget d old →
  runs old (collect_measurement provider context plan d binding)
    (collected binding old) (λ _, abandoned binding old).
Proof.
  intros Hb. unfold collect_measurement.
  set (meta := measurement_meta provider). set (request := MkOpenRequest context _).
  eapply runs_bind; [eapply runs_mono; [by apply runs_ensure_provider_call, idle_refl|done|]|].
  { intros e tr [Hc Hb']. split; [done|by left]. }
  intros [] tr1 Hadm.
  eapply runs_bind; [apply (runs_provider _ _ _ _
    (λ r tr, calls tr = calls old ++ [Ev_Open meta request (ok r)] ∧ within_budget d tr))|].
  { intros r. by apply (admits_event _ _ (Ev_Open meta request (ok r))) in Hadm. }
  intros opened tr2 [Hc2 Hb2].
  eapply (runs_bind _ _ _ _ _ (λ _, idle tr2)); [by apply runs_attempt, runs_check, idle_refl|].
  intros open_budget tr3 [Hc3 Hb3]. destruct opened as [session|error]; simpl in Hc2.
  2:{ apply runs_lift_bind; [intros e _|intros _ _; apply runs_throw];
        (split; [done|]); right; left; by rewrite Hc3, Hc2. }
  eapply (runs_bind _ _ _ _ _ (sampling session tr3)).
  { destruct open_budget as [[]|error].
    - apply runs_attempt. eapply runs_mono; [by apply runs_sample_loop|done|done].
    - apply runs_ret. by apply idle_at_most. }
  intros samples tr4 Hs. pose proof (sampling_budget _ _ _ _ Hs) as Hb4.
  eapply (runs_bind _ _ _ _ _ (λ _, sampling session tr3 samples)).
  { apply runs_attempt. eapply runs_mono; [by apply runs_ensure_provider_call, idle_refl| |];
      [intros [] tr [Hi _]|intros e tr Hi]; by eapply sampling_idle. }
  intros close_admission tr5 Hs5. pose proof (sampling_budget _ _ _ _ Hs5) as Hb5.
  eapply runs_bind; [apply (runs_provider _ _ _ _ (λ _ tr, idle (Ev_Close meta session :: tr5) tr));
    intros r; by apply idle_refl|].
  intros cleanup tr6 Hi6.
  eapply (runs_bind _ _ _ _ _ (λ _, idle (Ev_Close meta session :: tr5)));
    [by apply runs_attempt, runs_check|].
  intros close_budget tr7 Hi7.
  assert (calls tr3 = calls old ++ [Ev_Open meta request (Some session)]) as H3 by by rewrite Hc3, Hc2.
  assert (abandoned binding old tr7) as Hab by by eapply sampling_closed.
  apply runs_lift_bind; [done|]. intros receipt [Hid Hcl]%settle_cleanup_Ok.
  apply runs_lift_bind; [done|]. intros [] _. apply runs_lift_bind; [done|]. intros [] _.
  apply runs_lift_bind; [done|]. intros batches ->.
  apply runs_lift_bind; [done|]. intros batch Hagg. apply runs_ret.
  destruct Hs5 as ([Hc5 _] & Hl & Hv). destruct Hi7 as [Hc7 Hb7].
  split; [done|]. exists session, batches. split_and!; try done.
  rewrite Hc7, calls_cons, Hc5, H3. unfold session_calls. by rewrite <- !app_assoc.
Qed.

(** C36. A measurement session that was opened is closed exactly once, after its
    last sample, whatever fails on the way; nothing is sampled from a session that
    was not opened; evidence is returned only for as many validated samples as the
    plan asks for and a confirmed cleanup of that very session; every open, sample
    and wait was started right after a clock reading that left room for it before
    the deadline; and the transaction is not touched. *)
Theorem sessions_are_closed_once binding s r s' :
  collect_measurement provider context plan d binding s = (r, s') →
  ∃ new, eval_trace s' = new ++ eval_trace s ∧ eval_port s' = eval_port s
    ∧ match r with
      | Ret evidence => collected binding [] evidence new
      | Throw _ => abandoned binding [] new
      | Panic => False
      end.
Proof.
  intros Hr. pose proof (runs_collect binding [] I s) as Hw. unfold wp in Hw. rewrite Hr in Hw.
  destruct r as [evidence|e|]; [| |done];
    destruct Hw as (new & Ht & Hp & Hx); rewrite app_nil_r in Hx; eauto.
Qed.
End Budget.
End Session.
