(* ===== verification/Aggregate.v ===== *)
(** * Aggregation of samples, specified

    [aggregate_samples] does not depend on the order the samples were taken in,
    and what it keeps is what all samples agree on. *)

From S2P Require Export Measure.

Open Scope Z_scope.

Section Aggregate.
Context `{JD : JsonData}.
Implicit Types (samples : list MetricBatch) (first : MetricValue) (metric : string).

(** ** One metric *)

(** [collect_values] looks only at the kind and the unit of the first value. *)
Lemma collect_values_first first first' metric samples :
  metric_kind first = metric_kind first' → metric_unit first = metric_unit first' →
  collect_values first metric samples = collect_values first' metric samples.
Proof.
  intros Hk Hu. induction samples as [|s samples IH]; simpl; [done|].
  destruct (metrics s !! metric) as [v|]; simpl; [|done]. by rewrite Hk, Hu, IH.
Qed.

Lemma collect_values_cons first metric s samples numbers booleans :
  collect_values first metric (s :: samples) = Some (numbers, booleans) ↔
  ∃ v numbers' booleans',
    metrics s !! metric = Some v ∧ metric_kind v = metric_kind first
    ∧ metric_unit v = metric_unit first
    ∧ collect_values first metric samples = Some (numbers', booleans')
    ∧ match metric_kind v with
      | Gauge | Counter => ∃ x, as_f64 (metric_value v) = Some x
          ∧ numbers = x :: numbers' ∧ booleans = booleans'
      | Boolean => ∃ b, as_bool (metric_value v) = Some b
          ∧ numbers = numbers' ∧ booleans = b :: booleans'
      | Histogram => False
      end.
Proof.
  simpl. destruct (metrics s !! metric) as [v|]; simpl; [|split; [done|by intros (? & ? & ? & ? & _)]].
  destruct (decide (metric_kind v = metric_kind first)) as [Hk|Hk];
    [rewrite (bool_decide_eq_false_2 (_ ≠ _)) by auto
    |rewrite bool_decide_eq_true_2 by done; split;
       [done|by intros (? & ? & ? & [= <-] & ? & _)]].
  destruct (decide (metric_unit v = metric_unit first)) as [Hu|Hu];
    [rewrite (bool_decide_eq_false_2 (_ ≠ _)) by auto
    |rewrite (bool_decide_eq_true_2 (metric_unit v ≠ _)) by done; split;
       [done|by intros (? & ? & ? & [= <-] & _ & ? & _)]].
  simpl. destruct (collect_values first metric samples) as [[ns bs]|]; simpl.
  2:{ split; [|by intros (? & ? & ? & _ & _ & _ & ? & _)].
      destruct (metric_kind v); [destruct (as_f64 _)|destruct (as_f64 _)|destruct (as_bool _)|]; done. }
  split.
  - intros H. exists v, ns, bs. split_and!; [done..|].
    destruct (metric_kind v); [destruct (as_f64 _) as [x|]|destruct (as_f64 _) as [x|]
      |destruct (as_bool _) as [x|]|]; try done; injection H as <- <-; by exists x.
  - intros (v' & ns' & bs' & [= <-] & _ & _ & [= <- <-] & H).
    destruct (metric_kind v); try done; by destruct H as (x & -> & -> & ->).
Qed.

Lemma collect_values_perm first metric l1 l2 numbers booleans :
  l1 ≡ₚ l2 → collect_values first metric l1 = Some (numbers, booleans) →
  ∃ numbers' booleans', collect_values first metric l2 = Some (numbers', booleans')
    ∧ numbers ≡ₚ numbers' ∧ booleans ≡ₚ booleans'.
Proof.
  intros Hp. revert numbers booleans. induction Hp as [|s l1 l2 Hp IH|s1 s2 l|l1 l2 l3 _ IH1 _ IH2];
    intros ns bs H.
  - eauto.
  - apply collect_values_cons in H as (v & ns1 & bs1 & Hv & Hk & Hu & H & Hx).
    apply IH in H as (ns2 & bs2 & H & Hns & Hbs).
    assert (∃ ns' bs', ns ≡ₚ ns' ∧ bs ≡ₚ bs' ∧
      match metric_kind v with
      | Gauge | Counter => ∃ x, as_f64 (metric_value v) = Some x ∧ ns' = x :: ns2 ∧ bs' = bs2
      | Boolean => ∃ b, as_bool (metric_value v) = Some b ∧ ns' = ns2 ∧ bs' = b :: bs2
      | Histogram => False
      end) as (ns' & bs' & ? & ? & Hx').
    { destruct (metric_kind v); [| | |done]; destruct Hx as (x & ? & -> & ->).
      - exists (x :: ns2), bs2. split_and!; [by constructor|done|eauto].
      - exists (x :: ns2), bs2. split_and!; [by constructor|done|eauto].
      - exists ns2, (x :: bs2). split_and!; [done|by constructor|eauto]. }
    exists ns', bs'. split; [|done]. apply collect_values_cons. eauto 10.
  - apply collect_values_cons in H as (v2 & ns1 & bs1 & Hv2 & Hk2 & Hu2 & H & Hx2).
    apply collect_values_cons in H as (v1 & ns0 & bs0 & Hv1 & Hk1 & Hu1 & H & Hx1).
    rewrite Hk2 in Hx2. rewrite Hk1 in Hx1.
    destruct (metric_kind first) eqn:Hk; [| | |done];
      destruct Hx2 as (x2 & E2 & -> & ->), Hx1 as (x1 & E1 & -> & ->).
    1,2: exists (x1 :: x2 :: ns0), bs0.
    3: exists ns0, (x1 :: x2 :: bs0).
    all: split; [|split; done || constructor].
    all: apply collect_values_cons; eexists v1, _, _; (split_and!; [done|by rewrite Hk|done| |]);
      [apply collect_values_cons; eexists v2, ns0, bs0; (split_and!; [done|by rewrite Hk|done..|]);
        rewrite Hk2; eauto
      |rewrite Hk1; eauto].
  - apply IH1 in H as (ns1 & bs1 & H & ? & ?). apply IH2 in H as (ns2 & bs2 & H & ? & ?).
    exists ns2, bs2. split; [done|]. split; by etrans.
Qed.

Lemma median_perm l1 l2 : l1 ≡ₚ l2 → median l1 = median l2.
Proof. intros Hp. unfold median. by rewrite (sort_floats_perm l1 l2 Hp). Qed.

(** All equal to the first: the same whatever comes first. *)
Lemma all_equal_perm (l1 l2 : list bool) b :
  l1 ≡ₚ l2 → head l1 = Some b → forallb (Bool.eqb b) l1 = true →
  head l2 = Some b ∧ forallb (Bool.eqb b) l2 = true.
Proof.
  intros Hp Hh Hall. assert (Forall (λ x, b = x) l2) as Hall2.
  { rewrite <- Hp. apply Forall_forall. intros x Hx. rewrite forallb_forall in Hall.
    apply Bool.eqb_prop, Hall. by apply list_elem_of_In. }
  split.
  - destruct l2 as [|x l2]; [|by inversion Hall2; subst].
    apply Permutation_nil_r in Hp. by subst.
  - apply forallb_forall. intros x Hx%list_elem_of_In. rewrite Forall_forall in Hall2.
    rewrite <- (Hall2 x Hx). apply Bool.eqb_reflx.
Qed.

(** The value two lists of readings agree on. *)
Definition agreed (first : MetricValue) (numbers : list spec_float) (booleans : list bool)
    : option Value :=
  match metric_kind first with
  | Gauge | Counter => Some (json_f64 (median numbers))
  | Boolean =>
    b ← head booleans; if forallb (Bool.eqb b) booleans then Some (json_bool b) else None
  | Histogram => None
  end.

Lemma aggregate_metric_Some samples metric v :
  aggregate_metric samples metric = Some v ↔
  ∃ s first numbers booleans value,
    head samples = Some s ∧ metrics s !! metric = Some first
    ∧ collect_values first metric samples = Some (numbers, booleans)
    ∧ agreed first numbers booleans = Some value
    ∧ v = MkMetricValue value (metric_unit first) (metric_kind first).
Proof.
  unfold aggregate_metric, agreed. rewrite bind_Some. split.
  - intros (s & Hs & (first & Hf & H)%bind_Some). apply bind_Some in H as ([ns bs] & Hc & H).
    apply bind_Some in H as (value & Hv & [= <-]). exists s, first, ns, bs, value. done.
  - intros (s & first & ns & bs & value & Hs & Hf & Hc & Hv & ->). exists s. split; [done|].
    rewrite Hf. simpl. rewrite Hc. simpl. rewrite Hv. done.
Qed.

Lemma agreed_perm first first' ns ns' bs bs' value :
  metric_kind first = metric_kind first' → ns ≡ₚ ns' → bs ≡ₚ bs' →
  agreed first ns bs = Some value → agreed first' ns' bs' = Some value.
Proof.
  unfold agreed. intros <- Hns Hbs. destruct (metric_kind first); [by rewrite (median_perm ns ns')..| |done].
  rewrite !bind_Some. intros (b & Hb & H). destruct (forallb (Bool.eqb b) bs) eqn:Hall; [|done].
  destruct (all_equal_perm bs bs' b Hbs Hb Hall) as [-> Hall']. exists b. by rewrite Hall'.
Qed.

Lemma aggregate_metric_perm_Some l1 l2 metric v :
  l1 ≡ₚ l2 → aggregate_metric l1 metric = Some v → aggregate_metric l2 metric = Some v.
Proof.
  rewrite !aggregate_metric_Some. intros Hp (s & first & ns & bs & value & Hs & Hf & Hc & Hv & ->).
  destruct (collect_values_perm _ _ _ _ _ _ Hp Hc) as (ns' & bs' & Hc' & Hns & Hbs).
  destruct l2 as [|s2 l2]; [apply Permutation_nil_r in Hp; by subst|].
  pose proof Hc' as (v2 & ? & ? & Hv2 & Hk & Hu & _)%collect_values_cons.
  exists s2, v2, ns', bs', value. split_and!; [done|done| | |by rewrite Hk, Hu].
  - by rewrite (collect_values_first v2 first).
  - by eapply agreed_perm.
Qed.

Lemma aggregate_metric_perm l1 l2 metric :
  l1 ≡ₚ l2 → aggregate_metric l1 metric = aggregate_metric l2 metric.
Proof.
  intros Hp. destruct (aggregate_metric l1 metric) as [v|] eqn:H1.
  - symmetry. by eapply aggregate_metric_perm_Some.
  - destruct (aggregate_metric l2 metric) as [v|] eqn:H2; [|done].
    by rewrite (aggregate_metric_perm_Some l2 l1 metric v) in H1.
Qed.

(** ** The batch *)

Lemma metric_names_perm l1 l2 : l1 ≡ₚ l2 → metric_names l1 = metric_names l2.
Proof.
  intros Hp. unfold metric_names. do 2 f_equal. apply set_eq. intros k.
  rewrite !elem_of_union_list. by setoid_rewrite Hp.
Qed.

Lemma elem_of_metric_names samples name :
  name ∈ metric_names samples ↔ ∃ s, s ∈ samples ∧ is_Some (metrics s !! name).
Proof.
  unfold metric_names. rewrite sort_by_perm, elem_of_elements, elem_of_union_list. split.
  - intros (X & (s & -> & Hs)%list_elem_of_fmap & Hn). exists s. by rewrite <- elem_of_dom.
  - intros (s & Hs & Hn%elem_of_dom). exists (dom (metrics s)). split; [|done].
    apply list_elem_of_fmap. by exists s.
Qed.

Lemma metric_names_NoDup samples : NoDup (metric_names samples).
Proof. unfold metric_names. rewrite sort_by_perm. apply NoDup_elements. Qed.

Lemma worst_quality_valid x y : worst_quality x y = Valid ↔ x = Valid ∧ y = Valid.
Proof. destruct x, y; simpl; intuition congruence. Qed.

Lemma worst_quality_comm x y z :
  worst_quality (worst_quality x y) z = worst_quality (worst_quality x z) y.
Proof. by destruct x, y, z. Qed.

(** A left fold of an operation whose steps commute. *)
Lemma foldl_perm {A B} (f : A → B → A) l1 l2 a :
  (∀ a x y, f (f a x) y = f (f a y) x) → l1 ≡ₚ l2 → foldl f a l1 = foldl f a l2.
Proof.
  intros Hf Hp. revert a. induction Hp as [|x l1 l2 _ IH|x y l|l1 l2 l3 _ IH1 _ IH2]; intros a; simpl.
  - done.
  - apply IH.
  - by rewrite Hf.
  - by rewrite IH1, IH2.
Qed.

Lemma foldl_worst_valid l q :
  foldl worst_quality q l = Valid ↔ q = Valid ∧ Forall (λ x, x = Valid) l.
Proof.
  revert q. induction l as [|x l IH]; intros q; simpl; [rewrite Forall_nil; tauto|].
  rewrite IH, worst_quality_valid, Forall_cons. tauto.
Qed.

(** An extremum of a list is one of its elements, beyond all others. *)
Lemma minimum_spec l : l ≠ [] → minimum l ∈ l ∧ ∀ z, z ∈ l → minimum l <= z.
Proof.
  destruct l as [|x l]; [done|]. intros _. simpl. revert x.
  induction l as [|y l IH]; intros x; simpl.
  - split; [set_solver|]. intros z ->%list_elem_of_singleton. lia.
  - destruct (IH (Z.min x y)) as [Hin Hle]. split.
    + apply elem_of_cons in Hin as [->|Hin]; [destruct (Z.min_spec x y) as [[_ ->]|[_ ->]]|]; set_solver.
    + intros z Hz. pose proof (Hle (Z.min x y) ltac:(set_solver)).
      apply elem_of_cons in Hz as [->|[->|Hz]%elem_of_cons]; [lia..|]. apply Hle. set_solver.
Qed.

Lemma maximum_spec l : l ≠ [] → maximum l ∈ l ∧ ∀ z, z ∈ l → z <= maximum l.
Proof.
  destruct l as [|x l]; [done|]. intros _. simpl. revert x.
  induction l as [|y l IH]; intros x; simpl.
  - split; [set_solver|]. intros z ->%list_elem_of_singleton. lia.
  - destruct (IH (Z.max x y)) as [Hin Hle]. split.
    + apply elem_of_cons in Hin as [->|Hin]; [destruct (Z.max_spec x y) as [[_ ->]|[_ ->]]|]; set_solver.
    + intros z Hz. pose proof (Hle (Z.max x y) ltac:(set_solver)).
      apply elem_of_cons in Hz as [->|[->|Hz]%elem_of_cons]; [lia..|]. apply Hle. set_solver.
Qed.

Lemma extrema_perm l1 l2 : l1 ≡ₚ l2 → minimum l1 = minimum l2 ∧ maximum l1 = maximum l2.
Proof.
  intros Hp. destruct (decide (l1 = [])) as [->|Hne]; [by apply Permutation_nil_l in Hp as ->|].
  assert (l2 ≠ []) as Hne2 by (intros ->; by apply Hne, Permutation_nil_r).
  destruct (minimum_spec l1 Hne) as [Hi1 Hm1], (minimum_spec l2 Hne2) as [Hi2 Hm2].
  destruct (maximum_spec l1 Hne) as [Ha1 Hx1], (maximum_spec l2 Hne2) as [Ha2 Hx2].
  assert (∀ z, z ∈ l1 ↔ z ∈ l2) as Hel by (intros z; by rewrite Hp).
  split; apply Z.le_antisymm; [by apply Hm1, Hel|by apply Hm2, Hel|by apply Hx2, Hel|by apply Hx1, Hel].
Qed.

(** The loop over the names. *)
Lemma aggregate_loop samples names m q :
  NoDup names → (∀ name, name ∈ names → m !! name = None) →
  let r := foldl (aggregate_step samples) (m, q) names in
  (∀ name, r.1 !! name
    = if bool_decide (name ∈ names) then aggregate_metric samples name else m !! name)
  ∧ (r.2 = Valid ↔ q = Valid ∧ ∀ name, name ∈ names → is_Some (aggregate_metric samples name)).
Proof.
  revert m q. induction names as [|n names IH]; intros m q Hnd Hm; simpl.
  { split; [done|]. set_solver. }
  apply NoDup_cons in Hnd as [Hn Hnd]. unfold aggregate_step at 2 4. simpl.
  destruct (aggregate_metric samples n) as [v|] eqn:Hv.
  - destruct (IH (<[n:=v]> m) q Hnd) as [H1 H2].
    { intros k Hk. rewrite lookup_insert_ne by (intros ->; done). apply Hm. set_solver. }
    split.
    + intros k. rewrite H1. destruct (decide (k = n)) as [->|Hkn].
      * rewrite bool_decide_eq_false_2, lookup_insert_eq, bool_decide_eq_true_2 by set_solver. done.
      * rewrite lookup_insert_ne by done. rewrite (bool_decide_ext (k ∈ n :: names) (k ∈ names)); [done|].
        set_solver.
    + rewrite H2. split; intros [-> Hall]; (split; [done|]); intros k Hk; [|set_solver].
      apply elem_of_cons in Hk as [->|Hk]; [by rewrite Hv|by apply Hall].
  - destruct (IH m (worst_quality q Partial) Hnd) as [H1 H2]; [set_solver|]. split.
    + intros k. rewrite H1. destruct (decide (k = n)) as [->|Hkn].
      * rewrite bool_decide_eq_false_2, bool_decide_eq_true_2, Hv, Hm by set_solver. done.
      * rewrite (bool_decide_ext (k ∈ n :: names) (k ∈ names)); [done|]. set_solver.
    + rewrite H2, worst_quality_valid. split; [by intros [[_ ?] _]|].
      intros [_ Hall]. destruct (Hall n) as [? Ha]; [set_solver|]. congruence.
Qed.

(** The quality before the fingerprints are compared. *)
Definition aggregated_quality (samples : list MetricBatch) : MetricQuality :=
  (foldl (aggregate_step samples) (∅, foldl worst_quality Valid (quality <$> samples))
     (metric_names samples)).2.

Definition same_fingerprint (f : option string) (samples : list MetricBatch) : Prop :=
  Forall (λ s, workload_fingerprint s = f) samples.

(** The batch of several samples. *)
Record aggregated (samples : list MetricBatch) (b : MetricBatch) : Prop := {
  aggregated_start : started_at_ns b = minimum (started_at_ns <$> samples);
  aggregated_end : ended_at_ns b = maximum (ended_at_ns <$> samples);
  aggregated_metrics name : metrics b !! name = aggregate_metric samples name;
  aggregated_fingerprint :
    (∃ f, same_fingerprint f samples ∧ workload_fingerprint b = f
       ∧ quality b = aggregated_quality samples)
    ∨ (¬ ∃ f, same_fingerprint f samples) ∧ workload_fingerprint b = None
       ∧ quality b = worst_quality (aggregated_quality samples) Partial;
}.

Lemma aggregate_several samples :
  2 <= Z.of_nat (length samples) → ∃ b, aggregate_samples samples = Ok b ∧ aggregated samples b.
Proof.
  intros Hlen. destruct samples as [|s1 [|s2 l]]; simpl in Hlen; [lia|lia|].
  unfold aggregate_samples. set (samples := s1 :: s2 :: l) in *.
  set (q0 := foldl worst_quality Valid (quality <$> samples)).
  pose proof (aggregate_loop samples (metric_names samples) ∅ q0 (metric_names_NoDup samples)
    (λ name _, lookup_empty name)) as [Hm _].
  assert (aggregated_quality samples
    = (foldl (aggregate_step samples) (∅, q0) (metric_names samples)).2) as Hq by done.
  destruct (foldl (aggregate_step samples) (∅, q0) (metric_names samples)) as [m q].
  simpl in Hm, Hq. eexists. split; [done|].
  split; cbn [started_at_ns ended_at_ns quality workload_fingerprint metrics]; [done|done| |].
  - intros name. rewrite Hm. case_bool_decide as Hn; [done|]. rewrite lookup_empty. symmetry.
    destruct (aggregate_metric samples name) as [v|] eqn:Hv; [|done].
    apply aggregate_metric_Some in Hv as (s & first & _ & _ & _ & Hs & Hf & _).
    exfalso. apply Hn, elem_of_metric_names. exists s. split; [|by eexists].
    simpl in Hs. injection Hs as <-. unfold samples. set_solver.
  - assert (forallb (λ s, bool_decide (workload_fingerprint s = workload_fingerprint s1)) samples = true
      ↔ same_fingerprint (workload_fingerprint s1) samples) as Hf.
    { unfold same_fingerprint. rewrite Forall_forall, forallb_forall.
      split; intros H x Hx.
      - eapply bool_decide_eq_true, H. by apply list_elem_of_In.
      - apply bool_decide_eq_true, H. by apply list_elem_of_In. }
    destruct (forallb _ samples).
    + left. exists (workload_fingerprint s1). split; [by apply Hf|]. by rewrite Hq.
    + right. split; [|by rewrite Hq]. intros (f & Hall).
      pose proof Hall as [<- _]%Forall_cons. by apply Hf in Hall.
Qed.

Lemma aggregated_quality_perm l1 l2 : l1 ≡ₚ l2 → aggregated_quality l1 = aggregated_quality l2.
Proof.
  intros Hp. unfold aggregated_quality. rewrite (metric_names_perm l1 l2 Hp).
  rewrite (foldl_perm worst_quality (quality <$> l1) (quality <$> l2))
    by (apply worst_quality_comm || by rewrite Hp).
  generalize (∅ : gmap string MetricValue, foldl worst_quality Valid (quality <$> l2)) as acc.
  induction (metric_names l2) as [|n names IH]; intros acc; simpl; [done|].
  rewrite IH. unfold aggregate_step at 2 4. by rewrite (aggregate_metric_perm l1 l2 n Hp).
Qed.

Lemma same_fingerprint_perm f l1 l2 : l1 ≡ₚ l2 → same_fingerprint f l1 ↔ same_fingerprint f l2.
Proof. intros Hp. unfold same_fingerprint. by rewrite Hp. Qed.

Lemma aggregated_perm l1 l2 b : l1 ≡ₚ l2 → aggregated l1 b → aggregated l2 b.
Proof.
  intros Hp [Hs He Hm Hf].
  destruct (extrema_perm (started_at_ns <$> l1) (started_at_ns <$> l2)) as [E1 _]; [by rewrite Hp|].
  destruct (extrema_perm (ended_at_ns <$> l1) (ended_at_ns <$> l2)) as [_ E2]; [by rewrite Hp|].
  split; [by rewrite Hs|by rewrite He| |].
  - intros name. by rewrite Hm, (aggregate_metric_perm l1 l2).
  - rewrite <- (aggregated_quality_perm l1 l2 Hp).
    setoid_rewrite <- (same_fingerprint_perm _ l1 l2 Hp). done.
Qed.

(** The batch is determined, its provenance apart. *)
Lemma aggregated_unique samples b1 b2 :
  samples ≠ [] → aggregated samples b1 → aggregated samples b2 →
  started_at_ns b2 = started_at_ns b1 ∧ ended_at_ns b2 = ended_at_ns b1
  ∧ quality b2 = quality b1 ∧ workload_fingerprint b2 = workload_fingerprint b1
  ∧ metrics b2 = metrics b1.
Proof.
  intros Hne [Hs1 He1 Hm1 Hf1] [Hs2 He2 Hm2 Hf2].
  assert (∀ f f', same_fingerprint f samples → same_fingerprint f' samples → f = f') as Hu.
  { intros f f' H H'. destruct samples; [done|]. inversion H. inversion H'. congruence. }
  split_and!; [congruence|congruence| | |by apply map_eq; intros; rewrite Hm1, Hm2].
  - destruct Hf1 as [(f & ? & _ & ->)|(? & _ & ->)], Hf2 as [(f' & ? & _ & ->)|(? & _ & ->)];
      try done; exfalso; eauto.
  - destruct Hf1 as [(f & ? & -> & _)|(? & -> & _)], Hf2 as [(f' & ? & -> & _)|(? & -> & _)];
      try done; [by apply Hu|exfalso; eauto..].
Qed.

Lemma aggregated_valid samples b :
  aggregated samples b →
  quality b = Valid ↔
    Forall (λ s, quality s = Valid) samples
    ∧ (∀ s name, s ∈ samples → is_Some (metrics s !! name) → is_Some (metrics b !! name))
    ∧ ∃ f, same_fingerprint f samples.
Proof.
  intros [_ _ Hm Hf].
  assert (aggregated_quality samples = Valid ↔ Forall (λ s, quality s = Valid) samples
    ∧ (∀ s name, s ∈ samples → is_Some (metrics s !! name) → is_Some (metrics b !! name))) as Hq.
  { unfold aggregated_quality.
    pose proof (aggregate_loop samples (metric_names samples) ∅
      (foldl worst_quality Valid (quality <$> samples)) (metric_names_NoDup samples)
      (λ name _, lookup_empty name)) as [_ H].
    simpl in H. rewrite H, foldl_worst_valid, Forall_fmap. setoid_rewrite elem_of_metric_names.
    setoid_rewrite Hm. split.
    - intros [[_ Hv] Ha]. split; [done|]. intros s name Hs Hn. apply Ha. eauto.
    - intros [Hv Ha]. split; [done|]. intros name (s & Hs & Hn). eauto. }
  destruct Hf as [(f & Hf & _ & ->)|(Hf & _ & ->)].
  - rewrite Hq. split; [intros []; eauto|by intros (? & ? & _)].
  - rewrite worst_quality_valid. split; [by intros [_ ?]|by intros (_ & _ & ?)].
Qed.

(** What the aggregation of several samples says does not depend on the order
    they were taken in, their provenance apart: the interval covers all of them,
    each metric is aggregated on its own, and the result is valid only when every
    sample is, every metric of any sample aggregates, and all carry the same
    fingerprint. *)
Theorem aggregation_ignores_sample_order l1 l2 b1 :
  l1 ≡ₚ l2 → (2 <= Z.of_nat (length l1)) → aggregate_samples l1 = Ok b1 →
  (∃ b2, aggregate_samples l2 = Ok b2
    ∧ started_at_ns b2 = started_at_ns b1 ∧ ended_at_ns b2 = ended_at_ns b1
    ∧ quality b2 = quality b1 ∧ workload_fingerprint b2 = workload_fingerprint b1
    ∧ metrics b2 = metrics b1)
  ∧ (∀ s, s ∈ l1 → started_at_ns b1 <= started_at_ns s ∧ ended_at_ns s <= ended_at_ns b1)
  ∧ (∀ name, metrics b1 !! name = aggregate_metric l1 name)
  ∧ (quality b1 = Valid ↔
      Forall (λ s, quality s = Valid) l1
      ∧ (∀ s name, s ∈ l1 → is_Some (metrics s !! name) → is_Some (metrics b1 !! name))
      ∧ ∃ f, same_fingerprint f l1).
Proof.
  intros Hp Hlen Hb1.
  destruct (aggregate_several l1 Hlen) as (b & Hb & H1). rewrite Hb in Hb1. injection Hb1 as <-.
  destruct (aggregate_several l2) as (b2 & Hb2 & H2); [by rewrite <- Hp|].
  assert (l1 ≠ []) as Hne by (by intros ->).
  split_and!; [|destruct H1 as [Hs He _ _]|apply H1|by apply aggregated_valid].
  - exists b2. split; [done|]. apply (aggregated_unique l1 b b2 Hne H1).
    by apply (aggregated_perm l2 l1).
  - intros s Hin. rewrite Hs, He.
    destruct (minimum_spec (started_at_ns <$> l1)) as [_ Hmin]; [by destruct l1|].
    destruct (maximum_spec (ended_at_ns <$> l1)) as [_ Hmax]; [by destruct l1|].
    split; [apply Hmin|apply Hmax]; apply list_elem_of_fmap; by exists s.
Qed.
End Aggregate.
