(* ===== verification/Filename.v ===== *)
(** * Names of log files ([tuning_agent/src/kernel/transaction/store.rs], 845-910)

    A transaction id is written into the name of its log in lowercase
    hexadecimal.  The store relies on this being a bijection between the ids it
    accepts and the names it recognises: [transaction_id_from_filename_Ok]. *)

From S2P Require Export Wal.

Definition FILE_PREFIX : string := "tx-".
Definition FILE_SUFFIX : string := ".jsonl".
Definition MAX_ENCODED_ID_BYTES : nat := 120.

Section Filename.
Context `{J : Json}.

(** [DIGITS[n]]; the callers pass the two halves of a byte. *)
Definition hex_of (n : N) : ascii :=
  match String.get (N.to_nat n) "0123456789abcdef" with Some c => c | None => "000"%char end.

Fixpoint encode_hex (bytes : string) : string :=
  match bytes with
  | EmptyString => ""
  | String byte bytes =>
    let n := N_of_ascii byte in
    String (hex_of (N.shiftr n 4)) (String (hex_of (N.land n 15)) (encode_hex bytes))
  end.

Definition hex_digit (value : ascii) : result WalError N :=
  let n := N_of_ascii value in
  if byte_in 48 57 value then Ok (n - 48)%N
  else if byte_in 97 102 value then Ok (n - 97 + 10)%N
  else Err (MkWalError "transaction WAL filename must use lowercase hex").

(** [chunks_exact(2)] of the encoded bytes, each pair decoded. *)
Fixpoint decode_pairs (encoded : string) : result WalError string :=
  match encoded with
  | String a (String b rest) =>
    high ← hex_digit a;
    low ← hex_digit b;
    bytes ← decode_pairs rest;
    Ok (String (ascii_of_N (N.lor (N.shiftl high 4) low)) bytes)
  | _ => Ok ""
  end.

Definition decode_hex (encoded : string) : result WalError string :=
  if (String.length encoded =? 0) || negb (Nat.even (String.length encoded)) then
    Err (MkWalError "transaction WAL filename has invalid hex encoding")
  else decode_pairs encoded.

Definition filename_for (id : TransactionId) : result WalError string :=
  if MAX_ENCODED_ID_BYTES <? String.length (as_str id) then
    Err (MkWalError ("transaction id exceeds store filename limit of "
                     +:+ show (Z.of_nat MAX_ENCODED_ID_BYTES) +:+ " bytes"))
  else Ok (FILE_PREFIX +:+ encode_hex (as_str id) +:+ FILE_SUFFIX).

(** [transaction_id_from_path], of the last component of the path. *)
Definition transaction_id_from_filename (filename : string) : result WalError TransactionId :=
  _ ← reject (negb (is_utf8 filename))
        (MkWalError "transaction WAL filename is not valid UTF-8");
  encoded ← ok_or (MkWalError "transaction WAL filename has an invalid shape")
              (strip_prefix FILE_PREFIX filename ≫= strip_suffix FILE_SUFFIX);
  bytes ← decode_hex encoded;
  _ ← match utf8_error 0 bytes with
      | Some error =>
        Err (MkWalError ("transaction filename is not UTF-8: " +:+ Utf8Error_display error))
      | None => Ok tt
      end;
  transaction_id ←
    map_err (λ error, MkWalError ("invalid transaction id in filename: " +:+ error))
      (string_id_new N_Transaction bytes);
  canonical ← filename_for transaction_id;
  _ ← reject (bool_decide (canonical ≠ filename))
        (MkWalError "transaction WAL filename is not canonical");
  Ok transaction_id.

(** ** The hexadecimal codec *)

Lemma hex_digit_encode byte :
  let n := N_of_ascii byte in
  hex_digit (hex_of (N.shiftr n 4)) = Ok (N.shiftr n 4)
  ∧ hex_digit (hex_of (N.land n 15)) = Ok (N.land n 15)
  ∧ ascii_of_N (N.lor (N.shiftl (N.shiftr n 4) 4) (N.land n 15)) = byte.
Proof. destruct byte as [[] [] [] [] [] [] [] []]; vm_compute; repeat split. Qed.

Lemma hex_digit_decode a b h l :
  hex_digit a = Ok h → hex_digit b = Ok l →
  let n := N_of_ascii (ascii_of_N (N.lor (N.shiftl h 4) l)) in
  hex_of (N.shiftr n 4) = a ∧ hex_of (N.land n 15) = b.
Proof.
  assert (∀ a h, hex_digit a = Ok h → (h < 16)%N ∧ hex_of h = a) as Hd.
  { clear. intros [[] [] [] [] [] [] [] []] h; vm_compute; try done; by intros [= <-]. }
  intros [Hh <-]%Hd [Hl <-]%Hd n. subst n.
  set (pair := λ h l, N_of_ascii (ascii_of_N (N.lor (N.shiftl h 4) l))).
  assert (forallb (λ h, forallb (λ l,
      (N.shiftr (pair h l) 4 =? h)%N && (N.land (pair h l) 15 =? l)%N)
      (N.of_nat <$> seq 0 16)) (N.of_nat <$> seq 0 16) = true) as Hall by (vm_compute; done).
  assert (∀ n, (n < 16)%N → In n (N.of_nat <$> seq 0 16)) as Hin.
  { clear. intros n Hn. apply list_elem_of_In, list_elem_of_fmap. exists (N.to_nat n).
    rewrite N2Nat.id, elem_of_seq. split; [done|lia]. }
  rewrite forallb_forall in Hall. specialize (Hall h (Hin h Hh)).
  rewrite forallb_forall in Hall. specialize (Hall l (Hin l Hl)).
  apply andb_true_iff in Hall as [H1 H2]. apply N.eqb_eq in H1, H2. fold (pair h l).
  by rewrite H1, H2.
Qed.

Lemma encode_hex_length s : String.length (encode_hex s) = 2 * String.length s.
Proof. induction s as [|a s IH]; simpl; [done|]. rewrite IH. lia. Qed.

Lemma decode_pairs_encode s : decode_pairs (encode_hex s) = Ok s.
Proof.
  induction s as [|a s IH]; [done|]. cbn [encode_hex decode_pairs].
  destruct (hex_digit_encode a) as (H1 & H2 & H3). rewrite H1. simpl. rewrite H2. simpl.
  rewrite IH. simpl. by rewrite H3.
Qed.

Lemma decode_encode_hex s : s ≠ "" → decode_hex (encode_hex s) = Ok s.
Proof.
  intros Hs. unfold decode_hex. rewrite encode_hex_length.
  assert (Nat.even (2 * String.length s) = true) as ->.
  { apply Nat.even_spec. by exists (String.length s). }
  destruct s as [|a s]; [done|]. apply decode_pairs_encode.
Qed.

Lemma encode_decode_pairs s bytes :
  decode_pairs s = Ok bytes → Nat.even (String.length s) = true → encode_hex bytes = s.
Proof.
  remember (String.length s) as n eqn:Hn. revert s bytes Hn.
  induction n as [n IH] using lt_wf_ind. intros [|a [|b s]] bytes -> Hd Hev.
  - by injection Hd as <-.
  - done.
  - cbn [decode_pairs] in Hd. apply result_bind_Ok in Hd as (h & Hh & Hd).
    apply result_bind_Ok in Hd as (l & Hl & Hd). apply result_bind_Ok in Hd as (bs & Hbs & Hd).
    injection Hd as <-. cbn [encode_hex].
    destruct (hex_digit_decode _ _ _ _ Hh Hl) as [-> ->]. do 2 f_equal.
    eapply IH; [|done|done|done]. simpl. lia.
Qed.

Lemma encode_decode_hex s bytes : decode_hex s = Ok bytes → encode_hex bytes = s ∧ bytes ≠ "".
Proof.
  unfold decode_hex. destruct (Nat.eqb_spec (String.length s) 0) as [|Hl]; [done|].
  destruct (Nat.even (String.length s)) eqn:Hev; [|done]. simpl. intros Hd.
  pose proof (encode_decode_pairs _ _ Hd Hev) as He. split; [done|]. intros ->.
  rewrite <- He in Hl. done.
Qed.

Lemma encode_hex_inj s t : encode_hex s = encode_hex t → s = t.
Proof.
  intros H. assert (decode_pairs (encode_hex s) = decode_pairs (encode_hex t)) as Hd by (by rewrite H).
  rewrite !decode_pairs_encode in Hd. by injection Hd.
Qed.

(** ** The shape of a file name *)

Lemma encode_hex_chars s :
  Forall (λ a, byte_in 48 57 a = true ∨ byte_in 97 102 a = true)
    (String.list_ascii_of_string (encode_hex s)).
Proof.
  induction s as [|a s IH]; simpl; [constructor|].
  assert (∀ n, (byte_in 48 57 (hex_of (N.shiftr (N_of_ascii n) 4)) = true
            ∨ byte_in 97 102 (hex_of (N.shiftr (N_of_ascii n) 4)) = true)
          ∧ (byte_in 48 57 (hex_of (N.land (N_of_ascii n) 15)) = true
            ∨ byte_in 97 102 (hex_of (N.land (N_of_ascii n) 15)) = true)) as H.
  { clear. intros [[] [] [] [] [] [] [] []]; vm_compute; auto. }
  destruct (H a). constructor; [done|]. by constructor.
Qed.

Lemma utf8_ascii s i :
  Forall (λ a, (N_of_ascii a < 128)%N) (String.list_ascii_of_string s) → utf8_error i s = None.
Proof.
  revert i. induction s as [|a s IH]; intros i; simpl; [done|]. rewrite Forall_cons.
  intros [Ha Hs]. apply N.ltb_lt in Ha. rewrite Ha. by apply IH.
Qed.

Lemma filename_utf8 s : is_utf8 (FILE_PREFIX +:+ encode_hex s +:+ FILE_SUFFIX) = true.
Proof.
  unfold is_utf8. rewrite utf8_ascii; [done|].
  rewrite !string_ascii_app, !Forall_app. split_and!; [by repeat constructor| |by repeat constructor].
  eapply Forall_impl; [apply encode_hex_chars|]. unfold byte_in. intros a [Ha|Ha]; simpl in *;
    apply andb_true_iff in Ha as [_ Ha%N.leb_le]; lia.
Qed.

Lemma split_last_dot_suffix s : split_last_dot (s +:+ FILE_SUFFIX) = Some (s, "jsonl").
Proof. induction s as [|a s IH]; [done|]. rewrite string_app_cons. cbn [split_last_dot]. by rewrite IH. Qed.

Lemma filename_extension s :
  extension (FILE_PREFIX +:+ encode_hex s +:+ FILE_SUFFIX) = Some "jsonl".
Proof. unfold extension. by rewrite string_app_assoc, split_last_dot_suffix. Qed.

Lemma filename_for_Ok id name :
  filename_for id = Ok name ↔
  String.length (as_str id) ≤ MAX_ENCODED_ID_BYTES
  ∧ name = FILE_PREFIX +:+ encode_hex (as_str id) +:+ FILE_SUFFIX.
Proof. unfold filename_for. destruct (Nat.ltb_spec MAX_ENCODED_ID_BYTES (String.length (as_str id))); naive_solver lia. Qed.

Lemma string_id_new_Ok n s (id : string_id n) :
  string_id_new n s = Ok id ↔ validate_identifier (label n) s 256 = Ok tt ∧ id = StringId s.
Proof. unfold string_id_new. rewrite reject_bind_Ok. naive_solver. Qed.

(** The names the store recognises are exactly the names it gives. *)
Lemma transaction_id_from_filename_Ok name id :
  transaction_id_from_filename name = Ok id ↔
  filename_for id = Ok name ∧ is_utf8 (as_str id) = true
  ∧ string_id_new N_Transaction (as_str id) = Ok id.
Proof.
  unfold transaction_id_from_filename, is_utf8 at 2. split.
  - rewrite reject_bind_Ok, ok_or_bind_Ok. intros (_ & encoded & _ & H).
    apply result_bind_Ok in H as (bytes & _ & H). apply reject_bind_Ok in H as [Hu H].
    apply result_bind_Ok in H as (id' & Hid & H). apply map_err_Ok in Hid.
    apply result_bind_Ok in H as (c & Hc & H). apply reject_bind_Ok in H as [Hr H].
    injection H as ->. apply reject_Ok, bool_decide_eq_false, dec_stable in Hr as ->.
    assert (as_str id = bytes) as Hb by (by apply string_id_new_Ok in Hid as [_ ->]).
    rewrite Hb. split_and!; [done| |done]. by destruct (utf8_error 0 bytes).
  - intros (Hf & Hu & Hid). pose proof Hf as Hf'. apply filename_for_Ok in Hf' as [_ ->].
    assert (as_str id ≠ "") as Hne.
    { intros He. rewrite He in Hid. done. }
    rewrite filename_utf8. simpl negb. rewrite reject_bind_Ok. split; [done|].
    rewrite ok_or_bind_Ok. exists (encode_hex (as_str id)). split.
    { rewrite (proj2 (strip_prefix_Some _ _ _) eq_refl). simpl. by apply strip_suffix_Some. }
    rewrite decode_encode_hex by done. simpl. destruct (utf8_error 0 (as_str id)); [done|].
    simpl. rewrite Hid. simpl. rewrite Hf. simpl.
    rewrite reject_bind_Ok, reject_Ok, bool_decide_eq_false. naive_solver.
Qed.
End Filename.

Section Names.
Context `{J : Json}.

(** Log names identify transactions.  The name of an id the store accepts is
    read back as that id, ends in [.jsonl] and has at most 249 bytes, whatever
    the characters of the id, and no other name is read as the same id. *)
Theorem log_names_round_trip (id : TransactionId) name :
  is_utf8 (as_str id) = true → string_id_new N_Transaction (as_str id) = Ok id →
  filename_for id = Ok name →
  transaction_id_from_filename name = Ok id
  ∧ extension name = Some "jsonl" ∧ String.length name ≤ 249
  ∧ ∀ name', transaction_id_from_filename name' = Ok id → name' = name.
Proof.
  intros Hu Hid Hf. pose proof Hf as Hf'. apply filename_for_Ok in Hf' as [Hlen Hn]. split_and!.
  - by apply transaction_id_from_filename_Ok.
  - rewrite Hn. apply filename_extension.
  - rewrite Hn, !string_length_app, encode_hex_length. simpl. unfold MAX_ENCODED_ID_BYTES in Hlen. lia.
  - intros name' [Hf2 _]%transaction_id_from_filename_Ok. congruence.
Qed.

Lemma log_names_round_trip_witness :
  filename_for (StringId "tx/é") = Ok "tx-74782fc3a9.jsonl"
  ∧ transaction_id_from_filename "tx-74782fc3a9.jsonl" = Ok (StringId "tx/é").
Proof.
  split; [vm_compute; reflexivity|].
  apply (log_names_round_trip (StringId "tx/é") "tx-74782fc3a9.jsonl"); vm_compute; reflexivity.
Defined.
End Names.
