(* ===== verification/Kernel.v ===== *)
(** * The transaction kernel ([tuning_agent/src/kernel/transaction/kernel.rs])

    [TransactionKernel] and its operations: experiments on a resource with
    write-ahead intents, restoring the baseline, replaying a candidate, the
    two-phase finalize, rollback, and the log appends behind them.  A method
    runs on [Sys]: the kernel, the world its drivers act on, and the trace of the
    effects it had outside the process, newest first. *)

From S2P Require Export Capability Wal.

Inductive ExpectedState := Expect_Baseline | Expect_Desired.

Section Kernel.
Context `{J : Json, !Serialize Value, !Serialize (list ChangeId), !Sha256}.
Context {W T : Type} `{!TransactionWal T}.

(** ** State *)

Record TransactionKernel := MkKernel {
  transaction_id : TransactionId;
  intent_pin : EvaluationIntentPin;
  capabilities : CapabilitySnapshot W;
  wal : T;
  changes : gmap ChangeId ChangeRecord;
  resource_heads : gmap ResourceKey ChangeId;
  change_order : list ChangeId;
  next_sequence : Z;
  operation_counter : Z;
  active_candidate : option Candidate;
  commit_authorization : option CommitAuthorization;
  sealed : option TransactionSeal;
}.

(** Effects outside the process: an entry made durable, a driver call that may
    act on the tuned system, a readback with whether it matched. *)
Inductive Effect :=
  | Ev_Durable (entry : WalEntry)
  | Ev_Verify (request : MutationVerifyRequest) (matched : bool)
  | Ev_Apply (request : MutationApplyRequest)
  | Ev_Restore (request : MutationRestoreRequest)
  | Ev_Finalize (request : MutationFinalizeRequest).

Record Sys := MkSys { kernel : TransactionKernel; world : W; trace : list Effect }.

Abbreviation K := (M Sys TransactionError).

(** ** Field updates *)

Definition on_kernel (f : TransactionKernel → TransactionKernel) (s : Sys) : Sys :=
  MkSys (f (kernel s)) (world s) (trace s).
Definition set_wal (w : T) (k : TransactionKernel) :=
  MkKernel (transaction_id k) (intent_pin k) (capabilities k) w (changes k) (resource_heads k)
    (change_order k) (next_sequence k) (operation_counter k) (active_candidate k)
    (commit_authorization k) (sealed k).
Definition set_changes (m : gmap ChangeId ChangeRecord) (k : TransactionKernel) :=
  MkKernel (transaction_id k) (intent_pin k) (capabilities k) (wal k) m (resource_heads k)
    (change_order k) (next_sequence k) (operation_counter k) (active_candidate k)
    (commit_authorization k) (sealed k).
Definition set_resource_heads (m : gmap ResourceKey ChangeId) (k : TransactionKernel) :=
  MkKernel (transaction_id k) (intent_pin k) (capabilities k) (wal k) (changes k) m
    (change_order k) (next_sequence k) (operation_counter k) (active_candidate k)
    (commit_authorization k) (sealed k).
Definition set_change_order (l : list ChangeId) (k : TransactionKernel) :=
  MkKernel (transaction_id k) (intent_pin k) (capabilities k) (wal k) (changes k)
    (resource_heads k) l (next_sequence k) (operation_counter k) (active_candidate k)
    (commit_authorization k) (sealed k).
Definition set_next_sequence (n : Z) (k : TransactionKernel) :=
  MkKernel (transaction_id k) (intent_pin k) (capabilities k) (wal k) (changes k)
    (resource_heads k) (change_order k) n (operation_counter k) (active_candidate k)
    (commit_authorization k) (sealed k).
Definition set_operation_counter (n : Z) (k : TransactionKernel) :=
  MkKernel (transaction_id k) (intent_pin k) (capabilities k) (wal k) (changes k)
    (resource_heads k) (change_order k) (next_sequence k) n (active_candidate k)
    (commit_authorization k) (sealed k).
Definition set_active_candidate (c : option Candidate) (k : TransactionKernel) :=
  MkKernel (transaction_id k) (intent_pin k) (capabilities k) (wal k) (changes k)
    (resource_heads k) (change_order k) (next_sequence k) (operation_counter k) c
    (commit_authorization k) (sealed k).
Definition set_commit_authorization (a : option CommitAuthorization) (k : TransactionKernel) :=
  MkKernel (transaction_id k) (intent_pin k) (capabilities k) (wal k) (changes k)
    (resource_heads k) (change_order k) (next_sequence k) (operation_counter k)
    (active_candidate k) a (sealed k).
Definition set_sealed (o : option TransactionSeal) (k : TransactionKernel) :=
  MkKernel (transaction_id k) (intent_pin k) (capabilities k) (wal k) (changes k)
    (resource_heads k) (change_order k) (next_sequence k) (operation_counter k)
    (active_candidate k) (commit_authorization k) o.

Definition set_record_state (st : ChangeState) (r : ChangeRecord) : ChangeRecord :=
  MkChangeRecord (cr_transaction_id r) (cr_change_id r) (cr_supersedes r) (cr_capability_id r)
    (cr_resource r) (cr_prepared r) (cr_experiment_verified r) st (cr_last_operation_id r)
    (cr_last_receipt r) (cr_message r).
Definition set_record_operation (op : OperationId) (r : ChangeRecord) : ChangeRecord :=
  MkChangeRecord (cr_transaction_id r) (cr_change_id r) (cr_supersedes r) (cr_capability_id r)
    (cr_resource r) (cr_prepared r) (cr_experiment_verified r) (cr_state r) op
    (cr_last_receipt r) (cr_message r).
Definition set_record_receipt (x : option MutationReceipt) (r : ChangeRecord) : ChangeRecord :=
  MkChangeRecord (cr_transaction_id r) (cr_change_id r) (cr_supersedes r) (cr_capability_id r)
    (cr_resource r) (cr_prepared r) (cr_experiment_verified r) (cr_state r)
    (cr_last_operation_id r) x (cr_message r).
Definition set_record_message (x : option string) (r : ChangeRecord) : ChangeRecord :=
  MkChangeRecord (cr_transaction_id r) (cr_change_id r) (cr_supersedes r) (cr_capability_id r)
    (cr_resource r) (cr_prepared r) (cr_experiment_verified r) (cr_state r)
    (cr_last_operation_id r) (cr_last_receipt r) x.
Definition set_record_verified (b : bool) (r : ChangeRecord) : ChangeRecord :=
  MkChangeRecord (cr_transaction_id r) (cr_change_id r) (cr_supersedes r) (cr_capability_id r)
    (cr_resource r) (cr_prepared r) b (cr_state r) (cr_last_operation_id r)
    (cr_last_receipt r) (cr_message r).

(** ** Errors *)

Definition err (kind : TransactionErrorKind) (message : string) : TransactionError :=
  MkTransactionError kind message.
Definition provider_error (e : ProviderError) : TransactionError :=
  err E_Provider (ProviderError_display e).
Definition wal_error (e : WalError) : TransactionError := err E_Wal (wal_error_message e).
Definition quote {n} (id : string_id n) : string := "'" +:+ as_str id +:+ "'".
Definition quote_resource (r : ResourceKey) : string := "'" +:+ resource_str r +:+ "'".

(** ** Calls that leave the process *)

Definition emit (e : Effect) : K unit :=
  modify (λ s, MkSys (kernel s) (world s) (e :: trace s)).

Definition call_driver {A} (call : W → result ProviderError A * W) : K (result ProviderError A) :=
  λ s, let '(r, w) := call (world s) in (Ret r, MkSys (kernel s) w (trace s)).

(** [driver.verify], recorded with its answer. *)
Definition read_back (driver : MutationDriver W) (request : MutationVerifyRequest)
    : K (result ProviderError MutationVerification) :=
  r ← call_driver (verify driver request);
  _ ← emit (Ev_Verify request (match r with Ok v => matched v | Err _ => false end));
  mret r.

(** A log call; the entry is in the trace when the log acknowledged it. *)
Definition call_wal (call : WalEntry → T → result WalError unit * T) (entry : WalEntry)
    : K (result WalError unit) := λ s,
  let '(r, w) := call entry (wal (kernel s)) in
  (Ret r, MkSys (set_wal w (kernel s)) (world s)
            (match r with Ok _ => Ev_Durable entry :: trace s | Err _ => trace s end)).

(** ** Log appends *)

Definition bump_sequence (k : TransactionKernel) : TransactionKernel :=
  set_next_sequence (u64_saturating_add (next_sequence k) 1) k.

Definition new_entry (event : WalEvent) (s : Sys) : WalEntry :=
  MkWalEntry (next_sequence (kernel s)) (transaction_id (kernel s)) event.

Definition append_event (event : WalEvent) : K unit :=
  entry ← gets (new_entry event);
  r ← call_wal append_durable entry;
  _ ← lift (map_err wal_error r);
  modify (on_kernel bump_sequence).

Definition seal_transaction (outcome : TransactionSeal) : K unit :=
  entry ← gets (new_entry (Sealed outcome));
  r ← call_wal seal entry;
  _ ← lift (map_err wal_error r);
  modify (on_kernel (λ k, set_sealed (Some outcome) (bump_sequence k))).

Definition insert_changes (l : list ChangeRecord) (m : gmap ChangeId ChangeRecord)
    : gmap ChangeId ChangeRecord :=
  foldl (λ m c, <[cr_change_id c := c]> m) m l.

Definition commit_seal (authorization : CommitAuthorization)
    (terminal_changes : list ChangeRecord) : K unit :=
  entry ← gets (new_entry (CommitSealed authorization terminal_changes));
  r ← call_wal seal entry;
  _ ← lift (map_err (λ e, err E_CommitOutcomeUnknown
             ("commit seal outcome is unknown: " +:+ wal_error_message e)) r);
  modify (on_kernel (λ k,
    set_sealed (Some Seal_Committed)
      (set_commit_authorization (Some authorization)
        (set_changes (insert_changes terminal_changes (changes k)) (bump_sequence k))))).

Definition append_operation_intent (change_id : ChangeId) (operation_id : OperationId)
    (operation : OperationIntentKind) : K unit :=
  append_event (OperationIntent change_id operation_id operation).

Definition next_operation_id (label : string) : K OperationId :=
  _ ← modify (on_kernel (λ k, set_operation_counter
        (u64_saturating_add (operation_counter k) 1) k));
  k ← gets kernel;
  lift (map_err (err E_InvalidState)
    (string_id_new N_Operation (as_str (transaction_id k) +:+ "/" +:+ label +:+ "/"
                                 +:+ show (operation_counter k)))).

(** ** Lookups and validation *)

(** [self.changes[change_id]]. *)
Definition change_at (change_id : ChangeId) : K ChangeRecord :=
  m ← gets (λ s, changes (kernel s)); expect (m !! change_id).

Definition ensure_open : K unit :=
  sealed ← gets (λ s, sealed (kernel s));
  match sealed with
  | Some outcome =>
    throw (err E_Sealed ("transaction is already sealed as " +:+ TransactionSeal_debug outcome))
  | None => mret tt
  end.

(** [self.changes().cloned().collect()]. *)
Definition changes_in_order (k : TransactionKernel) : list ChangeRecord :=
  omap (λ id, changes k !! id) (change_order k).

Definition driver_for (caps : CapabilitySnapshot W) (capability_id : CapabilityId)
    : result TransactionError (MutationDriver W) :=
  ok_or (err E_CapabilityUnavailable
          ("mutation capability " +:+ quote capability_id +:+ " is unavailable"))
    (snapshot_mutation caps capability_id).

Definition driver (capability_id : CapabilityId) : K (MutationDriver W) :=
  caps ← gets (λ s, capabilities (kernel s)); lift (driver_for caps capability_id).

Definition driver_for_record (record : ChangeRecord) : K (MutationDriver W) :=
  driver ← driver (cr_capability_id record);
  if bool_decide (provider (driver_meta driver) ≠ prepared_provider (cr_prepared record)) then
    throw (err E_PinMismatch
      ("provider pin for change " +:+ quote (cr_change_id record) +:+ " no longer matches"))
  else mret driver.

Definition validate_state_digest (state : MutationState) (label : string)
    (kind : TransactionErrorKind) : result TransactionError unit :=
  expected ← map_err (λ e, err kind ("failed to compute " +:+ label +:+ " digest: " +:+ e))
               (content_digest (state_value state));
  reject (bool_decide (state_digest state ≠ expected))
    (err kind (label +:+ " digest does not match its value")).

Definition validate_prepared (caps : CapabilitySnapshot W) (capability_id : CapabilityId)
    (prepared : PreparedMutation) : result TransactionError unit :=
  _ ← reject (bool_decide (prepared_capability_id prepared ≠ capability_id))
        (err E_PinMismatch "driver prepared a different capability id");
  meta ← ok_or (err E_CapabilityUnavailable
            ("capability " +:+ quote capability_id +:+ " is absent from the snapshot"))
           (snapshot_meta caps capability_id);
  _ ← reject (bool_decide (prepared_provider prepared ≠ provider meta))
        (err E_PinMismatch ("provider pin changed while preparing " +:+ quote capability_id));
  _ ← validate_state_digest (baseline prepared) "prepared baseline" E_InvalidState;
  _ ← validate_state_digest (desired prepared) "prepared desired state" E_InvalidState;
  reject (bool_decide (state_value (baseline prepared) = state_value (desired prepared)))
    (err E_InvalidState "mutation baseline and desired states are identical").

(** One iteration of the loop of [validate_candidate]. *)
Definition validate_candidate_change (k : TransactionKernel) (resources : gset ResourceKey)
    (change_id : ChangeId) : result TransactionError (gset ResourceKey) :=
  change ← ok_or (err E_InvalidCandidate
              ("candidate references unknown change " +:+ quote change_id))
             (changes k !! change_id);
  _ ← reject (negb (cr_experiment_verified change))
        (err E_InvalidCandidate
          ("candidate change " +:+ quote change_id +:+ " has no durable successful experiment"));
  _ ← reject (bool_decide (resource_heads k !! cr_resource change ≠ Some change_id))
        (err E_InvalidCandidate
          ("candidate change " +:+ quote change_id +:+ " has been superseded"));
  _ ← reject (bool_decide (cr_resource change ∈ resources))
        (err E_DuplicateResource
          ("candidate repeats resource " +:+ quote_resource (cr_resource change)));
  Ok ({[cr_resource change]} ∪ resources).

Definition validate_candidate (k : TransactionKernel) (candidate : Candidate)
    : result TransactionError unit :=
  _ ← fold_result (validate_candidate_change k) ∅ (change_ids candidate);
  Ok tt.

(** ** Updating a change *)

Definition persist_change (change_id : ChangeId) (state : ChangeState)
    (operation_id : OperationId) (receipt : option MutationReceipt) (message : option string)
    (mark_experiment_verified : bool) : K unit :=
  k ← gets kernel;
  snapshot ← lift (ok_or (err E_InvalidState ("unknown change " +:+ quote change_id))
                     (changes k !! change_id));
  let snapshot := set_record_message message (set_record_receipt receipt
                   (set_record_operation operation_id (set_record_state state snapshot))) in
  let snapshot := if mark_experiment_verified then set_record_verified true snapshot
                  else snapshot in
  _ ← append_event (ChangeUpsert snapshot);
  modify (on_kernel (λ k, set_changes (<[change_id := snapshot]> (changes k)) k)).

Definition update_change (change_id : ChangeId) (state : ChangeState)
    (operation_id : OperationId) (receipt : option MutationReceipt) (message : option string)
    : K unit :=
  persist_change change_id state operation_id receipt message false.

(** The live record when an effect happened but its result was not logged. *)
Definition mark_not_durable (operation_id : OperationId) (r : ChangeRecord) : ChangeRecord :=
  set_record_message (Some "effect completed but its result was not durable in the WAL")
    (set_record_operation operation_id (set_record_state AppliedUnknown r)).

Definition update_after_effect (change_id : ChangeId) (state : ChangeState)
    (operation_id : OperationId) (receipt : option MutationReceipt) (message : option string)
    (mark_experiment_verified : bool) : K unit :=
  r ← attempt (persist_change change_id state operation_id receipt message
                 mark_experiment_verified);
  match r with
  | Ok _ => mret tt
  | Err error =>
    _ ← modify (on_kernel (λ k,
          set_changes (alter (mark_not_durable operation_id) change_id (changes k)) k));
    throw error
  end.

Definition set_unknown (change_id : ChangeId) (operation_id : OperationId)
    (receipt : option MutationReceipt) (message : string) : K unit :=
  update_change change_id AppliedUnknown operation_id receipt (Some message).

Definition unknown_after_provider_error (change_id : ChangeId) (operation_id : OperationId)
    (error : ProviderError) : K TransactionError :=
  let message := "provider operation outcome is unknown: " +:+ ProviderError_display error in
  r ← attempt (set_unknown change_id operation_id None message);
  mret (match r with
        | Err persist_error => persist_error
        | Ok _ => err E_AppliedUnknown ("change " +:+ quote change_id +:+ ": " +:+ message)
        end).

Definition mark_apply_unknown (change_id : ChangeId) (operation_id : OperationId)
    (receipt : option MutationReceipt) (message : string) : K unit :=
  _ ← set_unknown change_id operation_id receipt message;
  throw (err E_AppliedUnknown ("apply outcome for change " +:+ quote change_id
           +:+ " is unknown: " +:+ message)).

Definition mark_drift {A} (change_id : ChangeId) (message : string) : K A :=
  operation_id ← next_operation_id "drift";
  _ ← update_change change_id DriftDetected operation_id None (Some message);
  throw (err E_ExternalDrift ("external drift detected for change " +:+ quote change_id
           +:+ ": " +:+ message)).

Definition matches_expected (change_id : ChangeId) (expected : ExpectedState) : K bool :=
  record ← change_at change_id;
  driver ← driver_for_record record;
  let expected := match expected with
                  | Expect_Baseline => baseline (cr_prepared record)
                  | Expect_Desired => desired (cr_prepared record)
                  end in
  k ← gets kernel;
  operation_id ← lift (map_err (err E_InvalidState)
    (string_id_new N_Operation (as_str (transaction_id k) +:+ "/verify/"
                                 +:+ show (operation_counter k))));
  r ← read_back driver (MkVerifyRequest operation_id (cr_prepared record) expected);
  verification ← lift (map_err provider_error r);
  mret (matched verification).

Definition ensure_expected (change_id : ChangeId) (expected : ExpectedState) : K unit :=
  ok ← matches_expected change_id expected;
  if (ok : bool) then mret tt
  else mark_drift change_id "resource changed outside the transaction".

(** ** Applying and restoring one change *)

(** The outcome of [driver.apply] in [apply_and_verify]: the receipt to record,
    or an early return. *)
Definition settle_apply (change_id : ChangeId) (operation_id : OperationId)
    (driver : MutationDriver W) (applied : result ProviderError MutationReceipt)
    : K (option (option MutationReceipt)) :=
  match applied with
  | Ok receipt =>
    match receipt_state receipt with
    | Applied => mret (Some (Some receipt))
    | NotApplied =>
      _ ← update_change change_id FailedNotApplied operation_id (Some receipt)
            (Some "driver reported not applied");
      throw (err E_Provider ("change " +:+ quote change_id +:+ " was not applied"))
    | _ =>
      _ ← mark_apply_unknown change_id operation_id (Some receipt)
            "driver returned an ambiguous apply state";
      mret None
    end
  | Err error =>
    r ← call_driver (status driver (MkQuery operation_id));
    match status_state <$> match r with Ok st => Some st | Err _ => None end with
    | Some Applied => mret (Some None)
    | Some NotApplied =>
      _ ← update_change change_id FailedNotApplied operation_id None
            (Some ("apply failed and status is not-applied: " +:+ ProviderError_display error));
      throw (provider_error error)
    | _ =>
      _ ← mark_apply_unknown change_id operation_id None
            ("apply failed and status could not prove the outcome: "
             +:+ ProviderError_display error);
      mret None
    end
  end.

Definition apply_and_verify (change_id : ChangeId) (operation_id : OperationId)
    (success_state : ChangeState) (intent_already_appended : bool) : K unit :=
  record ← change_at change_id;
  _ ← (if negb intent_already_appended && bool_decide (cr_state record ≠ IntentDurable)
       then append_operation_intent change_id operation_id Intent_Apply else mret tt);
  record ← change_at change_id;
  driver ← driver_for_record record;
  let request := MkApplyRequest operation_id (cr_prepared record) in
  _ ← emit (Ev_Apply request);
  applied ← call_driver (driver_apply driver request);
  receipt ← settle_apply change_id operation_id driver applied;
  match receipt with
  | None => mret tt
  | Some receipt =>
    r ← read_back driver (MkVerifyRequest operation_id (cr_prepared record)
           (desired (cr_prepared record)));
    match r with
    | Ok verification =>
      if matched verification then
        update_after_effect change_id success_state operation_id receipt None
          (bool_decide (success_state = AppliedVerified))
      else
        mark_apply_unknown change_id operation_id receipt
          "applied value did not match the prepared desired state"
    | Err error =>
      mark_apply_unknown change_id operation_id receipt
        ("applied value could not be verified: " +:+ ProviderError_display error)
    end
  end.

(** The outcome of [driver.restore] in [restore_one]. *)
Definition settle_restore (change_id : ChangeId) (operation_id : OperationId)
    (driver : MutationDriver W) (record : ChangeRecord)
    (restored : result ProviderError MutationReceipt) : K MutationReceipt :=
  match restored with
  | Ok receipt =>
    if bool_decide (receipt_state receipt = Restored) then mret receipt
    else
      _ ← set_unknown change_id operation_id (Some receipt)
            "restore returned an ambiguous state";
      throw (err E_AppliedUnknown
        ("restore outcome for change " +:+ quote change_id +:+ " is unknown"))
  | Err error =>
    r ← call_driver (status driver (MkQuery operation_id));
    let known_restored := match r with
                          | Ok st => bool_decide (status_state st = Restored)
                          | Err _ => false
                          end in
    if (known_restored : bool) then
      mret (MkReceipt operation_id Restored (Some (baseline (cr_prepared record))) Value_Null)
    else
      e ← unknown_after_provider_error change_id operation_id error;
      throw e
  end.

Definition restore_one (change_id : ChangeId) (restored_state : ChangeState) : K unit :=
  record ← change_at change_id;
  let state := cr_state record in
  if bool_decide (state = Finalized) then
    throw (err E_InvalidState
      ("finalized change " +:+ quote change_id +:+ " cannot be restored"))
  else if bool_decide (state = RolledBack) && bool_decide (restored_state = RolledBack) then
    ensure_expected change_id Expect_Baseline
  else
    at_baseline ← matches_expected change_id Expect_Baseline;
    if (at_baseline : bool) then
      if bool_decide (state ≠ restored_state) then
        operation_id ← next_operation_id "baseline-observed";
        update_change change_id restored_state operation_id None None
      else mret tt
    else
      at_desired ← matches_expected change_id Expect_Desired;
      if negb at_desired then
        mark_drift change_id "resource matches neither baseline nor desired state"
      else
        operation_id ← next_operation_id "restore";
        _ ← append_operation_intent change_id operation_id Intent_Restore;
        record ← change_at change_id;
        driver ← driver_for_record record;
        let request := MkRestoreRequest operation_id (cr_prepared record) in
        _ ← emit (Ev_Restore request);
        restored ← call_driver (restore driver request);
        receipt ← settle_restore change_id operation_id driver record restored;
        back ← matches_expected change_id Expect_Baseline;
        if negb back then
          _ ← set_unknown change_id operation_id (Some receipt)
                "restore completed but baseline readback did not match";
          throw (err E_AppliedUnknown
            ("restored state of change " +:+ quote change_id +:+ " could not be verified"))
        else
          update_after_effect change_id restored_state operation_id (Some receipt) None false.

(** ** Client operations *)

(** [TransactionKernel::begin]: on [Ok] the kernel is in the final state. *)
Definition initial_kernel (transaction_id : TransactionId) (intent_pin : EvaluationIntentPin)
    (capabilities : CapabilitySnapshot W) (wal : T) : TransactionKernel :=
  MkKernel transaction_id intent_pin capabilities wal ∅ ∅ [] 0 0 None None None.

Definition begin_transaction (transaction_id : TransactionId) (intent_pin : EvaluationIntentPin)
    (capabilities : CapabilitySnapshot W) (wal : T) (world : W)
    : outcome TransactionError unit * Sys :=
  append_event (Started intent_pin (snap_generation capabilities))
    (MkSys (initial_kernel transaction_id intent_pin capabilities wal) world []).

(** The request an experiment sends to [prepare], and its checked answer. *)
Definition prepare_checked (driver : MutationDriver W) (capability_id : CapabilityId)
    (operation_id : OperationId) (arguments : Value) : K PreparedMutation :=
  k ← gets kernel;
  r ← call_driver (prepare driver (MkPrepareRequest
         (MkInvocationContext (pin_episode_id (intent_pin k)) operation_id) arguments));
  prepared ← lift (map_err provider_error r);
  _ ← lift (validate_prepared (capabilities k) capability_id prepared);
  mret prepared.

(** A second experiment on a resource: the head change is checked, its baseline
    restored and the mutation prepared again on top of the baseline. *)
Definition prepare_revision (driver : MutationDriver W) (capability_id : CapabilityId)
    (arguments : Value) (previous_id : ChangeId) (initially_prepared : PreparedMutation)
    : K (OperationId * PreparedMutation) :=
  k ← gets kernel;
  previous ← lift (ok_or (err E_InvalidState
                ("resource head references unknown change " +:+ quote previous_id))
              (changes k !! previous_id));
  _ ← lift (reject (bool_decide (cr_state previous ≠ AppliedVerified)
                    || negb (cr_experiment_verified previous))
        (err E_InvalidState ("resource " +:+ quote_resource (cr_resource previous)
           +:+ " cannot be revised from change " +:+ quote (cr_change_id previous)
           +:+ " in state " +:+ ChangeState_debug (cr_state previous))));
  _ ← lift (reject (bool_decide (cr_capability_id previous ≠ capability_id)
                    || bool_decide (prepared_provider (cr_prepared previous)
                                    ≠ prepared_provider initially_prepared))
        (err E_PinMismatch ("resource " +:+ quote_resource (cr_resource previous)
           +:+ " must be revised through the same pinned capability")));
  _ ← ensure_expected previous_id Expect_Desired;
  _ ← lift (reject (bool_decide (baseline initially_prepared ≠ desired (cr_prepared previous)))
        (err E_InvalidState ("revision prepare for resource "
           +:+ quote_resource (cr_resource previous)
           +:+ " did not observe the latest desired state")));
  _ ← restore_one previous_id BaselineRestored;
  operation_id ← next_operation_id "revision";
  prepared ← prepare_checked driver capability_id operation_id arguments;
  _ ← lift (reject (bool_decide (prepared_resource prepared ≠ cr_resource previous)
                    || bool_decide (baseline prepared ≠ baseline (cr_prepared previous))
                    || bool_decide (desired prepared ≠ desired initially_prepared))
        (err E_InvalidState ("resource " +:+ quote_resource (cr_resource previous)
           +:+ " revision changed identity, original baseline, or desired state during prepare")));
  mret (operation_id, prepared).

Definition add_change (record : ChangeRecord) (k : TransactionKernel) : TransactionKernel :=
  set_changes (<[cr_change_id record := record]> (changes k))
    (set_change_order (change_order k ++ [cr_change_id record])
      (set_resource_heads (<[cr_resource record := cr_change_id record]> (resource_heads k)) k)).

Definition experiment (change_id : ChangeId) (capability_id : CapabilityId) (arguments : Value)
    : K ChangeRecord :=
  _ ← ensure_open;
  k ← gets kernel;
  _ ← lift (reject (bool_decide (is_Some (changes k !! change_id)))
        (err E_DuplicateChange ("change " +:+ quote change_id +:+ " already exists")));
  _ ← lift (reject (bool_decide (MAX_CHANGES_PER_TRANSACTION ≤ size (changes k)))
        (err E_InvalidState ("transaction cannot contain more than "
           +:+ show (Z.of_nat MAX_CHANGES_PER_TRANSACTION) +:+ " changes")));
  driver ← driver capability_id;
  operation_id ← next_operation_id "experiment";
  prepared ← prepare_checked driver capability_id operation_id arguments;
  heads ← gets (λ s, resource_heads (kernel s));
  let supersedes := heads !! prepared_resource prepared in
  final ← (match supersedes with
           | Some previous_id =>
             prepare_revision driver capability_id arguments previous_id prepared
           | None => mret (operation_id, prepared)
           end);
  let '(operation_id, prepared) := (final : OperationId * PreparedMutation) in
  k ← gets kernel;
  let record := MkChangeRecord (transaction_id k) change_id supersedes capability_id
                  (prepared_resource prepared) prepared false IntentDurable operation_id
                  None None in
  _ ← append_event (ChangeUpsert record);
  _ ← modify (on_kernel (add_change record));
  _ ← apply_and_verify change_id operation_id AppliedVerified false;
  change_at change_id.

Definition restore_baseline : K (list ChangeRecord) :=
  _ ← ensure_open;
  ids ← gets (λ s, reverse (change_order (kernel s)));
  _ ← for_each (λ change_id, restore_one change_id BaselineRestored) ids;
  _ ← modify (on_kernel (set_active_candidate None));
  gets (λ s, changes_in_order (kernel s)).

(** The checks of [replay_candidate] before anything is applied. *)
Definition require_restored (change_id : ChangeId) : K unit :=
  change ← change_at change_id;
  if bool_decide (cr_state change ≠ BaselineRestored) then
    throw (err E_InvalidState ("change " +:+ quote change_id
      +:+ " must be restored before candidate replay; state="
      +:+ ChangeState_debug (cr_state change)))
  else mret tt.

Definition replay_one (change_id : ChangeId) : K unit :=
  operation_id ← next_operation_id "replay";
  _ ← append_operation_intent change_id operation_id Intent_Apply;
  apply_and_verify change_id operation_id CandidateApplied true.

Definition replay_candidate (candidate : Candidate) : K (list ChangeRecord) :=
  _ ← ensure_open;
  k ← gets kernel;
  _ ← lift (validate_candidate k candidate);
  _ ← for_each require_restored (change_order k);
  _ ← for_each (λ change_id, ensure_expected change_id Expect_Baseline) (change_order k);
  _ ← modify (on_kernel (set_active_candidate (Some candidate)));
  _ ← for_each replay_one (change_ids candidate);
  gets (λ s, omap (λ id, changes (kernel s) !! id) (change_ids candidate)).

(** The first pass of [finalize_candidate] on one change: superseded changes are
    skipped, candidates must be applied and read back, the others untouched. *)
Definition finalize_precheck (candidate : Candidate) (change_id : ChangeId) : K unit :=
  change ← change_at change_id;
  k ← gets kernel;
  if bool_decide (resource_heads k !! cr_resource change ≠ Some change_id) then mret tt
  else if candidate_contains candidate change_id then
    if bool_decide (cr_state change ≠ CandidateApplied) then
      throw (err E_InvalidState ("candidate change " +:+ quote change_id +:+ " is not applied"))
    else ensure_expected change_id Expect_Desired
  else ensure_expected change_id Expect_Baseline.

(** Collecting one provider's finalize acknowledgement. *)
Definition finalize_one (change_id : ChangeId) : K unit :=
  operation_id ← next_operation_id "finalize";
  _ ← append_operation_intent change_id operation_id Intent_Finalize;
  record ← change_at change_id;
  driver ← driver_for_record record;
  let request := MkFinalizeRequest operation_id (cr_prepared record) in
  _ ← emit (Ev_Finalize request);
  result ← call_driver (finalize driver request);
  match result with
  | Ok receipt =>
    if bool_decide (receipt_state receipt = Finalized_op) then
      _ ← update_change change_id CandidateApplied operation_id (Some receipt) None;
      ensure_expected change_id Expect_Desired
    else
      _ ← update_change change_id CandidateApplied operation_id (Some receipt)
            (Some "provider did not acknowledge finalize");
      throw (err E_Provider
        ("provider did not acknowledge finalize for change " +:+ quote change_id))
  | Err error =>
    let message := "provider finalize acknowledgement failed: " +:+ ProviderError_display error in
    _ ← update_change change_id CandidateApplied operation_id None (Some message);
    throw (err E_Provider ("change " +:+ quote change_id +:+ ": " +:+ message))
  end.

(** The second pass, after the acknowledgements. *)
Definition finalize_recheck (candidate : Candidate) (change_id : ChangeId) : K unit :=
  change ← change_at change_id;
  k ← gets kernel;
  if bool_decide (resource_heads k !! cr_resource change ≠ Some change_id) then mret tt
  else ensure_expected change_id
         (if candidate_contains candidate change_id then Expect_Desired else Expect_Baseline).

Definition terminal_change (candidate : Candidate) (change_id : ChangeId) : K ChangeRecord :=
  change ← change_at change_id;
  mret (set_record_message None
    (set_record_state (if candidate_contains candidate change_id then Finalized else RolledBack)
       change)).

Fixpoint collect_terminal (candidate : Candidate) (ids : list ChangeId) : K (list ChangeRecord) :=
  match ids with
  | [] => mret []
  | id :: ids =>
    t ← terminal_change candidate id; ts ← collect_terminal candidate ids; mret (t :: ts)
  end.

Definition finalize_candidate (candidate : Candidate) (authorization : CommitAuthorization)
    : K (list ChangeRecord) :=
  _ ← ensure_open;
  k ← gets kernel;
  _ ← lift (validate_candidate k candidate);
  _ ← lift (reject (bool_decide (auth_intent_pin authorization ≠ intent_pin k))
        (err E_PinMismatch
          "commit authorization does not match the transaction evaluation intent"));
  _ ← lift (reject (bool_decide (auth_candidate_digest authorization ≠ candidate_digest candidate))
        (err E_InvalidCandidate "commit authorization does not match the candidate"));
  _ ← lift (reject (bool_decide (active_candidate k ≠ Some candidate))
        (err E_InvalidCandidate "candidate does not match the replayed candidate"));
  let ids := change_order k in
  _ ← for_each (finalize_precheck candidate) ids;
  _ ← for_each finalize_one (change_ids candidate);
  _ ← for_each (finalize_recheck candidate) ids;
  terminal_changes ← collect_terminal candidate ids;
  _ ← commit_seal authorization terminal_changes;
  gets (λ s, changes_in_order (kernel s)).

Definition rollback_all : K (list ChangeRecord) :=
  _ ← ensure_open;
  k ← gets kernel;
  _ ← lift (reject (bool_decide (map_Exists (λ _ c, cr_state c = Finalized) (changes k)))
        (err E_InvalidState "cannot roll back a transaction with finalized changes"));
  _ ← for_each (λ change_id, restore_one change_id RolledBack) (reverse (change_order k));
  _ ← modify (on_kernel (set_active_candidate None));
  _ ← seal_transaction Seal_RolledBack;
  gets (λ s, changes_in_order (kernel s)).
End Kernel.

Arguments TransactionKernel {J} W T.
Arguments Sys {J} W T.
