(* ===== verification/Protocol.v ===== *)
(** * The A/B evaluation protocol ([tuning_agent/src/kernel/evaluation/protocol.rs])

    Restore the baseline, measure it, replay the candidate, measure it, compare,
    decide; under one deadline and against a contract checked again when the
    evaluation starts.  The transaction is reached through [TransactionPort],
    which the transaction kernel implements. *)

From S2P Require Export Intent Measure Condition Kernel.

Open Scope Z_scope.

Definition TRUSTED_GUARDRAIL_MEASUREMENT_ID : string := "builtin/measurement.core-system.v1".

(** ** The transaction port *)

Section Port.
Context `{JD : JsonData}.

Record TransactionStepEvidence := MkStepEvidence {
  step_state_digest : option Digest; step_details : Value }.

Record TransactionPort (P W : Type) := MkPort {
  port_restore_baseline :
    list ChangeId → P → W → outcome string TransactionStepEvidence * (P * W);
  port_replay_candidate :
    list ChangeId → P → W → outcome string TransactionStepEvidence * (P * W);
}.

(** The [snake_case] names serde gives the states. *)
Definition ChangeState_name (s : ChangeState) : string :=
  match s with
  | IntentDurable => "intent_durable" | AppliedUnknown => "applied_unknown"
  | AppliedVerified => "applied_verified" | BaselineRestored => "baseline_restored"
  | CandidateApplied => "candidate_applied" | Finalized => "finalized"
  | RolledBack => "rolled_back" | FailedNotApplied => "failed_not_applied"
  | DriftDetected => "drift_detected"
  end.

Definition public_change (c : ChangeRecord) : Value :=
  json_object [("change_id", json_string (as_str (cr_change_id c)));
               ("capability_id", json_string (as_str (cr_capability_id c)));
               ("resource", json_string (resource_str (cr_resource c)));
               ("state", json_string (ChangeState_name (cr_state c)))].

Definition public_change_details (changes : list ChangeRecord) : Value :=
  json_object [("changes", json_array (public_change <$> changes))].

(** [impl TransactionPort for TransactionKernel]: the port is the kernel with the
    trace of its effects. *)
Section KernelPort.
Context `{!Serialize Value, !Serialize (list ChangeId), !Sha256}.
Context {W T : Type} `{!TransactionWal T}.

Definition KernelPort : Type := TransactionKernel W T * list Effect.

Definition step_evidence (changes : list ChangeRecord) : TransactionStepEvidence :=
  let details := public_change_details changes in
  MkStepEvidence (match content_digest details with Ok d => Some d | Err _ => None end) details.

Definition run_kernel {A B} (m : M (Sys W T) TransactionError A) (f : A → B) (p : KernelPort) (w : W)
    : outcome string B * (KernelPort * W) :=
  let '(r, s) := m (MkSys p.1 w p.2) in
  (match r with
   | Ret a => Ret (f a) | Throw e => Throw (error_message e) | Panic => Panic
   end, ((kernel s, trace s), world s)).

Definition kernel_restore_baseline (_ : list ChangeId) : KernelPort → W →
    outcome string TransactionStepEvidence * (KernelPort * W) :=
  run_kernel restore_baseline step_evidence.

Definition kernel_replay_candidate (ids : list ChangeId) (p : KernelPort) (w : W)
    : outcome string TransactionStepEvidence * (KernelPort * W) :=
  match Candidate_new ids with
  | Ok candidate => run_kernel (replay_candidate candidate) step_evidence p w
  | Err e => (Throw e, (p, w))
  end.

Definition kernel_port : TransactionPort KernelPort W :=
  MkPort _ _ kernel_restore_baseline kernel_replay_candidate.
End KernelPort.
End Port.
Arguments KernelPort {J} W T.
Arguments port_restore_baseline {J P W}.
Arguments port_replay_candidate {J P W}.

(** ** Operation ids of the two sides *)

(** [str::is_char_boundary]: not inside a character. *)
Definition is_char_boundary (s : string) (i : nat) : bool :=
  match i with
  | O => true
  | _ => bool_decide (i = String.length s)
         || match String.get i s with Some a => negb (byte_in 128 191 a) | None => false end
  end.

Fixpoint previous_char_boundary (value : string) (index : nat) : nat :=
  if is_char_boundary value index then index
  else match index with O => O | S index => previous_char_boundary value index end.

(** [while prefix.len() + side.len() + 1 > 256]; each turn shortens the prefix. *)
Fixpoint shorten_prefix (fuel : nat) (prefix side : string) : string :=
  match fuel with
  | O => prefix
  | S fuel =>
    if (256 <? Z.of_nat (String.length prefix) + Z.of_nat (String.length side) + 1) then
      shorten_prefix fuel
        (String.substring 0 (previous_char_boundary prefix (String.length prefix - 1)) prefix) side
    else prefix
  end.

Definition side_context (context : InvocationContext) (side : string)
    : result EvaluationError InvocationContext :=
  let id := as_str (ctx_operation_id context) in
  let prefix := shorten_prefix (String.length id) id side in
  operation_id ← map_err (λ error, MkEvaluationError Ek_Protocol
                   ("failed to derive measurement operation id: " +:+ error))
                   (string_id_new N_Operation (prefix +:+ "-" +:+ side));
  Ok (MkInvocationContext (ctx_episode_id context) operation_id).

(** ** Evidence *)

Section Protocol.
Context `{JD : JsonData}.

Record AbEvaluationEvidence := MkAbEvidence {
  ab_intent : EvaluationIntentPin;
  ab_contract_id : ContractId;
  ab_contract_digest : Digest;
  ab_candidate_digest : Digest;
  ab_baseline_restore : TransactionStepEvidence;
  ab_baseline_system_guardrails : MeasurementEvidence;
  ab_baseline_measurement : MeasurementEvidence;
  ab_candidate_replay : TransactionStepEvidence;
  ab_candidate_system_guardrails : MeasurementEvidence;
  ab_candidate_measurement : MeasurementEvidence;
  ab_decision : EvaluationDecision;
}.

Definition protocol_error (message : string) : EvaluationError :=
  MkEvaluationError Ek_Protocol message.

Definition commit_authorization_of `{!Serialize EvaluationDecision, !Serialize AbEvaluationEvidence,
    !Serialize AuthorizationPayload, !Sha256} (e : AbEvaluationEvidence)
    : result EvaluationError CommitAuthorization :=
  _ ← reject (bool_decide (verdict (ab_decision e) ≠ Verdict_Improved))
        (protocol_error "only an improved evaluation can authorize a commit");
  _ ← reject (bool_decide (pin_contract_digest (ab_intent e) ≠ ab_contract_digest e))
        (protocol_error "evaluation evidence contract does not match its frozen intent");
  decision_digest ← map_err (λ error,
      protocol_error ("failed to digest evaluation decision: " +:+ error))
    (content_digest (ab_decision e));
  evidence_digest ← map_err (λ error,
      protocol_error ("failed to digest evaluation evidence: " +:+ error))
    (content_digest e);
  map_err (λ error, protocol_error ("failed to issue commit authorization: " +:+ error))
    (CommitAuthorization_issue (ab_intent e) (ab_candidate_digest e) decision_digest
      evidence_digest).

(** ** The protocol *)

Context `{!Serialize MetricBatch, !Serialize CleanupReceipt, !Serialize ComparisonEvidence}.
Context {P W : Type} `{!Clock W}.

Record AbEvaluationProtocol := MkProtocol {
  ap_capabilities : CapabilitySnapshot W;
  guardrail_measurement : MeasurementProvider W;
  guardrail_binding : MeasurementBinding;
  evaluation_timeout : Z;
}.

Definition empty_specification : Value := json_object [].

Definition missing_capability (message : string) : EvaluationError :=
  MkEvaluationError Ek_MissingCapability message.

(** [AbEvaluationProtocol::new]; the timeout in nanoseconds. *)
Definition AbEvaluationProtocol_new (capabilities : CapabilitySnapshot W) (timeout : Z)
    : outcome EvaluationError AbEvaluationProtocol :=
  if timeout =? 0 then
    Throw (budget_exceeded "evaluation timeout must be greater than zero") else
  match string_id_new N_Capability TRUSTED_GUARDRAIL_MEASUREMENT_ID with
  | Err _ => Panic
  | Ok capability_id => of_result (
      meta ← ok_or (missing_capability ("trusted system guardrail measurement '"
                 +:+ as_str capability_id +:+ "' is unavailable"))
               (snapshot_meta capabilities capability_id);
      _ ← reject (bool_decide (provider_class (provider meta) ≠ Builtin)
                  || bool_decide (effect meta ≠ ReadOnly)
                  || negb (is_allowed_in meta CommitPending))
            (invalid_contract "trusted system guardrail measurement has unsafe metadata");
      guardrail ← ok_or (missing_capability
                      "trusted system guardrail measurement provider is unavailable")
                    (snapshot_measurement capabilities capability_id);
      let binding := MkMeasurementBinding capability_id empty_specification in
      _ ← map_err (λ error, invalid_contract
              ("trusted system guardrail measurement is invalid: " +:+ ProviderError_display error))
            (validate_measurement_specification guardrail (mb_specification binding));
      Ok (MkProtocol capabilities guardrail binding timeout))
  end.

(** The contract measures what the guardrails measure. *)
Definition measures_guardrails (contract : FrozenEvaluationContract) : bool :=
  bool_decide (as_str (mb_capability_id (contract_measurement contract))
               = TRUSTED_GUARDRAIL_MEASUREMENT_ID)
  && bool_decide (mb_specification (contract_measurement contract) = empty_specification).

Definition scheduled_ms (contract : FrozenEvaluationContract) : Z :=
  let sampling := contract_sampling contract in
  let intervals_per_collection := (sample_count sampling - 1) * sample_interval_ms sampling in
  let collections_per_side := if measures_guardrails contract then 1 else 2 in
  settle_ms sampling * 2 + intervals_per_collection * collections_per_side * 2.

(** [sample_count - 1] is a [u32] subtraction: it panics at zero. *)
Definition ensure_schedule_fits (contract : FrozenEvaluationContract) (timeout : Z)
    : outcome EvaluationError unit :=
  if sample_count (contract_sampling contract) =? 0 then Panic else
  of_result (reject (as_millis timeout <? scheduled_ms contract)
    (budget_exceeded ("evaluation contract schedules " +:+ show (scheduled_ms contract)
      +:+ " ms of deterministic waits, exceeding the " +:+ show (as_millis timeout)
      +:+ " ms evaluation budget"))).

(** [validate_declared_metric_references]. *)
Definition check_condition_reference (declared : list string) (binding : ComparisonBinding)
    (meta : CapabilityMeta) (condition : Value) : result EvaluationError unit :=
  match value_get "metric" condition ≫= as_string with
  | None => Ok tt
  | Some metric =>
    reject (bool_decide (metric ∉ declared))
      (invalid_contract ("comparison '" +:+ as_str (cb_capability_id binding)
        +:+ "' references metric '" +:+ metric +:+ "', which measurement '"
        +:+ as_str (meta_id meta) +:+ "' does not declare"))
  end.

Definition validate_declared_metric_references (contract : FrozenEvaluationContract)
    (meta : CapabilityMeta) : result EvaluationError unit :=
  let declared := match value_get "properties" (output_schema meta) ≫= object_keys with
                  | Some keys => keys | None => [] end in
  if bool_decide (declared = []) then Ok tt else
  fold_result (λ _ binding,
    match value_get "conditions" (cb_specification binding) ≫= as_array with
    | None => Ok tt
    | Some conditions =>
      fold_result (λ _ condition, check_condition_reference declared binding meta condition)
        tt conditions
    end) tt (contract_bindings contract).

(** A check the deadline makes, absent when there is none. *)
Section Validation.
Context {S : Type}.
Context (admitting : CapabilityMeta → string → M S EvaluationError unit).
Context (tick : string → M S EvaluationError unit).

(** One turn of the loop of [validate_comparison_capabilities]. *)
Definition validate_comparison (self : AbEvaluationProtocol) (binding : ComparisonBinding)
    : M S EvaluationError unit :=
  let quoted := "'" +:+ as_str (cb_capability_id binding) +:+ "'" in
  policy ← lift (ok_or (missing_capability ("comparison capability " +:+ quoted
                   +:+ " is unavailable"))
                   (snapshot_comparison (ap_capabilities self) (cb_capability_id binding)));
  _ ← admitting (comparison_meta policy)
        ("before frozen comparison " +:+ quoted +:+ " specification validation");
  let validation := validate_comparison_specification policy (cb_specification binding) in
  _ ← tick ("after frozen comparison " +:+ quoted +:+ " specification validation");
  lift (map_err (λ error, invalid_contract ("comparison " +:+ quoted
          +:+ " rejected its frozen specification: " +:+ ProviderError_display error)) validation).

(** A pin of the contract against the snapshot. *)
Definition validate_pin (self : AbEvaluationProtocol) (pin : CapabilityBindingPin)
    : result EvaluationError unit :=
  let quoted := "'" +:+ as_str (bp_capability_id pin) +:+ "'" in
  meta ← ok_or (missing_capability ("pinned capability " +:+ quoted +:+ " is unavailable"))
           (snapshot_meta (ap_capabilities self) (bp_capability_id pin));
  reject (bool_decide (provider meta ≠ bp_provider pin))
    (invalid_contract ("provider pin changed for capability " +:+ quoted)).

Definition validate_contract_with_deadline (self : AbEvaluationProtocol)
    (contract : FrozenEvaluationContract) : M S EvaluationError unit :=
  let id := mb_capability_id (contract_measurement contract) in
  _ ← lift (reject (bool_decide (contract_generation contract
                                 ≠ snap_generation (ap_capabilities self)))
        (invalid_contract ("contract pins capability generation "
          +:+ show (contract_generation contract) +:+ ", runtime has "
          +:+ show (snap_generation (ap_capabilities self)))));
  _ ← lift (fold_result (λ _ pin, validate_pin self pin) tt (capability_pins contract));
  measurement ← lift (ok_or (missing_capability ("measurement capability '" +:+ as_str id
                        +:+ "' is unavailable"))
                        (snapshot_measurement (ap_capabilities self) id));
  _ ← lift (reject (negb (is_agent_selectable (measurement_meta measurement)))
        (invalid_contract ("measurement '" +:+ as_str id
          +:+ "' is reserved for runtime system guardrails")));
  _ ← admitting (measurement_meta measurement) "before frozen measurement specification validation";
  let validation := validate_measurement_specification measurement
                      (mb_specification (contract_measurement contract)) in
  _ ← tick "after frozen measurement specification validation";
  _ ← lift (map_err (λ error, invalid_contract ("measurement '" +:+ as_str id
        +:+ "' rejected its frozen specification: " +:+ ProviderError_display error)) validation);
  _ ← lift (validate_declared_metric_references contract (measurement_meta measurement));
  for_each (validate_comparison self) (contract_bindings contract).
End Validation.

(** [validate_contract]: without a deadline, so without any effect. *)
Definition validate_contract {S} (self : AbEvaluationProtocol) (contract : FrozenEvaluationContract)
    : M S EvaluationError unit :=
  _ ← (λ s, (ensure_schedule_fits contract (evaluation_timeout self), s));
  validate_contract_with_deadline (λ _ _, mret tt) (λ _, mret tt) self contract.

Abbreviation EvM := (M (EvalSys (P := P) (W := W)) EvaluationError).

(** A call of the port: an error is a value, the port and the world move on. *)
Definition call_port {A} (call : P → W → outcome string A * (P * W)) (event : EvalEvent)
    : EvM (result string A) := λ s,
  let '(r, (p, w)) := call (eval_port s) (eval_world s) in
  (match r with Ret a => Ret (Ok a) | Throw e => Ret (Err e) | Panic => Panic end,
   MkEval p w (event :: eval_trace s)).

Definition compare_one (self : AbEvaluationProtocol) (context : InvocationContext)
    (contract : FrozenEvaluationContract) (baseline candidate : MetricBatch)
    (deadline : EvaluationDeadline) (binding : ComparisonBinding) : EvM ComparisonEvidence :=
  let quoted := "'" +:+ as_str (cb_capability_id binding) +:+ "'" in
  let comparison_error message := MkEvaluationError Ek_Comparison message in
  policy ← lift (ok_or (missing_capability ("comparison capability " +:+ quoted
                   +:+ " is unavailable"))
                   (snapshot_comparison (ap_capabilities self) (cb_capability_id binding)));
  let meta := comparison_meta policy in
  let request := MkComparisonRequest context (contract_id contract) (cb_specification binding)
                   baseline candidate in
  _ ← ensure_provider_call deadline meta ("before comparison " +:+ quoted);
  evidence ← call_provider (λ w, (Capability.compare policy request, w))
               (λ _, Ev_Compare meta request);
  _ ← check deadline ("after comparison " +:+ quoted);
  evidence ← lift (map_err (λ error, comparison_error ("comparison " +:+ quoted +:+ " failed: "
                +:+ ProviderError_display error)) evidence);
  encoded ← lift (map_err (λ error,
                comparison_error ("comparison evidence encoding failed: " +:+ error))
                (to_vec evidence));
  _ ← lift (reject (max_output_bytes (limits meta) <? Z.of_nat (String.length encoded))
        (comparison_error ("comparison " +:+ quoted +:+ " exceeded its "
          +:+ show (max_output_bytes (limits meta)) +:+ " byte output limit")));
  mret evidence.

Definition compare_all (self : AbEvaluationProtocol) (context : InvocationContext)
    (contract : FrozenEvaluationContract) (bindings : list ComparisonBinding)
    (baseline candidate : MetricBatch) (deadline : EvaluationDeadline)
    : EvM (list ComparisonEvidence) :=
  mapM (compare_one self context contract baseline candidate deadline) bindings.

(** Both measurements of one side: the guardrails, then the contract's own unless
    it is the same. *)
Definition measure_side (self : AbEvaluationProtocol) (contract : FrozenEvaluationContract)
    (measurement : MeasurementProvider W) (context : InvocationContext)
    (deadline : EvaluationDeadline) : EvM (MeasurementEvidence * MeasurementEvidence) :=
  let plan := contract_sampling contract in
  guardrails ← collect_measurement (guardrail_measurement self) context plan deadline
                 (guardrail_binding self);
  own ← (if bool_decide (contract_measurement contract = guardrail_binding self)
         then mret guardrails
         else collect_measurement measurement context plan deadline
                (contract_measurement contract));
  mret (guardrails, own).

Definition transaction_failed (what error : string) : EvaluationError :=
  MkEvaluationError Ek_Transaction ("failed to " +:+ what +:+ ": " +:+ error).

Definition evaluate (self : AbEvaluationProtocol) (port : TransactionPort P W)
    (context : InvocationContext) (intent : FrozenEvaluationIntent) (candidate : Candidate)
    : EvM AbEvaluationEvidence :=
  _ ← lift (reject (bool_decide (ctx_episode_id context ≠ intent_episode_id intent))
        (invalid_contract "evaluation intent belongs to a different episode"));
  let contract := intent_contract intent in
  let id := mb_capability_id (contract_measurement contract) in
  let settle_time := from_millis (settle_ms (contract_sampling contract)) in
  deadline ← deadline_start (evaluation_timeout self);
  _ ← (λ s, (ensure_schedule_fits contract (evaluation_timeout self), s));
  _ ← validate_contract_with_deadline (ensure_provider_call deadline) (check deadline)
        self contract;
  measurement ← lift (ok_or (missing_capability ("measurement capability '" +:+ as_str id
                        +:+ "' is unavailable"))
                        (snapshot_measurement (ap_capabilities self) id));
  _ ← check deadline "before restoring the baseline";
  restored ← call_port (port_restore_baseline port (change_ids candidate))
               (Ev_RestoreBaseline (change_ids candidate));
  _ ← check deadline "after restoring the baseline";
  baseline_restore ← lift (map_err (transaction_failed "restore evaluation baseline") restored);
  _ ← settle deadline settle_time "while settling the baseline";
  baseline_context ← lift (side_context context "baseline");
  baseline ← measure_side self contract measurement baseline_context deadline;
  _ ← check deadline "before replaying the candidate";
  replayed ← call_port (port_replay_candidate port (change_ids candidate))
               (Ev_ReplayCandidate (change_ids candidate));
  _ ← check deadline "after replaying the candidate";
  candidate_replay ← lift (map_err (transaction_failed "replay evaluation candidate") replayed);
  _ ← settle deadline settle_time "while settling the candidate";
  candidate_context ← lift (side_context context "candidate");
  measured ← measure_side self contract measurement candidate_context deadline;
  let system_baseline := evidence_batch baseline.1 in
  let system_candidate := evidence_batch measured.1 in
  let own_baseline := evidence_batch baseline.2 in
  let own_candidate := evidence_batch measured.2 in
  _ ← check deadline "before checking measurement comparability";
  evidence ←
    (if schemas_are_comparable system_baseline system_candidate own_baseline own_candidate then
       primary ← compare_all self context contract (contract_primary contract)
                   own_baseline own_candidate deadline;
       guards ← compare_all self context contract (contract_regression_guards contract)
                  own_baseline own_candidate deadline;
       invariants ← compare_all self context contract (contract_workload_invariants contract)
                      own_baseline own_candidate deadline;
       mret (MkGroups primary guards invariants)
     else mret ComparisonEvidenceGroups_default);
  _ ← check deadline "before producing the central evaluation verdict";
  let decision := decide_verdict system_baseline system_candidate own_baseline own_candidate
                    evidence in
  _ ← check deadline "after producing the central evaluation verdict";
  mret {| ab_intent := intent_pin_of intent;
          ab_contract_id := contract_id contract;
          ab_contract_digest := contract_digest contract;
          ab_candidate_digest := candidate_digest candidate;
          ab_baseline_restore := baseline_restore;
          ab_baseline_system_guardrails := baseline.1;
          ab_baseline_measurement := baseline.2;
          ab_candidate_replay := candidate_replay;
          ab_candidate_system_guardrails := measured.1;
          ab_candidate_measurement := measured.2;
          ab_decision := decision |}.
End Protocol.
