(* ===== verification/Recovery.v ===== *)
(** * Recovery from the log ([TransactionKernel::recover] in [kernel.rs])

    The replay of a log into the state of a kernel: one definition for the header
    checks and one for each event, the pass that marks the operations left
    without a result, and the checks on a sealed log and on the candidate that
    was being applied.  [recover] can index a missing key, so it is an [outcome]. *)

From S2P Require Export Kernel.

Section Recovery.
Context `{J : Json, !Serialize Value, !Serialize (list ChangeId), !Sha256}.
Context {W T : Type} `{!TransactionWal T}.
Implicit Types (caps : CapabilitySnapshot W).

Definition corrupt (message : string) : TransactionError := err E_CorruptWal message.

(** ** Validation of persisted records *)

Definition validate_recovered_change (tid : TransactionId) caps (change : ChangeRecord)
    : result TransactionError unit :=
  _ ← reject (bool_decide (cr_transaction_id change ≠ tid)
              || bool_decide (cr_resource change ≠ prepared_resource (cr_prepared change))
              || bool_decide (cr_capability_id change
                              ≠ prepared_capability_id (cr_prepared change))
              || bool_decide (cr_supersedes change = Some (cr_change_id change)))
        (corrupt ("change " +:+ quote (cr_change_id change)
                  +:+ " has inconsistent persisted identity"));
  _ ← validate_state_digest (baseline (cr_prepared change)) "persisted baseline" E_CorruptWal;
  _ ← reject (bool_decide (baseline (cr_prepared change) = desired (cr_prepared change)))
        (corrupt ("change " +:+ quote (cr_change_id change)
                  +:+ " has identical baseline and desired states"));
  _ ← validate_state_digest (desired (cr_prepared change)) "persisted desired state" E_CorruptWal;
  _ ← reject (bool_decide (cr_state change ∈ [AppliedVerified; CandidateApplied; Finalized])
              && negb (cr_experiment_verified change))
        (corrupt ("change " +:+ quote (cr_change_id change)
                  +:+ " claims a verified state without durable experiment evidence"));
  meta ← ok_or (err E_CapabilityUnavailable ("capability " +:+ quote (cr_capability_id change)
                  +:+ " is unavailable during recovery"))
           (snapshot_meta caps (cr_capability_id change));
  reject (bool_decide (provider meta ≠ prepared_provider (cr_prepared change))
          || match snapshot_mutation caps (cr_capability_id change) with
             | Some _ => false | None => true
             end)
    (err E_PinMismatch ("provider pin mismatch for recovered change "
                        +:+ quote (cr_change_id change))).

Definition validate_recovered_revision (changes : gmap ChangeId ChangeRecord)
    (heads : gmap ResourceKey ChangeId) (change : ChangeRecord) : result TransactionError unit :=
  _ ← reject (bool_decide (cr_state change ≠ IntentDurable))
        (corrupt ("first WAL record for change " +:+ quote (cr_change_id change)
                  +:+ " is not an apply intent"));
  match cr_supersedes change with
  | None =>
    match heads !! cr_resource change with
    | Some owner =>
      Err (corrupt ("resource " +:+ quote_resource (cr_resource change)
        +:+ " is already owned by change " +:+ quote owner +:+ " but "
        +:+ quote (cr_change_id change) +:+ " has no revision link"))
    | None => Ok tt
    end
  | Some previous_id =>
    _ ← reject (bool_decide (heads !! cr_resource change ≠ Some previous_id))
          (corrupt ("change " +:+ quote (cr_change_id change)
             +:+ " does not supersede the latest revision of resource "
             +:+ quote_resource (cr_resource change)));
    previous ← ok_or (corrupt ("change " +:+ quote (cr_change_id change)
                   +:+ " supersedes unknown change " +:+ quote previous_id))
                 (changes !! previous_id);
    reject (bool_decide (cr_state previous ≠ BaselineRestored)
            || negb (cr_experiment_verified previous)
            || bool_decide (cr_capability_id previous ≠ cr_capability_id change)
            || bool_decide (prepared_provider (cr_prepared previous)
                            ≠ prepared_provider (cr_prepared change))
            || bool_decide (baseline (cr_prepared previous) ≠ baseline (cr_prepared change)))
      (corrupt ("change " +:+ quote (cr_change_id change) +:+ " has an invalid predecessor "
                +:+ quote previous_id))
  end.

Definition validate_recovered_transition (previous next : ChangeRecord)
    : result TransactionError unit :=
  _ ← reject (bool_decide (cr_transaction_id previous ≠ cr_transaction_id next)
              || bool_decide (cr_change_id previous ≠ cr_change_id next)
              || bool_decide (cr_supersedes previous ≠ cr_supersedes next)
              || bool_decide (cr_capability_id previous ≠ cr_capability_id next)
              || bool_decide (cr_resource previous ≠ cr_resource next)
              || bool_decide (cr_prepared previous ≠ cr_prepared next))
        (corrupt ("immutable identity changed for WAL change "
                  +:+ quote (cr_change_id previous)));
  _ ← reject (cr_experiment_verified previous && negb (cr_experiment_verified next))
        (corrupt ("experiment verification was cleared for change "
                  +:+ quote (cr_change_id previous)));
  reject (negb (cr_experiment_verified previous) && cr_experiment_verified next
          && bool_decide (cr_state next ≠ AppliedVerified))
    (corrupt ("change " +:+ quote (cr_change_id previous)
              +:+ " gained experiment verification outside initial apply")).

(** ** The replay state: the local variables of [recover] *)

Record ReplayState := MkReplay {
  rs_changes : gmap ChangeId ChangeRecord;
  rs_order : list ChangeId;
  rs_heads : gmap ResourceKey ChangeId;
  rs_pending : gmap ChangeId (OperationId * OperationIntentKind);
  rs_sealed : option TransactionSeal;
  rs_authorization : option CommitAuthorization;
  rs_saw_start : bool;
  rs_sequence : Z;
}.

Definition replay_start : ReplayState := MkReplay ∅ [] ∅ ∅ None None false 0.

(** The checks every entry passes, and [expected_sequence += 1]. *)
Definition replay_header (tid : TransactionId) (entry : WalEntry) (r : ReplayState)
    : result TransactionError ReplayState :=
  _ ← reject (bool_decide (entry_transaction_id entry ≠ tid))
        (corrupt "WAL contains a different transaction id");
  _ ← reject (bool_decide (sequence entry ≠ rs_sequence r))
        (corrupt ("WAL sequence gap: expected " +:+ show (rs_sequence r) +:+ ", got "
                  +:+ show (sequence entry)));
  Ok (MkReplay (rs_changes r) (rs_order r) (rs_heads r) (rs_pending r) (rs_sealed r)
        (rs_authorization r) (rs_saw_start r) (rs_sequence r + 1)).

Definition replay_started (pin stored : EvaluationIntentPin) (sequence : Z) (r : ReplayState)
    : result TransactionError ReplayState :=
  _ ← reject (rs_saw_start r || bool_decide (stored ≠ pin) || negb (sequence =? 0)%Z)
        (corrupt "transaction start record does not match the expected evaluation intent");
  Ok (MkReplay (rs_changes r) (rs_order r) (rs_heads r) (rs_pending r) (rs_sealed r)
        (rs_authorization r) true (rs_sequence r)).

(** [pending_intents.remove] when the upsert answers the pending intent. *)
Definition answer_pending (change : ChangeRecord)
    (pending : gmap ChangeId (OperationId * OperationIntentKind)) :=
  match pending !! cr_change_id change with
  | Some (operation_id, _) =>
    if bool_decide (operation_id = cr_last_operation_id change)
    then delete (cr_change_id change) pending else pending
  | None => pending
  end.

Definition replay_upsert (tid : TransactionId) caps (change : ChangeRecord) (r : ReplayState)
    : result TransactionError ReplayState :=
  _ ← validate_recovered_change tid caps change;
  '(heads, order) ←
    match rs_changes r !! cr_change_id change with
    | Some previous =>
      _ ← validate_recovered_transition previous change;
      Ok (rs_heads r, rs_order r)
    | None =>
      _ ← reject (bool_decide (MAX_CHANGES_PER_TRANSACTION ≤ size (rs_changes r)))
            (corrupt ("transaction WAL contains more than "
               +:+ show (Z.of_nat MAX_CHANGES_PER_TRANSACTION) +:+ " changes"));
      _ ← reject (cr_experiment_verified change)
            (corrupt ("first WAL record for change " +:+ quote (cr_change_id change)
               +:+ " is already experiment-verified"));
      _ ← validate_recovered_revision (rs_changes r) (rs_heads r) change;
      Ok (<[cr_resource change := cr_change_id change]> (rs_heads r),
          rs_order r ++ [cr_change_id change])
    end;
  Ok (MkReplay (<[cr_change_id change := change]> (rs_changes r)) order heads
        (answer_pending change (rs_pending r)) (rs_sealed r) (rs_authorization r)
        (rs_saw_start r) (rs_sequence r)).

Definition replay_intent (change_id : ChangeId) (operation_id : OperationId)
    (operation : OperationIntentKind) (r : ReplayState) : result TransactionError ReplayState :=
  change ← ok_or (corrupt ("operation intent references unknown change " +:+ quote change_id))
             (rs_changes r !! change_id);
  _ ← reject (bool_decide (operation = Intent_Finalize)
              && (bool_decide (cr_state change ≠ CandidateApplied)
                  || negb (cr_experiment_verified change)))
        (corrupt ("finalize intent references non-candidate change " +:+ quote change_id));
  Ok (MkReplay (rs_changes r) (rs_order r) (rs_heads r)
        (<[change_id := (operation_id, operation)]> (rs_pending r)) (rs_sealed r)
        (rs_authorization r) (rs_saw_start r) (rs_sequence r)).

(** [sealed.replace(outcome).is_some() || entry.sequence + 1 != entries.len()]. *)
Definition misplaced_seal (total : nat) (sequence : Z) (r : ReplayState) : bool :=
  match rs_sealed r with Some _ => true | None => false end
  || negb (sequence + 1 =? Z.of_nat total)%Z.

Definition replay_seal (total : nat) (sequence : Z) (outcome : TransactionSeal) (r : ReplayState)
    : result TransactionError ReplayState :=
  _ ← reject (misplaced_seal total sequence r)
        (corrupt "seal must be the final and only terminal WAL record");
  Ok (MkReplay (rs_changes r) (rs_order r) (rs_heads r) (rs_pending r) (Some outcome)
        (rs_authorization r) (rs_saw_start r) (rs_sequence r)).

(** One iteration of the loop over the terminal changes of a commit seal. *)
Definition replay_terminal (tid : TransactionId) caps (r : ReplayState)
    (seen : gset ChangeId) (terminal : ChangeRecord) : result TransactionError (gset ChangeId) :=
  _ ← validate_recovered_change tid caps terminal;
  previous ← ok_or (corrupt ("commit seal references unknown change "
                      +:+ quote (cr_change_id terminal)))
               (rs_changes r !! cr_change_id terminal);
  _ ← validate_recovered_transition previous terminal;
  _ ← reject ((bool_decide (cr_state terminal = Finalized)
               && bool_decide (cr_state previous ≠ CandidateApplied))
              || (bool_decide (cr_state terminal = RolledBack)
                  && bool_decide (cr_state previous ≠ BaselineRestored)))
        (corrupt "commit seal contains an invalid terminal state transition");
  _ ← reject (negb (bool_decide (cr_state terminal ∈ [Finalized; RolledBack]))
              || bool_decide (cr_change_id terminal ∈ seen))
        (corrupt "commit seal contains duplicate or non-terminal changes");
  _ ← reject (bool_decide (cr_state terminal = Finalized)
              && bool_decide (rs_heads r !! cr_resource terminal
                              ≠ Some (cr_change_id terminal)))
        (corrupt ("commit seal finalized superseded change "
                  +:+ quote (cr_change_id terminal)));
  Ok ({[cr_change_id terminal]} ∪ seen).

Definition finalized_ids (terminal_changes : list ChangeRecord) : list ChangeId :=
  cr_change_id <$> filter (λ c, cr_state c = Finalized) terminal_changes.

Definition replay_commit (tid : TransactionId) (pin : EvaluationIntentPin) caps (total : nat)
    (sequence : Z) (authorization : CommitAuthorization) (terminal_changes : list ChangeRecord)
    (r : ReplayState) : result TransactionError ReplayState :=
  _ ← reject (misplaced_seal total sequence r)
        (corrupt "commit seal must be the final and only terminal WAL record");
  _ ← reject (negb (bool_decide (rs_pending r = ∅)) || bool_decide (terminal_changes = [])
              || bool_decide (length terminal_changes ≠ size (rs_changes r)))
        (corrupt "commit seal does not cover a fully acknowledged change set");
  _ ← fold_result (replay_terminal tid caps r) ∅ terminal_changes;
  committed_candidate ←
    map_err (λ error, corrupt ("commit seal has an invalid candidate: " +:+ error))
      (Candidate_new (finalized_ids terminal_changes));
  _ ← reject (bool_decide (auth_candidate_digest authorization
                           ≠ candidate_digest committed_candidate))
        (corrupt "commit authorization does not match the committed candidate");
  _ ← reject (bool_decide (auth_intent_pin authorization ≠ pin))
        (corrupt "commit authorization does not match the transaction evaluation intent");
  Ok (MkReplay (insert_changes terminal_changes (rs_changes r)) (rs_order r) (rs_heads r)
        (rs_pending r) (Some Seal_Committed) (Some authorization) (rs_saw_start r)
        (rs_sequence r)).

Definition replay_event (tid : TransactionId) (pin : EvaluationIntentPin) caps (total : nat)
    (entry : WalEntry) (r : ReplayState) : result TransactionError ReplayState :=
  match event entry with
  | Started stored _ => replay_started pin stored (sequence entry) r
  | ChangeUpsert change => replay_upsert tid caps change r
  | OperationIntent change_id operation_id operation =>
    replay_intent change_id operation_id operation r
  | Sealed outcome => replay_seal total (sequence entry) outcome r
  | CommitSealed authorization changes =>
    replay_commit tid pin caps total (sequence entry) authorization changes r
  end.

Definition replay_entry (tid : TransactionId) (pin : EvaluationIntentPin) caps (total : nat)
    (r : ReplayState) (entry : WalEntry) : result TransactionError ReplayState :=
  r ← replay_header tid entry r;
  replay_event tid pin caps total entry r.

(** ** After the replay *)

(** A change whose last intent has no result; an initial apply without one. *)
Definition mark_pending (pending : gmap ChangeId (OperationId * OperationIntentKind))
    (change_id : ChangeId) (change : ChangeRecord) : ChangeRecord :=
  match pending !! change_id with
  | Some (operation_id, operation) =>
    let change := if bool_decide (operation ≠ Intent_Finalize)
                  then set_record_state AppliedUnknown change else change in
    set_record_message (Some (match operation with
        | Intent_Finalize =>
          "recovered an unacknowledged finalize request; change remains rollbackable"
        | _ => "recovered an operation intent without a result"
        end)) (set_record_operation operation_id change)
  | None => change
  end.

Definition mark_unapplied (change : ChangeRecord) : ChangeRecord :=
  if bool_decide (cr_state change = IntentDurable) then
    set_record_message (Some "recovered an initial apply intent without a result")
      (set_record_state AppliedUnknown change)
  else change.

Definition settled_changes (r : ReplayState) : gmap ChangeId ChangeRecord :=
  mark_unapplied <$> map_imap (λ id c, Some (mark_pending (rs_pending r) id c)) (rs_changes r).

Definition sealed_terminal (outcome : TransactionSeal) (change : ChangeRecord) : bool :=
  match outcome with
  | Seal_Committed =>
    bool_decide (cr_state change ∈ [Finalized; RolledBack])
    && (bool_decide (cr_state change ≠ Finalized) || cr_experiment_verified change)
  | Seal_RolledBack => bool_decide (cr_state change = RolledBack)
  end.

(** The two passes over [change_order]; a missing key panics. *)
Fixpoint applied_candidates (changes : gmap ChangeId ChangeRecord) (order : list ChangeId)
    : outcome TransactionError (list ChangeId) :=
  match order with
  | [] => mret []
  | id :: order =>
    match changes !! id with
    | None => Panic
    | Some change =>
      ids ← applied_candidates changes order;
      mret (if bool_decide (cr_state change = CandidateApplied) && cr_experiment_verified change
            then id :: ids else ids)
    end
  end.

Fixpoint require_heads (changes : gmap ChangeId ChangeRecord)
    (heads : gmap ResourceKey ChangeId) (ids : list ChangeId) : outcome TransactionError unit :=
  match ids with
  | [] => mret tt
  | id :: ids =>
    match changes !! id with
    | None => Panic
    | Some change =>
      if bool_decide (heads !! cr_resource change ≠ Some id) then
        Throw (corrupt ("superseded change " +:+ quote id +:+ " is candidate-applied"))
      else require_heads changes heads ids
    end
  end.

Definition recover_finish (tid : TransactionId) (pin : EvaluationIntentPin) caps (wal : T)
    (r : ReplayState) : outcome TransactionError (TransactionKernel W T) :=
  _ ← of_result (reject (negb (rs_saw_start r))
        (corrupt "WAL is missing the transaction start record"));
  let changes := settled_changes r in
  _ ← of_result (match rs_sealed r with
                 | Some outcome =>
                   reject (negb (bool_decide
                       (map_Forall (λ _ c, Is_true (sealed_terminal outcome c)) changes)))
                     (corrupt "sealed WAL contains non-terminal or unverified changes")
                 | None => Ok tt
                 end);
  candidate_ids ← applied_candidates changes (rs_order r);
  _ ← require_heads changes (rs_heads r) candidate_ids;
  active_candidate ←
    (if bool_decide (candidate_ids = []) then mret None
     else candidate ← of_result (map_err corrupt (Candidate_new candidate_ids));
          mret (Some candidate));
  mret (MkKernel tid pin caps wal changes (rs_heads r) (rs_order r) (rs_sequence r)
          (rs_sequence r) active_candidate (rs_authorization r) (rs_sealed r)).

Definition replay (tid : TransactionId) (pin : EvaluationIntentPin) caps
    (entries : list WalEntry) : result TransactionError ReplayState :=
  fold_result (replay_entry tid pin caps (length entries)) replay_start entries.

Definition recover (tid : TransactionId) (pin : EvaluationIntentPin) caps (wal : T)
    : outcome TransactionError (TransactionKernel W T) :=
  entries ← of_result (map_err wal_error (load wal));
  r ← of_result (replay tid pin caps entries);
  recover_finish tid pin caps wal r.
End Recovery.
