(* ===== verification/Store.v ===== *)
(** * The transaction store ([tuning_agent/src/kernel/transaction/store.rs])

    The inspection of a log without a kernel ([inspect_log]), and the operations
    of the store on its directory: [create], [open_existing], [discard_unstarted]
    and [discover].  The directory is a map from names to files; every system call
    takes its outcome from a list the environment has in store. *)

From S2P Require Export Recovery Filename.

(** ** What an inspection reports *)

Record FileIdentity := MkFileIdentity { id_device : Z; id_inode : Z }.
#[export] Instance FileIdentity_eq_dec : EqDecision FileIdentity.
Proof. solve_decision. Defined.

Definition identity_from_metadata (m : FileMetadata) : FileIdentity :=
  MkFileIdentity (device m) (inode m).

Section Inspect.
Context `{J : Json, !Serialize Value, !Serialize (list ChangeId), !Sha256}.

Record RecoveryChange := MkRecoveryChange {
  rc_change_id : ChangeId;
  rc_supersedes : option ChangeId;
  rc_capability_id : CapabilityId;
  rc_resource : ResourceKey;
  rc_experiment_verified : bool;
  rc_state : ChangeState;
}.

Record PendingTransaction := MkPending {
  pt_transaction_id : TransactionId;
  pt_intent_pin : EvaluationIntentPin;
  pt_capability_generation : Z;
  pt_path : string;
  pt_entry_count : nat;
  pt_next_sequence : Z;
  pt_changes : list RecoveryChange;
  pt_pending_operation_count : nat;
  pt_has_applied_unknown : bool;
  pt_identity : FileIdentity;
}.

Record SealedTransaction := MkSealed {
  st_transaction_id : TransactionId;
  st_intent_pin : EvaluationIntentPin;
  st_path : string;
  st_outcome : TransactionSeal;
  st_authorization : option CommitAuthorization;
}.

Inductive LogState :=
  | Log_Pending (transaction : PendingTransaction)
  | Log_Sealed (transaction : SealedTransaction).

(** ** [inspect_log]: the local variables and one definition per event *)

Record InspectState := MkInspect {
  is_intent_pin : option EvaluationIntentPin;
  is_generation : option Z;
  is_changes : gmap ChangeId RecoveryChange;
  is_heads : gmap ResourceKey ChangeId;
  is_baselines : gmap ResourceKey Digest;
  is_providers : gmap ResourceKey ProviderPin;
  is_known : gset ChangeId;
  is_pending : gmap ChangeId (OperationId * OperationIntentKind);
  is_sealed : option TransactionSeal;
  is_authorization : option CommitAuthorization;
}.

Definition inspect_start : InspectState := MkInspect None None ∅ ∅ ∅ ∅ ∅ ∅ None None.

Definition wal_err (message : string) : WalError := MkWalError message.

Definition recovery_change (c : ChangeRecord) : RecoveryChange :=
  MkRecoveryChange (cr_change_id c) (cr_supersedes c) (cr_capability_id c) (cr_resource c)
    (cr_experiment_verified c) (cr_state c).

Definition inspect_header (expected : TransactionId) (index : nat) (entry : WalEntry)
    : result WalError unit :=
  _ ← reject (bool_decide (entry_transaction_id entry ≠ expected))
        (wal_err ("WAL entry " +:+ show (Z.of_nat (index + 1))
              +:+ " transaction id does not match its filename"));
  reject (bool_decide (sequence entry ≠ Z.of_nat index))
    (wal_err ("WAL sequence gap at entry " +:+ show (Z.of_nat (index + 1)) +:+ ": expected "
          +:+ show (Z.of_nat index) +:+ ", got " +:+ show (sequence entry))).

Definition inspect_started (index : nat) (pin : EvaluationIntentPin) (generation : Z)
    (i : InspectState) : result WalError InspectState :=
  _ ← reject (negb (index =? 0) || bool_decide (is_Some (is_intent_pin i)))
        (wal_err "transaction WAL must contain exactly one leading start record");
  Ok (MkInspect (Some pin) (Some generation) (is_changes i) (is_heads i) (is_baselines i)
        (is_providers i) (is_known i) (is_pending i) (is_sealed i) (is_authorization i)).

(** [content_digest(&state.value).is_ok_and(|digest| digest == state.digest)]. *)
Definition digest_binds (state : MutationState) : bool :=
  match content_digest (state_value state) with
  | Ok digest => bool_decide (digest = state_digest state)
  | Err _ => false
  end.

(** The checks on the record of a change the log already knows. *)
Definition inspect_known_change (previous : RecoveryChange) (change : ChangeRecord)
    : result WalError unit :=
  _ ← reject (bool_decide (rc_resource previous ≠ cr_resource change)
              || bool_decide (rc_capability_id previous ≠ cr_capability_id change)
              || bool_decide (rc_supersedes previous ≠ cr_supersedes change))
        (wal_err ("change '" +:+ as_str (cr_change_id change)
              +:+ "' changed capability or resource identity in the WAL"));
  _ ← reject (rc_experiment_verified previous && negb (cr_experiment_verified change))
        (wal_err ("change '" +:+ as_str (cr_change_id change)
              +:+ "' cleared durable experiment verification"));
  reject (negb (rc_experiment_verified previous) && cr_experiment_verified change
          && bool_decide (cr_state change ≠ AppliedVerified))
    (wal_err ("change '" +:+ as_str (cr_change_id change)
          +:+ "' gained experiment verification outside initial apply")).

(** The checks on the first record of a change, and the resource tables after it. *)
Definition inspect_new_change (change : ChangeRecord) (i : InspectState)
    : result WalError (gmap ResourceKey Digest * gmap ResourceKey ProviderPin) :=
  _ ← reject (bool_decide (MAX_CHANGES_PER_TRANSACTION ≤ size (is_changes i)))
        (wal_err ("transaction WAL contains more than "
              +:+ show (Z.of_nat MAX_CHANGES_PER_TRANSACTION) +:+ " changes"));
  _ ← reject (cr_experiment_verified change)
        (wal_err ("first WAL record for change '" +:+ as_str (cr_change_id change)
              +:+ "' is already experiment-verified"));
  _ ← reject (bool_decide (cr_state change ≠ IntentDurable))
        (wal_err ("first WAL record for change '" +:+ as_str (cr_change_id change)
              +:+ "' is not an apply intent"));
  match cr_supersedes change with
  | None =>
    match (is_heads i !! cr_resource change : option ChangeId) with
    | Some owner =>
      Err (wal_err ("resource '" +:+ resource_str (cr_resource change) +:+ "' is already owned by '"
                +:+ as_str owner +:+ "' but '" +:+ as_str (cr_change_id change)
                +:+ "' has no revision link"))
    | None =>
      Ok (<[cr_resource change := state_digest (baseline (cr_prepared change))]> (is_baselines i),
          <[cr_resource change := prepared_provider (cr_prepared change)]> (is_providers i))
    end
  | Some previous_id =>
    previous ← ok_or (wal_err ("change '" +:+ as_str (cr_change_id change)
                   +:+ "' supersedes unknown change '" +:+ as_str previous_id +:+ "'"))
                 (is_changes i !! previous_id);
    _ ← reject (bool_decide (is_heads i !! cr_resource change ≠ Some previous_id)
                || bool_decide (rc_state previous ≠ BaselineRestored)
                || negb (rc_experiment_verified previous)
                || bool_decide (rc_capability_id previous ≠ cr_capability_id change)
                || bool_decide (is_baselines i !! cr_resource change
                                ≠ Some (state_digest (baseline (cr_prepared change))))
                || bool_decide (is_providers i !! cr_resource change
                                ≠ Some (prepared_provider (cr_prepared change))))
          (wal_err ("change '" +:+ as_str (cr_change_id change)
                +:+ "' has an invalid predecessor '" +:+ as_str previous_id +:+ "'"));
    Ok (is_baselines i, is_providers i)
  end.

Definition inspect_upsert (expected : TransactionId) (change : ChangeRecord) (i : InspectState)
    : result WalError InspectState :=
  _ ← reject (bool_decide (is_intent_pin i = None))
        (wal_err "change appears before transaction start");
  _ ← reject (bool_decide (cr_transaction_id change ≠ expected))
        (wal_err ("change '" +:+ as_str (cr_change_id change)
              +:+ "' belongs to a different transaction"));
  _ ← reject (negb (digest_binds (baseline (cr_prepared change)))
              || negb (digest_binds (desired (cr_prepared change))))
        (wal_err ("change '" +:+ as_str (cr_change_id change)
              +:+ "' contains a state digest that does not match its value"));
  _ ← reject (bool_decide (state_value (baseline (cr_prepared change))
                           = state_value (desired (cr_prepared change))))
        (wal_err ("change '" +:+ as_str (cr_change_id change)
              +:+ "' has identical baseline and desired states"));
  '(heads, (baselines, providers)) ←
    match is_changes i !! cr_change_id change with
    | Some previous =>
      _ ← inspect_known_change previous change;
      Ok (is_heads i, (is_baselines i, is_providers i))
    | None =>
      tables ← inspect_new_change change i;
      Ok (<[cr_resource change := cr_change_id change]> (is_heads i), tables)
    end;
  _ ← reject (bool_decide (cr_state change ∈ [AppliedVerified; CandidateApplied; Finalized])
              && negb (cr_experiment_verified change))
        (wal_err ("change '" +:+ as_str (cr_change_id change)
              +:+ "' has a verified state without experiment evidence"));
  Ok (MkInspect (is_intent_pin i) (is_generation i)
        (<[cr_change_id change := recovery_change change]> (is_changes i)) heads baselines providers
        ({[cr_change_id change]} ∪ is_known i) (answer_pending change (is_pending i))
        (is_sealed i) (is_authorization i)).

(** [&changes[change_id]] panics on a missing key. *)
Definition inspect_intent (change_id : ChangeId) (operation_id : OperationId)
    (operation : OperationIntentKind) (i : InspectState) : outcome WalError InspectState :=
  _ ← of_result (reject (bool_decide (change_id ∉ is_known i))
        (wal_err ("operation intent references unknown change '" +:+ as_str change_id +:+ "'")));
  _ ← (if bool_decide (operation = Intent_Finalize) then
         match is_changes i !! change_id with
         | None => Panic
         | Some change =>
           of_result (reject (bool_decide (rc_state change ≠ CandidateApplied)
                              || negb (rc_experiment_verified change))
             (wal_err ("finalize intent references non-candidate change '"
                   +:+ as_str change_id +:+ "'")))
         end
       else Ret tt);
  Ret (MkInspect (is_intent_pin i) (is_generation i) (is_changes i) (is_heads i) (is_baselines i)
         (is_providers i) (is_known i) (<[change_id := (operation_id, operation)]> (is_pending i))
         (is_sealed i) (is_authorization i)).

Definition inspect_seal (total index : nat) (outcome : TransactionSeal) (i : InspectState)
    : result WalError InspectState :=
  _ ← reject (bool_decide (outcome = Seal_Committed))
        (wal_err "committed transaction seal is missing commit authorization");
  _ ← reject (negb (index + 1 =? total) || bool_decide (is_Some (is_sealed i)))
        (wal_err "transaction seal must be the final and only seal record");
  Ok (MkInspect (is_intent_pin i) (is_generation i) (is_changes i) (is_heads i) (is_baselines i)
        (is_providers i) (is_known i) (is_pending i) (Some outcome) (is_authorization i)).

(** One iteration of the loop over the terminal changes of a commit seal. *)
Definition inspect_terminal (expected : TransactionId) (i : InspectState) (seen : gset ChangeId)
    (terminal : ChangeRecord) : result WalError (gset ChangeId) :=
  _ ← reject (bool_decide (cr_transaction_id terminal ≠ expected)
              || negb (bool_decide (cr_state terminal ∈ [Finalized; RolledBack]))
              || (bool_decide (cr_state terminal = Finalized)
                  && negb (cr_experiment_verified terminal))
              || bool_decide (cr_change_id terminal ∈ seen))
        (wal_err "commit seal contains invalid terminal changes");
  previous ← ok_or (wal_err ("commit seal references unknown change '"
                 +:+ as_str (cr_change_id terminal) +:+ "'"))
               (is_changes i !! cr_change_id terminal);
  _ ← reject (bool_decide (rc_capability_id previous ≠ cr_capability_id terminal)
              || bool_decide (rc_resource previous ≠ cr_resource terminal)
              || bool_decide (rc_supersedes previous ≠ cr_supersedes terminal)
              || bool_decide (rc_experiment_verified previous ≠ cr_experiment_verified terminal)
              || (bool_decide (cr_state terminal = Finalized)
                  && bool_decide (rc_state previous ≠ CandidateApplied))
              || (bool_decide (cr_state terminal = RolledBack)
                  && bool_decide (rc_state previous ≠ BaselineRestored)))
        (wal_err ("commit seal changed identity or experiment evidence for '"
              +:+ as_str (cr_change_id terminal) +:+ "'"));
  _ ← reject (bool_decide (cr_state terminal = Finalized)
              && bool_decide (is_heads i !! cr_resource terminal ≠ Some (cr_change_id terminal)))
        (wal_err ("commit seal finalized superseded change '"
              +:+ as_str (cr_change_id terminal) +:+ "'"));
  Ok ({[cr_change_id terminal]} ∪ seen).

Definition insert_terminals (terminals : list ChangeRecord) (m : gmap ChangeId RecoveryChange)
    : gmap ChangeId RecoveryChange :=
  foldl (λ m c, <[cr_change_id c := recovery_change c]> m) m terminals.

Definition inspect_commit (expected : TransactionId) (total index : nat)
    (authorization : CommitAuthorization) (terminal_changes : list ChangeRecord)
    (i : InspectState) : result WalError InspectState :=
  _ ← reject (negb (index + 1 =? total) || bool_decide (is_Some (is_sealed i))
              || negb (bool_decide (is_pending i = ∅)) || bool_decide (terminal_changes = [])
              || bool_decide (length terminal_changes ≠ size (is_changes i)))
        (wal_err "commit seal is not a complete, acknowledged terminal record");
  _ ← fold_result (inspect_terminal expected i) ∅ terminal_changes;
  committed_candidate ←
    map_err (λ error, wal_err ("commit seal has an invalid candidate: " +:+ error))
      (Candidate_new (finalized_ids terminal_changes));
  _ ← reject (bool_decide (auth_candidate_digest authorization
                           ≠ candidate_digest committed_candidate))
        (wal_err "commit authorization does not match the committed candidate");
  _ ← reject (bool_decide (Some (auth_intent_pin authorization) ≠ is_intent_pin i))
        (wal_err "commit authorization does not match the transaction evaluation intent");
  Ok (MkInspect (is_intent_pin i) (is_generation i)
        (insert_terminals terminal_changes (is_changes i)) (is_heads i) (is_baselines i)
        (is_providers i) (is_known i) (is_pending i) (Some Seal_Committed) (Some authorization)).

Definition inspect_event (expected : TransactionId) (total index : nat) (entry : WalEntry)
    (i : InspectState) : outcome WalError InspectState :=
  match event entry with
  | Started pin generation => of_result (inspect_started index pin generation i)
  | ChangeUpsert change => of_result (inspect_upsert expected change i)
  | OperationIntent change_id operation_id operation =>
    inspect_intent change_id operation_id operation i
  | Sealed outcome => of_result (inspect_seal total index outcome i)
  | CommitSealed authorization changes =>
    of_result (inspect_commit expected total index authorization changes i)
  end.

Definition inspect_entry (expected : TransactionId) (total : nat) (acc : nat * InspectState)
    (entry : WalEntry) : outcome WalError (nat * InspectState) :=
  let '(index, i) := acc in
  _ ← of_result (inspect_header expected index entry);
  i ← inspect_event expected total index entry i;
  Ret (S index, i).

(** ** After the loop *)

Definition terminal_state (outcome : TransactionSeal) (change : RecoveryChange) : bool :=
  match outcome with
  | Seal_Committed =>
    bool_decide (rc_state change ∈ [Finalized; RolledBack])
    && (bool_decide (rc_state change ≠ Finalized) || rc_experiment_verified change)
  | Seal_RolledBack => bool_decide (rc_state change = RolledBack)
  end.

(** [changes.into_values()] sorted by change id. *)
Definition values_by_id (changes : gmap ChangeId RecoveryChange) : list RecoveryChange :=
  sort_by (λ x y, id_le (rc_change_id x) (rc_change_id y)) (snd <$> map_to_list changes).

Definition unknown_outcome (i : InspectState) : bool :=
  existsb (λ p, bool_decide (p.2.2 ≠ Intent_Finalize)) (map_to_list (is_pending i))
  || existsb (λ p, bool_decide (rc_state p.2 ∈ [IntentDurable; AppliedUnknown]))
       (map_to_list (is_changes i)).

Definition inspect_finish (path : string) (expected : TransactionId) (entry_count : nat)
    (identity : FileIdentity) (i : InspectState) : result WalError LogState :=
  intent_pin ← ok_or (wal_err "transaction WAL has no start record") (is_intent_pin i);
  match is_sealed i with
  | Some outcome =>
    _ ← reject (negb (bool_decide (is_pending i = ∅)))
          (wal_err "sealed transaction WAL contains unresolved operation intents");
    _ ← reject (negb (bool_decide
            (map_Forall (λ _ c, Is_true (terminal_state outcome c)) (is_changes i))))
          (wal_err "sealed transaction WAL contains non-terminal change state");
    authorization ←
      match outcome with
      | Seal_Committed =>
        a ← ok_or (wal_err "committed transaction seal has no authorization") (is_authorization i);
        Ok (Some a)
      | Seal_RolledBack => Ok None
      end;
    Ok (Log_Sealed (MkSealed expected intent_pin path outcome authorization))
  | None =>
    generation ← ok_or (wal_err "transaction WAL start has no generation") (is_generation i);
    Ok (Log_Pending (MkPending expected intent_pin generation path entry_count
          (Z.of_nat entry_count) (values_by_id (is_changes i)) (size (is_pending i))
          (unknown_outcome i) identity))
  end.

Definition inspect_log (path : string) (expected : TransactionId) (entries : list WalEntry)
    (identity : FileIdentity) : outcome WalError LogState :=
  _ ← of_result (reject (bool_decide (entries = [])) (wal_err "transaction WAL is empty"));
  acc ← fold_outcome (inspect_entry expected (length entries)) (0, inspect_start) entries;
  of_result (inspect_finish path expected (length entries) identity acc.2).
End Inspect.
