(* ===== verification/Invariant.v ===== *)
(** * The kernel's state and its log

    What ties a live kernel to its log: the log replays ([good_log]), and every
    record of the kernel is the replayed one up to what a crash or a failed
    append can hide ([tracks]).  Every operation of [Kernel.v] keeps the link
    ([linked]); the specifications of the operations are in [Operations.v]. *)

From S2P Require Export Recovery.

(** ** Characterisations of the recovery checks *)

Section Checks.
Context `{J : Json, !Serialize Value, !Sha256}.
Context {W : Type}.
Implicit Types (caps : CapabilitySnapshot W) (c d : ChangeRecord).

Lemma validate_state_digest_Ok state label kind :
  validate_state_digest state label kind = Ok tt
  ↔ content_digest (state_value state) = Ok (state_digest state).
Proof.
  unfold validate_state_digest. rewrite result_bind_Ok. split.
  - intros (d & Hd & Hr). apply map_err_Ok in Hd. apply reject_Ok in Hr.
    apply bool_decide_eq_false in Hr. by destruct (decide (state_digest state = d)) as [->|].
  - intros Hd. exists (state_digest state). rewrite Hd. simpl.
    by rewrite bool_decide_eq_false_2 by (intros Hn; by apply Hn).
Qed.

Definition claims_verified (st : ChangeState) : bool :=
  bool_decide (st ∈ [AppliedVerified; CandidateApplied; Finalized]).

(** What [validate_recovered_change] demands apart from the state. *)
Record identity_valid (tid : TransactionId) caps (c : ChangeRecord) : Prop := {
  iv_transaction : cr_transaction_id c = tid;
  iv_resource : cr_resource c = prepared_resource (cr_prepared c);
  iv_capability : cr_capability_id c = prepared_capability_id (cr_prepared c);
  iv_supersedes : cr_supersedes c ≠ Some (cr_change_id c);
  iv_baseline : content_digest (state_value (baseline (cr_prepared c)))
                = Ok (state_digest (baseline (cr_prepared c)));
  iv_desired : content_digest (state_value (desired (cr_prepared c)))
               = Ok (state_digest (desired (cr_prepared c)));
  iv_distinct : baseline (cr_prepared c) ≠ desired (cr_prepared c);
  iv_provider : ∃ meta, snapshot_meta caps (cr_capability_id c) = Some meta
                        ∧ provider meta = prepared_provider (cr_prepared c);
  iv_driver : is_Some (snapshot_mutation caps (cr_capability_id c));
}.

Definition record_valid (tid : TransactionId) caps (c : ChangeRecord) : Prop :=
  identity_valid tid caps c
  ∧ (claims_verified (cr_state c) = true → cr_experiment_verified c = true).

Lemma validate_recovered_change_Ok tid caps c :
  validate_recovered_change tid caps c = Ok tt ↔ record_valid tid caps c.
Proof.
  unfold validate_recovered_change, record_valid, claims_verified.
  rewrite !reject_bind_Ok, ok_or_bind_Ok, !validate_state_digest_Ok, !reject_Ok,
    !orb_false_iff, !andb_false_iff, !bool_decide_eq_false, negb_false_iff, bool_decide_eq_true.
  setoid_rewrite reject_Ok. setoid_rewrite orb_false_iff. setoid_rewrite bool_decide_eq_false.
  split.
  - intros ([[[H1 H2] H3] H4] & Hb & Hne & Hd & Hv & m & Hm & Hp & Hs). split.
    + split; try done; try (by apply dec_stable).
      * exists m. split; [done|]. by apply dec_stable.
      * by destruct (snapshot_mutation caps (cr_capability_id c)).
    + naive_solver.
  - intros [[? ? ? ? ? ? ? (m & Hm & Hp) [dr Hdr]] Hv]. split_and!; try done; try by intros Hn.
    + destruct (decide (cr_state c ∈ [AppliedVerified; CandidateApplied; Finalized])) as [Hi|Hi];
        [right; by apply Hv|by left].
    + exists m. rewrite Hm, Hdr. split_and!; try done. by intros Hn.
Qed.

(** The fields of a record that never change after it is created. *)
Record same_identity (c d : ChangeRecord) : Prop := {
  si_transaction : cr_transaction_id c = cr_transaction_id d;
  si_change : cr_change_id c = cr_change_id d;
  si_supersedes : cr_supersedes c = cr_supersedes d;
  si_capability : cr_capability_id c = cr_capability_id d;
  si_resource : cr_resource c = cr_resource d;
  si_prepared : cr_prepared c = cr_prepared d;
}.

#[export] Instance same_identity_equivalence : Equivalence same_identity.
Proof.
  split.
  - by intros c.
  - by intros c d [].
  - intros c d e [] []. split; congruence.
Qed.

Lemma identity_valid_same tid caps c d :
  same_identity c d → identity_valid tid caps c → identity_valid tid caps d.
Proof.
  intros [H1 H2 H3 H4 H5 H6] []. split; rewrite <- ?H1, <- ?H2, <- ?H3, <- ?H4, <- ?H5, <- ?H6; done.
Qed.

Lemma validate_recovered_transition_Ok c d :
  validate_recovered_transition c d = Ok tt ↔
  same_identity c d ∧ (cr_experiment_verified c = true → cr_experiment_verified d = true)
  ∧ (cr_experiment_verified c = false → cr_experiment_verified d = true →
     cr_state d = AppliedVerified).
Proof.
  unfold validate_recovered_transition.
  rewrite !reject_bind_Ok, !reject_Ok, !orb_false_iff, !bool_decide_eq_false. split.
  - intros ([[[[[H1 H2] H3] H4] H5] H6] & Hv & Hg). split_and!.
    + split; by apply dec_stable.
    + intros Hc. rewrite Hc in Hv. by destruct (cr_experiment_verified d).
    + intros Hc Hd. rewrite Hc, Hd in Hg. simpl in Hg.
      apply bool_decide_eq_false in Hg. by apply dec_stable.
  - intros ([] & Hv & Hg). split; [naive_solver|].
    destruct (cr_experiment_verified c), (cr_experiment_verified d); simpl in *;
      rewrite ?bool_decide_eq_false; naive_solver.
Qed.

Lemma validate_recovered_revision_Ok (changes : gmap ChangeId ChangeRecord) heads c :
  validate_recovered_revision changes heads c = Ok tt ↔
  cr_state c = IntentDurable ∧ heads !! cr_resource c = cr_supersedes c
  ∧ ∀ p, cr_supersedes c = Some p → ∃ d, changes !! p = Some d
      ∧ cr_state d = BaselineRestored ∧ cr_experiment_verified d = true
      ∧ cr_capability_id d = cr_capability_id c
      ∧ prepared_provider (cr_prepared d) = prepared_provider (cr_prepared c)
      ∧ baseline (cr_prepared d) = baseline (cr_prepared c).
Proof.
  unfold validate_recovered_revision. rewrite reject_bind_Ok, reject_Ok, bool_decide_eq_false.
  destruct (cr_supersedes c) as [p|].
  - rewrite reject_bind_Ok, reject_Ok, bool_decide_eq_false, ok_or_bind_Ok.
    setoid_rewrite reject_Ok. repeat setoid_rewrite orb_false_iff.
    repeat setoid_rewrite bool_decide_eq_false. setoid_rewrite negb_false_iff. split.
    + intros (H1 & H2 & d & Hd & [[[H3 H4] H5] H6] & H7).
      split_and!; [by apply dec_stable|by apply dec_stable|]. intros ? [= <-].
      exists d. split_and!; try done; by apply dec_stable.
    + intros (H1 & H2 & H3). split; [naive_solver|]. split; [naive_solver|].
      destruct (H3 p) as (d & ? & ? & ? & ? & ? & ?); [done|]. exists d. naive_solver.
  - destruct (heads !! cr_resource c); [naive_solver|].
    split; [|naive_solver]. intros (Hst & _). split; [by apply dec_stable|]. naive_solver.
Qed.
End Checks.

(** ** Logs that replay *)

Section GoodLog.
Context `{J : Json, !Serialize Value, !Serialize (list ChangeId), !Sha256}.
Context {W : Type}.
Implicit Types (caps : CapabilitySnapshot W) (c d : ChangeRecord) (r : ReplayState).

(** What the replayed state of an unsealed log satisfies. *)
Record replay_ok (tid : TransactionId) caps r : Prop := {
  ro_record id c : rs_changes r !! id = Some c → cr_change_id c = id ∧ record_valid tid caps c;
  ro_nodup : NoDup (rs_order r);
  ro_order id : id ∈ rs_order r ↔ is_Some (rs_changes r !! id);
  ro_heads res id :
    rs_heads r !! res = Some id → ∃ c, rs_changes r !! id = Some c ∧ cr_resource c = res;
  ro_candidate id c :
    rs_changes r !! id = Some c → cr_state c = CandidateApplied →
    rs_heads r !! cr_resource c = Some id;
  ro_size : size (rs_changes r) ≤ MAX_CHANGES_PER_TRANSACTION;
  ro_sealed : rs_sealed r = None;
  ro_authorization : rs_authorization r = None;
  ro_start : rs_saw_start r = true;
}.

Definition started_state : ReplayState := MkReplay ∅ [] ∅ ∅ None None true 1.

Definition advance r : ReplayState :=
  MkReplay (rs_changes r) (rs_order r) (rs_heads r) (rs_pending r) (rs_sealed r)
    (rs_authorization r) (rs_saw_start r) (rs_sequence r + 1).

(** The sequence number the kernel gives to the entry after [n] others. *)
Definition sequence_at (n : nat) : Z := Z.min (Z.of_nat n) u64_max.

Inductive good_log (tid : TransactionId) (pin : EvaluationIntentPin) caps
    : list WalEntry → ReplayState → Prop :=
  | good_started g : good_log tid pin caps [MkWalEntry 0 tid (Started pin g)] started_state
  | good_next es r e r' :
      good_log tid pin caps es r →
      entry_transaction_id e = tid →
      sequence e = sequence_at (length es) →
      is_seal e = false →
      replay_event tid pin caps 0 e (advance r) = Ok r' →
      replay_ok tid caps r' →
      good_log tid pin caps (es ++ [e]) r'.

Lemma started_ok tid caps : replay_ok tid caps started_state.
Proof.
  split; simpl; try done; try (intros *; by rewrite lookup_empty).
  - constructor.
  - intros id. rewrite lookup_empty. split; [by intros ?%not_elem_of_nil|by intros []].
  - rewrite map_size_empty. unfold MAX_CHANGES_PER_TRANSACTION. lia.
Qed.

Lemma good_log_ok tid pin caps es r : good_log tid pin caps es r → replay_ok tid caps r.
Proof. destruct 1; [apply started_ok|done]. Qed.

(** An event other than a seal does not look at the length of the log, and
    leaves the sequence number to the header. *)
Lemma replay_event_total tid pin caps n m e r :
  is_seal e = false → replay_event tid pin caps n e r = replay_event tid pin caps m e r.
Proof. unfold is_seal, replay_event. by destruct (event e). Qed.

Lemma replay_event_sequence tid pin caps n e r r' :
  replay_event tid pin caps n e r = Ok r' → rs_sequence r' = rs_sequence r.
Proof.
  unfold replay_event. destruct (event e) as [stored g|c|id op k|o|a cs].
  - unfold replay_started. rewrite reject_bind_Ok. by intros [_ [= <-]].
  - unfold replay_upsert. rewrite reject_bind_Ok, result_bind_Ok.
    by intros (_ & [heads order] & _ & [= <-]).
  - unfold replay_intent. rewrite ok_or_bind_Ok. intros (c & _ & Hr).
    rewrite reject_bind_Ok in Hr. by destruct Hr as [_ [= <-]].
  - unfold replay_seal. rewrite reject_bind_Ok. by intros [_ [= <-]].
  - unfold replay_commit. rewrite !reject_bind_Ok, result_bind_Ok.
    intros (_ & _ & seen & _ & Hr). rewrite result_bind_Ok in Hr. destruct Hr as (cc & _ & Hr).
    rewrite !reject_bind_Ok in Hr. by destruct Hr as (_ & _ & [= <-]).
Qed.

Lemma good_log_sequence tid pin caps es r :
  good_log tid pin caps es r → rs_sequence r = Z.of_nat (length es).
Proof.
  induction 1 as [|es r e r' _ IH _ _ _ Hev _]; [done|].
  rewrite (replay_event_sequence _ _ _ _ _ _ _ Hev). simpl. rewrite IH, length_app. simpl. lia.
Qed.

(** A good log is what the loop of [recover] replays, within a longer log too. *)
Lemma good_log_replay tid pin caps es r total :
  good_log tid pin caps es r → (Z.of_nat (length es) ≤ u64_max)%Z →
  fold_result (replay_entry tid pin caps total) replay_start es = Ok r.
Proof.
  intros Hg. induction Hg as [g|es r e r' Hg IH Ht Hs Hseal Hev Hok]; intros Hlen.
  - unfold fold_result, replay_entry, replay_header, replay_event, replay_started, reject. simpl.
    by rewrite !bool_decide_eq_false_2 by congruence.
  - rewrite length_app in Hlen. simpl in Hlen. rewrite fold_result_snoc, IH by lia. simpl.
    unfold replay_entry, replay_header, reject.
    rewrite (bool_decide_eq_false_2 (entry_transaction_id e ≠ tid)) by (intros Hn; by apply Hn).
    rewrite (bool_decide_eq_false_2 (sequence e ≠ rs_sequence r)).
    + simpl. rewrite (replay_event_total _ _ _ _ 0) by done. exact Hev.
    + rewrite Hs, (good_log_sequence _ _ _ _ _ Hg). unfold sequence_at. lia.
Qed.

Lemma good_log_nonempty tid pin caps es r : good_log tid pin caps es r → es ≠ [].
Proof. destruct 1; [done|]. by destruct es. Qed.

Lemma good_log_prefix tid pin caps es r p :
  good_log tid pin caps es r → p `prefix_of` es → p ≠ [] → ∃ r', good_log tid pin caps p r'.
Proof.
  intros Hg. induction Hg as [g|es r e r' Hg IH Ht Hs Hseal Hev Hok]; intros [q Hq] Hp.
  - destruct p as [|e p]; [done|]. destruct p; simplify_eq/=. exists started_state. constructor.
  - destruct q as [|x q _] using rev_ind.
    + rewrite app_nil_r in Hq. subst. exists r'. by econstructor.
    + rewrite app_assoc in Hq. apply app_inj_tail in Hq as [-> ->].
      apply IH; [|done]. by exists q.
Qed.

Lemma good_log_no_seal tid pin caps es r :
  good_log tid pin caps es r → Forall (λ e, is_seal e = false) es.
Proof.
  induction 1; [by repeat constructor|]. apply Forall_app. by repeat constructor.
Qed.

Lemma good_log_functional tid pin caps es r1 r2 :
  good_log tid pin caps es r1 → good_log tid pin caps es r2 → r1 = r2.
Proof.
  intros Hg. revert r2. induction Hg as [g|es r e r' Hg IH Ht Hs Hseal Hev Hok]; intros r2 H2.
  - inversion H2 as [|es r e r' Hg' ? ? ? ? ? Heq]; [done|].
    destruct es as [|? es]; [by apply good_log_nonempty in Hg'|]. by destruct es.
  - inversion H2 as [g Heq|es2 r2' e2 r2'' Hg' ? ? ? Hev' ? Heq].
    + destruct es as [|? es]; [by apply good_log_nonempty in Hg|]. by destruct es.
    + apply app_inj_tail in Heq as [-> ->]. rewrite (IH _ Hg') in Hev. congruence.
Qed.

(** ** The effect of the entries the kernel appends *)

Definition updated (c : ChangeRecord) (st : ChangeState) (op : OperationId)
    (receipt : option MutationReceipt) (message : option string) (mark : bool) : ChangeRecord :=
  let c := set_record_message message (set_record_receipt receipt
             (set_record_operation op (set_record_state st c))) in
  if mark then set_record_verified true c else c.

Lemma updated_identity c st op rc msg mark : same_identity c (updated c st op rc msg mark).
Proof. by destruct mark. Qed.

Lemma updated_verified c st op rc msg mark :
  cr_experiment_verified (updated c st op rc msg mark) = cr_experiment_verified c || mark.
Proof. destruct mark; simpl; by rewrite ?orb_true_r, ?orb_false_r. Qed.

Lemma updated_state c st op rc msg mark : cr_state (updated c st op rc msg mark) = st.
Proof. by destruct mark. Qed.

(** When a record may be moved to a state. *)
Record may_move (heads : gmap ResourceKey ChangeId) c (st : ChangeState) (mark : bool) : Prop := {
  mm_verified : claims_verified st = true → cr_experiment_verified c || mark = true;
  mm_mark : mark = true → st = AppliedVerified;
  mm_head : st = CandidateApplied → heads !! cr_resource c = Some (cr_change_id c);
}.

Lemma may_move_plain heads c st :
  claims_verified st = false → may_move heads c st false.
Proof. intros Hst. split; try done; [congruence|]. by intros ->. Qed.

Definition replay_updated c r : ReplayState :=
  MkReplay (<[cr_change_id c := c]> (rs_changes r)) (rs_order r) (rs_heads r)
    (answer_pending c (rs_pending r)) (rs_sealed r) (rs_authorization r) (rs_saw_start r)
    (rs_sequence r).

(** The upsert of a known change. *)
Lemma replay_known tid caps c r id d :
  replay_ok tid caps r → rs_changes r !! id = Some d →
  same_identity d c → cr_change_id c = id →
  record_valid tid caps c →
  (cr_experiment_verified d = true → cr_experiment_verified c = true) →
  (cr_experiment_verified d = false → cr_experiment_verified c = true →
   cr_state c = AppliedVerified) →
  (cr_state c = CandidateApplied → rs_heads r !! cr_resource c = Some id) →
  replay_upsert tid caps c r = Ok (replay_updated c r)
  ∧ replay_ok tid caps (replay_updated c r).
Proof.
  intros Hok Hd Hsame Hid Hvalid Hv Hg Hhead. subst id. split.
  - unfold replay_upsert. rewrite (proj2 (validate_recovered_change_Ok _ _ _) Hvalid). simpl.
    rewrite Hd. rewrite (proj2 (validate_recovered_transition_Ok _ _)) by done. done.
  - destruct Hok. split; simpl; try done.
    + intros j e. rewrite lookup_insert_Some. intros [[<- <-]|[_ He]]; [done|by apply ro_record0].
    + intros j. rewrite ro_order0, lookup_insert_is_Some.
      destruct (decide (j = cr_change_id c)) as [->|Hj].
      * split; [by left|]. intros _. by exists d.
      * split; [intros ?; right; by split|]. by intros [|[]].
    + intros res j Hj. destruct (ro_heads0 _ _ Hj) as (e & He & Hres).
      destruct (decide (cr_change_id c = j)) as [<-|].
      * exists c. rewrite lookup_insert_eq. split; [done|]. rewrite <- (si_resource _ _ Hsame). congruence.
      * exists e. by rewrite lookup_insert_ne.
    + intros j e. rewrite lookup_insert_Some. intros [[<- <-]|[? He]]; [done|by apply ro_candidate0].
    + by rewrite map_size_insert_Some.
Qed.

Definition replay_added c r : ReplayState :=
  MkReplay (<[cr_change_id c := c]> (rs_changes r)) (rs_order r ++ [cr_change_id c])
    (<[cr_resource c := cr_change_id c]> (rs_heads r))
    (answer_pending c (rs_pending r)) (rs_sealed r) (rs_authorization r) (rs_saw_start r)
    (rs_sequence r).

(** The upsert of a new change: its first record. *)
Lemma replay_new tid caps c r :
  replay_ok tid caps r → rs_changes r !! cr_change_id c = None →
  record_valid tid caps c → cr_experiment_verified c = false →
  size (rs_changes r) < MAX_CHANGES_PER_TRANSACTION →
  validate_recovered_revision (rs_changes r) (rs_heads r) c = Ok tt →
  replay_upsert tid caps c r = Ok (replay_added c r)
  ∧ replay_ok tid caps (replay_added c r).
Proof.
  intros Hok Hnew Hvalid Hv Hsize Hrev. split.
  - unfold replay_upsert. rewrite (proj2 (validate_recovered_change_Ok _ _ _) Hvalid). simpl.
    rewrite Hnew, bool_decide_eq_false_2 by lia. simpl. rewrite Hv. simpl. by rewrite Hrev.
  - apply validate_recovered_revision_Ok in Hrev as (Hst & Hhead & Hprev).
    destruct Hok. split; simpl; try done.
    + intros j e. rewrite lookup_insert_Some. intros [[<- <-]|[_ He]]; [done|by apply ro_record0].
    + apply NoDup_app. split_and!; [done| |apply NoDup_singleton].
      intros j Hj ->%list_elem_of_singleton. apply ro_order0 in Hj. rewrite Hnew in Hj. by destruct Hj.
    + intros j. rewrite elem_of_app, list_elem_of_singleton, ro_order0, lookup_insert_is_Some.
      destruct (decide (j = cr_change_id c)) as [->|Hj].
      * split; [by left|by right].
      * split; [intros [|]; [right; by split|done]|]. intros [|[]]; [done|by left].
    + intros res j. rewrite lookup_insert_Some. intros [[Hr <-]|[Hne Hj]].
      * exists c. by rewrite lookup_insert_eq.
      * destruct (ro_heads0 _ _ Hj) as (e & He & Hres). exists e. split; [|done].
        rewrite lookup_insert_ne; [done|]. intros Heq. congruence.
    + intros j e. rewrite lookup_insert_Some. intros [[<- <-]|[Hne He]] Hc; [congruence|].
      pose proof (ro_candidate0 _ _ He Hc) as Hj.
      rewrite lookup_insert_ne; [done|]. intros Heq. rewrite <- Heq, Hhead in Hj.
      destruct (Hprev _ Hj) as (d & Hd & Hdst & _). congruence.
    + rewrite map_size_insert_None by done. lia.
Qed.

Definition replay_intended (id : ChangeId) (op : OperationId) (k : OperationIntentKind) r
    : ReplayState :=
  MkReplay (rs_changes r) (rs_order r) (rs_heads r) (<[id := (op, k)]> (rs_pending r))
    (rs_sealed r) (rs_authorization r) (rs_saw_start r) (rs_sequence r).

Lemma replay_intent_ok tid caps r id op k d :
  replay_ok tid caps r → rs_changes r !! id = Some d →
  (k = Intent_Finalize → cr_state d = CandidateApplied) →
  replay_intent id op k r = Ok (replay_intended id op k r)
  ∧ replay_ok tid caps (replay_intended id op k r).
Proof.
  intros Hok Hd Hk. split.
  - unfold replay_intent. rewrite Hd. simpl.
    destruct (decide (k = Intent_Finalize)) as [Hf|Hf].
    + rewrite (bool_decide_eq_true_2 _ Hf), (bool_decide_eq_false_2 (cr_state d ≠ CandidateApplied))
        by (rewrite Hk by done; intros Hn; by apply Hn).
      destruct (ro_record _ _ _ Hok _ _ Hd) as [_ [_ Hv]].
      rewrite Hv; [done|]. unfold claims_verified. rewrite (Hk Hf). reflexivity.
    + by rewrite (bool_decide_eq_false_2 (k = _)) by done.
  - by destruct Hok.
Qed.
End GoodLog.

(** ** Operations a log leaves without a result *)

Section Pending.
Context `{J : Json, !Serialize Value, !Serialize (list ChangeId), !Sha256}.

Definition pending_step (p : gmap ChangeId (OperationId * OperationIntentKind)) (e : WalEntry) :=
  match event e with
  | ChangeUpsert c => answer_pending c p
  | OperationIntent id op kd => <[id := (op, kd)]> p
  | _ => p
  end.

Definition log_pending (es : list WalEntry) : gmap ChangeId (OperationId * OperationIntentKind) :=
  foldl pending_step ∅ es.

Lemma log_pending_app es es' : log_pending (es ++ es') = foldl pending_step (log_pending es) es'.
Proof. apply foldl_app. Qed.

Lemma good_log_pending {W} (tid : TransactionId) pin (caps : CapabilitySnapshot W) es r :
  good_log tid pin caps es r → rs_pending r = log_pending es.
Proof.
  induction 1 as [g|es r e r' Hg IH Ht Hs Hseal Hev Hok]; [done|].
  rewrite log_pending_app, <- IH. simpl. unfold pending_step, replay_event, is_seal in *.
  destruct (event e) as [stored g|c|i op k|o|a cs]; try done.
  - unfold replay_started in Hev. rewrite reject_bind_Ok in Hev. by destruct Hev as [_ [= <-]].
  - unfold replay_upsert in Hev. rewrite reject_bind_Ok, result_bind_Ok in Hev.
    by destruct Hev as (_ & [heads order] & _ & [= <-]).
  - unfold replay_intent in Hev. rewrite ok_or_bind_Ok in Hev. destruct Hev as (c & _ & Hev).
    rewrite reject_bind_Ok in Hev. by destruct Hev as [_ [= <-]].
Qed.

(** An intent answered by an upsert with its operation id leaves nothing pending. *)
Lemma pending_answered p id op kd e1 e2 c :
  event e1 = OperationIntent id op kd → event e2 = ChangeUpsert c →
  cr_change_id c = id → cr_last_operation_id c = op →
  foldl pending_step p [e1; e2] = delete id p.
Proof.
  intros H1 H2 <- <-. simpl. unfold pending_step. rewrite H1, H2. unfold answer_pending.
  by rewrite lookup_insert_eq, bool_decide_eq_true_2, delete_insert_eq.
Qed.
End Pending.
