(* ===== verification/Operations.v ===== *)
(** * Specifications of the kernel's operations

    [linked s r]: the kernel, its log and its trace agree, [r] being the replayed
    log.  [spec X s m Q]: run from a linked state, [m] does not panic, ends in a
    linked state whether it returns or throws, changes only the records in [X],
    and on return satisfies [Q]. *)

From S2P Require Export Invariant.

(** ** The link *)

Section Linked.
Context `{J : Json, !Serialize Value, !Serialize (list ChangeId), !Sha256}.
Context {W T : Type} `{!TransactionWal T, !WalLaws T}.
Implicit Types (s : Sys W T) (k : TransactionKernel W T) (c d : ChangeRecord) (r : ReplayState).

(** A live record against the replayed one. *)
Record tracks c d : Prop := {
  tr_identity : same_identity c d;
  tr_verified : cr_experiment_verified c = cr_experiment_verified d;
  tr_state : cr_state c = cr_state d ∨ cr_state c = AppliedUnknown;
}.

Record agrees k r : Prop := {
  ag_changes id : option_Forall2 tracks (changes k !! id) (rs_changes r !! id);
  ag_heads : resource_heads k = rs_heads r;
  ag_order : change_order k = rs_order r;
  ag_sealed : sealed k = None;
  ag_authorization : commit_authorization k = None;
}.

(** The durable intent of a driver call: an intent entry for a change whose
    logged record carries the prepared mutation, or the first record of a change. *)
Definition announced (kind : OperationIntentKind) (op : OperationId) (prepared : PreparedMutation)
    (log : list WalEntry) (tr : list Effect) : Prop :=
  match tr with
  | Ev_Durable entry :: _ =>
    entry ∈ log ∧
    match event entry with
    | OperationIntent id op' kind' =>
      op' = op ∧ kind' = kind ∧
      ∃ e c, e ∈ log ∧ event e = ChangeUpsert c ∧ cr_change_id c = id ∧ cr_prepared c = prepared
    | ChangeUpsert c =>
      kind = Intent_Apply ∧ cr_state c = IntentDurable ∧ cr_last_operation_id c = op
      ∧ cr_prepared c = prepared
    | _ => False
    end
  | _ => False
  end.

(** Every call that may act on the system follows its durable intent. *)
Fixpoint write_ahead (log : list WalEntry) (tr : list Effect) : Prop :=
  match tr with
  | [] => True
  | e :: tr =>
    match e with
    | Ev_Apply q => announced Intent_Apply (apply_operation_id q) (apply_prepared q) log tr
    | Ev_Restore q => announced Intent_Restore (restore_operation_id q) (restore_prepared q) log tr
    | Ev_Finalize q =>
      announced Intent_Finalize (finalize_operation_id q) (finalize_prepared q) log tr
    | _ => True
    end ∧ write_ahead log tr
  end.

Definition durable_entry (e : Effect) : option WalEntry :=
  match e with Ev_Durable entry => Some entry | _ => None end.

Record logged s r : Prop := {
  lg_wal : wal_ok (wal (kernel s));
  lg_log : good_log (transaction_id (kernel s)) (intent_pin (kernel s))
             (capabilities (kernel s)) (durable (wal (kernel s))) r;
  lg_sequence : next_sequence (kernel s) = sequence_at (length (durable (wal (kernel s))));
  lg_write_ahead : write_ahead (durable (wal (kernel s))) (trace s);
  lg_trace : ∃ base, durable (wal (kernel s)) = base ++ reverse (omap durable_entry (trace s));
}.

Definition linked s r : Prop := logged s r ∧ agrees (kernel s) r.

Definition good s : Prop := ∃ r, linked s r.

Lemma announced_mono kind op p log log' tr :
  log `prefix_of` log' → announced kind op p log tr → announced kind op p log' tr.
Proof.
  intros Hp. assert (∀ e, e ∈ log → e ∈ log').
  { intros e He. destruct Hp as [q ->]. set_solver. }
  unfold announced. destruct tr as [|[entry| | | |] tr]; try done.
  intros [Hin Hev]. split; [auto|]. destruct (event entry); try done.
  destruct Hev as (? & ? & e & c & ? & ?). split_and!; try done. exists e, c. naive_solver.
Qed.

Lemma write_ahead_mono log log' tr :
  log `prefix_of` log' → write_ahead log tr → write_ahead log' tr.
Proof.
  intros Hp. induction tr as [|e tr IH]; simpl; [done|]. intros [He Htr]. split; [|auto].
  destruct e; try done; by eapply announced_mono.
Qed.

(** A replayed record was written to the log. *)
Lemma good_log_upserted (tid : TransactionId) pin (caps : CapabilitySnapshot W) es r id d :
  good_log tid pin caps es r → rs_changes r !! id = Some d →
  ∃ e, e ∈ es ∧ event e = ChangeUpsert d ∧ cr_change_id d = id.
Proof.
  intros Hg. revert id d. induction Hg as [g|es r e r' Hg IH Ht Hs Hseal Hev Hok]; intros id d Hd.
  { simpl in Hd. by rewrite lookup_empty in Hd. }
  assert (rs_changes r !! id = Some d ∨ event e = ChangeUpsert d ∧ cr_change_id d = id) as [Ho|Hn].
  { unfold replay_event, is_seal in *. destruct (event e) as [stored g|c|i op k|o|a cs]; try done.
    - unfold replay_started in Hev. rewrite reject_bind_Ok in Hev. destruct Hev as [_ [= <-]]. by left.
    - unfold replay_upsert in Hev. rewrite reject_bind_Ok, result_bind_Ok in Hev.
      destruct Hev as (_ & [heads order] & _ & [= <-]). simpl in Hd.
      apply lookup_insert_Some in Hd as [[<- <-]|[_ Hd]]; [by right|by left].
    - unfold replay_intent in Hev. rewrite ok_or_bind_Ok in Hev. destruct Hev as (c & _ & Hev).
      rewrite reject_bind_Ok in Hev. destruct Hev as [_ [= <-]]. by left. }
  - destruct (IH _ _ Ho) as (e' & ? & ?). exists e'. set_solver.
  - exists e. set_solver.
Qed.

(** ** What an operation leaves unchanged *)

Definition evolves c d : Prop :=
  same_identity c d ∧ (cr_experiment_verified c = true → cr_experiment_verified d = true).

(** The effects since [s] and the entries they made durable. *)
Definition adds s s' : Prop :=
  ∃ new, trace s' = new ++ trace s
         ∧ durable (wal (kernel s')) = durable (wal (kernel s)) ++ reverse (omap durable_entry new).

Record touches (X : gset ChangeId) s s' : Prop := {
  to_transaction : transaction_id (kernel s') = transaction_id (kernel s);
  to_pin : intent_pin (kernel s') = intent_pin (kernel s);
  to_capabilities : capabilities (kernel s') = capabilities (kernel s);
  to_heads : resource_heads (kernel s') = resource_heads (kernel s);
  to_order : change_order (kernel s') = change_order (kernel s);
  to_active : active_candidate (kernel s') = active_candidate (kernel s);
  to_evolves id : option_Forall2 evolves (changes (kernel s) !! id) (changes (kernel s') !! id);
  to_others id : id ∉ X → changes (kernel s') !! id = changes (kernel s) !! id;
  to_new : adds s s';
}.

#[export] Instance evolves_preorder : PreOrder evolves.
Proof.
  split.
  - by intros c.
  - intros c d e [H1 H2] [H3 H4]. split; [by etrans|auto].
Qed.

Lemma adds_nothing s s' :
  trace s' = trace s → durable (wal (kernel s')) = durable (wal (kernel s)) →
  adds s s'.
Proof. intros Ht Hd. exists []. split; [done|]. by rewrite Hd, app_nil_r. Qed.

Lemma adds_trans s1 s2 s3 :
  adds s1 s2 → adds s2 s3 → adds s1 s3.
Proof.
  intros (n1 & Ht1 & Hd1) (n2 & Ht2 & Hd2). exists (n2 ++ n1).
  by rewrite Ht2, Ht1, Hd2, Hd1, omap_app, reverse_app, <- !app_assoc.
Qed.

Lemma touches_refl X s : touches X s s.
Proof. split; try done. by apply adds_nothing. Qed.

Lemma to_log X s s' : touches X s s' → durable (wal (kernel s)) `prefix_of` durable (wal (kernel s')).
Proof. intros Ht. destruct (to_new _ _ _ Ht) as (new & _ & ->). by eexists. Qed.

Lemma to_trace X s s' : touches X s s' → trace s `suffix_of` trace s'.
Proof. intros Ht. destruct (to_new _ _ _ Ht) as (new & -> & _). by eexists. Qed.

Lemma touches_trans X s1 s2 s3 : touches X s1 s2 → touches X s2 s3 → touches X s1 s3.
Proof.
  intros [] []. split; try congruence; try (by etrans).
  3: by eapply adds_trans.
  - intros id. specialize (to_evolves0 id). specialize (to_evolves1 id).
    inversion to_evolves0 as [c d Hcd Hc Hd|Hc Hd]; rewrite <- Hd in to_evolves1;
      inversion to_evolves1; constructor. by etrans.
  - intros id Hid. rewrite to_others1 by done. auto.
Qed.

Lemma touches_weaken X Y s1 s2 : X ⊆ Y → touches X s1 s2 → touches Y s1 s2.
Proof. intros HXY []. split; try done. intros id Hid. apply to_others0. set_solver. Qed.

Lemma touches_change X s s' id c :
  touches X s s' → changes (kernel s) !! id = Some c →
  ∃ d, changes (kernel s') !! id = Some d ∧ evolves c d.
Proof.
  intros Ht Hc. pose proof (to_evolves _ _ _ Ht id) as He. rewrite Hc in He.
  inversion He as [? d|]; simplify_eq. eauto.
Qed.

Lemma touches_same s s' : touches ∅ s s' → changes (kernel s') = changes (kernel s).
Proof. intros Ht. apply map_eq. intros id. apply (to_others _ _ _ Ht). set_solver. Qed.

(** ** What the log leaves without a result *)

Definition pending s : gmap ChangeId (OperationId * OperationIntentKind) :=
  log_pending (durable (wal (kernel s))).

(** Nothing in the log is waiting for a result. *)
Definition settled s : Prop := pending s = ∅.

Lemma pending_new s s' new :
  adds s s' → trace s' = new ++ trace s →
  pending s' = foldl pending_step (pending s) (reverse (omap durable_entry new)).
Proof.
  intros (n & Ht & Hd) Ht'. rewrite Ht in Ht'. apply app_inv_tail in Ht' as ->.
  unfold pending. by rewrite Hd, log_pending_app.
Qed.

Lemma omap_silent (new : list Effect) :
  Forall (λ e, durable_entry e = None) new → omap durable_entry new = [].
Proof. induction 1 as [|e l He _ IH]; [done|]. csimpl. by rewrite He. Qed.

Lemma pending_silent s s' new :
  adds s s' → trace s' = new ++ trace s → Forall (λ e, durable_entry e = None) new →
  pending s' = pending s.
Proof. intros Ha Ht Hn. by rewrite (pending_new _ _ _ Ha Ht), omap_silent. Qed.

Lemma settled_silent s s' new :
  adds s s' → trace s' = new ++ trace s → Forall (λ e, durable_entry e = None) new →
  settled s → settled s'.
Proof. intros Ha Ht Hn. unfold settled. by rewrite (pending_silent _ _ _ Ha Ht). Qed.

Lemma answer_pending_empty c : answer_pending c ∅ = ∅.
Proof. unfold answer_pending. by rewrite lookup_empty. Qed.

(** ** Specifications *)

Definition spec {A} (X : gset ChangeId) s (m : M (Sys W T) TransactionError A)
    (Q : A → Sys W T → Prop) : Prop :=
  good s →
  wp m (λ a s', good s' ∧ touches X s s' ∧ Q a s') (λ _ s', good s' ∧ touches X s s') s.

Lemma spec_ret {A} X s (a : A) (Q : A → Sys W T → Prop) : Q a s → spec X s (mret a) Q.
Proof. intros HQ Hg. apply wp_ret. eauto using touches_refl. Qed.

Lemma spec_good {A} X s (m : M (Sys W T) TransactionError A) Q :
  (good s → spec X s m Q) → spec X s m Q.
Proof. intros Hm Hg. by apply Hm. Qed.

Lemma spec_throw {A} X s e (Q : A → Sys W T → Prop) : spec X s (throw e) Q.
Proof. intros Hg. apply wp_throw. eauto using touches_refl. Qed.

Lemma spec_gets {A} X s (f : Sys W T → A) (Q : A → Sys W T → Prop) : Q (f s) s → spec X s (gets f) Q.
Proof. intros HQ Hg. apply wp_gets. eauto using touches_refl. Qed.

Lemma spec_lift {A} X s (m : result TransactionError A) (Q : A → Sys W T → Prop) :
  (∀ a, m = Ok a → Q a s) → spec X s (lift m) Q.
Proof. intros HQ Hg. apply wp_lift; eauto using touches_refl. Qed.

Lemma spec_bind {A B} X Y s (m : M (Sys W T) TransactionError A)
    (f : A → M (Sys W T) TransactionError B) Q Q' :
  spec X s m Q → X ⊆ Y →
  (∀ a s', touches X s s' → Q a s' → spec Y s' (f a) Q') →
  spec Y s (m ≫= f) Q'.
Proof.
  intros Hm HXY Hf Hg. apply wp_bind. eapply wp_mono; [by apply Hm| |].
  - intros a s' (Hg' & Ht & HQ). eapply wp_mono; [by eapply Hf| |].
    + intros b s'' (? & ? & ?). eauto using touches_trans, touches_weaken.
    + intros e s'' (? & ?). eauto using touches_trans, touches_weaken.
  - intros e s' (? & ?). eauto using touches_weaken.
Qed.

Lemma spec_mono {A} X Y s (m : M (Sys W T) TransactionError A) (Q Q' : A → Sys W T → Prop) :
  spec X s m Q → X ⊆ Y → (∀ a s', good s' → touches X s s' → Q a s' → Q' a s') → spec Y s m Q'.
Proof.
  intros Hm HXY HQ Hg. eapply wp_mono; [by apply Hm| |].
  - intros a s' (? & ? & ?). eauto using touches_weaken.
  - intros e s' (? & ?). eauto using touches_weaken.
Qed.

Lemma spec_attempt {A} X s (m : M (Sys W T) TransactionError A) Q :
  spec X s m Q → spec X s (attempt m) (λ o s', ∀ a, o = Ok a → Q a s').
Proof.
  intros Hm Hg. apply wp_attempt. eapply wp_mono; [by apply Hm| |].
  - intros a s' (? & ? & ?). split_and!; try done. by intros ? [= <-].
  - intros e s' (? & ?). split_and!; done.
Qed.

Lemma spec_for_each {A} X s (f : A → M (Sys W T) TransactionError unit) (I : list A → Sys W T → Prop) l :
  I [] s →
  (∀ pre a post s', l = pre ++ a :: post → touches X s s' → I pre s' →
    spec X s' (f a) (λ _, I (pre ++ [a]))) →
  spec X s (for_each f l) (λ _, I l).
Proof.
  intros H0 Hstep. cut (∀ post pre s', l = pre ++ post → touches X s s' → I pre s' →
    spec X s' (for_each f post) (λ _, I l)).
  { intros Hgo. apply (Hgo l []); [done|apply touches_refl|done]. }
  induction post as [|a post IH]; intros pre s' Hl Ht HI; simpl.
  - apply spec_ret. rewrite app_nil_r in Hl. by subst.
  - eapply spec_bind; [by eapply Hstep|done|].
    intros [] s'' Ht' HI'. apply (IH (pre ++ [a])); [by rewrite Hl, <- app_assoc|by eapply touches_trans|done].
Qed.

(** ** Leaves *)

Lemma good_same s s' :
  kernel s' = kernel s → trace s' = trace s → good s → good s' ∧ ∀ X, touches X s s'.
Proof.
  destruct s as [k w tr], s' as [k' w' tr']. simpl. intros -> -> [r [[] Hag]]. split.
  - exists r. by split.
  - split; try done. by apply adds_nothing.
Qed.

Lemma spec_call_driver {A} X s (call : W → result ProviderError A * W) :
  spec X s (call_driver call) (λ _ s', kernel s' = kernel s ∧ trace s' = trace s).
Proof.
  intros Hg. unfold wp, call_driver. destruct (call (world s)) as [o w].
  destruct (good_same s (MkSys (kernel s) w (trace s))) as [? Ht]; done.
Qed.

(** What an effect needs before it. *)
Definition effect_announced (log : list WalEntry) (e : Effect) (tr : list Effect) : Prop :=
  match e with
  | Ev_Durable _ => False
  | Ev_Verify _ _ => True
  | Ev_Apply q => announced Intent_Apply (apply_operation_id q) (apply_prepared q) log tr
  | Ev_Restore q => announced Intent_Restore (restore_operation_id q) (restore_prepared q) log tr
  | Ev_Finalize q => announced Intent_Finalize (finalize_operation_id q) (finalize_prepared q) log tr
  end.

Lemma spec_emit X s e :
  (good s → effect_announced (durable (wal (kernel s))) e (trace s)) →
  spec X s (emit e) (λ _ s', kernel s' = kernel s ∧ trace s' = e :: trace s).
Proof.
  intros He Hg. specialize (He Hg). unfold emit. apply wp_modify.
  destruct Hg as [r [[Hw Hl Hs Ha [base Hb]] Hag]]. split_and!; try done.
  - exists r. split; [|done]. split; try done; simpl.
    + destruct e; try done; by split.
    + exists base. destruct e; done.
  - split; try done. exists [e]. split; [done|]. destruct e; [done|..]; by rewrite app_nil_r.
Qed.

Lemma spec_read_back X s (d : MutationDriver W) q :
  spec X s (read_back d q)
    (λ o s', kernel s' = kernel s ∧
      trace s' = Ev_Verify q (match o with Ok v => matched v | Err _ => false end) :: trace s).
Proof.
  unfold read_back. eapply spec_bind; [apply spec_call_driver|done|].
  intros o s1 _ [Hk1 Ht1]. eapply spec_bind; [by apply spec_emit|done|].
  intros [] s2 _ [Hk2 Ht2]. apply spec_ret. by rewrite Hk2, Ht2, Hk1, Ht1.
Qed.

Lemma spec_next_operation_id s label : spec ∅ s (next_operation_id label) (λ _ s', trace s' = trace s).
Proof.
  unfold next_operation_id. intros [r [[] []]].
  repeat (apply wp_bind || apply wp_modify || apply wp_gets).
  assert (good (on_kernel (λ k, set_operation_counter (u64_saturating_add (operation_counter k) 1) k) s)
    ∧ touches ∅ s (on_kernel (λ k, set_operation_counter (u64_saturating_add (operation_counter k) 1) k) s))
    as [Hg Ht].
  { split; [exists r; by repeat split|]. split; try done. by apply adds_nothing. }
  apply wp_lift; intros; by split_and?.
Qed.

Lemma spec_change_at X s id c :
  changes (kernel s) !! id = Some c → spec X s (change_at id) (λ a s', a = c ∧ s' = s).
Proof.
  intros Hc Hg. unfold change_at. apply wp_bind, wp_gets. eapply wp_expect; [done|].
  split_and!; try done. apply touches_refl.
Qed.

Lemma spec_ensure_open X s : spec X s ensure_open (λ _ s', s' = s).
Proof.
  intros Hg. unfold ensure_open. apply wp_bind, wp_gets.
  destruct (sealed (kernel s)); [apply wp_throw|apply wp_ret]; eauto using touches_refl.
Qed.

Lemma spec_driver X s cap : spec X s (driver cap)
  (λ dr s', s' = s ∧ snapshot_mutation (capabilities (kernel s)) cap = Some dr).
Proof.
  unfold driver. eapply spec_bind; [by apply spec_gets with (Q := λ x s', x = capabilities (kernel s) ∧ s' = s)|done|].
  intros caps s' _ [-> ->]. apply spec_lift. intros d Hd. unfold driver_for in Hd.
  by rewrite ok_or_Ok in Hd.
Qed.

Lemma spec_driver_for_record X s c : spec X s (driver_for_record c) (λ _ s', s' = s).
Proof.
  unfold driver_for_record. eapply spec_bind; [apply spec_driver|done|].
  intros d s' _ [-> _]. case_bool_decide; [apply spec_throw|by apply spec_ret].
Qed.

(** ** Appends *)

Lemma sequence_at_succ n : u64_saturating_add (sequence_at n) 1 = sequence_at (S n).
Proof. unfold u64_saturating_add, sequence_at. lia. Qed.

Definition appended (ev : WalEvent) (w : T) s : Sys W T :=
  MkSys (bump_sequence (set_wal w (kernel s))) (world s) (Ev_Durable (new_entry ev s) :: trace s).

(** An append the replay accepts: acknowledged, the log is good for the new
    replay state; refused, nothing changed. *)
Lemma wp_append s r r' ev (Q : unit → Sys W T → Prop) (R : TransactionError → Sys W T → Prop) :
  linked s r →
  match ev with Sealed _ | CommitSealed _ _ => False | _ => True end →
  replay_event (transaction_id (kernel s)) (intent_pin (kernel s)) (capabilities (kernel s)) 0
    (new_entry ev s) (advance r) = Ok r' →
  replay_ok (transaction_id (kernel s)) (capabilities (kernel s)) r' →
  (∀ w, durable w = durable (wal (kernel s)) ++ [new_entry ev s] →
    logged (appended ev w s) r' → Q tt (appended ev w s)) →
  (∀ e s', linked s' r → (∀ X, touches X s s') → changes (kernel s') = changes (kernel s) → R e s') →
  wp (append_event ev) Q R s.
Proof.
  intros [[Hw Hl Hs Ha [base Hb]] Hag] Hev Hr Hok HQ HR.
  unfold append_event. apply wp_bind, wp_gets, wp_bind. unfold wp at 1, call_wal.
  pose proof (append_durable_law _ (new_entry ev s) Hw) as Hlaw.
  destruct (append_durable (new_entry ev s) (wal (kernel s))) as [[[]|err] w]; destruct Hlaw as [Hw' Hd'].
  - apply wp_bind, wp_lift; [|done]. intros _ _. apply wp_modify. apply HQ; [done|].
    split; simpl; try done.
    + rewrite Hd'. eapply good_next; try done. unfold is_seal. simpl. by destruct ev.
    + rewrite Hs, Hd', sequence_at_succ, length_app. simpl. f_equal. lia.
    + split; [done|]. eapply write_ahead_mono; [|done]. rewrite Hd'. by eexists.
    + exists base. by rewrite Hd', reverse_cons, app_assoc, Hb.
  - apply wp_bind, wp_lift; [done|]. intros e _. apply HR; [|intros X|done].
    + destruct Hag. split; split; simpl; try done; rewrite ?Hd'; eauto.
    + split; simpl; try done. by apply adds_nothing.
Qed.

Lemma agrees_lookup k r id c :
  agrees k r → changes k !! id = Some c → ∃ d, rs_changes r !! id = Some d ∧ tracks c d.
Proof.
  intros Hag Hc. pose proof (ag_changes _ _ Hag id) as Hid. rewrite Hc in Hid.
  inversion Hid; simplify_eq. eauto.
Qed.

Lemma good_id s id c : good s → changes (kernel s) !! id = Some c → cr_change_id c = id.
Proof.
  intros [r [Hlog Hag]] Hc. destruct (agrees_lookup _ _ _ _ Hag Hc) as (d & Hd & [Hi _ _]).
  destruct (ro_record _ _ _ (good_log_ok _ _ _ _ _ (lg_log _ _ Hlog)) _ _ Hd) as [Hid _].
  rewrite <- Hid. apply Hi.
Qed.

Lemma agrees_is_Some k r id :
  agrees k r → is_Some (changes k !! id) ↔ is_Some (rs_changes r !! id).
Proof.
  intros Hag. pose proof (ag_changes _ _ Hag id) as Hid.
  inversion Hid; split; intros []; by eauto.
Qed.

Lemma replay_ok_advance tid (caps : CapabilitySnapshot W) r :
  replay_ok tid caps r → replay_ok tid caps (advance r).
Proof. by destruct 1. Qed.

(** [persist_change] on a known change that may move to the new state. *)
Lemma spec_persist s id c st op rc msg mark :
  changes (kernel s) !! id = Some c →
  may_move (resource_heads (kernel s)) c st mark →
  spec {[id]} s (persist_change id st op rc msg mark)
    (λ _ s', changes (kernel s') = <[id := updated c st op rc msg mark]> (changes (kernel s))
             ∧ trace s' = Ev_Durable (new_entry (ChangeUpsert (updated c st op rc msg mark)) s) :: trace s).
Proof.
  intros Hc [Hmv Hmm Hmh] [r Hlink]. pose proof Hlink as [Hlog Hag].
  unfold persist_change. apply wp_bind, wp_gets, wp_bind, wp_lift.
  2: { intros e He. by rewrite Hc in He. }
  intros c' Hc'. rewrite Hc in Hc'. injection Hc' as <-.
  fold (updated c st op rc msg mark). set (u := updated c st op rc msg mark).
  destruct (agrees_lookup _ _ _ _ Hag Hc) as (d & Hd & [Hi Hv Hst]).
  pose proof (good_log_ok _ _ _ _ _ (lg_log _ _ Hlog)) as Hok.
  destruct (ro_record _ _ _ Hok _ _ Hd) as [Hid [Hval _]].
  assert (same_identity c u) as Hcu by apply updated_identity.
  assert (same_identity d u) as Hdu by (etrans; [by symmetry|done]).
  assert (cr_state u = st) as Hust by apply updated_state.
  assert (cr_experiment_verified u = cr_experiment_verified c || mark) as Huv
    by apply updated_verified.
  assert (cr_change_id u = id) as Huid by (rewrite <- (si_change _ _ Hdu); done).
  destruct (replay_known (transaction_id (kernel s)) (capabilities (kernel s)) u (advance r) id d)
    as [Hup Hok']; try done.
  { by apply replay_ok_advance. }
  { split; [by eapply identity_valid_same|]. rewrite Hust, Huv. done. }
  { rewrite Huv, Hv. by intros ->. }
  { rewrite Huv, Hv, Hust. intros -> Hm. by apply Hmm. }
  { rewrite Hust. intros Hcand. simpl. rewrite <- (ag_heads _ _ Hag), <- (si_resource _ _ Hcu).
    rewrite (Hmh Hcand). by rewrite (si_change _ _ Hcu), Huid. }
  apply wp_bind. eapply wp_append with (r := r); try done.
  - intros w Hw Hlog'. apply wp_modify. split_and!.
    + exists (replay_updated u (advance r)). destruct Hlog', Hag. split; split; simpl; try done.
      intros j. rewrite Huid. destruct (decide (id = j)) as [<-|Hne].
      * rewrite !lookup_insert_eq. constructor. split; [done|done|by left].
      * rewrite !lookup_insert_ne by done. apply ag_changes0.
    + split; simpl; try done.
      * intros j. destruct (decide (id = j)) as [<-|Hne].
        -- rewrite lookup_insert_eq, Hc. constructor. split; [done|]. rewrite Huv. by intros ->.
        -- by rewrite lookup_insert_ne.
      * intros j Hj. apply lookup_insert_ne. set_solver.
      * exists [Ev_Durable (new_entry (ChangeUpsert u) s)]. split; [done|]. simpl. by rewrite Hw.
    + done.
    + done.
  - intros e s' Hl Ht _. split; [by exists r|apply Ht].
Qed.

Lemma spec_append_intent s id c op kd :
  changes (kernel s) !! id = Some c →
  (kd = Intent_Finalize → cr_state c = CandidateApplied) →
  spec ∅ s (append_operation_intent id op kd)
    (λ _ s', announced kd op (cr_prepared c) (durable (wal (kernel s'))) (trace s')
      ∧ trace s' = Ev_Durable (new_entry (OperationIntent id op kd) s) :: trace s).
Proof.
  intros Hc Hk [r Hlink]. pose proof Hlink as [Hlog Hag].
  destruct (agrees_lookup _ _ _ _ Hag Hc) as (d & Hd & [Hi Hv Hst]).
  pose proof (good_log_ok _ _ _ _ _ (lg_log _ _ Hlog)) as Hok.
  destruct (replay_intent_ok (transaction_id (kernel s)) (capabilities (kernel s)) (advance r)
    id op kd d) as [Hup Hok']; [by apply replay_ok_advance|done| |].
  { intros Hf. destruct Hst as [<-|Hst]; [by apply Hk|]. rewrite (Hk Hf) in Hst. done. }
  unfold append_operation_intent. eapply wp_append with (r := r); try done.
  - intros w Hw Hlog'. split_and!.
    + exists (replay_intended id op kd (advance r)). split; [done|]. destruct Hag. by split.
    + split; simpl; try done.
      exists [Ev_Durable (new_entry (OperationIntent id op kd) s)]. split; [done|]. simpl. by rewrite Hw.
    + simpl. rewrite Hw. split; [set_solver|]. split_and!; try done.
      destruct (good_log_upserted _ _ _ _ _ _ _ (lg_log _ _ Hlog) Hd) as (e & He & Hev & Hid).
      exists e, d. split_and!; [set_solver|done|done|]. symmetry. apply Hi.
    + done.
  - intros e s' Hl Ht _. split; [by exists r|apply Ht].
Qed.

(** ** Recording the outcome of an operation *)

Lemma spec_update_change s id c st op rc msg :
  changes (kernel s) !! id = Some c → may_move (resource_heads (kernel s)) c st false →
  spec {[id]} s (update_change id st op rc msg)
    (λ _ s', changes (kernel s') = <[id := updated c st op rc msg false]> (changes (kernel s))
             ∧ trace s' = Ev_Durable (new_entry (ChangeUpsert (updated c st op rc msg false)) s) :: trace s).
Proof. apply spec_persist. Qed.

Lemma spec_update_after_effect s id c st op rc msg mark :
  changes (kernel s) !! id = Some c → may_move (resource_heads (kernel s)) c st mark →
  spec {[id]} s (update_after_effect id st op rc msg mark)
    (λ _ s', changes (kernel s') = <[id := updated c st op rc msg mark]> (changes (kernel s))
             ∧ trace s' = Ev_Durable (new_entry (ChangeUpsert (updated c st op rc msg mark)) s) :: trace s).
Proof.
  intros Hc Hmv. unfold update_after_effect.
  eapply spec_bind; [by apply spec_attempt, spec_persist|done|].
  intros [[]|e] s' Ht Hpost; [by apply spec_ret, (Hpost tt)|]. clear Hpost.
  eapply spec_bind with (Q := λ _ _, True); [|done|intros; apply spec_throw].
  intros [r [[] []]]. apply wp_modify. split_and!; [|split|done]; simpl; try done; try by apply adds_nothing.
  - exists r. split; split; simpl; try done.
    intros j. specialize (ag_changes0 j). destruct (decide (id = j)) as [<-|Hne].
    + rewrite lookup_alter_eq. inversion ag_changes0 as [x y [? ? ?] Hx Hy|Hx Hy]; constructor.
      split; [|done|by right]. etrans; [|done]. by symmetry.
    + by rewrite lookup_alter_ne.
  - intros j. destruct (decide (id = j)) as [<-|Hne].
    + rewrite lookup_alter_eq. destruct (changes (kernel s') !! id); by constructor.
    + by rewrite lookup_alter_ne.
  - intros j Hj. apply lookup_alter_ne. set_solver.
Qed.

Lemma spec_set_unknown s id c op rc msg :
  changes (kernel s) !! id = Some c → spec {[id]} s (set_unknown id op rc msg) (λ _ _, True).
Proof.
  intros Hc. eapply spec_mono; [apply spec_update_change; [done|by apply may_move_plain]|done|done].
Qed.

Lemma spec_unknown_after_provider_error s id c op e :
  changes (kernel s) !! id = Some c →
  spec {[id]} s (unknown_after_provider_error id op e) (λ _ _, True).
Proof.
  intros Hc. unfold unknown_after_provider_error.
  eapply spec_bind; [by eapply spec_attempt, spec_set_unknown|done|]. intros. by apply spec_ret.
Qed.

Lemma spec_mark_apply_unknown s id c op rc msg :
  changes (kernel s) !! id = Some c → spec {[id]} s (mark_apply_unknown id op rc msg) (λ _ _, False).
Proof.
  intros Hc. unfold mark_apply_unknown.
  eapply spec_bind; [by eapply spec_set_unknown|done|]. intros. apply spec_throw.
Qed.

Lemma spec_mark_drift {A} s id c msg :
  changes (kernel s) !! id = Some c → spec {[id]} s (mark_drift (A := A) id msg) (λ _ _, False).
Proof.
  intros Hc. unfold mark_drift. eapply spec_bind; [apply spec_next_operation_id|done|].
  intros op s1 Ht _. eapply spec_bind; [|done|intros; apply spec_throw].
  apply spec_update_change; [by rewrite (touches_same _ _ Ht)|by apply may_move_plain].
Qed.

(** ** Readback *)

Definition expected_state (e : ExpectedState) c : MutationState :=
  match e with
  | Expect_Baseline => baseline (cr_prepared c)
  | Expect_Desired => desired (cr_prepared c)
  end.

Lemma spec_matches_expected s id c e :
  changes (kernel s) !! id = Some c →
  spec ∅ s (matches_expected id e)
    (λ b s', ∃ q, trace s' = Ev_Verify q b :: trace s
                  ∧ verify_prepared q = cr_prepared c ∧ verify_expected q = expected_state e c).
Proof.
  intros Hc. unfold matches_expected.
  eapply spec_bind; [by apply spec_change_at|done|]. intros ? s1 _ [-> ->].
  eapply spec_bind; [apply spec_driver_for_record|done|]. intros d s1 _ ->.
  eapply spec_bind with (Q := λ k s', k = kernel s ∧ s' = s); [by apply spec_gets|done|].
  intros k s1 _ [-> ->].
  eapply spec_bind with (Q := λ _ s', s' = s); [by apply spec_lift|done|]. intros op s1 _ ->.
  eapply spec_bind; [apply spec_read_back|done|]. intros o s1 _ [Hk Ht].
  eapply spec_bind with (Q := λ v s', o = Ok v ∧ s' = s1);
    [apply spec_lift; by intros v Hv%map_err_Ok|done|].
  intros v s2 _ [-> ->]. apply spec_ret. by eexists.
Qed.

Lemma spec_ensure_expected s id c e :
  changes (kernel s) !! id = Some c →
  spec {[id]} s (ensure_expected id e)
    (λ _ s', changes (kernel s') = changes (kernel s)
             ∧ ∃ q, trace s' = Ev_Verify q true :: trace s
                  ∧ verify_prepared q = cr_prepared c ∧ verify_expected q = expected_state e c).
Proof.
  intros Hc. unfold ensure_expected.
  eapply spec_bind; [by apply spec_matches_expected|apply empty_subseteq|].
  intros b s1 Ht Hq. rewrite <- (touches_same _ _ Ht) in Hc |- *. destruct b; [by apply spec_ret|].
  eapply spec_mono; [by eapply spec_mark_drift|done|done].
Qed.

(** The last driver call between two states read the expected value back. *)
Definition is_durable (e : Effect) : Prop := match e with Ev_Durable _ => True | _ => False end.

Definition confirmed (e : ExpectedState) c s s' : Prop :=
  ∃ ds q rest, trace s' = ds ++ Ev_Verify q true :: rest ∧ Forall is_durable ds
    ∧ verify_prepared q = cr_prepared c ∧ verify_expected q = expected_state e c
    ∧ trace s `suffix_of` rest.

Lemma confirmed_verify e c s s' q :
  trace s' = Ev_Verify q true :: trace s → verify_prepared q = cr_prepared c →
  verify_expected q = expected_state e c → confirmed e c s s'.
Proof. intros. by exists [], q, (trace s). Qed.

Lemma confirmed_durable e c s s' s'' x :
  confirmed e c s s' → trace s'' = Ev_Durable x :: trace s' → confirmed e c s s''.
Proof.
  intros (ds & q & rest & Ht & Hds & ? & ? & ?) Hx. exists (Ev_Durable x :: ds), q, rest.
  rewrite Hx, Ht. split_and!; try done. by constructor.
Qed.

Lemma confirmed_before X e c s0 s s' : touches X s0 s → confirmed e c s s' → confirmed e c s0 s'.
Proof.
  intros Ht (ds & q & rest & ? & ? & ? & ? & ?). exists ds, q, rest. split_and!; try done.
  etrans; [by eapply to_trace|done].
Qed.

(** ** Applying a change *)

Lemma spec_settle_apply s id c op dr applied :
  changes (kernel s) !! id = Some c →
  spec {[id]} s (settle_apply id op dr applied)
    (λ o s', (∃ rc, o = Some rc) ∧ changes (kernel s') = changes (kernel s) ∧ trace s' = trace s).
Proof.
  intros Hc. assert (∀ (s1 : Sys W T) rc msg e, changes (kernel s1) = changes (kernel s) →
    spec {[id]} s1 (_ ← update_change id FailedNotApplied op rc msg; throw e)
      (λ (o : option (option MutationReceipt)) s',
        (∃ rc, o = Some rc) ∧ changes (kernel s') = changes (kernel s1) ∧ trace s' = trace s1)) as Hfail.
  { intros s1 rc msg e Hs1. eapply spec_bind; [|done|intros; apply spec_throw].
    apply spec_update_change; [by rewrite Hs1|by apply may_move_plain]. }
  assert (∀ (s1 : Sys W T) rc msg, changes (kernel s1) = changes (kernel s) →
    spec {[id]} s1 (_ ← mark_apply_unknown id op rc msg; mret None)
      (λ (o : option (option MutationReceipt)) s',
        (∃ rc, o = Some rc) ∧ changes (kernel s') = changes (kernel s1) ∧ trace s' = trace s1)) as Hunknown.
  { intros s1 rc msg Hs1. eapply spec_bind; [eapply spec_mark_apply_unknown; by rewrite Hs1|done|].
    by intros ? ? ? []. }
  unfold settle_apply. destruct applied as [rc|e].
  - destruct (receipt_state rc); [by apply Hfail|apply spec_ret; eauto|by apply Hunknown..].
  - eapply spec_bind; [apply spec_call_driver|done|]. intros o s1 _ [Hk Htr]. rewrite <- Hk, <- Htr.
    destruct o as [st|]; simpl; [|by apply Hunknown; rewrite Hk].
    destruct (status_state st);
      [by apply Hfail; rewrite Hk|apply spec_ret; eauto|by apply Hunknown; rewrite Hk..].
Qed.

Lemma spec_apply_and_verify s id c op st intended :
  changes (kernel s) !! id = Some c →
  may_move (resource_heads (kernel s)) c st (bool_decide (st = AppliedVerified)) →
  negb intended && bool_decide (cr_state c ≠ IntentDurable) = false →
  announced Intent_Apply op (cr_prepared c) (durable (wal (kernel s))) (trace s) →
  spec {[id]} s (apply_and_verify id op st intended)
    (λ _ s', confirmed Expect_Desired c s s' ∧
      ∃ rc, let u := updated c st op rc None (bool_decide (st = AppliedVerified)) in
        changes (kernel s') = <[id := u]> (changes (kernel s))
        ∧ pending s' = answer_pending u (pending s)).
Proof.
  intros Hc Hmv Hi Hann. unfold apply_and_verify.
  eapply spec_bind; [by apply spec_change_at|done|]. intros ? s1 _ [-> ->]. rewrite Hi.
  eapply spec_bind with (X := ∅) (Q := λ _ s', s' = s); [by apply spec_ret|apply empty_subseteq|]. intros [] s1 _ ->.
  eapply spec_bind; [by apply spec_change_at|done|]. intros ? s1 _ [-> ->].
  eapply spec_bind; [apply spec_driver_for_record|done|]. intros d s1 _ ->.
  eapply spec_bind; [by apply spec_emit|done|]. intros [] s1 Ht1 [Hk1 Htr1].
  eapply spec_bind; [apply spec_call_driver|done|]. intros applied s2 Ht2 [Hk2 Htr2].
  eapply spec_bind; [apply (spec_settle_apply _ _ c); by rewrite Hk2, Hk1|done|].
  intros o s3 Ht3 [[rc ->] [Hc3 Htr3]].
  eapply spec_bind; [apply spec_read_back|done|]. intros v s4 Ht4 [Hk4 Htr4].
  assert (changes (kernel s4) = changes (kernel s)) as Hc4 by (rewrite Hk4, Hc3, Hk2, Hk1; done).
  assert (touches {[id]} s s3) as Ht by eauto using touches_trans.
  assert (changes (kernel s4) !! id = Some c) as Hid4 by (by rewrite Hc4).
  destruct v as [v|e]; [destruct (matched v) eqn:Hm|].
  - eapply spec_mono; [apply spec_update_after_effect; [done|]|done|].
    + by rewrite (to_heads _ _ _ Ht4), (to_heads _ _ _ Ht).
    + intros [] s5 _ Ht5 [Hc5 Hx]. split.
      2: { exists rc. split; [by rewrite Hc5, Hc4|].
           assert (adds s s5) as Ha by (do 2 (eapply adds_trans; [by eapply to_new|]); by eapply to_new).
           rewrite (pending_new _ _ [Ev_Durable (new_entry (ChangeUpsert (updated c st op rc None
             (bool_decide (st = AppliedVerified)))) s4);
             Ev_Verify (MkVerifyRequest op (cr_prepared c) (desired (cr_prepared c))) true;
             Ev_Apply (MkApplyRequest op (cr_prepared c))] Ha); [done|].
           by rewrite Hx, Htr4, Htr3, Htr2, Htr1. }
      eapply confirmed_before; [exact Ht|]. eapply confirmed_durable; [|exact Hx].
      by eapply confirmed_verify.
  - eapply spec_mono; [by eapply spec_mark_apply_unknown|done|done].
  - eapply spec_mono; [by eapply spec_mark_apply_unknown|done|done].
Qed.

(** ** Restoring a change *)

Lemma spec_settle_restore s id c op dr restored :
  changes (kernel s) !! id = Some c →
  spec {[id]} s (settle_restore id op dr c restored)
    (λ _ s', changes (kernel s') = changes (kernel s) ∧ trace s' = trace s).
Proof.
  intros Hc. unfold settle_restore. destruct restored as [rc|e].
  - case_bool_decide; [by apply spec_ret|].
    eapply spec_bind; [by eapply spec_set_unknown|done|intros; apply spec_throw].
  - eapply spec_bind; [apply spec_call_driver|done|]. intros o s1 _ [Hk Htr]. rewrite <- Hk, <- Htr.
    destruct (match o with Ok _ => _ | _ => _ end); [by apply spec_ret|].
    eapply spec_bind; [eapply spec_unknown_after_provider_error; by rewrite Hk|done|].
    intros; apply spec_throw.
Qed.

Lemma spec_restore_one s id c st :
  changes (kernel s) !! id = Some c → claims_verified st = false →
  spec {[id]} s (restore_one id st)
    (λ _ s', confirmed Expect_Baseline c s s' ∧ (settled s → settled s') ∧
      ∃ c', changes (kernel s') !! id = Some c' ∧ cr_state c' = st).
Proof.
  intros Hc Hst. apply spec_good. intros Hg. pose proof (good_id _ _ _ Hg Hc) as Hid.
  unfold restore_one.
  eapply spec_bind; [by apply spec_change_at|done|]. intros ? s1 _ [-> ->].
  case_bool_decide as Hfin; [apply spec_throw|].
  destruct (bool_decide (cr_state c = RolledBack) && bool_decide (st = RolledBack)) eqn:Hrb.
  { apply andb_true_iff in Hrb as [Hr1%bool_decide_eq_true Hr2%bool_decide_eq_true].
    eapply spec_mono; [by apply spec_ensure_expected|done|].
    intros [] s1 _ Ht1 [Hc1 (q & Hq & ? & ?)]. split_and!; [by eapply confirmed_verify| |].
    - eapply (settled_silent _ _ [_]); [by eapply to_new|exact Hq|by repeat constructor].
    - exists c. split; [by rewrite Hc1|congruence]. }
  clear Hrb.
  eapply spec_bind; [by apply spec_matches_expected|apply empty_subseteq|].
  intros b s1 Ht1 (q & Hq1 & Hq2 & Hq3). destruct b.
  { assert (changes (kernel s1) !! id = Some c) as Hc1 by (by rewrite (touches_same _ _ Ht1)).
    assert (confirmed Expect_Baseline c s s1) as Hconf by (by eapply confirmed_verify).
    case_bool_decide as Hsame.
    2: { apply spec_ret. split_and!; [done| |by exists c].
         eapply (settled_silent _ _ [_]); [by eapply to_new|exact Hq1|by repeat constructor]. }
    eapply spec_bind; [apply spec_next_operation_id|apply empty_subseteq|]. intros op s2 Ht2 Htr2.
    eapply spec_mono; [apply spec_update_change; [by rewrite (touches_same _ _ Ht2)|by apply may_move_plain]|done|].
    intros [] s3 _ Ht3 [Hc3 Hx]. split_and!.
    - rewrite Htr2 in Hx. by eapply confirmed_durable.
    - intros Hs. unfold settled.
      assert (adds s s3) as Ha by (do 2 (eapply adds_trans; [by eapply to_new|]); by eapply to_new).
      rewrite (pending_new _ _ [Ev_Durable (new_entry (ChangeUpsert (updated c st op None None false)) s2);
        Ev_Verify q true] Ha); [|by rewrite Hx, Htr2, Hq1].
      simpl. rewrite Hs. apply answer_pending_empty.
    - eexists. rewrite Hc3, lookup_insert_eq. split; [done|]. apply updated_state. }
  eapply spec_bind; [apply spec_matches_expected; by rewrite (touches_same _ _ Ht1)|apply empty_subseteq|].
  intros b s2 Ht2 (q2 & Hq2' & _). destruct b; simpl;
    [|eapply spec_mono; [eapply spec_mark_drift; by rewrite (touches_same _ _ Ht2), (touches_same _ _ Ht1)|done|done]].
  eapply spec_bind; [apply spec_next_operation_id|apply empty_subseteq|]. intros op s3 Ht3 Htr3.
  assert (touches ∅ s s3) as Hs3 by eauto using touches_trans.
  assert (changes (kernel s3) !! id = Some c) as Hc3 by (by rewrite (touches_same _ _ Hs3)).
  eapply spec_bind; [by eapply spec_append_intent|apply empty_subseteq|]. intros [] s4 Ht4 [Hann Htr4].
  assert (changes (kernel s4) !! id = Some c) as Hc4 by (by rewrite (touches_same _ _ Ht4)).
  eapply spec_bind; [by apply spec_change_at|done|]. intros ? s5 _ [-> ->].
  eapply spec_bind; [apply spec_driver_for_record|done|]. intros d s5 _ ->.
  eapply spec_bind; [by apply spec_emit|done|]. intros [] s5 Ht5 [Hk5 Htr5].
  eapply spec_bind; [apply spec_call_driver|done|]. intros restored s6 Ht6 [Hk6 Htr6].
  eapply spec_bind; [apply spec_settle_restore; by rewrite Hk6, Hk5|done|]. intros rc s7 Ht7 [Hc7 Htr7].
  rewrite Hk6, Hk5 in Hc7.
  eapply spec_bind; [apply spec_matches_expected; by rewrite Hc7|apply empty_subseteq|].
  intros b s8 Ht8 (q8 & Hq8 & Hp8 & He8).
  assert (changes (kernel s8) !! id = Some c) as Hc8 by (by rewrite (touches_same _ _ Ht8), Hc7).
  assert (touches {[id]} s s7) as Ht07.
  { eapply touches_trans; [eapply touches_weaken; [|exact Hs3]; apply empty_subseteq|].
    eapply touches_trans; [eapply touches_weaken; [|exact Ht4]; apply empty_subseteq|].
    eauto using touches_trans. }
  destruct b; simpl.
  - eapply spec_mono; [apply spec_update_after_effect; [done|by apply may_move_plain]|done|].
    intros [] s9 _ Ht9 [Hc9 Hx]. split_and!.
    + eapply confirmed_before; [exact Ht07|]. eapply confirmed_durable; [|done]. by eapply confirmed_verify.
    + intros Hs. unfold settled. set (u := updated c st op (Some rc) None false) in *.
      assert (adds s s9) as Ha by (do 2 (eapply adds_trans; [by eapply to_new|]); by eapply to_new).
      rewrite (pending_new _ _ [Ev_Durable (new_entry (ChangeUpsert u) s8); Ev_Verify q8 true;
        Ev_Restore (MkRestoreRequest op (cr_prepared c));
        Ev_Durable (new_entry (OperationIntent id op Intent_Restore) s3);
        Ev_Verify q2 true; Ev_Verify q false] Ha).
      * transitivity (delete id (pending s)); [by apply (pending_answered _ id op Intent_Restore _ _ u)|].
        by rewrite Hs, delete_empty.
      * by rewrite Hx, Hq8, Htr7, Htr6, Htr5, Htr4, Htr3, Hq2', Hq1.
    + eexists. rewrite Hc9, lookup_insert_eq. split; [done|]. apply updated_state.
  - eapply spec_bind; [by eapply spec_set_unknown|done|intros; apply spec_throw].
Qed.
End Linked.
