(* ===== verification/Client.v ===== *)
(** * Specifications of the client operations

    [experiment], [restore_baseline], [replay_candidate], [finalize_candidate] and
    [rollback_all]: what they return, what they leave in the kernel and in the
    log, and that they keep the link of [Operations.v] on every path. *)

From S2P Require Export Operations.

Section Client.
Context `{J : Json, !Serialize Value, !Serialize (list ChangeId), !Sha256}.
Context {W T : Type} `{!TransactionWal T, !WalLaws T}.
Implicit Types (s : Sys W T) (k : TransactionKernel W T) (c d : ChangeRecord) (r : ReplayState).

(** A kernel whose seal was acknowledged: the log is a good one and the seal. *)
Record closed s : Prop := {
  cl_wal : wal_ok (wal (kernel s));
  cl_sealed : is_Some (sealed (kernel s));
  cl_log : ∃ es e r, durable (wal (kernel s)) = es ++ [e] ∧ is_seal e = true
    ∧ good_log (transaction_id (kernel s)) (intent_pin (kernel s)) (capabilities (kernel s)) es r
    ∧ entry_transaction_id e = transaction_id (kernel s)
    ∧ sequence e = sequence_at (length es);
  cl_write_ahead : write_ahead (durable (wal (kernel s))) (trace s);
}.

(** The parts of the state no operation rewrites. *)
Record extends s s' : Prop := {
  ex_transaction : transaction_id (kernel s') = transaction_id (kernel s);
  ex_pin : intent_pin (kernel s') = intent_pin (kernel s);
  ex_capabilities : capabilities (kernel s') = capabilities (kernel s);
  ex_new : adds s s';
}.

#[export] Instance extends_preorder : PreOrder extends.
Proof.
  split; [intros s; split; try done; by apply adds_nothing|].
  intros s1 s2 s3 [] []. split; try congruence; by eapply adds_trans.
Qed.

Lemma touches_extends X s s' : touches X s s' → extends s s'.
Proof. by intros []. Qed.

(** The value was read back, as expected, by a driver call made since [s]. *)
Definition verified_since (e : ExpectedState) c s s' : Prop :=
  ∃ new q, trace s' = new ++ trace s ∧ Ev_Verify q true ∈ new
    ∧ verify_prepared q = cr_prepared c ∧ verify_expected q = expected_state e c.

Lemma confirmed_verified_since e c s s' : confirmed e c s s' → verified_since e c s s'.
Proof.
  intros (ds & q & rest & Ht & _ & Hp & He & [t Ht']). exists (ds ++ Ev_Verify q true :: t), q.
  split_and!; try done.
  - by rewrite Ht, Ht', <- app_assoc.
  - rewrite elem_of_app, elem_of_cons. auto.
Qed.

Lemma verified_since_later e c s0 s s' s'' :
  trace s0 `suffix_of` trace s → trace s' `suffix_of` trace s'' →
  verified_since e c s s' → verified_since e c s0 s''.
Proof.
  intros [t0 H0] [t1 H1] (new & q & Ht & Hin & ? & ?). exists (t1 ++ new ++ t0), q.
  split_and!; try done.
  - by rewrite H1, Ht, H0, <- !app_assoc.
  - rewrite !elem_of_app. auto.
Qed.

(** ** Facts about a linked state *)

Lemma good_known s id : good s → id ∈ change_order (kernel s) → is_Some (changes (kernel s) !! id).
Proof.
  intros [r [Hlog Hag]] Hid. apply (agrees_is_Some _ _ _ Hag).
  apply (ro_order _ _ _ (good_log_ok _ _ _ _ _ (lg_log _ _ Hlog))). by rewrite <- (ag_order _ _ Hag).
Qed.

Lemma good_ordered s id : good s → is_Some (changes (kernel s) !! id) → id ∈ change_order (kernel s).
Proof.
  intros [r [Hlog Hag]] Hid. rewrite (ag_order _ _ Hag).
  apply (ro_order _ _ _ (good_log_ok _ _ _ _ _ (lg_log _ _ Hlog))). by apply (agrees_is_Some _ _ _ Hag).
Qed.

Lemma good_nodup s : good s → NoDup (change_order (kernel s)).
Proof.
  intros [r [Hlog Hag]]. rewrite (ag_order _ _ Hag).
  apply (ro_nodup _ _ _ (good_log_ok _ _ _ _ _ (lg_log _ _ Hlog))).
Qed.

Lemma good_record s id c : good s → changes (kernel s) !! id = Some c →
  cr_change_id c = id ∧ identity_valid (transaction_id (kernel s)) (capabilities (kernel s)) c
  ∧ (cr_state c = AppliedUnknown ∨ record_valid (transaction_id (kernel s)) (capabilities (kernel s)) c).
Proof.
  intros [r [Hlog Hag]] Hc. destruct (agrees_lookup _ _ _ _ Hag Hc) as (d & Hd & [Hi Hv Hs]).
  destruct (ro_record _ _ _ (good_log_ok _ _ _ _ _ (lg_log _ _ Hlog)) _ _ Hd) as [Hid [Hval Hcl]].
  assert (same_identity d c) as Hdc by (by symmetry).
  split_and!.
  - rewrite <- Hid. apply Hi.
  - by eapply identity_valid_same.
  - destruct Hs as [Hs|Hs]; [right|by left]. split; [by eapply identity_valid_same|].
    by rewrite Hs, Hv.
Qed.

Lemma good_head s res id : good s → resource_heads (kernel s) !! res = Some id →
  ∃ c, changes (kernel s) !! id = Some c ∧ cr_resource c = res.
Proof.
  intros [r [Hlog Hag]] Hid. rewrite (ag_heads _ _ Hag) in Hid.
  destruct (ro_heads _ _ _ (good_log_ok _ _ _ _ _ (lg_log _ _ Hlog)) _ _ Hid) as (d & Hd & Hr).
  pose proof (ag_changes _ _ Hag id) as Hc. rewrite Hd in Hc.
  inversion Hc as [c ? [[]]|]; simplify_eq. eauto with congruence.
Qed.

Lemma good_changes_dom s : good s → dom (changes (kernel s)) = list_to_set (change_order (kernel s)).
Proof.
  intros Hg. apply set_eq. intros id. rewrite elem_of_dom, elem_of_list_to_set.
  split; [by apply good_ordered|by apply good_known].
Qed.

Lemma good_size s : good s →
  size (changes (kernel s)) = length (change_order (kernel s))
  ∧ size (changes (kernel s)) ≤ MAX_CHANGES_PER_TRANSACTION.
Proof.
  intros Hg. assert (size (changes (kernel s)) = length (change_order (kernel s))) as Hs.
  { rewrite <- size_dom, (good_changes_dom _ Hg). apply size_list_to_set, good_nodup, Hg. }
  split; [done|]. rewrite Hs.
  destruct Hg as [r [Hlog Hag]]. pose proof (good_log_ok _ _ _ _ _ (lg_log _ _ Hlog)) as Hok.
  rewrite (ag_order _ _ Hag). rewrite <- (ro_size _ _ _ Hok).
  rewrite <- size_dom. replace (dom (rs_changes r)) with (list_to_set (rs_order r) : gset ChangeId).
  - rewrite size_list_to_set; [done|apply Hok].
  - apply set_eq. intros id. rewrite elem_of_dom, elem_of_list_to_set. apply Hok.
Qed.

Lemma good_set_active s cand : good s → good (on_kernel (set_active_candidate cand) s).
Proof. intros [r [[] []]]. exists r. by repeat split. Qed.

Lemma extends_set_active s cand : extends s (on_kernel (set_active_candidate cand) s).
Proof. split; try done. by apply adds_nothing. Qed.

Lemma good_open s : good s → sealed (kernel s) = None.
Proof. intros [r [_ Hag]]. apply Hag. Qed.

Lemma ensure_open_good s : good s → ensure_open s = (Ret tt, s).
Proof. intros Hg. unfold ensure_open, mbind, M_bind. simpl. by rewrite (good_open _ Hg). Qed.

(** ** Restoring every change *)

Definition restored_all (st : ChangeState) (ids : list ChangeId) s0 s : Prop :=
  ∀ id, id ∈ ids → ∃ c, changes (kernel s) !! id = Some c ∧ cr_state c = st
    ∧ verified_since Expect_Baseline c s0 s.

Lemma verified_since_identity e c d s s' :
  same_identity c d → verified_since e c s s' → verified_since e d s s'.
Proof.
  intros Hi (new & q & ? & ? & Hp & He). exists new, q. rewrite <- (si_prepared _ _ Hi).
  split_and!; try done. rewrite He. destruct e; simpl; by rewrite (si_prepared _ _ Hi).
Qed.

Lemma spec_restore_each X s st ids :
  NoDup ids → list_to_set ids ⊆ X → claims_verified st = false →
  (∀ id, id ∈ ids → is_Some (changes (kernel s) !! id)) →
  spec X s (for_each (λ id, restore_one id st) ids)
    (λ _ s', (settled s → settled s') ∧ restored_all st ids s s').
Proof.
  intros Hnd HX Hst Hknown.
  apply (spec_for_each X s (λ id, restore_one id st) (λ pre s', (settled s → settled s')
    ∧ restored_all st pre s s')).
  - split; [done|]. by intros id ?%not_elem_of_nil.
  - intros pre a post s' Hids Ht [Hset Hpre]. subst ids.
    destruct (Hknown a) as [c0 Hc0]; [set_solver|].
    destruct (touches_change _ _ _ _ _ Ht Hc0) as (c & Hc & _).
    eapply spec_mono; [by eapply spec_restore_one|set_solver|].
    intros [] s'' _ Ht' (Hconf & Hset' & c' & Hc' & Hst'). split; [auto|].
    intros id. rewrite elem_of_app, list_elem_of_singleton.
    apply NoDup_app in Hnd as (_ & Hnd & _).
    intros [Hid| ->].
    + destruct (Hpre _ Hid) as (d & Hd & Hds & Hv).
      assert (id ≠ a) by (intros ->; apply (Hnd a); set_solver).
      exists d. rewrite (to_others _ _ _ Ht') by set_solver. split_and!; try done.
      eapply verified_since_later; [done|by eapply to_trace|done].
    + exists c'. split_and!; try done.
      destruct (touches_change _ _ _ _ _ Ht' Hc) as (c'' & Hc'' & [Hi _]). simplify_eq.
      eapply verified_since_identity; [exact Hi|].
      eapply verified_since_later; [by eapply to_trace|done|by apply confirmed_verified_since].
Qed.

(** ** [restore_baseline] *)

Definition unchanged_plan s s' : Prop :=
  change_order (kernel s') = change_order (kernel s)
  ∧ resource_heads (kernel s') = resource_heads (kernel s).

Lemma touches_plan X s s' : touches X s s' → unchanged_plan s s'.
Proof. by intros []. Qed.

Lemma wp_restore_baseline s :
  good s →
  wp restore_baseline
    (λ l s', good s' ∧ extends s s' ∧ unchanged_plan s s' ∧ (settled s → settled s')
      ∧ active_candidate (kernel s') = None
      ∧ restored_all BaselineRestored (change_order (kernel s)) s s'
      ∧ l = changes_in_order (kernel s'))
    (λ _ s', good s' ∧ extends s s') s.
Proof.
  intros Hg. unfold restore_baseline. apply wp_bind. unfold wp. rewrite ensure_open_good by done.
  apply wp_bind, wp_gets, wp_bind.
  eapply wp_mono; [eapply (spec_restore_each (list_to_set (change_order (kernel s))));
    [rewrite reverse_Permutation; apply good_nodup, Hg| |done| |exact Hg]| |].
  - intros id. rewrite !elem_of_list_to_set. by rewrite elem_of_reverse.
  - intros id. rewrite elem_of_reverse. by apply good_known.
  - intros [] s' (Hg' & Ht & Hset & Hres). apply wp_bind, wp_modify, wp_gets. split_and!; try done.
    + by apply good_set_active.
    + etrans; [by eapply touches_extends|apply extends_set_active].
    + exact (touches_plan _ _ _ Ht).
    + intros id Hid. apply Hres. by apply elem_of_reverse.
  - intros e s' [? ?]. eauto using touches_extends.
Qed.

(** ** [rollback_all] *)

(** The append that seals the transaction. *)
Lemma wp_seal_call s entry :
  good s → is_seal entry = true → entry_transaction_id entry = transaction_id (kernel s) →
  sequence entry = next_sequence (kernel s) →
  ∀ (Q : result WalError unit → Sys W T → Prop) (R : TransactionError → Sys W T → Prop),
  (∀ w, wal_ok w → durable w = durable (wal (kernel s)) ++ [entry] →
    write_ahead (durable w) (Ev_Durable entry :: trace s) →
    Q (Ok tt) (MkSys (set_wal w (kernel s)) (world s) (Ev_Durable entry :: trace s))) →
  (∀ e w, durable w = durable (wal (kernel s)) →
    good (MkSys (set_wal w (kernel s)) (world s) (trace s)) →
    Q (Err e) (MkSys (set_wal w (kernel s)) (world s) (trace s))) →
  wp (call_wal seal entry) Q R s.
Proof.
  intros Hg Hseal Htid Hseq Q R HQ HE. destruct Hg as [r [[Hw Hl Hs Ha [base Hb]] Hag]].
  unfold wp, call_wal. pose proof (seal_law _ entry Hw) as Hlaw.
  destruct (seal entry (wal (kernel s))) as [[[]|e] w]; destruct Hlaw as [Hw' Hd'].
  - apply HQ; try done. split; [done|]. eapply write_ahead_mono; [|done]. rewrite Hd'. by eexists.
  - apply HE; [done|]. exists r. destruct Hag. split; split; simpl; try done; rewrite ?Hd'; eauto.
Qed.

Definition rolled_back s s' : Prop :=
  closed s' ∧ sealed (kernel s') = Some Seal_RolledBack ∧ extends s s' ∧ unchanged_plan s s'
  ∧ restored_all RolledBack (change_order (kernel s)) s s'
  ∧ ∃ s1, good s1 ∧ extends s s1 ∧ (settled s → settled s1)
      ∧ kernel s' = set_wal (wal (kernel s')) (set_sealed (Some Seal_RolledBack)
                      (bump_sequence (kernel s1)))
      ∧ durable (wal (kernel s'))
        = durable (wal (kernel s1)) ++ [new_entry (Sealed Seal_RolledBack) s1].

Lemma wp_rollback_all s :
  good s →
  wp rollback_all (λ l s', rolled_back s s' ∧ l = changes_in_order (kernel s'))
    (λ _ s', good s' ∧ extends s s') s.
Proof.
  intros Hg. unfold rollback_all. apply wp_bind. unfold wp. rewrite ensure_open_good by done.
  apply wp_bind, wp_gets, wp_bind, wp_lift; [|done]. intros _ _. apply wp_bind.
  eapply wp_mono; [eapply (spec_restore_each (list_to_set (change_order (kernel s))));
    [rewrite reverse_Permutation; apply good_nodup, Hg| |done| |exact Hg]| |].
  { intros id. rewrite !elem_of_list_to_set. by rewrite elem_of_reverse. }
  { intros id. rewrite elem_of_reverse. by apply good_known. }
  2: { intros e s' [? ?]. eauto using touches_extends. }
  intros [] s1 (Hg1 & Ht & Hset & Hres). apply wp_bind, wp_modify.
  pose proof (good_set_active _ None Hg1) as Hg2.
  assert (extends s (on_kernel (set_active_candidate None) s1)) as Hx.
  { etrans; [by eapply touches_extends|apply extends_set_active]. }
  assert (unchanged_plan s (on_kernel (set_active_candidate None) s1)) as Hplan.
  { exact (touches_plan _ _ _ Ht). }
  assert (restored_all RolledBack (change_order (kernel s)) s
    (on_kernel (set_active_candidate None) s1)) as Hres2.
  { intros id Hid. apply Hres. by apply elem_of_reverse. }
  assert (settled s → settled (on_kernel (set_active_candidate None) s1)) as Hset2 by exact Hset.
  clear Ht Hres Hg1 Hset. set (s2 := on_kernel (set_active_candidate None) s1) in *. clearbody s2. clear s1.
  pose proof Hg2 as [r [Hlog _]].
  apply wp_bind. unfold seal_transaction. apply wp_bind, wp_gets, wp_bind.
  apply wp_seal_call; try done.
  - intros w Hw Hd Hwa. apply wp_bind, wp_lift; [|done]. intros _ _. apply wp_modify, wp_gets.
    assert (durable w = durable (wal (kernel s2)) ++ [new_entry (Sealed Seal_RolledBack) s2]) as Hd' by done.
    split; [|done]. split_and!; try done; simpl.
    + split; simpl; try done.
      exists (durable (wal (kernel s2))), (new_entry (Sealed Seal_RolledBack) s2), r.
      split_and!; try done; apply Hlog.
    + etrans; [exact Hx|]. split; simpl; try done.
      exists [Ev_Durable (new_entry (Sealed Seal_RolledBack) s2)]. split; [done|]. exact Hd'.
    + intros id Hid. destruct (Hres2 id Hid) as (c & Hc & Hst & Hv). exists c. split_and!; try done.
      eapply verified_since_later; [done| |exact Hv]. by eexists [_].
    + by exists s2.
  - intros e w Hd Hgw. apply wp_bind, wp_lift; [done|]. intros e' _. split; [done|].
    etrans; [exact Hx|]. split; simpl; try done. by apply adds_nothing.
Qed.

(** ** [replay_candidate] *)

Definition selectable k id : Prop :=
  ∃ c, changes k !! id = Some c ∧ cr_experiment_verified c = true
    ∧ resource_heads k !! cr_resource c = Some id.

(** A candidate passes exactly when its changes are distinct, verified by an
    experiment and the latest of their resources. *)
Lemma validate_candidate_Ok k cand :
  validate_candidate k cand = Ok tt ↔
  NoDup (change_ids cand) ∧ Forall (selectable k) (change_ids cand).
Proof.
  unfold validate_candidate. rewrite result_bind_Ok.
  transitivity (∃ X, fold_result (validate_candidate_change k) ∅ (change_ids cand) = Ok X).
  { split; [intros (X & HX & _); eauto|intros [X HX]; eauto]. }
  assert (∀ ids (X : gset ResourceKey),
    (∃ Y, fold_result (validate_candidate_change k) X ids = Ok Y) ↔
    NoDup ids ∧ Forall (selectable k) ids
    ∧ ∀ id c, id ∈ ids → changes k !! id = Some c → cr_resource c ∉ X) as Hloop.
  2: { rewrite Hloop. split; [naive_solver|]. intros [? ?]. by split_and!. }
  induction ids as [|id ids IH]; intros X; simpl.
  { split; [|eauto]. intros _. split_and!; [constructor..|]. by intros ? ? ?%not_elem_of_nil. }
  rewrite NoDup_cons, Forall_cons.
  assert (∀ Y, validate_candidate_change k X id = Ok Y ↔
    ∃ c, changes k !! id = Some c ∧ cr_experiment_verified c = true
      ∧ resource_heads k !! cr_resource c = Some id ∧ (cr_resource c ∉ X)
      ∧ Y = ({[cr_resource c]} ∪ X)) as Hone.
  { intros Y. unfold validate_candidate_change. rewrite ok_or_bind_Ok.
    setoid_rewrite reject_bind_Ok. setoid_rewrite reject_bind_Ok. setoid_rewrite reject_bind_Ok.
    setoid_rewrite reject_Ok. repeat setoid_rewrite bool_decide_eq_false.
    setoid_rewrite negb_false_iff. split.
    - intros (c & ? & ? & ?%dec_stable & ? & [= <-]). eauto 10.
    - intros (c & ? & ? & ? & ? & ->). exists c. split_and!; try done. by intros Hn. }
  destruct (validate_candidate_change k X id) as [Y|e] eqn:Hv.
  - destruct (proj1 (Hone Y) eq_refl) as (c & Hc & Hver & Hhead & HX & ->). rewrite IH. split.
    + intros (Hnd & Hall & Hfresh). split_and!; try done.
      * intros Hin. apply (Hfresh id c Hin Hc). set_solver.
      * by exists c.
      * intros j d [->|Hj]%elem_of_cons Hd; [congruence|]. specialize (Hfresh j d Hj Hd). set_solver.
    + intros ((Hnin & Hnd) & (_ & Hall) & Hfresh). split_and!; try done.
      intros j d Hj Hd. rewrite not_elem_of_union, not_elem_of_singleton. split.
      * intros Heq. rewrite Forall_forall in Hall. destruct (Hall _ Hj) as (d' & ? & ? & Hh).
        simplify_eq. rewrite Heq in Hh. congruence.
      * by apply (Hfresh j d); [apply elem_of_cons; right|].
  - split; [by intros [Y HY]|]. intros (_ & ((c & ? & ? & ?) & _) & Hfresh). exfalso.
    destruct (Hone ({[cr_resource c]} ∪ X)) as [_ Hback]. discriminate Hback.
    exists c. split_and!; try done. apply (Hfresh id c); [apply elem_of_cons; by left|done].
Qed.

Lemma spec_replay_one s id c :
  changes (kernel s) !! id = Some c → cr_experiment_verified c = true →
  resource_heads (kernel s) !! cr_resource c = Some id →
  spec {[id]} s (replay_one id)
    (λ _ s', confirmed Expect_Desired c s s' ∧ (settled s → settled s')
      ∧ ∃ c', changes (kernel s') !! id = Some c' ∧ cr_state c' = CandidateApplied).
Proof.
  intros Hc Hv Hh. apply spec_good. intros Hg. unfold replay_one.
  destruct (good_record _ _ _ Hg Hc) as [Hid _].
  eapply spec_bind; [apply spec_next_operation_id|apply empty_subseteq|]. intros op s1 Ht1 Htr1.
  assert (changes (kernel s1) !! id = Some c) as Hc1 by (by rewrite (touches_same _ _ Ht1)).
  eapply spec_bind; [by eapply spec_append_intent|apply empty_subseteq|]. intros [] s2 Ht2 [Hann Htr2].
  assert (changes (kernel s2) !! id = Some c) as Hc2 by (by rewrite (touches_same _ _ Ht2)).
  eapply spec_mono; [eapply spec_apply_and_verify; [done| |done|done]|done|].
  - split; [by rewrite Hv|done|]. intros _. by rewrite (to_heads _ _ _ Ht2), (to_heads _ _ _ Ht1), Hid.
  - intros [] s3 _ Ht3 [Hconf (rc & Hc3 & Hp3)]. split_and!.
    + eapply confirmed_before; [|done]. by eapply touches_trans.
    + intros Hs. unfold settled. rewrite Hp3.
      assert (adds s s2) as Ha by (eapply adds_trans; by eapply to_new).
      rewrite (pending_new _ _ [Ev_Durable (new_entry (OperationIntent id op Intent_Apply) s1)] Ha);
        [|by rewrite Htr2, Htr1].
      simpl. rewrite Hs. unfold pending_step, answer_pending. simpl. rewrite Hid, lookup_insert_eq.
      by rewrite bool_decide_eq_true_2, delete_insert_eq, delete_empty.
    + eexists. by rewrite Hc3, lookup_insert_eq.
Qed.

(** The state after a replay: the candidate's changes applied and read back at
    their desired values, every other change at its baseline. *)
Definition replayed cand s0 s : Prop :=
  ∀ id, id ∈ change_order (kernel s0) →
    ∃ c, changes (kernel s) !! id = Some c
      ∧ verified_since Expect_Baseline c s0 s
      ∧ if candidate_contains cand id
        then cr_state c = CandidateApplied ∧ verified_since Expect_Desired c s0 s
        else cr_state c = BaselineRestored.

Lemma spec_require_restored s ids :
  (∀ id, id ∈ ids → is_Some (changes (kernel s) !! id)) →
  spec ∅ s (for_each require_restored ids)
    (λ _ s', s' = s ∧ ∀ id c, id ∈ ids → changes (kernel s) !! id = Some c →
      cr_state c = BaselineRestored).
Proof.
  intros Hknown.
  apply (spec_for_each ∅ s require_restored (λ pre s', s' = s ∧ ∀ id c, id ∈ pre →
    changes (kernel s) !! id = Some c → cr_state c = BaselineRestored)).
  { split; [done|]. by intros ? ? ?%not_elem_of_nil. }
  intros pre a post s' Hids _ [-> Hpre]. subst ids.
  destruct (Hknown a) as [c Hc]; [set_solver|]. unfold require_restored.
  eapply spec_bind; [by apply spec_change_at|done|]. intros ? s1 _ [-> ->].
  case_bool_decide as Hst; [apply spec_throw|]. apply spec_ret. split; [done|].
  intros id d. rewrite elem_of_app, list_elem_of_singleton. intros [Hid| ->] Hd; [eauto|].
  simplify_eq. done.
Qed.

Lemma spec_ensure_each s e ids :
  (∀ id, id ∈ ids → is_Some (changes (kernel s) !! id)) →
  spec (list_to_set ids) s (for_each (λ id, ensure_expected id e) ids)
    (λ _ s', changes (kernel s') = changes (kernel s) ∧ (settled s → settled s') ∧ ∀ id c, id ∈ ids →
      changes (kernel s) !! id = Some c → verified_since e c s s').
Proof.
  intros Hknown.
  apply (spec_for_each (list_to_set ids) s (λ id, ensure_expected id e) (λ pre s',
    changes (kernel s') = changes (kernel s) ∧ (settled s → settled s') ∧ ∀ id c, id ∈ pre →
      changes (kernel s) !! id = Some c → verified_since e c s s')).
  { split_and!; [done|done|]. by intros ? ? ?%not_elem_of_nil. }
  intros pre a post s' Hids Ht (Hch & Hset & Hpre).
  destruct (Hknown a) as [c Hc]; [subst ids; set_solver|].
  eapply spec_mono; [apply spec_ensure_expected; by rewrite Hch| |].
  { subst ids. set_solver. }
  intros [] s'' _ Ht' [Hch' (q & Hq & Hp & He)]. split_and!; [congruence| |].
  { intros Hs. eapply (settled_silent _ _ [_]); [by eapply to_new|exact Hq|by repeat constructor|auto]. }
  intros id d. rewrite elem_of_app, list_elem_of_singleton. intros [Hid| ->] Hd.
  - eapply verified_since_later; [done|by eapply to_trace|by eapply Hpre].
  - simplify_eq. eapply verified_since_later; [by eapply to_trace|done|].
    apply confirmed_verified_since. by eapply confirmed_verify.
Qed.

Lemma spec_replay_each cand s :
  NoDup (change_ids cand) → Forall (selectable (kernel s)) (change_ids cand) →
  (∀ id c, changes (kernel s) !! id = Some c → cr_state c = BaselineRestored) →
  spec (list_to_set (change_ids cand)) s (for_each replay_one (change_ids cand))
    (λ _ s', (settled s → settled s') ∧ ∀ id c, changes (kernel s) !! id = Some c → ∃ c',
      changes (kernel s') !! id = Some c' ∧ same_identity c c' ∧
      if candidate_contains cand id
      then cr_state c' = CandidateApplied ∧ verified_since Expect_Desired c s s'
      else cr_state c' = BaselineRestored).
Proof.
  intros Hnd Hsel Hbase. unfold candidate_contains.
  set (I := λ (pre : list ChangeId) (s' : Sys W T), (settled s → settled s') ∧
    ∀ id c, changes (kernel s) !! id = Some c → ∃ c',
      changes (kernel s') !! id = Some c' ∧ same_identity c c' ∧
      if bool_decide (id ∈ pre)
      then cr_state c' = CandidateApplied ∧ verified_since Expect_Desired c s s'
      else cr_state c' = BaselineRestored).
  apply (spec_for_each (list_to_set (change_ids cand)) s replay_one I); unfold I; clear I.
  { split; [done|]. intros id c Hc. exists c. rewrite bool_decide_eq_false_2 by apply not_elem_of_nil. naive_solver. }
  intros pre a post s' Hids Ht [Hset Hpre].
  rewrite Forall_forall in Hsel. destruct (Hsel a) as (c0 & Hc0 & Hv0 & Hh0).
  { rewrite Hids. set_solver. }
  destruct (touches_change _ _ _ _ _ Ht Hc0) as (c & Hc & [Hi Hv]).
  eapply spec_mono; [eapply spec_replay_one; [done|by apply Hv| ]|rewrite Hids; set_solver|].
  { by rewrite (to_heads _ _ _ Ht), <- (si_resource _ _ Hi). }
  intros [] s'' _ Ht' (Hconf & Hset' & c' & Hc' & Hst'). split; [auto|]. intros id d Hd.
  destruct (decide (id = a)) as [->|Hne].
  - rewrite bool_decide_eq_true_2 by set_solver. rewrite Hc0 in Hd. simplify_eq.
    destruct (touches_change _ _ _ _ _ Ht' Hc) as (c'' & Hc'' & [Hi' _]). simplify_eq.
    exists c'. split_and!; [done|by etrans|done|].
    eapply verified_since_later; [by eapply to_trace|done|].
    eapply verified_since_identity; [by symmetry|]. by apply confirmed_verified_since.
  - destruct (Hpre id d Hd) as (d' & Hd' & Hid & Hst).
    exists d'. rewrite (to_others _ _ _ Ht') by set_solver. split_and!; [done..|].
    rewrite (bool_decide_ext (id ∈ pre ++ [a]) (id ∈ pre)) by set_solver.
    destruct (bool_decide (id ∈ pre)); [|done]. destruct Hst as [? ?]. split; [done|].
    eapply verified_since_later; [done|by eapply to_trace|done].
Qed.

Lemma wp_replay_candidate cand s :
  good s →
  wp (replay_candidate cand)
    (λ l s', good s' ∧ extends s s' ∧ unchanged_plan s s' ∧ (settled s → settled s')
      ∧ NoDup (change_ids cand) ∧ Forall (selectable (kernel s)) (change_ids cand)
      ∧ active_candidate (kernel s') = Some cand ∧ replayed cand s s'
      ∧ l = omap (λ id, changes (kernel s') !! id) (change_ids cand))
    (λ _ s', good s' ∧ extends s s') s.
Proof.
  intros Hg. unfold replay_candidate. apply wp_bind. unfold wp. rewrite ensure_open_good by done.
  apply wp_bind, wp_gets, wp_bind, wp_lift; [|done].
  intros [] [Hnd Hsel]%validate_candidate_Ok.
  assert (∀ id, id ∈ change_order (kernel s) → is_Some (changes (kernel s) !! id)) as Hknown
    by (intros; by apply good_known).
  apply wp_bind. eapply wp_mono; [eapply spec_require_restored; [exact Hknown|exact Hg]| |].
  2: { intros e s' [? ?]. eauto using touches_extends. }
  intros [] s1 (_ & _ & -> & Hbase). apply wp_bind.
  eapply wp_mono; [eapply spec_ensure_each; [exact Hknown|exact Hg]| |].
  2: { intros e s' [? ?]. eauto using touches_extends. }
  intros [] s1 (Hg1 & Ht1 & Hc1 & Hset1 & Hver). apply wp_bind, wp_modify, wp_bind.
  set (s2 := on_kernel (set_active_candidate (Some cand)) s1).
  assert (extends s s2) as Hx by (etrans; [by eapply touches_extends|apply extends_set_active]).
  assert (changes (kernel s2) = changes (kernel s)) as Hc2 by done.
  assert (resource_heads (kernel s2) = resource_heads (kernel s)) as Hh2 by apply (to_heads _ _ _ Ht1).
  assert (change_order (kernel s2) = change_order (kernel s)) as Ho2 by apply (to_order _ _ _ Ht1).
  eapply wp_mono; [eapply (spec_replay_each cand s2); [done| | |by apply good_set_active]| |].
  { eapply Forall_impl; [exact Hsel|]. unfold selectable. by rewrite Hc2, Hh2. }
  { intros id c. rewrite Hc2. intros Hc. eapply (Hbase id); [|done]. apply good_ordered; [done|by exists c]. }
  2: { intros e s' [? Ht]. split; [done|]. etrans; [exact Hx|by eapply touches_extends]. }
  intros [] s3 (Hg3 & Ht3 & Hset3 & Hrep). apply wp_gets. split_and!; try done.
  - etrans; [exact Hx|by eapply touches_extends].
  - split; [by rewrite (to_order _ _ _ Ht3)|by rewrite (to_heads _ _ _ Ht3)].
  - auto.
  - by rewrite (to_active _ _ _ Ht3).
  - intros id Hid. destruct (Hknown _ Hid) as [c Hc].
    destruct (Hrep id c) as (c' & Hc' & Hi & Hst); [by rewrite Hc2|].
    exists c'. split; [done|]. split.
    { eapply verified_since_identity; [exact Hi|].
      eapply (verified_since_later _ _ _ _ s1); [done|by eapply (to_trace _ _ _ Ht3)|]. by apply (Hver id). }
    destruct (candidate_contains cand id); [|done]. destruct Hst as [? Hv]. split; [done|].
    eapply verified_since_identity; [exact Hi|].
    eapply verified_since_later; [|done|exact Hv]. apply (to_trace _ _ _ Ht1).
Qed.

(** ** [experiment] *)

Record prepared_valid (caps : CapabilitySnapshot W) (cap : CapabilityId) (p : PreparedMutation)
    : Prop := {
  pv_capability : prepared_capability_id p = cap;
  pv_provider : ∃ meta, snapshot_meta caps cap = Some meta ∧ provider meta = prepared_provider p;
  pv_baseline : content_digest (state_value (baseline p)) = Ok (state_digest (baseline p));
  pv_desired : content_digest (state_value (desired p)) = Ok (state_digest (desired p));
  pv_distinct : state_value (baseline p) ≠ state_value (desired p);
}.

Lemma validate_prepared_Ok (caps : CapabilitySnapshot W) cap p :
  validate_prepared caps cap p = Ok tt ↔ prepared_valid caps cap p.
Proof.
  unfold validate_prepared. rewrite reject_bind_Ok, ok_or_bind_Ok, reject_Ok, bool_decide_eq_false.
  setoid_rewrite reject_bind_Ok. setoid_rewrite reject_bind_Ok. setoid_rewrite reject_bind_Ok.
  setoid_rewrite validate_state_digest_Ok. setoid_rewrite reject_Ok.
  setoid_rewrite bool_decide_eq_false. split.
  - intros (H1%dec_stable & meta & Hm & Hp & Hb & Hd & Hne). split; try done.
    exists meta. split; [done|]. apply dec_stable. intros Hn. apply Hp. congruence.
  - intros [H1 (meta & Hm & Hp) Hb Hd Hne]. split; [by intros Hn|]. exists meta.
    split_and!; try done. intros Hn. by apply Hn.
Qed.

Lemma spec_prepare_checked s (dr : MutationDriver W) cap op args :
  spec ∅ s (prepare_checked dr cap op args)
    (λ p s', prepared_valid (capabilities (kernel s)) cap p ∧ trace s' = trace s).
Proof.
  unfold prepare_checked.
  eapply spec_bind with (Q := λ k s', k = kernel s ∧ s' = s); [by apply spec_gets|done|].
  intros k s1 _ [-> ->]. eapply spec_bind; [apply spec_call_driver|done|]. intros o s1 _ [_ Htr].
  eapply spec_bind with (Q := λ _ s', s' = s1); [by apply spec_lift|done|]. intros p s2 _ ->.
  eapply spec_bind with (Q := λ u s', validate_prepared (capabilities (kernel s)) cap p = Ok u ∧ s' = s1);
    [by apply spec_lift|done|].
  intros [] s3 _ [Hp ->]. apply spec_ret. split; [by apply validate_prepared_Ok|done].
Qed.

(** A predecessor a revision may supersede. *)
Definition revised (prev : ChangeId) cap (p : PreparedMutation) s : Prop :=
  ∃ d, changes (kernel s) !! prev = Some d ∧ cr_state d = BaselineRestored
    ∧ cr_experiment_verified d = true ∧ cr_capability_id d = cap
    ∧ prepared_provider (cr_prepared d) = prepared_provider p
    ∧ baseline (cr_prepared d) = baseline p ∧ cr_resource d = prepared_resource p.

Lemma spec_prepare_revision s (dr : MutationDriver W) cap args prev p :
  prepared_valid (capabilities (kernel s)) cap p →
  resource_heads (kernel s) !! prepared_resource p = Some prev →
  spec {[prev]} s (prepare_revision dr cap args prev p)
    (λ x s', prepared_valid (capabilities (kernel s)) cap x.2
      ∧ prepared_resource x.2 = prepared_resource p ∧ revised prev cap x.2 s'
      ∧ (settled s → settled s')
      ∧ ∃ d, changes (kernel s) !! prev = Some d ∧ cr_state d = AppliedVerified
          ∧ verified_since Expect_Desired d s s' ∧ verified_since Expect_Baseline d s s').
Proof.
  intros Hp Hhead. apply spec_good. intros Hg. unfold prepare_revision.
  destruct (good_head _ _ _ Hg Hhead) as (d & Hd & Hres).
  eapply spec_bind with (Q := λ k s', k = kernel s ∧ s' = s); [by apply spec_gets|done|].
  intros k s1 _ [-> ->]. rewrite Hd. simpl.
  eapply spec_bind with (Q := λ x s', x = d ∧ s' = s); [apply spec_lift; by intros ? [= ->]|done|].
  intros ? s1 _ [-> ->].
  eapply spec_bind with (Q := λ _ s', cr_state d = AppliedVerified ∧ cr_experiment_verified d = true
    ∧ s' = s); [|done|].
  { apply spec_lift. intros [] Hr%reject_Ok. apply orb_false_iff in Hr as [Hr1 Hr2].
    apply bool_decide_eq_false in Hr1. apply negb_false_iff in Hr2. by apply dec_stable in Hr1. }
  intros [] s1 _ (Hdst & Hdv & ->).
  eapply spec_bind with (Q := λ _ s', cr_capability_id d = cap
    ∧ prepared_provider (cr_prepared d) = prepared_provider p ∧ s' = s); [|done|].
  { apply spec_lift. intros [] Hr%reject_Ok.
    apply orb_false_iff in Hr as [Hr1%bool_decide_eq_false Hr2%bool_decide_eq_false].
    by apply dec_stable in Hr1, Hr2. }
  intros [] s1 _ (Hdc & Hdp & ->).
  eapply spec_bind; [by apply spec_ensure_expected|done|]. intros [] s1 Ht1 (Hc1 & q & Hq & Hqp & Hqe).
  eapply spec_bind with (Q := λ _ s', s' = s1); [by apply spec_lift|done|]. intros [] s2 _ ->.
  assert (changes (kernel s1) !! prev = Some d) as Hd1 by (by rewrite Hc1).
  eapply spec_bind; [by apply spec_restore_one|done|].
  intros [] s2 Ht2 (Hconf & Hset2 & d2 & Hd2 & Hd2st).
  destruct (touches_change _ _ _ _ _ Ht2 Hd1) as (d2' & Hd2' & [Hi Hv]).
  rewrite Hd2 in Hd2'. injection Hd2' as <-.
  eapply spec_bind; [apply spec_next_operation_id|apply empty_subseteq|]. intros op s3 Ht3 Htr3.
  eapply spec_bind; [apply spec_prepare_checked|apply empty_subseteq|]. intros p' s4 Ht4 [Hp' Htr4].
  rewrite (to_capabilities _ _ _ Ht3), (to_capabilities _ _ _ Ht2), (to_capabilities _ _ _ Ht1) in Hp'.
  eapply spec_bind with (Q := λ _ s', prepared_resource p' = cr_resource d
    ∧ baseline p' = baseline (cr_prepared d) ∧ s' = s4); [|done|].
  { apply spec_lift. intros [] Hr%reject_Ok.
    apply orb_false_iff in Hr as [[Hr1%bool_decide_eq_false Hr2%bool_decide_eq_false]%orb_false_iff _].
    by apply dec_stable in Hr1, Hr2. }
  intros [] s5 _ (Hr & Hb & ->). apply spec_ret. simpl.
  assert (changes (kernel s4) !! prev = Some d2) as Hd4
    by (by rewrite (touches_same _ _ Ht4), (touches_same _ _ Ht3)).
  assert (prepared_provider p' = prepared_provider p) as Hpp.
  { destruct (pv_provider _ _ _ Hp) as (m & Hm & <-), (pv_provider _ _ _ Hp') as (m' & Hm' & <-).
    congruence. }
  split_and!; [done|congruence| | |].
  - exists d2. rewrite <- (si_capability _ _ Hi), <- (si_prepared _ _ Hi), <- (si_resource _ _ Hi).
    split_and!; try congruence. by apply Hv.
  - intros Hs.
    assert (settled s1) as Hs1.
    { eapply (settled_silent _ _ [_]); [by eapply to_new|exact Hq|by repeat constructor|done]. }
    eapply (settled_silent s2 s4 []); [eapply adds_trans; by eapply to_new|by rewrite Htr4|done|auto].
  - assert (trace s2 `suffix_of` trace s4) as Hs24.
    { etrans; by eapply to_trace. }
    exists d. split_and!; try done.
    + eapply (verified_since_later _ _ s s _ s4); [done| |apply confirmed_verified_since; by eapply confirmed_verify].
      etrans; [apply (to_trace _ _ _ Ht2)|done].
    + eapply verified_since_later; [apply (to_trace _ _ _ Ht1)|exact Hs24|].
      by apply confirmed_verified_since.
Qed.

(** The first record of a change: the log entry and the kernel's update. *)
Lemma wp_first_record s c (R : TransactionError → Sys W T → Prop) :
  good s → changes (kernel s) !! cr_change_id c = None →
  size (changes (kernel s)) < MAX_CHANGES_PER_TRANSACTION →
  identity_valid (transaction_id (kernel s)) (capabilities (kernel s)) c →
  cr_state c = IntentDurable → cr_experiment_verified c = false →
  resource_heads (kernel s) !! cr_resource c = cr_supersedes c →
  (∀ p, cr_supersedes c = Some p → revised p (cr_capability_id c) (cr_prepared c) s) →
  (∀ e s', good s' → touches ∅ s s' → R e s') →
  wp (append_event (ChangeUpsert c))
    (λ _ s1, let s' := on_kernel (add_change c) s1 in
      good s' ∧ extends s s' ∧ trace s' = Ev_Durable (new_entry (ChangeUpsert c) s) :: trace s
      ∧ announced Intent_Apply (cr_last_operation_id c) (cr_prepared c)
          (durable (wal (kernel s'))) (trace s')
      ∧ changes (kernel s') = <[cr_change_id c := c]> (changes (kernel s))
      ∧ change_order (kernel s') = change_order (kernel s) ++ [cr_change_id c]
      ∧ resource_heads (kernel s') = <[cr_resource c := cr_change_id c]> (resource_heads (kernel s))
      ∧ active_candidate (kernel s') = active_candidate (kernel s)) R s.
Proof.
  intros Hg Hnew Hsize Hid Hst Hv Hhead Hprev HR. pose proof Hg as [r Hlink].
  pose proof Hlink as [Hlog Hag]. pose proof (good_log_ok _ _ _ _ _ (lg_log _ _ Hlog)) as Hok.
  assert (dom (rs_changes r) = dom (changes (kernel s))) as Hdom.
  { apply set_eq. intros id. rewrite !elem_of_dom. symmetry. by apply agrees_is_Some. }
  destruct (replay_new (transaction_id (kernel s)) (capabilities (kernel s)) c (advance r))
    as [Hup Hok']; try done.
  - by apply replay_ok_advance.
  - simpl. apply eq_None_not_Some. intros Hs. apply (agrees_is_Some _ _ _ Hag) in Hs.
    rewrite Hnew in Hs. by destruct Hs.
  - split; [done|]. by rewrite Hst.
  - simpl. by rewrite <- size_dom, Hdom, size_dom.
  - apply validate_recovered_revision_Ok. simpl. rewrite <- (ag_heads _ _ Hag).
    split_and!; [done|done|]. intros p Hp. destruct (Hprev p Hp) as (d & Hd & ? & ? & ? & ? & ? & ?).
    destruct (agrees_lookup _ _ _ _ Hag Hd) as (d' & Hd' & [[] ? Hs]). exists d'.
    split_and!; try congruence. destruct Hs; congruence.
  - eapply wp_append with (r := r); try done.
    + intros w Hw Hlog'. split_and!; try done; simpl.
      * exists (replay_added c (advance r)). destruct Hlog'. split; split; simpl; try done.
        -- intros j. destruct (decide (cr_change_id c = j)) as [<-|Hne].
           ++ rewrite !lookup_insert_eq. constructor. split; [done|done|by left].
           ++ rewrite !lookup_insert_ne by done. apply (ag_changes _ _ Hag).
        -- by rewrite (ag_heads _ _ Hag).
        -- by rewrite (ag_order _ _ Hag).
        -- apply Hag.
        -- apply Hag.
      * split; simpl; try done. exists [Ev_Durable (new_entry (ChangeUpsert c) s)].
        split; [done|]. simpl. by rewrite Hw.
      * split; [|done]. rewrite Hw. apply elem_of_app. right. by apply list_elem_of_singleton.
    + intros e s' Hl Ht _. apply HR; [by exists r|apply Ht].
Qed.

(** What a successful experiment leaves. *)
Record experimented cid cap c s s' : Prop := {
  xp_fresh : changes (kernel s) !! cid = None;
  xp_record : changes (kernel s') !! cid = Some c;
  xp_id : cr_change_id c = cid;
  xp_capability : cr_capability_id c = cap;
  xp_state : cr_state c = AppliedVerified;
  xp_verified : cr_experiment_verified c = true;
  xp_supersedes : cr_supersedes c = resource_heads (kernel s) !! cr_resource c;
  xp_order : change_order (kernel s') = change_order (kernel s) ++ [cid];
  xp_heads : resource_heads (kernel s') = <[cr_resource c := cid]> (resource_heads (kernel s));
  xp_active : active_candidate (kernel s') = active_candidate (kernel s);
  xp_settled : settled s → settled s';
  xp_readback : verified_since Expect_Desired c s s';
  xp_others j : j ≠ cid → cr_supersedes c ≠ Some j →
    changes (kernel s') !! j = changes (kernel s) !! j;
  xp_previous p : cr_supersedes c = Some p →
    ∃ d d', changes (kernel s) !! p = Some d ∧ cr_state d = AppliedVerified
      ∧ changes (kernel s') !! p = Some d' ∧ cr_state d' = BaselineRestored
      ∧ baseline (cr_prepared c) = baseline (cr_prepared d)
      ∧ verified_since Expect_Desired d s s' ∧ verified_since Expect_Baseline d s s';
}.

Lemma identity_of_prepared tid (caps : CapabilitySnapshot W) cid cap p op sup :
  prepared_valid caps cap p → is_Some (snapshot_mutation caps cap) → sup ≠ Some cid →
  identity_valid tid caps (MkChangeRecord tid cid sup cap (prepared_resource p) p false
    IntentDurable op None None).
Proof.
  intros [] Hd Hs. split; simpl; try done. intros Heq. by rewrite Heq in pv_distinct0.
Qed.

(** The second half of an experiment: the first record, the apply, the result. *)
Lemma wp_first_apply s cid cap sup op p (Q : ChangeRecord → Sys W T → Prop)
    (R : TransactionError → Sys W T → Prop) :
  good s → changes (kernel s) !! cid = None →
  size (changes (kernel s)) < MAX_CHANGES_PER_TRANSACTION →
  prepared_valid (capabilities (kernel s)) cap p →
  is_Some (snapshot_mutation (capabilities (kernel s)) cap) →
  resource_heads (kernel s) !! prepared_resource p = sup →
  (∀ prev, sup = Some prev → revised prev cap p s) →
  (∀ e s', good s' → extends s s' → R e s') →
  (∀ c s', good s' → extends s s' → cr_prepared c = p → cr_supersedes c = sup →
    cr_resource c = prepared_resource p → cr_change_id c = cid → cr_capability_id c = cap →
    cr_state c = AppliedVerified → cr_experiment_verified c = true →
    changes (kernel s') = <[cid := c]> (changes (kernel s)) →
    change_order (kernel s') = change_order (kernel s) ++ [cid] →
    resource_heads (kernel s') = <[prepared_resource p := cid]> (resource_heads (kernel s)) →
    active_candidate (kernel s') = active_candidate (kernel s) →
    verified_since Expect_Desired c s s' → (settled s → settled s') → Q c s') →
  let c0 := MkChangeRecord (transaction_id (kernel s)) cid sup cap (prepared_resource p) p false
              IntentDurable op None None in
  wp (_ ← append_event (ChangeUpsert c0); _ ← modify (on_kernel (add_change c0));
      _ ← apply_and_verify cid op AppliedVerified false; change_at cid) Q R s.
Proof.
  intros Hg Hnew Hsize Hp Hdr Hsup Hprev HR HQ c0.
  apply wp_bind. eapply wp_mono; [eapply (wp_first_record s c0 R); try done| |done].
  - apply identity_of_prepared; try done. intros Hs. rewrite Hs in Hsup.
    destruct (good_head _ _ _ Hg Hsup) as (d & Hd & _). congruence.
  - intros e s' Hg' Ht. apply HR; [done|by eapply touches_extends].
  - intros [] s1. cbv zeta. intros (Hg1 & Hx1 & Htr1 & Hann & Hc1 & Ho1 & Hh1 & Ha1).
    apply wp_bind, wp_modify. set (s2 := on_kernel (add_change c0) s1) in *.
    assert (changes (kernel s2) !! cid = Some c0) as Hc2 by (by rewrite Hc1, lookup_insert_eq).
    apply wp_bind. eapply wp_mono; [eapply (spec_apply_and_verify s2 cid c0); try done| |].
    + intros [] s3 (Hg3 & Ht3 & Hconf & rc & Hc3 & Hp3).
      set (c := updated c0 AppliedVerified op rc None (bool_decide (AppliedVerified = AppliedVerified))) in Hc3.
      apply wp_bind, wp_gets. eapply wp_expect; [by rewrite Hc3, lookup_insert_eq|].
      apply HQ; try done.
      * etrans; [exact Hx1|by eapply touches_extends].
      * by rewrite Hc3, Hc1, insert_insert_eq.
      * by rewrite (to_order _ _ _ Ht3).
      * by rewrite (to_heads _ _ _ Ht3).
      * by rewrite (to_active _ _ _ Ht3).
      * apply (verified_since_identity _ c0 c); [done|].
        eapply verified_since_later; [|done|by apply confirmed_verified_since].
        rewrite Htr1. by eexists [_].
      * intros Hs. unfold settled. rewrite Hp3.
        rewrite (pending_new _ _ [_] (ex_new _ _ Hx1) Htr1). simpl. rewrite Hs.
        unfold pending_step. simpl. by rewrite !answer_pending_empty.
    + intros e s3 [Hg3 Ht3]. apply HR; [done|]. etrans; [exact Hx1|by eapply touches_extends].
Qed.

Lemma touches_None X s s' id :
  touches X s s' → changes (kernel s) !! id = None → changes (kernel s') !! id = None.
Proof. intros Ht Hn. pose proof (to_evolves _ _ _ Ht id) as He. rewrite Hn in He. by inversion He. Qed.

Lemma touches_size X s s' : touches X s s' → size (changes (kernel s')) = size (changes (kernel s)).
Proof.
  intros Ht. rewrite <- !size_dom. f_equal. apply set_eq. intros id. rewrite !elem_of_dom.
  pose proof (to_evolves _ _ _ Ht id) as He. inversion He; split; intros []; by eauto.
Qed.

Lemma wp_experiment s cid cap args :
  good s →
  wp (experiment cid cap args)
    (λ c s', good s' ∧ extends s s' ∧ experimented cid cap c s s')
    (λ _ s', good s' ∧ extends s s') s.
Proof.
  intros Hg. unfold experiment. apply wp_bind. unfold wp. rewrite ensure_open_good by done.
  apply wp_bind, wp_gets, wp_bind, wp_lift; [|done]. intros [] Hnew%reject_Ok.
  apply bool_decide_eq_false, eq_None_not_Some in Hnew.
  apply wp_bind, wp_lift; [|done]. intros [] Hsize%reject_Ok.
  apply bool_decide_eq_false, Nat.nle_gt in Hsize.
  assert (∀ X s1 (e : TransactionError) s', touches X s s1 → good s' ∧ touches X s1 s' →
    good s' ∧ extends s s') as Hthrow.
  { intros X s1 e s' Ht [Hg' Ht']. split; [done|]. eapply touches_extends. by eapply touches_trans. }
  apply wp_bind. eapply wp_mono; [by apply (spec_driver ∅)| |intros e s' [? ?]; eauto using touches_extends].
  intros dr s1 (_ & _ & -> & Hdr).
  apply wp_bind. eapply wp_mono; [by apply spec_next_operation_id| |intros e s' [? ?]; eauto using touches_extends].
  intros op s1 (Hg1 & Ht1 & Htr1).
  apply wp_bind. eapply wp_mono; [by apply spec_prepare_checked| |intros e s'; eauto using Hthrow].
  intros p s2 (Hg2 & Ht2 & Hp & Htr2). rewrite (to_capabilities _ _ _ Ht1) in Hp.
  assert (touches ∅ s s2) as Ht02 by (by eapply touches_trans).
  assert (settled s → settled s2) as Hset02.
  { eapply (settled_silent s s2 []); [by eapply to_new|by rewrite Htr2|done]. }
  apply wp_bind, wp_gets. cbv zeta.
  destruct (resource_heads (kernel s2) !! prepared_resource p) as [prev|] eqn:Hhead.
  - apply wp_bind. eapply wp_mono; [eapply (spec_prepare_revision s2); [|done|done]| |].
    { by rewrite (to_capabilities _ _ _ Ht02). }
    2: { intros e s' [? ?]. split; [done|]. etrans; [by apply (touches_extends _ _ _ Ht02)|by eapply touches_extends]. }
    intros [op' p'] s3 (Hg3 & Ht3 & Hp' & Hres & Hrev & Hset3 & d & Hd & Hdst & Hv1 & Hv2). simpl in *.
    apply wp_bind, wp_gets.
    assert (touches {[prev]} s s3) as Ht03.
    { eapply touches_trans; [|exact Ht3]. eapply touches_weaken; [apply empty_subseteq|done]. }
    rewrite (to_capabilities _ _ _ Ht02) in Hp'.
    eapply (wp_first_apply s3); try done.
    + by eapply touches_None.
    + by rewrite (touches_size _ _ _ Ht03).
    + by rewrite (to_capabilities _ _ _ Ht03).
    + rewrite (to_capabilities _ _ _ Ht03). by eexists.
    + by rewrite (to_heads _ _ _ Ht3), Hres.
    + by intros ? [= <-].
    + intros e s' ? ?. split; [done|]. etrans; [by eapply touches_extends|done].
    + intros c s' Hg' Hx Hcp Hsup Hcr Hid Hcap Hst Hver Hc Ho Hh Ha Hrb Hset.
      assert (changes (kernel s3) !! cid = None) as Hn3 by (by eapply touches_None).
      destruct Hrev as (d3 & Hd3 & Hd3st & _ & _ & _ & Hb3 & _).
      destruct (touches_change _ _ _ _ _ Ht3 Hd) as (d3' & Hd3' & [Hi3 _]).
      rewrite Hd3 in Hd3'. injection Hd3' as <-.
      assert (changes (kernel s) !! prev = Some d) as Hds by (by rewrite <- (touches_same _ _ Ht02)).
      assert (prev ≠ cid) as Hne by congruence.
      split_and!; [done|etrans; [by eapply touches_extends|done]|]. split; try done.
      * by rewrite Hc, lookup_insert_eq.
      * by rewrite Hsup, Hcr, Hres, <- Hhead, (to_heads _ _ _ Ht02).
      * by rewrite Ho, (to_order _ _ _ Ht03).
      * by rewrite Hh, (to_heads _ _ _ Ht03), Hcr.
      * by rewrite Ha, (to_active _ _ _ Ht03).
      * auto.
      * eapply verified_since_later; [by apply (to_trace _ _ _ Ht03)|done|done].
      * intros j Hj Hs. rewrite Hc, lookup_insert_ne by done. apply (to_others _ _ _ Ht03). set_solver.
      * rewrite Hsup. intros ? [= <-]. exists d, d3. rewrite Hc, lookup_insert_ne by done.
        assert (trace s3 `suffix_of` trace s') as Hs3.
        { destruct (ex_new _ _ Hx) as (new & -> & _). by eexists. }
        split_and!; try done.
        -- rewrite Hcp, (si_prepared _ _ Hi3). by rewrite Hb3.
        -- eapply verified_since_later; [by apply (to_trace _ _ _ Ht02)|exact Hs3|done].
        -- eapply verified_since_later; [by apply (to_trace _ _ _ Ht02)|exact Hs3|done].
  - apply wp_bind, wp_ret, wp_bind, wp_gets.
    eapply (wp_first_apply s2); try done.
    + by eapply touches_None.
    + by rewrite (touches_size _ _ _ Ht02).
    + by rewrite (to_capabilities _ _ _ Ht02).
    + rewrite (to_capabilities _ _ _ Ht02). by eexists.
    + intros e s' ? ?. split; [done|]. etrans; [by eapply touches_extends|done].
    + intros c s' Hg' Hx Hcp Hsup Hcr Hid Hcap Hst Hver Hc Ho Hh Ha Hrb Hset.
      split_and!; [done|etrans; [by eapply touches_extends|done]|]. split; try done.
      * by rewrite Hc, lookup_insert_eq.
      * by rewrite Hsup, Hcr, <- Hhead, (to_heads _ _ _ Ht02).
      * by rewrite Ho, (to_order _ _ _ Ht02).
      * by rewrite Hh, (to_heads _ _ _ Ht02), Hcr.
      * by rewrite Ha, (to_active _ _ _ Ht02).
      * auto.
      * eapply verified_since_later; [by apply (to_trace _ _ _ Ht02)|done|done].
      * intros j Hj Hs. rewrite Hc, lookup_insert_ne by done. by rewrite (touches_same _ _ Ht02).
      * by rewrite Hsup.
Qed.
End Client.
