(* ===== verification/Finalize.v ===== *)
(** * Committing a candidate ([finalize_candidate])

    The acknowledgement of every provider, the readbacks around it, the terminal
    records and the commit seal; and the operations the log leaves without a
    result, which decide whether a sealed log can be recovered. *)

From S2P Require Export Client.

Section Finalize.
Context `{J : Json, !Serialize Value, !Serialize (list ChangeId), !Sha256}.
Context {W T : Type} `{!TransactionWal T, !WalLaws T}.
Implicit Types (s : Sys W T) (k : TransactionKernel W T) (c d : ChangeRecord) (r : ReplayState).

(** ** Readbacks *)

Definition head s id : Prop :=
  ∃ c, changes (kernel s) !! id = Some c ∧ resource_heads (kernel s) !! cr_resource c = Some id.

(** A change's resource was read back at the value the commit gives it. *)
Definition at_target cand id c (q : MutationVerifyRequest) : Prop :=
  verify_prepared q = cr_prepared c ∧
  verify_expected q = expected_state
    (if candidate_contains cand id then Expect_Desired else Expect_Baseline) c.

Definition is_match (e : Effect) : Prop := match e with Ev_Verify _ b => b = true | _ => False end.

(** [checks] are matched readbacks, among them one for each head of [ids]. *)
Definition readbacks cand (ids : list ChangeId) s (checks : list Effect) : Prop :=
  Forall is_match checks ∧
  ∀ id c, id ∈ ids → changes (kernel s) !! id = Some c →
    resource_heads (kernel s) !! cr_resource c = Some id →
    ∃ q, Ev_Verify q true ∈ checks ∧ at_target cand id c q.

Lemma readbacks_silent checks : Forall is_match checks → Forall (λ e, durable_entry e = None) checks.
Proof. intros Hc. eapply Forall_impl; [exact Hc|]. by intros []. Qed.

Lemma readbacks_snoc cand ids id s checks new :
  readbacks cand ids s checks → Forall is_match new →
  (∀ c, changes (kernel s) !! id = Some c → resource_heads (kernel s) !! cr_resource c = Some id →
    ∃ q, Ev_Verify q true ∈ new ∧ at_target cand id c q) →
  readbacks cand (ids ++ [id]) s (new ++ checks).
Proof.
  intros [Hall Hids] Hnew Hid. split; [by apply Forall_app|].
  intros j c. rewrite elem_of_app, list_elem_of_singleton. intros [Hj| ->] Hc Hh.
  - destruct (Hids j c) as (q & ? & ?); [done..|]. exists q. rewrite elem_of_app. auto.
  - destruct (Hid c) as (q & ? & ?); [done..|]. exists q. rewrite elem_of_app. auto.
Qed.

(** A pass of readbacks over the changes: [finalize_precheck] and [finalize_recheck]. *)
Lemma spec_readback_pass cand s (f : ChangeId → M (Sys W T) TransactionError unit)
    (P : ChangeId → ChangeRecord → Prop) ids :
  (∀ id, id ∈ ids → is_Some (changes (kernel s) !! id)) →
  (∀ id c s', touches (list_to_set ids) s s' → changes (kernel s') !! id = Some c →
    spec {[id]} s' (f id) (λ _ s'', P id c ∧ changes (kernel s'') = changes (kernel s') ∧
      ∃ new, trace s'' = new ++ trace s' ∧ Forall is_match new ∧
        (resource_heads (kernel s') !! cr_resource c = Some id →
         ∃ q, Ev_Verify q true ∈ new ∧ at_target cand id c q))) →
  spec (list_to_set ids) s (for_each f ids)
    (λ _ s', changes (kernel s') = changes (kernel s)
      ∧ (∀ id c, id ∈ ids → changes (kernel s) !! id = Some c → P id c)
      ∧ ∃ checks, trace s' = checks ++ trace s ∧ readbacks cand ids s checks).
Proof.
  intros Hknown Hf.
  apply (spec_for_each (list_to_set ids) s f (λ pre s', changes (kernel s') = changes (kernel s)
    ∧ (∀ id c, id ∈ pre → changes (kernel s) !! id = Some c → P id c)
    ∧ ∃ checks, trace s' = checks ++ trace s ∧ readbacks cand pre s checks)).
  { split_and!; [done|by intros ? ? ?%not_elem_of_nil|]. exists []. split; [done|].
    split; [done|]. by intros ? ? ?%not_elem_of_nil. }
  intros pre a post s' Hids Ht (Hch & HP & checks & Htr & Hrb).
  destruct (Hknown a) as [c Hc]; [subst ids; set_solver|].
  eapply spec_mono; [eapply Hf; [done|by rewrite Hch]|subst ids; set_solver|].
  intros [] s'' _ _ (HPa & Hch' & new & Htr' & Hnew & Hq). split_and!; [congruence| |].
  - intros id d. rewrite elem_of_app, list_elem_of_singleton. intros [Hid| ->] Hd; [eauto|congruence].
  - exists (new ++ checks). split; [by rewrite Htr', Htr, app_assoc|].
    apply readbacks_snoc; [done|done|]. intros c' Hc'. rewrite Hc in Hc'. injection Hc' as <-.
    by rewrite <- (to_heads _ _ _ Ht).
Qed.

Lemma spec_readback_one cand s id c e :
  changes (kernel s) !! id = Some c →
  e = (if candidate_contains cand id then Expect_Desired else Expect_Baseline) →
  spec {[id]} s (ensure_expected id e)
    (λ _ s', changes (kernel s') = changes (kernel s) ∧
      ∃ new, trace s' = new ++ trace s ∧ Forall is_match new ∧
        ∃ q, Ev_Verify q true ∈ new ∧ at_target cand id c q).
Proof.
  intros Hc ->. eapply spec_mono; [by apply spec_ensure_expected|done|].
  intros [] s' _ _ (Hch & q & Htr & Hp & He). split; [done|].
  exists [Ev_Verify q true]. split_and!; [done|by repeat constructor|].
  exists q. split; [by apply list_elem_of_singleton|]. by split.
Qed.

Lemma spec_finalize_recheck cand s id c :
  changes (kernel s) !! id = Some c →
  spec {[id]} s (finalize_recheck cand id)
    (λ _ s', True ∧ changes (kernel s') = changes (kernel s) ∧
      ∃ new, trace s' = new ++ trace s ∧ Forall is_match new ∧
        (resource_heads (kernel s) !! cr_resource c = Some id →
         ∃ q, Ev_Verify q true ∈ new ∧ at_target cand id c q)).
Proof.
  intros Hc. unfold finalize_recheck.
  eapply spec_bind; [by apply spec_change_at|done|]. intros ? s1 _ [-> ->].
  eapply spec_bind with (Q := λ k s', k = kernel s ∧ s' = s); [by apply spec_gets|done|].
  intros k s1 _ [-> ->]. case_bool_decide as Hh.
  - apply spec_ret. split; [done|]. split; [done|]. exists []. split_and!; [done|done|]. by intros ?.
  - eapply spec_mono; [by apply spec_readback_one|done|].
    intros [] s' _ _ (? & new & ? & ? & ?). split_and!; [done|done|]. by exists new.
Qed.

Lemma spec_finalize_precheck cand s id c :
  changes (kernel s) !! id = Some c →
  spec {[id]} s (finalize_precheck cand id)
    (λ _ s', (resource_heads (kernel s) !! cr_resource c = Some id →
              candidate_contains cand id = true → cr_state c = CandidateApplied)
      ∧ changes (kernel s') = changes (kernel s) ∧
      ∃ new, trace s' = new ++ trace s ∧ Forall is_match new ∧
        (resource_heads (kernel s) !! cr_resource c = Some id →
         ∃ q, Ev_Verify q true ∈ new ∧ at_target cand id c q)).
Proof.
  intros Hc. unfold finalize_precheck.
  eapply spec_bind; [by apply spec_change_at|done|]. intros ? s1 _ [-> ->].
  eapply spec_bind with (Q := λ k s', k = kernel s ∧ s' = s); [by apply spec_gets|done|].
  intros k s1 _ [-> ->]. case_bool_decide as Hh.
  - apply spec_ret. split; [by intros ?|]. split; [done|]. exists []. split_and!; [done|done|]. by intros ?.
  - destruct (candidate_contains cand id) eqn:Hin; [case_bool_decide as Hst; [apply spec_throw|]|].
    all: eapply spec_mono; [apply (spec_readback_one cand _ _ c); [done|by rewrite Hin]|done|].
    all: intros [] s' _ _ (? & new & ? & ? & ?); split_and!; [done|done|]; by exists new.
Qed.

(** ** Acknowledgements *)

(** The provider acknowledged the change with a finalized receipt. *)
Definition acknowledged c : Prop :=
  ∃ rc, cr_last_receipt c = Some rc ∧ receipt_state rc = Finalized_op.

Lemma spec_finalize_one s id c :
  changes (kernel s) !! id = Some c → cr_state c = CandidateApplied →
  cr_experiment_verified c = true → resource_heads (kernel s) !! cr_resource c = Some id →
  spec {[id]} s (finalize_one id)
    (λ _ s', (settled s → settled s') ∧ ∃ c', changes (kernel s') !! id = Some c'
      ∧ cr_state c' = CandidateApplied ∧ acknowledged c').
Proof.
  intros Hc Hst Hv Hh. apply spec_good. intros Hg. unfold finalize_one.
  destruct (good_record _ _ _ Hg Hc) as [Hid _].
  eapply spec_bind; [apply spec_next_operation_id|apply empty_subseteq|]. intros op s1 Ht1 Htr1.
  assert (changes (kernel s1) !! id = Some c) as Hc1 by (by rewrite (touches_same _ _ Ht1)).
  eapply spec_bind; [by eapply spec_append_intent|apply empty_subseteq|]. intros [] s2 Ht2 [Hann Htr2].
  assert (changes (kernel s2) !! id = Some c) as Hc2 by (by rewrite (touches_same _ _ Ht2)).
  assert (touches ∅ s s2) as Ht02 by (by eapply touches_trans).
  eapply spec_bind; [by apply spec_change_at|done|]. intros ? s3 _ [-> ->].
  eapply spec_bind; [apply spec_driver_for_record|done|]. intros dr s3 _ ->.
  eapply spec_bind; [by apply spec_emit|apply empty_subseteq|]. intros [] s3 Ht3 [Hk3 Htr3].
  eapply spec_bind; [apply spec_call_driver|apply empty_subseteq|]. intros o s4 Ht4 [Hk4 Htr4].
  assert (touches ∅ s s4) as Ht04 by (do 2 (eapply touches_trans; [eassumption|]); eassumption).
  assert (changes (kernel s4) !! id = Some c) as Hc4 by (by rewrite (touches_same _ _ Ht04)).
  assert (may_move (resource_heads (kernel s4)) c CandidateApplied false) as Hmv.
  { split; [by rewrite Hv|done|]. intros _. by rewrite (to_heads _ _ _ Ht04), Hid. }
  destruct o as [rc|e].
  2: { eapply spec_bind; [by eapply spec_update_change|done|intros; apply spec_throw]. }
  case_bool_decide as Hrc.
  2: { eapply spec_bind; [by eapply spec_update_change|done|intros; apply spec_throw]. }
  eapply spec_bind; [by eapply spec_update_change|done|]. intros [] s5 Ht5 [Hc5 Htr5].
  set (u := updated c CandidateApplied op (Some rc) None false) in *.
  eapply spec_mono; [eapply (spec_ensure_expected _ _ u); by rewrite Hc5, lookup_insert_eq|done|].
  intros [] s6 _ Ht6 (Hc6 & q & Htr6 & _). split.
  - assert (touches {[id]} s s6) as Ht06.
    { eapply touches_trans; [eapply touches_weaken; [apply empty_subseteq|exact Ht04]|].
      by eapply touches_trans. }
    intros Hs. unfold settled.
    rewrite (pending_new _ _ [Ev_Verify q true; Ev_Durable (new_entry (ChangeUpsert u) s4);
      Ev_Finalize (MkFinalizeRequest op (cr_prepared c));
      Ev_Durable (new_entry (OperationIntent id op Intent_Finalize) s1)] (to_new _ _ _ Ht06)).
    + transitivity (delete id (pending s)); [by apply (pending_answered _ id op Intent_Finalize _ _ u)|].
      by rewrite Hs, delete_empty.
    + by rewrite Htr6, Htr5, Htr4, Htr3, Htr2, Htr1.
  - exists u. rewrite Hc6, Hc5, lookup_insert_eq. split_and!; [done|done|]. by exists rc.
Qed.

(** A candidate change before its acknowledgement. *)
Definition ready s id : Prop :=
  ∃ c, changes (kernel s) !! id = Some c ∧ cr_state c = CandidateApplied
    ∧ cr_experiment_verified c = true ∧ resource_heads (kernel s) !! cr_resource c = Some id.

Definition acked s id : Prop :=
  ∃ c, changes (kernel s) !! id = Some c ∧ cr_state c = CandidateApplied ∧ acknowledged c.

Lemma spec_finalize_each s ids :
  NoDup ids → Forall (ready s) ids →
  spec (list_to_set ids) s (for_each finalize_one ids)
    (λ _ s', (settled s → settled s') ∧ (∀ id, id ∈ ids → acked s' id)
      ∧ ∀ id, id ∉ ids → changes (kernel s') !! id = changes (kernel s) !! id).
Proof.
  intros Hnd Hready.
  apply (spec_for_each (list_to_set ids) s finalize_one (λ pre s', (settled s → settled s')
    ∧ (∀ id, id ∈ pre → acked s' id)
    ∧ ∀ id, id ∉ pre → changes (kernel s') !! id = changes (kernel s) !! id)).
  { split_and!; [done| |done]. by intros ? ?%not_elem_of_nil. }
  intros pre a post s' Hids Ht (Hset & Hpre & Hsame). subst ids.
  apply NoDup_app in Hnd as (_ & Hdisj & _).
  assert (a ∉ pre) as Ha by (intros Hin; apply (Hdisj a Hin); set_solver).
  rewrite Forall_forall in Hready. destruct (Hready a) as (c & Hc & Hst & Hv & Hh); [set_solver|].
  eapply spec_mono; [eapply spec_finalize_one; [by rewrite Hsame|done|done|]|set_solver|].
  { by rewrite (to_heads _ _ _ Ht). }
  intros [] s'' _ Ht' (Hset' & Hacked). split_and!; [auto| |].
  - intros id. rewrite elem_of_app, list_elem_of_singleton. intros [Hid| ->]; [|exact Hacked].
    unfold acked. rewrite (to_others _ _ _ Ht') by (apply not_elem_of_singleton; by intros ->).
    by apply Hpre.
  - intros id. rewrite elem_of_app, list_elem_of_singleton. intros Hid.
    rewrite (to_others _ _ _ Ht') by set_solver. apply Hsame. tauto.
Qed.

(** ** The terminal records *)

Definition terminal_of cand id c : ChangeRecord :=
  set_record_message None
    (set_record_state (if candidate_contains cand id then Finalized else RolledBack) c).

Definition terminals cand s : list ChangeRecord :=
  omap (λ id, terminal_of cand id <$> changes (kernel s) !! id) (change_order (kernel s)).

Lemma spec_collect_terminal cand s ids :
  (∀ id, id ∈ ids → is_Some (changes (kernel s) !! id)) →
  spec ∅ s (collect_terminal cand ids)
    (λ ts s', s' = s ∧ ts = omap (λ id, terminal_of cand id <$> changes (kernel s) !! id) ids).
Proof.
  induction ids as [|id ids IH]; intros Hknown; simpl; [by apply spec_ret|].
  destruct (Hknown id) as [c Hc]; [by left|].
  eapply spec_bind with (X := ∅) (Q := λ t s', s' = s ∧ t = terminal_of cand id c); [|done|].
  { unfold terminal_change. eapply spec_bind; [by apply spec_change_at|done|].
    intros ? s1 _ [-> ->]. by apply spec_ret. }
  intros t s1 _ [-> ->]. eapply spec_bind; [apply IH; intros; apply Hknown; by right|done|].
  intros ts s1 _ [-> ->]. apply spec_ret. split; [done|]. by rewrite Hc.
Qed.

(** ** [finalize_candidate] *)

Definition commit_entry s auth cand : WalEntry := new_entry (CommitSealed auth (terminals cand s)) s.

(** [s1] is the state in which the commit decision was logged. *)
Record committed cand auth s s1 s' : Prop := {
  co_pin : auth_intent_pin auth = intent_pin (kernel s);
  co_digest : auth_candidate_digest auth = candidate_digest cand;
  co_active : active_candidate (kernel s) = Some cand;
  co_nodup : NoDup (change_ids cand);
  co_selectable : Forall (selectable (kernel s)) (change_ids cand);
  co_good : good s1;
  co_touches : touches (list_to_set (change_order (kernel s))) s s1;
  co_settled : settled s → settled s1;
  co_acked id : id ∈ change_ids cand → acked s1 id;
  co_others id : id ∉ change_ids cand → changes (kernel s1) !! id = changes (kernel s) !! id;
  co_checks : ∃ checks rest, trace s1 = checks ++ rest ++ trace s
    ∧ readbacks cand (change_order (kernel s)) s1 checks;
  co_trace : trace s' = Ev_Durable (commit_entry s1 auth cand) :: trace s1;
  co_log : durable (wal (kernel s')) = durable (wal (kernel s1)) ++ [commit_entry s1 auth cand];
  co_changes : changes (kernel s') = insert_changes (terminals cand s1) (changes (kernel s1));
  co_plan : unchanged_plan s s';
  co_sealed : sealed (kernel s') = Some Seal_Committed;
  co_authorization : commit_authorization (kernel s') = Some auth;
  co_closed : closed s';
  co_extends : extends s s';
}.

Lemma wp_commit_seal cand auth s1 (Q : unit → Sys W T → Prop) (R : TransactionError → Sys W T → Prop) :
  good s1 →
  (∀ s', trace s' = Ev_Durable (commit_entry s1 auth cand) :: trace s1 →
    durable (wal (kernel s')) = durable (wal (kernel s1)) ++ [commit_entry s1 auth cand] →
    changes (kernel s') = insert_changes (terminals cand s1) (changes (kernel s1)) →
    unchanged_plan s1 s' → sealed (kernel s') = Some Seal_Committed →
    commit_authorization (kernel s') = Some auth → closed s' → extends s1 s' → Q tt s') →
  (∀ e s', good s' → extends s1 s' → R e s') →
  wp (commit_seal auth (terminals cand s1)) Q R s1.
Proof.
  intros Hg HQ HR. pose proof Hg as [r [Hlog _]]. unfold commit_seal.
  apply wp_bind, wp_gets, wp_bind. apply wp_seal_call; try done.
  - intros w Hw Hd Hwa. apply wp_bind, wp_lift; [|done]. intros _ _. apply wp_modify.
    apply HQ; try done.
    + split; try done. exists (durable (wal (kernel s1))), (commit_entry s1 auth cand), r.
      split_and!; try done; apply Hlog.
    + split; try done. exists [Ev_Durable (commit_entry s1 auth cand)]. split; [done|]. exact Hd.
  - intros e w Hd Hgw. apply wp_bind, wp_lift; [done|]. intros e' _. apply HR; [done|].
    split; try done. by apply adds_nothing.
Qed.

Lemma wp_finalize_candidate cand auth s :
  good s →
  wp (finalize_candidate cand auth)
    (λ l s', (∃ s1, committed cand auth s s1 s') ∧ l = changes_in_order (kernel s'))
    (λ _ s', good s' ∧ extends s s') s.
Proof.
  intros Hg. unfold finalize_candidate. apply wp_bind. unfold wp. rewrite ensure_open_good by done.
  apply wp_bind, wp_gets, wp_bind, wp_lift; [|done]. intros [] [Hnd Hsel]%validate_candidate_Ok.
  apply wp_bind, wp_lift; [|done]. intros [] Hpin%reject_Ok.
  apply bool_decide_eq_false, dec_stable in Hpin.
  apply wp_bind, wp_lift; [|done]. intros [] Hdig%reject_Ok.
  apply bool_decide_eq_false, dec_stable in Hdig.
  apply wp_bind, wp_lift; [|done]. intros [] Hact%reject_Ok.
  apply bool_decide_eq_false, dec_stable in Hact.
  assert (∀ id, id ∈ change_order (kernel s) → is_Some (changes (kernel s) !! id)) as Hknown
    by (intros; by apply good_known).
  set (order := change_order (kernel s)) in *.
  assert (∀ X s1 (e : TransactionError) s', touches X s s1 → ∀ Y, good s' ∧ touches Y s1 s' →
    good s' ∧ extends s s') as Hthrow.
  { intros X s1 e s' Ht Y [Hg' Ht']. split; [done|]. etrans; by eapply touches_extends. }
  (* readbacks before the first acknowledgement *)
  apply wp_bind. eapply wp_mono; [eapply (spec_readback_pass cand s (finalize_precheck cand)
    (λ id c, resource_heads (kernel s) !! cr_resource c = Some id →
      candidate_contains cand id = true → cr_state c = CandidateApplied) order); [done| |done]| |].
  { intros id c s' Ht Hc. rewrite <- (to_heads _ _ _ Ht). by apply spec_finalize_precheck. }
  2: { intros e s' [? ?]. eauto using touches_extends. }
  intros [] s1 (Hg1 & Ht1 & Hc1 & Hst1 & ch1 & Htr1 & Hrb1).
  (* acknowledgements *)
  assert (Forall (ready s1) (change_ids cand)) as Hready.
  { apply Forall_forall. intros id Hid. rewrite Forall_forall in Hsel.
    destruct (Hsel id Hid) as (c & Hc & Hv & Hh).
    exists c. rewrite Hc1, (to_heads _ _ _ Ht1). split_and!; try done.
    apply (Hst1 id c); try done; [apply good_ordered; [done|by exists c]|by apply bool_decide_eq_true]. }
  assert (settled s → settled s1) as Hset1.
  { eapply settled_silent; [apply (to_new _ _ _ Ht1)|done|]. apply readbacks_silent, Hrb1. }
  apply wp_bind. eapply wp_mono; [by eapply spec_finalize_each| |].
  2: { intros e s' [? ?]. by eapply Hthrow. }
  intros [] s2 (Hg2 & Ht2 & Hset2 & Hack & Hoth).
  assert (touches (list_to_set order) s s2) as Ht02.
  { eapply touches_trans; [exact Ht1|]. eapply touches_weaken; [|exact Ht2].
    intros id. rewrite !elem_of_list_to_set. intros Hid. rewrite Forall_forall in Hsel.
    destruct (Hsel id Hid) as (c & Hc & _). apply good_ordered; [done|by exists c]. }
  assert (∀ id, id ∈ order → is_Some (changes (kernel s2) !! id)) as Hknown2.
  { intros id Hid. destruct (Hknown id Hid) as [c Hc].
    destruct (touches_change _ _ _ _ _ Ht02 Hc) as (c' & Hc' & _). by exists c'. }
  (* readbacks after the last acknowledgement *)
  apply wp_bind. eapply wp_mono; [eapply (spec_readback_pass cand s2 (finalize_recheck cand)
    (λ _ _, True) order); [done|by intros; apply spec_finalize_recheck|done]| |].
  2: { intros e s' [? ?]. by eapply Hthrow. }
  intros [] s3 (Hg3 & Ht3 & Hc3 & _ & ch3 & Htr3 & Hrb3).
  assert (touches (list_to_set order) s s3) as Ht03 by (by eapply touches_trans).
  (* the decision *)
  apply wp_bind. eapply wp_mono; [eapply spec_collect_terminal; [|exact Hg3]| |].
  { intros id Hid. rewrite Hc3. by apply Hknown2. }
  2: { intros e s' [? ?]. by eapply Hthrow. }
  intros ts s4 (_ & _ & -> & ->).
  replace order with (change_order (kernel s3)) by apply (to_order _ _ _ Ht03).
  fold (terminals cand s3). apply wp_bind, wp_commit_seal; [done| |].
  2: { intros e s' ? ?. split; [done|]. etrans; [by eapply touches_extends|done]. }
  intros s' Htr Hlog Hch Hplan Hsealed Hauth Hclosed Hx. apply wp_gets. split; [|done].
  exists s3. split; try done.
  - intros Hs. eapply settled_silent; [apply (to_new _ _ _ Ht3)|exact Htr3| |by apply Hset2, Hset1].
    apply readbacks_silent, Hrb3.
  - intros id Hid. unfold acked. rewrite Hc3. by apply Hack.
  - intros id Hid. rewrite Hc3, Hoth, Hc1; done.
  - destruct (to_trace _ _ _ Ht02) as [rest Hrest]. exists ch3, rest.
    split; [by rewrite Htr3, Hrest|]. destruct Hrb3 as [Hall Hids]. split; [done|].
    intros id c. rewrite Hc3, (to_heads _ _ _ Ht3). apply Hids.
  - destruct Hplan as [Ho Hh]. split; [by rewrite Ho, (to_order _ _ _ Ht03)|by rewrite Hh, (to_heads _ _ _ Ht03)].
  - etrans; [by eapply touches_extends|done].
Qed.
End Finalize.
