(* ===== verification/Evaluation.v ===== *)
(** * The A/B evaluation, specified

    What [evaluate] does to the trace and to the transaction behind the port: the
    baseline is restored and measured, the candidate is replayed and measured, the
    two are compared, each once and in this order, under one deadline; and what
    the evidence it returns is made of.  A port is any transaction that keeps the
    promises of [PortSpec]. *)

From S2P Require Export Protocol Session.

Open Scope Z_scope.

(** ** The transaction behind the port *)

(** A call from [p] that does not panic, keeps [inv] and, when it returns,
    establishes [G]. *)
Definition port_call {P W A} (inv G : P → Prop) (call : P → W → outcome string A * (P * W))
    (p : P) : Prop :=
  ∀ w, match call p w with
       | (Ret _, (p', _)) => inv p' ∧ G p'
       | (Throw _, (p', _)) => inv p'
       | (Panic, _) => False
       end.

(** What [evaluate] relies on: a transaction that is ready can be restored, and a
    restored one can be replayed. *)
Class PortSpec `{JD : JsonData} {P W : Type} (port : TransactionPort P W) := {
  port_ok : P → Prop;
  port_ready : P → Prop;
  port_restored : P → Prop;
  port_replayed : list ChangeId → P → Prop;
  port_ready_ok p : port_ready p → port_ok p;
  port_restore_spec ids p : port_ready p →
    port_call port_ok port_restored (port_restore_baseline port ids) p;
  port_replay_spec ids p : port_restored p →
    port_call port_ok (port_replayed ids) (port_replay_candidate port ids) p;
}.

Section Evaluation.
Context `{JD : JsonData, !Serialize MetricBatch, !Serialize CleanupReceipt,
  !Serialize ComparisonEvidence}.
Context {P W : Type} `{!Clock W} (port : TransactionPort P W) `{!PortSpec port}.

Abbreviation EvM := (M (EvalSys (P := P) (W := W)) EvaluationError).
Implicit Types (self : AbEvaluationProtocol (W := W)) (c : FrozenEvaluationContract)
  (d : EvaluationDeadline).

(** ** A triple that follows the port

    [drives p old m Q R]: as [runs], from a port [p], on computations that call the
    port. *)

Definition drives {A} (p : P) (old : list EvalEvent) (m : EvM A)
    (Q : A → P → list EvalEvent → Prop) (R : list EvalEvent → Prop) : Prop :=
  ∀ s, eval_port s = p → wp m
    (λ a s', ∃ new, eval_trace s' = new ++ eval_trace s ∧ Q a (eval_port s') (new ++ old))
    (λ _ s', ∃ new, eval_trace s' = new ++ eval_trace s ∧ port_ok (eval_port s') ∧ R (new ++ old)) s.

Section Rules.
Context {A : Type} (p : P) (old : list EvalEvent) (Q : A → P → list EvalEvent → Prop)
  (R : list EvalEvent → Prop).

Lemma drives_ret (a : A) : Q a p old → drives p old (mret a) Q R.
Proof. intros HQ s <-. apply wp_ret. by exists []. Qed.

Lemma drives_mono (m : EvM A) Q' (R' : list EvalEvent → Prop) :
  drives p old m Q' R' →
  (∀ a p' new, Q' a p' (new ++ old) → Q a p' (new ++ old)) →
  (∀ new, R' (new ++ old) → R (new ++ old)) → drives p old m Q R.
Proof. intros Hm HQ HR s Hs. eapply wp_mono; [by apply Hm| |]; naive_solver. Qed.

(** A step that does not touch the port. *)
Lemma drives_runs {B} (m : EvM B) (f : B → EvM A) (Q1 : B → list EvalEvent → Prop)
    (R1 : EvaluationError → list EvalEvent → Prop) :
  port_ok p → runs old m Q1 R1 → (∀ e tr, R1 e tr → R tr) →
  (∀ b tr, Q1 b tr → drives p tr (f b) Q R) → drives p old (m ≫= f) Q R.
Proof.
  intros Hp Hm HR Hf s <-. apply wp_bind. eapply wp_mono; [apply Hm| |].
  - intros b s1 (new & Ht & Hpt & HQ). eapply wp_mono; [by eapply Hf| |].
    + intros x s2 (new' & Ht' & Hx). exists (new' ++ new). rewrite Ht', Ht, <- !app_assoc. done.
    + intros x s2 (new' & Ht' & Hx & Hr). exists (new' ++ new).
      rewrite Ht', Ht, <- !app_assoc. done.
  - intros e s1 (new & Ht & Hpt & He). exists new. rewrite Hpt. eauto.
Qed.

Lemma drives_lift {B} (r : result EvaluationError B) (f : B → EvM A) :
  port_ok p → (∀ e, r = Err e → R old) → (∀ b, r = Ok b → drives p old (f b) Q R) →
  drives p old (lift r ≫= f) Q R.
Proof.
  intros Hp HR Hf. destruct r as [b|e]; [by apply Hf|]. intros s <-. exists [].
  split_and!; [done|done|by eapply HR].
Qed.
End Rules.

Lemma drives_call {A B} p old (call : P → W → outcome string B * (P * W)) ev (G : P → Prop)
    (f : result string B → EvM A) Q R :
  port_call port_ok G call p →
  (∀ r p', port_ok p' → (is_ok r = true → G p') → drives p' (ev :: old) (f r) Q R) →
  drives p old (call_port call ev ≫= f) Q R.
Proof.
  intros Hs Hf s <-. unfold wp, mbind, M_bind, call_port. specialize (Hs (eval_world s)).
  destruct (call (eval_port s) (eval_world s)) as [r [p' w']].
  assert (∀ x, port_ok p' → (is_ok x = true → G p') → wp (f x)
    (λ a s', ∃ new, eval_trace s' = new ++ eval_trace s ∧ Q a (eval_port s') (new ++ old))
    (λ _ s', ∃ new, eval_trace s' = new ++ eval_trace s ∧ port_ok (eval_port s') ∧ R (new ++ old))
    (MkEval p' w' (ev :: eval_trace s))) as Hx.
  { intros x Hp' HG. eapply wp_mono; [by apply (Hf x p' Hp' HG)| |]; simpl;
      [intros a s' (new & Ht & HQ)|intros a s' (new & Ht & Ho & HQ)];
      exists (new ++ [ev]); rewrite Ht, <- !app_assoc; done. }
  destruct r; [by apply Hx; destruct Hs|by apply Hx|done].
Qed.

(** ** The contract, checked again *)

(** A contract the protocol's snapshot still supports. *)
Record contract_current self c : Prop := {
  current_generation : contract_generation c = snap_generation (ap_capabilities self);
  current_pins pin : pin ∈ capability_pins c → ∃ meta,
    snapshot_meta (ap_capabilities self) (bp_capability_id pin) = Some meta
    ∧ provider meta = bp_provider pin;
  current_measurement : ∃ m,
    snapshot_measurement (ap_capabilities self) (mb_capability_id (contract_measurement c)) = Some m
    ∧ is_agent_selectable (measurement_meta m) = true
    ∧ validate_measurement_specification m (mb_specification (contract_measurement c)) = Ok tt
    ∧ validate_declared_metric_references c (measurement_meta m) = Ok tt;
  current_bindings b : b ∈ contract_bindings c → ∃ policy,
    snapshot_comparison (ap_capabilities self) (cb_capability_id b) = Some policy
    ∧ validate_comparison_specification policy (cb_specification b) = Ok tt;
}.

Lemma fold_unit_Ok {E A} (f : A → result E unit) l :
  fold_result (λ _ a, f a) tt l = Ok tt ↔ ∀ a, a ∈ l → f a = Ok tt.
Proof.
  induction l as [|a l IH]; simpl; [split; [intros _ b []%not_elem_of_nil|done]|].
  destruct (f a) as [[]|e] eqn:Ha; [rewrite IH|].
  - split; [intros H b [->|Hb]%elem_of_cons; auto|]. intros H b Hb. apply H. set_solver.
  - split; [done|]. intros H. rewrite <- Ha. apply H. set_solver.
Qed.

Lemma validate_pin_Ok self pin :
  validate_pin self pin = Ok tt ↔ ∃ meta,
    snapshot_meta (ap_capabilities self) (bp_capability_id pin) = Some meta
    ∧ provider meta = bp_provider pin.
Proof.
  unfold validate_pin. rewrite ok_or_bind_Ok. setoid_rewrite reject_Ok.
  setoid_rewrite bool_decide_eq_false. split; intros (meta & ? & H); exists meta;
    (split; [done|]); [by apply dec_stable|naive_solver].
Qed.

Lemma contract_current_Ok self c m :
  contract_generation c = snap_generation (ap_capabilities self) →
  (∀ pin, pin ∈ capability_pins c → validate_pin self pin = Ok tt) →
  snapshot_measurement (ap_capabilities self) (mb_capability_id (contract_measurement c)) = Some m →
  is_agent_selectable (measurement_meta m) = true →
  validate_measurement_specification m (mb_specification (contract_measurement c)) = Ok tt →
  validate_declared_metric_references c (measurement_meta m) = Ok tt →
  (∀ b, b ∈ contract_bindings c → ∃ policy,
    snapshot_comparison (ap_capabilities self) (cb_capability_id b) = Some policy
    ∧ validate_comparison_specification policy (cb_specification b) = Ok tt) →
  contract_current self c.
Proof.
  intros Hg Hp Hm Hs Hv Hr Hb. split; try done; [|by exists m].
  intros pin Hin. by apply validate_pin_Ok, Hp.
Qed.

(** What [AbEvaluationProtocol::new] checks. *)
Lemma protocol_new_Ret (capabilities : CapabilitySnapshot W) timeout self :
  AbEvaluationProtocol_new capabilities timeout = Ret self →
  timeout ≠ 0 ∧ ap_capabilities self = capabilities ∧ evaluation_timeout self = timeout
  ∧ guardrail_binding self
    = MkMeasurementBinding (StringId TRUSTED_GUARDRAIL_MEASUREMENT_ID) empty_specification
  ∧ snapshot_measurement capabilities (StringId TRUSTED_GUARDRAIL_MEASUREMENT_ID)
    = Some (guardrail_measurement self).
Proof.
  unfold AbEvaluationProtocol_new. destruct (Z.eqb_spec timeout 0) as [|Ht]; [done|].
  change (string_id_new N_Capability TRUSTED_GUARDRAIL_MEASUREMENT_ID)
    with (@Ok string CapabilityId (StringId TRUSTED_GUARDRAIL_MEASUREMENT_ID)). cbv beta iota.
  intros (meta & _ & H)%of_result_Ret%ok_or_bind_Ok. apply reject_bind_Ok in H as [_ H].
  apply ok_or_bind_Ok in H as (q & Hq & H). cbv zeta in H.
  apply reject_bind_Ok in H as [_ [= <-]]. done.
Qed.

(** Whatever the deadline checks do, as long as they keep [I]. *)
Lemma wp_validate {S} admitting tick (I : S → Prop) self c s :
  (∀ meta stage s, I s → wp (admitting meta stage) (λ _, I) (λ _, I) s) →
  (∀ stage s, I s → wp (tick stage) (λ _, I) (λ _, I) s) →
  I s →
  wp (validate_contract_with_deadline admitting tick self c)
    (λ _ s', I s' ∧ contract_current self c) (λ _, I) s.
Proof.
  intros Hadmit Htick HI. unfold validate_contract_with_deadline. cbv zeta.
  apply wp_bind, wp_lift; [|done]. intros [] Hgen%reject_Ok.
  apply bool_decide_eq_false, dec_stable in Hgen.
  apply wp_bind, wp_lift; [|done]. intros [] Hpins. rewrite fold_unit_Ok in Hpins.
  apply wp_bind, wp_lift; [|done]. intros m Hm%ok_or_Ok.
  apply wp_bind, wp_lift; [|done]. intros [] Hsel%reject_Ok. apply negb_false_iff in Hsel.
  apply wp_bind. eapply wp_mono; [by apply Hadmit| |done]. intros [] s1 HI1.
  apply wp_bind. eapply wp_mono; [by apply Htick| |done]. intros [] s2 HI2.
  apply wp_bind, wp_lift; [|done]. intros [] Hv%map_err_Ok.
  apply wp_bind, wp_lift; [|done]. intros [] Href.
  eapply (wp_for_each (λ pre s, I s ∧ ∀ b, b ∈ pre → ∃ policy,
    snapshot_comparison (ap_capabilities self) (cb_capability_id b) = Some policy
    ∧ validate_comparison_specification policy (cb_specification b) = Ok tt)).
  - split; [done|]. by intros b []%not_elem_of_nil.
  - intros pre b post s3 Hpre [HI3 Hall]. unfold validate_comparison.
    apply wp_bind, wp_lift; [|done]. intros policy Hpol%ok_or_Ok.
    apply wp_bind. eapply wp_mono; [by apply Hadmit| |done]. intros [] s4 HI4.
    apply wp_bind. eapply wp_mono; [by apply Htick| |done]. intros [] s5 HI5.
    apply wp_lift; [|done]. intros [] Hok%map_err_Ok. split; [done|].
    intros b' [Hb| ->%list_elem_of_singleton]%elem_of_app; [by apply Hall|by exists policy].
  - intros s3 [HI3 Hall]. split; [done|]. by apply (contract_current_Ok _ _ m).
Qed.

Lemma runs_validate d self c old tr :
  idle d old tr →
  runs tr (validate_contract_with_deadline (ensure_provider_call d) (check d) self c : EvM unit)
    (λ _ tr', idle d old tr' ∧ contract_current self c) (λ _, idle d old).
Proof.
  intros Hi s.
  set (I s' := ∃ new, eval_trace s' = new ++ eval_trace s ∧ eval_port s' = eval_port s
                 ∧ idle d old (new ++ tr)).
  assert (∀ m, (∀ tr', idle d old tr' → runs tr' m (λ _, idle d old) (λ _, idle d old)) →
    ∀ s', I s' → wp m (λ _ : unit, I) (λ _, I) s') as Hkeep.
  { intros m Hm s' (new & Ht & Hp & Hn). eapply wp_mono; [by apply (Hm _ Hn)| |];
      intros x s'' (new' & Ht' & Hp' & Hn'); exists (new' ++ new);
      rewrite Ht', Ht, <- !app_assoc; (split_and!; [done|congruence|done]). }
  eapply wp_mono; [apply (wp_validate _ _ I)| |].
  - intros meta stage. apply Hkeep. intros tr' Hi'. eapply runs_mono;
      [by apply runs_ensure_provider_call|by intros [] ? []|done].
  - intros stage. apply Hkeep. intros tr' Hi'. by apply runs_check.
  - by exists [].
  - intros [] s' [(new & ? & ? & ?) ?]. by exists new.
  - intros e s' (new & ? & ? & ?). by exists new.
Qed.

(** ** The calls of an evaluation *)

(** The calls and the evidence of one measurement ([sessions_are_closed_once] of
    [Session.v]). *)
Definition measured (plan : SamplingPlan) (provider : MeasurementProvider W)
    (context : InvocationContext) (binding : MeasurementBinding) (evidence : MeasurementEvidence)
    (l : list EvalEvent) : Prop :=
  ∃ session batches,
    l = session_calls provider context
          (MkOpenRequest context (mb_specification binding)) session (Z.to_nat (sample_count plan))
    ∧ length batches = Z.to_nat (sample_count plan)
    ∧ Forall (λ b, MetricBatch_validate b = Ok tt) batches
    ∧ aggregate_samples batches = Ok (evidence_batch evidence)
    ∧ cleanup_session_id (evidence_cleanup evidence) = session_id session
    ∧ cleaned_up (evidence_cleanup evidence) = true.

(** Both measurements of a side; one session when they coincide. *)
Definition side_measured self c (m : MeasurementProvider W) (context : InvocationContext)
    (evidence : MeasurementEvidence * MeasurementEvidence) (l : list EvalEvent) : Prop :=
  let plan := contract_sampling c in
  ∃ l1 l2, l = l1 ++ l2
    ∧ measured plan (guardrail_measurement self) context (guardrail_binding self) evidence.1 l1
    ∧ if bool_decide (contract_measurement c = guardrail_binding self)
      then l2 = [] ∧ evidence.2 = evidence.1
      else measured plan m context (contract_measurement c) evidence.2 l2.

(** One comparison: the binding's own policy on the two batches. *)
Definition compared self c (context : InvocationContext) (baseline candidate : MetricBatch)
    (binding : ComparisonBinding) (evidence : ComparisonEvidence) (event : EvalEvent) : Prop :=
  let request := MkComparisonRequest context (contract_id c) (cb_specification binding)
                   baseline candidate in
  ∃ policy, snapshot_comparison (ap_capabilities self) (cb_capability_id binding) = Some policy
    ∧ Capability.compare policy request = Ok evidence
    ∧ event = Ev_Compare (comparison_meta policy) request.

(** Calls that leave no session open. *)
Inductive balanced : list EvalEvent → Prop :=
  | balanced_nil : balanced []
  | balanced_event l e :
      match e with Ev_RestoreBaseline _ | Ev_ReplayCandidate _ | Ev_Compare _ _ => True | _ => False end →
      balanced l → balanced (l ++ [e])
  | balanced_refused l meta request : balanced l → balanced (l ++ [Ev_Open meta request None])
  | balanced_session l provider context request session n :
      balanced l → balanced (l ++ session_calls (W := W) provider context request session n).

Definition is_transaction (e : EvalEvent) : bool :=
  match e with Ev_RestoreBaseline _ | Ev_ReplayCandidate _ => true | _ => false end.

Definition transaction_calls (l : list EvalEvent) : list EvalEvent :=
  base.filter (λ e, is_transaction e = true) l.

(** What holds of the calls wherever an evaluation stops: no session is left open
    and the transaction was called in order, at most once each. *)
Definition orderly (ids : list ChangeId) (l : list EvalEvent) : Prop :=
  balanced l ∧ transaction_calls l `prefix_of` [Ev_RestoreBaseline ids; Ev_ReplayCandidate ids].

(** After the calls [l], in the budget. *)
Definition at_calls d (l tr : list EvalEvent) : Prop := calls tr = l ∧ within_budget d tr.

Lemma at_calls_idle d l tr tr' : at_calls d l tr → idle d tr tr' → at_calls d l tr'.
Proof. intros [H1 H2] [H3 H4]. split; [by rewrite H3|done]. Qed.

Lemma transaction_calls_app l l' :
  transaction_calls (l ++ l') = transaction_calls l ++ transaction_calls l'.
Proof. apply filter_app. Qed.

Lemma transaction_calls_session (provider : MeasurementProvider W) context request session n :
  transaction_calls (session_calls provider context request session n) = [].
Proof.
  unfold session_calls, transaction_calls.
  rewrite filter_cons_False, filter_app by done.
  rewrite filter_cons_False, filter_nil, app_nil_r by done.
  induction n as [|n IH]; [done|]. simpl. by rewrite filter_cons_False.
Qed.

Lemma orderly_session ids l (provider : MeasurementProvider W) context request session n :
  orderly ids l → orderly ids (l ++ session_calls provider context request session n).
Proof.
  intros [Hb Hp]. split; [by constructor|].
  by rewrite transaction_calls_app, transaction_calls_session, app_nil_r.
Qed.

Lemma orderly_refused ids l meta request :
  orderly ids l → orderly ids (l ++ [Ev_Open meta request None]).
Proof.
  intros [Hb Hp]. split; [by constructor|]. rewrite transaction_calls_app. simpl.
  by rewrite app_nil_r.
Qed.

Lemma orderly_compare ids l meta request :
  orderly ids l → orderly ids (l ++ [Ev_Compare meta request]).
Proof.
  intros [Hb Hp]. split; [by constructor|]. rewrite transaction_calls_app. simpl.
  by rewrite app_nil_r.
Qed.

(** ** The steps *)

Section Steps.
Context (d : EvaluationDeadline) (ids : list ChangeId) (context : InvocationContext).

(** Wherever an evaluation stops. *)
Definition stopped (tr : list EvalEvent) : Prop := within_budget d tr ∧ orderly ids (calls tr).

Lemma stopped_at l tr : at_calls d l tr → orderly ids l → stopped tr.
Proof. intros [<- Hb] Ho. by split. Qed.

Lemma stopped_idle l tr tr' : at_calls d l tr → orderly ids l → idle d tr tr' → stopped tr'.
Proof. intros Ha Ho Hi. exact (stopped_at l tr' (at_calls_idle d l tr tr' Ha Hi) Ho). Qed.

Lemma runs_measured plan (provider : MeasurementProvider W) binding l tr :
  at_calls d l tr → orderly ids l →
  runs tr (collect_measurement provider context plan d binding : EvM _)
    (λ evidence tr', ∃ l', at_calls d (l ++ l') tr' ∧ orderly ids (l ++ l')
       ∧ measured plan provider context binding evidence l')
    (λ _, stopped).
Proof.
  intros [Hc Hb] Ho. eapply runs_mono; [by apply runs_collect| |].
  - intros evidence tr' (Hb' & session & batches & Hc' & Hm). rewrite Hc in Hc'.
    eexists. split; [by split|]. split; [by apply orderly_session|]. by exists session, batches.
  - intros e tr' (Hb' & Hcase). split; [done|]. rewrite Hc in Hcase.
    destruct Hcase as [->|[->|(session & n & _ & ->)]];
      [done|by apply orderly_refused|by apply orderly_session].
Qed.

Lemma runs_side self c m l tr :
  at_calls d l tr → orderly ids l →
  runs tr (measure_side self c m context d : EvM _)
    (λ evidence tr', ∃ l', at_calls d (l ++ l') tr' ∧ orderly ids (l ++ l')
       ∧ side_measured self c m context evidence l')
    (λ _, stopped).
Proof.
  intros Ha Ho. unfold measure_side. cbv zeta.
  eapply runs_bind; [by apply (runs_measured _ _ _ l)|].
  intros guardrails tr1 (l1 & Ha1 & Ho1 & Hm1).
  eapply (runs_bind _ _ _ _ _ (λ own tr', ∃ l2, at_calls d (l ++ l1 ++ l2) tr'
    ∧ orderly ids (l ++ l1 ++ l2)
    ∧ if bool_decide (contract_measurement c = guardrail_binding self)
      then l2 = [] ∧ own = guardrails
      else measured (contract_sampling c) m context (contract_measurement c) own l2)).
  - case_bool_decide; [apply runs_ret; exists []; by rewrite app_nil_r|].
    eapply runs_mono; [by apply (runs_measured _ _ _ (l ++ l1))| |done].
    intros own tr' (l2 & Ha2 & Ho2 & Hm2). exists l2. by rewrite app_assoc.
  - intros own tr2 (l2 & Ha2 & Ho2 & Hm2). apply runs_ret. exists (l1 ++ l2).
    split_and!; [done|done|]. by exists l1, l2.
Qed.

Lemma runs_compare_one self c baseline candidate binding l tr :
  at_calls d l tr → orderly ids l →
  runs tr (compare_one self context c baseline candidate d binding : EvM _)
    (λ evidence tr', ∃ event, at_calls d (l ++ [event]) tr' ∧ orderly ids (l ++ [event])
       ∧ compared self c context baseline candidate binding evidence event)
    (λ _, stopped).
Proof.
  intros Ha Ho. assert (stopped tr) as Hstop by by eapply stopped_at.
  unfold compare_one. cbv zeta.
  apply runs_lift_bind; [done|]. intros policy Hp%ok_or_Ok.
  eapply runs_bind; [eapply runs_mono; [by apply runs_ensure_provider_call, idle_refl, Ha|done|]|].
  { intros e tr' Hi. by eapply stopped_idle. }
  intros [] tr1 Hadm. cbv beta in Hadm.
  set (event := Ev_Compare (comparison_meta policy) _).
  assert (at_calls d (l ++ [event]) (event :: tr1)) as Ha1.
  { destruct Ha as [<- _]. by apply (admits_event _ _ _ event) in Hadm. }
  assert (orderly ids (l ++ [event])) as Ho1 by by apply orderly_compare.
  eapply (runs_bind _ _ _ _ _ (λ r tr', r = Capability.compare policy (MkComparisonRequest
      context (contract_id c) (cb_specification binding) baseline candidate) ∧ tr' = event :: tr1)).
  { by apply runs_provider_pure. }
  intros r tr2 [-> ->]. cbv beta.
  eapply runs_bind; [eapply runs_mono; [by apply runs_check, idle_refl, Ha1|done|]|].
  { intros e tr' Hi. by eapply stopped_idle. }
  intros [] tr3 Hi3. assert (at_calls d (l ++ [event]) tr3) as Ha3 by by eapply at_calls_idle.
  assert (stopped tr3) as Hstop3 by by eapply stopped_at.
  apply runs_lift_bind; [done|]. intros evidence Hev%map_err_Ok.
  apply runs_lift_bind; [done|]. intros encoded _.
  apply runs_lift_bind; [done|]. intros [] _. apply runs_ret. exists event.
  split_and!; [done|done|]. by exists policy.
Qed.

Lemma runs_compare_all self c baseline candidate bindings l tr :
  at_calls d l tr → orderly ids l →
  runs tr (compare_all self context c bindings baseline candidate d : EvM _)
    (λ evidence tr', ∃ events, at_calls d (l ++ events) tr' ∧ orderly ids (l ++ events)
       ∧ Forall3 (compared self c context baseline candidate) bindings evidence events)
    (λ _, stopped).
Proof.
  revert l tr. induction bindings as [|b bindings IH]; intros l tr Ha Ho.
  - apply runs_ret. exists []. rewrite app_nil_r. split_and!; [done|done|constructor].
  - eapply runs_bind; [by apply (runs_compare_one _ _ _ _ _ l)|].
    intros e tr1 (event & Ha1 & Ho1 & Hc).
    eapply runs_bind; [by apply (IH (l ++ [event]))|].
    intros es tr2 (events & Ha2 & Ho2 & Hcs). apply runs_ret. exists (event :: events).
    rewrite <- app_assoc in Ha2, Ho2. split_and!; [done|done|by constructor].
Qed.
End Steps.

(** ** The protocol *)

(** What the policies said, and the calls that asked them: nothing is compared
    unless the two sides are comparable. *)
Definition judged self c (context : InvocationContext)
    (sides : (MeasurementEvidence * MeasurementEvidence) * (MeasurementEvidence * MeasurementEvidence))
    (groups : ComparisonEvidenceGroups) (l : list EvalEvent) : Prop :=
  let '((system_baseline, baseline), (system_candidate, candidate)) := sides in
  let judge := compared self c context (evidence_batch baseline) (evidence_batch candidate) in
  if schemas_are_comparable (evidence_batch system_baseline) (evidence_batch system_candidate)
       (evidence_batch baseline) (evidence_batch candidate)
  then ∃ l1 l2 l3, l = l1 ++ l2 ++ l3
    ∧ Forall3 judge (contract_primary c) (group_primary groups) l1
    ∧ Forall3 judge (contract_regression_guards c) (group_regression_guards groups) l2
    ∧ Forall3 judge (contract_workload_invariants c) (group_workload_invariants groups) l3
  else l = [] ∧ groups = ComparisonEvidenceGroups_default.

(** Evidence, and the calls it was made from. *)
Record evaluated self (context : InvocationContext) (intent : FrozenEvaluationIntent)
    (candidate : Candidate) (e : AbEvaluationEvidence) (l : list EvalEvent) : Prop := {
  ev_episode : ctx_episode_id context = intent_episode_id intent;
  ev_current : contract_current self (intent_contract intent);
  ev_schedule : scheduled_ms (intent_contract intent) <= as_millis (evaluation_timeout self);
  ev_intent : ab_intent e = intent_pin_of intent;
  ev_contract : ab_contract_id e = contract_id (intent_contract intent)
    ∧ ab_contract_digest e = contract_digest (intent_contract intent);
  ev_candidate : ab_candidate_digest e = candidate_digest candidate;
  ev_calls : ∃ m baseline_context candidate_context groups l1 l2 l3,
    snapshot_measurement (ap_capabilities self)
      (mb_capability_id (contract_measurement (intent_contract intent))) = Some m
    ∧ side_context context "baseline" = Ok baseline_context
    ∧ side_context context "candidate" = Ok candidate_context
    ∧ l = [Ev_RestoreBaseline (change_ids candidate)] ++ l1
            ++ [Ev_ReplayCandidate (change_ids candidate)] ++ l2 ++ l3
    ∧ side_measured self (intent_contract intent) m baseline_context
        (ab_baseline_system_guardrails e, ab_baseline_measurement e) l1
    ∧ side_measured self (intent_contract intent) m candidate_context
        (ab_candidate_system_guardrails e, ab_candidate_measurement e) l2
    ∧ judged self (intent_contract intent) context
        ((ab_baseline_system_guardrails e, ab_baseline_measurement e),
         (ab_candidate_system_guardrails e, ab_candidate_measurement e)) groups l3
    ∧ ab_decision e = decide_verdict
        (evidence_batch (ab_baseline_system_guardrails e))
        (evidence_batch (ab_candidate_system_guardrails e))
        (evidence_batch (ab_baseline_measurement e))
        (evidence_batch (ab_candidate_measurement e)) groups;
}.

Lemma runs_judge d ids self c context sides l tr :
  let '((system_baseline, baseline), (system_candidate, candidate)) := sides in
  at_calls d l tr → orderly ids l →
  runs tr
    (if schemas_are_comparable (evidence_batch system_baseline) (evidence_batch system_candidate)
          (evidence_batch baseline) (evidence_batch candidate) then
       primary ← compare_all self context c (contract_primary c)
                   (evidence_batch baseline) (evidence_batch candidate) d;
       guards ← compare_all self context c (contract_regression_guards c)
                   (evidence_batch baseline) (evidence_batch candidate) d;
       invariants ← compare_all self context c (contract_workload_invariants c)
                   (evidence_batch baseline) (evidence_batch candidate) d;
       mret (MkGroups primary guards invariants)
     else mret ComparisonEvidenceGroups_default : EvM _)
    (λ groups tr', ∃ l', at_calls d (l ++ l') tr' ∧ orderly ids (l ++ l')
       ∧ judged self c context sides groups l')
    (λ _, stopped d ids).
Proof.
  destruct sides as [[sb b] [sc cd]]. intros Ha Ho. unfold judged.
  destruct (schemas_are_comparable _ _ _ _).
  2:{ apply runs_ret. exists []. by rewrite app_nil_r. }
  eapply runs_bind; [by apply (runs_compare_all d ids _ _ _ _ _ _ l)|].
  intros g1 tr1 (l1 & Ha1 & Ho1 & H1).
  eapply runs_bind; [by apply (runs_compare_all d ids _ _ _ _ _ _ (l ++ l1))|].
  intros g2 tr2 (l2 & Ha2 & Ho2 & H2).
  eapply runs_bind; [by apply (runs_compare_all d ids _ _ _ _ _ _ ((l ++ l1) ++ l2))|].
  intros g3 tr3 (l3 & Ha3 & Ho3 & H3). apply runs_ret. exists (l1 ++ l2 ++ l3).
  rewrite <- !app_assoc in Ha3, Ho3. split_and!; [done|done|]. by exists l1, l2, l3.
Qed.

Section Body.
Context (d : EvaluationDeadline) (ids : list ChangeId) {A : Type} (p : P).
Context (Q : A → P → list EvalEvent → Prop) (l : list EvalEvent) (tr : list EvalEvent).
Context (Hp : port_ok p) (Ha : at_calls d l tr) (Ho : orderly ids l).

(** A step that only reads the clock or waits. *)
Lemma drives_idle {B} (m : EvM B) (f : B → EvM A) :
  runs tr m (λ _, idle d tr) (λ _, idle d tr) →
  (∀ b tr', at_calls d l tr' → drives p tr' (f b) Q (stopped d ids)) →
  drives p tr (m ≫= f) Q (stopped d ids).
Proof.
  intros Hm Hf. eapply drives_runs; [done|exact Hm| |].
  - intros e tr' Hi. cbv beta in Hi. by apply (stopped_idle d ids l tr).
  - intros b tr' Hi. cbv beta in Hi. apply Hf. by apply (at_calls_idle _ _ tr).
Qed.

Lemma drives_check stage (f : unit → EvM A) :
  (∀ b tr', at_calls d l tr' → drives p tr' (f b) Q (stopped d ids)) →
  drives p tr (check d stage ≫= f) Q (stopped d ids).
Proof. apply drives_idle, runs_check, idle_refl, Ha. Qed.

Lemma drives_settle duration stage (f : unit → EvM A) :
  (∀ b tr', at_calls d l tr' → drives p tr' (f b) Q (stopped d ids)) →
  drives p tr (settle d duration stage ≫= f) Q (stopped d ids).
Proof. apply drives_idle, runs_settle, idle_refl, Ha. Qed.

Lemma drives_pure {B} (r : result EvaluationError B) (f : B → EvM A) :
  (∀ b, r = Ok b → drives p tr (f b) Q (stopped d ids)) →
  drives p tr (lift r ≫= f) Q (stopped d ids).
Proof. intros Hf. apply drives_lift; [done|intros; by eapply stopped_at|done]. Qed.

Lemma drives_side self c m context (f : _ → EvM A) :
  (∀ evidence l' tr', at_calls d (l ++ l') tr' → orderly ids (l ++ l') →
    side_measured self c m context evidence l' → drives p tr' (f evidence) Q (stopped d ids)) →
  drives p tr (measure_side self c m context d ≫= f) Q (stopped d ids).
Proof.
  intros Hf. eapply drives_runs; [done|by apply (runs_side d ids _ _ _ _ l)|done|].
  intros evidence tr' (l' & ? & ? & ?). by eapply Hf.
Qed.
End Body.

Lemma at_calls_call d l e tr :
  admitted_duration e = None → is_call e = true → at_calls d l tr → at_calls d (l ++ [e]) (e :: tr).
Proof.
  intros He Hc [<- Hb]. split; [|simpl; by rewrite He].
  rewrite calls_cons. f_equal. unfold calls. change (reverse [e]) with [e].
  by rewrite filter_cons_True.
Qed.

Lemma runs_start timeout :
  runs [] (deadline_start timeout : EvM _)
    (λ d tr, expires_at d = started_at d + timeout ∧ tr = [Ev_Now (started_at d)])
    (λ _ tr, ∃ t, tr = [Ev_Now t]).
Proof.
  eapply (runs_bind _ _ _ _ _ (λ t tr, tr = [Ev_Now t])); [by apply runs_now|].
  intros t tr ->. unfold instant_checked_add. destruct (_ <? _); [by apply runs_ret|].
  apply runs_throw. by exists t.
Qed.

(** The deadline of a trace: started at its first reading. *)
Definition deadline_of (timeout : Z) d (tr : list EvalEvent) : Prop :=
  last tr = Some (Ev_Now (started_at d)) ∧ expires_at d = started_at d + timeout.

(** The checks made before the transaction is touched. *)
Lemma drives_admission {A} self c d ids p tr (f : unit → EvM A) Q :
  port_ok p → at_calls d [] tr → sample_count (contract_sampling c) ≠ 0 →
  (∀ tr', at_calls d [] tr' → contract_current self c →
    scheduled_ms c <= as_millis (evaluation_timeout self) →
    drives p tr' (f tt) Q (stopped d ids)) →
  drives p tr
    (_ ← (λ s, (ensure_schedule_fits c (evaluation_timeout self), s));
     validate_contract_with_deadline (ensure_provider_call d) (check d) self c ≫= f)
    Q (stopped d ids).
Proof.
  intros Hp Ha Hn Hf. unfold ensure_schedule_fits.
  destruct (Z.eqb_spec (sample_count (contract_sampling c)) 0) as [|_]; [done|].
  assert (orderly ids []) as Ho by (split; [constructor|apply prefix_nil]).
  apply (drives_pure d ids p Q [] tr Hp Ha Ho (reject _ _)). intros [] Hs%reject_Ok.
  apply Z.ltb_ge in Hs.
  eapply drives_runs; [done|by apply runs_validate, idle_refl, Ha| |].
  - intros e tr' Hi. by apply (stopped_idle d ids [] tr).
  - intros [] tr' [Hi Hc]. apply Hf; [|done|done]. by apply (at_calls_idle _ _ tr).
Qed.

Lemma drives_start {A} ids timeout p (f : EvaluationDeadline → EvM A)
    (Q : EvaluationDeadline → A → P → list EvalEvent → Prop) :
  port_ok p →
  (∀ d tr, at_calls d [] tr → drives p tr (f d) (Q d) (stopped d ids)) →
  drives p [] (deadline_start timeout ≫= f)
    (λ a p' tr, ∃ d, deadline_of timeout d tr ∧ Q d a p' tr)
    (λ tr, ∃ d, deadline_of timeout d tr ∧ stopped d ids tr).
Proof.
  intros Hp Hf. eapply drives_runs; [done|by apply runs_start| |].
  - intros e tr (t & ->). exists (MkDeadline t (t + timeout) timeout).
    repeat split; [constructor|apply prefix_nil].
  - intros d tr [Hexp ->]. eapply drives_mono; [by apply (Hf d)| |].
    + intros a p' new HQ. exists d. split; [|done]. split; [by rewrite last_snoc|done].
    + intros new Hs. exists d. split; [|done]. split; [by rewrite last_snoc|done].
Qed.

Lemma orderly_nil ids : orderly ids [].
Proof. split; [constructor|apply prefix_nil]. Qed.

Lemma orderly_restore ids : orderly ids [Ev_RestoreBaseline ids].
Proof. split; [by apply (balanced_event []), balanced_nil|]. by exists [Ev_ReplayCandidate ids]. Qed.

(** A measured side leaves the order of the transaction calls as it was. *)
Lemma side_transaction_calls self c m context evidence l :
  side_measured self c m context evidence l → transaction_calls l = [].
Proof.
  intros (l1 & l2 & -> & (se & ba & -> & _) & H). rewrite transaction_calls_app.
  rewrite transaction_calls_session. case_bool_decide; [by destruct H as [-> _]|].
  destruct H as (se' & ba' & -> & _). apply transaction_calls_session.
Qed.

Lemma orderly_replay self c m context evidence ids l :
  side_measured self c m context evidence l →
  orderly ids ([Ev_RestoreBaseline ids] ++ l) →
  orderly ids (([Ev_RestoreBaseline ids] ++ l) ++ [Ev_ReplayCandidate ids]).
Proof.
  intros Hl [Hb _]. split; [by constructor|].
  rewrite !transaction_calls_app, (side_transaction_calls _ _ _ _ _ _ Hl). done.
Qed.

Lemma drives_evaluate self context intent candidate p :
  port_ready p → sample_count (contract_sampling (intent_contract intent)) ≠ 0 →
  drives p [] (evaluate self port context intent candidate)
    (λ e p' tr, ∃ d, deadline_of (evaluation_timeout self) d tr ∧ within_budget d tr
       ∧ port_ok p' ∧ port_replayed (change_ids candidate) p'
       ∧ evaluated self context intent candidate e (calls tr))
    (λ tr, tr = [] ∨ ∃ d, deadline_of (evaluation_timeout self) d tr
       ∧ stopped d (change_ids candidate) tr).
Proof.
  intros Hready Hn. pose proof (port_ready_ok _ Hready) as Hp. unfold evaluate. cbv zeta.
  set (ids := change_ids candidate). set (c := intent_contract intent) in *.
  apply drives_lift; [done|by left|]. intros [] Hep%reject_Ok.
  apply bool_decide_eq_false, dec_stable in Hep.
  eapply drives_mono; [apply (drives_start ids _ _ _ (λ d e p' tr, within_budget d tr ∧ port_ok p'
    ∧ port_replayed ids p' ∧ evaluated self context intent candidate e (calls tr)) Hp)|done|by right].
  intros d tr Ha0. apply drives_admission; [done|done|done|]. intros tr1 Ha1 Hcur Hsch.
  apply (drives_pure d ids p _ [] tr1); [done|done|apply orderly_nil|]. intros m Hm%ok_or_Ok.
  apply (drives_check d ids p _ [] tr1); [done|done|apply orderly_nil|]. intros _ tr2 Ha2.
  eapply drives_call; [by apply port_restore_spec|]. intros restored p1 Hp1 Hres.
  apply (at_calls_call _ _ (Ev_RestoreBaseline ids)) in Ha2; [|done|done]. cbn [app] in Ha2.
  pose proof (orderly_restore ids) as Ho2.
  eapply drives_check; [done..|]. intros _ tr3 Ha3.
  eapply drives_pure; [done..|]. intros restore Hok%map_err_Ok. rewrite Hok in Hres.
  eapply drives_settle; [done..|]. intros _ tr4 Ha4.
  eapply drives_pure; [done..|]. intros bctx Hbctx.
  eapply drives_side; [done..|]. intros [sb b] l1 tr5 Ha5 Ho5 Hl1.
  eapply drives_check; [done..|]. intros _ tr6 Ha6.
  eapply drives_call; [by apply port_replay_spec, Hres|]. intros replayed p2 Hp2 Hrep.
  apply (at_calls_call _ _ (Ev_ReplayCandidate ids)) in Ha6; [|done|done].
  pose proof (orderly_replay _ _ _ _ _ _ _ Hl1 Ho5) as Ho6.
  eapply drives_check; [done..|]. intros _ tr7 Ha7.
  eapply drives_pure; [done..|]. intros replay Hr%map_err_Ok. rewrite Hr in Hrep.
  eapply drives_settle; [done..|]. intros _ tr8 Ha8.
  eapply drives_pure; [done..|]. intros cctx Hcctx.
  eapply drives_side; [done..|]. intros [sc cd] l2 tr9 Ha9 Ho9 Hl2.
  eapply drives_check; [done..|]. intros _ tr10 Ha10.
  eapply drives_runs; [done
    |apply (runs_judge d ids self c context ((sb, b), (sc, cd)) _ tr10 Ha10 Ho9)|done|].
  intros groups tr11 (l3 & Ha11 & Ho11 & Hj).
  eapply drives_check; [done..|]. intros _ tr12 Ha12.
  eapply drives_check; [done..|]. intros _ tr13 [Hc13 Hb13].
  apply drives_ret. split_and!; [done|done|by apply Hrep|].
  split; try done. exists m, bctx, cctx, groups, l1, l2, l3. split_and!; try done.
  by rewrite Hc13, <- !app_assoc.
Qed.

(** C3. An evaluation that returns evidence was made for the intent of the episode
    and a contract that the snapshot still supports and whose waits fit the
    budget; it restored the baseline, measured it, replayed the candidate,
    measured it and compared the two, in this order and each once; its decision
    is the verdict on exactly those measurements and the answers of the bound
    policies, and the candidate is what the transaction holds.  Wherever it fails,
    every measurement session it opened was closed and the candidate was replayed
    at most once and only after a restore.  Every provider call was started with
    room for its declared timeout before the one deadline, and nothing panics. *)
Theorem evaluation_follows_the_protocol self context intent candidate s r s' :
  port_ready (eval_port s) → sample_count (contract_sampling (intent_contract intent)) ≠ 0 →
  evaluate self port context intent candidate s = (r, s') →
  ∃ new, eval_trace s' = new ++ eval_trace s ∧ port_ok (eval_port s')
    ∧ match r with
      | Ret e => ∃ d, deadline_of (evaluation_timeout self) d new ∧ within_budget d new
          ∧ port_replayed (change_ids candidate) (eval_port s')
          ∧ evaluated self context intent candidate e (calls new)
      | Throw _ => new = [] ∨ ∃ d, deadline_of (evaluation_timeout self) d new
          ∧ within_budget d new ∧ orderly (change_ids candidate) (calls new)
      | Panic => False
      end.
Proof.
  intros Hp Hn Hr. pose proof (drives_evaluate self context intent candidate _ Hp Hn s eq_refl) as Hw.
  unfold wp in Hw. rewrite Hr in Hw. destruct r as [e|e|]; [| |done].
  - destruct Hw as (new & Ht & d & Hd & Hb & Hok & Hrep & He). exists new.
    rewrite app_nil_r in *. eauto 8.
  - destruct Hw as (new & Ht & Hok & Hs). exists new. rewrite app_nil_r in Hs.
    split_and!; [done|done|exact Hs].
Qed.
End Evaluation.
