(* ===== verification/Waits.v ===== *)
(** * The waits of an evaluation

    [ensure_schedule_fits] compares the waits a contract asks for with the
    evaluation budget before anything is measured; here, that [evaluate] never
    sleeps longer than that. *)

From S2P Require Export Evaluation.

Open Scope Z_scope.

Section Waits.
Context `{JD : JsonData, !Serialize MetricBatch, !Serialize CleanupReceipt,
  !Serialize ComparisonEvidence}.
Context {P W : Type} `{!Clock W}.

Abbreviation EvM := (M (EvalSys (P := P) (W := W)) EvaluationError).

(** The nanoseconds slept in a trace. *)
Fixpoint slept (tr : list EvalEvent) : Z :=
  match tr with
  | [] => 0
  | Ev_Sleep ns :: tr => ns + slept tr
  | _ :: tr => slept tr
  end.

(** However it ends, [m] sleeps at most [n]. *)
Definition waits {A} (m : EvM A) (n : Z) : Prop :=
  0 <= n ∧ ∀ s, slept (eval_trace (m s).2) <= slept (eval_trace s) + n.

Lemma slept_app l l' : slept (l ++ l') = slept l + slept l'.
Proof. induction l as [|[] l IH]; simpl; lia. Qed.

Section Rules.
Context {A : Type}.

Lemma waits_pure (m : EvM A) : (∀ s, eval_trace (m s).2 = eval_trace s) → waits m 0.
Proof. intros Hm. split; [done|]. intros s. rewrite Hm. lia. Qed.

Lemma waits_ret (a : A) : waits (mret a) 0.
Proof. by apply waits_pure. Qed.
Lemma waits_throw e : waits (throw e : EvM A) 0.
Proof. by apply waits_pure. Qed.
Lemma waits_lift (r : result EvaluationError A) : waits (lift r) 0.
Proof. by apply waits_pure. Qed.

Lemma waits_le (m : EvM A) n n' : waits m n → n <= n' → waits m n'.
Proof. intros [Hn Hm] Hle. split; [lia|]. intros s. specialize (Hm s). lia. Qed.

Lemma waits_bind {B} (m : EvM B) (f : B → EvM A) n1 n2 :
  waits m n1 → (∀ b, waits (f b) n2) → 0 <= n2 → waits (m ≫= f) (n1 + n2).
Proof.
  intros [H1 Hm] Hf H2. split; [lia|]. intros s. specialize (Hm s). unfold mbind, M_bind.
  destruct (m s) as [[b|e|] s1]; simpl in *; [|lia..].
  destruct (Hf b) as [_ Hb]. specialize (Hb s1). lia.
Qed.

(** A step that does not sleep. *)
Lemma waits_skip {B} (m : EvM B) (f : B → EvM A) n :
  0 <= n → waits m 0 → (∀ b, waits (f b) n) → waits (m ≫= f) n.
Proof. intros Hn Hm Hf. exact (waits_bind m f 0 n Hm Hf Hn). Qed.

(** Nothing sleeps after the first step. *)
Lemma waits_last {B} (m : EvM B) (f : B → EvM A) n :
  waits m n → (∀ b, waits (f b) 0) → waits (m ≫= f) n.
Proof. intros Hm Hf. eapply waits_le; [by apply waits_bind|lia]. Qed.

Lemma waits_attempt (m : EvM A) n :
  waits m n → waits (attempt m : EvM (result EvaluationError A)) n.
Proof.
  intros [Hn Hm]. split; [done|]. intros s. specialize (Hm s). unfold attempt.
  by destruct (m s) as [[] ?].
Qed.

Lemma waits_provider (call : W → result ProviderError A * W) event :
  (∀ r tr, slept (event r :: tr) = slept tr) → waits (call_provider call event : EvM _) 0.
Proof.
  intros He. split; [done|]. intros s. unfold call_provider.
  destruct (call (eval_world s)) as [r w]. cbn [snd eval_trace]. rewrite He. lia.
Qed.

Lemma waits_port (call : P → W → outcome string A * (P * W)) event :
  (∀ tr, slept (event :: tr) = slept tr) → waits (call_port call event) 0.
Proof.
  intros He. split; [done|]. intros s. unfold call_port.
  destruct (call (eval_port s) (eval_world s)) as [r [p w]]. cbn [snd eval_trace]. rewrite He. lia.
Qed.
End Rules.

Lemma waits_now : waits (now : EvM Z) 0.
Proof. split; [done|]. intros s. unfold now. destruct (instant_now (eval_world s)). simpl. lia. Qed.

Lemma waits_sleep ns : 0 <= ns → waits (sleep ns : EvM unit) ns.
Proof. intros Hn. split; [done|]. intros s. simpl. lia. Qed.

Lemma waits_for_each {A} (f : A → EvM unit) l : (∀ a, waits (f a) 0) → waits (for_each f l) 0.
Proof.
  intros Hf. induction l as [|a l IH]; [apply waits_ret|]. by apply waits_skip.
Qed.

Lemma waits_mapM {A B} (f : A → EvM B) l : (∀ a, waits (f a) 0) → waits (mapM f l) 0.
Proof.
  intros Hf. induction l as [|a l IH]; [apply waits_ret|]. apply waits_skip; [done|done|].
  intros b. apply waits_skip; [done|done|]. intros bs. apply waits_ret.
Qed.

(** [quiet]: a computation whose steps do not sleep. *)
Ltac quiet := repeat (cbv beta zeta; first
  [ apply waits_ret | apply waits_throw | apply waits_lift | apply waits_now
  | assumption | (apply waits_provider || apply waits_port); done
  | apply waits_for_each; intros ? | apply waits_mapM; intros ?
  | apply waits_skip; [lia| |intros ?]
  | match goal with |- waits (match ?x with _ => _ end) _ => destruct x end ]).

Lemma waits_check d stage : waits (check d stage : EvM unit) 0.
Proof. unfold check, exceeded. quiet. Qed.

Lemma waits_ensure d meta stage : waits (ensure_provider_call d meta stage : EvM unit) 0.
Proof. pose proof (waits_check d). unfold ensure_provider_call. quiet; auto. Qed.

Lemma waits_settle d duration stage : 0 <= duration → waits (settle d duration stage : EvM unit) duration.
Proof.
  intros Hd. unfold settle. apply waits_skip; [done|apply waits_check|]. intros _.
  apply waits_skip; [done|apply waits_now|]. intros t. cbv zeta.
  destruct (_ <? _); [by apply (waits_le _ 0), Hd; apply waits_throw|].
  apply waits_last; [|intros; apply waits_check].
  destruct (duration =? 0); [by apply (waits_le _ 0), Hd; apply waits_ret|by apply waits_sleep].
Qed.

Section Session.
Context (provider : MeasurementProvider W) (context : InvocationContext) (plan : SamplingPlan)
  (d : EvaluationDeadline).

(** The waits of one collection. *)
Definition intervals : Z := (sample_count plan - 1) * from_millis (sample_interval_ms plan).

Hypothesis plan_count : 1 <= sample_count plan.
Hypothesis plan_interval : 0 <= sample_interval_ms plan.

Lemma waits_sample_once session index :
  waits (sample_once provider context plan d session index : EvM _)
    (if index + 1 <? sample_count plan then from_millis (sample_interval_ms plan) else 0).
Proof.
  assert (0 <= from_millis (sample_interval_ms plan)) as Hi by (unfold from_millis; lia).
  set (n := if index + 1 <? sample_count plan then from_millis (sample_interval_ms plan) else 0).
  assert (0 <= n) as Hn by (unfold n; destruct (_ <? _); lia).
  unfold sample_once. cbv zeta.
  apply waits_skip; [done|apply waits_ensure|intros ?].
  apply waits_skip; [done|by apply waits_provider|intros sampled].
  apply waits_skip; [done|apply waits_check|intros ?].
  do 3 (apply waits_skip; [done|apply waits_lift|intros ?]).
  apply waits_last; [|intros; apply waits_ret].
  unfold n. destruct (index + 1 <? sample_count plan); [|apply waits_ret].
  destruct (0 <? sample_interval_ms plan); [by apply waits_settle|].
  by eapply waits_le; [apply waits_ret|].
Qed.

Lemma waits_sample_loop session turns index :
  index + Z.of_nat turns = sample_count plan →
  waits (sample_loop provider context plan d session turns index : EvM _)
    (Z.max 0 (Z.of_nat turns - 1) * from_millis (sample_interval_ms plan)).
Proof.
  assert (0 <= from_millis (sample_interval_ms plan)) as Hi by (unfold from_millis; lia).
  revert index. induction turns as [|turns IH]; intros index Hsum; [apply waits_ret|].
  cbn [sample_loop]. eapply waits_le.
  - apply waits_bind; [apply waits_sample_once| |].
    + intros batch. apply waits_last; [apply IH; lia|intros; apply waits_ret].
    + nia.
  - destruct (Z.ltb_spec (index + 1) (sample_count plan)); nia.
Qed.

Lemma waits_collect binding :
  waits (collect_measurement provider context plan d binding : EvM _) intervals.
Proof.
  assert (0 <= intervals) as Hn by (unfold intervals, from_millis; nia).
  unfold collect_measurement. cbv zeta.
  apply waits_skip; [done|apply waits_ensure|intros ?].
  apply waits_skip; [done|by apply waits_provider|intros opened].
  apply waits_skip; [done|apply waits_attempt, waits_check|intros budget].
  destruct opened as [session|error].
  2:{ apply waits_skip; [done|apply waits_lift|intros ?].
      eapply waits_le; [apply waits_throw|done]. }
  apply waits_last.
  - destruct budget as [[]|error]; [|by eapply waits_le; [apply waits_ret|]].
    apply waits_attempt. eapply waits_le; [apply waits_sample_loop; lia|].
    unfold intervals. rewrite Z2Nat.id, Z.max_r by lia. done.
  - intros samples.
    apply waits_skip; [done|apply waits_attempt, waits_ensure|intros ?].
    apply waits_skip; [done|by apply waits_provider|intros cleanup].
    apply waits_skip; [done|apply waits_attempt, waits_check|intros ?]. quiet.
Qed.
End Session.

(** ** The whole evaluation *)

Lemma waits_compare_one (self : AbEvaluationProtocol (W := W)) context c baseline candidate d binding :
  waits (compare_one self context c baseline candidate d binding : EvM _) 0.
Proof.
  unfold compare_one. cbv zeta. apply waits_skip; [done|apply waits_lift|intros policy].
  apply waits_skip; [done|apply waits_ensure|intros ?].
  apply waits_skip; [done|by apply waits_provider|intros evidence].
  apply waits_skip; [done|apply waits_check|intros ?]. quiet.
Qed.

Lemma waits_validate (self : AbEvaluationProtocol (W := W)) c d :
  waits (validate_contract_with_deadline (ensure_provider_call d) (check d) self c : EvM unit) 0.
Proof.
  unfold validate_contract_with_deadline. cbv zeta.
  do 4 (apply waits_skip; [done|apply waits_lift|intros ?]).
  apply waits_skip; [done|apply waits_ensure|intros ?].
  apply waits_skip; [done|apply waits_check|intros ?].
  do 2 (apply waits_skip; [done|apply waits_lift|intros ?]).
  apply waits_for_each. intros binding. unfold validate_comparison. cbv zeta.
  apply waits_skip; [done|apply waits_lift|intros policy].
  apply waits_skip; [done|apply waits_ensure|intros ?].
  apply waits_skip; [done|apply waits_check|intros ?]. apply waits_lift.
Qed.

(** The number of collections on each side. *)
Definition collections (self : AbEvaluationProtocol (W := W)) (c : FrozenEvaluationContract) : Z :=
  if bool_decide (contract_measurement c = guardrail_binding self) then 1 else 2.

Lemma waits_side (self : AbEvaluationProtocol (W := W)) c m context d :
  1 <= sample_count (contract_sampling c) → 0 <= sample_interval_ms (contract_sampling c) →
  waits (measure_side self c m context d : EvM _) (collections self c * intervals (contract_sampling c)).
Proof.
  intros Hn Hi. unfold measure_side, collections. cbv zeta.
  assert (0 <= intervals (contract_sampling c)) by (unfold intervals, from_millis; nia).
  case_bool_decide.
  - eapply waits_le; [apply waits_last; [by apply waits_collect|intros; quiet]|lia].
  - eapply waits_le; [apply waits_bind; [by apply waits_collect| |]|].
    + intros g. apply waits_last; [by apply waits_collect|intros; apply waits_ret].
    + done.
    + lia.
Qed.

Lemma waits_schedule c timeout (f : unit → EvM AbEvaluationEvidence) n :
  1 <= sample_count (contract_sampling c) → 0 <= n →
  (scheduled_ms c <= as_millis timeout → ∀ u, waits (f u) n) →
  waits ((λ s, (ensure_schedule_fits c timeout, s)) ≫= f) n.
Proof.
  intros Hn H0 Hf. unfold ensure_schedule_fits.
  destruct (Z.eqb_spec (sample_count (contract_sampling c)) 0) as [|_]; [lia|].
  destruct (Z.ltb_spec (as_millis timeout) (scheduled_ms c)); simpl.
  - by apply (waits_le _ 0), H0; apply waits_pure.
  - by apply Hf.
Qed.

Lemma waits_evaluate self port context intent candidate :
  let c := intent_contract intent in
  1 <= sample_count (contract_sampling c) → 0 <= sample_interval_ms (contract_sampling c) →
  0 <= settle_ms (contract_sampling c) →
  waits (evaluate self port context intent candidate : EvM _)
    (from_millis (settle_ms (contract_sampling c)) * 2
     + collections self c * intervals (contract_sampling c) * 2).
Proof.
  cbv zeta. intros Hn Hi Hs. set (c := intent_contract intent) in *.
  assert (0 <= intervals (contract_sampling c)) as H1 by (unfold intervals, from_millis; nia).
  set (k := collections self c * intervals (contract_sampling c)).
  assert (0 <= k) as Hk by (unfold k, collections; case_bool_decide; lia).
  assert (0 <= from_millis (settle_ms (contract_sampling c))) as Ht by (unfold from_millis; lia).
  set (t := from_millis (settle_ms (contract_sampling c))) in *.
  unfold evaluate. cbv zeta. fold c t.
  apply waits_skip; [lia|apply waits_lift|intros ?].
  apply waits_skip; [lia|unfold deadline_start; quiet|intros d].
  apply waits_schedule; [done|lia|]. intros _ _.
  apply waits_skip; [lia|apply waits_validate|intros ?].
  apply waits_skip; [lia|apply waits_lift|intros m].
  apply waits_skip; [lia|apply waits_check|intros ?].
  apply waits_skip; [lia|by apply waits_port|intros restored].
  apply waits_skip; [lia|apply waits_check|intros ?].
  apply waits_skip; [lia|apply waits_lift|intros ?].
  eapply waits_le; [apply (waits_bind _ _ t (k + (t + k))); [by apply waits_settle|intros ?|lia]|lia].
  apply waits_skip; [lia|apply waits_lift|intros bctx].
  apply waits_bind; [by apply waits_side|intros baseline|lia].
  apply waits_skip; [lia|apply waits_check|intros ?].
  apply waits_skip; [lia|by apply waits_port|intros replayed].
  apply waits_skip; [lia|apply waits_check|intros ?].
  apply waits_skip; [lia|apply waits_lift|intros ?].
  apply waits_bind; [by apply waits_settle|intros ?|lia].
  apply waits_skip; [lia|apply waits_lift|intros cctx].
  apply waits_last; [by apply waits_side|intros measured].
  apply waits_skip; [lia|apply waits_check|intros ?].
  pose proof (waits_compare_one self context c) as Hc.
  apply waits_skip; [lia| |intros evidence].
  { destruct (schemas_are_comparable _ _ _ _); unfold compare_all; quiet; apply Hc. }
  apply waits_skip; [lia|apply waits_check|intros ?].
  apply waits_skip; [lia|apply waits_check|intros ?]. apply waits_ret.
Qed.

Lemma measures_guardrails_binding self c :
  guardrail_binding self
    = MkMeasurementBinding (StringId TRUSTED_GUARDRAIL_MEASUREMENT_ID) empty_specification →
  collections self c = if measures_guardrails c then 1 else 2.
Proof.
  intros Hg. unfold collections, measures_guardrails. rewrite Hg.
  destruct (contract_measurement c) as [[id] spec]. simpl.
  destruct (bool_decide_reflect (id = TRUSTED_GUARDRAIL_MEASUREMENT_ID)) as [->|Hid];
    [destruct (bool_decide_reflect (spec = empty_specification)) as [->|Hspec]|]; simpl.
  - by rewrite bool_decide_eq_true_2.
  - rewrite bool_decide_eq_false_2; congruence.
  - rewrite bool_decide_eq_false_2; congruence.
Qed.

(** C35. An evaluation sleeps at most as long as [ensure_schedule_fits] computed from
    the contract, however it ends; so when that check passes, the waits fit the
    timeout. *)
Theorem waits_fit_the_schedule capabilities timeout self (port : TransactionPort P W)
    context intent candidate s :
  let c := intent_contract intent in
  AbEvaluationProtocol_new capabilities timeout = Ret self →
  SamplingPlan_validate (contract_sampling c) = Ok tt →
  sampling_in_range (contract_sampling c) →
  slept (eval_trace (evaluate self port context intent candidate s).2)
    <= slept (eval_trace s) + from_millis (scheduled_ms c)
  ∧ (ensure_schedule_fits c timeout = Ret tt → from_millis (scheduled_ms c) <= timeout).
Proof.
  intros c (_ & _ & _ & Hg & _)%protocol_new_Ret Hv Hrange.
  apply (SamplingPlan_validate_Ok _ Hrange) in Hv as [Hn _]. destruct Hrange as (? & ? & ?). split.
  - destruct (waits_evaluate self port context intent candidate) as [_ Hw]; [fold c; lia..|].
    specialize (Hw s). fold c in Hw. rewrite (measures_guardrails_binding _ _ Hg) in Hw.
    etrans; [exact Hw|]. unfold scheduled_ms, intervals, from_millis.
    destruct (measures_guardrails c); lia.
  - unfold ensure_schedule_fits. destruct (_ =? 0); [done|].
    destruct (Z.ltb_spec (as_millis timeout) (scheduled_ms c)) as [|Hle]; [done|]. intros _.
    unfold as_millis in Hle. unfold from_millis. pose proof (Z.mul_div_le timeout (10 ^ 6)). nia.
Qed.
End Waits.
