(* ===== verification/Admission.v ===== *)
(** * Before and after an evaluation

    A frozen contract is accepted again by the protocol over the snapshot it was
    frozen with, exactly when its waits fit and the metrics it names are declared;
    and evidence authorizes a commit only for an improvement. *)

From S2P Require Export Evaluation.

Open Scope Z_scope.

Section Admission.
Context `{JD : JsonData, !Serialize ContractPayload, !Sha256}.
Context {W : Type}.
Implicit Types (self : AbEvaluationProtocol (W := W)) (c : FrozenEvaluationContract).

(** The checks as one value: on a current contract, none of them fails. *)
Lemma validate_current {S} self c (s : S) :
  contract_current self c →
  validate_contract_with_deadline (λ _ _, mret tt) (λ _, mret tt) self c s = (Ret tt, s).
Proof.
  intros [Hgen Hpins (m & Hm & Hsel & Hv & Href) Hb].
  unfold validate_contract_with_deadline, mbind, M_bind, lift, of_result.
  rewrite bool_decide_eq_false_2 by auto. simpl.
  assert (fold_result (λ _ pin, validate_pin self pin) tt (capability_pins c) = Ok tt) as ->.
  { apply fold_unit_Ok. intros pin Hin. by apply validate_pin_Ok, Hpins. }
  rewrite Hm. simpl. rewrite Hsel. simpl. rewrite Hv. simpl. rewrite Href.
  assert (∀ l, (∀ b, b ∈ l → b ∈ contract_bindings c) →
    for_each (validate_comparison (λ _ _, mret tt) (λ _, mret tt) self) l s = (Ret tt, s)) as Hall.
  { induction l as [|b l IH]; intros Hin; [done|]. simpl. unfold mbind, M_bind.
    destruct (Hb b) as (policy & Hp & Hok); [set_solver|].
    unfold validate_comparison, mbind, M_bind, lift. rewrite Hp. simpl. rewrite Hok. simpl.
    apply IH. set_solver. }
  by apply Hall.
Qed.

(** [validate_contract] accepts exactly the current contracts whose waits fit,
    without any effect. *)
Lemma validate_contract_spec {S} self c (s : S) :
  sample_count (contract_sampling c) ≠ 0 →
  (validate_contract self c s).1 ≠ Panic ∧ (validate_contract self c s).2 = s
  ∧ ((validate_contract self c s).1 = Ret tt
     ↔ contract_current self c ∧ scheduled_ms c <= as_millis (evaluation_timeout self)).
Proof.
  intros Hn. unfold validate_contract, ensure_schedule_fits, mbind, M_bind.
  destruct (Z.eqb_spec (sample_count (contract_sampling c)) 0) as [|_]; [done|].
  destruct (Z.ltb_spec (as_millis (evaluation_timeout self)) (scheduled_ms c)); simpl.
  { split_and!; [done|done|]. split; [done|]. intros [_ ?]. lia. }
  pose proof (wp_validate (λ _ _, mret tt) (λ _, mret tt) (λ s', s' = s) self c s
    (λ _ _ s Hs, Hs) (λ _ s Hs, Hs) eq_refl) as Hw.
  unfold wp in Hw. destruct (validate_contract_with_deadline _ _ self c s) as [[[]|e|] s'] eqn:Hr;
    simpl; [| |done].
  - destruct Hw as [-> Hc]. done.
  - split_and!; [done|done|]. split; [done|]. intros [Hc _].
    by rewrite validate_current in Hr.
Qed.

Lemma frozen_current self c :
  frozen_with (ap_capabilities self) c →
  contract_current self c ↔ ∀ m,
    snapshot_measurement (ap_capabilities self) (mb_capability_id (contract_measurement c)) = Some m →
    validate_declared_metric_references c (measurement_meta m) = Ok tt.
Proof.
  intros [Hval Hgen Hpins (m & Hm & Hsel & _ & Hv) Hb]. split.
  - intros [_ _ (m' & Hm' & _ & _ & Href) _] m'' Hm''. congruence.
  - intros Href. split; [done| |by eauto 7|].
    + intros pin Hin. destruct (Hpins pin Hin) as (meta & ? & ?). by exists meta.
    + intros b Hin. rewrite Forall_forall in Hb. destruct (Hb b Hin) as (policy & ? & _ & ?).
      by exists policy.
Qed.

(** A contract frozen with a snapshot is validated by a protocol over the same
    snapshot, without a panic or any effect, and is accepted exactly when its
    waits fit the evaluation timeout and every metric its conditions name is
    declared by the measurement: nothing freezing checked is lost on the way. *)
Theorem frozen_contracts_validate {S} self c (s : S) :
  frozen_with (ap_capabilities self) c →
  (validate_contract self c s).1 ≠ Panic ∧ (validate_contract self c s).2 = s
  ∧ ((validate_contract self c s).1 = Ret tt
     ↔ (∀ m, snapshot_measurement (ap_capabilities self)
               (mb_capability_id (contract_measurement c)) = Some m →
          validate_declared_metric_references c (measurement_meta m) = Ok tt)
       ∧ scheduled_ms c <= as_millis (evaluation_timeout self)).
Proof.
  intros Hf. rewrite <- (frozen_current self c Hf). apply validate_contract_spec.
  by apply contract_samples, Hf.
Qed.
End Admission.

(** ** Authorization *)

Section Authorization.
Context `{JD : JsonData, !Serialize MetricBatch, !Serialize CleanupReceipt,
  !Serialize ComparisonEvidence, !Sha256}.
Context `{!Serialize EvaluationDecision, !Serialize AbEvaluationEvidence,
  !Serialize AuthorizationPayload}.
Context {W : Type}.

Lemma commit_authorization_Ok (e : AbEvaluationEvidence) authorization :
  commit_authorization_of e = Ok authorization →
  verdict (ab_decision e) = Verdict_Improved
  ∧ pin_contract_digest (ab_intent e) = ab_contract_digest e
  ∧ auth_intent_pin authorization = ab_intent e
  ∧ auth_candidate_digest authorization = ab_candidate_digest e
  ∧ content_digest (ab_decision e) = Ok (auth_decision_digest authorization)
  ∧ content_digest e = Ok (auth_evaluation_evidence_digest authorization).
Proof.
  unfold commit_authorization_of, CommitAuthorization_issue.
  intros [Hv H1]%reject_bind_Ok. apply reject_Ok, bool_decide_eq_false, dec_stable in Hv.
  apply reject_bind_Ok in H1 as [Hc H2]. apply reject_Ok, bool_decide_eq_false, dec_stable in Hc.
  apply result_bind_Ok in H2 as (d & Hd%map_err_Ok & H3).
  apply result_bind_Ok in H3 as (x & Hx%map_err_Ok & H4).
  apply map_err_Ok, result_bind_Ok in H4 as (g & _ & [= <-]). done.
Qed.

(** An authorization made from the evidence of an evaluation names the intent
    of the episode and the candidate that was replayed, and seals the decision
    and the evidence; and it exists only if the candidate improved on the baseline: some
    primary objective, every bound policy was asked about these two measurements
    and concluded an improvement, all four batches are valid and comparable, and
    both sides ran the same workload. *)
Theorem authorizations_are_earned (self : AbEvaluationProtocol (W := W)) context intent candidate e l
    authorization :
  evaluated self context intent candidate e l →
  commit_authorization_of e = Ok authorization →
  let c := intent_contract intent in
  auth_intent_pin authorization = intent_pin_of intent
  ∧ pin_contract_digest (intent_pin_of intent) = contract_digest c
  ∧ auth_candidate_digest authorization = candidate_digest candidate
  ∧ content_digest (ab_decision e) = Ok (auth_decision_digest authorization)
  ∧ content_digest e = Ok (auth_evaluation_evidence_digest authorization)
  ∧ ∃ groups,
      improves (evidence_batch (ab_baseline_system_guardrails e))
        (evidence_batch (ab_candidate_system_guardrails e))
        (evidence_batch (ab_baseline_measurement e))
        (evidence_batch (ab_candidate_measurement e)) groups
      ∧ ∃ events,
          Forall3 (compared self c context (evidence_batch (ab_baseline_measurement e))
            (evidence_batch (ab_candidate_measurement e))) (contract_bindings c)
            (group_primary groups ++ group_regression_guards groups
             ++ group_workload_invariants groups) events
          ∧ events `suffix_of` l.
Proof.
  intros [_ _ _ Hi [_ Hcd] Hcand (m & b1 & b2 & groups & l1 & l2 & l3 & _ & _ & _ & -> & _ & _ & Hj & Hdec)]
    Ha c.
  apply commit_authorization_Ok in Ha as (Hv & Hpc & Hpin & Hac & Hdd & Hed).
  rewrite Hi in Hpc, Hpin. rewrite Hcand in Hac. rewrite Hcd in Hpc.
  split_and!; try done. exists groups.
  assert (improves (evidence_batch (ab_baseline_system_guardrails e))
        (evidence_batch (ab_candidate_system_guardrails e))
        (evidence_batch (ab_baseline_measurement e))
        (evidence_batch (ab_candidate_measurement e)) groups) as Himp.
  { apply decide_verdict_cases. by rewrite <- Hdec. }
  split; [done|]. apply improves_tests in Himp as (_ & _ & _ & _ & _ & Hs & _).
  unfold judged in Hj. rewrite Hs in Hj. destruct Hj as (e1 & e2 & e3 & -> & H1 & H2 & H3).
  exists (e1 ++ e2 ++ e3). split; [by repeat apply Forall3_app|].
  exists ([Ev_RestoreBaseline (change_ids candidate)] ++ l1
          ++ [Ev_ReplayCandidate (change_ids candidate)] ++ l2). by rewrite <- !app_assoc.
Qed.
End Authorization.
