(* ===== verification/Sealed.v ===== *)
(** * Runs with crashes

    The runs of a transaction: it begins on an empty log, performs client operations
    that succeed or fail at any point, the outside world changes under it, the process
    crashes leaving any prefix of the log and recovers from it.  Every state of a run
    is linked to its log or sealed ([reachable_invariant]).  The second part is about
    recovering a sealed log. *)

From S2P Require Export Finalize.

Section Recover.
Context `{J : Json, !Serialize Value, !Serialize (list ChangeId), !Sha256}.
Context {W T : Type} `{!TransactionWal T, !WalLaws T}.
Implicit Types (s : Sys W T) (k : TransactionKernel W T) (c d : ChangeRecord) (r : ReplayState).

(** ** The records after the replay *)

Lemma mark_pending_tracks p id c : tracks (mark_pending p id c) c.
Proof.
  unfold mark_pending. destruct (p !! id) as [[op kd]|]; [|split; [done|done|by left]].
  destruct kd; split; simpl; try done; auto.
Qed.

Lemma mark_unapplied_tracks c d : tracks c d → tracks (mark_unapplied c) d.
Proof.
  intros [[] Hv Hs]. unfold mark_unapplied. case_bool_decide; split; simpl; try done; auto.
Qed.

Lemma settled_changes_lookup r id :
  settled_changes r !! id
  = (λ c, mark_unapplied (mark_pending (rs_pending r) id c)) <$> rs_changes r !! id.
Proof.
  unfold settled_changes. rewrite lookup_fmap, map_lookup_imap. by destruct (rs_changes r !! id).
Qed.

Lemma settled_changes_tracks r id :
  option_Forall2 tracks (settled_changes r !! id) (rs_changes r !! id).
Proof.
  rewrite settled_changes_lookup. destruct (rs_changes r !! id); constructor.
  apply mark_unapplied_tracks, mark_pending_tracks.
Qed.

(** ** The candidate scan does not panic *)

Lemma applied_candidates_Ret (m : gmap ChangeId ChangeRecord) order :
  (∀ id, id ∈ order → is_Some (m !! id)) →
  ∃ ids, applied_candidates m order = Ret ids ∧ sublist ids order
    ∧ ∀ id, id ∈ ids → ∃ c, m !! id = Some c ∧ cr_state c = CandidateApplied.
Proof.
  induction order as [|id order IH]; intros Hknown; simpl.
  { exists []. split_and!; [done|done|]. by intros ? ?%not_elem_of_nil. }
  destruct (Hknown id) as [c Hc]; [by left|]. rewrite Hc.
  destruct IH as (ids & -> & Hsub & Hids); [intros; apply Hknown; by right|]. simpl.
  destruct (bool_decide (cr_state c = CandidateApplied) && cr_experiment_verified c) eqn:Hb.
  - exists (id :: ids). split_and!; [done|by constructor|].
    apply andb_true_iff in Hb as [Hb%bool_decide_eq_true _].
    intros j [->|Hj]%elem_of_cons; [by exists c|auto].
  - exists ids. split_and!; [done|by constructor|done].
Qed.

Lemma require_heads_Ret (m : gmap ChangeId ChangeRecord) heads ids :
  (∀ id, id ∈ ids → ∃ c, m !! id = Some c ∧ heads !! cr_resource c = Some id) →
  require_heads m heads ids = Ret tt.
Proof.
  induction ids as [|id ids IH]; intros Hids; simpl; [done|].
  destruct (Hids id) as (c & -> & Hh); [by left|].
  rewrite bool_decide_eq_false_2 by (intros Hn; by apply Hn). apply IH. intros; apply Hids; by right.
Qed.

(** A log whose seal, if any, is at its end. *)
Lemma replay_known_order tid pin (caps : CapabilitySnapshot W) es r id :
  good_log tid pin caps es r → id ∈ rs_order r → is_Some (settled_changes r !! id).
Proof.
  intros Hg Hid. rewrite settled_changes_lookup, fmap_is_Some.
  by apply (ro_order _ _ _ (good_log_ok _ _ _ _ _ Hg)).
Qed.

Context `{!EncodesIds, !Sha256Laws}.

(** ** Recovering an unsealed log *)

Lemma recover_good tid pin (caps : CapabilitySnapshot W) (w : T) r (world : W) :
  wal_ok w → good_log tid pin caps (durable w) r → (Z.of_nat (length (durable w)) ≤ u64_max)%Z →
  ∃ k, recover tid pin caps w = Ret k ∧ linked (MkSys k world []) r
    ∧ wal k = w ∧ transaction_id k = tid ∧ intent_pin k = pin ∧ capabilities k = caps
    ∧ changes k = settled_changes r.
Proof.
  intros Hw Hg Hlen. pose proof (good_log_ok _ _ _ _ _ Hg) as Hok.
  unfold recover. rewrite (load_durable _ Hw). simpl.
  unfold replay. rewrite (good_log_replay _ _ _ _ _ _ Hg Hlen). simpl. unfold recover_finish.
  rewrite (ro_start _ _ _ Hok), (ro_sealed _ _ _ Hok). simpl.
  destruct (applied_candidates_Ret (settled_changes r) (rs_order r)) as (ids & -> & Hsub & Hids).
  { intros id. by eapply replay_known_order. }
  simpl. rewrite require_heads_Ret.
  2: { intros id Hid. destruct (Hids id Hid) as (c & Hc & Hst). exists c. split; [done|].
       pose proof (settled_changes_tracks r id) as Ht. rewrite Hc in Ht.
       inversion Ht as [c' d [Hi Hv Hs] Hcc Hd|]; subst.
       rewrite (si_resource _ _ Hi). eapply ro_candidate; [done|done|].
       destruct Hs as [<-|Hs]; [done|]. congruence. }
  simpl. assert (∃ cand, (if bool_decide (ids = []) then mret None
     else candidate ← of_result (map_err corrupt (Candidate_new ids)); mret (Some candidate))
     = Ret (E := TransactionError) cand) as [cand ->].
  { case_bool_decide as Hne; [by eexists|].
    destruct (Candidate_new_total ids) as [cand ->]; [done| |by eexists].
    eapply sublist_NoDup; [apply Hok|exact Hsub]. }
  simpl. eexists. split; [done|]. split_and!; try done. split.
  - split; simpl; try done.
    + rewrite (good_log_sequence _ _ _ _ _ Hg). unfold sequence_at. lia.
    + exists (durable w). by rewrite app_nil_r.
  - split; simpl; try done; [apply settled_changes_tracks|apply Hok].
Qed.

(** ** Recovering a sealed log *)

(** Whatever the checks at the end decide, [recover] does not panic, and a kernel
    it returns is sealed. *)
Lemma recover_sealed tid pin (caps : CapabilitySnapshot W) (w : T) es e r (world : W) :
  wal_ok w → durable w = es ++ [e] → is_seal e = true → good_log tid pin caps es r →
  entry_transaction_id e = tid → sequence e = sequence_at (length es) →
  (Z.of_nat (length (durable w)) ≤ u64_max)%Z →
  match recover tid pin caps w with
  | Ret k => closed (MkSys k world []) ∧ transaction_id k = tid ∧ intent_pin k = pin
             ∧ capabilities k = caps
  | Throw _ => True
  | Panic => False
  end.
Proof.
  intros Hw Hd Hseal Hg Htid Hseq Hlen. unfold recover. rewrite (load_durable _ Hw). simpl.
  unfold replay. rewrite Hd in Hlen |- *. rewrite length_app in Hlen. simpl in Hlen.
  rewrite fold_result_snoc, (good_log_replay _ _ _ _ _ _ Hg) by lia. simpl.
  destruct (replay_entry _ _ _ _ r e) as [r'|err] eqn:Hr; simpl; [|done].
  pose proof (good_log_ok _ _ _ _ _ Hg) as Hok.
  assert (is_Some (rs_sealed r') ∧ rs_order r' = rs_order r
    ∧ ∀ id, is_Some (rs_changes r !! id) → is_Some (rs_changes r' !! id)) as (Hs & Ho & Hkeep).
  { unfold replay_entry, replay_header in Hr. rewrite result_bind_Ok in Hr.
    destruct Hr as (r1 & Hr1 & Hev). rewrite !reject_bind_Ok in Hr1. destruct Hr1 as (_ & _ & [= <-]).
    unfold is_seal, replay_event in *. destruct (event e) as [| | |o|a cs]; try done.
    - unfold replay_seal in Hev. rewrite reject_bind_Ok in Hev. destruct Hev as [_ [= <-]].
      simpl. eauto.
    - unfold replay_commit in Hev. rewrite !reject_bind_Ok, result_bind_Ok in Hev.
      destruct Hev as (_ & _ & seen & _ & Hev). rewrite result_bind_Ok in Hev.
      destruct Hev as (cc & _ & Hev). rewrite !reject_bind_Ok in Hev.
      destruct Hev as (_ & _ & [= <-]). simpl. split_and!; [by eexists|done|]. intros id Hid.
      unfold insert_changes. generalize dependent (rs_changes r). clear.
      induction cs as [|c cs IH]; intros m Hm; simpl; [done|]. apply IH.
      rewrite lookup_insert_is_Some'. by right. }
  unfold recover_finish.
  match goal with |- context [reject ?b _] => destruct b end; simpl; [done|].
  destruct (rs_sealed r') as [o|] eqn:Hsealed; [|by destruct Hs].
  match goal with |- context [reject ?b _] => destruct b end; simpl; [done|].
  destruct (applied_candidates_Ret (settled_changes r') (rs_order r')) as (ids & Hids & _ & Hin).
  { intros id. rewrite Ho, settled_changes_lookup, fmap_is_Some. intros Hid. apply Hkeep.
    by apply (ro_order _ _ _ Hok). }
  rewrite Hids. simpl.
  assert (∀ l, (∀ id, id ∈ l → is_Some (settled_changes r' !! id)) →
    require_heads (settled_changes r') (rs_heads r') l ≠ Panic) as Hheads.
  { induction l as [|id l IH]; intros Hl; simpl; [done|].
    destruct (Hl id) as [c ->]; [by left|]. case_bool_decide; [done|]. apply IH. intros; apply Hl; by right. }
  destruct (require_heads (settled_changes r') (rs_heads r') ids) as [[]|e3|] eqn:Hrej3; simpl; [|done|].
  2: { eapply Hheads; [|exact Hrej3]. intros id Hid. destruct (Hin id Hid) as (c & Hc & _). by exists c. }
  assert (∀ o', o' = (if bool_decide (ids = []) then mret None
     else candidate ← of_result (map_err corrupt (Candidate_new ids)); mret (Some candidate)) →
     o' ≠ Panic (E := TransactionError) (A := option Candidate)) as Hcand.
  { intros o' ->. case_bool_decide; [done|]. by destruct (Candidate_new ids). }
  specialize (Hcand _ eq_refl). destruct (if bool_decide (ids = []) then _ else _) as [cand|e4|]; simpl; [|done|done].
  split_and!; try done. split; simpl; try done.
  by exists es, e, r.
Qed.

(** ** Runs *)

Inductive Operation :=
  | Op_experiment (change_id : ChangeId) (capability_id : CapabilityId) (arguments : Value)
  | Op_restore_baseline
  | Op_replay_candidate (candidate : Candidate)
  | Op_finalize_candidate (candidate : Candidate) (authorization : CommitAuthorization)
  | Op_rollback_all.

Definition discard {A} (m : M (Sys W T) TransactionError A) : M (Sys W T) TransactionError unit :=
  _ ← m; mret tt.

Definition perform (op : Operation) : M (Sys W T) TransactionError unit :=
  match op with
  | Op_experiment id cap args => discard (experiment id cap args)
  | Op_restore_baseline => discard restore_baseline
  | Op_replay_candidate cand => discard (replay_candidate cand)
  | Op_finalize_candidate cand auth => discard (finalize_candidate cand auth)
  | Op_rollback_all => discard rollback_all
  end.

Inductive reachable : Sys W T → Prop :=
  | reach_begin tid pin caps w world s :
      wal_ok w → durable w = [] →
      begin_transaction tid pin caps w world = (Ret tt, s) → reachable s
  | reach_perform s op o s' : reachable s → perform op s = (o, s') → reachable s'
  | reach_world s world : reachable s → reachable (MkSys (kernel s) world (trace s))
  | reach_crash s w world k :
      reachable s → wal_ok w → durable w `prefix_of` durable (wal (kernel s)) → durable w ≠ [] →
      (Z.of_nat (length (durable w)) ≤ u64_max)%Z →
      recover (transaction_id (kernel s)) (intent_pin (kernel s)) (capabilities (kernel s)) w = Ret k →
      reachable (MkSys k world []).

Lemma begin_good tid pin caps (w : T) (world : W) s :
  wal_ok w → durable w = [] → begin_transaction tid pin caps w world = (Ret tt, s) → good s.
Proof.
  intros Hw Hd Hb. unfold begin_transaction, append_event in Hb.
  set (s0 := MkSys (initial_kernel tid pin caps w) world []) in Hb.
  set (entry := new_entry (Started pin (snap_generation caps)) s0).
  pose proof (append_durable_law w entry Hw) as Hlaw.
  unfold mbind, M_bind, gets, call_wal in Hb.
  change (append_durable _ (wal (kernel s0))) with (append_durable entry w) in Hb.
  destruct (append_durable entry w) as [[[]|e] w']; simpl in Hb; [|done].
  injection Hb as <-. destruct Hlaw as [Hw' Hd']. rewrite Hd in Hd'. simpl in Hd'.
  exists started_state. split; split; simpl; try done.
  - rewrite Hd'. apply good_started.
  - by rewrite Hd'.
  - exists []. by rewrite Hd'.
  - intros id. rewrite !lookup_empty. constructor.
Qed.

Lemma closed_rejects op s : closed s → ∃ e, perform op s = (Throw e, s) ∧ error_kind e = E_Sealed.
Proof.
  intros Hc. destruct (cl_sealed _ Hc) as [o Ho].
  destruct op; unfold perform, discard, experiment, restore_baseline, replay_candidate,
    finalize_candidate, rollback_all, ensure_open, mbind, M_bind, gets; simpl; rewrite Ho; by eexists.
Qed.

(** What any operation leaves behind, whether it succeeds or not. *)
Lemma wp_perform op s :
  good s →
  wp (perform op) (λ _ s', (good s' ∨ closed s') ∧ extends s s') (λ _ s', good s' ∧ extends s s') s.
Proof.
  intros Hg. destruct op; apply wp_bind.
  - eapply wp_mono; [by apply wp_experiment| |done]. intros c s' (? & ? & _). apply wp_ret. auto.
  - eapply wp_mono; [by apply wp_restore_baseline| |done]. intros c s' (? & ? & _). apply wp_ret. auto.
  - eapply wp_mono; [by apply wp_replay_candidate| |done]. intros c s' (? & ? & _). apply wp_ret. auto.
  - eapply wp_mono; [by apply wp_finalize_candidate| |done]. intros c s' [(s1 & []) _].
    apply wp_ret. auto.
  - eapply wp_mono; [by apply wp_rollback_all| |done]. intros c s' [(? & _ & ? & _) _].
    apply wp_ret. auto.
Qed.

Lemma closed_crash s left : closed s → left `prefix_of` durable (wal (kernel s)) → left ≠ [] →
  (∃ r, good_log (transaction_id (kernel s)) (intent_pin (kernel s)) (capabilities (kernel s)) left r)
  ∨ left = durable (wal (kernel s)).
Proof.
  intros [? ? (es & e & r & Hd & _ & Hg & _) _] [q Hq] Hne.
  destruct q as [|x q _] using rev_ind; [right; by rewrite app_nil_r in Hq|left].
  rewrite Hd, app_assoc in Hq. apply app_inj_tail in Hq as [Hq _].
  eapply good_log_prefix; [exact Hg|by exists q|done].
Qed.

Lemma reachable_invariant s : reachable s → good s ∨ closed s.
Proof.
  induction 1 as [tid pin caps w world s Hw Hd Hb|s op o s' _ IH Hp|s world _ IH
    |s w world k _ IH Hw Hpre Hne Hlen Hr].
  - left. by eapply begin_good.
  - destruct IH as [Hg|Hc].
    + pose proof (wp_perform op s Hg) as Hwp. unfold wp in Hwp. rewrite Hp in Hwp.
      destruct o; naive_solver.
    + destruct (closed_rejects op s Hc) as (e & He & _). rewrite Hp in He. injection He as -> ->. by right.
  - destruct IH as [[r [[] []]]|[]]; [left; exists r; by repeat split|right; by split].
  - assert ((∃ r, good_log (transaction_id (kernel s)) (intent_pin (kernel s)) (capabilities (kernel s))
      (durable w) r) ∨ closed s ∧ durable w = durable (wal (kernel s))) as [[r Hg]|[Hc Heq]].
    { destruct IH as [[r [Hlog _]]|Hc].
      - left. eapply good_log_prefix; [apply Hlog|done|done].
      - destruct (closed_crash _ _ Hc Hpre Hne); auto. }
    + destruct (recover_good _ _ _ w r world Hw Hg Hlen) as (k' & Hk' & Hl & _).
      rewrite Hr in Hk'. injection Hk' as <-. left. by exists r.
    + destruct Hc as [? ? (es & e & r & Hd & Hseal & Hg & Htid & Hseq) _].
      rewrite <- Heq in Hd.
      pose proof (recover_sealed _ _ _ w es e r world Hw Hd Hseal Hg Htid Hseq Hlen) as Hs.
      rewrite Hr in Hs. right. apply Hs.
Qed.
End Recover.

(** * Recovering a sealed log

    Which terminal logs [recover] accepts: a rolled back one exactly when no apply
    or restore is left without a result, a committed one when the commit was
    decided on a settled log for a candidate in the order of the changes. *)

Section Sealed.
Context `{J : Json, !Serialize Value, !Serialize (list ChangeId), !Sha256}.
Context {W T : Type} `{!TransactionWal T, !WalLaws T}.
Implicit Types (s : Sys W T) (k : TransactionKernel W T) (c d : ChangeRecord) (r : ReplayState).

Lemma recover_replayed tid pin (caps : CapabilitySnapshot W) (w : T) es e r r' :
  wal_ok w → durable w = es ++ [e] → good_log tid pin caps es r →
  entry_transaction_id e = tid → sequence e = sequence_at (length es) →
  (Z.of_nat (length (durable w)) ≤ u64_max)%Z →
  replay_event tid pin caps (length (durable w)) e (advance r) = Ok r' →
  recover tid pin caps w = recover_finish tid pin caps w r'.
Proof.
  intros Hw Hd Hg Htid Hseq Hlen Hev. unfold recover. rewrite (load_durable _ Hw). simpl.
  unfold replay. rewrite Hd in Hlen, Hev |- *. rewrite length_app in Hlen. simpl in Hlen.
  rewrite fold_result_snoc, (good_log_replay _ _ _ _ _ _ Hg) by lia. simpl.
  unfold replay_entry, replay_header, reject.
  rewrite (bool_decide_eq_false_2 (entry_transaction_id e ≠ tid)) by (intros Hn; by apply Hn).
  rewrite (bool_decide_eq_false_2 (sequence e ≠ rs_sequence r)).
  - simpl. fold (advance r). by rewrite Hev.
  - rewrite Hseq, (good_log_sequence _ _ _ _ _ Hg). unfold sequence_at. lia.
Qed.

Lemma seal_placed es (e : WalEntry) r :
  rs_sealed r = None → sequence e = sequence_at (length es) →
  (Z.of_nat (length (es ++ [e])) ≤ u64_max)%Z →
  misplaced_seal (length (es ++ [e])) (sequence e) r = false.
Proof.
  intros Hr Hseq Hlen. unfold misplaced_seal. rewrite Hr, Hseq. simpl.
  rewrite length_app in Hlen |- *. simpl in *. unfold sequence_at.
  rewrite negb_false_iff, Z.eqb_eq. lia.
Qed.

Lemma applied_candidates_none (m : gmap ChangeId ChangeRecord) order :
  (∀ id, id ∈ order → ∃ c, m !! id = Some c ∧ cr_state c ≠ CandidateApplied) →
  applied_candidates m order = Ret [].
Proof.
  induction order as [|id order IH]; intros Hall; simpl; [done|].
  destruct (Hall id) as (c & -> & Hc); [by left|].
  rewrite IH by (intros; apply Hall; by right). simpl. by rewrite bool_decide_eq_false_2.
Qed.

(** The tail of [recover] on a sealed log whose records all pass. *)
Lemma recover_finish_sealed tid pin (caps : CapabilitySnapshot W) (w : T) r o :
  rs_saw_start r = true → rs_sealed r = Some o →
  (∀ id, id ∈ rs_order r → is_Some (rs_changes r !! id)) →
  map_Forall (λ _ c, Is_true (sealed_terminal o c)) (settled_changes r) →
  recover_finish tid pin caps w r = Ret (MkKernel tid pin caps w (settled_changes r) (rs_heads r)
    (rs_order r) (rs_sequence r) (rs_sequence r) None (rs_authorization r) (Some o)).
Proof.
  intros Hstart Hsealed Hknown Hall. unfold recover_finish. rewrite Hstart, Hsealed. simpl.
  rewrite bool_decide_eq_true_2 by done. simpl.
  rewrite applied_candidates_none; [done|]. intros id Hid.
  destruct (settled_changes r !! id) as [c|] eqn:Hc.
  - exists c. split; [done|]. intros Hst. specialize (Hall id c Hc). simpl in Hall.
    unfold sealed_terminal in Hall. rewrite Hst in Hall. by destruct o.
  - rewrite settled_changes_lookup in Hc. destruct (Hknown id Hid) as [d Hd]. by rewrite Hd in Hc.
Qed.

Lemma pending_known (tid : TransactionId) pin (caps : CapabilitySnapshot W) es r id x :
  good_log tid pin caps es r → rs_pending r !! id = Some x → is_Some (rs_changes r !! id).
Proof.
  intros Hg. revert id x. induction Hg as [g|es r e r' Hg IH Ht Hs Hseal Hev Hok]; intros id x Hx.
  { simpl in Hx. by rewrite lookup_empty in Hx. }
  unfold replay_event, is_seal in *. destruct (event e) as [stored g|c|i op kd|o|a cs]; try done.
  - unfold replay_started in Hev. rewrite reject_bind_Ok in Hev. destruct Hev as [_ [= <-]].
    by eapply IH.
  - unfold replay_upsert in Hev. rewrite reject_bind_Ok, result_bind_Ok in Hev.
    destruct Hev as (_ & [heads order] & _ & [= <-]). simpl in *. rewrite lookup_insert_is_Some'. right.
    unfold answer_pending in Hx. destruct (rs_pending r !! cr_change_id c) as [[op kd]|] eqn:Hp;
      [|by eapply IH].
    case_bool_decide; [|by eapply IH]. apply lookup_delete_Some in Hx as [_ Hx]. by eapply IH.
  - unfold replay_intent in Hev. rewrite ok_or_bind_Ok in Hev. destruct Hev as (c & Hc & Hev).
    rewrite reject_bind_Ok in Hev. destruct Hev as [_ [= <-]]. simpl in *.
    apply lookup_insert_Some in Hx as [[<- _]|[_ Hx]]; [by exists c|by eapply IH].
Qed.

(** ** Rolled back logs *)

(** An apply or restore intent without a result. *)
Definition unanswered s : Prop :=
  ∃ id op kd, pending s !! id = Some (op, kd) ∧ kd ≠ Intent_Finalize.

Lemma pending_seal s s1 e :
  durable (wal (kernel s)) = durable (wal (kernel s1)) ++ [e] → is_seal e = true →
  pending s = pending s1.
Proof.
  intros Hd He. unfold pending. rewrite Hd, log_pending_app. simpl. unfold pending_step, is_seal in *.
  by destruct (event e).
Qed.

Lemma recover_rolled_back s s' (w : T) :
  rolled_back s s' → wal_ok w → durable w = durable (wal (kernel s')) →
  (Z.of_nat (length (durable w)) ≤ u64_max)%Z →
  let outcome := recover (transaction_id (kernel s')) (intent_pin (kernel s'))
                   (capabilities (kernel s')) w in
  (unanswered s' → ∃ e, outcome = Throw e ∧ error_kind e = E_CorruptWal) ∧
  (¬ unanswered s' → ∃ k, outcome = Ret k ∧ sealed k = Some Seal_RolledBack
     ∧ change_order k = change_order (kernel s')
     ∧ ∀ id c, changes k !! id = Some c → cr_state c = RolledBack).
Proof.
  intros (_ & Hsealed & Hx & Hplan & Hres & s1 & [r [Hlog Hag]] & Hx1 & Hset & Hk & Hd) Hw Hdw Hlen.
  rewrite Hd in Hdw. pose proof (lg_log _ _ Hlog) as Hg. pose proof (good_log_ok _ _ _ _ _ Hg) as Hok.
  assert (changes (kernel s') = changes (kernel s1)) as Hch by (by rewrite Hk).
  set (sealed_r := MkReplay (rs_changes r) (rs_order r) (rs_heads r) (rs_pending r)
    (Some Seal_RolledBack) (rs_authorization r) (rs_saw_start r) (rs_sequence r + 1)).
  assert (transaction_id (kernel s') = transaction_id (kernel s1)) as Et by (by rewrite Hk).
  assert (intent_pin (kernel s') = intent_pin (kernel s1)) as Ep by (by rewrite Hk).
  assert (capabilities (kernel s') = capabilities (kernel s1)) as Ec by (by rewrite Hk).
  assert (change_order (kernel s') = change_order (kernel s1)) as Eo by (by rewrite Hk).
  rewrite Et, Ep, Ec, Eo. cbv zeta.
  rewrite (recover_replayed _ _ _ w _ _ r sealed_r Hw Hdw Hg); [|done|apply Hlog|done|].
  2: { unfold replay_event. simpl event. unfold replay_seal. rewrite Hdw in Hlen |- *.
       rewrite seal_placed; [done|apply Hok|apply Hlog|done]. }
  assert (pending s' = rs_pending r) as Hp.
  { rewrite (pending_seal s' s1 _ Hd eq_refl). symmetry. eapply good_log_pending, Hg. }
  assert (∀ id d, rs_changes r !! id = Some d → cr_state d = RolledBack) as Hall.
  { intros id d Hdd. pose proof (ag_changes _ _ Hag id) as Ht. rewrite Hdd in Ht.
    inversion Ht as [c d' [_ _ Hs] Hc Hd'|]; subst.
    destruct (Hres id) as (c' & Hc' & Hst & _).
    { destruct Hplan as [Ho _]. rewrite <- Ho, Eo, (ag_order _ _ Hag).
      apply (ro_order _ _ _ Hok). by exists d. }
    rewrite Hch in Hc'. destruct Hs; congruence. }
  assert (∀ id c, settled_changes sealed_r !! id = Some c → ∃ d, rs_changes r !! id = Some d
    ∧ c = mark_unapplied (mark_pending (rs_pending r) id d)) as Hsettled.
  { intros id c. rewrite settled_changes_lookup. simpl. rewrite fmap_Some.
    intros (d & Hd' & ->). by exists d. }
  split.
  - intros (id & op & kd & Hpid & Hkd). rewrite Hp in Hpid.
    unfold recover_finish. simpl. rewrite (ro_start _ _ _ Hok). simpl.
    rewrite bool_decide_eq_false_2; [by eexists|]. intros Hbad.
    destruct (pending_known _ _ _ _ _ _ _ Hg Hpid) as [d Hdd].
    specialize (Hbad id (mark_unapplied (mark_pending (rs_pending r) id d))). simpl in Hbad.
    rewrite settled_changes_lookup in Hbad. simpl in Hbad. rewrite Hdd in Hbad.
    specialize (Hbad eq_refl).
    assert (cr_state (mark_unapplied (mark_pending (rs_pending r) id d)) = AppliedUnknown) as Hst.
    { unfold mark_pending. rewrite Hpid. by destruct kd. }
    unfold sealed_terminal in Hbad. by rewrite Hst in Hbad.
  - intros Hun.
    assert (∀ id d, rs_changes r !! id = Some d →
      cr_state (mark_unapplied (mark_pending (rs_pending r) id d)) = RolledBack) as Hmark.
    { intros id d Hdd. specialize (Hall _ _ Hdd). unfold mark_pending.
      destruct (rs_pending r !! id) as [[op kd]|] eqn:Hpid.
      - assert (kd = Intent_Finalize) as ->.
        { destruct (decide (kd = Intent_Finalize)); [done|]. exfalso. apply Hun.
          exists id, op, kd. by rewrite Hp. }
        unfold mark_unapplied. simpl. rewrite Hall. simpl. done.
      - unfold mark_unapplied. rewrite Hall. simpl. done. }
    rewrite (recover_finish_sealed _ _ _ w sealed_r Seal_RolledBack);
      [|apply (ro_start _ _ _ Hok)|done|intros id; apply (ro_order _ _ _ Hok)|].
    + eexists. split; [done|]. split_and!; [done|symmetry; apply Hag|].
      intros id c Hc. destruct (Hsettled id c Hc) as (d & Hdd & ->). by apply Hmark.
    + intros id c Hc. destruct (Hsettled id c Hc) as (d & Hdd & ->).
      simpl. by rewrite Hmark.
Qed.

(** ** Committed logs *)

(** A candidate as the coordinator builds it: in the order of the changes. *)
Definition canonical cand s : Prop :=
  change_ids cand = filter (λ id, id ∈ change_ids cand) (change_order (kernel s)).

Lemma terminals_Forall2 cand s :
  good s →
  Forall2 (λ id t, ∃ c, changes (kernel s) !! id = Some c ∧ t = terminal_of cand id c)
    (change_order (kernel s)) (terminals cand s).
Proof.
  intros Hg. unfold terminals.
  assert (∀ id, id ∈ change_order (kernel s) → is_Some (changes (kernel s) !! id)) as Hknown
    by (intros; by apply good_known).
  induction (change_order (kernel s)) as [|id ids IH]; [constructor|]. csimpl.
  destruct (Hknown id) as [c Hc]; [by left|]. rewrite Hc. simpl. constructor; [by exists c|].
  apply IH. intros; apply Hknown; by right.
Qed.

Lemma insert_changes_lookup (ts : list ChangeRecord) m id t :
  NoDup (cr_change_id <$> ts) → t ∈ ts → cr_change_id t = id → insert_changes ts m !! id = Some t.
Proof.
  unfold insert_changes. revert m. induction ts as [|u ts IH]; intros m; [by intros _ ?%not_elem_of_nil|].
  rewrite fmap_cons, NoDup_cons. intros [Hu Hnd] [->|Ht]%elem_of_cons Hid; simpl; [|by apply IH].
  assert (∀ m' : gmap ChangeId ChangeRecord, m' !! id = Some u →
    foldl (λ m c, <[cr_change_id c:=c]> m) m' ts !! id = Some u) as Hkeep.
  { clear IH. induction ts as [|v ts IH]; intros m' Hm; simpl; [done|].
    rewrite fmap_cons, not_elem_of_cons in Hu. rewrite fmap_cons in Hnd.
    apply IH; [by destruct Hu|by apply NoDup_cons in Hnd as [_ ?]|].
    rewrite lookup_insert_ne; [done|]. intros Heq. destruct Hu as [Hu _]. apply Hu. congruence. }
  apply Hkeep. subst id. by rewrite lookup_insert_eq.
Qed.

Lemma insert_changes_other (ts : list ChangeRecord) m id :
  id ∉ (cr_change_id <$> ts) → insert_changes ts m !! id = m !! id.
Proof.
  unfold insert_changes. revert m. induction ts as [|u ts IH]; intros m; [done|].
  rewrite fmap_cons, not_elem_of_cons. intros [Hne Hni]. simpl. rewrite IH by done.
  by rewrite lookup_insert_ne.
Qed.

Lemma terminals_ids cand s : good s → cr_change_id <$> terminals cand s = change_order (kernel s).
Proof.
  intros Hg. pose proof (terminals_Forall2 cand s Hg) as HF.
  assert (∀ id c, changes (kernel s) !! id = Some c → cr_change_id c = id) as Hid
    by (intros; by eapply good_id).
  induction HF as [|id t ids ts (c & Hc & ->) _ IH]; [done|]. rewrite fmap_cons, IH. f_equal. exact (Hid _ _ Hc).
Qed.

Lemma terminals_finalized cand s :
  good s → finalized_ids (terminals cand s) = filter (λ id, id ∈ change_ids cand) (change_order (kernel s)).
Proof.
  intros Hg. pose proof (terminals_Forall2 cand s Hg) as HF. unfold finalized_ids.
  assert (∀ id c, changes (kernel s) !! id = Some c → cr_change_id c = id) as Hid
    by (intros; by eapply good_id).
  induction HF as [|id t ids ts (c & Hc & ->) _ IH]; [done|].
  rewrite !filter_cons. unfold terminal_of, candidate_contains. simpl.
  case_bool_decide as Hin.
  - rewrite decide_True by done. rewrite decide_True by done. rewrite fmap_cons, IH.
    f_equal. exact (Hid _ _ Hc).
  - rewrite decide_False by done. by rewrite decide_False.
Qed.

(** The checks on one terminal record. *)
Lemma terminal_accepted cand s r (seen : gset ChangeId) id c :
  linked s r → changes (kernel s) !! id = Some c → id ∉ seen →
  (if candidate_contains cand id then ready s id else cr_state c = BaselineRestored) →
  replay_terminal (transaction_id (kernel s)) (capabilities (kernel s)) (advance r) seen
    (terminal_of cand id c) = Ok ({[id]} ∪ seen).
Proof.
  intros [Hlog Hag] Hc Hseen Hst. assert (good s) as Hgood by (exists r; by split).
  destruct (good_record _ _ _ Hgood Hc) as (Hid & Hval & _).
  destruct (agrees_lookup _ _ _ _ Hag Hc) as (d & Hd & [Hi Hv Hs]).
  set (t := terminal_of cand id c).
  assert (same_identity d t) as Hdt by (etrans; [by symmetry|done]).
  assert (cr_change_id t = id) as Htid by done.
  assert (cr_experiment_verified t = cr_experiment_verified d) as Htv by done.
  assert (if candidate_contains cand id
    then cr_state t = Finalized ∧ cr_state d = CandidateApplied
         ∧ cr_experiment_verified d = true ∧ rs_heads r !! cr_resource t = Some id
    else cr_state t = RolledBack ∧ cr_state d = BaselineRestored) as Hcase.
  { unfold t, terminal_of. destruct (candidate_contains cand id); simpl.
    - destruct Hst as (c' & Hc' & Hcs & Hcv & Hh). rewrite Hc in Hc'. injection Hc' as <-.
      rewrite <- (ag_heads _ _ Hag). split_and!; [done|destruct Hs; congruence|congruence|done].
    - split; [done|]. destruct Hs; congruence. }
  assert (record_valid (transaction_id (kernel s)) (capabilities (kernel s)) t) as Hvalid.
  { split; [by apply (identity_valid_same _ _ c)|]. rewrite Htv.
    destruct (candidate_contains cand id); destruct Hcase as [-> Hr]; [by intros _; apply Hr|done]. }
  assert (validate_recovered_transition d t = Ok tt) as Htrans.
  { apply validate_recovered_transition_Ok. rewrite Htv. split; [exact Hdt|]. split; [done|].
    intros. congruence. }
  clearbody t. unfold replay_terminal. rewrite (proj2 (validate_recovered_change_Ok _ _ _) Hvalid). simpl.
  rewrite Htid, Hd. simpl. rewrite Htrans. simpl.
  destruct (candidate_contains cand id).
  - destruct Hcase as (-> & -> & _ & Hh). simpl. rewrite (bool_decide_eq_false_2 (id ∈ seen)) by done.
    simpl. by rewrite (bool_decide_eq_false_2 (rs_heads r !! cr_resource t ≠ Some id)) by (intros Hn; by apply Hn).
  - destruct Hcase as (-> & ->). simpl. by rewrite (bool_decide_eq_false_2 (id ∈ seen)) by done.
Qed.

Lemma terminals_accepted cand s r (seen : gset ChangeId) ids :
  linked s r → NoDup ids → (∀ id, id ∈ ids → id ∉ seen) →
  (∀ id c, id ∈ ids → changes (kernel s) !! id = Some c →
    if candidate_contains cand id then ready s id else cr_state c = BaselineRestored) →
  (∀ id, id ∈ ids → is_Some (changes (kernel s) !! id)) →
  fold_result (replay_terminal (transaction_id (kernel s)) (capabilities (kernel s)) (advance r)) seen
    (omap (λ id, terminal_of cand id <$> changes (kernel s) !! id) ids)
  = Ok (list_to_set (reverse ids) ∪ seen).
Proof.
  intros Hl. revert seen. induction ids as [|id ids IH]; intros seen Hnd Hfresh Hst Hknown.
  { simpl. f_equal. set_solver. }
  apply NoDup_cons in Hnd as [Hni Hnd]. destruct (Hknown id) as [c Hc]; [by left|].
  csimpl. rewrite Hc. simpl.
  rewrite (terminal_accepted _ _ r _ id c); [|done|done|apply Hfresh; by left|apply Hst; [by left|done]].
  rewrite IH; [| done | | | ].
  - f_equal. rewrite reverse_cons, list_to_set_app_L. set_solver.
  - intros j Hj. assert (j ≠ id) by (intros ->; done). specialize (Hfresh j). set_solver.
  - intros j d Hj. apply Hst. by right.
  - intros j Hj. apply Hknown. by right.
Qed.

(** What the commit logged is accepted by the replay. *)
Lemma replay_committed cand auth s r total seq :
  linked s r → settled s → Candidate_new (change_ids cand) = Ok cand → canonical cand s →
  auth_intent_pin auth = intent_pin (kernel s) →
  auth_candidate_digest auth = candidate_digest cand →
  (∀ id c, changes (kernel s) !! id = Some c →
    if candidate_contains cand id then ready s id else cr_state c = BaselineRestored) →
  misplaced_seal total seq (advance r) = false →
  replay_commit (transaction_id (kernel s)) (intent_pin (kernel s)) (capabilities (kernel s)) total seq
    auth (terminals cand s) (advance r)
  = Ok (MkReplay (insert_changes (terminals cand s) (rs_changes r)) (rs_order r) (rs_heads r)
      (rs_pending r) (Some Seal_Committed) (Some auth) (rs_saw_start r) (rs_sequence r + 1)).
Proof.
  intros Hl Hset Hnew Hcanon Hpin Hdig Hst Hseal.
  assert (good s) as Hgood by (by exists r). pose proof Hl as [Hlog Hag].
  assert (rs_pending r = ∅) as Hp.
  { rewrite (good_log_pending _ _ _ _ _ (lg_log _ _ Hlog)). exact Hset. }
  assert (length (terminals cand s) = size (rs_changes r)) as Hlen.
  { rewrite <- (length_fmap cr_change_id), terminals_ids by done.
    rewrite (ag_order _ _ Hag). pose proof (good_log_ok _ _ _ _ _ (lg_log _ _ Hlog)) as Hok.
    rewrite <- size_dom. replace (dom (rs_changes r)) with (list_to_set (rs_order r) : gset ChangeId).
    - symmetry. apply size_list_to_set, Hok.
    - apply set_eq. intros id. rewrite elem_of_dom, elem_of_list_to_set. apply Hok. }
  assert (finalized_ids (terminals cand s) = change_ids cand) as Hfin.
  { rewrite terminals_finalized by done. by rewrite <- Hcanon. }
  assert (terminals cand s ≠ []) as Hne.
  { intros He. rewrite He in Hfin. apply Candidate_new_Ok in Hnew as [Hne _]. by rewrite <- Hfin in Hne. }
  assert (fold_result (replay_terminal (transaction_id (kernel s)) (capabilities (kernel s)) (advance r))
    ∅ (terminals cand s) = Ok (list_to_set (reverse (change_order (kernel s))) ∪ ∅)) as Hfold.
  { apply terminals_accepted; [done|by apply good_nodup|set_solver|intros id c _; apply Hst|].
    intros id Hid. by apply good_known. }
  unfold replay_commit, reject.
  rewrite Hseal, Hfold, Hfin, Hnew, Hdig, Hpin.
  rewrite (bool_decide_eq_true_2 (rs_pending (advance r) = ∅)) by done.
  rewrite (bool_decide_eq_false_2 (terminals cand s = [])) by done.
  rewrite (bool_decide_eq_false_2 (length (terminals cand s) ≠ size (rs_changes (advance r))))
    by (intros Hn; by apply Hn).
  simpl. rewrite (bool_decide_eq_false_2 (candidate_digest cand ≠ _)) by (intros Hn; by apply Hn).
  by rewrite (bool_decide_eq_false_2 (intent_pin (kernel s) ≠ _)) by (intros Hn; by apply Hn).
Qed.

Lemma recover_committed cand auth s s1 s' (w : T) :
  committed cand auth s s1 s' → settled s → Candidate_new (change_ids cand) = Ok cand →
  canonical cand s →
  (∀ id c, id ∉ change_ids cand → changes (kernel s) !! id = Some c → cr_state c = BaselineRestored) →
  wal_ok w → durable w = durable (wal (kernel s')) → (Z.of_nat (length (durable w)) ≤ u64_max)%Z →
  ∃ k, recover (transaction_id (kernel s')) (intent_pin (kernel s')) (capabilities (kernel s')) w = Ret k
    ∧ sealed k = Some Seal_Committed ∧ commit_authorization k = Some auth
    ∧ changes k = changes (kernel s') ∧ change_order k = change_order (kernel s').
Proof.
  intros Hco Hset Hnew Hcanon Hbase Hw Hdw Hlen.
  destruct (co_good _ _ _ _ _ Hco) as [r [Hlog Hag]].
  pose proof (lg_log _ _ Hlog) as Hg. pose proof (good_log_ok _ _ _ _ _ Hg) as Hok.
  pose proof (co_touches _ _ _ _ _ Hco) as Ht.
  pose proof (co_extends _ _ _ _ _ Hco) as Hx.
  assert (good s1) as Hg1 by apply Hco.
  assert (∀ id c, changes (kernel s1) !! id = Some c →
    if candidate_contains cand id then ready s1 id else cr_state c = BaselineRestored) as Hst.
  { intros id c Hc. unfold candidate_contains. case_bool_decide as Hin.
    - destruct (co_acked _ _ _ _ _ Hco id Hin) as (c' & Hc' & Hcs & _). exists c'.
      rewrite Hc in Hc'. injection Hc' as <-.
      pose proof (co_selectable _ _ _ _ _ Hco) as Hsel. rewrite Forall_forall in Hsel.
      destruct (Hsel id Hin) as (c0 & Hc0 & Hv0 & Hh0).
      destruct (touches_change _ _ _ _ _ Ht Hc0) as (c'' & Hc'' & [Hi Hv]).
      rewrite Hc in Hc''. injection Hc'' as <-. split_and!; [done|done|by apply Hv|].
      by rewrite (to_heads _ _ _ Ht), <- (si_resource _ _ Hi).
    - rewrite (co_others _ _ _ _ _ Hco id Hin) in Hc. by eapply Hbase. }
  rewrite (co_log _ _ _ _ _ Hco) in Hdw.
  rewrite (ex_transaction _ _ Hx), (ex_pin _ _ Hx), (ex_capabilities _ _ Hx).
  rewrite <- (to_transaction _ _ _ Ht), <- (to_pin _ _ _ Ht), <- (to_capabilities _ _ _ Ht).
  set (rc := MkReplay (insert_changes (terminals cand s1) (rs_changes r)) (rs_order r) (rs_heads r)
    (rs_pending r) (Some Seal_Committed) (Some auth) (rs_saw_start r) (rs_sequence r + 1)).
  rewrite (recover_replayed _ _ _ w _ _ r rc Hw Hdw Hg); [|done|apply Hlog|done|].
  2: { unfold replay_event. simpl event. apply replay_committed; try done.
       - by apply (co_settled _ _ _ _ _ Hco).
       - unfold canonical. by rewrite (to_order _ _ _ Ht).
       - rewrite (co_pin _ _ _ _ _ Hco). symmetry. apply Ht.
       - apply Hco.
       - rewrite Hdw in Hlen |- *. apply seal_placed; [apply Hok|apply Hlog|done]. }
  assert (∀ id, is_Some (rs_changes r !! id) → ∃ c, changes (kernel s1) !! id = Some c
    ∧ settled_changes rc !! id = Some (terminal_of cand id c)
    ∧ changes (kernel s') !! id = Some (terminal_of cand id c)) as Hterm.
  { intros id Hid. apply (agrees_is_Some _ _ _ Hag) in Hid as [c Hc]. exists c.
    assert (∀ m, insert_changes (terminals cand s1) m !! id = Some (terminal_of cand id c)) as Hins.
    { intros m. apply insert_changes_lookup.
      - rewrite terminals_ids by done. by apply good_nodup.
      - unfold terminals. apply list_elem_of_omap. exists id. rewrite Hc.
        split; [apply good_ordered; [done|by exists c]|done].
      - exact (good_id _ _ _ Hg1 Hc). }
    split_and!; [done| |by rewrite (co_changes _ _ _ _ _ Hco)].
    rewrite settled_changes_lookup. simpl. rewrite Hins. simpl. f_equal.
    unfold mark_pending. rewrite (good_log_pending _ _ _ _ _ Hg).
    change (log_pending (durable (wal (kernel s1)))) with (pending s1).
    rewrite (co_settled _ _ _ _ _ Hco Hset), lookup_empty.
    unfold mark_unapplied, terminal_of. by destruct (candidate_contains cand id). }
  assert (∀ id c, settled_changes rc !! id = Some c → changes (kernel s') !! id = Some c
    ∧ ∃ d, changes (kernel s1) !! id = Some d ∧ c = terminal_of cand id d) as Hback.
  { intros id c Hc. destruct (Hterm id) as (d & Hd & Hs & Hs').
    { rewrite settled_changes_lookup in Hc. simpl in Hc. apply fmap_Some in Hc as (x & Hx' & _).
      destruct (decide (id ∈ (cr_change_id <$> terminals cand s1))) as [Hin|Hni].
      - rewrite terminals_ids in Hin by done. apply (agrees_is_Some _ _ _ Hag). by apply good_known.
      - rewrite insert_changes_other in Hx' by done. by exists x. }
    rewrite Hc in Hs. injection Hs as ->. split; [done|by exists d]. }
  assert (settled_changes rc = changes (kernel s')) as Heq.
  { apply map_eq. intros id. destruct (settled_changes rc !! id) as [c|] eqn:Hc.
    - symmetry. by apply Hback.
    - symmetry. rewrite (co_changes _ _ _ _ _ Hco). apply eq_None_not_Some. intros Hsome.
      destruct (decide (id ∈ (cr_change_id <$> terminals cand s1))) as [Hin|Hni].
      + rewrite terminals_ids in Hin by done. destruct (good_known _ _ Hg1 Hin) as [d Hd].
        destruct (Hterm id) as (? & _ & Hs & _); [by apply (agrees_is_Some _ _ _ Hag); exists d|].
        by rewrite Hc in Hs.
      + rewrite insert_changes_other in Hsome by done.
        destruct (Hterm id) as (? & _ & Hs & _); [by apply (agrees_is_Some _ _ _ Hag)|]. by rewrite Hc in Hs. }
  rewrite (recover_finish_sealed _ _ _ w rc Seal_Committed).
  - eexists. split; [done|]. split_and!; try done. simpl.
    destruct (co_plan _ _ _ _ _ Hco) as [Ho _]. rewrite Ho, <- (to_order _ _ _ Ht). symmetry. apply Hag.
  - apply (ro_start _ _ _ Hok).
  - done.
  - intros id Hid. apply (ro_order _ _ _ Hok) in Hid. simpl.
    destruct (Hterm id Hid) as (c & _ & Hs & _). rewrite settled_changes_lookup in Hs.
    apply fmap_Some in Hs as (x & Hx' & _). by exists x.
  - intros id c Hc. destruct (Hback id c Hc) as (_ & d & Hd & ->). specialize (Hst id d Hd).
    simpl. unfold terminal_of. destruct (candidate_contains cand id); simpl; [|done].
    destruct Hst as (d' & Hd' & _ & Hv & _). rewrite Hd in Hd'. injection Hd' as <-. by rewrite Hv.
Qed.
End Sealed.
