(* ===== verification/Coordinator.v ===== *)
(** * The episode session ([tuning_agent/src/runtime/episode/coordinator.rs])

    First the transaction kernel behind the evaluation ([impl TransactionPort for
    TransactionKernel]): an open transaction is restored and replayed without a panic,
    stays recoverable when a call fails, and after a replay holds exactly the
    candidate, which is what [PortSpec] asks.  Then [EpisodeSession]: the commands of
    the agent, the rollbacks and the cleanup of an episode. *)

From S2P Require Export Evaluation Client Finalize Admission Episode.

Section KernelPort.
Context `{JD : JsonData, !Serialize Value, !Serialize (list ChangeId), !Sha256}.
Context {W T : Type} `{!TransactionWal T, !WalLaws T}.
Context (tid : TransactionId) (pin : EvaluationIntentPin) (caps : CapabilitySnapshot W)
  (order : list ChangeId).
Implicit Types (p : KernelPort W T) (w : W).

(** The kernel of a port in some world. *)
Definition in_world p w : Sys W T := MkSys p.1 w p.2.

(** An open transaction of the session, consistent with its log. *)
Record port_open p : Prop := {
  po_good w : good (in_world p w);
  po_transaction : transaction_id p.1 = tid;
  po_pin : intent_pin p.1 = pin;
  po_capabilities : capabilities p.1 = caps;
}.

Definition port_settled p : Prop := port_open p ∧ ∀ w, settled (in_world p w).

(** The transaction with the changes listed in [order]. *)
Definition port_planned p : Prop := port_settled p ∧ change_order p.1 = order.

(** The candidate with these ids is the active one and exactly its changes are
    applied. *)
Definition holds_candidate (ids : list ChangeId) p : Prop :=
  port_planned p ∧ ∃ candidate, Candidate_new ids = Ok candidate
    ∧ active_candidate p.1 = Some candidate
    ∧ ∀ id, id ∈ change_order p.1 → ∃ c, changes p.1 !! id = Some c
        ∧ cr_state c = if candidate_contains candidate id then CandidateApplied else BaselineRestored.

Lemma good_any_world (s : Sys W T) w : good s → good (MkSys (kernel s) w (trace s)).
Proof. intros Hg. by apply (good_same s). Qed.

Lemma port_open_extends p s s' w :
  port_open p → s = in_world p w → good s' → extends s s' → port_open (kernel s', trace s').
Proof.
  intros [_ Ht Hp Hc] -> Hg [Ht' Hp' Hc' _]. simpl in *. split; simpl; [|congruence..].
  intros w'. by apply (good_any_world s').
Qed.

(** A kernel operation called through the port. *)
Lemma run_kernel_spec {A B} (m : M (Sys W T) TransactionError A) (f : A → B) (G : KernelPort W T → Prop) p :
  port_open p →
  (∀ w, wp m (λ _ s', good s' ∧ extends (in_world p w) s' ∧ G (kernel s', trace s'))
          (λ _ s', good s' ∧ extends (in_world p w) s') (in_world p w)) →
  port_call port_open G (run_kernel m f) p.
Proof.
  intros Hp Hm w. specialize (Hm w). unfold run_kernel, wp in *. fold (in_world p w).
  destruct (m (in_world p w)) as [[a|e|] s'].
  - destruct Hm as (Hg & Hx & HG). split; [by eapply port_open_extends|done].
  - destruct Hm as [Hg Hx]. by eapply port_open_extends.
  - done.
Qed.

#[export] Program Instance kernel_port_spec : PortSpec (kernel_port (W := W) (T := T)) := {|
  port_ok := port_open;
  port_ready := port_planned;
  port_restored := port_planned;
  port_replayed := holds_candidate;
|}.
Next Obligation. by intros p [[]]. Qed.
Next Obligation.
  intros ids p [[Hp Hs] Ho]. apply run_kernel_spec; [done|]. intros w.
  eapply wp_mono; [by apply wp_restore_baseline, Hp| |done].
  intros l s' (Hg & Hx & [Ho' _] & Hset & _). split_and!; [done|done|].
  split; [|by rewrite <- Ho; apply Ho'].
  split; [by eapply port_open_extends|]. intros w'. by apply Hset.
Qed.
Next Obligation.
  intros ids p [[Hp Hs] Ho]. simpl. unfold kernel_replay_candidate.
  destruct (Candidate_new ids) as [candidate|e] eqn:Hc; [|by intros w].
  apply run_kernel_spec; [done|]. intros w.
  eapply wp_mono; [by apply wp_replay_candidate, Hp| |naive_solver].
  intros l s' (Hg & Hx & [Ho' _] & Hset & _ & _ & Ha & Hrep & _). simpl in Ho'.
  split_and!; [done|done|].
  assert (port_planned (kernel s', trace s')) as Hplan.
  { split; [|by rewrite <- Ho]. split; [by eapply port_open_extends|]. intros w'. by apply Hset. }
  split; [done|]. exists candidate. split_and!; [done|done|].
  intros id Hid. simpl in *. rewrite Ho' in Hid. destruct (Hrep id Hid) as (c & Hc' & _ & Hst).
  exists c. split; [done|]. destruct (candidate_contains candidate id); [by destruct Hst|done].
Qed.
End KernelPort.

(** * The episode session
      ([EpisodeSession] of [tuning_agent/src/runtime/episode/coordinator.rs])

    What an agent's commands do: probes, the frozen intent, mutations under a
    transaction, the commit request with its evaluation, the rollbacks.  A method
    is a computation on [EpisodeSession], which holds the world the providers act
    on and, as histories the code does not keep, the calls of the last evaluation
    and the transactions that were dropped after their rollback. *)

Open Scope Z_scope.

(** ** What the session uses *)

(** [TransactionStore::create], which acts on the directory of the world. *)
Class TransactionStore (W T : Type) :=
  store_create : TransactionId → W → result WalError T * W.

Definition EvaluationVerdict_debug (v : EvaluationVerdict) : string :=
  match v with
  | Verdict_Improved => "Improved" | Verdict_NoSignal => "NoSignal"
  | Verdict_Inconclusive => "Inconclusive" | Verdict_Unsafe => "Unsafe"
  end.

(** The [snake_case] names serde gives the phases. *)
Definition EpisodePhase_name (p : EpisodePhase) : string :=
  match p with
  | Clean => "clean" | Experimenting => "experimenting" | CommitPending => "commit_pending"
  | RollingBack => "rolling_back" | RecoveryRequired => "recovery_required"
  | Committed => "committed"
  end.

Definition ensure_allowed_phase `{J : Json} (meta : CapabilityMeta) (phase : EpisodePhase)
    : result string unit :=
  if is_allowed_in meta phase then Ok tt
  else Err ("capability '" +:+ as_str (meta_id meta) +:+ "' is not allowed in phase "
            +:+ EpisodePhase_debug phase).

(** [episode-{id}/{label}-{n}]. *)
Definition numbered (episode_id : EpisodeId) (label : string) (n : Z) : string :=
  "episode-" +:+ show episode_id +:+ "/" +:+ label +:+ "-" +:+ show n.

(** ** Commands and results ([agent/command.rs], [agent/tool_call.rs]) *)

Section Commands.
Context `{JD : JsonData}.

Inductive AgentCommand :=
  | Command_Probe (call_id : string) (capability_id : CapabilityId) (arguments : Value)
  | Command_BeginExperiment (call_id : string) (intent : EvaluationIntentSpec)
  | Command_Mutation (call_id : string) (capability_id : CapabilityId) (arguments : Value)
      (reason : string)
  | Command_RequestCommit (call_id : string) (change_ids : list ChangeId) (reason : string)
  | Command_Abort (call_id reason : string).

Record AgentToolInvocation := MkInvocation {
  invocation_id : string; invocation_name : string; invocation_arguments : Value }.

Record AgentToolResult := MkToolResult {
  result_call_id : string; result_name : string; result_ok : bool; result_content : Value }.

Definition tool_success (invocation : AgentToolInvocation) (content : Value) : AgentToolResult :=
  MkToolResult (invocation_id invocation) (invocation_name invocation) true content.
Definition tool_failure (invocation : AgentToolInvocation) (message : string) : AgentToolResult :=
  MkToolResult (invocation_id invocation) (invocation_name invocation) false
    (json_object [("error", json_string message)]).
End Commands.

(** ** The session *)

Section Coordinator.
Context `{JD : JsonData, !Serialize Value, !Serialize (list ChangeId), !Sha256}.
Context `{!Serialize MetricBatch, !Serialize CleanupReceipt, !Serialize ComparisonEvidence,
  !Serialize ContractPayload, !Serialize IntentDigestPayload, !Serialize EvaluationDecision,
  !Serialize AbEvaluationEvidence, !Serialize AuthorizationPayload,
  !ToValue ProbeEvidence, !ToValue AbEvaluationEvidence}.
Context {W T : Type} `{!TransactionWal T, !TransactionStore W T, !Clock W}.

Record EpisodeSession := MkSession {
  ses_state : EpisodeStateMachine;
  ses_transaction : option (KernelPort W T);
  next_transaction : Z;
  next_change : Z;
  next_operation : Z;
  ses_decision : option EvaluationDecision;
  summary : string;
  ses_world : W;
  ses_evaluation : list EvalEvent;
  ses_retired : list (KernelPort W T);
}.

Definition set_ses_state m (s : EpisodeSession) : EpisodeSession :=
  MkSession m (ses_transaction s) (next_transaction s) (next_change s) (next_operation s)
    (ses_decision s) (summary s) (ses_world s) (ses_evaluation s) (ses_retired s).
Definition set_ses_transaction t (s : EpisodeSession) : EpisodeSession :=
  MkSession (ses_state s) t (next_transaction s) (next_change s) (next_operation s)
    (ses_decision s) (summary s) (ses_world s) (ses_evaluation s) (ses_retired s).
Definition set_next_transaction n (s : EpisodeSession) : EpisodeSession :=
  MkSession (ses_state s) (ses_transaction s) n (next_change s) (next_operation s)
    (ses_decision s) (summary s) (ses_world s) (ses_evaluation s) (ses_retired s).
Definition set_next_change n (s : EpisodeSession) : EpisodeSession :=
  MkSession (ses_state s) (ses_transaction s) (next_transaction s) n (next_operation s)
    (ses_decision s) (summary s) (ses_world s) (ses_evaluation s) (ses_retired s).
Definition set_next_operation n (s : EpisodeSession) : EpisodeSession :=
  MkSession (ses_state s) (ses_transaction s) (next_transaction s) (next_change s) n
    (ses_decision s) (summary s) (ses_world s) (ses_evaluation s) (ses_retired s).
Definition set_ses_decision d (s : EpisodeSession) : EpisodeSession :=
  MkSession (ses_state s) (ses_transaction s) (next_transaction s) (next_change s)
    (next_operation s) d (summary s) (ses_world s) (ses_evaluation s) (ses_retired s).
Definition set_summary x (s : EpisodeSession) : EpisodeSession :=
  MkSession (ses_state s) (ses_transaction s) (next_transaction s) (next_change s)
    (next_operation s) (ses_decision s) x (ses_world s) (ses_evaluation s) (ses_retired s).
Definition set_ses_world w (s : EpisodeSession) : EpisodeSession :=
  MkSession (ses_state s) (ses_transaction s) (next_transaction s) (next_change s)
    (next_operation s) (ses_decision s) (summary s) w (ses_evaluation s) (ses_retired s).
Definition set_ses_evaluation e (s : EpisodeSession) : EpisodeSession :=
  MkSession (ses_state s) (ses_transaction s) (next_transaction s) (next_change s)
    (next_operation s) (ses_decision s) (summary s) (ses_world s) e (ses_retired s).
(** [self.transaction = None]. *)
Definition retire (s : EpisodeSession) : EpisodeSession :=
  MkSession (ses_state s) None (next_transaction s) (next_change s)
    (next_operation s) (ses_decision s) (summary s) (ses_world s) (ses_evaluation s)
    (match ses_transaction s with Some p => p :: ses_retired s | None => ses_retired s end).

Definition EpisodeSession_new (episode_id : EpisodeId) (world : W) : EpisodeSession :=
  MkSession (EpisodeStateMachine_new episode_id) None 0 0 0 None
    "episode ended cleanly without a commit" world [] [].

Abbreviation SM := (M EpisodeSession string).

(** ** Calling the parts *)

(** A method of the state machine; its error as text. *)
Definition machine {A} (m : M EpisodeStateMachine TransitionError A) : SM A := λ s,
  let '(r, st) := m (ses_state s) in
  (match r with
   | Ret a => Ret a | Throw e => Throw (transition_error_message e) | Panic => Panic
   end, set_ses_state st s).

(** [let _ = self.state.require_recovery()] and [stop_reasoning], which do not fail. *)
Definition recovery_required : SM unit := machine require_recovery.

Definition from_outcome {A} (r : outcome EvaluationError A) : SM A := λ s,
  (match r with
   | Ret a => Ret a | Throw e => Throw (evaluation_error_message e) | Panic => Panic
   end, s).

(** A method of the open transaction [p]. *)
Definition on_transaction {A} (op : M (Sys W T) TransactionError A) (p : KernelPort W T)
    : SM (result TransactionError A) := λ s,
  let '(r, s') := op (MkSys p.1 (ses_world s) p.2) in
  (match r with Ret a => Ret (Ok a) | Throw e => Ret (Err e) | Panic => Panic end,
   set_ses_world (world s') (set_ses_transaction (Some (kernel s', trace s')) s)).

Definition summarize (message : string) : SM unit := modify (set_summary message).

Section Session.
Context (episode_id : EpisodeId) (evaluation_timeout : Z) (capabilities : CapabilitySnapshot W).

Definition new_protocol : SM (AbEvaluationProtocol (W := W)) :=
  from_outcome (AbEvaluationProtocol_new capabilities evaluation_timeout).

Definition context (label : string) : SM InvocationContext :=
  s ← gets id;
  let n := u64_saturating_add (next_operation s) 1 in
  _ ← modify (set_next_operation n);
  operation_id ← lift (string_id_new N_Operation (numbered episode_id label n));
  mret (MkInvocationContext episode_id operation_id).

Definition rollback_open_transaction : SM unit :=
  s ← gets id;
  let phase := es_phase (ses_state s) in
  match ses_transaction s with
  | None =>
    if bool_decide (phase = Experimenting) || bool_decide (phase = CommitPending)
       || bool_decide (phase = RollingBack)
    then throw ("cannot complete rollback in phase " +:+ EpisodePhase_debug phase
                +:+ ": transaction is missing")
    else mret tt
  | Some p =>
    let starts_rollback := bool_decide (phase = Experimenting) || bool_decide (phase = CommitPending) in
    let completes_rollback := starts_rollback || bool_decide (phase = RollingBack) in
    _ ← (if starts_rollback then machine begin_rollback else mret tt);
    r ← on_transaction rollback_all p;
    _ ← lift (map_err error_message r);
    _ ← (if completes_rollback then machine rollback_completed else mret tt);
    modify retire
  end.

Definition rollback_after_commit_failure (reason : string) : SM unit :=
  r ← attempt (E' := string) rollback_open_transaction;
  match r with
  | Err error =>
    let message := reason +:+ "; rollback failed: " +:+ error in
    _ ← recovery_required;
    _ ← summarize message;
    throw message
  | Ok _ => mret tt
  end.

Definition fail_closed (reason : string) : SM unit :=
  _ ← summarize reason;
  machine stop_reasoning.

(** ** Commands *)

Definition session_probe (capability_id : CapabilityId) (arguments : Value) : SM Value :=
  let unavailable := "probe capability '" +:+ as_str capability_id +:+ "' is unavailable" in
  _ ← machine (ensure_agent_action Action_Probe);
  meta ← lift (ok_or unavailable (snapshot_meta capabilities capability_id));
  s ← gets id;
  _ ← lift (ensure_allowed_phase meta (es_phase (ses_state s)));
  provider ← lift (ok_or unavailable (snapshot_probe capabilities capability_id));
  probe_context ← context "probe";
  evidence ← (λ s, let '(r, w) := probe provider (MkProbeRequest probe_context arguments) (ses_world s) in
                (Ret r, set_ses_world w s));
  evidence ← lift (map_err (λ error, "probe '" +:+ as_str capability_id +:+ "' failed: "
               +:+ ProviderError_display error) evidence);
  evidence ← lift (to_value evidence);
  encoded ← lift (to_vec evidence);
  _ ← lift (reject (max_output_bytes (limits meta) <? Z.of_nat (String.length encoded))
        ("probe '" +:+ as_str capability_id +:+ "' exceeded its "
         +:+ show (max_output_bytes (limits meta)) +:+ " byte output limit"));
  mret evidence.

Definition begin_experiment (spec : EvaluationIntentSpec) : SM Value :=
  _ ← machine (ensure_agent_action Action_BeginExperiment);
  contract_id ← lift (string_id_new N_Contract ("episode-" +:+ show episode_id +:+ "/contract"));
  contract ← from_outcome (freeze capabilities contract_id (spec_contract spec));
  protocol ← new_protocol;
  _ ← (λ s, from_outcome (validate_contract protocol contract s).1 s);
  intent ← lift (map_err evaluation_error_message
             (FrozenEvaluationIntent_from_parts episode_id (spec_objective spec) contract));
  _ ← machine (freeze_intent intent);
  mret (json_object
    [("objective", json_string (objective_str (intent_objective intent)));
     ("intent_digest", json_string (as_str (pin_intent_digest (intent_pin_of intent))));
     ("contract_id", json_string (as_str (Contract.contract_id (intent_contract intent))));
     ("contract_digest", json_string (as_str (contract_digest (intent_contract intent))));
     ("capability_generation", json_integer (snap_generation capabilities));
     ("status", json_string "frozen")]).

(** The transaction that the state machine refused. *)
Definition reject_transaction (error : string) (p : KernelPort W T) : SM unit :=
  s ← gets id;
  r ← on_transaction rollback_all p;
  _ ← modify (λ s', set_ses_transaction (ses_transaction s) s');
  match r with
  | Ok _ =>
    _ ← machine stop_reasoning;
    finished ← attempt (E' := string) (machine finish_clean);
    match finished with
    | Err finish_error =>
      _ ← recovery_required;
      throw (error +:+ "; rejected transaction was rolled back but episode finalization failed: "
             +:+ finish_error)
    | Ok _ =>
      throw (error +:+ "; rejected transaction was rolled back and the episode ended")
    end
  | Err rollback_error =>
    _ ← recovery_required;
    throw (error +:+ "; failed to seal rejected transaction rollback; recovery is required: "
           +:+ error_message rollback_error)
  end.

Definition ensure_transaction : SM unit :=
  s ← gets id;
  if bool_decide (is_Some (ses_transaction s)) then mret tt else
  let n := u64_saturating_add (next_transaction s) 1 in
  _ ← modify (set_next_transaction n);
  transaction_id ← lift (string_id_new N_Transaction (numbered episode_id "transaction" n));
  intent ← lift (ok_or "frozen evaluation intent is missing" (es_intent (ses_state s)));
  wal ← (λ s, let '(r, w) := store_create transaction_id (ses_world s) in (Ret r, set_ses_world w s));
  match (wal : result WalError T) with
  | Err error =>
    _ ← recovery_required;
    throw ("transaction WAL creation outcome is unsafe; recovery is required: "
           +:+ wal_error_message error)
  | Ok wal =>
    s ← gets id;
    let '(begun, k) := begin_transaction transaction_id (intent_pin_of intent) capabilities wal
                         (ses_world s) in
    match begun with
    | Ret _ =>
      begun ← attempt (E' := string) (machine (episode_begin_transaction transaction_id));
      match begun with
      | Ok _ => modify (set_ses_transaction (Some (kernel k, trace k)))
      | Err error => reject_transaction error (kernel k, trace k)
      end
    | Throw error =>
      _ ← recovery_required;
      throw ("transaction Started outcome is unknown; recovery is required: "
             +:+ error_message error)
    | Panic => panic
    end
  end.

Definition mutate (capability_id : CapabilityId) (arguments : Value) (reason : string) : SM Value :=
  _ ← machine (ensure_agent_action Action_Mutation);
  s ← gets id;
  intent ← lift (ok_or "frozen evaluation intent is missing" (es_intent (ses_state s)));
  _ ← from_outcome (ensure_schedule_fits (intent_contract intent) evaluation_timeout);
  meta ← lift (ok_or ("mutation capability '" +:+ as_str capability_id +:+ "' is unavailable")
                 (snapshot_meta capabilities capability_id));
  _ ← lift (ensure_allowed_phase meta Experimenting);
  started ← attempt (E' := string) ensure_transaction;
  _ ← match started with
      | Err error => _ ← summarize error; throw error
      | Ok _ => mret tt
      end;
  s ← gets id;
  let n := u64_saturating_add (next_change s) 1 in
  _ ← modify (set_next_change n);
  change_id ← lift (string_id_new N_Change (numbered episode_id "change" n));
  p ← expect (ses_transaction s);
  result ← on_transaction (experiment change_id capability_id arguments) p;
  match result with
  | Ok change =>
    _ ← machine (mutation_applied (cr_transaction_id change));
    mret (json_object
      [("change", json_object
         [("change_id", json_string (as_str (cr_change_id change)));
          ("supersedes", json_option (λ id, json_string (as_str id)) (cr_supersedes change));
          ("capability_id", json_string (as_str (cr_capability_id change)));
          ("resource", json_string (resource_str (cr_resource change)));
          ("state", json_string (ChangeState_name (cr_state change)))]);
       ("reason", json_string reason);
       ("status", json_string "applied_verified")])
  | Err error =>
    let failed := "mutation '" +:+ as_str capability_id +:+ "' failed" in
    rollback ← attempt (E' := string) rollback_open_transaction;
    match rollback with
    | Err rollback_error =>
      let message := failed +:+ ": " +:+ error_message error +:+ "; rollback failed: "
                       +:+ rollback_error in
      _ ← recovery_required;
      _ ← summarize message;
      throw message
    | Ok _ =>
      let message := failed +:+ " and the transaction was rolled back: " +:+ error_message error in
      _ ← summarize message;
      throw message
    end
  end.

(** The smallest element of a set, in the order of the ids. *)
Definition first_id (ids : gset ChangeId) : option ChangeId := head (ids_in_order ids).

Definition canonical_candidate (requested : list ChangeId) : SM Candidate :=
  s ← gets id;
  p ← lift (ok_or "commit requires an active transaction" (ses_transaction s));
  let requested : gset ChangeId := list_to_set requested in
  let changes := changes_in_order (p : KernelPort W T).1 in
  let known : gset ChangeId := list_to_set (cr_change_id <$> changes) in
  let superseded : gset ChangeId := list_to_set (omap cr_supersedes changes) in
  _ ← lift (match first_id (requested ∖ known) with
            | Some unknown =>
              Err ("candidate references unknown change '" +:+ as_str unknown +:+ "'")
            | None => Ok tt
            end);
  _ ← lift (match first_id (requested ∩ superseded) with
            | Some change_id =>
              Err ("candidate change '" +:+ as_str change_id +:+ "' has been superseded")
            | None => Ok tt
            end);
  canonical ← lift (collect_result (λ change,
      if bool_decide (cr_state change ≠ AppliedVerified) then
        Err ("change '" +:+ as_str (cr_change_id change) +:+ "' is not in applied_verified state")
      else Ok (cr_change_id change))
    (base.filter (λ change, cr_change_id change ∈ requested) changes));
  lift (Candidate_new canonical).

(** [EvaluationProtocol::evaluate] on the open transaction. *)
Definition call_evaluate (protocol : AbEvaluationProtocol (W := W)) (p : KernelPort W T)
    (evaluation_context : InvocationContext) (intent : FrozenEvaluationIntent) (candidate : Candidate)
    : SM (result EvaluationError AbEvaluationEvidence) := λ s,
  let '(r, e) := evaluate protocol kernel_port evaluation_context intent candidate
                   (MkEval p (ses_world s) []) in
  (match r with Ret a => Ret (Ok a) | Throw e => Ret (Err e) | Panic => Panic end,
   set_ses_evaluation (eval_trace e)
     (set_ses_world (eval_world e) (set_ses_transaction (Some (eval_port e)) s))).

(** [json!] of a value whose serialization must not fail. *)
Definition json_of {A} `{!ToValue A} (a : A) : SM Value :=
  expect (match to_value a with Ok v => Some v | Err _ => None end).

Definition finalize (candidate : Candidate) (reason : string) (evidence : AbEvaluationEvidence)
    : SM Value :=
  match commit_authorization_of evidence with
  | Err error =>
    let message := "commit authorization failed: " +:+ evaluation_error_message error in
    _ ← summarize message;
    _ ← rollback_after_commit_failure message;
    throw message
  | Ok authorization =>
    _ ← machine (advance_commit Finalizing);
    s ← gets id;
    p ← expect (ses_transaction s);
    finalized ← on_transaction (finalize_candidate candidate authorization) p;
    match finalized with
    | Err error =>
      if bool_decide (error_kind error = E_CommitOutcomeUnknown) then
        let message := "candidate finalize outcome could not be established; recovery is required: "
                         +:+ error_message error in
        _ ← recovery_required;
        _ ← summarize message;
        throw message
      else
        let message := "candidate finalize failed: " +:+ error_message error in
        _ ← summarize message;
        _ ← rollback_after_commit_failure message;
        throw message
    | Ok finalized =>
      commit_id ← lift (string_id_new N_Commit ("episode-" +:+ show episode_id +:+ "/"
                    +:+ as_str (candidate_digest candidate)));
      _ ← machine commit_completed;
      _ ← summarize "candidate passed A/B evaluation and was committed";
      evaluation ← json_of evidence;
      mret (json_object
        [("committed", json_bool true);
         ("commit_id", json_string (as_str commit_id));
         ("reason", json_string reason);
         ("evaluation", evaluation);
         ("finalized_changes", json_array (public_change <$> finalized))])
    end
  end.

Definition request_commit (change_ids : list ChangeId) (reason : string) : SM Value :=
  _ ← machine (ensure_agent_action Action_RequestCommit);
  candidate ← canonical_candidate change_ids;
  _ ← machine (episode_request_commit (candidate_digest candidate));
  _ ← machine (advance_commit RestoringBaseline);
  evaluation_context ← context "evaluate";
  s ← gets id;
  intent ← lift (ok_or "frozen evaluation intent is missing" (es_intent (ses_state s)));
  protocol ← new_protocol;
  p ← lift (ok_or "transaction is missing" (ses_transaction s));
  evidence ← call_evaluate protocol p evaluation_context intent candidate;
  match evidence with
  | Err error =>
    let message := "A/B evaluation failed: " +:+ evaluation_error_message error in
    _ ← summarize message;
    _ ← rollback_after_commit_failure message;
    _ ← (if bool_decide (evaluation_error_kind error = Ek_Cleanup) then
           _ ← recovery_required; summarize message
         else mret tt);
    throw message
  | Ok evidence =>
    _ ← for_each (λ step, machine (advance_commit step))
          [MeasuringBaseline; ReplayingCandidate; MeasuringCandidate; Comparing];
    _ ← modify (set_ses_decision (Some (ab_decision evidence)));
    match verdict (ab_decision evidence) with
    | Verdict_Improved => finalize candidate reason evidence
    | verdict =>
      let message := "candidate was not committed: " +:+ EvaluationVerdict_debug verdict in
      _ ← summarize message;
      _ ← rollback_after_commit_failure message;
      s ← gets id;
      evaluation ← json_of evidence;
      mret (json_object
        [("committed", json_bool false);
         ("reason", json_string reason);
         ("evaluation", evaluation);
         ("phase", json_string (EpisodePhase_name (es_phase (ses_state s))))])
    end
  end.

Definition abort (reason : string) : SM Value :=
  _ ← machine (ensure_agent_action Action_Abort);
  _ ← machine stop_reasoning;
  _ ← rollback_open_transaction;
  _ ← machine finish_clean;
  _ ← summarize ("agent aborted the experiment: " +:+ reason);
  s ← gets id;
  mret (json_object
    [("aborted", json_bool true); ("reason", json_string reason);
     ("phase", json_string (EpisodePhase_name (es_phase (ses_state s))))]).

(** [EpisodeSession::execute]: a failed command is a result the agent sees. *)
Definition execute (command : AgentCommand) (invocation : AgentToolInvocation) : SM AgentToolResult :=
  result ← attempt (E' := string)
    (match command with
     | Command_Probe _ capability_id arguments => session_probe capability_id arguments
     | Command_BeginExperiment _ intent => begin_experiment intent
     | Command_Mutation _ capability_id arguments reason => mutate capability_id arguments reason
     | Command_RequestCommit _ change_ids reason => request_commit change_ids reason
     | Command_Abort _ reason => abort reason
     end);
  mret (match result with
        | Ok content => tool_success invocation content
        | Err error => tool_failure invocation error
        end).

(** The cleanup of [EpisodeCoordinator::finish_session], before the outcome is built. *)
Definition settle_session : SM unit :=
  s ← gets id;
  let phase := es_phase (ses_state s) in
  if bool_decide (phase = Committed) || bool_decide (phase = RecoveryRequired) then mret tt else
  rollback ← attempt (E' := string) rollback_open_transaction;
  match rollback with
  | Err error =>
    _ ← recovery_required; summarize ("episode cleanup failed: " +:+ error)
  | Ok _ =>
    finished ← attempt (E' := string) (machine finish_clean);
    match finished with
    | Err error =>
      _ ← recovery_required; summarize ("episode finalization failed: " +:+ error)
    | Ok _ => mret tt
    end
  end.
End Session.
End Coordinator.
