(* ===== verification/SessionSafety.v ===== *)
(** * The session keeps its promises

    The invariant of an episode session: which transaction is open in which
    phase, what is left of the ones that were dropped, and what a commit rests on.
    Every command keeps it on every path, and none panics. *)

From S2P Require Export Digits Coordinator Sealed.

Open Scope Z_scope.

(** A WAL that was created is usable and empty. *)
Class TransactionStoreLaws `{J : Json} (W T : Type) `{!TransactionWal T, !WalLaws T, !TransactionStore W T} : Prop :=
  store_create_law tid (w : W) (t : T) w' :
    store_create tid w = (Ok t, w') → wal_ok t ∧ durable t = [].

Section Safety.
Context `{JD : JsonData, !Serialize Value, !Serialize (list ChangeId), !Sha256}.
Context `{!Serialize MetricBatch, !Serialize CleanupReceipt, !Serialize ComparisonEvidence,
  !Serialize ContractPayload, !Serialize IntentDigestPayload, !Serialize EvaluationDecision,
  !Serialize AbEvaluationEvidence, !Serialize AuthorizationPayload,
  !ToValue ProbeEvidence, !ToValue AbEvaluationEvidence}.
Context {W T : Type} `{!TransactionWal T, !WalLaws T, !TransactionStore W T, !Clock W}.
Context `{!TransactionStoreLaws W T, !Sha256Laws}.
Context (episode_id : EpisodeId) (evaluation_timeout : Z) (capabilities : CapabilitySnapshot W).
Implicit Types (s : EpisodeSession (W := W) (T := T)) (p : KernelPort W T).

Abbreviation SM := (M (EpisodeSession (W := W) (T := T)) string).

(** ** Rules for the calls *)

Lemma set_ses_state_same s : set_ses_state (ses_state s) s = s.
Proof. by destruct s. Qed.

Lemma wp_machine t (Q : unit → EpisodeSession → Prop) (R : string → EpisodeSession → Prop) s :
  (∀ m', accepted t (ses_state s) m' → Q tt (set_ses_state m' s)) →
  (∀ e, (∀ m', ¬ accepted t (ses_state s) m') → R e s) →
  wp (machine (transition t)) Q R s.
Proof.
  intros HQ HR. unfold wp, machine.
  destruct (transition_refused t (ses_state s)) as [(m' & Ht)|(e & Ht)]; rewrite Ht.
  - by apply HQ, transition_Ret.
  - rewrite set_ses_state_same. apply HR. intros m' Hm'%transition_Ret. congruence.
Qed.

(** A transition whose guards hold. *)
Lemma wp_machine_ok t m' (Q : unit → EpisodeSession → Prop) (R : string → EpisodeSession → Prop) s :
  accepted t (ses_state s) m' → Q tt (set_ses_state m' s) → wp (machine (transition t)) Q R s.
Proof.
  intros Ha HQ. apply transition_Ret in Ha. unfold wp, machine. by rewrite Ha.
Qed.

Lemma wp_action a (Q : unit → EpisodeSession → Prop) (R : string → EpisodeSession → Prop) s :
  (action_admitted a (ses_state s) → Q tt s) → (∀ e, R e s) →
  wp (machine (ensure_agent_action a)) Q R s.
Proof.
  intros HQ HR. unfold wp, machine.
  destruct (ensure_agent_action_run a (ses_state s)) as [[E Ha]|[(e & E) Ha]];
    rewrite E, set_ses_state_same; auto.
Qed.

Definition after_operation (s : EpisodeSession) (x : Sys W T) : EpisodeSession :=
  set_ses_world (world x) (set_ses_transaction (Some (kernel x, trace x)) s).

Lemma wp_on_transaction {A} (op : M (Sys W T) TransactionError A) p
    (Q : result TransactionError A → EpisodeSession → Prop) (R : string → EpisodeSession → Prop) s :
  wp op (λ a x, Q (Ok a) (after_operation s x)) (λ e x, Q (Err e) (after_operation s x))
    (in_world p (ses_world s)) →
  wp (on_transaction op p) Q R s.
Proof. unfold wp, on_transaction, in_world. by destruct (op _) as [[] x]. Qed.

Lemma wp_outcome {A} (r : outcome EvaluationError A) (Q : A → EpisodeSession → Prop) (R : string → EpisodeSession → Prop) s :
  r ≠ Panic → (∀ a, r = Ret a → Q a s) → (∀ e, R e s) → wp (from_outcome r) Q R s.
Proof. intros Hr HQ HR. unfold wp, from_outcome. destruct r; auto. Qed.

(** ** The invariant *)

(** A transaction that was rolled back: its log is sealed and every change was
    read back at its baseline. *)
Definition rolled_back_transaction p : Prop :=
  sealed p.1 = Some Seal_RolledBack ∧ (∀ w, closed (in_world p w))
  ∧ ∀ id, id ∈ change_order p.1 → ∃ c q, changes p.1 !! id = Some c ∧ cr_state c = RolledBack
      ∧ Ev_Verify q true ∈ p.2 ∧ verify_prepared q = cr_prepared c
      ∧ verify_expected q = baseline (cr_prepared c).

(** The machine's intent and transaction id, and what they say of the open
    transaction. *)
Definition open_with (P : TransactionId → EvaluationIntentPin → KernelPort W T → Prop) s : Prop :=
  ∃ i tid p, es_intent (ses_state s) = Some i ∧ es_transaction_id (ses_state s) = Some tid
    ∧ ses_transaction s = Some p ∧ P tid (intent_pin_of i) p.

(** A transaction that holds exactly the candidate, built as the session builds it. *)
Record ready_to_commit (candidate : Candidate) (x : Sys W T) : Prop := {
  rc_settled : settled x;
  rc_new : Candidate_new (change_ids candidate) = Ok candidate;
  rc_canonical : canonical candidate x;
  rc_others id c : id ∉ change_ids candidate → changes (kernel x) !! id = Some c →
    cr_state c = BaselineRestored;
}.

(** What a commit rests on: evidence of an evaluation under the frozen intent,
    with the verdict Improved, authorized, and recorded by the log as its last
    entry. *)
Record commit_record s (i : FrozenEvaluationIntent) (candidate : Candidate)
    (e : AbEvaluationEvidence) (authorization : CommitAuthorization) p : Prop := {
  cm_intent : es_intent (ses_state s) = Some i;
  cm_transaction : ses_transaction s = Some p;
  cm_decision : ses_decision s = Some (ab_decision e);
  cm_improved : verdict (ab_decision e) = Verdict_Improved;
  cm_evaluated : ∃ protocol evaluation_context,
    AbEvaluationProtocol_new capabilities evaluation_timeout = Ret protocol
    ∧ evaluated protocol evaluation_context i candidate e (calls (ses_evaluation s));
  cm_authorized : commit_authorization_of e = Ok authorization;
  cm_committed w : ∃ x0 x1 : Sys W T,
    committed candidate authorization x0 x1 (in_world p w) ∧ ready_to_commit candidate x0;
}.

Definition phase_ok s : Prop :=
  match es_phase (ses_state s) with
  | Clean =>
    ses_transaction s = None ∧ es_transaction_id (ses_state s) = None
    ∧ es_candidate_digest (ses_state s) = None ∧ es_commit_step (ses_state s) = None
  | Experimenting => open_with (λ tid pin p, port_settled tid pin capabilities p) s
  | CommitPending | RollingBack => open_with (λ tid pin p, port_open tid pin capabilities p) s
  | RecoveryRequired => True
  | Committed => ∃ i candidate e authorization p, commit_record s i candidate e authorization p
  end.

Record session_ok s : Prop := {
  so_episode : es_episode_id (ses_state s) = episode_id;
  so_intent i : es_intent (ses_state s) = Some i →
    intent_episode_id i = episode_id ∧ frozen_with capabilities (intent_contract i);
  so_retired : Forall rolled_back_transaction (ses_retired s);
  so_phase : phase_ok s;
}.

(** ** Rolling back *)

(** The state when a rollback is over, whatever it returns. *)
Definition settled_phase s : Prop :=
  es_phase (ses_state s) ≠ Committed ∧ es_phase (ses_state s) ≠ RecoveryRequired.

Lemma closed_any_world (x : Sys W T) w : closed x → closed (MkSys (kernel x) w (trace x)).
Proof. intros []. by split. Qed.

Lemma rolled_back_retired p w (x : Sys W T) :
  rolled_back (in_world p w) x → rolled_back_transaction (kernel x, trace x).
Proof.
  intros (Hc & Hs & _ & [Ho _] & Hr & _). split_and!; [done|intros w'; by apply (closed_any_world x)|].
  intros id Hid. simpl in *. rewrite Ho in Hid.
  destruct (Hr id Hid) as (c & Hc' & Hst & new & q & Ht & Hin & Hq & He).
  exists c, q. split_and!; try done. rewrite Ht. apply elem_of_app. by left.
Qed.

Lemma session_ok_step s s' :
  session_ok s → es_episode_id (ses_state s') = es_episode_id (ses_state s) →
  es_intent (ses_state s') = es_intent (ses_state s) →
  ses_retired s' = ses_retired s → phase_ok s' → session_ok s'.
Proof.
  intros [He Hi Hr _] He' Hi' Hr' Hp. split; [congruence|rewrite Hi'; done|by rewrite Hr'|done].
Qed.

Lemma recovery_ok s m' :
  session_ok s → accepted T_RequireRecovery (ses_state s) m' → session_ok (set_ses_state m' s).
Proof. intros Hs ->. by apply (session_ok_step s). Qed.

(** Only these parts of a session matter. *)
Lemma session_ok_same s s' :
  session_ok s → ses_state s' = ses_state s → ses_transaction s' = ses_transaction s →
  ses_decision s' = ses_decision s → ses_evaluation s' = ses_evaluation s →
  ses_retired s' = ses_retired s → session_ok s'.
Proof.
  intros [He Hi Hr Hp] E1 E2 E3 E4 E5. split; [by rewrite E1|by rewrite E1|by rewrite E5|].
  unfold phase_ok, open_with in *. rewrite E1, E2.
  destruct (es_phase (ses_state s)); try done.
  destruct Hp as (i & c & e & a & p & []). exists i, c, e, a, p. split; try done; try congruence.
  by rewrite E4.
Qed.

Lemma summary_ok x s : session_ok s → session_ok (set_summary x s).
Proof. intros Hs. by apply (session_ok_same s). Qed.

Lemma world_ok w s : session_ok s → session_ok (set_ses_world w s).
Proof. intros Hs. by apply (session_ok_same s). Qed.

Lemma state_ok s : session_ok s → session_ok (set_ses_state (ses_state s) s).
Proof. by rewrite set_ses_state_same. Qed.

(** Rolling the open transaction back, from a phase with one. *)
Lemma wp_rollback_kernel s i tid p :
  session_ok s → es_phase (ses_state s) = RollingBack → es_intent (ses_state s) = Some i →
  es_transaction_id (ses_state s) = Some tid →
  ses_transaction s = Some p → port_open tid (intent_pin_of i) capabilities p →
  wp (r ← on_transaction rollback_all p; _ ← lift (map_err error_message r);
      _ ← machine rollback_completed; modify retire)
    (λ _ s', session_ok s' ∧ es_phase (ses_state s') = Clean ∧ es_lifecycle (ses_state s') = Finished)
    (λ _ s', session_ok s' ∧ es_phase (ses_state s') = RollingBack) s.
Proof.
  intros Hs Hph Hi Htid Hp Hopen. apply wp_bind, wp_on_transaction.
  eapply wp_mono; [apply wp_rollback_all, Hopen| |].
  - intros l x [Hrb _]. apply wp_bind, wp_lift; [|done]. intros _ _.
    apply wp_bind. eapply (wp_machine_ok T_RollbackCompleted); [split; [exact Hph|reflexivity]|].
    apply wp_modify. split; [|done]. destruct Hs as [He Hin Hr _].
    split; [done|exact Hin| |done]. simpl. constructor; [|done]. by eapply rolled_back_retired.
  - intros e x [Hg Hx]. apply wp_bind, wp_lift; [done|]. intros _ _. split; [|exact Hph].
    apply (session_ok_step s); try done. unfold phase_ok. simpl. rewrite Hph.
    exists i, tid, (kernel x, trace x). split_and!; [done..|].
    by apply (port_open_extends _ _ _ p (in_world p (ses_world s)) x (ses_world s)).
Qed.

(** What a rollback needs: less than [session_ok], since a mutation that failed may
    have left the transaction unsettled. *)
Record can_roll_back s : Prop := {
  cr_episode : es_episode_id (ses_state s) = episode_id;
  cr_intent i : es_intent (ses_state s) = Some i →
    intent_episode_id i = episode_id ∧ frozen_with capabilities (intent_contract i);
  cr_retired : Forall rolled_back_transaction (ses_retired s);
  cr_phase : match es_phase (ses_state s) with
    | Clean => phase_ok s
    | Experimenting | CommitPending | RollingBack =>
      open_with (λ tid pin p, port_open tid pin capabilities p) s
    | RecoveryRequired | Committed => False
    end;
}.

Lemma ok_can_roll_back s : session_ok s → settled_phase s → can_roll_back s.
Proof.
  intros [He Hi Hr Hp] [Hc Hn]. split; try done. unfold phase_ok, open_with in *.
  destruct (es_phase (ses_state s)); try done.
  destruct Hp as (i & tid & p & ? & ? & ? & []). by exists i, tid, p.
Qed.

Lemma rolling_back_ok s m' :
  can_roll_back s → open_with (λ tid pin p, port_open tid pin capabilities p) s →
  es_phase m' = RollingBack → es_episode_id m' = es_episode_id (ses_state s) →
  es_intent m' = es_intent (ses_state s) →
  es_transaction_id m' = es_transaction_id (ses_state s) → session_ok (set_ses_state m' s).
Proof.
  intros [He Hi Hr _] (i & tid & p & H1 & H2 & H3 & H4) Hph Hep Hin Ht. split; simpl.
  - congruence.
  - intros j. rewrite Hin. apply Hi.
  - done.
  - unfold phase_ok. simpl. rewrite Hph. exists i, tid, p. split_and!; simpl; congruence.
Qed.

Lemma wp_rollback_open s :
  can_roll_back s →
  wp rollback_open_transaction
    (λ _ s', session_ok s' ∧ es_phase (ses_state s') = Clean
       ∧ (s' = s ∨ es_lifecycle (ses_state s') = Finished))
    (λ _ s', session_ok s' ∧ settled_phase s') s.
Proof.
  intros Hs. pose proof (cr_phase _ Hs) as Hp.
  unfold rollback_open_transaction. apply wp_bind, wp_gets. unfold id.
  assert (∀ m' i tid p, session_ok (set_ses_state m' s) → es_phase m' = RollingBack →
    es_intent m' = Some i → es_transaction_id m' = Some tid →
    ses_transaction s = Some p → port_open tid (intent_pin_of i) capabilities p →
    wp (r ← on_transaction rollback_all p; _ ← lift (map_err error_message r);
        _ ← machine rollback_completed; modify retire)
      (λ _ s', session_ok s' ∧ es_phase (ses_state s') = Clean
         ∧ (s' = s ∨ es_lifecycle (ses_state s') = Finished))
      (λ _ s', session_ok s' ∧ settled_phase s') (set_ses_state m' s)) as Hrun.
  { intros m' i tid p Hs' Hph Hi Htid Hp' Hopen.
    eapply wp_mono; [by eapply (wp_rollback_kernel _ i tid p)| |].
    - intros _ s' (? & ? & ?). auto.
    - intros _ s' [? Hph']. split; [done|]. unfold settled_phase. by rewrite Hph'. }
  destruct (es_phase (ses_state s)) eqn:Hph; try done.
  - pose proof Hp as Hp'. unfold phase_ok in Hp'. rewrite Hph in Hp'.
    destruct Hp' as (-> & _). cbn. apply wp_ret. split_and!; [|done|by left]. by destruct Hs.
  - pose proof Hp as (i & tid & p & Hi & Htid & Hpt & Hopen). rewrite Hpt. cbn.
    apply wp_bind. eapply (wp_machine_ok T_BeginRollback); [by split; [left|]|].
    apply (Hrun _ i tid); try done. by apply rolling_back_ok.
  - pose proof Hp as (i & tid & p & Hi & Htid & Hpt & Hopen). rewrite Hpt. cbn.
    apply wp_bind. eapply (wp_machine_ok T_BeginRollback); [by split; [right|]|].
    apply (Hrun _ i tid); try done. by apply rolling_back_ok.
  - pose proof Hp as (i & tid & p & Hi & Htid & Hpt & Hopen). rewrite Hpt. cbn.
    apply wp_bind, wp_ret. specialize (Hrun (ses_state s) i tid p).
    rewrite set_ses_state_same in Hrun. apply Hrun; try done.
    rewrite <- (set_ses_state_same s). by apply rolling_back_ok.
Qed.

(** A commit attempt that is given up: rolled back, or for recovery. *)
Lemma wp_commit_failure reason s :
  can_roll_back s →
  wp (rollback_after_commit_failure reason) (λ _ s', session_ok s' ∧ es_phase (ses_state s') = Clean)
    (λ _ s', session_ok s' ∧ es_phase (ses_state s') = RecoveryRequired) s.
Proof.
  intros Hs. unfold rollback_after_commit_failure. apply wp_bind, wp_attempt.
  eapply wp_mono; [by apply wp_rollback_open| |].
  - intros [] s' (? & ? & _). apply wp_ret. auto.
  - intros e s' [? _]. apply wp_bind. eapply (wp_machine_ok T_RequireRecovery); [done|].
    apply wp_bind, wp_modify, wp_throw. split; [|done]. by apply summary_ok, recovery_ok.
Qed.

(** ** Starting a transaction *)

Lemma wp_context label (Q : InvocationContext → EpisodeSession → Prop)
    (R : string → EpisodeSession → Prop) s :
  (∀ op, Q (MkInvocationContext episode_id op)
           (set_next_operation (u64_saturating_add (next_operation s) 1) s)) →
  (∀ e, R e (set_next_operation (u64_saturating_add (next_operation s) 1) s)) →
  wp (context episode_id label) Q R s.
Proof.
  intros HQ HR. unfold context. apply wp_bind, wp_gets. cbv zeta. unfold id.
  apply wp_bind, wp_modify, wp_bind, wp_lift; [|by intros]. intros op _. by apply wp_ret.
Qed.

(** A transaction that has begun is open, with nothing to settle. *)
Lemma begin_open tid pin (t : T) (w : W) (x : Sys W T) :
  wal_ok t → durable t = [] → begin_transaction tid pin capabilities t w = (Ret tt, x) →
  port_settled tid pin capabilities (kernel x, trace x).
Proof.
  intros Ht Hd Hb. pose proof (begin_good _ _ _ _ _ _ Ht Hd Hb) as Hg.
  unfold begin_transaction, append_event in Hb.
  set (x0 := MkSys (initial_kernel tid pin capabilities t) w []) in Hb.
  set (entry := new_entry (Started pin (snap_generation capabilities)) x0).
  pose proof (append_durable_law t entry Ht) as Hlaw.
  unfold mbind, M_bind, gets, call_wal in Hb.
  change (append_durable _ (wal (kernel x0))) with (append_durable entry t) in Hb.
  destruct (append_durable entry t) as [[[]|e] t']; simpl in Hb; [|done].
  injection Hb as <-. destruct Hlaw as [Hw' Hd']. split.
  - split; try done. intros w'. by apply (good_any_world (MkSys _ _ _)) with (w := w') in Hg.
  - intros w'. unfold settled, pending, in_world. simpl. by rewrite Hd', Hd.
Qed.

Lemma wp_ensure_transaction s :
  session_ok s → action_admitted Action_Mutation (ses_state s) →
  wp (ensure_transaction episode_id capabilities)
    (λ _ s', session_ok s' ∧ es_phase (ses_state s') = Experimenting
       ∧ es_lifecycle (ses_state s') = Active)
    (λ _ s', session_ok s') s.
Proof.
  intros Hs [Hact Hph]. pose proof (so_phase _ Hs) as Hp. unfold phase_ok in Hp.
  unfold ensure_transaction. apply wp_bind, wp_gets. unfold id.
  destruct Hph as [[Hph Hint]|Hph]; rewrite Hph in Hp.
  2:{ destruct Hp as (i & tid & p & Hi & Htid & Hp & Hopen). rewrite Hp.
      rewrite bool_decide_eq_true_2 by by eexists. by apply wp_ret. }
  destruct Hp as (Hnone & Htid & Hcd & Hst). rewrite Hnone.
  rewrite bool_decide_eq_false_2 by by intros [].
  apply wp_bind, wp_modify. set (s1 := set_next_transaction _ s).
  assert (session_ok s1) as Hs1 by by apply (session_ok_same s).
  apply wp_bind, wp_lift; [|done]. intros tid _.
  apply wp_bind, wp_lift; [|done]. intros i Hi%ok_or_Ok.
  apply wp_bind. unfold wp at 1.
  destruct (store_create tid (ses_world s1)) as [wal w] eqn:Hcreate.
  set (s2 := set_ses_world w s1). assert (session_ok s2) as Hs2 by by apply world_ok.
  destruct wal as [t|error].
  2:{ apply wp_bind. eapply (wp_machine_ok T_RequireRecovery); [done|]. apply wp_throw.
      by apply recovery_ok. }
  apply store_create_law in Hcreate as [Hwal Hempty].
  apply wp_bind, wp_gets. unfold id.
  destruct (begin_transaction tid (intent_pin_of i) capabilities t (ses_world s2)) as [begun x] eqn:Hb.
  destruct begun as [[]|error|].
  - apply (begin_open _ _ _ _ _ Hwal Hempty) in Hb.
    apply wp_bind, wp_attempt.
    eapply (wp_machine_ok (T_BeginTransaction tid)); [by split_and!|]. apply wp_modify.
    split; [|done]. apply (session_ok_step s2); try done.
    by exists i, tid, (kernel x, trace x).
  - apply wp_bind. eapply (wp_machine_ok T_RequireRecovery); [done|]. apply wp_throw.
    by apply recovery_ok.
  - exfalso. unfold begin_transaction, append_event, call_wal, mbind, M_bind, gets in Hb.
    by destruct (append_durable _ _) as [[[]|] ?].
Qed.

(** ** The commands *)

Hypothesis snapshot_spec : SnapshotSpec capabilities.
Hypothesis episode_range : 0 <= episode_id <= u64_max.
Hypothesis evidence_encodes : ∀ e : AbEvaluationEvidence, ∃ v, to_value e = Ok v.

(** What every command keeps. *)
Abbreviation keeps m s := (wp m (λ _, session_ok) (λ _, session_ok) s).

Lemma keeps_probe id arguments s :
  session_ok s → keeps (session_probe episode_id capabilities id arguments) s.
Proof.
  intros Hs. unfold session_probe. cbv zeta.
  apply wp_bind, wp_action; [|done]. intros _.
  apply wp_bind, wp_lift; [|done]. intros meta _. apply wp_bind, wp_gets.
  apply wp_bind, wp_lift; [|done]. intros [] _.
  apply wp_bind, wp_lift; [|done]. intros provider _.
  apply wp_bind, wp_context; [intros op|intros e; by apply (session_ok_same s)].
  apply wp_bind. unfold wp at 1. destruct (probe provider _ _) as [r w].
  set (s1 := set_ses_world w _). assert (session_ok s1) as Hs1 by by apply (session_ok_same s).
  apply wp_bind, wp_lift; [|done]. intros evidence _.
  apply wp_bind, wp_lift; [|done]. intros value _.
  apply wp_bind, wp_lift; [|done]. intros encoded _.
  apply wp_bind, wp_lift; [|done]. intros _ _. by apply wp_ret.
Qed.

Lemma protocol_new_no_panic : AbEvaluationProtocol_new capabilities evaluation_timeout ≠ Panic.
Proof.
  unfold AbEvaluationProtocol_new. destruct (_ =? 0); [done|].
  change (string_id_new N_Capability TRUSTED_GUARDRAIL_MEASUREMENT_ID)
    with (@Ok string CapabilityId (StringId TRUSTED_GUARDRAIL_MEASUREMENT_ID)). cbv beta iota.
  by destruct (mbind _ _).
Qed.

Lemma intent_from_parts objective c i :
  FrozenEvaluationIntent_from_parts episode_id objective c = Ok i →
  intent_episode_id i = episode_id ∧ intent_contract i = c.
Proof.
  unfold FrozenEvaluationIntent_from_parts. intros (d & _ & [= <-])%result_bind_Ok. done.
Qed.

Lemma keeps_begin_experiment spec s :
  session_ok s → keeps (begin_experiment episode_id evaluation_timeout capabilities spec) s.
Proof.
  intros Hs. unfold begin_experiment.
  apply wp_bind, wp_action; [|done]. intros [_ [Hclean _]].
  apply wp_bind, wp_lift; [|done]. intros id _.
  pose proof (freeze_spec capabilities id (spec_contract spec) snapshot_spec) as Hf.
  apply wp_bind, wp_outcome; [by intros E; rewrite E in Hf| |done]. intros c Hc.
  rewrite Hc in Hf. destruct Hf as [Hf _].
  apply wp_bind, wp_outcome; [apply protocol_new_no_panic| |done]. intros protocol _.
  apply wp_bind. unfold wp at 1.
  destruct (validate_contract_spec protocol c s) as (Hnp & _ & _); [by apply contract_samples, Hf|].
  unfold from_outcome. destruct (validate_contract protocol c s).1; [|done..].
  apply wp_bind, wp_lift; [|done]. intros i [Hie Hic]%map_err_Ok%intent_from_parts.
  apply wp_bind, (wp_machine (T_FreezeIntent i)); [|done].
  intros m' (_ & _ & _ & _ & Htid & ->). apply wp_ret.
  pose proof (so_phase _ Hs) as Hp. unfold phase_ok in Hp. rewrite Hclean in Hp.
  destruct Hs as [He Hi Hr _]. split; [done| |done|].
  - intros i' [= <-]. by rewrite Hie, Hic.
  - unfold phase_ok. simpl. by rewrite Hclean.
Qed.

(** After a failed step of the transaction. *)
Lemma wp_recover message (Q : Value → EpisodeSession → Prop) s :
  session_ok s →
  wp (_ ← recovery_required; _ ← summarize message; throw message) Q (λ _, session_ok) s.
Proof.
  intros Hs. apply wp_bind. eapply (wp_machine_ok T_RequireRecovery); [done|].
  apply wp_bind, wp_modify, wp_throw. by apply summary_ok, recovery_ok.
Qed.

Lemma keeps_mutate id arguments reason s :
  session_ok s → keeps (mutate episode_id evaluation_timeout capabilities id arguments reason) s.
Proof.
  intros Hs. unfold mutate.
  apply wp_bind, wp_action; [|done]. intros Hadm. apply wp_bind, wp_gets.
  apply wp_bind, wp_lift; [|done]. intros i Hi%ok_or_Ok. unfold Datatypes.id in Hi.
  destruct (so_intent _ Hs i Hi) as [_ Hfrozen].
  apply wp_bind, wp_outcome; [| |done].
  { unfold ensure_schedule_fits. destruct (Z.eqb_spec (sample_count (contract_sampling (intent_contract i))) 0) as [Hz|_].
    - by apply contract_samples in Hz; [|apply Hfrozen].
    - by destruct (reject _ _). }
  intros _ _. apply wp_bind, wp_lift; [|done]. intros meta _.
  apply wp_bind, wp_lift; [|done]. intros [] _.
  apply wp_bind, wp_attempt. eapply wp_mono; [by apply wp_ensure_transaction| |].
  2:{ intros error s1 Hs1. apply wp_bind, wp_bind, wp_modify, wp_throw. by apply summary_ok. }
  intros [] s1 (Hs1 & Hph & Hact). apply wp_bind, wp_ret, wp_bind, wp_gets. cbv zeta.
  apply wp_bind, wp_modify. set (s2 := set_next_change _ s1).
  assert (session_ok s2) as Hs2 by by apply (session_ok_same s1).
  apply wp_bind, wp_lift; [|done]. intros cid _.
  pose proof (so_phase _ Hs2) as Hp. unfold phase_ok in Hp. change (ses_state s2) with (ses_state s1) in Hp.
  rewrite Hph in Hp. destruct Hp as (j & tid & p & Hj & Htid & Hpt & [Hopen Hset]).
  apply wp_bind. eapply wp_expect; [exact Hpt|]. apply wp_bind, wp_on_transaction.
  assert (∀ x, good x → extends (in_world p (ses_world s2)) x →
    port_open tid (intent_pin_of j) capabilities (kernel x, trace x)) as Hstill.
  { intros x Hg Hx. by apply (port_open_extends _ _ _ p (in_world p (ses_world s2)) x (ses_world s2)). }
  eapply wp_mono; [apply wp_experiment, Hopen| |].
  - intros change x (Hg & Hx & Hxp).
    assert (session_ok (after_operation s2 x)) as Hs3.
    { apply (session_ok_step s2); try done. unfold phase_ok. simpl. rewrite Hph.
      exists j, tid, (kernel x, trace x). split_and!; try done. split; [by apply Hstill|].
      intros w. by apply (xp_settled _ _ _ _ _ Hxp). }
    apply wp_bind, (wp_machine (T_MutationApplied _)); [|done].
    intros m' (_ & _ & _ & ->). apply wp_ret. by apply state_ok.
  - intros error x [Hg Hx].
    assert (can_roll_back (after_operation s2 x)) as Hs3.
    { destruct Hs2. split; try done. simpl. rewrite Hph.
      exists j, tid, (kernel x, trace x). split_and!; try done. by apply Hstill. }
    cbv zeta. apply wp_bind, wp_attempt.
    eapply wp_mono; [by apply wp_rollback_open| |].
    + intros [] s4 (Hs4 & _). apply wp_bind, wp_modify, wp_throw. by apply summary_ok.
    + intros e s4 [Hs4 _]. by apply wp_recover.
Qed.

Lemma keeps_abort reason s : session_ok s → keeps (abort reason) s.
Proof.
  intros Hs. unfold abort. apply wp_bind, wp_action; [|done]. intros [Hact Hph].
  apply wp_bind. eapply (wp_machine_ok T_StopReasoning); [reflexivity|].
  rewrite bool_decide_eq_true_2 by done. set (s1 := set_ses_state _ s).
  assert (session_ok s1) as Hs1.
  { apply (session_ok_step s); try done. pose proof (so_phase _ Hs) as Hp.
    unfold phase_ok in *. simpl. destruct Hph as [Hph|Hph]; rewrite Hph in *; done. }
  apply wp_bind. eapply wp_mono; [apply wp_rollback_open, ok_can_roll_back; [done|]| |].
  - destruct Hph as [Hph|Hph]; unfold settled_phase; simpl; by rewrite Hph.
  - intros [] s2 (Hs2 & Hph2 & _). apply wp_bind, (wp_machine T_FinishClean); [|done].
    intros m' (_ & ? & ? & ? & ->). apply wp_bind, wp_modify, wp_bind, wp_gets, wp_ret.
    apply (session_ok_step s2); try done. unfold phase_ok. simpl. rewrite Hph2.
    split_and!; try done. pose proof (so_phase _ Hs2) as Hp. unfold phase_ok in Hp.
    rewrite Hph2 in Hp. by destruct Hp.
  - intros e s2 [? _]. done.
Qed.

(** ** The commit *)

Lemma committed_any_world candidate authorization (x0 x1 x : Sys W T) w :
  committed candidate authorization x0 x1 x →
  committed candidate authorization x0 x1 (MkSys (kernel x) w (trace x)).
Proof.
  intros []. split; try done; [by apply (closed_any_world x)|]. by destruct co_extends.
Qed.

Lemma episode_id_visible rest :
  visible_text rest → (String.length rest ≤ 200)%nat →
  visible_text ("episode-" +:+ show episode_id +:+ "/" +:+ rest)
  ∧ (String.length ("episode-" +:+ show episode_id +:+ "/" +:+ rest) ≤ 256)%nat.
Proof.
  intros Hv Hl. pose proof (show_length _ episode_range) as Hs. split.
  - apply (visible_text_app "episode-"); [repeat constructor; vm_compute; discriminate|].
    apply visible_text_app; [apply show_visible|].
    apply (visible_text_app "/"); [repeat constructor; vm_compute; discriminate|done].
  - rewrite !string_length_app. simpl. lia.
Qed.

Lemma commit_id_valid ids candidate :
  Candidate_new ids = Ok candidate →
  ∃ id, string_id_new N_Commit ("episode-" +:+ show episode_id +:+ "/"
          +:+ as_str (candidate_digest candidate)) = Ok id.
Proof.
  intros (_ & _ & _ & [Hv Hl]%content_digest_Ok)%Candidate_new_Ok.
  destruct (episode_id_visible (as_str (candidate_digest candidate)) Hv) as [Hv' Hl']; [lia|].
  eexists. by apply string_id_visible.
Qed.

Lemma wp_json_of (e : AbEvaluationEvidence) (Q : Value → EpisodeSession → Prop) R s :
  (∀ v, Q v s) → wp (json_of e) Q R s.
Proof.
  intros HQ. destruct (evidence_encodes e) as [v Hv]. eapply wp_expect; [by rewrite Hv|apply HQ].
Qed.

(** A session in the middle of a commit, with evidence for the candidate. *)
Record committing s (i : FrozenEvaluationIntent) (candidate : Candidate) (e : AbEvaluationEvidence)
    : Prop := {
  ct_ok : session_ok s;
  ct_phase : es_phase (ses_state s) = CommitPending;
  ct_intent : es_intent (ses_state s) = Some i;
  ct_evaluated : ∃ protocol evaluation_context,
    AbEvaluationProtocol_new capabilities evaluation_timeout = Ret protocol
    ∧ evaluated protocol evaluation_context i candidate e (calls (ses_evaluation s));
  ct_candidate : Candidate_new (change_ids candidate) = Ok candidate;
  ct_open : open_with (λ tid pin p,
    holds_candidate tid pin capabilities (change_order p.1) (change_ids candidate) p
    ∧ ∀ w, canonical candidate (in_world p w)) s;
}.

Lemma holding_ready tid pin order p w (candidate : Candidate) :
  holds_candidate tid pin capabilities order (change_ids candidate) p →
  Candidate_new (change_ids candidate) = Ok candidate →
  canonical candidate (in_world p w) → ready_to_commit candidate (in_world p w).
Proof.
  intros [[[[Hg _ _ _] Hs] _] (candidate' & Hc & _ & Hst)] Hnew Hcan. split; try done.
  intros id c Hni Hchange. assert (candidate' = candidate) as -> by congruence.
  destruct (Hst id) as (c' & Hc' & Hstate); [by apply (good_ordered _ _ (Hg w)); exists c|].
  simpl in Hchange. rewrite Hchange in Hc'. injection Hc' as <-.
  unfold candidate_contains in Hstate. by rewrite bool_decide_eq_false_2 in Hstate.
Qed.

Lemma committing_roll_back s i candidate e : committing s i candidate e → can_roll_back s.
Proof.
  intros []. apply ok_can_roll_back; [done|]. unfold settled_phase. by rewrite ct_phase0.
Qed.

Lemma keeps_failure message s :
  can_roll_back s →
  wp (_ ← summarize message; _ ← rollback_after_commit_failure message; throw message)
    (λ _ : Value, session_ok) (λ _, session_ok) s.
Proof.
  intros Hs. apply wp_bind, wp_modify, wp_bind.
  eapply wp_mono; [apply wp_commit_failure| |].
  - destruct Hs as [? ? ? Hp]. split; try done. unfold phase_ok in *. simpl.
    by destruct (es_phase (ses_state s)).
  - intros [] s' [? _]. by apply wp_throw.
  - by intros e s' [? _].
Qed.

Lemma keeps_finalize s i candidate e reason :
  committing s i candidate e → ses_decision s = Some (ab_decision e) →
  verdict (ab_decision e) = Verdict_Improved →
  keeps (Coordinator.finalize episode_id candidate reason e) s.
Proof.
  intros Hc Hd Hv. unfold Coordinator.finalize. pose proof (committing_roll_back _ _ _ _ Hc) as Hrb.
  destruct (commit_authorization_of e) as [authorization|error] eqn:Hauth; [|by apply keeps_failure].
  destruct Hc as [Hs Hph Hi Hev Hids (j & tid & p & Hj & Htid & Hp & Hholds & Hcan)].
  pose proof Hholds as [[Hset _] _].
  assert (j = i) as -> by congruence.
  apply wp_bind, (wp_machine (T_Advance Finalizing)); [|done].
  intros m' (_ & _ & ->). set (s1 := set_ses_state _ s).
  apply wp_bind, wp_gets. unfold Datatypes.id.
  apply wp_bind. eapply wp_expect; [exact Hp|]. apply wp_bind, wp_on_transaction.
  eapply wp_mono; [apply wp_finalize_candidate, Hset| |].
  - intros l x [(x1 & Hcom) _]. apply wp_bind, wp_lift.
    2:{ intros error Herr. destruct (commit_id_valid _ _ Hids) as [id Hid]. congruence. }
    intros cid _. apply wp_bind, (wp_machine T_CommitCompleted).
    2:{ intros error Hno. exfalso. eapply Hno. split; [exact Hph|by split]. }
    intros m' (_ & _ & ->). apply wp_bind, wp_modify, wp_bind, wp_json_of. intros v. apply wp_ret.
    apply summary_ok. destruct Hs as [He Hin Hr _]. split; try done.
    unfold phase_ok. simpl. exists i, candidate, e, authorization, (kernel x, trace x).
    split; try done. intros w. exists (in_world p (ses_world s1)), x1.
    split; [by apply committed_any_world|]. by eapply holding_ready.
  - intros error x [Hg Hx].
    assert (session_ok (after_operation s1 x)) as Hs2.
    { apply (session_ok_step s); try done. unfold phase_ok. simpl. rewrite Hph.
      exists i, tid, (kernel x, trace x). split_and!; try done. destruct Hset as [Hopen _].
      by apply (port_open_extends _ _ _ p (in_world p (ses_world s1)) x (ses_world s1)). }
    case_bool_decide; cbv zeta; [by apply wp_recover|].
    apply keeps_failure, ok_can_roll_back; [done|]. unfold settled_phase. simpl. by rewrite Hph.
Qed.

Lemma changes_in_order_ids (x : Sys W T) :
  good x → cr_change_id <$> changes_in_order (kernel x) = change_order (kernel x).
Proof.
  intros Hg. unfold changes_in_order.
  assert (∀ id, id ∈ change_order (kernel x) → is_Some (changes (kernel x) !! id)) as Hknown
    by (intros; by apply good_known).
  induction (change_order (kernel x)) as [|id ids IH]; [done|]. csimpl.
  destruct (Hknown id) as [c Hc]; [by left|]. rewrite Hc. csimpl.
  rewrite IH by (intros; apply Hknown; by right). f_equal. by eapply good_id.
Qed.

Lemma wp_canonical requested p (Q : Candidate → EpisodeSession → Prop)
    (R : string → EpisodeSession → Prop) s :
  ses_transaction s = Some p → (∀ w, good (in_world p w)) →
  (∀ candidate, Candidate_new (change_ids candidate) = Ok candidate →
     (∀ w, canonical candidate (in_world p w)) → Q candidate s) →
  (∀ e, R e s) →
  wp (canonical_candidate requested) Q R s.
Proof.
  intros Hp Hg HQ HR. unfold canonical_candidate. apply wp_bind, wp_gets. unfold id. rewrite Hp.
  apply wp_bind, wp_lift; [|done]. intros p' [= <-]. cbv zeta.
  apply wp_bind, wp_lift; [|done]. intros _ _.
  apply wp_bind, wp_lift; [|done]. intros _ _.
  apply wp_bind, wp_lift; [|done]. intros ids Hids%collect_result_Ok.
  apply wp_lift; [|done]. intros candidate Hc.
  assert (ids = base.filter (λ id, id ∈ (list_to_set requested : gset ChangeId))
    (cr_change_id <$> changes_in_order p.1)) as ->.
  { etrans; [|symmetry; etrans; [apply list_filter_fmap|f_equal; by apply list_filter_iff]].
    clear -Hids. induction Hids as [|c id l l' H _ IH]; [done|]. csimpl.
    case_bool_decide; [done|]. injection H as <-. by rewrite IH. }
  assert (cr_change_id <$> changes_in_order p.1 = change_order p.1) as Ho
    by apply (changes_in_order_ids (in_world p (ses_world s))), Hg.
  rewrite Ho in Hc. pose proof Hc as (_ & _ & Hids' & _)%Candidate_new_Ok.
  apply HQ; [by rewrite Hids'|]. intros w. unfold canonical. rewrite Hids'. symmetry.
  apply list_filter_in_filter.
Qed.

(** The evaluation of the open transaction. *)
Lemma wp_call_evaluate protocol p evaluation_context i candidate tid
    (Q : result EvaluationError AbEvaluationEvidence → EpisodeSession → Prop)
    (R : string → EpisodeSession → Prop) s :
  port_settled tid (intent_pin_of i) capabilities p →
  sample_count (contract_sampling (intent_contract i)) ≠ 0 →
  (∀ r p' w trace, port_open tid (intent_pin_of i) capabilities p' →
    (∀ e, r = Ok e →
       holds_candidate tid (intent_pin_of i) capabilities (change_order p.1) (change_ids candidate) p'
       ∧ evaluated protocol evaluation_context i candidate e (calls trace)) →
    Q r (set_ses_evaluation trace (set_ses_world w (set_ses_transaction (Some p') s)))) →
  wp (call_evaluate protocol p evaluation_context i candidate) Q R s.
Proof.
  intros Hset Hn HQ.
  pose proof (drives_evaluate kernel_port
    (PortSpec0 := kernel_port_spec tid (intent_pin_of i) capabilities (change_order p.1))
    protocol evaluation_context i candidate p (conj Hset eq_refl) Hn (MkEval p (ses_world s) [])
    eq_refl) as Hw.
  unfold wp, call_evaluate in *.
  destruct (evaluate protocol kernel_port evaluation_context i candidate _) as [[e|e|] x].
  - destruct Hw as (new & Ht & d & _ & _ & Hok & Hrep & Hev). rewrite !app_nil_r in *.
    apply HQ; [exact Hok|]. intros e' [= <-]. simpl in Ht. by rewrite Ht.
  - destruct Hw as (new & _ & Hok & _). apply HQ; [exact Hok|done].
  - done.
Qed.

Lemma committing_state s i candidate e step m' :
  committing s i candidate e → accepted (T_Advance step) (ses_state s) m' →
  committing (set_ses_state m' s) i candidate e.
Proof.
  intros [Hs Hph Hi Hev Hc Ho] (_ & _ & Hm).
  assert (es_phase m' = CommitPending ∧ es_intent m' = es_intent (ses_state s)
    ∧ es_episode_id m' = es_episode_id (ses_state s)
    ∧ es_transaction_id m' = es_transaction_id (ses_state s)) as (H1 & H2 & H3 & H4) by by rewrite Hm.
  assert (open_with (λ tid pin p,
    holds_candidate tid pin capabilities (change_order p.1) (change_ids candidate) p
    ∧ ∀ w, canonical candidate (in_world p w)) (set_ses_state m' s)) as Ho'.
  { destruct Ho as (j & tid & p & ? & ? & ? & ?). exists j, tid, p. simpl.
    split; [congruence|]. split; [congruence|]. by split. }
  split; simpl; try done; [|congruence].
  apply (session_ok_step s); try done. unfold phase_ok. simpl. rewrite H1.
  destruct Ho' as (j & tid & p & ? & ? & ? & [[[] _] _] & _). by exists j, tid, p.
Qed.

Lemma keeps_advance steps s i candidate e (Q : unit → EpisodeSession → Prop) :
  committing s i candidate e → (∀ s', committing s' i candidate e → Q tt s') →
  wp (for_each (λ step, machine (advance_commit step)) steps) Q (λ _, session_ok) s.
Proof.
  intros Hc HQ. apply (wp_for_each (λ _ s, committing s i candidate e)); [done| |done].
  intros pre step post s' _ Hc'. apply (wp_machine (T_Advance step)).
  - intros m' Ha. by eapply committing_state.
  - intros error _. apply Hc'.
Qed.

(** After the evaluation: the decision is recorded and acted on. *)
Lemma keeps_verdict s i candidate e reason :
  committing s i candidate e →
  keeps (_ ← modify (set_ses_decision (Some (ab_decision e)));
    match verdict (ab_decision e) with
    | Verdict_Improved => Coordinator.finalize episode_id candidate reason e
    | verdict =>
      let message := "candidate was not committed: " +:+ EvaluationVerdict_debug verdict in
      _ ← summarize message;
      _ ← rollback_after_commit_failure message;
      s ← gets id;
      evaluation ← json_of e;
      mret (json_object
        [("committed", json_bool false);
         ("reason", json_string reason);
         ("evaluation", evaluation);
         ("phase", json_string (EpisodePhase_name (es_phase (ses_state s))))])
    end) s.
Proof.
  intros Hc. apply wp_bind, wp_modify. set (s1 := set_ses_decision _ s).
  assert (committing s1 i candidate e) as Hc1.
  { destruct Hc as [Hs Hph Hi Hev Hcd Ho]. split; try done.
    apply (session_ok_step s); try done. pose proof (so_phase _ Hs) as Hp. unfold phase_ok in *.
    simpl. by rewrite Hph in *. }
  destruct (verdict (ab_decision e)) eqn:Hv; [by eapply keeps_finalize| | |]; cbv zeta;
    (apply wp_bind, wp_modify, wp_bind; eapply wp_mono;
      [apply wp_commit_failure|intros [] s2 [Hs2 _]; apply wp_bind, wp_gets, wp_bind, wp_json_of;
         intros v; by apply wp_ret|by intros error s2 [? _]]);
    (apply ok_can_roll_back; [apply summary_ok, Hc1|]);
    unfold settled_phase; simpl; by rewrite (ct_phase _ _ _ _ Hc).
Qed.

Lemma keeps_request_commit ids reason s :
  session_ok s → keeps (request_commit episode_id evaluation_timeout capabilities ids reason) s.
Proof.
  intros Hs. unfold request_commit.
  apply wp_bind, wp_action; [|done]. intros [Hact Hph].
  pose proof (so_phase _ Hs) as Hp. unfold phase_ok in Hp. rewrite Hph in Hp.
  destruct Hp as (i & tid & p & Hi & Htid & Hp & Hset).
  apply wp_bind, (wp_canonical _ p); [done|apply Hset| |done]. intros candidate Hcand Hcanon.
  apply wp_bind, (wp_machine (T_RequestCommit _)); [|done].
  intros m1 (_ & _ & _ & _ & Hm1). set (s1 := set_ses_state m1 s).
  assert (session_ok s1) as Hs1.
  { apply (session_ok_step s); subst m1; try done. exists i, tid, p. by destruct Hset. }
  apply wp_bind, (wp_machine (T_Advance RestoringBaseline)); [|done].
  intros m2 (_ & _ & Hm2). set (s2 := set_ses_state m2 s1).
  assert (session_ok s2) as Hs2.
  { apply (session_ok_step s1); subst m1 m2; try done. exists i, tid, p. by destruct Hset. }
  assert (es_phase m2 = CommitPending ∧ es_intent m2 = Some i ∧ es_transaction_id m2 = Some tid)
    as (Hph2 & Hi2 & Htid2) by by rewrite Hm2; simpl; rewrite Hm1.
  apply wp_bind, wp_context; [intros op|intros e; by apply (session_ok_same s2)].
  set (s3 := set_next_operation _ s2). assert (session_ok s3) as Hs3 by by apply (session_ok_same s2).
  apply wp_bind, wp_gets. apply wp_bind, wp_lift; [|done]. intros i' Hi'%ok_or_Ok.
  assert (i' = i) as -> by (unfold Datatypes.id in Hi'; simpl in Hi'; congruence).
  apply wp_bind, wp_outcome; [apply protocol_new_no_panic| |done]. intros protocol Hprotocol.
  apply wp_bind, wp_lift; [|done]. intros p' Hp'%ok_or_Ok.
  assert (p' = p) as -> by (unfold Datatypes.id in Hp'; simpl in Hp'; congruence).
  apply wp_bind, (wp_call_evaluate _ _ _ _ _ tid); [done| |].
  { apply contract_samples. by destruct (so_intent _ Hs i Hi) as [_ []]. }
  intros r p' w tr Hopen Hok. set (s4 := set_ses_evaluation _ _).
  assert (session_ok s4) as Hs4.
  { apply (session_ok_step s3); try done. unfold phase_ok. simpl. rewrite Hph2.
    by exists i, tid, p'. }
  destruct r as [e|error].
  - destruct (Hok e eq_refl) as [Hholds Hev]. pose proof Hholds as [[_ Ho] _].
    assert (committing s4 i candidate e) as Hc.
    { split; [done|done|done|by exists protocol, (MkInvocationContext episode_id op)|done|].
      exists i, tid, p'. split_and!; [done..|by rewrite Ho|].
      intros w'. unfold canonical. simpl. rewrite Ho. apply (Hcanon w'). }
    apply wp_bind, (keeps_advance _ _ i candidate e); [done|]. intros s5 Hc5.
    by eapply keeps_verdict.
  - cbv zeta. apply wp_bind, wp_modify, wp_bind. eapply wp_mono; [apply wp_commit_failure| |].
    + apply ok_can_roll_back; [by apply summary_ok|]. unfold settled_phase. simpl. by rewrite Hph2.
    + intros [] s5 [Hs5 _]. case_bool_decide; cycle 1.
      { by apply wp_bind, wp_ret, wp_throw. }
      apply wp_bind, wp_bind. eapply (wp_machine_ok T_RequireRecovery); [done|].
      apply wp_modify, wp_throw. by apply summary_ok, recovery_ok.
    + by intros error' s5 [? _].
Qed.
End Safety.
