(* ===== verification/EpisodeSafety.v ===== *)
(** * What an episode can leave behind

    The runs of an episode session: commands of the agent in any order, a world
    that moves between them, a reasoner that fails at any point, and the cleanup
    at the end.  However the episode goes, it ends clean, committed or marked for
    recovery; every transaction it gave up is rolled back; and a commit rests on
    evidence that improved. *)

From S2P Require Export SessionSafety.

Open Scope Z_scope.

Section Episodes.
Context `{JD : JsonData, !Serialize Value, !Serialize (list ChangeId), !Sha256}.
Context `{!Serialize MetricBatch, !Serialize CleanupReceipt, !Serialize ComparisonEvidence,
  !Serialize ContractPayload, !Serialize IntentDigestPayload, !Serialize EvaluationDecision,
  !Serialize AbEvaluationEvidence, !Serialize AuthorizationPayload,
  !ToValue ProbeEvidence, !ToValue AbEvaluationEvidence}.
Context {W T : Type} `{!TransactionWal T, !WalLaws T, !TransactionStore W T, !Clock W}.
Context `{!TransactionStoreLaws W T, !Sha256Laws}.
Context (episode_id : EpisodeId) (evaluation_timeout : Z) (capabilities : CapabilitySnapshot W).

Abbreviation session := (EpisodeSession (W := W) (T := T)).
Abbreviation run_command := (execute episode_id evaluation_timeout capabilities).

(** The states of an episode session. *)
Inductive session_run : session → Prop :=
  | session_start w : session_run (EpisodeSession_new episode_id w)
  | session_execute s command invocation r s' :
      session_run s → run_command command invocation s = (r, s') → session_run s'
  | session_world s w : session_run s → session_run (set_ses_world w s)
  | session_fails s reason r s' : session_run s → fail_closed reason s = (r, s') → session_run s'
  | session_summarized s message : session_run s → session_run (set_summary message s).

Hypothesis snapshot_spec : SnapshotSpec capabilities.
Hypothesis episode_range : 0 <= episode_id <= u64_max.
Hypothesis evidence_encodes : ∀ e : AbEvaluationEvidence, ∃ v, to_value e = Ok v.

Abbreviation ok := (session_ok episode_id evaluation_timeout capabilities).

Lemma new_session_ok w : ok (EpisodeSession_new episode_id w : session).
Proof. by split. Qed.

Lemma execute_ok command invocation (s : session) :
  ok s → wp (run_command command invocation) (λ _, ok) (λ _ _, False) s.
Proof.
  intros Hs. unfold execute. apply wp_bind, wp_attempt.
  destruct command; (apply (wp_mono _ _ (λ _, ok) _ (λ _, ok));
    [|intros v s' Hs'; by apply wp_ret|intros v s' Hs'; by apply wp_ret]).
  - by apply keeps_probe.
  - by apply keeps_begin_experiment.
  - by apply keeps_mutate.
  - by apply keeps_request_commit.
  - by apply keeps_abort.
Qed.

Lemma stop_reasoning_ok (s : session) m' :
  ok s → accepted T_StopReasoning (ses_state s) m' → ok (set_ses_state m' s).
Proof.
  intros Hs Ha. simpl in Ha.
  destruct (bool_decide (es_lifecycle (ses_state s) = Active)); subst m'; [|by rewrite set_ses_state_same].
  apply (session_ok_step _ _ _ s); try done. pose proof (so_phase _ _ _ _ Hs) as Hp.
  unfold phase_ok, open_with in *. simpl. destruct (es_phase (ses_state s)); try done.
  destruct Hp as (i & c & e & a & p & []). by exists i, c, e, a, p.
Qed.

Lemma fail_closed_ok reason (s : session) :
  ok s → wp (fail_closed reason) (λ _, ok) (λ _ _, False) s.
Proof.
  intros Hs. unfold fail_closed. apply wp_bind, wp_modify, (wp_machine T_StopReasoning).
  - intros m' Ha. apply stop_reasoning_ok; [by apply summary_ok|done].
  - intros e Hno. eapply Hno. reflexivity.
Qed.

Lemma session_run_ok (s : session) : session_run s → ok s.
Proof.
  induction 1 as [w|s command invocation r s' _ IH Hr|s w _ IH|s reason r s' _ IH Hr|s message _ IH].
  - apply new_session_ok.
  - pose proof (execute_ok command invocation s IH) as Hw. unfold wp in Hw. rewrite Hr in Hw.
    by destruct r.
  - by apply world_ok.
  - pose proof (fail_closed_ok reason s IH) as Hw. unfold wp in Hw. rewrite Hr in Hw. by destruct r.
  - by apply summary_ok.
Qed.

Lemma settle_session_ok (s : session) :
  ok s → wp settle_session
    (λ _ s', ok s' ∧ (es_phase (ses_state s') = Clean ∧ es_lifecycle (ses_state s') = Finished ∨ es_phase (ses_state s') = Committed
                      ∨ es_phase (ses_state s') = RecoveryRequired))
    (λ _ _, False) s.
Proof.
  intros Hs. unfold settle_session. apply wp_bind, wp_gets. cbv zeta. unfold id.
  destruct (bool_decide_reflect (es_phase (ses_state s) = Committed)) as [Hc|Hc]; simpl.
  { apply wp_ret. auto. }
  destruct (bool_decide_reflect (es_phase (ses_state s) = RecoveryRequired)) as [Hr|Hr].
  { apply wp_ret. auto. }
  assert (∀ message (s1 : session), ok s1 →
    wp (_ ← recovery_required; summarize message)
      (λ _ s', ok s' ∧ (es_phase (ses_state s') = Clean ∧ es_lifecycle (ses_state s') = Finished ∨ es_phase (ses_state s') = Committed
                        ∨ es_phase (ses_state s') = RecoveryRequired)) (λ _ _, False) s1) as Hrec.
  { intros message s1 Hs1. apply wp_bind. eapply (wp_machine_ok T_RequireRecovery); [done|].
    apply wp_modify. split; [by apply summary_ok, recovery_ok|auto]. }
  apply wp_bind, wp_attempt. eapply wp_mono; [by apply wp_rollback_open, ok_can_roll_back| |].
  2:{ intros e s1 [Hs1 _]. by apply Hrec. }
  intros [] s1 (Hs1 & Hph & _). apply wp_bind, wp_attempt, (wp_machine T_FinishClean).
  - intros m' (_ & H1 & H2 & H3 & ->). apply wp_ret. split; [|by left].
    apply (session_ok_step _ _ _ s1); try done. pose proof (so_phase _ _ _ _ Hs1) as Hp.
    unfold phase_ok in *. simpl. rewrite Hph in *. by destruct Hp.
  - intros e _. by apply Hrec.
Qed.

(** C1. In every state of an episode session each command of the agent ends with a
    result for it, never with a panic; and the cleanup always leaves the episode
    clean, committed or marked for recovery: clean with no transaction, and in
    any case with every transaction that was given up sealed as rolled back and
    each of its changes read back at the baseline. *)
Theorem episodes_end_safely (s : session) command invocation :
  session_run s →
  (∃ result s', run_command command invocation s = (Ret result, s'))
  ∧ ∃ s', settle_session s = (Ret tt, s') ∧ Forall rolled_back_transaction (ses_retired s')
      ∧ match es_phase (ses_state s') with
        | Clean => ses_transaction s' = None ∧ es_lifecycle (ses_state s') = Finished
        | Committed => ∃ i candidate e authorization p,
            commit_record evaluation_timeout capabilities s' i candidate e authorization p
        | RecoveryRequired => True
        | _ => False
        end.
Proof.
  intros Hs%session_run_ok. split.
  - pose proof (execute_ok command invocation s Hs) as Hw. unfold wp in Hw.
    destruct (run_command command invocation s) as [[r|e|] s']; [by eauto|done..].
  - pose proof (settle_session_ok s Hs) as Hw. unfold wp in Hw.
    destruct (settle_session s) as [[[]|e|] s'] eqn:Hset; [|done..].
    destruct Hw as [Hs' Hph]. exists s'. split_and!; [done|apply Hs'|].
    pose proof (so_phase _ _ _ _ Hs') as Hp. unfold phase_ok in Hp.
    destruct Hph as [[Hph Hf]|[Hph|Hph]]; rewrite Hph in *; [|done|done]. split; [apply Hp|done].
Qed.

(** C2. A session that committed did so for the candidate of an evaluation made
    under its frozen intent, whose verdict was Improved and which authorized it;
    the commit record under that authorization is the last entry of the log and
    every change of the transaction is finalized if it is of the candidate and
    rolled back otherwise; and whatever part of the process is lost afterwards,
    recovery from the log gives the same committed transaction. *)
Theorem commits_are_earned_and_durable (s : session) (t : T) :
  session_run s → es_phase (ses_state s) = Committed →
  ∃ i candidate e authorization p protocol evaluation_context,
    es_intent (ses_state s) = Some i ∧ ses_transaction s = Some p
    ∧ ses_decision s = Some (ab_decision e) ∧ verdict (ab_decision e) = Verdict_Improved
    ∧ evaluated protocol evaluation_context i candidate e (calls (ses_evaluation s))
    ∧ ap_capabilities protocol = capabilities
    ∧ auth_intent_pin authorization = intent_pin_of i
    ∧ auth_candidate_digest authorization = candidate_digest candidate
    ∧ content_digest e = Ok (auth_evaluation_evidence_digest authorization)
    ∧ (∃ es entry changes, durable (wal p.1) = es ++ [entry]
         ∧ event entry = CommitSealed authorization changes)
    ∧ (wal_ok t → durable t = durable (wal p.1) → Z.of_nat (length (durable t)) <= u64_max →
       ∃ k, recover (transaction_id p.1) (intent_pin p.1) (Kernel.capabilities p.1) t = Ret k
         ∧ sealed k = Some Seal_Committed ∧ commit_authorization k = Some authorization
         ∧ Kernel.changes k = Kernel.changes p.1 ∧ change_order k = change_order p.1).
Proof.
  intros Hs%session_run_ok Hph. pose proof (so_phase _ _ _ _ Hs) as Hp. unfold phase_ok in Hp.
  rewrite Hph in Hp.
  destruct Hp as (i & candidate & e & authorization & p & [Hi Hpt Hd Hv Hev Ha Hcom]).
  destruct Hev as (protocol & evaluation_context & Hnew & Hev).
  apply commit_authorization_Ok in Ha as (_ & _ & Hpin & Hcd & _ & Hed).
  destruct (Hcom (ses_world s)) as (x0 & x1 & Hco & [Hset Hcn Hcan Hoth]).
  exists i, candidate, e, authorization, p, protocol, evaluation_context. split_and!; try done.
  - by apply protocol_new_Ret in Hnew as (_ & -> & _).
  - by rewrite Hpin, (ev_intent _ _ _ _ _ _ Hev).
  - by rewrite Hcd, (ev_candidate _ _ _ _ _ _ Hev).
  - pose proof (co_log _ _ _ _ _ Hco) as Hlog. by eexists _, _, _.
  - intros Ht Hdt Hlen.
    apply (recover_committed candidate authorization x0 x1 (in_world p (ses_world s)) t); done.
Qed.
End Episodes.
