(* ===== verification/Skills.v ===== *)
(** * Skills ([tuning_agent/src/skill/model.rs], [catalog.rs], [session.rs])

    Skill metadata with its validation, the immutable snapshot of packages, the
    catalog shown to the agent under a character budget, and the session that
    loads skills and their references for the agent. *)

From S2P Require Export Coordinator Config.

Local Open Scope nat_scope.

(** ** Metadata ([model.rs]) *)

Record SkillMeta := MkSkillMeta {
  skill_name : string;
  skill_description : string;
  license : option string;
  compatibility : option string;
  skill_metadata : gmap string string;
  allowed_tools : option string;
}.

Definition hyphen : ascii := "045"%char.
Definition is_lower_or_digit (a : ascii) : bool := byte_in 97 122 a || byte_in 48 57 a.

(** [name.contains("--")]. *)
Fixpoint double_hyphen (l : list ascii) : bool :=
  match l with
  | a :: (b :: _) as rest => bool_decide (a = hyphen ∧ b = hyphen) || double_hyphen rest
  | _ => false
  end.

Definition validate_skill_name (name : string) : result string unit :=
  let bytes := String.list_ascii_of_string name in
  reject (bool_decide (name = "") || bool_decide (64 < length bytes)
          || bool_decide (head bytes = Some hyphen) || bool_decide (last bytes = Some hyphen)
          || double_hyphen bytes
          || negb (forallb (λ a, is_lower_or_digit a || bool_decide (a = hyphen)) bytes))
    ("skill name '" +:+ name
     +:+ "' must contain 1-64 lowercase ASCII letters, digits, or single hyphens").

Definition validate_optional_text (skill field : string) (value : option string) (max_chars : nat)
    : result string unit :=
  match value with
  | None => Ok tt
  | Some value =>
    let n := length (chars value) in
    reject (bool_decide (n = 0) || bool_decide (max_chars < n) || existsb is_control (chars value))
      ("skill '" +:+ skill +:+ "' field '" +:+ field +:+ "' must contain between 1 and "
       +:+ show (Z.of_nat max_chars) +:+ " non-control characters")
  end.

Definition validate_entry (skill : string) (entry : string * string) : result string unit :=
  let '(key, value) := entry in
  reject (bool_decide (key = "") || bool_decide (256 < String.length key)
          || has_surrounding_whitespace key || existsb is_control (chars key)
          || bool_decide (Z.to_nat 4096 < String.length value) || existsb is_control (chars value))
    ("skill '" +:+ skill +:+ "' contains invalid metadata entry '" +:+ key +:+ "'").

Definition SkillMeta_validate (m : SkillMeta) (directory_name : string) : result string unit :=
  let name := skill_name m in
  let description_chars := length (chars (skill_description m)) in
  _ ← validate_skill_name name;
  _ ← reject (bool_decide (name ≠ directory_name))
        ("skill name '" +:+ name +:+ "' must match parent directory '" +:+ directory_name +:+ "'");
  _ ← reject (bool_decide (description_chars = 0) || bool_decide (Z.to_nat 1024 < description_chars))
        ("skill '" +:+ name +:+ "' description must contain between 1 and 1024 characters");
  _ ← reject (existsb is_control (chars (skill_description m)))
        ("skill '" +:+ name +:+ "' description must not contain control characters");
  _ ← validate_optional_text name "license" (license m) (Z.to_nat 4096);
  _ ← validate_optional_text name "compatibility" (compatibility m) 500;
  _ ← validate_optional_text name "allowed-tools" (allowed_tools m) (Z.to_nat 4096);
  fold_result (λ _ entry, validate_entry name entry) tt (in_key_order (skill_metadata m)).

(** ** Packages and snapshots ([model.rs]) *)

Record ReferenceDocument := MkReference {
  reference_path : string; content : string; byte_len : Z; reference_digest : Digest }.

Record SkillPackage := MkPackage {
  package_meta : SkillMeta;
  source_path : string;
  instructions : string;
  references : gmap string ReferenceDocument;
  allow_implicit_invocation : bool;
  package_digest : Digest;
}.

Definition logical_path (p : SkillPackage) : string :=
  "skill://" +:+ skill_name (package_meta p) +:+ "/SKILL.md".

Record SkillSnapshot := MkSkillSnapshot {
  packages : gmap string SkillPackage; skills_digest : Digest }.

Definition SkillSnapshot_new `{!Serialize (list (string * string)), !Sha256}
    (packages : gmap string SkillPackage) : result string SkillSnapshot :=
  digest ← content_digest ((λ p, (p.1, as_str (package_digest p.2))) <$> in_key_order packages);
  Ok (MkSkillSnapshot packages digest).

Definition skill_get (s : SkillSnapshot) (name : string) : option SkillPackage := packages s !! name.

Inductive SkillCommand :=
  | LoadSkill (name : string)
  | LoadReference (skill path : string).

(** ** The catalog ([catalog.rs]) *)

(** The first [n] characters. *)
Definition take_chars (n : nat) (s : string) : string :=
  String.concat "" (take n (chars_with_bytes s)).*2.

Definition truncate_chars (value : string) (limit : nat) : string :=
  if bool_decide (length (chars value) ≤ limit) then value
  else if bool_decide (limit ≤ 3) then take_chars limit value
  else take_chars (limit - 3) value +:+ "...".

Section Catalog.
Context `{JD : JsonData, !Serialize (list Value)}.

Record SkillCatalogView := MkCatalogView {
  catalog_entries : list Value; truncated : bool; omitted : Z }.

Definition candidate_entry (description_limit : nat) (candidate : SkillPackage * bool) : Value :=
  let meta := package_meta candidate.1 in
  json_object
    [("name", json_string (skill_name meta));
     ("description", json_string (truncate_chars (skill_description meta) description_limit));
     ("path", json_string (logical_path candidate.1))].

Definition render (candidates : list (SkillPackage * bool)) (description_limit : nat) : list Value :=
  candidate_entry description_limit <$> candidates.

Definition encoded_chars (entries : list Value) : result string Z :=
  encoded ← map_err (λ error, "failed to encode skill catalog: " +:+ error) (to_vec entries);
  Ok (Z.of_nat (length (chars encoded))).

(** [for limit in [512, 256, 128, 64]]: shorter descriptions until the catalog fits. *)
Fixpoint shorten_descriptions (candidates : list (SkillPackage * bool)) (max_chars : Z)
    (description_limit : nat) (limits : list nat) : result string nat :=
  match limits with
  | [] => Ok description_limit
  | limit :: limits =>
    n ← encoded_chars (render candidates description_limit);
    if (n <=? max_chars)%Z then Ok description_limit
    else shorten_descriptions candidates max_chars limit limits
  end.

(** [candidates.remove] at the last candidate that is not explicit. *)
Fixpoint drop_last_implicit (candidates : list (SkillPackage * bool))
    : option (list (SkillPackage * bool)) :=
  match candidates with
  | [] => None
  | c :: candidates =>
    match drop_last_implicit candidates with
    | Some rest => Some (c :: rest)
    | None => if c.2 then None else Some candidates
    end
  end.

(** The [while] loop; each turn drops a candidate. *)
Fixpoint omit_candidates (fuel : nat) (max_chars : Z) (description_limit : nat)
    (candidates : list (SkillPackage * bool)) : result string (list (SkillPackage * bool)) :=
  n ← encoded_chars (render candidates description_limit);
  if (n <=? max_chars)%Z then Ok candidates else
  match fuel, drop_last_implicit candidates with
  | S fuel, Some candidates => omit_candidates fuel max_chars description_limit candidates
  | _, _ => Err ("explicit skill metadata exceeds the configured " +:+ show max_chars
                 +:+ " character catalog limit")
  end.

Definition catalog_candidates (snapshot : SkillSnapshot) (explicit : gset string)
    : list (SkillPackage * bool) :=
  ((λ package, (package, true)) <$> omap (skill_get snapshot) (names_in_order explicit))
  ++ ((λ package, (package, false)) <$>
      base.filter (λ package, allow_implicit_invocation package = true
                     ∧ skill_name (package_meta package) ∉ explicit)
        (values_in_order (packages snapshot))).

Definition SkillCatalogView_build (snapshot : SkillSnapshot) (explicit : gset string) (max_chars : Z)
    : result string SkillCatalogView :=
  let candidates := catalog_candidates snapshot explicit in
  description_limit ← shorten_descriptions candidates max_chars (Z.to_nat 1024) [512; 256; 128; 64];
  kept ← omit_candidates (length candidates) max_chars description_limit candidates;
  let omitted := Z.max (Z.of_nat (length candidates) - Z.of_nat (length kept)) 0 in
  Ok (MkCatalogView (render kept description_limit)
        (bool_decide (description_limit < Z.to_nat 1024) || (0 <? omitted)%Z) omitted).
End Catalog.

(** ** The session ([session.rs]) *)

Section SkillSession.
Context `{JD : JsonData, !Serialize (list Value)}.

(** [audit_data] is the object with these fields. *)
Record SkillExecution := MkExecution {
  execution_result : AgentToolResult;
  audit_event : string;
  audit_data : list (string * Value);
}.

Record SkillSession := MkSkillSession {
  skills : SkillSnapshot;
  explicit : gset string;
  loaded : gset string;
  loaded_references : gset (string * string);
  skill_limits : SkillConfig;
}.

(** [activation requested ...]: the loop over the requested names. *)
Definition request_skill (snapshot : SkillSnapshot) (explicit : gset string) (name : string)
    : result string (gset string) :=
  _ ← reject (bool_decide (name ∈ explicit))
        ("activation requested duplicate skill '" +:+ name +:+ "'");
  _ ← reject (bool_decide (skill_get snapshot name = None))
        ("activation requested unavailable skill '" +:+ name +:+ "'");
  Ok ({[name]} ∪ explicit).

Definition SkillSession_new (snapshot : SkillSnapshot) (config : SkillConfig)
    (requested : list string) : result string SkillSession :=
  explicit ← fold_result (request_skill snapshot) ∅ requested;
  let n := Z.of_nat (size explicit) in
  _ ← reject (max_loaded_skills config <? n)%Z
        ("activation requested " +:+ show n +:+ " skills, exceeding the configured limit of "
         +:+ show (max_loaded_skills config));
  Ok (MkSkillSession snapshot explicit explicit ∅ config).

Definition has_available_skills (s : SkillSession) : bool :=
  negb (bool_decide (explicit s = ∅))
  || existsb allow_implicit_invocation (values_in_order (packages (skills s))).

Definition session_catalog (s : SkillSession) : result string SkillCatalogView :=
  SkillCatalogView_build (skills s) (explicit s) (max_catalog_chars (skill_limits s)).

Definition reference_entry (r : ReferenceDocument) : Value :=
  json_object
    [("path", json_string (reference_path r)); ("byte_len", json_integer (byte_len r));
     ("digest", json_string (as_str (reference_digest r)))].

Definition skill_payload (package : SkillPackage) (explicitly_loaded : bool) : Value :=
  json_object
    [("skill", json_string (skill_name (package_meta package)));
     ("path", json_string (logical_path package));
     ("digest", json_string (as_str (package_digest package)));
     ("explicitly_loaded", json_bool explicitly_loaded);
     ("instructions", json_string (instructions package));
     ("references", json_array (reference_entry <$> values_in_order (references package)))].

Definition explicit_packages (s : SkillSession) : list SkillPackage :=
  omap (skill_get (skills s)) (names_in_order (explicit s)).

Definition explicit_context (s : SkillSession) : list Value :=
  (λ package, skill_payload package true) <$> explicit_packages s.

Definition loaded_audit (package : SkillPackage) (invocation : string) : list (string * Value) :=
  [("path", json_string (logical_path package)); ("source_path", json_string (source_path package));
   ("digest", json_string (as_str (package_digest package)));
   ("invocation", json_string invocation);
   ("instruction_bytes", json_integer (Z.of_nat (String.length (instructions package))));
   ("reference_count", json_integer (Z.of_nat (size (references package))))].

Definition explicit_audit_data (s : SkillSession) : list Value :=
  (λ package, json_object (("skill", json_string (skill_name (package_meta package)))
     :: loaded_audit package "explicit")) <$> explicit_packages s.

Definition skill_failure (invocation : AgentToolInvocation) (event : string)
    (data : list (string * Value)) (error : string) : SkillExecution :=
  MkExecution (tool_failure invocation error) event (data ++ [("error", json_string error)]).

Definition load_skill (name : string) (invocation : AgentToolInvocation) (s : SkillSession)
    : SkillExecution * SkillSession :=
  let named := [("skill", json_string name)] in
  let failed := skill_failure invocation "skill_load_failed" named in
  match skill_get (skills s) name with
  | None => (failed ("skill '" +:+ name +:+ "' is unavailable"), s)
  | Some package =>
    let digest := ("digest", json_string (as_str (package_digest package))) in
    if bool_decide (name ∈ loaded s) then
      let invoked := if bool_decide (name ∈ explicit s) then "explicit" else "implicit" in
      (MkExecution (tool_success invocation
          (json_object (named ++ [("already_loaded", json_bool true); digest])))
        "skill_loaded"
        (named ++ [digest; ("invocation", json_string invoked); ("already_loaded", json_bool true)]), s)
    else if negb (allow_implicit_invocation package) then
      (failed ("skill '" +:+ name +:+ "' requires explicit invocation"), s)
    else if (Z.of_nat (size (loaded s)) =? max_loaded_skills (skill_limits s))%Z then
      (failed ("loaded skill limit of " +:+ show (max_loaded_skills (skill_limits s))
               +:+ " has been reached"), s)
    else
      (MkExecution (tool_success invocation (skill_payload package false)) "skill_loaded"
        (named ++ loaded_audit package "implicit" ++ [("already_loaded", json_bool false)]),
       MkSkillSession (skills s) (explicit s) ({[name]} ∪ loaded s) (loaded_references s) (skill_limits s))
  end.

Definition load_reference (skill path : string) (invocation : AgentToolInvocation) (s : SkillSession)
    : SkillExecution * SkillSession :=
  let named := [("skill", json_string skill); ("path", json_string path)] in
  let failed := skill_failure invocation "skill_reference_load_failed" named in
  if bool_decide (skill ∉ loaded s) then
    (failed ("skill '" +:+ skill +:+ "' must be loaded before its references"), s)
  else
    match skill_get (skills s) skill with
    | None => (failed ("skill '" +:+ skill +:+ "' is unavailable"), s)
    | Some package =>
      match references package !! path with
      | None =>
        (failed ("reference '" +:+ path +:+ "' is unavailable for skill '" +:+ skill +:+ "'"), s)
      | Some reference =>
        let digest := ("digest", json_string (as_str (reference_digest reference))) in
        let bytes := ("byte_len", json_integer (byte_len reference)) in
        if bool_decide ((skill, path) ∈ loaded_references s) then
          (MkExecution (tool_success invocation
              (json_object (named ++ [("already_loaded", json_bool true); digest])))
            "skill_reference_loaded" (named ++ [digest; ("already_loaded", json_bool true)]), s)
        else if (Z.of_nat (size (loaded_references s)) =? max_reference_reads (skill_limits s))%Z then
          (failed ("skill reference read limit of " +:+ show (max_reference_reads (skill_limits s))
                   +:+ " has been reached"), s)
        else
          (MkExecution (tool_success invocation
              (json_object (named ++ [("already_loaded", json_bool false); digest; bytes;
                                      ("content", json_string (content reference))])))
            "skill_reference_loaded" (named ++ [digest; bytes; ("already_loaded", json_bool false)]),
           MkSkillSession (skills s) (explicit s) (loaded s)
             ({[(skill, path)]} ∪ loaded_references s) (skill_limits s))
      end
    end.

(** [SkillSession::execute]. *)
Definition skill_execute (command : SkillCommand) (invocation : AgentToolInvocation) (s : SkillSession)
    : SkillExecution * SkillSession :=
  match command with
  | LoadSkill name => load_skill name invocation s
  | LoadReference skill path => load_reference skill path invocation s
  end.
End SkillSession.
