(* ===== verification/SkillSafety.v ===== *)
(** * What skills can and cannot do

    A skill name is accepted exactly when it has the pattern the tool schemas
    announce, the catalog fits its budget and leaves out as little as it can, and
    a session never loads more than it is allowed to or anything it does not have. *)

From S2P Require Export Skills.

Local Open Scope nat_scope.

(** ** Names *)

(** [^[a-z0-9]+(?:-[a-z0-9]+)*$]: words of lower case letters and digits, joined by
    single hyphens. *)
Definition name_word (w : list ascii) : Prop := w ≠ [] ∧ Forall (λ a, is_lower_or_digit a = true) w.
Fixpoint join_words (ws : list (list ascii)) : list ascii :=
  match ws with
  | [] => []
  | [w] => w
  | w :: ws => w ++ hyphen :: join_words ws
  end.

Lemma hyphen_not_word : is_lower_or_digit hyphen = false.
Proof. by vm_compute. Qed.

(** The guards of [validate_skill_name], without the length. *)
Record well_hyphened (l : list ascii) : Prop := {
  wh_nonempty : l ≠ [];
  wh_head : head l ≠ Some hyphen;
  wh_last : last l ≠ Some hyphen;
  wh_single : double_hyphen l = false;
  wh_chars : Forall (λ a, is_lower_or_digit a = true ∨ a = hyphen) l;
}.

Lemma double_hyphen_cons a l :
  double_hyphen (a :: l) = false ↔ ¬ (a = hyphen ∧ head l = Some hyphen) ∧ double_hyphen l = false.
Proof.
  destruct l as [|b l]; [simpl; naive_solver|]. change (double_hyphen (a :: b :: l))
    with (bool_decide (a = hyphen ∧ b = hyphen) || double_hyphen (b :: l)).
  rewrite orb_false_iff, bool_decide_eq_false. simpl. naive_solver.
Qed.

(** Behind a word character the rest is empty, a longer word or a new word. *)
Lemma well_hyphened_cons a l :
  well_hyphened (a :: l) ↔
  is_lower_or_digit a = true
  ∧ (l = [] ∨ well_hyphened l ∨ ∃ l', l = hyphen :: l' ∧ well_hyphened l').
Proof.
  pose proof hyphen_not_word as Hh. split.
  - intros [_ Hhd Hlast Hs Hc]. rewrite double_hyphen_cons in Hs. destruct Hs as [_ Hs].
    apply Forall_cons in Hc as [Ha Hc]. simpl in Hhd.
    split; [destruct Ha as [ | -> ]; [done|by destruct Hhd]|].
    destruct l as [|b l]; [by left|right]. rewrite last_cons_cons in Hlast.
    destruct (decide (b = hyphen)) as [->|Hb].
    + right. exists l. split; [done|]. apply double_hyphen_cons in Hs as [Hn Hs].
      apply Forall_cons in Hc as [_ Hc].
      destruct l as [|c l]; [done|]. rewrite last_cons_cons in Hlast. split; try done. naive_solver.
    + left. split; try done. simpl. congruence.
  - intros [Ha Hl]. assert (a ≠ hyphen) as Hne by (intros ->; congruence).
    assert (head (a :: l) ≠ Some hyphen) as Hhd by (simpl; congruence).
    destruct Hl as [-> | [ [H1 H2 H3 H4 H5] | (l' & -> & [H1 H2 H3 H4 H5])] ].
    + split; [done|done|simpl; congruence|done|repeat constructor; auto].
    + split; [done|done| | |constructor; auto].
      * destruct l; [done|by rewrite last_cons_cons].
      * apply double_hyphen_cons. naive_solver.
    + split; [done|done| | |constructor; [|constructor]; auto].
      * destruct l'; [done|by rewrite !last_cons_cons].
      * apply double_hyphen_cons. split; [naive_solver|]. apply double_hyphen_cons. naive_solver.
Qed.

Lemma join_words_nonempty ws : ws ≠ [] → Forall name_word ws → join_words ws ≠ [].
Proof.
  intros Hws Hf. destruct Hf as [|w ws [Hw _] _]; [done|].
  destruct w as [|a w]; [done|]. by destruct ws.
Qed.

Lemma well_hyphened_join l :
  well_hyphened l ↔ ∃ ws, ws ≠ [] ∧ Forall name_word ws ∧ l = join_words ws.
Proof.
  split.
  - induction l as [l IH] using (induction_ltof1 _ length). unfold ltof in IH.
    destruct l as [|a l]; [by intros []|].
    intros [Ha [->|[Hl|(l' & -> & Hl)]]]%well_hyphened_cons.
    + exists [[a]]. split_and!; [done| |done]. by repeat constructor.
    + destruct (IH l) as (ws & Hws & Hf & ->); [simpl; lia|done|].
      destruct Hf as [|w ws [Hw Hc] Hf]; [done|]. exists ((a :: w) :: ws).
      split_and!; [done| |by destruct ws]. constructor; [|done]. split; [done|by constructor].
    + destruct (IH l') as (ws & Hws & Hf & ->); [simpl; lia|done|].
      exists ([a] :: ws). split_and!; [done| |by destruct ws].
      constructor; [|done]. by repeat constructor.
  - intros (ws & Hws & Hf & ->). induction Hf as [|w ws [Hw Hc] Hf IH]; [done|].
    assert (ws ≠ [] → well_hyphened (join_words ws)) as Hrest by auto. clear IH Hws.
    assert (join_words (w :: ws) = w ++ match ws with [] => [] | _ => hyphen :: join_words ws end) as ->
      by (destruct ws; [by rewrite app_nil_r|done]).
    induction Hc as [|a w Ha Hc IH]; [done|]. simpl. apply well_hyphened_cons. split; [done|].
    destruct w as [|b w]; [|right; left; by apply IH]. simpl.
    destruct ws as [|v ws]; [by left|]. right. right. eexists. split; [done|]. by apply Hrest.
Qed.

Lemma list_ascii_length s : length (String.list_ascii_of_string s) = String.length s.
Proof. induction s as [|a s IH]; simpl; congruence. Qed.

Lemma validate_skill_name_Ok name :
  validate_skill_name name = Ok tt ↔
  String.length name ≤ 64 ∧ well_hyphened (String.list_ascii_of_string name).
Proof.
  unfold validate_skill_name. rewrite reject_Ok, !orb_false_iff, !bool_decide_eq_false, negb_false_iff,
    forallb_forall, list_ascii_length.
  assert ((∀ a, In a (String.list_ascii_of_string name) →
             is_lower_or_digit a || bool_decide (a = hyphen) = true)
          ↔ Forall (λ a, is_lower_or_digit a = true ∨ a = hyphen) (String.list_ascii_of_string name)) as ->.
  { rewrite Forall_forall. split; intros Hf a Ha.
    - apply list_elem_of_In, Hf, orb_true_iff in Ha as [|?%bool_decide_eq_true]; auto.
    - apply orb_true_iff. destruct (Hf a) as [|Ha']; [by apply list_elem_of_In|by left|].
      right. by apply bool_decide_eq_true. }
  assert (name ≠ "" ↔ String.list_ascii_of_string name ≠ []) as -> by by destruct name.
  split.
  - intros (((((? & ?) & ?) & ?) & ?) & ?). split; [lia|done].
  - intros [? [] ]. split_and!; try done. lia.
Qed.

(** The names the validator accepts are those of the pattern the tool schemas
    give the agent: at most 64 characters, words of lower case letters and digits
    joined by single hyphens. *)
Theorem skill_names_match_the_schema name :
  validate_skill_name name = Ok tt ↔
  String.length name ≤ 64
  ∧ ∃ ws, ws ≠ [] ∧ Forall name_word ws ∧ String.list_ascii_of_string name = join_words ws.
Proof. by rewrite validate_skill_name_Ok, well_hyphened_join. Qed.

(** ** The session *)

Section Session.
Context `{JD : JsonData}.
Implicit Types (s : SkillSession).

(** What a session holds is there, was allowed to be loaded, and is within the
    configured numbers. *)
Record skill_session_ok s : Prop := {
  sk_explicit : explicit s ⊆ loaded s;
  sk_loaded name : name ∈ loaded s → ∃ package, skill_get (skills s) name = Some package
    ∧ (name ∈ explicit s ∨ allow_implicit_invocation package = true);
  sk_references skill path : (skill, path) ∈ loaded_references s → skill ∈ loaded s
    ∧ ∃ package, skill_get (skills s) skill = Some package ∧ is_Some (references package !! path);
  sk_loaded_limit : (Z.of_nat (size (loaded s)) <= max_loaded_skills (skill_limits s))%Z;
  sk_reference_limit : (Z.of_nat (size (loaded_references s)) <= max_reference_reads (skill_limits s))%Z;
}.

Lemma SkillSession_new_ok snapshot config requested s :
  (0 <= max_reference_reads config)%Z → SkillSession_new snapshot config requested = Ok s →
  skill_session_ok s ∧ explicit s = list_to_set requested ∧ NoDup requested.
Proof.
  intros Hmax. unfold SkillSession_new. rewrite result_bind_Ok. intros (names & Hn & Hs).
  apply reject_bind_Ok in Hs as [Hlim%reject_Ok [= <-]]. apply Z.ltb_ge in Hlim.
  assert (names = list_to_set requested ∧ NoDup requested
          ∧ ∀ name, name ∈ names → is_Some (skill_get snapshot name)) as (-> & Hnd & Hget).
  { clear Hlim. revert names Hn. induction requested as [|name l IH] using rev_ind; intros names.
    { intros [= <-]. split_and!; [done|constructor|set_solver]. }
    rewrite fold_result_snoc, result_bind_Ok. intros (names' & Hl & Hr).
    destruct (IH names' Hl) as (-> & Hnd & Hget). unfold request_skill in Hr.
    apply reject_bind_Ok in Hr as [H1%reject_Ok Hr].
    apply reject_bind_Ok in Hr as [H2%reject_Ok [= <-]].
    apply bool_decide_eq_false in H1, H2. split_and!.
    - set_solver.
    - apply NoDup_app. split_and!; [done|set_solver|apply NoDup_singleton].
    - intros n Hn. apply elem_of_union in Hn as [->%elem_of_singleton|Hn]; [|by apply Hget].
      by apply not_eq_None_Some. }
  split; [|done]. split; simpl; [done| |set_solver|lia|exact Hmax].
  intros name Hname. destruct (Hget name Hname) as [package Hp]. eauto.
Qed.

Lemma skill_execute_ok command invocation s :
  skill_session_ok s → skill_session_ok (skill_execute command invocation s).2.
Proof.
  intros Hs. pose proof Hs as [H1 H2 H3 H4 H5]. destruct command as [name|skill path]; simpl.
  - unfold load_skill. destruct (skill_get (skills s) name) as [package|] eqn:Hp; [|done].
    case_bool_decide as Hl; [done|].
    destruct (allow_implicit_invocation package) eqn:Hi; [|done]. simpl.
    destruct (Z.eqb_spec (Z.of_nat (size (loaded s))) (max_loaded_skills (skill_limits s))); [done|].
    split; simpl; [set_solver| | |rewrite size_union, size_singleton by set_solver; lia|done].
    + intros name' [->%elem_of_singleton|Hn]%elem_of_union; [eauto|by apply H2].
    + intros sk path Hr. destruct (H3 sk path Hr). split; [set_solver|done].
  - unfold load_reference. case_bool_decide as Hl; [done|].
    destruct (skill_get (skills s) skill) as [package|] eqn:Hp; [|done].
    destruct (references package !! path) as [r|] eqn:Hr; [|done].
    case_bool_decide as Hd; [done|].
    destruct (Z.eqb_spec (Z.of_nat (size (loaded_references s))) (max_reference_reads (skill_limits s)));
      [done|].
    split; simpl; [done|done| |done|rewrite size_union, size_singleton by set_solver; lia].
    intros sk p [[= -> ->]%elem_of_singleton|Hx]%elem_of_union; [|by apply H3].
    split; [done|]. exists package. split; [done|by eexists].
Qed.

(** What a session answered is what it holds afterwards. *)
Lemma skill_execute_answer command invocation s :
  result_ok (execution_result (skill_execute command invocation s).1) = true ↔
  match command with
  | LoadSkill name => name ∈ loaded (skill_execute command invocation s).2
                      ∧ is_Some (skill_get (skills s) name)
  | LoadReference skill path => (skill, path) ∈ loaded_references (skill_execute command invocation s).2
      ∧ skill ∈ loaded s ∧ ∃ package, skill_get (skills s) skill = Some package
          ∧ is_Some (references package !! path)
  end.
Proof.
  destruct command as [name|skill path]; simpl.
  - unfold load_skill. destruct (skill_get (skills s) name) as [package|] eqn:Hp;
      [|split; [done|by intros [_ []]] ].
    case_bool_decide as Hl; [by simpl; eauto|].
    destruct (allow_implicit_invocation package); [|split; [done|by intros [] ] ]. simpl.
    destruct (_ =? _)%Z; simpl; [split; [done|by intros [] ]|]. split; [|done].
    split; [set_solver|by eexists].
  - unfold load_reference. case_bool_decide as Hl; [split; [done|by intros (_ & ? & _)]|].
    destruct (skill_get (skills s) skill) as [package|] eqn:Hp;
      [|split; [done|by intros (_ & _ & ? & ? & _)] ].
    destruct (references package !! path) as [r|] eqn:Hr;
      [|split; [done|intros (_ & _ & p & [= <-] & Hx); rewrite Hr in Hx; by destruct Hx] ].
    case_bool_decide as Hd; [simpl; split; [|done]; intros _; split_and!; [done|done|]; exists package; split; [done|by eexists]|].
    destruct (_ =? _)%Z; simpl; [split; [done|by intros [] ]|]. split; [|done].
    intros _. split_and!; [set_solver|done|]. exists package. split; [done|by eexists].
Qed.

(** The commands a session executed one after the other. *)
Definition executed_all (commands : list (SkillCommand * AgentToolInvocation)) s : SkillSession :=
  foldl (λ s c, (skill_execute c.1 c.2 s).2) s commands.

Lemma SkillSession_new_limits snapshot config requested s0 :
  SkillSession_new snapshot config requested = Ok s0 → skills s0 = snapshot ∧ skill_limits s0 = config.
Proof.
  unfold SkillSession_new. intros Hnew. apply result_bind_Ok in Hnew as (? & _ & Hnew).
  by apply reject_bind_Ok in Hnew as [_ [= <-]].
Qed.

(** Whatever skills and references an agent asks for, and in whatever order,
    a session holds only skills of its snapshot that were requested by the
    activation or may be loaded without, references only of skills it loaded, and
    never more of either than configured; a request is answered with success
    exactly when the session then holds what was asked for. *)
Theorem skill_sessions_stay_within_limits snapshot config requested s0 commands command invocation :
  (0 <= max_reference_reads config)%Z → SkillSession_new snapshot config requested = Ok s0 →
  let s := executed_all commands s0 in
  skill_session_ok s ∧ skills s = snapshot ∧ explicit s = list_to_set requested
  ∧ skill_limits s = config
  ∧ (result_ok (execution_result (skill_execute command invocation s).1) = true ↔
     match command with
     | LoadSkill name => name ∈ loaded (skill_execute command invocation s).2
                         ∧ is_Some (skill_get snapshot name)
     | LoadReference skill path =>
       (skill, path) ∈ loaded_references (skill_execute command invocation s).2
       ∧ skill ∈ loaded s ∧ ∃ package, skill_get snapshot skill = Some package
           ∧ is_Some (references package !! path)
     end).
Proof.
  intros Hmax Hnew s. destruct (SkillSession_new_ok _ _ _ _ Hmax Hnew) as (Hok & Hex & _).
  destruct (SkillSession_new_limits _ _ _ _ Hnew) as [H1 H2].
  assert (skill_session_ok s ∧ skills s = snapshot ∧ explicit s = list_to_set requested
          ∧ skill_limits s = config) as (? & Hsk & ? & ?).
  { subst s. clear Hnew. unfold executed_all. induction commands as [|c l IH] using rev_ind; [done|].
    rewrite foldl_snoc. destruct IH as (IH1 & IH2 & IH3 & IH4). split; [by apply skill_execute_ok|].
    rewrite <- IH2, <- IH3, <- IH4. destruct c as [[name|skill path] inv]; simpl.
    - unfold load_skill. by repeat case_match.
    - unfold load_reference. by repeat case_match. }
  split_and!; [done..|]. rewrite <- Hsk. apply skill_execute_answer.
Qed.
End Session.

(** ** The catalog *)

Section Catalog.
Context `{JD : JsonData, !Serialize (list Value)}.
Implicit Types (l : list (SkillPackage * bool)).

Definition fits max_chars l limit : Prop :=
  ∃ n, encoded_chars (render l limit) = Ok n ∧ (n <= max_chars)%Z.
Definition too_long max_chars l limit : Prop :=
  ∃ n, encoded_chars (render l limit) = Ok n ∧ (max_chars < n)%Z.
Definition unencodable : Prop := ∃ l limit e, encoded_chars (render l limit) = Err e.

Lemma drop_last_implicit_snoc l c : c.2 = false → drop_last_implicit (l ++ [c]) = Some l.
Proof. intros Hc. induction l as [|a l IH]; simpl; [by rewrite Hc|by rewrite IH]. Qed.

Lemma drop_last_implicit_None l : Forall (λ c, c.2 = true) l → drop_last_implicit l = None.
Proof. induction 1 as [|a l Ha _ IH]; simpl; [done|]. by rewrite IH, Ha. Qed.

(** The longest prefix of the candidates behind the requested ones that fits. *)
Lemma omit_candidates_spec max_chars limit required offered fuel :
  Forall (λ c, c.2 = true) required → Forall (λ c, c.2 = false) offered → length offered ≤ fuel →
  match omit_candidates fuel max_chars limit (required ++ offered) with
  | Ok kept => ∃ k, k ≤ length offered ∧ kept = required ++ take k offered
      ∧ fits max_chars kept limit
      ∧ (k < length offered → too_long max_chars (required ++ offered) limit
           ∧ too_long max_chars (required ++ take (S k) offered) limit)
  | Err _ => unencodable ∨ too_long max_chars required limit ∧ too_long max_chars (required ++ offered) limit
  end.
Proof.
  intros Hr Ho. revert fuel. induction offered as [|c offered IH] using rev_ind; intros fuel Hf.
  - rewrite app_nil_r. destruct fuel as [|fuel]; simpl;
      destruct (encoded_chars (render required limit)) as [n|e] eqn:En; simpl;
      try (left; by eexists _, _, _);
      (destruct (Z.leb_spec n max_chars);
        [exists 0; rewrite app_nil_r; split_and!; [done|done|by exists n|simpl; lia]
        |rewrite ?(drop_last_implicit_None required) by done; right; split; by exists n]).
  - apply Forall_app in Ho as [Ho [Hc _]%Forall_cons]. rewrite length_app in Hf; simpl in Hf.
    destruct fuel as [|fuel]; [lia|]. simpl.
    destruct (encoded_chars (render (required ++ offered ++ [c]) limit)) as [n|e] eqn:En; simpl;
      [|left; by eexists _, _, _].
    destruct (Z.leb_spec n max_chars).
    + exists (length (offered ++ [c])). rewrite take_ge by done.
      split_and!; [done|done|by exists n|lia].
    + assert (too_long max_chars (required ++ offered ++ [c]) limit) as Hall by by exists n.
      rewrite app_assoc, drop_last_implicit_snoc by done.
      specialize (IH Ho fuel ltac:(lia)).
      destruct (omit_candidates fuel max_chars limit (required ++ offered));
        [|rewrite <- app_assoc; naive_solver].
      destruct IH as (k & Hk & -> & Hfit & Hlong). exists k.
      rewrite length_app, take_app_le by done. simpl. split_and!; [lia|done|done|].
      intros _. rewrite <- app_assoc. split; [done|].
      destruct (decide (k < length offered)) as [Hlt|Hge].
      * rewrite take_app_le by lia. by apply Hlong.
      * by rewrite take_ge by (rewrite length_app; simpl; lia).
Qed.

(** The limits tried, each half of the one before. *)
Definition description_limits : list nat := [512; 256; 128; 64].

Lemma shorten_descriptions_spec l max_chars limits first :
  match shorten_descriptions l max_chars first limits with
  | Ok limit => (fits max_chars l limit ∨ last (first :: limits) = Some limit)
      ∧ ∃ before after, first :: limits = before ++ limit :: after
          ∧ Forall (too_long max_chars l) before
  | Err _ => unencodable
  end.
Proof.
  revert first. induction limits as [|limit limits IH]; intros first; simpl.
  - split; [by right|]. by exists [], [].
  - destruct (encoded_chars (render l first)) as [n|e] eqn:En; simpl; [|by eexists _, _, _].
    destruct (Z.leb_spec n max_chars).
    + split; [left; by exists n|]. by exists [], (limit :: limits).
    + specialize (IH limit). destruct (shorten_descriptions l max_chars limit limits); [|done].
      destruct IH as [Hfit (before & after & Heq & Hlong)]. split; [done|].
      exists (first :: before), after. split; [simpl; by f_equal|]. constructor; [by exists n|done].
Qed.

Definition required_candidates (snapshot : SkillSnapshot) (explicit : gset string) :=
  (λ package, (package, true)) <$> omap (skill_get snapshot) (names_in_order explicit).
Definition offered_candidates (snapshot : SkillSnapshot) (explicit : gset string) :=
  (λ package, (package, false)) <$>
    base.filter (λ package, allow_implicit_invocation package = true
                   ∧ skill_name (package_meta package) ∉ explicit)
      (values_in_order (packages snapshot)).

(** The catalog fits its character budget: every skill the activation asked for
    is in it, the others in the order of their names as far as they fit, with the
    longest of the five description limits at which everything fits, or the
    shortest; nothing is left out that would have fitted, and the catalog says
    what it left out.  It is refused only when an encoding fails or the requested
    skills alone are too long. *)
Theorem catalog_fits_its_budget snapshot explicit max_chars :
  let required := required_candidates snapshot explicit in
  let offered := offered_candidates snapshot explicit in
  match SkillCatalogView_build snapshot explicit max_chars with
  | Ok v => ∃ limit k kept, k ≤ length offered ∧ kept = required ++ take k offered
      ∧ catalog_entries v = render kept limit ∧ fits max_chars kept limit
      ∧ (k < length offered → limit = 64 ∧ too_long max_chars (required ++ take (S k) offered) limit)
      ∧ (∃ before after, Z.to_nat 1024 :: description_limits = before ++ limit :: after
           ∧ Forall (too_long max_chars (required ++ offered)) before)
      ∧ omitted v = Z.of_nat (length offered - k)
      ∧ (truncated v = true ↔ limit < Z.to_nat 1024 ∨ k < length offered)
  | Err _ => unencodable ∨ too_long max_chars required 64
  end.
Proof.
  intros required offered. unfold SkillCatalogView_build.
  change (catalog_candidates snapshot explicit) with (required ++ offered).
  pose proof (shorten_descriptions_spec (required ++ offered) max_chars description_limits (Z.to_nat 1024)) as Hs.
  change [512; 256; 128; 64] with description_limits.
  destruct (shorten_descriptions _ _ _ _) as [limit|e]; simpl; [|by left].
  destruct Hs as [Hfit Hlimits].
  pose proof (omit_candidates_spec max_chars limit required offered (length (required ++ offered))) as Ho.
  assert (Forall (λ c, c.2 = true) required) as Hreq by (apply Forall_fmap, Forall_true; done).
  assert (Forall (λ c, c.2 = false) offered) as Hoff by (apply Forall_fmap, Forall_true; done).
  specialize (Ho Hreq Hoff ltac:(rewrite length_app; lia)).
  destruct (omit_candidates _ _ _ _) as [kept|e]; simpl.
  - destruct Ho as (k & Hk & -> & Hkept & Hlong). exists limit, k, (required ++ take k offered).
    assert (Z.max (Z.of_nat (length (required ++ offered))
                   - Z.of_nat (length (required ++ take k offered))) 0
            = Z.of_nat (length offered - k)) as ->.
    { rewrite !length_app, length_take. lia. }
    assert (too_long max_chars (required ++ offered) limit → limit = 64) as H64.
    { intros (n & Hn & Hgt). destruct Hfit as [(n' & Hn' & Hle)|Hlast]; [|by injection Hlast].
      assert (n = n') by congruence. lia. }
    split_and!; try done.
    + intros Hlt. destruct (Hlong Hlt). auto.
    + rewrite orb_true_iff, bool_decide_eq_true, Z.ltb_lt. lia.
  - destruct Ho as [|[Hreq' Hall]]; [by left|right].
    destruct Hfit as [(n & Hn & Hle)|[= <-]]; [|done]. destruct Hall as (n' & Hn' & Hgt).
    assert (n = n') by congruence. lia.
Qed.
End Catalog.
