(* ===== verification/LinuxFile.v ===== *)
(** * The local mutation driver
      ([tuning_agent/src/adapters/local/mutation/linux_file.rs], [bound.rs])

    A driver that writes one line to a file of [/proc/sys], [/sys] or the cgroup
    tree, and the driver that binds it to the one file the administrator
    configured.  The file system is a parameter; the state also keeps, as a
    history, what was written. *)

From S2P Require Export Paths Values Capability.

Local Open Scope Z_scope.

(** ** The file system *)

(** [fs::canonicalize], [fs::read_to_string] and [fs::write]; other processes may
    change files between any two calls. *)
Class FileSystem (O : Type) := {
  canonicalize : string → O → result string string * O;
  read_to_string : string → O → result string string * O;
  fs_write : string → string → O → result string unit * O;
}.

(** The world of the drivers: the operation tables of all of them, by capability,
    and every write, newest first. *)
Record LinuxWorld (O : Type) `{J : Json} := MkLinuxWorld {
  os : O;
  operations : gmap CapabilityId (gmap OperationId MutationStatus);
  written : list (string * string);
}.
Arguments MkLinuxWorld {O J} _ _ _.
Arguments os {O J} _.
Arguments operations {O J} _.
Arguments written {O J} _.

(** [trim_end_matches] of carriage returns and newlines. *)
Definition is_line_end (a : ascii) : bool := Ascii.eqb a "010"%char || Ascii.eqb a "013"%char.
Fixpoint trim_line_ends (s : string) : string :=
  match s with
  | EmptyString => EmptyString
  | String a s => match trim_line_ends s with
                  | EmptyString => if is_line_end a then EmptyString else String a EmptyString
                  | t => String a t
                  end
  end.

Definition line_feed : string := String "010"%char "".

(** [PathBuf::join] for a base without a trailing slash. *)
Definition path_join (base path : string) : string :=
  if is_absolute path then path else base +:+ "/" +:+ path.

Section Driver.
Context {O : Type} `{JD : JsonData, !Serialize string, !Sha256, !FileSystem O}.
Abbreviation World := (LinuxWorld O).
Abbreviation LM := (M World ProviderError).

Definition invalid (message : string) : ProviderError := ProviderError_new InvalidRequest message.
Definition permission (message : string) : ProviderError := ProviderError_new PermissionDenied message.
Definition conflict (message : string) : ProviderError := ProviderError_new Conflict message.
Definition internal (message : string) : ProviderError := ProviderError_new Internal message.

Definition in_os {A} (call : O → A * O) : LM A := λ w,
  let '(a, o) := call (os w) in (Ret a, MkLinuxWorld o (operations w) (written w)).

Definition read_value (path : string) : LM string :=
  r ← in_os (read_to_string path);
  match r with
  | Ok value => mret (trim_line_ends value)
  | Err error => throw (internal ("failed to read mutation target '" +:+ path +:+ "': " +:+ error))
  end.

Definition write_value (path value : string) : LM unit :=
  r ← in_os (fs_write path (value +:+ line_feed));
  _ ← modify (λ w, MkLinuxWorld (os w) (operations w) ((path, value +:+ line_feed) :: written w));
  lift (map_err (λ error, internal ("failed to write mutation target '" +:+ path +:+ "': " +:+ error)) r).

Definition mutation_state (value : string) : result ProviderError MutationState :=
  digest ← map_err invalid (content_digest value);
  Ok (MkMutationState (json_string value) digest).

Definition state_string (state : MutationState) : result ProviderError string :=
  ok_or (invalid "Linux file mutation state must be a string") (as_string (state_value state)).

(** ** Targets *)

Definition is_parent_or_current (c : Component) : bool :=
  match c with ParentDir | CurDir => true | _ => false end.

Definition canonicalize_beneath (path root : string) : LM string :=
  _ ← lift (reject (negb (is_absolute path) || existsb is_parent_or_current (components path))
              (permission "mutation target must be a normalized absolute path"));
  _ ← lift (reject (negb (path_starts_with path root))
              (permission ("mutation target '" +:+ path +:+ "' is outside '" +:+ root +:+ "'")));
  r ← in_os (canonicalize root);
  canonical_root ← lift (map_err (λ error,
    internal ("failed to canonicalize root '" +:+ root +:+ "': " +:+ error)) r);
  r ← in_os (canonicalize path);
  canonical_path ← lift (map_err (λ error,
    invalid ("failed to canonicalize mutation target '" +:+ path +:+ "': " +:+ error)) r);
  _ ← lift (reject (negb (path_starts_with canonical_path canonical_root))
              (permission "mutation target escapes its allowed root"));
  mret canonical_path.

Record ResolvedTarget := MkTarget { target_kind : string; target_path : string }.

Definition validate_sysctl_key (key : string) : result ProviderError unit :=
  reject (negb (sysctl_key_valid key)) (invalid "invalid sysctl key").

Definition required_text (field : string) (message : string) (v : Value) : result ProviderError string :=
  ok_or (invalid message) (value_get field v ≫= as_string).

Definition canonicalize_declared_path (target : Value) (root kind : string) : LM string :=
  path ← lift (required_text "path" (kind +:+ " target.path is required") target);
  canonicalize_beneath path root.

Definition target_from_arguments (arguments : Value) : LM ResolvedTarget :=
  target ← lift (ok_or (invalid "mutation target must be an object")
             (t ← value_get "target" arguments; if is_object t then Some t else None));
  kind ← lift (required_text "kind" "mutation target.kind is required" target);
  path ←
    (if bool_decide (kind = "sysctl") then
       key ← lift (required_text "key" "sysctl target.key is required" target);
       _ ← lift (validate_sysctl_key key);
       canonicalize_beneath (path_join "/proc/sys" (replace_char dot slash key)) "/proc/sys"
     else if bool_decide (kind = "proc_sys") then canonicalize_declared_path target "/proc/sys" kind
     else if bool_decide (kind = "sysfs") then canonicalize_declared_path target "/sys" kind
     else if bool_decide (kind = "cgroup") then canonicalize_declared_path target "/sys/fs/cgroup" kind
     else throw (invalid ("unsupported Linux mutation target '" +:+ kind +:+ "'")));
  mret (MkTarget kind path).

Definition root_for_kind (kind : string) : result ProviderError string :=
  if bool_decide (kind = "sysctl") || bool_decide (kind = "proc_sys") then Ok "/proc/sys"
  else if bool_decide (kind = "sysfs") then Ok "/sys"
  else if bool_decide (kind = "cgroup") then Ok "/sys/fs/cgroup"
  else Err (permission "prepared target kind is not allowed in production").

(** The resource and the driver data of a target; [json!] unwraps the conversion of
    the path, which fails for one that is not UTF-8. *)
Definition prepared_identity (target : ResolvedTarget) : LM (ResourceKey * Value) :=
  resource ← lift (map_err invalid
    (ResourceKey_new ("linux-file:" +:+ target_kind target +:+ ":" +:+ target_path target)));
  _ ← (if is_utf8 (target_path target) then mret tt else panic);
  mret (resource, json_object [("kind", json_string (target_kind target));
                               ("path", json_string (target_path target))]).

(** ** The driver *)

Section Unbound.
Context (meta : CapabilityMeta).

Definition validate_meta : result string unit :=
  reject (bool_decide (kind meta ≠ Mutation) || bool_decide (effect meta ≠ ReversibleMutation))
    "LinuxFileMutationDriver requires reversible mutation capability metadata".

Definition validate_prepared_identity (prepared : PreparedMutation) : result ProviderError unit :=
  reject (bool_decide (prepared_capability_id prepared ≠ meta_id meta)
          || bool_decide (prepared_provider prepared ≠ provider meta))
    (permission "prepared mutation does not belong to this provider pin").

Definition target_from_prepared (prepared : PreparedMutation) : LM ResolvedTarget :=
  _ ← lift (validate_prepared_identity prepared);
  kind ← lift (required_text "kind" "prepared mutation is missing driver kind" (prepared_driver_data prepared));
  path ← lift (required_text "path" "prepared mutation is missing driver path" (prepared_driver_data prepared));
  root ← lift (root_for_kind kind);
  canonical ← canonicalize_beneath path root;
  _ ← lift (reject (bool_decide (components canonical ≠ components path))
              (permission "prepared target path changed after preparation"));
  mret (MkTarget kind path).

(** The table's lock is poisoned only by a panic of its holder, and its holders
    do not panic. *)
Definition driver_operations (w : World) : gmap OperationId MutationStatus :=
  default ∅ (operations w !! meta_id meta).

Definition store_status (s : MutationStatus) : LM unit := modify (λ w,
  MkLinuxWorld (os w)
    (<[meta_id meta := <[status_operation_id s := s]> (driver_operations w)]> (operations w)) (written w)).

Definition make_receipt (id : OperationId) (state : MutationOperationState) (observed : option MutationState)
    (driver_data : Value) : LM MutationReceipt :=
  _ ← store_status (MkStatus id state observed driver_data);
  mret (MkReceipt id state observed driver_data).

Definition read_state (path : string) : LM MutationState :=
  value ← read_value path; lift (mutation_state value).

Definition linux_prepare (q : MutationPrepareRequest) : LM PreparedMutation :=
  target ← target_from_arguments (prepare_arguments q);
  desired ← lift (required_text "value" "mutation value must be a string" (prepare_arguments q));
  _ ← lift (reject (contains_char "010"%char desired || contains_char "013"%char desired)
              (invalid "mutation value must contain exactly one line"));
  baseline ← read_state (target_path target);
  desired ← lift (mutation_state desired);
  identity ← prepared_identity target;
  mret (MkPreparedMutation (meta_id meta) (provider meta) identity.1 baseline desired identity.2).

(** After a write that failed: what is there now. *)
Definition settle_failed_write (q : MutationApplyRequest) (target : ResolvedTarget) : LM unit :=
  state ← attempt (read_state (target_path target));
  let observed := match state with Ok s => Some s | Err _ => None end in
  let operation_state :=
    if bool_decide (observed = Some (desired (apply_prepared q))) then Applied
    else if bool_decide (observed = Some (baseline (apply_prepared q))) then NotApplied
    else Unknown in
  store_status (MkStatus (apply_operation_id q) operation_state observed
                  (prepared_driver_data (apply_prepared q))).

Definition linux_apply (q : MutationApplyRequest) : LM MutationReceipt :=
  let p := apply_prepared q in
  target ← target_from_prepared p;
  from ← lift (state_string (baseline p));
  to ← lift (state_string (desired p));
  current ← read_value (target_path target);
  _ ← lift (reject (bool_decide (current ≠ from) && bool_decide (current ≠ to))
              (conflict ("target '" +:+ target_path target +:+ "' drifted before apply")));
  _ ← (if bool_decide (current ≠ to) then
         r ← attempt (write_value (target_path target) to);
         match r with
         | Ok _ => mret tt
         | Err write_error => _ ← settle_failed_write q target; throw write_error
         end
       else mret tt);
  observed ← read_state (target_path target);
  make_receipt (apply_operation_id q) (if bool_decide (observed = desired p) then Applied else Unknown)
    (Some observed) (prepared_driver_data p).

Definition linux_status (q : MutationQuery) : LM MutationStatus :=
  w ← gets (λ w, w);
  mret (default (MkStatus (query_operation_id q) Unknown None Value_Null)
          (driver_operations w !! query_operation_id q)).

Definition linux_verify (q : MutationVerifyRequest) : LM MutationVerification :=
  target ← target_from_prepared (verify_prepared q);
  observed ← read_state (target_path target);
  mret (MkVerification (bool_decide (observed = verify_expected q)) (Some observed)
          (json_object [("path", json_string (target_path target))])).

Definition linux_restore (q : MutationRestoreRequest) : LM MutationReceipt :=
  let p := restore_prepared q in
  target ← target_from_prepared p;
  from ← lift (state_string (baseline p));
  to ← lift (state_string (desired p));
  current ← read_value (target_path target);
  _ ← lift (reject (bool_decide (current ≠ from) && bool_decide (current ≠ to))
              (conflict ("target '" +:+ target_path target +:+ "' drifted before restore")));
  _ ← (if bool_decide (current ≠ from) then write_value (target_path target) from else mret tt);
  observed ← read_state (target_path target);
  make_receipt (restore_operation_id q) (if bool_decide (observed = baseline p) then Restored else Unknown)
    (Some observed) (prepared_driver_data p).

Definition linux_finalize (q : MutationFinalizeRequest) : LM MutationReceipt :=
  let p := finalize_prepared q in
  target ← target_from_prepared p;
  observed ← read_state (target_path target);
  _ ← lift (reject (bool_decide (observed ≠ desired p))
              (conflict ("target '" +:+ target_path target +:+ "' drifted before finalize")));
  make_receipt (finalize_operation_id q) Finalized_op (Some observed) (prepared_driver_data p).
End Unbound.
End Driver.

(** ** The driver bound to one file ([bound.rs]) *)

Inductive LinuxMutationTarget :=
  | Sysctl (key : string)
  | ProcSys (path : string)
  | Sysfs (path : string)
  | Cgroup (path : string).

Section Bound.
Context {O : Type} `{JD : JsonData, !Serialize string, !Serialize LinuxMutationTarget, !Sha256, !FileSystem O}.
Abbreviation World := (LinuxWorld O).
Abbreviation LM := (M World ProviderError).

Definition as_arguments (t : LinuxMutationTarget) : Value :=
  match t with
  | Sysctl key => json_object [("kind", json_string "sysctl"); ("key", json_string key)]
  | ProcSys path => json_object [("kind", json_string "proc_sys"); ("path", json_string path)]
  | Sysfs path => json_object [("kind", json_string "sysfs"); ("path", json_string path)]
  | Cgroup path => json_object [("kind", json_string "cgroup"); ("path", json_string path)]
  end.

Definition set_idempotent (m : CapabilityMeta) : CapabilityMeta :=
  MkCapabilityMeta (meta_id m) (kind m) (effect m) (provider m) (description m) (input_schema m)
    (output_schema m) (role m) (allowed_phases m) (limits m) (deterministic m) true.

Definition bound_meta (id : CapabilityId) (description : string) (target_digest : Digest)
    : result string CapabilityMeta :=
  provider_id ← string_id_new N_Provider ("local.linux-file." +:+ as_str id);
  version ← string_id_new N_ProviderVersion "1";
  manifest ← string_id_new N_Digest ("bound-linux-file-v1:" +:+ as_str target_digest);
  let input := json_object
    [("type", json_string "object"); ("additionalProperties", json_bool false);
     ("required", json_array [json_string "value"]);
     ("properties", json_object
       [("value", json_object [("type", json_string "string"); ("minLength", json_integer 1);
                               ("maxLength", json_integer 4096)])])] in
  let output := json_object
    [("type", json_string "object");
     ("required", json_array [json_string "state"; json_string "observed"])] in
  let meta := CapabilityMeta_new id Mutation ReversibleMutation
                (MkProviderPin provider_id version Local manifest) description input output in
  Ok (set_idempotent (with_allowed_phases meta [Clean; Experimenting])).

Record BoundDriver := MkBoundDriver {
  inner_meta : CapabilityMeta;
  target_arguments : Value;
  expected_resource : ResourceKey;
  expected_driver_data : Value;
}.

Definition bound_identity (target_arguments : Value) : LM (ResourceKey * Value) :=
  target ← target_from_arguments (json_object [("target", target_arguments)]);
  prepared_identity target.

(** [BoundLinuxFileMutationDriver::new]; the errors of the driver are displayed. *)
Definition BoundDriver_new (id : CapabilityId) (description : string) (target : LinuxMutationTarget)
    : M World string BoundDriver :=
  digest ← lift (content_digest target);
  meta ← lift (bound_meta id description digest);
  _ ← lift (validate_meta meta);
  identity ← attempt (bound_identity (as_arguments target));
  identity ← lift (map_err ProviderError_display identity);
  mret (MkBoundDriver meta (as_arguments target) identity.1 identity.2).

Section Operations.
Context (d : BoundDriver).

Definition ensure_bound (prepared : PreparedMutation) : result ProviderError unit :=
  reject (bool_decide (prepared_resource prepared ≠ expected_resource d)
          || bool_decide (prepared_driver_data prepared ≠ expected_driver_data d))
    (permission "prepared mutation does not match the capability's administrator-bound resource").

(** The value of an agent's arguments, which hold nothing else. *)
Definition bound_value (arguments : Value) : result ProviderError string :=
  keys ← ok_or (invalid "bound Linux mutation arguments must be an object") (object_keys arguments);
  _ ← reject (negb (bool_decide (length keys = 1%nat)) || negb (bool_decide (is_Some (value_get "value" arguments))))
        (invalid "bound Linux mutation accepts only the value field");
  value ← required_text "value" "bound Linux mutation value must be a string" arguments;
  _ ← reject (bool_decide (value = "") || (4096 <? Z.of_nat (String.length value)))
        (invalid "bound Linux mutation value must contain between 1 and 4096 bytes");
  Ok value.

Definition bound_prepare (q : MutationPrepareRequest) : LM PreparedMutation :=
  value ← lift (bound_value (prepare_arguments q));
  let arguments := json_object [("target", target_arguments d); ("value", json_string value)] in
  prepared ← linux_prepare (inner_meta d) (MkPrepareRequest (prepare_context q) arguments);
  _ ← lift (ensure_bound prepared);
  mret prepared.

Definition bound_apply (q : MutationApplyRequest) : LM MutationReceipt :=
  _ ← lift (ensure_bound (apply_prepared q)); linux_apply (inner_meta d) q.
Definition bound_verify (q : MutationVerifyRequest) : LM MutationVerification :=
  _ ← lift (ensure_bound (verify_prepared q)); linux_verify (inner_meta d) q.
Definition bound_restore (q : MutationRestoreRequest) : LM MutationReceipt :=
  _ ← lift (ensure_bound (restore_prepared q)); linux_restore (inner_meta d) q.
Definition bound_finalize (q : MutationFinalizeRequest) : LM MutationReceipt :=
  _ ← lift (ensure_bound (finalize_prepared q)); linux_finalize (inner_meta d) q.

(** The driver as the runtime calls it.  A panic, which only [bound_prepare] can raise
    ([LinuxFileSafety.v]), is a failing call here; in the program it unwinds. *)
Definition run_call {A} (m : LM A) (w : World) : result ProviderError A * World :=
  match m w with
  | (Ret a, w) => (Ok a, w)
  | (Throw e, w) => (Err e, w)
  | (Panic, w) => (Err (internal "panicked"), w)
  end.

Definition bound_driver : MutationDriver World :=
  MkMutationDriver World (inner_meta d) (λ q, run_call (bound_prepare q)) (λ q, run_call (bound_apply q))
    (λ q, run_call (linux_status (inner_meta d) q)) (λ q, run_call (bound_verify q))
    (λ q, run_call (bound_restore q)) (λ q, run_call (bound_finalize q)).
End Operations.
End Bound.
