(* ===== verification/LinuxFileSafety.v ===== *)
(** * What the local mutation driver may do

    However it is called and whatever other processes do to the file system, a
    bound driver writes only under the path it was bound to; and on a file that
    nobody else changes its receipts say what the file shows, and its changes are
    reversible where the kernel takes the lines and shows them again. *)

From S2P Require Export LinuxFile.

Local Open Scope Z_scope.

(** ** Lines *)

Lemma trim_line_ends_newline s : trim_line_ends (s +:+ line_feed) = trim_line_ends s.
Proof. induction s as [|a s IH]; [done|]. simpl. by rewrite IH. Qed.

Lemma trim_line_ends_idemp s : trim_line_ends (trim_line_ends s) = trim_line_ends s.
Proof.
  induction s as [|a s IH]; [done|]. simpl. destruct (trim_line_ends s) as [|b t] eqn:Ht.
  - destruct (is_line_end a) eqn:Ha; [done|]. simpl. by rewrite Ha.
  - simpl in *. by rewrite IH.
Qed.

Lemma trim_line_ends_line s :
  contains_char "010"%char s = false → contains_char "013"%char s = false → trim_line_ends s = s.
Proof.
  unfold contains_char. induction s as [|a s IH]; [done|]. cbn [String.list_ascii_of_string existsb]. rewrite !orb_false_iff.
  intros [H1 H2] [H3 H4]. simpl. rewrite IH by done. destruct s; [|done]. unfold is_line_end.
  by rewrite (Ascii.eqb_sym a), (Ascii.eqb_sym a "013"), H1, H3.
Qed.

(** Distinct keys, by evaluation. *)
Ltac keys_distinct := apply (bool_decide_unpack _); vm_compute; exact I.

Lemma value_get_first `{JD : JsonData, !JsonLaws} k v l : NoDup (k :: l.*1) → value_get k (json_object ((k, v) :: l)) = Some v.
Proof. intros Hl. rewrite value_get_json by done. simpl. by rewrite lookup_insert_eq. Qed.

Lemma value_get_second `{JD : JsonData, !JsonLaws} k k' v v' :
  k ≠ k' → value_get k (json_object [(k', v'); (k, v)]) = Some v.
Proof.
  intros Hk. rewrite value_get_json by (repeat constructor; set_solver). simpl.
  by rewrite lookup_insert_ne, lookup_insert_eq.
Qed.

Section Writes.
Context {O : Type} `{JD : JsonData, !Serialize string, !Serialize LinuxMutationTarget, !Sha256, !FileSystem O}.
Context `{!JsonLaws}.
Abbreviation World := (LinuxWorld O).
Implicit Types (w : World).

(** ** What a computation writes

    [writes_only P file m Q w]: run from [w], [m] writes only to [file] and panics
    only if [P], and a value it returns satisfies [Q]. *)
Definition writes_only {E A} (P : Prop) (file : string) (m : M World E A) (Q : A → Prop) w : Prop :=
  (∃ l, written (m w).2 = l ++ written w ∧ Forall (λ x, x.1 = file) l)
  ∧ ((m w).1 = Panic → P) ∧ ∀ a, (m w).1 = Ret a → Q a.

Section WritesOnly.
Context {P : Prop} (file : string).

Lemma wo_bind {E A B} (m : M World E A) (f : A → M World E B) Q (R : A → Prop) w :
  writes_only P file m R w → (∀ a w', R a → writes_only P file (f a) Q w') → writes_only P file (m ≫= f) Q w.
Proof.
  intros ((l & Hl & Hf) & Hp & HR) Hk. unfold writes_only, mbind, M_bind in *. destruct (m w) as [ [a|e|] w'].
  - destruct (Hk a w' (HR a eq_refl)) as ((l' & Hl' & Hf') & HQ). split; [|done].
    exists (l' ++ l). simpl in *. split; [by rewrite Hl', Hl, app_assoc|by apply Forall_app].
  - split; [by exists l|done].
  - split; [by exists l|]. split; [intros _; by apply Hp|done].
Qed.

Lemma wo_mono {E A} (m : M World E A) (Q R : A → Prop) w :
  writes_only P file m Q w → (∀ a, Q a → R a) → writes_only P file m R w.
Proof. intros (Hw & Hp & HQ) HQR. split; [done|]. split; [done|]. intros a Ha. by apply HQR, HQ. Qed.

(** A value of a computation has the properties of both judgements. *)
Lemma wo_wp {E A} (m : M World E A) (Q R : A → Prop) (X : E → World → Prop) w :
  writes_only P file m Q w → wp m (λ a _, R a) X w → writes_only P file m R w.
Proof.
  intros (Hw & Hp & _) Hm. split; [done|]. split; [done|]. unfold wp in Hm. intros a Ha.
  destruct (m w) as [ [b|e|] w']; simpl in Ha; by simplify_eq.
Qed.

(** What leaves the file system alone. *)
Lemma wo_still {E A} (m : M World E A) (Q : A → Prop) w :
  written (m w).2 = written w → (m w).1 ≠ Panic → (∀ a, (m w).1 = Ret a → Q a) → writes_only P file m Q w.
Proof. intros Hw Hp HQ. split; [exists []; by rewrite Hw|done]. Qed.

Lemma wo_ret {E A} (a : A) (Q : A → Prop) w : Q a → writes_only P file (mret a : M World E A) Q w.
Proof. intros. apply wo_still; [done..|]. by intros b [= <-]. Qed.
Lemma wo_throw {E A} (e : E) (Q : A → Prop) w : writes_only P file (throw e) Q w.
Proof. by apply wo_still. Qed.
Lemma wo_lift {E A} (r : result E A) (Q : A → Prop) w :
  (∀ a, r = Ok a → Q a) → writes_only P file (lift r) Q w.
Proof. intros HQ. unfold lift. apply wo_still; simpl; destruct r; try done. intros b [= <-]. by apply HQ. Qed.
(** A pure step leaves the state where it is. *)
Lemma wo_bind_lift {E A B} (r : result E A) (f : A → M World E B) (R : A → Prop) Q w :
  (∀ a, r = Ok a → R a) → (∀ a, R a → writes_only P file (f a) Q w) → writes_only P file (lift r ≫= f) Q w.
Proof.
  intros HR Hf. unfold writes_only, mbind, M_bind, lift in *. destruct r as [a|e]; simpl; [by apply Hf, HR|].
  split; [by exists []|done].
Qed.
Lemma wo_gets {E A} (f : World → A) (Q : A → Prop) w : Q (f w) → writes_only P file (gets f : M World E A) Q w.
Proof. intros HQ. apply wo_still; [done..|]. by intros a [= <-]. Qed.
Lemma wo_in_os {A} (call : O → A * O) (Q : A → Prop) w :
  (∀ o, Q (call o).1) → writes_only P file (in_os call) Q w.
Proof.
  intros HQ. specialize (HQ (os w)). unfold in_os. destruct (call (os w)) as [a o] eqn:Hc.
  apply wo_still; rewrite Hc; [done..|]. intros b [= <-]. done.
Qed.
Lemma wo_attempt {E E' A} (m : M World E A) (Q : A → Prop) w :
  writes_only P file m Q w →
  writes_only P file (attempt m : M World E' (result E A)) (λ r, match r with Ok a => Q a | Err _ => True end) w.
Proof.
  intros (Hw & Hp & HQ). unfold writes_only, attempt in *.
  destruct (m w) as [ [a|e|] w']; (split; [done|]); (split; [simpl; try done; intros _; by apply Hp|]);
    intros r Hr; simpl in Hr; simplify_eq; auto.
Qed.
Lemma wo_store_status meta s (Q : unit → Prop) w : Q tt → writes_only P file (store_status meta s) Q w.
Proof. intros. apply wo_still; [done..|]. by intros [] _. Qed.

End WritesOnly.

Hint Resolve wo_ret wo_throw wo_gets wo_in_os wo_store_status : core.

(** A step whose result is not needed. *)
Ltac wo_step :=
  eapply (wo_bind _ _ _ _ (λ _, True)); [solve [by apply wo_lift|by apply wo_in_os|auto]|]; intros ? ? _.

Lemma wo_read_value {P} file path w : writes_only P file (read_value path) (λ _, True) w.
Proof. eapply (wo_bind _ _ _ _ (λ _, True)); [by apply wo_in_os|]. intros [value|error] w' _; auto. Qed.

Lemma wo_read_state {P} file path w : writes_only P file (read_state path) (λ _, True) w.
Proof. eapply wo_bind; [apply wo_read_value|]. intros value w' _. by apply wo_lift. Qed.

Lemma wo_write_value {P} path value w : writes_only P path (write_value path value) (λ _, True) w.
Proof.
  unfold write_value. eapply (wo_bind _ _ _ _ (λ _, True)); [by apply wo_in_os|]. intros r w1 _.
  eapply (wo_bind _ _ _ _ (λ _, True)); [|intros [] w2 _; by apply wo_lift].
  split; [|done]. exists [(path, value +:+ line_feed)]. split; [done|]. by apply Forall_singleton.
Qed.

(** ** Resolving writes nothing *)

Lemma wo_canonicalize_beneath {P} file path root w :
  writes_only P file (canonicalize_beneath path root) (λ _, True) w.
Proof. unfold canonicalize_beneath. do 7 wo_step. auto. Qed.

Lemma wo_target_from_arguments {P} file arguments w :
  writes_only P file (target_from_arguments arguments) (λ _, True) w.
Proof.
  unfold target_from_arguments. do 2 wo_step.
  eapply (wo_bind _ _ _ _ (λ _, True)); [|auto].
  assert (∀ target root kind w, writes_only P file (canonicalize_declared_path target root kind) (λ _, True) w) as Hdecl.
  { intros t root k w0. unfold canonicalize_declared_path. wo_step. apply wo_canonicalize_beneath. }
  repeat case_bool_decide; auto. do 2 wo_step. apply wo_canonicalize_beneath.
Qed.

(** Only a path that is not UTF-8 makes [json!] panic. *)
Lemma wo_prepared_identity {P : Prop} file target w :
  (is_utf8 (target_path target) = false → P) → writes_only P file (prepared_identity target) (λ _, True) w.
Proof.
  intros Hu. unfold prepared_identity. wo_step. eapply (wo_bind _ _ _ _ (λ _, True)); [|auto].
  destruct (is_utf8 _); [auto|]. split; [by exists []|]. split; [intros _; by apply Hu|done].
Qed.

(** The target of a prepared mutation is the one its data names. *)
Lemma wo_target_from_prepared {P} file meta p w :
  writes_only P file (target_from_prepared meta p)
    (λ t, value_get "path" (prepared_driver_data p) ≫= as_string = Some (target_path t)) w.
Proof.
  unfold target_from_prepared. do 2 wo_step.
  eapply (wo_bind _ _ _ _ (λ path, value_get "path" (prepared_driver_data p) ≫= as_string = Some path)).
  { apply wo_lift. intros path. unfold required_text, ok_or. by destruct (_ ≫= _); [intros [= ->]|]. }
  intros path w3 Hpath. wo_step. eapply wo_bind; [apply wo_canonicalize_beneath|]. intros canonical w5 _.
  wo_step. auto.
Qed.

(** ** The target of a binding *)

Lemma wp_canonicalize_beneath path root (w : World) :
  wp (canonicalize_beneath path root)
    (λ file _, ∃ canonical_root, (canonicalize root (os w)).1 = Ok canonical_root
       ∧ (canonicalize path (canonicalize root (os w)).2).1 = Ok file ∧ path_starts_with file canonical_root = true
       ∧ is_absolute path = true ∧ path_starts_with path root = true
       ∧ existsb is_parent_or_current (components path) = false) (λ _ _, True) w.
Proof.
  unfold canonicalize_beneath. apply wp_bind, wp_lift; [|done]. intros [] Hn%reject_Ok.
  apply orb_false_iff in Hn as [Ha%negb_false_iff Hn].
  apply wp_bind, wp_lift; [|done]. intros [] Hr%reject_Ok%negb_false_iff.
  apply wp_bind. unfold wp at 1, in_os at 1. destruct (canonicalize root (os w)) as [r o1] eqn:H1.
  apply wp_bind, wp_lift; [|done]. intros canonical_root Hroot%map_err_Ok.
  apply wp_bind. unfold wp at 1, in_os at 1. simpl. destruct (canonicalize path o1) as [r' o2] eqn:H2.
  apply wp_bind, wp_lift; [|done]. intros file Hfile%map_err_Ok.
  apply wp_bind, wp_lift; [|done]. intros [] Hb%reject_Ok%negb_false_iff. apply wp_ret.
  exists canonical_root. by split_and!.
Qed.

(** What a target names, before links are resolved, and the tree it must be in. *)
Definition target_root (t : LinuxMutationTarget) : string :=
  match t with Sysctl _ | ProcSys _ => "/proc/sys" | Sysfs _ => "/sys" | Cgroup _ => "/sys/fs/cgroup" end.
Definition target_name (t : LinuxMutationTarget) : string :=
  match t with
  | Sysctl key => path_join "/proc/sys" (replace_char dot slash key)
  | ProcSys path | Sysfs path | Cgroup path => path
  end.

(** [file] is what the target's name resolves to, inside what its tree resolves to, when
    they are looked up one after the other from [o]. *)
Definition resolves_to (t : LinuxMutationTarget) (o : O) (file : string) : Prop :=
  (canonicalize (target_name t) (canonicalize (target_root t) o).2).1 = Ok file
    ∧ (∃ canonical_root, (canonicalize (target_root t) o).1 = Ok canonical_root
         ∧ path_starts_with file canonical_root = true)
    ∧ is_absolute (target_name t) = true ∧ path_starts_with (target_name t) (target_root t) = true
    ∧ existsb is_parent_or_current (components (target_name t)) = false.

Lemma wp_target_from_bound t rest (w : World) :
  NoDup ("target" :: rest.*1) →
  wp (target_from_arguments (json_object (("target", as_arguments t) :: rest)))
    (λ target _, resolves_to t (os w) (target_path target)) (λ _ _, True) w.
Proof.
  intros Hrest. unfold target_from_arguments, canonicalize_declared_path, required_text.
  rewrite value_get_first by done.
  assert (is_object (as_arguments t) = true) as Hobj by (destruct t; apply is_object_json).
  apply wp_bind, wp_lift; [|done]. intros target Ht. simpl in Ht. rewrite Hobj in Ht. injection Ht as <-.
  assert (∀ t' k, t' = t → wp (canonicalize_beneath (target_name t') (target_root t'))
    (λ path w', wp (mret (MkTarget k path) : M World ProviderError _)
       (λ target _, resolves_to t (os w) (target_path target)) (λ _ _, True) w')
    (λ _ _, True) w) as Hc.
  { intros ? k ->. eapply wp_mono; [apply wp_canonicalize_beneath| |done].
    intros file w' (root & Hr & Hf & Hb & Hrest'). apply wp_ret. split; [done|]. split; [by exists root|done]. }
  specialize (Hc t). destruct t as [key|path|path|path]; unfold as_arguments;
    rewrite value_get_first, value_get_second by first [done|keys_distinct];
    simpl; rewrite !as_string_json; apply wp_bind, wp_ret, wp_bind;
    [apply wp_bind, wp_ret, wp_bind, wp_lift; [intros [] _|done]|apply wp_bind, wp_ret..]; by apply Hc.
Qed.

(** ** The operations of a driver *)

Lemma wo_make_receipt {P} file meta id state observed data w :
  writes_only P file (make_receipt meta id state observed data) (λ _, True) w.
Proof. unfold make_receipt. wo_step. auto. Qed.

Lemma wo_settle_failed_write {P} file meta q t w : writes_only P file (settle_failed_write meta q t) (λ _, True) w.
Proof.
  unfold settle_failed_write. eapply wo_bind; [apply wo_attempt, wo_read_state|]. auto.
Qed.


Section Bound.
Context (d : BoundDriver) (file : string).
Hypothesis bound_to : value_get "path" (expected_driver_data d) ≫= as_string = Some file.

Lemma ensure_bound_data p : ensure_bound d p = Ok tt → prepared_driver_data p = expected_driver_data d.
Proof.
  unfold ensure_bound. rewrite reject_Ok, orb_false_iff, !bool_decide_eq_false. intros [_ Hd]. by apply dec_stable in Hd.
Qed.

(** After the target is resolved, the operation works on the file. *)
Lemma wo_bound {P A} p (m : ResolvedTarget → M World ProviderError A) w :
  (∀ t w', target_path t = file → writes_only P file (m t) (λ _, True) w') →
  writes_only P file (_ ← lift (ensure_bound d p); t ← target_from_prepared (inner_meta d) p; m t) (λ _, True) w.
Proof.
  intros Hm. eapply (wo_bind _ _ _ _ (λ _, prepared_driver_data p = expected_driver_data d)).
  { apply wo_lift. intros []. apply ensure_bound_data. }
  intros [] w1 Hp. eapply wo_bind; [apply wo_target_from_prepared|]. intros t w2 Ht. simpl in Ht.
  apply Hm. rewrite Hp, bound_to in Ht. by injection Ht.
Qed.

Lemma wo_bound_apply q w : writes_only False file (bound_apply d q) (λ _, True) w.
Proof.
  apply wo_bound. intros t w1 Ht. rewrite <- Ht. do 2 wo_step. eapply wo_bind; [apply wo_read_value|]. intros current w2 _.
  wo_step. eapply (wo_bind _ _ _ _ (λ _, True)).
  - case_bool_decide; [|auto]. eapply wo_bind; [apply wo_attempt, wo_write_value|]. intros [[]|e] w3 _; [auto|].
    eapply wo_bind; [apply wo_settle_failed_write|auto].
  - intros [] w3 _. eapply wo_bind; [apply wo_read_state|]. intros observed w4 _. apply wo_make_receipt.
Qed.

Lemma wo_bound_restore q w : writes_only False file (bound_restore d q) (λ _, True) w.
Proof.
  apply wo_bound. intros t w1 Ht. rewrite <- Ht. do 2 wo_step. eapply wo_bind; [apply wo_read_value|]. intros current w2 _.
  wo_step. eapply (wo_bind _ _ _ _ (λ _, True)).
  - case_bool_decide; [apply wo_write_value|auto].
  - intros [] w3 _. eapply wo_bind; [apply wo_read_state|]. intros observed w4 _. apply wo_make_receipt.
Qed.

Lemma wo_bound_verify q w : writes_only False file (bound_verify d q) (λ _, True) w.
Proof. apply wo_bound. intros t w1 _. eapply wo_bind; [apply wo_read_state|]. auto. Qed.

Lemma wo_bound_finalize q w : writes_only False file (bound_finalize d q) (λ _, True) w.
Proof.
  apply wo_bound. intros t w1 _. eapply wo_bind; [apply wo_read_state|]. intros observed w2 _. wo_step.
  apply wo_make_receipt.
Qed.

(** [canonicalize] answered the target's name, in this call, with a path that is not UTF-8. *)
Definition answered_no_text (t : LinuxMutationTarget) (o : O) : Prop :=
  ∃ path, (canonicalize (target_name t) (canonicalize (target_root t) o).2).1 = Ok path ∧ is_utf8 path = false.

Lemma wo_bound_prepare t q w :
  target_arguments d = as_arguments t →
  writes_only (answered_no_text t (os w)) file (bound_prepare d q)
    (λ p, prepared_resource p = expected_resource d ∧ prepared_driver_data p = expected_driver_data d) w.
Proof.
  intros Ht. unfold bound_prepare. apply (wo_bind_lift _ _ _ (λ _, True)); [done|]. intros value _.
  eapply (wo_bind _ _ _ _ (λ _, True)).
  - unfold linux_prepare. eapply wo_bind.
    { eapply wo_wp; [apply wo_target_from_arguments|]. cbn [prepare_arguments]. rewrite Ht.
      apply wp_target_from_bound. by apply (bool_decide_unpack _). }
    intros target w1 [Hc _]. simpl in Hc. do 2 wo_step.
    eapply wo_bind; [apply wo_read_state|]. intros from w2 _. wo_step.
    eapply wo_bind; [apply wo_prepared_identity; by exists (target_path target)|]. auto.
  - intros p w1 _. eapply (wo_bind _ _ _ _ (λ _, ensure_bound d p = Ok tt)); [apply wo_lift; by intros []|].
    intros [] w2 Hp. apply wo_ret. split; [|by apply ensure_bound_data]. unfold ensure_bound in Hp.
    rewrite reject_Ok, orb_false_iff, bool_decide_eq_false in Hp. destruct Hp as [Hp _]. by apply dec_stable in Hp.
Qed.

(** Any call of the driver by the runtime. *)
Inductive driver_call : World → World → Prop :=
  | call_prepare q w : driver_call w (prepare (bound_driver d) q w).2
  | call_apply q w : driver_call w (driver_apply (bound_driver d) q w).2
  | call_status q w : driver_call w (status (bound_driver d) q w).2
  | call_verify q w : driver_call w (verify (bound_driver d) q w).2
  | call_restore q w : driver_call w (restore (bound_driver d) q w).2
  | call_finalize q w : driver_call w (finalize (bound_driver d) q w).2.

Lemma run_call_world {A} (m : M World ProviderError A) w : (run_call m w).2 = (m w).2.
Proof. unfold run_call. by destruct (m w) as [ [] w']. Qed.

Lemma driver_call_writes w w' :
  (∃ t, target_arguments d = as_arguments t) →
  driver_call w w' → ∃ l, written w' = l ++ written w ∧ Forall (λ x, x.1 = file) l.
Proof.
  intros [t Ht] [q w0|q w0|q w0|q w0|q w0|q w0]; simpl; rewrite ?run_call_world.
  - by apply (wo_bound_prepare t q).
  - apply (wo_bound_apply q).
  - by exists [].
  - apply (wo_bound_verify q).
  - apply (wo_bound_restore q).
  - apply (wo_bound_finalize q).
Qed.
End Bound.

(** ** What a bound driver writes *)

(** What holds if a computation returns. *)
Definition returns {E A} (m : M World E A) (Q : A → World → Prop) w : Prop :=
  ∀ a w', m w = (Ret a, w') → Q a w'.

Lemma returns_bind {E A B} (m : M World E A) (f : A → M World E B) Q w :
  returns m (λ a, returns (f a) Q) w → returns (m ≫= f) Q w.
Proof.
  unfold returns, mbind, M_bind. intros Hm b w'. destruct (m w) as [ [a|e|] w1]; [|done..]. by apply Hm.
Qed.
Lemma returns_mono {E A} (m : M World E A) (P Q : A → World → Prop) w :
  returns m P w → (∀ a w', P a w' → Q a w') → returns m Q w.
Proof. unfold returns. eauto. Qed.
Lemma returns_lift {E A} (r : result E A) Q w : (∀ a, r = Ok a → Q a w) → returns (lift r) Q w.
Proof. unfold returns, lift. intros HQ a w'. destruct r; [|done]. intros [= <- <-]. by apply HQ. Qed.
Lemma returns_ret {E A} (a : A) Q w : Q a w → returns (mret a : M World E A) Q w.
Proof. unfold returns. intros HQ b w' [= <- <-]. done. Qed.
Lemma returns_in_os {A} (call : O → A * O) Q w :
  (Q (call (os w)).1 (MkLinuxWorld (call (os w)).2 (operations w) (written w))) → returns (in_os call) Q w.
Proof. unfold returns, in_os. intros HQ a w'. destruct (call (os w)). by intros [= <- <-]. Qed.
Lemma returns_attempt {E E' A} (m : M World E A) (Q : result E A → World → Prop) w :
  returns m (λ a, Q (Ok a)) w → (∀ e w', m w = (Throw e, w') → Q (Err e) w') →
  returns (attempt m : M World E' (result E A)) Q w.
Proof.
  unfold returns, attempt. intros HQ He r w'. destruct (m w) as [ [a|e|] w1]; [| |done];
    intros [= <- <-]; [by apply HQ|by apply He].
Qed.
Lemma returns_wp {E A} (m : M World E A) (Q : A → World → Prop) R w : wp m Q R w → returns m Q w.
Proof. unfold returns, wp. intros Hm a w' Ha. by rewrite Ha in Hm. Qed.

Lemma returns_bound_identity t (w : World) :
  returns (bound_identity (as_arguments t))
    (λ i _, ∃ file, resolves_to t (os w) file ∧ value_get "path" i.2 ≫= as_string = Some file) w.
Proof.
  unfold bound_identity. apply returns_bind.
  eapply returns_mono; [eapply returns_wp, (wp_target_from_bound t []); apply NoDup_singleton|].
  intros target w' Ht. unfold prepared_identity. apply returns_bind, returns_lift. intros resource _.
  apply returns_bind. destruct (is_utf8 _); [|done]. apply returns_ret, returns_ret.
  exists (target_path target). split; [done|]. simpl. rewrite value_get_second by done. simpl. apply as_string_json.
Qed.

(** C8. A driver bound to a target of the configuration is bound to one path, which the
    target's name, absolute and without [..], resolved to inside the resolved
    tree of its kind when the driver was made.  However the runtime calls it, in
    any order and with any arguments, and whatever the file system answers and
    does between the calls, it writes under no other path.  Applying, verifying,
    restoring and finalizing never panic; preparing panics only if [canonicalize],
    asked in that call, answers the target's name with a path that is not UTF-8,
    which [json!] cannot hold. *)
Theorem bound_driver_writes_only_its_file id description t w0 d w1 :
  BoundDriver_new id description t w0 = (Ret d, w1) →
  ∃ file, resolves_to t (os w0) file ∧ value_get "path" (expected_driver_data d) ≫= as_string = Some file
    ∧ (∀ w w', rtc (driver_call d) w w' → ∃ l, written w' = l ++ written w ∧ Forall (λ x, x.1 = file) l)
    ∧ (∀ q w, (bound_prepare d q w).1 = Panic → answered_no_text t (os w))
    ∧ (∀ q w, (bound_apply d q w).1 ≠ Panic)
    ∧ (∀ q w, (bound_verify d q w).1 ≠ Panic) ∧ (∀ q w, (bound_restore d q w).1 ≠ Panic)
    ∧ (∀ q w, (bound_finalize d q w).1 ≠ Panic).
Proof.
  intros Hd.
  assert (returns (BoundDriver_new id description t) (λ d _, target_arguments d = as_arguments t
    ∧ ∃ file, resolves_to t (os w0) file ∧ value_get "path" (expected_driver_data d) ≫= as_string = Some file) w0) as Hnew.
  { unfold BoundDriver_new. do 3 (apply returns_bind, returns_lift; intros ? _).
    apply returns_bind, returns_attempt.
    - eapply returns_mono; [apply returns_bound_identity|]. intros i w Hi.
      apply returns_bind, returns_lift. intros ? [= <-]. by apply returns_ret.
    - intros e w _. by apply returns_bind, returns_lift. }
  destruct (Hnew d w1 Hd) as (Ht & file & Hf & Hb). exists file.
  split; [done|]. split; [done|]. split; [|split_and!; intros q w].
  - intros w w' Hrun. induction Hrun as [w|w w2 w' Hcall _ (l & Hl & Hfl)]; [by exists []|].
    destruct (driver_call_writes d file Hb _ _ (ex_intro _ t Ht) Hcall) as (l' & Hl' & Hfl').
    exists (l ++ l'). split; [by rewrite Hl, Hl', app_assoc|by apply Forall_app].
  - exact (proj1 (proj2 (wo_bound_prepare d file t q w Ht))).
  - exact (proj1 (proj2 (wo_bound_apply d file Hb q w))).
  - exact (proj1 (proj2 (wo_bound_verify d file Hb q w))).
  - exact (proj1 (proj2 (wo_bound_restore d file Hb q w))).
  - exact (proj1 (proj2 (wo_bound_finalize d file Hb q w))).
Qed.
End Writes.

(** ** Reversibility *)

(** A file system in which only the driver changes the file, and both its tree and
    the file are their own canonical names.  [content] is what the file shows when
    it is read.  A write may be refused, and what the file shows after it is up to
    the kernel: it may put a line into another form, or keep the old one. *)
Class QuietFile {O : Type} `{!FileSystem O} (content : O → option string) (file root : string) := {
  canonicalize_file o : (canonicalize file o).1 = Ok file;
  canonicalize_root o : (canonicalize root o).1 = Ok root;
  canonicalize_keeps path o : content (canonicalize path o).2 = content o;
  read_file o c : (read_to_string file o).1 = Ok c ↔ content o = Some c;
  read_keeps path o : content (read_to_string path o).2 = content o;
}.

Section Reversible.
Context {O : Type} `{JD : JsonData, !Serialize string, !Serialize LinuxMutationTarget, !Sha256, !FileSystem O}.
Context `{!JsonLaws, !Sha256Laws}.
Context (content : O → option string) (file kind root : string) `{!QuietFile content file root}.
Abbreviation World := (LinuxWorld O).
Implicit Types (w : World).

Hypothesis strings_encode : ∀ s : string, ∃ e, to_vec s = Ok e.

(** The driver is bound to the file. *)
Record bound_at (d : BoundDriver) : Prop := {
  ba_data : expected_driver_data d = json_object [("kind", json_string kind); ("path", json_string file)];
  ba_root : root_for_kind kind = Ok root;
  ba_absolute : is_absolute file = true;
  ba_normal : existsb is_parent_or_current (components file) = false;
  ba_beneath : path_starts_with file root = true;
}.

(** Nothing was written. *)
Definition same_files w w' : Prop := content (os w') = content (os w) ∧ written w' = written w.

Lemma same_files_trans w1 w2 w3 : same_files w1 w2 → same_files w2 w3 → same_files w1 w3.
Proof. intros [? ?] [? ?]. split; congruence. Qed.

Definition line_state (value : string) : MutationState :=
  match mutation_state value with Ok s => s | Err _ => MkMutationState Value_Null (StringId "") end.

Lemma mutation_state_Ok value : mutation_state value = Ok (line_state value).
Proof.
  unfold line_state, mutation_state. destruct (strings_encode value) as (e & He).
  by rewrite (content_digest_encoded _ _ He).
Qed.

Lemma line_state_value value : state_value (line_state value) = json_string value.
Proof.
  unfold line_state, mutation_state. destruct (strings_encode value) as (e & He).
  by rewrite (content_digest_encoded _ _ He).
Qed.

Lemma state_string_line value : state_string (line_state value) = Ok value.
Proof. unfold state_string. by rewrite line_state_value, as_string_json. Qed.

Lemma line_state_inj v v' : line_state v = line_state v' → v = v'.
Proof. intros Hv. pose proof (state_string_line v) as Hs. rewrite Hv, state_string_line in Hs. by injection Hs. Qed.

Lemma wp_read_value w :
  wp (read_value file) (λ v w', (∃ c, content (os w) = Some c ∧ v = trim_line_ends c) ∧ same_files w w')
    (λ _ w', content (os w) = None ∧ same_files w w') w.
Proof.
  unfold read_value. pose proof (read_file (os w)) as Hr. pose proof (read_keeps file (os w)) as Hk.
  apply wp_bind. unfold wp at 1, in_os. destruct (read_to_string file (os w)) as [ [c|e] o]; simpl in *.
  - apply wp_ret. split; [exists c; by rewrite <- Hr|done].
  - apply wp_throw. split; [|done].
    destruct (content (os w)) as [c|]; [|done]. by pose proof (proj2 (Hr c) eq_refl).
Qed.

Lemma wp_read_state w :
  wp (read_state file)
    (λ st w', (∃ c, content (os w) = Some c ∧ st = line_state (trim_line_ends c)) ∧ same_files w w')
    (λ _ w', content (os w) = None ∧ same_files w w') w.
Proof.
  unfold read_state. apply wp_bind. eapply wp_mono; [apply wp_read_value| |done].
  intros v w1 [(c & Hc & ->) Hs]. rewrite mutation_state_Ok. apply wp_ret. split; [by exists c|done].
Qed.

(** A write of [line], made when the file showed what it shows in [w], was answered
    [r] and left what the file shows in [w']. *)
Definition write_answer (line : string) w (r : result string unit) w' : Prop :=
  ∃ o o', content o = content (os w) ∧ fs_write file (line +:+ line_feed) o = (r, o')
    ∧ content (os w') = content o'.

Lemma wp_write_value w line :
  wp (write_value file line)
    (λ _ w', written w' = (file, line +:+ line_feed) :: written w ∧ write_answer line w (Ok tt) w')
    (λ _ w', written w' = (file, line +:+ line_feed) :: written w ∧ ∃ e, write_answer line w (Err e) w') w.
Proof.
  unfold write_value. apply wp_bind. unfold wp at 1, in_os.
  destruct (fs_write file _ (os w)) as [r o] eqn:Hw. apply wp_bind, wp_modify, wp_lift; simpl.
  - intros [] Hr%map_err_Ok. subst r. split; [done|]. by exists (os w), o.
  - intros e Hr. destruct r as [ []|e']; [done|]. split; [done|]. exists e'. by exists (os w), o.
Qed.

Lemma wp_resolve d p w :
  bound_at d → prepared_capability_id p = meta_id (inner_meta d) → prepared_provider p = provider (inner_meta d) →
  prepared_driver_data p = expected_driver_data d →
  wp (target_from_prepared (inner_meta d) p)
    (λ t w', target_path t = file ∧ same_files w w') (λ _ _, False) w.
Proof.
  intros [Hdata Hroot Habs Hnorm Hbeneath] Hid Hpin Hd. unfold target_from_prepared, required_text.
  assert (validate_prepared_identity (inner_meta d) p = Ok tt) as ->.
  { apply reject_Ok. by rewrite Hid, Hpin, !bool_decide_eq_false_2 by auto. }
  apply wp_bind, wp_ret. rewrite Hd, Hdata, value_get_first, value_get_second by first [done|keys_distinct].
  simpl. rewrite !as_string_json. do 2 (apply wp_bind, wp_ret). rewrite Hroot. apply wp_bind, wp_ret, wp_bind.
  unfold canonicalize_beneath. rewrite Habs, Hnorm, Hbeneath. do 2 (apply wp_bind, wp_ret).
  apply wp_bind. unfold wp at 1, in_os at 1. pose proof (canonicalize_root (os w)) as Hc1.
  pose proof (canonicalize_keeps root (os w)) as Hk1. destruct (canonicalize root (os w)) as [r o1]. simpl in Hc1, Hk1. subst r.
  apply wp_bind, wp_ret. apply wp_bind. unfold wp at 1, in_os at 1. simpl. pose proof (canonicalize_file o1) as Hc2.
  pose proof (canonicalize_keeps file o1) as Hk2. destruct (canonicalize file o1) as [r o2]. simpl in Hc2, Hk2. subst r.
  apply wp_bind, wp_ret. rewrite Hbeneath. apply wp_bind, wp_ret, wp_ret. rewrite bool_decide_eq_false_2 by auto.
  apply wp_bind, wp_ret, wp_ret. split; [done|]. split; simpl; congruence.
Qed.

(** What [prepare] gives for a line of the file. *)
Record prepared_for (d : BoundDriver) (p : PreparedMutation) (from to : string) : Prop := {
  pf_id : prepared_capability_id p = meta_id (inner_meta d);
  pf_pin : prepared_provider p = provider (inner_meta d);
  pf_data : prepared_driver_data p = expected_driver_data d;
  pf_resource : prepared_resource p = expected_resource d;
  pf_baseline : baseline p = line_state from;
  pf_desired : desired p = line_state to;
}.

Lemma prepared_bound d p from to : prepared_for d p from to → ensure_bound d p = Ok tt.
Proof. intros []. apply reject_Ok. by rewrite orb_false_iff, !bool_decide_eq_false_2 by auto. Qed.

(** The drift check, for a file that holds the line [now]. *)
Lemma drift_reject (now from to : string) (e : ProviderError) :
  now = from ∨ now = to → reject (bool_decide (now ≠ from) && bool_decide (now ≠ to)) e = Ok tt.
Proof.
  intros Hn. apply reject_Ok, andb_false_iff. rewrite !bool_decide_eq_false. destruct Hn; [left|right]; auto.
Qed.

Definition holds w (line : string) : Prop := trim_line_ends <$> content (os w) = Some line.

Lemma holds_content w line : holds w line → ∃ c, content (os w) = Some c ∧ trim_line_ends c = line.
Proof. unfold holds. destruct (content (os w)) as [c|]; [|done]. intros [= <-]. by exists c. Qed.

Lemma holds_same w w' line : same_files w w' → holds w line → holds w' line.
Proof. unfold holds. by intros [-> _]. Qed.

Lemma wp_read_line w line :
  holds w line → wp (read_value file) (λ v w', v = line ∧ same_files w w') (λ _ _, False) w.
Proof.
  intros (c & Hc & <-)%holds_content.
  eapply wp_mono; [apply wp_read_value|intros v w' [(c' & Hc' & ->) Hs]|intros e w' [Hn _]]; simplify_eq; done.
Qed.

Lemma wp_read_line_state w line :
  holds w line → wp (read_state file) (λ v w', v = line_state line ∧ same_files w w') (λ _ _, False) w.
Proof.
  intros (c & Hc & <-)%holds_content.
  eapply wp_mono; [apply wp_read_state|intros v w' [(c' & Hc' & ->) Hs]|intros e w' [Hn _]]; simplify_eq; done.
Qed.

Lemma write_answer_same line w r w1 w2 : same_files w1 w2 → write_answer line w r w1 → write_answer line w r w2.
Proof. intros [Hs _] (o & o' & ? & ? & ?). exists o, o'. by rewrite Hs. Qed.

Lemma write_answer_before line w w1 r w2 : same_files w w1 → write_answer line w1 r w2 → write_answer line w r w2.
Proof. intros [Hs _] (o & o' & ? & ? & ?). exists o, o'. by rewrite <- Hs. Qed.

(** How a call may end that wrote [line] once: with the receipt of what a read
    showed afterwards, with an error of the write, after which [refused] holds, or
    with an error of that read. *)
Definition write_outcome (line : string) (success : MutationOperationState) (op : OperationId)
    (refused : World → Prop) w (res : outcome ProviderError MutationReceipt) w' : Prop :=
  written w' = (file, line +:+ line_feed) :: written w
  ∧ match res with
    | Ret r => write_answer line w (Ok tt) w' ∧ receipt_operation_id r = op
        ∧ ∃ after, holds w' after ∧ receipt_observed r = Some (line_state after)
          ∧ receipt_state r = if bool_decide (after = line) then success else Unknown
    | Throw _ => (∃ e, write_answer line w (Err e) w') ∧ refused w'
        ∨ write_answer line w (Ok tt) w' ∧ content (os w') = None
    | Panic => False
    end.

(** The kernel takes the line and shows it again. *)
Definition accepts (line : string) : Prop :=
  ∀ o r o', is_Some (content o) → fs_write file (line +:+ line_feed) o = (r, o') →
    r = Ok tt ∧ trim_line_ends <$> content o' = Some line.

Lemma accepted line success op refused w now res w' :
  accepts line → holds w now → write_outcome line success op refused w res w' →
  ∃ r, res = Ret r ∧ receipt_state r = success ∧ holds w' line.
Proof.
  intros Ha (c & Hc & _)%holds_content [_ Hres].
  assert (∀ r, write_answer line w r w' → r = Ok tt ∧ holds w' line) as Hans.
  { intros r (o & o' & Ho & Hw & Hw'). unfold holds. rewrite Hw'. eapply Ha; [|done]. rewrite Ho. by eexists. }
  destruct res as [r|e|]; [| |done].
  - destruct Hres as (Hw & _ & after & Hafter & _ & Hst). apply Hans in Hw as [_ Hl].
    exists r. split; [done|]. unfold holds in *. rewrite Hl in Hafter. injection Hafter as <-.
    by rewrite bool_decide_eq_true_2 in Hst by done.
  - exfalso. destruct Hres as [ [(e' & Hw) _]|[Hw Hn] ]; apply Hans in Hw as [? Hl]; [done|].
    unfold holds in Hl. by rewrite Hn in Hl.
Qed.

(** What the operation table says of a call whose write failed. *)
Definition settled (d : BoundDriver) (from to : string) (op : OperationId) w : Prop :=
  ∃ s, driver_operations (inner_meta d) w !! op = Some s ∧
    match trim_line_ends <$> content (os w) with
    | Some line => status_observed s = Some (line_state line)
        ∧ status_state s = if bool_decide (line = to) then Applied else if bool_decide (line = from) then NotApplied else Unknown
    | None => status_observed s = None ∧ status_state s = Unknown
    end.

Section Calls.
Context (d : BoundDriver) (p : PreparedMutation) (from to : string).
Hypothesis at_file : bound_at d.
Hypothesis prepared : prepared_for d p from to.

Lemma wp_start {A} (m : ResolvedTarget → M World ProviderError A) Q R w :
  (∀ t w', target_path t = file → same_files w w' → wp (m t) Q R w') →
  wp (_ ← lift (ensure_bound d p); t ← target_from_prepared (inner_meta d) p; m t) Q R w.
Proof.
  intros Hm. rewrite (prepared_bound _ _ _ _ prepared). apply wp_bind, wp_ret, wp_bind.
  eapply wp_mono; [apply (wp_resolve d); [done|apply prepared..]| |done].
  intros t w' [Ht Hs]. by apply Hm.
Qed.

(** Running from [w2], after [w] with nothing written between. *)
Lemma wp_receipt line success op refused w w1 (data : Value) :
  written w1 = (file, line +:+ line_feed) :: written w → write_answer line w (Ok tt) w1 →
  let m := observed ← read_state file;
    make_receipt (inner_meta d) op (if bool_decide (observed = line_state line) then success else Unknown)
      (Some observed) data in
  wp m (λ r, write_outcome line success op refused w (Ret r))
    (λ e, write_outcome line success op refused w (Throw e)) w1.
Proof.
  intros Hw Ha. apply wp_bind. eapply wp_mono; [apply wp_read_state| |].
  - intros st w2 [(c & Hc & ->) Hs]. apply wp_bind, wp_modify, wp_ret. split; [by rewrite <- Hw; apply Hs|].
    split; [eapply write_answer_same, Ha; by split; [apply Hs|apply Hs]|]. split; [done|].
    exists (trim_line_ends c). split_and!; [|done|].
    + unfold holds. simpl. destruct Hs as [-> _]. by rewrite Hc.
    + simpl. apply (f_equal (λ b : bool, if b then success else Unknown)), bool_decide_ext.
      split; [apply line_state_inj|by intros ->].
  - intros e w2 [Hn Hs]. split; [by rewrite <- Hw; apply Hs|]. right.
    split; [by eapply write_answer_same|]. destruct Hs as [-> _]. done.
Qed.

(** A file that already holds the line is only read. *)
Lemma wp_no_write line success op w (data : Value) :
  holds w line →
  let m := observed ← read_state file;
    make_receipt (inner_meta d) op (if bool_decide (observed = line_state line) then success else Unknown)
      (Some observed) data in
  wp m (λ r w', receipt_state r = success ∧ receipt_operation_id r = op ∧ same_files w w') (λ _ _, False) w.
Proof.
  intros Hl. apply wp_bind. eapply wp_mono; [by apply wp_read_line_state| |done]. intros st w2 [-> Hs].
  rewrite bool_decide_eq_true_2 by done. apply wp_bind, wp_modify, wp_ret. split; [done|]. split; [done|]. apply Hs.
Qed.

(** Both operations, up to their write. *)
Lemma wp_current {A} (now : string) (e : ProviderError) (m : string → M World ProviderError A) Q R w :
  holds w now → now = from ∨ now = to → (∀ w', same_files w w' → wp (m now) Q R w') →
  wp (current ← read_value file; _ ← lift (reject (bool_decide (current ≠ from) && bool_decide (current ≠ to)) e);
      m current) Q R w.
Proof.
  intros Hh Hn Hm. apply wp_bind. eapply wp_mono; [by apply wp_read_line| |done].
  intros v w2 [-> Hs2]. rewrite drift_reject by done. by apply wp_bind, wp_ret, Hm.
Qed.

Lemma wp_settle op t w :
  target_path t = file →
  wp (settle_failed_write (inner_meta d) (MkApplyRequest op p) t)
    (λ _ w', settled d from to op w' ∧ same_files w w') (λ _ _, False) w.
Proof.
  intros Ht. unfold settle_failed_write. rewrite Ht. simpl.
  rewrite (pf_baseline _ _ _ _ prepared), (pf_desired _ _ _ _ prepared).
  assert (∀ a b : string, bool_decide (Some (line_state a) = Some (line_state b)) = bool_decide (a = b)) as Hb.
  { intros a b. apply bool_decide_ext. split; [intros [= Hl]; by apply line_state_inj|by intros ->]. }
  apply wp_bind, wp_attempt. eapply wp_mono; [apply wp_read_state| |]; simpl.
  - intros st w2 [(c & Hc & ->) Hs]. apply wp_modify. split; [|by split; apply Hs].
    eexists. unfold driver_operations. simpl. rewrite lookup_insert_eq. simpl. rewrite lookup_insert_eq.
    split; [done|]. destruct Hs as [-> _]. rewrite Hc. simpl. by rewrite !Hb.
  - intros e w2 [Hn Hs]. apply wp_modify. split; [|by split; apply Hs].
    eexists. unfold driver_operations. simpl. rewrite lookup_insert_eq. simpl. rewrite lookup_insert_eq.
    split; [done|]. destruct Hs as [-> _]. by rewrite Hn.
Qed.

(** What a call does on one of its two lines: nothing more than reading when it is
    [line], and otherwise one write. *)
Definition call_outcome (line : string) (success : MutationOperationState) (op : OperationId)
    (refused : World → Prop) w (now : string) (res : outcome ProviderError MutationReceipt) w' : Prop :=
  if bool_decide (now = line)
  then ∃ r, res = Ret r ∧ receipt_state r = success ∧ receipt_operation_id r = op ∧ same_files w w'
  else write_outcome line success op refused w res w'.

Lemma wp_line_set line success op refused w0 w now (put : M World ProviderError unit) (data : Value) :
  same_files w0 w → holds w now →
  (now ≠ line → wp put
    (λ _ w', written w' = (file, line +:+ line_feed) :: written w ∧ write_answer line w (Ok tt) w')
    (λ e, write_outcome line success op refused w (Throw e)) w) →
  let m := _ ← (if bool_decide (now ≠ line) then put else mret tt);
    observed ← read_state file;
    make_receipt (inner_meta d) op (if bool_decide (observed = line_state line) then success else Unknown)
      (Some observed) data in
  wp m (λ r, call_outcome line success op refused w0 now (Ret r))
    (λ e, call_outcome line success op refused w0 now (Throw e)) w.
Proof.
  intros Hs0 Hh Hput. unfold call_outcome. destruct (decide (now = line)) as [->|Hne].
  - rewrite (bool_decide_eq_true_2 (line = line)) by done.
    rewrite (bool_decide_eq_false_2 (line ≠ line)) by auto. apply wp_bind, wp_ret.
    eapply wp_mono; [by apply (wp_no_write line success op)| |done].
    intros r w' (? & ? & Hs). exists r. split_and!; [done..|]. by eapply same_files_trans.
  - rewrite (bool_decide_eq_false_2 (now = line)), (bool_decide_eq_true_2 (now ≠ line)) by done. apply wp_bind.
    assert (∀ res w', write_outcome line success op refused w res w' → write_outcome line success op refused w0 res w') as Hb.
    { intros res w' [Hw Hr]. split; [by rewrite Hw, (proj2 Hs0)|].
      destruct res; [|destruct Hr as [ [(e' & Hr) ?]|[Hr ?] ]; [left|right]|done];
        [destruct Hr as [Hr ?]| |]; (split; [|done]); [|exists e'|]; by eapply write_answer_before. }
    eapply wp_mono; [by apply Hput| |intros e w' He; by apply Hb].
    intros [] w1 [Hw Ha]. eapply wp_mono; [by apply (wp_receipt line success op refused w)| |]; intros; by apply Hb.
Qed.

Lemma wp_bound_apply w op now :
  holds w now → now = from ∨ now = to →
  wp (bound_apply d (MkApplyRequest op p))
    (λ r, call_outcome to Applied op (settled d from to op) w now (Ret r))
    (λ e, call_outcome to Applied op (settled d from to op) w now (Throw e)) w.
Proof.
  intros Hh Hn. apply wp_start. intros t w1 Ht Hs1. simpl apply_prepared.
  pose proof (holds_same _ _ _ Hs1 Hh) as Hh1.
  rewrite (pf_baseline _ _ _ _ prepared), (pf_desired _ _ _ _ prepared), !state_string_line, Ht.
  do 2 (apply wp_bind, wp_ret). apply (wp_current now); [done..|]. intros w2 Hs2.
  pose proof (holds_same _ _ _ Hs2 Hh1) as Hh2. pose proof (same_files_trans _ _ _ Hs1 Hs2) as Hs.
  apply wp_line_set; [done..|]. intros Hne. apply wp_bind, wp_attempt. eapply wp_mono; [apply wp_write_value| |].
  - intros [] w3 Hw3. by apply wp_ret.
  - intros e w3 [Hw3 (e' & Ha)]. apply wp_bind. eapply wp_mono; [by apply wp_settle| |done].
    intros [] w4 [Hset Hs4]. apply wp_throw. split; [by rewrite (proj2 Hs4)|]. left. split; [|done].
    exists e'. by eapply write_answer_same.
Qed.

Lemma wp_bound_restore w op now :
  holds w now → now = from ∨ now = to →
  wp (bound_restore d (MkRestoreRequest op p))
    (λ r, call_outcome from Restored op (λ _, True) w now (Ret r))
    (λ e, call_outcome from Restored op (λ _, True) w now (Throw e)) w.
Proof.
  intros Hh Hn. apply wp_start. intros t w1 Ht Hs1. simpl restore_prepared.
  pose proof (holds_same _ _ _ Hs1 Hh) as Hh1.
  rewrite (pf_baseline _ _ _ _ prepared), (pf_desired _ _ _ _ prepared), !state_string_line, Ht.
  do 2 (apply wp_bind, wp_ret). apply (wp_current now); [done..|]. intros w2 Hs2.
  pose proof (holds_same _ _ _ Hs2 Hh1) as Hh2. pose proof (same_files_trans _ _ _ Hs1 Hs2) as Hs.
  apply wp_line_set; [done..|]. intros Hne. eapply wp_mono; [apply wp_write_value|done|].
  intros e w3 [Hw3 He]. split; [done|]. by left.
Qed.

Lemma call_outcome_accepted line success op refused w now res w' :
  accepts line → holds w now → call_outcome line success op refused w now res w' →
  ∃ r, res = Ret r ∧ receipt_state r = success ∧ holds w' line.
Proof.
  unfold call_outcome. intros Ha Hh. case_bool_decide as Hn; [|by eapply accepted].
  subst now. intros (r & -> & ? & _ & Hs). exists r. split; [done|]. split; [done|]. by eapply holds_same.
Qed.

(** A line somebody else wrote is neither overwritten nor taken back. *)
Lemma wp_drifted w op now :
  holds w now → now ≠ from → now ≠ to →
  wp (bound_apply d (MkApplyRequest op p)) (λ _ _, False) (λ e w', provider_error_kind e = Conflict ∧ same_files w w') w
  ∧ wp (bound_restore d (MkRestoreRequest op p)) (λ _ _, False) (λ e w', provider_error_kind e = Conflict ∧ same_files w w') w.
Proof.
  intros Hh Hf Ht. assert (∀ e : ProviderError,
    reject (bool_decide (now ≠ from) && bool_decide (now ≠ to)) e = Err e) as Hr.
  { intros e. by rewrite !bool_decide_eq_true_2. }
  split; apply wp_start; intros t w1 Hp Hs1; pose proof (holds_same _ _ _ Hs1 Hh) as Hh1; simpl;
    rewrite (pf_baseline _ _ _ _ prepared), (pf_desired _ _ _ _ prepared), !state_string_line, Hp;
    do 2 (apply wp_bind, wp_ret); apply wp_bind; (eapply wp_mono; [by apply wp_read_line| |done]);
    intros v w2 [-> Hs2]; rewrite Hr; apply wp_bind, wp_throw;
    (split; [done|by eapply same_files_trans]).
Qed.
End Calls.

(** Reading a specification off a computation that cannot fail. *)
Lemma wp_returns {E A} (m : M World E A) (Q : A → World → Prop) w :
  wp m Q (λ _ _, False) w → ∃ a w', m w = (Ret a, w') ∧ Q a w'.
Proof. unfold wp. destruct (m w) as [ [a|e|] w']; [|done..]. intros HQ. by exists a, w'. Qed.
Lemma wp_throws {E A} (m : M World E A) (R : E → World → Prop) w :
  wp m (λ _ _, False) R w → ∃ e w', m w = (Throw e, w') ∧ R e w'.
Proof. unfold wp. destruct (m w) as [ [a|e|] w']; [done| |done]. intros HR. by exists e, w'. Qed.

Lemma returns_canonicalize_beneath path r w : returns (canonicalize_beneath path r) (λ _, same_files w) w.
Proof.
  unfold canonicalize_beneath. do 2 (apply returns_bind, returns_lift; intros [] _).
  apply returns_bind, returns_in_os, returns_bind, returns_lift. intros croot _.
  apply returns_bind, returns_in_os, returns_bind, returns_lift. intros cpath _.
  apply returns_bind, returns_lift. intros [] _. apply returns_ret. split; simpl; [|done].
  by rewrite !canonicalize_keeps.
Qed.

Lemma returns_target_from_arguments v w : returns (target_from_arguments v) (λ _, same_files w) w.
Proof.
  unfold target_from_arguments, canonicalize_declared_path. do 2 (apply returns_bind, returns_lift; intros ? _).
  apply returns_bind.
  apply (returns_mono _ (λ _ : string, same_files w)); [|intros path w' Hw; by apply returns_ret].
  repeat case_bool_decide; [do 2 (apply returns_bind, returns_lift; intros ? _)|
    apply returns_bind, returns_lift; intros ? _..|done]; apply returns_canonicalize_beneath.
Qed.

Lemma returns_read_state path w line :
  holds w line →
  returns (read_state path) (λ st w', same_files w w' ∧ (path = file → st = line_state line)) w.
Proof.
  intros Hl. unfold read_state, read_value. apply returns_bind, returns_bind, returns_in_os.
  pose proof (read_keeps path (os w)) as Hk. destruct (read_to_string path (os w)).1 as [c|e] eqn:Hc; [|done].
  apply returns_ret, returns_lift. intros st Hst. rewrite mutation_state_Ok in Hst. injection Hst as <-.
  split; [by split|]. intros ->. apply holds_content in Hl as (c' & Hc' & <-).
  apply read_file in Hc. by rewrite Hc in Hc'; injection Hc' as ->.
Qed.

Lemma returns_bound_prepare d q w from :
  bound_at d → holds w from →
  returns (bound_prepare d q) (λ p w', ∃ to, same_files w w' ∧ prepared_for d p from to
    ∧ value_get "value" (prepare_arguments q) ≫= as_string = Some to ∧ trim_line_ends to = to) w.
Proof.
  intros [Hdata _ _ _ _] Hfrom. unfold bound_prepare.
  apply returns_bind, returns_lift. intros to Hto. unfold bound_value in Hto.
  apply result_bind_Ok in Hto as (keys & _ & Hto). apply reject_bind_Ok in Hto as [_ Hto].
  apply result_bind_Ok in Hto as (v & Hv & Hto). apply reject_bind_Ok in Hto as [_ [= <-]].
  assert (value_get "value" (prepare_arguments q) ≫= as_string = Some v) as Hval.
  { unfold required_text, ok_or in Hv. destruct (_ ≫= as_string); [by injection Hv as ->|done]. }
  apply returns_bind. unfold linux_prepare, required_text.
  apply returns_bind. eapply returns_mono; [apply returns_target_from_arguments|]. intros t w1 Hs1.
  cbn [prepare_arguments]. rewrite value_get_second by done. cbn [mbind option_bind]. rewrite as_string_json.
  apply returns_bind, returns_lift. intros ? [= <-].
  apply returns_bind, returns_lift. intros [] Hline%reject_Ok. apply orb_false_iff in Hline as [Hn Hr].
  apply returns_bind. eapply returns_mono; [apply returns_read_state, (holds_same _ _ _ Hs1 Hfrom)|].
  intros st w2 [Hs2 Hst]. rewrite mutation_state_Ok. apply returns_bind, returns_lift. intros ? [= <-].
  apply returns_bind. unfold prepared_identity. apply returns_bind, returns_lift. intros resource _.
  apply returns_bind. destruct (is_utf8 (target_path t)); [|done]. do 2 apply returns_ret. apply returns_ret.
  apply returns_bind, returns_lift. intros [] Hb. apply returns_ret. exists v.
  split; [exact (same_files_trans _ _ _ Hs1 Hs2)|]. split; [|split; [done|by apply trim_line_ends_line]].
  pose proof Hb as Hd%ensure_bound_data. simpl in Hd. rewrite Hdata in Hd.
  assert (target_path t = file) as Hpath.
  { pose proof (f_equal (λ v, value_get "path" v ≫= as_string) Hd) as Hp. simpl in Hp.
    rewrite !value_get_second in Hp by done. simpl in Hp. rewrite !as_string_json in Hp. by injection Hp. }
  assert (resource = expected_resource d) as Hres.
  { apply reject_Ok in Hb. rewrite orb_false_iff, bool_decide_eq_false in Hb. destruct Hb as [Hb _].
    by apply dec_stable in Hb. }
  split; simpl; [done|done|by rewrite Hd|done|by apply Hst|done].
Qed.

Lemma wp_bound_verify d p from to w op expected now :
  bound_at d → prepared_for d p from to → holds w now →
  wp (bound_verify d (MkVerifyRequest op p expected))
    (λ v w', (matched v = true ↔ expected = line_state now) ∧ same_files w w') (λ _ _, False) w.
Proof.
  intros Hat Hp Hn. eapply wp_start; [done..|]. intros t w1 Ht Hs1. rewrite Ht. apply wp_bind.
  eapply wp_mono; [apply wp_read_line_state, (holds_same _ _ _ Hs1 Hn)| |done].
  intros st w2 [-> Hs2]. apply wp_ret. simpl. rewrite bool_decide_eq_true. split; [done|exact (same_files_trans _ _ _ Hs1 Hs2)].
Qed.

(** C9. On a file that only the driver changes, a mutation that [prepare] returned
    holds the line the file shows and the one line the agent asked for, and each
    call says what the file shows.  Applying it on one of these two lines writes
    nothing if the desired line is there and is answered [Applied]; otherwise it
    writes that line once, and is answered [Applied] if a read then shows exactly
    it, [Unknown] with what is shown if the kernel made something else of it, or
    with an error if the write was refused, when the operation table says by a
    read which of the lines the file shows, or if that read fails.  Restoring does
    the same with the old line and [Restored].  So wherever the kernel takes both
    lines and shows them again, applying and restoring succeed, in any order and
    number, and leave the desired and the old line.  On a third line both answer
    [Conflict] and write nothing; the readback compares with what is there. *)
Theorem changes_are_reversible d q w p w1 :
  bound_at d → (∃ line, holds w line) → bound_prepare d q w = (Ret p, w1) →
  ∃ from to, holds w from ∧ same_files w w1 ∧ prepared_for d p from to
    ∧ value_get "value" (prepare_arguments q) ≫= as_string = Some to
    ∧ ∀ w2 now op, holds w2 now →
      let '(applied, w3) := bound_apply d (MkApplyRequest op p) w2 in
      let '(restored, w4) := bound_restore d (MkRestoreRequest op p) w2 in
      (now = from ∨ now = to →
        call_outcome to Applied op (settled d from to op) w2 now applied w3
        ∧ call_outcome from Restored op (λ _, True) w2 now restored w4
        ∧ (accepts to → ∃ r, applied = Ret r ∧ receipt_state r = Applied ∧ holds w3 to)
        ∧ (accepts from → ∃ r, restored = Ret r ∧ receipt_state r = Restored ∧ holds w4 from))
      ∧ (now ≠ from → now ≠ to →
         (∃ e, applied = Throw e ∧ provider_error_kind e = Conflict) ∧ same_files w2 w3
         ∧ (∃ e, restored = Throw e ∧ provider_error_kind e = Conflict) ∧ same_files w2 w4)
      ∧ ∀ expected, ∃ v w5, bound_verify d (MkVerifyRequest op p expected) w2 = (Ret v, w5)
          ∧ (matched v = true ↔ expected = line_state now) ∧ same_files w2 w5.
Proof.
  intros Hat (from & Hfrom) Hp.
  destruct (returns_bound_prepare d q w from Hat Hfrom p w1 Hp) as (to & Hs & Hpf & Hv & Hto).
  exists from, to. do 4 (split; [done|]). intros w2 now op Hn.
  pose proof (λ Hnow, wp_bound_apply d p from to Hat Hpf w2 op now Hn Hnow) as Ha.
  pose proof (λ Hnow, wp_bound_restore d p from to Hat Hpf w2 op now Hn Hnow) as Hr.
  pose proof (λ Hf Ht, wp_drifted d p from to Hat Hpf w2 op now Hn Hf Ht) as Hd. unfold wp in *.
  destruct (bound_apply d _ w2) as [applied w3], (bound_restore d _ w2) as [restored w4]. split_and!.
  - intros Hnow. assert (call_outcome to Applied op (settled d from to op) w2 now applied w3) as Ha'
      by (specialize (Ha Hnow); by destruct applied).
    assert (call_outcome from Restored op (λ _, True) w2 now restored w4) as Hr'
      by (specialize (Hr Hnow); by destruct restored).
    split_and!; [done|done|intros Hacc|intros Hacc]; by eapply call_outcome_accepted.
  - intros Hf Ht. destruct (Hd Hf Ht) as [Hda Hdr]. destruct applied, restored; try done.
    destruct Hda, Hdr. split_and!; eauto.
  - intros expected. by apply (wp_returns _ _ _ (wp_bound_verify d p from to w2 op expected now Hat Hpf Hn)).
Qed.
End Reversible.
