(* ===== verification/Tools.v ===== *)
(** * The agent's tools ([tuning_agent/src/agent/tool_catalog.rs], [dispatcher.rs])

    The catalog of tools made from a capability snapshot, with the schemas it
    shows to the agent, and the decoding of a tool call into a command.

    The second part characterizes the commands that calls decode to. *)

From S2P Require Export Skills Registry.

Local Open Scope Z_scope.

Section Tools.
Context `{JD : JsonData, !Sha256}.

Inductive CatalogKind :=
  | CK_Probe | CK_Mutation | CK_BeginExperiment | CK_RequestCommit | CK_Abort | CK_LoadSkill
  | CK_LoadSkillReference.

Record CatalogEntry := MkEntry { entry_kind : CatalogKind; entry_capability_id : option CapabilityId }.

Record AgentToolSpec := MkToolSpec {
  tool_name : string; tool_description : string; tool_input_schema : Value }.

Record ToolCatalog := MkToolCatalog {
  catalog_specs : list AgentToolSpec; catalog_map : gmap string CatalogEntry }.

(** ** Schemas *)

Definition alternatives (variants : list Value) : Value :=
  if bool_decide (variants = []) then json_object [("not", json_object [])]
  else json_object [("oneOf", json_array variants)].

Definition mutation_schema (provider_schema : Value) : Value :=
  json_object
    [("type", json_string "object"); ("additionalProperties", json_bool false);
     ("required", json_array [json_string "arguments"; json_string "reason"]);
     ("properties", json_object
        [("arguments", provider_schema);
         ("reason", json_object [("type", json_string "string"); ("minLength", json_integer 1)])])].

(** [str::trim_end_matches('.')]. *)
Definition trim_end_dots (s : string) : string :=
  let fix go (s : string) : string :=
    match s with
    | "" => ""
    | String a rest =>
      let rest := go rest in
      if bool_decide (rest = "") && bool_decide (a = "046"%char) then "" else String a rest
    end in go s.

(** What a metric of an output schema says of itself. *)
Definition metric_meaning (schema : Value) : string :=
  match value_get "description" schema ≫= as_string with
  | Some meaning => meaning
  | None => default "provider-defined value" (value_get "type" schema ≫= as_string)
  end.

Definition output_metrics (meta : CapabilityMeta) : list string :=
  match value_get "properties" (output_schema meta) with
  | None => []
  | Some properties =>
    omap (λ name, (λ schema, name +:+ ": " +:+ metric_meaning schema) <$> value_get name properties)
      (default [] (object_keys properties))
  end.

Definition binding_description (meta : CapabilityMeta) : string :=
  if bool_decide (kind meta ≠ Measurement) then description meta
  else if bool_decide (output_metrics meta = []) then description meta
  else trim_end_dots (description meta) +:+ ". Output metrics: "
       +:+ String.concat "; " (output_metrics meta) +:+ ".".

Definition binding_schema (meta : CapabilityMeta) : Value :=
  json_object
    [("type", json_string "object"); ("description", json_string (binding_description meta));
     ("additionalProperties", json_bool false);
     ("required", json_array [json_string "capability_id"; json_string "specification"]);
     ("properties", json_object
        [("capability_id", json_object [("const", json_string (as_str (meta_id meta)))]);
         ("specification", input_schema meta)])].

(** [CapabilitySnapshot::iter_meta]. *)
Definition metas_in_order {W} (snapshot : CapabilitySnapshot W) : list CapabilityMeta :=
  omap (snapshot_meta snapshot) (ids_in_order (dom (snap_metadata snapshot))).

Definition bounded_integer (minimum maximum : Z) : Value :=
  json_object [("type", json_string "integer"); ("minimum", json_integer minimum);
               ("maximum", json_integer maximum)].

Definition evaluation_contract_schema {W} (snapshot : CapabilitySnapshot W) : Value :=
  let measurement := binding_schema <$>
    base.filter (λ meta, kind meta = Measurement ∧ is_agent_selectable meta = true)
      (metas_in_order snapshot) in
  let comparison := binding_schema <$>
    base.filter (λ meta, kind meta = Comparison) (metas_in_order snapshot) in
  let comparisons (limit : nat) :=
    [("type", json_string "array")] ++ [("maxItems", json_integer (Z.of_nat limit));
     ("items", alternatives comparison)] in
  json_object
    [("type", json_string "object"); ("additionalProperties", json_bool false);
     ("required", json_array [json_string "measurement"; json_string "primary"]);
     ("properties", json_object
        [("measurement", alternatives measurement);
         ("primary", json_object
            [("type", json_string "array"); ("minItems", json_integer 1);
             ("maxItems", json_integer (Z.of_nat MAX_PRIMARY_COMPARISONS));
             ("items", alternatives comparison)]);
         ("regression_guards", json_object (comparisons MAX_REGRESSION_GUARDS));
         ("workload_invariants", json_object (comparisons MAX_WORKLOAD_INVARIANTS));
         ("sampling", json_object
            [("type", json_string "object"); ("additionalProperties", json_bool false);
             ("properties", json_object
                [("settle_ms", bounded_integer 0 60000); ("sample_count", bounded_integer 1 30);
                 ("sample_interval_ms", bounded_integer 0 60000)])])])].

(** ** The catalog *)

(** The first 16 bytes of the digest in hexadecimal. *)
Definition capability_tool_name (prefix : string) (id : CapabilityId) : string :=
  prefix +:+ "_" +:+ String.substring 0 32 (sha256_hex (as_str id)).

Definition add_capability (prefix : string) (k : CatalogKind) (meta : CapabilityMeta) (schema : Value)
    (c : ToolCatalog) : ToolCatalog :=
  let name := capability_tool_name prefix (meta_id meta) in
  MkToolCatalog
    (catalog_specs c ++ [MkToolSpec name (description meta +:+ " [capability_id="
                           +:+ as_str (meta_id meta) +:+ "]") schema])
    (<[name := MkEntry k (Some (meta_id meta))]> (catalog_map c)).

Definition add_builtin (name : string) (k : CatalogKind) (description : string) (schema : Value)
    (c : ToolCatalog) : ToolCatalog :=
  MkToolCatalog (catalog_specs c ++ [MkToolSpec name description schema])
    (<[name := MkEntry k None]> (catalog_map c)).

Definition add_meta (c : ToolCatalog) (meta : CapabilityMeta) : ToolCatalog :=
  match kind meta with
  | Probe => add_capability "probe" CK_Probe meta (input_schema meta) c
  | Mutation => add_capability "experiment" CK_Mutation meta (mutation_schema (input_schema meta)) c
  | Measurement | Comparison => c
  end.

Definition non_empty_string : Value :=
  json_object [("type", json_string "string"); ("minLength", json_integer 1)].

Definition closed_object (required : list string) (properties : list (string * Value)) : Value :=
  json_object
    [("type", json_string "object"); ("additionalProperties", json_bool false);
     ("required", json_array (json_string <$> required)); ("properties", json_object properties)].

Definition from_snapshot {W} (snapshot : CapabilitySnapshot W) : ToolCatalog :=
  let catalog := foldl add_meta (MkToolCatalog [] ∅) (metas_in_order snapshot) in
  let catalog := add_builtin "begin_experiment" CK_BeginExperiment
    "Freeze the episode's only objective and complete evaluation contract before any mutation. Use only exact metric names listed in the selected measurement capability's Output metrics."
    (closed_object ["objective"; "evaluation_contract"]
      [("objective", json_object [("type", json_string "string"); ("minLength", json_integer 1);
          ("maxLength", json_integer (Z.of_nat MAX_OBJECTIVE_STATEMENT_BYTES))]);
       ("evaluation_contract", evaluation_contract_schema snapshot)]) catalog in
  let catalog := add_builtin "request_commit" CK_RequestCommit
    "Request the episode's single deterministic evaluation using only the latest verified change ID for each selected resource. Runtime alone may commit."
    (closed_object ["change_ids"; "reason"]
      [("change_ids", json_object [("type", json_string "array"); ("minItems", json_integer 1);
          ("uniqueItems", json_bool true); ("items", non_empty_string)]);
       ("reason", non_empty_string)]) catalog in
  add_builtin "abort" CK_Abort "End the current experiment and restore all uncommitted changes."
    (closed_object ["reason"] [("reason", non_empty_string)]) catalog.

Definition skill_name_schema : Value :=
  json_object [("type", json_string "string"); ("minLength", json_integer 1);
    ("maxLength", json_integer 64); ("pattern", json_string "^[a-z0-9]+(?:-[a-z0-9]+)*$")].

Definition from_snapshots {W} (snapshot : CapabilitySnapshot W) (skills_available : bool)
    : ToolCatalog :=
  let catalog := from_snapshot snapshot in
  if skills_available then
    let catalog := add_builtin "load_skill" CK_LoadSkill
      "Load one available Skill's complete SKILL.md instructions. Use it in a context-only tool-call batch before tuning actions."
      (closed_object ["name"] [("name", skill_name_schema)]) catalog in
    add_builtin "load_skill_reference" CK_LoadSkillReference
      "Load one UTF-8 reference from an already loaded Skill. Use the exact references/... path returned by load_skill and do not mix this call with tuning actions."
      (closed_object ["skill"; "path"]
        [("skill", skill_name_schema);
         ("path", json_object [("type", json_string "string"); ("minLength", json_integer 12);
            ("maxLength", json_integer 4096); ("pattern", json_string "^references/")])]) catalog
  else catalog.

Definition catalog_entry (c : ToolCatalog) (name : string) : option CatalogEntry := catalog_map c !! name.

(** ** Decoding ([dispatcher.rs]) *)

Inductive DecodedToolCall :=
  | Decoded_Context (command : SkillCommand)
  | Decoded_Action (command : AgentCommand).

Definition required_value (arguments : Value) (field : string) : result string Value :=
  ok_or (field +:+ " is required") (value_get field arguments).

Definition required_string (arguments : Value) (field : string) : result string string :=
  let missing := field +:+ " must be a non-empty string" in
  value ← ok_or missing (value_get field arguments ≫= as_string);
  _ ← reject (is_blank value) missing;
  Ok value.

(** The loop of [parse_change_ids]; [ids] is what was parsed so far. *)
Definition parse_change_id (ids : list ChangeId) (value : Value) : result string (list ChangeId) :=
  raw ← ok_or "change_ids entries must be strings" (as_string value);
  id ← string_id_new N_Change raw;
  _ ← reject (bool_decide (id ∈ ids)) ("change_ids contains duplicate '" +:+ as_str id +:+ "'");
  Ok (ids ++ [id]).

Definition parse_change_ids (arguments : Value) : result string (list ChangeId) :=
  let missing := "change_ids must be a non-empty array" in
  values ← ok_or missing (value_get "change_ids" arguments ≫= as_array);
  _ ← reject (bool_decide (values = [])) missing;
  fold_result parse_change_id [] values.

(** [serde_json::from_value] at [EvaluationIntentSpec], serde's derived code. *)
Context (decode_intent_spec : Value → result string EvaluationIntentSpec).

(** [ToolDispatcher::decode]; an entry without the capability id it needs panics. *)
Definition ToolDispatcher_decode (catalog : ToolCatalog) (invocation : AgentToolInvocation)
    : outcome string DecodedToolCall :=
  let call_id := invocation_id invocation in
  let arguments := invocation_arguments invocation in
  match catalog_entry catalog (invocation_name invocation) with
  | None => Throw ("unknown agent tool '" +:+ invocation_name invocation +:+ "'")
  | Some entry =>
    match entry_kind entry, entry_capability_id entry with
    | CK_Probe, Some id => Ret (Decoded_Action (Command_Probe call_id id arguments))
    | CK_Mutation, Some id => of_result (
        tuned ← required_value arguments "arguments";
        reason ← required_string arguments "reason";
        Ok (Decoded_Action (Command_Mutation call_id id tuned reason)))
    | CK_Probe, None | CK_Mutation, None => Panic
    | CK_BeginExperiment, _ => of_result (
        intent ← map_err (λ error, "invalid evaluation intent: " +:+ error)
                   (decode_intent_spec arguments);
        Ok (Decoded_Action (Command_BeginExperiment call_id intent)))
    | CK_RequestCommit, _ => of_result (
        change_ids ← parse_change_ids arguments;
        reason ← required_string arguments "reason";
        Ok (Decoded_Action (Command_RequestCommit call_id change_ids reason)))
    | CK_Abort, _ => of_result (
        reason ← required_string arguments "reason";
        Ok (Decoded_Action (Command_Abort call_id reason)))
    | CK_LoadSkill, _ => of_result (
        name ← required_string arguments "name";
        Ok (Decoded_Context (LoadSkill name)))
    | CK_LoadSkillReference, _ => of_result (
        skill ← required_string arguments "skill";
        path ← required_string arguments "path";
        Ok (Decoded_Context (LoadReference skill path)))
    end
  end.
End Tools.

(** * Tool calls are decoded within the agent's authority

    Every entry of the catalog stands for a capability of the snapshot or for one
    built-in command, under its own name; [decodes] says which call of which tool
    is which command, and decoding is exactly that. *)

Local Open Scope Z_scope.

Section Tools.
Context `{JD : JsonData, !Sha256} {W : Type}.
Context (decode_intent_spec : Value → result string EvaluationIntentSpec).
Implicit Types (c : ToolCatalog) (snapshot : CapabilitySnapshot W).

(** A capability of the snapshot, of the kind the entry says, under its tool name. *)
Definition offers snapshot (k : CapabilityKind) (prefix name : string) (id : CapabilityId) : Prop :=
  ∃ meta, snapshot_meta snapshot id = Some meta ∧ kind meta = k
    ∧ name = capability_tool_name prefix id.

Definition entry_ok snapshot (skills_available : bool) (name : string) (entry : CatalogEntry) : Prop :=
  match entry_kind entry with
  | CK_Probe => ∃ id, entry_capability_id entry = Some id ∧ offers snapshot Probe "probe" name id
  | CK_Mutation => ∃ id, entry_capability_id entry = Some id ∧ offers snapshot Mutation "experiment" name id
  | CK_BeginExperiment => name = "begin_experiment"
  | CK_RequestCommit => name = "request_commit"
  | CK_Abort => name = "abort"
  | CK_LoadSkill => name = "load_skill" ∧ skills_available = true
  | CK_LoadSkillReference => name = "load_skill_reference" ∧ skills_available = true
  end.

Definition catalog_ok snapshot skills_available c : Prop :=
  map_Forall (entry_ok snapshot skills_available) (catalog_map c).

Lemma add_builtin_ok snapshot skills_available name k description schema c :
  catalog_ok snapshot skills_available c →
  entry_ok snapshot skills_available name (MkEntry k None) →
  catalog_ok snapshot skills_available (add_builtin name k description schema c).
Proof. intros Hc He. by apply map_Forall_insert_2. Qed.

Lemma add_meta_ok snapshot skills_available c meta :
  snapshot_meta snapshot (meta_id meta) = Some meta →
  catalog_ok snapshot skills_available c → catalog_ok snapshot skills_available (add_meta c meta).
Proof.
  intros Hm Hc. unfold add_meta. destruct (kind meta) eqn:Hk; [| |done..];
    (apply map_Forall_insert_2; [|done]); exists (meta_id meta); split; [done| |done|];
    by exists meta.
Qed.

(** Identifiers of a snapshot key their own metadata, as in every registry. *)
Definition keyed snapshot : Prop := ∀ id meta, snap_metadata snapshot !! id = Some meta → meta_id meta = id.

Lemma elem_of_metas_in_order snapshot meta :
  keyed snapshot →
  meta ∈ metas_in_order snapshot ↔ snapshot_meta snapshot (meta_id meta) = Some meta.
Proof.
  intros Hids. unfold metas_in_order. rewrite list_elem_of_omap. setoid_rewrite elem_of_ids_in_order.
  setoid_rewrite elem_of_dom. split; [|by eauto].
  intros (id & _ & Hm). by rewrite (Hids id meta Hm).
Qed.

Lemma from_snapshots_ok snapshot skills_available :
  keyed snapshot → catalog_ok snapshot skills_available (from_snapshots snapshot skills_available).
Proof.
  intros Hids.
  assert (∀ metas c, Forall (λ meta, snapshot_meta snapshot (meta_id meta) = Some meta) metas →
            catalog_ok snapshot skills_available c →
            catalog_ok snapshot skills_available (foldl add_meta c metas)) as Hfold.
  { induction metas as [|meta metas IH]; intros c Hf Hc; [done|].
    apply Forall_cons in Hf as [Hm Hf]. simpl. apply IH; [done|]. by apply add_meta_ok. }
  assert (catalog_ok snapshot skills_available (from_snapshot snapshot)) as Hs.
  { unfold from_snapshot. do 3 (apply add_builtin_ok; [|done]).
    apply Hfold; [|apply map_Forall_empty]. apply Forall_forall. intros meta.
    by apply elem_of_metas_in_order. }
  unfold from_snapshots. destruct skills_available; [|done].
  by do 2 (apply add_builtin_ok; [|done]).
Qed.

(** ** The other direction: what the catalog offers *)

(** No two capabilities of a kind share the 16 bytes of digest in their tool names. *)
Definition distinct_tool_names snapshot : Prop :=
  ∀ prefix id id', id ∈ dom (snap_metadata snapshot) → id' ∈ dom (snap_metadata snapshot) →
    capability_tool_name prefix id = capability_tool_name prefix id' → id = id'.

Definition capability_entry (meta : CapabilityMeta) : option (string * CatalogEntry) :=
  match kind meta with
  | Probe => Some (capability_tool_name "probe" (meta_id meta), MkEntry CK_Probe (Some (meta_id meta)))
  | Mutation =>
    Some (capability_tool_name "experiment" (meta_id meta), MkEntry CK_Mutation (Some (meta_id meta)))
  | Measurement | Comparison => None
  end.

Lemma add_meta_map c meta :
  catalog_map (add_meta c meta)
  = match capability_entry meta with Some (name, e) => <[name := e]> (catalog_map c) | None => catalog_map c end.
Proof. unfold add_meta, capability_entry. by destruct (kind meta). Qed.

(** An entry is found under its name unless a later capability has the same name. *)
Lemma add_metas_lookup metas c name e :
  (∀ meta' name' e', meta' ∈ metas → capability_entry meta' = Some (name', e') → name' = name → e' = e) →
  (∃ meta, meta ∈ metas ∧ capability_entry meta = Some (name, e)) ∨ catalog_map c !! name = Some e →
  catalog_map (foldl add_meta c metas) !! name = Some e.
Proof.
  revert c. induction metas as [|meta metas IH]; intros c Hsame Hin; simpl.
  { destruct Hin as [(? & ?%elem_of_nil & _)|?]; done. }
  apply IH; [intros ????; eapply Hsame; by right|]. rewrite add_meta_map.
  destruct (capability_entry meta) as [ [name' e']|] eqn:He.
  - destruct (decide (name' = name)) as [->|Hne].
    + right. rewrite lookup_insert_eq. f_equal. eapply Hsame; [by left|done..].
    + rewrite lookup_insert_ne by done. destruct Hin as [(m & [->|Hm]%elem_of_cons & Hme)|?]; [congruence|by eauto|by eauto].
  - destruct Hin as [(m & [->|Hm]%elem_of_cons & Hme)|?]; [congruence|by eauto|by eauto].
Qed.

Lemma capability_entry_same meta meta' name e e' :
  capability_entry meta = Some (name, e) → capability_entry meta' = Some (name, e') →
  (∀ prefix, capability_tool_name prefix (meta_id meta) = capability_tool_name prefix (meta_id meta') →
    meta_id meta = meta_id meta') →
  e' = e.
Proof.
  unfold capability_entry. intros H1 H2 Hd. destruct (kind meta), (kind meta'); simplify_eq;
    by rewrite (Hd "") by (unfold capability_tool_name; congruence).
Qed.

Definition builtin_names : list string :=
  ["begin_experiment"; "request_commit"; "abort"; "load_skill"; "load_skill_reference"].

(** Built-in commands do not hide capabilities. *)
Lemma capability_entry_name meta name e : capability_entry meta = Some (name, e) → name ∉ builtin_names.
Proof.
  unfold capability_entry, builtin_names. intros He Hin. rewrite !elem_of_cons, elem_of_nil in Hin.
  destruct (kind meta); simplify_eq; destruct_or!; unfold capability_tool_name in Hin; by simpl in Hin.
Qed.

Lemma from_snapshots_capability snapshot skills_available meta name e :
  keyed snapshot → distinct_tool_names snapshot →
  snapshot_meta snapshot (meta_id meta) = Some meta → capability_entry meta = Some (name, e) →
  catalog_entry (from_snapshots snapshot skills_available) name = Some e.
Proof.
  intros Hids Hdist Hm He. pose proof (capability_entry_name _ _ _ He) as Hn. unfold builtin_names in Hn.
  rewrite !not_elem_of_cons in Hn. destruct Hn as (?&?&?&?&?&_).
  unfold catalog_entry, from_snapshots, from_snapshot.
  assert (catalog_map (foldl add_meta (MkToolCatalog [] ∅) (metas_in_order snapshot)) !! name = Some e) as Hf.
  { apply add_metas_lookup; [|left; exists meta; by rewrite elem_of_metas_in_order].
    intros meta' name' e' Hin He' ->. apply (elem_of_metas_in_order _ _ Hids) in Hin.
    eapply capability_entry_same; [exact He|exact He'|]. intros prefix. apply Hdist; apply elem_of_dom; by eexists. }
  destruct skills_available; simpl; by rewrite !lookup_insert_ne.
Qed.

(** ** Which command a tool call stands for *)

(** A field of the arguments that holds a string with a visible character. *)
Definition text_field (arguments : Value) (field s : string) : Prop :=
  (value_get field arguments ≫= as_string) = Some s ∧ is_blank s = false.

(** [change_ids] as identifiers, in order, none twice. *)
Definition change_ids_field (arguments : Value) (ids : list ChangeId) : Prop :=
  ∃ values, (value_get "change_ids" arguments ≫= as_array) = Some values ∧ ids ≠ [] ∧ NoDup ids
    ∧ Forall2 (λ v id, ∃ raw, as_string v = Some raw ∧ string_id_new N_Change raw = Ok id) values ids.

Inductive decodes snapshot (skills_available : bool) (call : AgentToolInvocation) : DecodedToolCall → Prop :=
  | decodes_probe id :
      offers snapshot Probe "probe" (invocation_name call) id →
      decodes snapshot skills_available call
        (Decoded_Action (Command_Probe (invocation_id call) id (invocation_arguments call)))
  | decodes_mutation id tuned reason :
      offers snapshot Mutation "experiment" (invocation_name call) id →
      value_get "arguments" (invocation_arguments call) = Some tuned →
      text_field (invocation_arguments call) "reason" reason →
      decodes snapshot skills_available call
        (Decoded_Action (Command_Mutation (invocation_id call) id tuned reason))
  | decodes_begin intent :
      invocation_name call = "begin_experiment" →
      decode_intent_spec (invocation_arguments call) = Ok intent →
      decodes snapshot skills_available call
        (Decoded_Action (Command_BeginExperiment (invocation_id call) intent))
  | decodes_commit ids reason :
      invocation_name call = "request_commit" →
      change_ids_field (invocation_arguments call) ids →
      text_field (invocation_arguments call) "reason" reason →
      decodes snapshot skills_available call
        (Decoded_Action (Command_RequestCommit (invocation_id call) ids reason))
  | decodes_abort reason :
      invocation_name call = "abort" →
      text_field (invocation_arguments call) "reason" reason →
      decodes snapshot skills_available call (Decoded_Action (Command_Abort (invocation_id call) reason))
  | decodes_skill name :
      invocation_name call = "load_skill" → skills_available = true →
      text_field (invocation_arguments call) "name" name →
      decodes snapshot skills_available call (Decoded_Context (LoadSkill name))
  | decodes_reference skill path :
      invocation_name call = "load_skill_reference" → skills_available = true →
      text_field (invocation_arguments call) "skill" skill →
      text_field (invocation_arguments call) "path" path →
      decodes snapshot skills_available call (Decoded_Context (LoadReference skill path)).

Lemma required_string_iff arguments field s :
  required_string arguments field = Ok s ↔ text_field arguments field s.
Proof.
  unfold required_string, text_field. rewrite ok_or_bind_Ok. split.
  - intros (v & Hg & Hv). by apply reject_bind_Ok in Hv as [Hb%reject_Ok [= <-]].
  - intros [Hg Hb]. exists s. by rewrite Hb.
Qed.

Lemma parse_change_ids_iff arguments ids :
  parse_change_ids arguments = Ok ids ↔ change_ids_field arguments ids.
Proof.
  assert (∀ values ids, fold_result parse_change_id [] values = Ok ids ↔
    NoDup ids ∧ Forall2 (λ v id, ∃ raw, as_string v = Some raw ∧ string_id_new N_Change raw = Ok id) values ids) as Hfold.
  { induction values as [|v values IH] using rev_ind; intros ids'.
    { simpl. split; [intros [= <-]; by repeat constructor|]. by intros [_ ->%Forall2_nil_inv_l]. }
    rewrite fold_result_snoc, result_bind_Ok. split.
    - intros (ids0 & [Hnd H2]%IH & Hp). unfold parse_change_id in Hp.
      apply ok_or_bind_Ok in Hp as (raw & Hraw & Hp). apply result_bind_Ok in Hp as (id & Hid & Hp).
      apply reject_bind_Ok in Hp as [Hnew%reject_Ok%bool_decide_eq_false [= <-]]. split.
      + apply NoDup_app. split_and!; [done|set_solver|apply NoDup_singleton].
      + apply Forall2_app; [done|]. constructor; [by eauto|constructor].
    - intros [Hnd (ids0 & l & H2 & Hl & ->)%Forall2_app_inv_l].
      apply Forall2_cons_inv_l in Hl as (id & ? & (raw & Hraw & Hid) & ->%Forall2_nil_inv_l & ->).
      apply NoDup_app in Hnd as (Hnd & Hdis & _). exists ids0. split; [by apply IH|].
      unfold parse_change_id. rewrite Hraw. simpl. rewrite Hid. simpl.
      rewrite reject_false by (apply bool_decide_eq_false; set_solver). done. }
  unfold parse_change_ids, change_ids_field. rewrite ok_or_bind_Ok. apply exist_proper. intros values. split.
  - intros [Hg [Hne%reject_Ok%bool_decide_eq_false [Hnd H2]%Hfold]%reject_bind_Ok]. split_and!; try done.
    intros ->. by apply Forall2_nil_inv_r in H2.
  - intros (Hg & Hne & Hrest). split; [done|]. rewrite reject_false; [by apply Hfold|].
    apply bool_decide_eq_false. intros ->. by destruct Hrest as [_ ->%Forall2_nil_inv_l].
Qed.

Lemma builtin_entry snapshot skills_available name k :
  In (name, k) [("begin_experiment", CK_BeginExperiment); ("request_commit", CK_RequestCommit); ("abort", CK_Abort)]
  ∨ skills_available = true
    ∧ In (name, k) [("load_skill", CK_LoadSkill); ("load_skill_reference", CK_LoadSkillReference)] →
  catalog_entry (from_snapshots snapshot skills_available) name = Some (MkEntry k None).
Proof.
  unfold catalog_entry, from_snapshots, from_snapshot. intros [Hin|[-> Hin]]; simpl in Hin;
    destruct_or!; try done; simplify_eq; [destruct skills_available..| |]; simpl; by simplify_map_eq.
Qed.

Lemma decode_sound snapshot skills_available call :
  keyed snapshot →
  match ToolDispatcher_decode decode_intent_spec (from_snapshots snapshot skills_available) call with
  | Ret command => decodes snapshot skills_available call command
  | Throw _ => True
  | Panic => False
  end.
Proof.
  intros Hids. pose proof (from_snapshots_ok snapshot skills_available Hids) as Hc.
  unfold ToolDispatcher_decode, catalog_entry.
  destruct (catalog_map _ !! invocation_name call) as [entry|] eqn:He; [|done].
  specialize (Hc _ _ He). unfold entry_ok in Hc. destruct entry as [k o]; simpl in *.
  destruct k; destruct_and?.
  - destruct Hc as (id & -> & Ho). by constructor.
  - destruct Hc as (id & -> & Ho). destruct (required_value _ _) as [tuned|] eqn:Hv; [|done]. simpl.
    destruct (required_string _ _) as [reason|] eqn:Hr; [|done]. simpl.
    apply ok_or_Ok in Hv. apply required_string_iff in Hr. by constructor.
  - destruct (decode_intent_spec _) as [intent|] eqn:Hi; [|done]. by constructor.
  - destruct (parse_change_ids _) as [ids|] eqn:Hp; [|done]. simpl.
    destruct (required_string _ _) as [reason|] eqn:Hr; [|done]. simpl.
    apply required_string_iff in Hr. apply parse_change_ids_iff in Hp. by constructor.
  - destruct (required_string _ _) as [reason|] eqn:Hr; [|done]. apply required_string_iff in Hr. by constructor.
  - destruct (required_string _ _) as [name|] eqn:Hr; [|done]. apply required_string_iff in Hr. by constructor.
  - destruct (required_string _ "skill") as [skill|] eqn:Hs; simpl; [|done].
    destruct (required_string _ "path") as [path|] eqn:Hp; [|done]. simpl.
    apply required_string_iff in Hs, Hp. by constructor.
Qed.

Lemma decode_complete snapshot skills_available call command :
  keyed snapshot → distinct_tool_names snapshot → decodes snapshot skills_available call command →
  ToolDispatcher_decode decode_intent_spec (from_snapshots snapshot skills_available) call = Ret command.
Proof.
  intros Hids Hdist Hd. unfold ToolDispatcher_decode.
  assert (∀ k prefix id, offers snapshot k prefix (invocation_name call) id → ∃ meta, snapshot_meta snapshot id = Some meta
    ∧ kind meta = k ∧ meta_id meta = id) as Hoffer.
  { intros k prefix id (meta & Hm & Hk & _). exists meta. split_and!; [done..|]. by apply Hids. }
  destruct Hd as [id Ho|id tuned reason Ho Ht Hr|intent Hn Hi|ids reason Hn Hp Hr|reason Hn Hr|name Hn Hs Hr
                 |skill path Hn Hs Hr1 Hr2].
  1,2: pose proof Ho as (? & _ & _ & Hn); apply Hoffer in Ho as (meta & Hm & Hk & <-);
    rewrite (from_snapshots_capability _ _ meta (invocation_name call) _ Hids Hdist Hm)
      by (unfold capability_entry; rewrite Hk, Hn; reflexivity); simpl.
  - done.
  - unfold required_value. rewrite Ht. simpl. apply required_string_iff in Hr. by rewrite Hr.
  - rewrite Hn, (builtin_entry _ _ _ CK_BeginExperiment) by (left; simpl; tauto). simpl. by rewrite Hi.
  - rewrite Hn, (builtin_entry _ _ _ CK_RequestCommit) by (left; simpl; tauto). simpl.
    apply parse_change_ids_iff in Hp. apply required_string_iff in Hr. by rewrite Hp; simpl; rewrite Hr.
  - rewrite Hn, (builtin_entry _ _ _ CK_Abort) by (left; simpl; tauto). simpl.
    apply required_string_iff in Hr. by rewrite Hr.
  - rewrite Hn, (builtin_entry _ _ _ CK_LoadSkill) by (right; simpl; tauto). simpl.
    apply required_string_iff in Hr. by rewrite Hr.
  - rewrite Hn, (builtin_entry _ _ _ CK_LoadSkillReference) by (right; simpl; tauto). simpl.
    apply required_string_iff in Hr1, Hr2. by rewrite Hr1; simpl; rewrite Hr2.
Qed.

(** C6. Against the catalog of a registry's snapshot, decoding a tool call never
    panics, and a call is decoded to a command only as [decodes] says, and then
    exactly if no two tool names collide: a tool named after a capability gives a
    probe or a mutation of that registered capability and of that kind, with the
    arguments of the call; [begin_experiment] gives the intent its arguments decode
    to (the capabilities it names are checked when it is frozen);
    [request_commit] the distinct changes of its array in order; [abort], and, only
    when there are skills, [load_skill] and [load_skill_reference] their own
    commands with their own strings. *)
Theorem tool_calls_stay_within_authority (r : CapabilityRegistry W) skills_available call :
  registry_ok r →
  let decoded :=
    ToolDispatcher_decode decode_intent_spec (from_snapshots (snapshot r) skills_available) call in
  decoded ≠ Panic
  ∧ (∀ command, decoded = Ret command → decodes (snapshot r) skills_available call command)
  ∧ (distinct_tool_names (snapshot r) →
     ∀ command, decodes (snapshot r) skills_available call command → decoded = Ret command).
Proof.
  intros Hr. assert (keyed (snapshot r)) as Hids by (intros id meta Hm; by apply (ok_permitted r Hr id meta)).
  pose proof (decode_sound (snapshot r) skills_available call Hids) as Hd. simpl. split_and!.
  - by destruct (ToolDispatcher_decode _ _ _).
  - intros command Hc. by rewrite Hc in Hd.
  - intros Hdist command. by apply decode_complete.
Qed.
End Tools.
