(* ===== verification/Run.v ===== *)
(** * Running an episode
      ([EpisodeCoordinator] of [tuning_agent/src/runtime/episode/coordinator.rs])

    The loop between the reasoner and the episode session: rounds of tool calls
    under two limits, skills and tuning actions in separate batches, an audit
    record around every command, and the cleanup at the end.  The reasoner and the
    audit sink act on the world; the state also keeps, as a history, what was
    recorded, executed and asked. *)

From S2P Require Export Tools.

Open Scope Z_scope.

(** ** What the coordinator uses *)

Section Interfaces.
Context `{JD : JsonData}.

(** [AgentReasoner] ([agent/reasoner.rs]). *)
Inductive AgentTurn :=
  | Turn_ToolCalls (calls : list AgentToolInvocation)
  | Turn_Final (content : string).

Class AgentReasoner (W : Type) := {
  reasoner_begin : Value → list AgentToolSpec → W → result string AgentTurn * W;
  reasoner_resume : list AgentToolResult → W → result string AgentTurn * W;
}.

(** [AuditRecord] and [AuditSink] ([audit/sink.rs]); a time in nanoseconds. *)
Record AuditRecord := MkAuditRecord {
  timestamp_ns : Z;
  record_event_name : string;
  record_episode_id : option EpisodeId;
  record_phase : option EpisodePhase;
  record_data : Value;
}.

Class AuditSink (W : Type) := {
  now_ns : W → Z * W;
  audit_record : AuditRecord → W → result string unit * W;
}.

(** [AuditRecord::episode] and [AuditRecord::runtime]. *)
Definition AuditRecord_episode {W} `{!AuditSink W} (event : string) (episode_id : EpisodeId)
    (phase : EpisodePhase) (data : Value) (w : W) : AuditRecord * W :=
  let '(t, w) := now_ns w in (MkAuditRecord t event (Some episode_id) (Some phase) data, w).

Definition AuditRecord_runtime {W} `{!AuditSink W} (event : string) (data : Value) (w : W)
    : AuditRecord * W :=
  let '(t, w) := now_ns w in (MkAuditRecord t event None None data, w).

Record EvaluationIntentSummary := MkIntentSummary {
  summary_objective : string;
  summary_intent_digest : Digest;
  summary_contract_id : ContractId;
  summary_contract_digest : Digest;
}.

Definition EvaluationIntentSummary_from (intent : FrozenEvaluationIntent) : EvaluationIntentSummary :=
  MkIntentSummary (objective_str (intent_objective intent)) (pin_intent_digest (intent_pin_of intent))
    (contract_id (intent_contract intent)) (contract_digest (intent_contract intent)).

Record EpisodeOutcome := MkOutcome {
  outcome_episode_id : EpisodeId;
  outcome_phase : EpisodePhase;
  outcome_intent : option EvaluationIntentSummary;
  outcome_decision : option EvaluationDecision;
  outcome_summary : string;
}.
End Interfaces.

Section Run.
Context `{JD : JsonData, !Serialize Value, !Serialize (list Value), !Serialize (list ChangeId), !Sha256}.
Context `{!Serialize MetricBatch, !Serialize CleanupReceipt, !Serialize ComparisonEvidence,
  !Serialize ContractPayload, !Serialize IntentDigestPayload, !Serialize EvaluationDecision,
  !Serialize AbEvaluationEvidence, !Serialize AuthorizationPayload,
  !ToValue ProbeEvidence, !ToValue AbEvaluationEvidence, !ToValue EpisodeOutcome}.
Context {W T : Type} `{!TransactionWal T, !TransactionStore W T, !Clock W, !AgentReasoner W, !AuditSink W}.
Context (decode_intent_spec : Value → result string EvaluationIntentSpec).

Record EpisodeCoordinator := MkCoordinator {
  max_rounds : Z;
  coordinator_timeout : Z;
  coordinator_capabilities : CapabilitySnapshot W;
  coordinator_skills : SkillSnapshot;
  skill_config : SkillConfig;
}.

Definition EpisodeCoordinator_new (max_rounds evaluation_timeout : Z)
    (capabilities : CapabilitySnapshot W) (skills : SkillSnapshot) (config : SkillConfig)
    : result string EpisodeCoordinator :=
  _ ← reject (max_rounds =? 0) "episode max_rounds must be greater than zero";
  _ ← reject (evaluation_timeout =? 0) "episode evaluation timeout must be greater than zero";
  Ok (MkCoordinator max_rounds evaluation_timeout capabilities skills config).

Inductive RunEvent :=
  | Run_Record (event : string) (data : Value) (written : bool)
  | Run_Begin
  | Run_Resume (results : list AgentToolResult)
  | Run_Execute (invocation : AgentToolInvocation) (command : AgentCommand)
  | Run_Skill (invocation : AgentToolInvocation) (command : SkillCommand).

Record RunState := MkRun {
  run_session : EpisodeSession (W := W) (T := T);
  run_skills : SkillSession;
  action_rounds : Z;
  skill_rounds : Z;
  run_log : list RunEvent;
}.

Definition set_run_session x (s : RunState) : RunState :=
  MkRun x (run_skills s) (action_rounds s) (skill_rounds s) (run_log s).
Definition set_run_skills x (s : RunState) : RunState :=
  MkRun (run_session s) x (action_rounds s) (skill_rounds s) (run_log s).
Definition set_action_rounds n (s : RunState) : RunState :=
  MkRun (run_session s) (run_skills s) n (skill_rounds s) (run_log s).
Definition set_skill_rounds n (s : RunState) : RunState :=
  MkRun (run_session s) (run_skills s) (action_rounds s) n (run_log s).
Definition log_event e (s : RunState) : RunState :=
  MkRun (run_session s) (run_skills s) (action_rounds s) (skill_rounds s) (e :: run_log s).

Abbreviation RM := (M RunState string).

(** A call that acts on the world only. *)
Definition in_world_of {A} (call : W → A * W) : RM A := λ s,
  let '(a, w) := call (ses_world (run_session s)) in
  (Ret a, set_run_session (set_ses_world w (run_session s)) s).

(** A method of the episode session. *)
Definition in_session {A} (m : M EpisodeSession string A) : RM A := λ s,
  let '(r, x) := m (run_session s) in (r, set_run_session x s).

Definition summarize_run (message : string) : RM unit := in_session (summarize message).

Section Episode.
Context (self : EpisodeCoordinator) (episode_id : EpisodeId).

(** [EpisodeCoordinator::record] at an episode record in the current phase. *)
Definition record (event : string) (data : Value) : RM (result string unit) :=
  s ← gets id;
  r ← in_world_of (λ w,
        let '(record, w) :=
          AuditRecord_episode event episode_id (es_phase (ses_state (run_session s))) data w in
        audit_record record w);
  _ ← modify (log_event (Run_Record event data (is_ok r)));
  mret (map_err (λ error, "audit write failed: " +:+ error) r).

(** [self.record(..)?]. *)
Definition record_or_fail (event : string) (data : Value) : RM unit :=
  r ← record event data; lift r.

(** Inside the loop an audit failure ends the rounds: [None]. *)
Definition audited {A} (event : string) (data : Value) (k : RM (option A)) : RM (option A) :=
  r ← record event data;
  match r with
  | Ok _ => k
  | Err error => _ ← in_session (fail_closed error); mret None
  end.

(** ** A batch of calls *)

Definition skill_call (command : SkillCommand) (invocation : AgentToolInvocation) : RM SkillExecution :=
  s ← gets id;
  let '(execution, skills) := skill_execute command invocation (run_skills s) in
  _ ← modify (set_run_skills skills);
  _ ← modify (log_event (Run_Skill invocation command));
  mret execution.

Definition action_call (command : AgentCommand) (invocation : AgentToolInvocation) : RM AgentToolResult :=
  _ ← modify (log_event (Run_Execute invocation command));
  in_session (execute episode_id (coordinator_timeout self) (coordinator_capabilities self)
                command invocation).

Definition perform_call (mixed_batch context_round : bool) (invocation : AgentToolInvocation)
    (decoded_call : result string DecodedToolCall) : RM (option AgentToolResult) :=
  let call_id := ("call_id", json_string (invocation_id invocation)) in
  let tool := ("tool", json_string (invocation_name invocation)) in
  if mixed_batch then
    mret (Some (tool_failure invocation
      "skill context calls and tuning actions must use separate tool-call batches"))
  else match decoded_call with
  | Ok (Decoded_Context command) =>
    execution ← skill_call command invocation;
    s ← gets id;
    audited (audit_event execution)
      (json_object (audit_data execution
         ++ [call_id; tool; ("skill_round", json_integer (skill_rounds s));
             ("ok", json_bool (result_ok (execution_result execution)))]))
      (mret (Some (execution_result execution)))
  | Ok (Decoded_Action command) =>
    s ← gets id;
    audited "agent_command"
      (json_object [("round", json_integer (action_rounds s)); call_id; tool;
                    ("arguments", invocation_arguments invocation)])
      (result ← action_call command invocation; mret (Some result))
  | Err error =>
    let failed := mret (Some (tool_failure invocation error)) in
    if context_round then
      s ← gets id;
      audited "skill_load_failed"
        (json_object [call_id; tool; ("skill_round", json_integer (skill_rounds s));
                      ("error", json_string error)]) failed
    else failed
  end.

(** One turn of the [for] loop over the batch; [None] is [break 'rounds]. *)
Definition process_call (mixed_batch context_round : bool)
    (call : AgentToolInvocation * result string DecodedToolCall) : RM (option AgentToolResult) :=
  result ← perform_call mixed_batch context_round call.1 call.2;
  match result with
  | Some result =>
    if context_round then mret (Some result)
    else audited "agent_command_result"
           (json_object [("call_id", json_string (result_call_id result));
                         ("tool", json_string (result_name result));
                         ("ok", json_bool (result_ok result)); ("content", result_content result)])
           (mret (Some result))
  | None => mret None
  end.

Definition reasoning_stopped : RM bool := gets (λ s, is_reasoning_stopped (ses_state (run_session s))).

Fixpoint process_calls (mixed_batch context_round : bool)
    (calls : list (AgentToolInvocation * result string DecodedToolCall))
    (results : list AgentToolResult) : RM (option (list AgentToolResult)) :=
  match calls with
  | [] => mret (Some results)
  | call :: calls =>
    result ← process_call mixed_batch context_round call;
    match result with
    | None => mret None
    | Some result =>
      stopped ← reasoning_stopped;
      if stopped : bool then mret (Some (results ++ [result]))
      else process_calls mixed_batch context_round calls (results ++ [result])
    end
  end.

(** ** The rounds *)

Definition limit_reached (limit : Z) (rounds : string) : string :=
  "agent reached the configured limit of " +:+ show limit +:+ " " +:+ rounds +:+ " rounds".

Fixpoint decode_all (catalog : ToolCatalog) (calls : list AgentToolInvocation)
    : outcome string (list (result string DecodedToolCall)) :=
  match calls with
  | [] => Ret []
  | call :: calls =>
    match ToolDispatcher_decode decode_intent_spec catalog call with
    | Panic => Panic
    | decoded =>
      rest ← decode_all catalog calls;
      Ret ((match decoded with Ret d => Ok d | Throw e => Err e | Panic => Err "" end) :: rest)
    end
  end.

Definition is_context (d : result string DecodedToolCall) : bool :=
  match d with Ok (Decoded_Context _) => true | _ => false end.
Definition is_action (d : result string DecodedToolCall) : bool :=
  match d with Ok (Decoded_Action _) => true | _ => false end.

Definition max_skill_rounds_of (s : RunState) : Z := max_skill_rounds (skill_limits (run_skills s)).

(** The round counters; false when the limit was reached. *)
Definition take_round (context_round : bool) : RM bool :=
  s ← gets id;
  if context_round then
    if skill_rounds s =? max_skill_rounds_of s then
      _ ← summarize_run (limit_reached (max_skill_rounds_of s) "skill context"); mret false
    else _ ← modify (set_skill_rounds (skill_rounds s + 1)); mret true
  else
    if action_rounds s =? max_rounds self then
      _ ← summarize_run (limit_reached (max_rounds self) "reasoning"); mret false
    else _ ← modify (set_action_rounds (action_rounds s + 1)); mret true.

(** One turn of the loop; [None] ends it. *)
Definition final_turn (content : string) : RM (option AgentTurn) :=
  admitted ← take_round false;
  if negb admitted then mret None else
  s ← gets id;
  r ← record "agent_final" (json_object [("round", json_integer (action_rounds s));
                                         ("content", json_string content)]);
  match r with
  | Err error => _ ← in_session (fail_closed error); mret None
  | Ok _ => _ ← summarize_run "agent ended without a commit request"; mret None
  end.

Definition batch_turn (catalog : ToolCatalog) (calls : list AgentToolInvocation) : RM (option AgentTurn) :=
  decoded ← (λ s, (decode_all catalog calls, s));
  let has_context := existsb is_context decoded in
  let has_action := existsb is_action decoded in
  let mixed_batch := has_context && has_action in
  let context_round := has_context && negb has_action in
  admitted ← take_round context_round;
  if negb admitted then mret None else
  results ← process_calls mixed_batch context_round (zip calls decoded) [];
  match results with
  | None => mret None
  | Some results =>
    stopped ← reasoning_stopped;
    if stopped : bool then mret None else
    s ← gets id;
    if negb context_round && (action_rounds s =? max_rounds self) then
      _ ← summarize_run (limit_reached (max_rounds self) "reasoning"); mret None
    else
      _ ← modify (log_event (Run_Resume results));
      turn ← in_world_of (reasoner_resume results);
      match turn with
      | Ok turn => mret (Some turn)
      | Err error => _ ← in_session (fail_closed ("reasoner failed: " +:+ error)); mret None
      end
  end.

Definition take_turn (catalog : ToolCatalog) (turn : AgentTurn) : RM (option AgentTurn) :=
  match turn with
  | Turn_Final content => final_turn content
  | Turn_ToolCalls [] => _ ← summarize_run "agent returned an empty tool-call batch"; mret None
  | Turn_ToolCalls calls => batch_turn catalog calls
  end.

(** ['rounds: loop]; false when the fuel ran out. *)
Fixpoint rounds (fuel : nat) (catalog : ToolCatalog) (turn : AgentTurn) : RM bool :=
  match fuel with
  | O => mret false
  | S fuel =>
    next ← take_turn catalog turn;
    match next with
    | None => mret true
    | Some turn => rounds fuel catalog turn
    end
  end.

(** ** The episode *)

Definition episode_outcome (x : EpisodeSession (W := W) (T := T)) : EpisodeOutcome :=
  MkOutcome episode_id (es_phase (ses_state x))
    (EvaluationIntentSummary_from <$> es_intent (ses_state x)) (ses_decision x) (summary x).

Definition finish_session : RM EpisodeOutcome :=
  _ ← in_session settle_session;
  s ← gets id;
  let outcome := episode_outcome (run_session s) in
  value ← lift (map_err (λ error, "failed to encode outcome: " +:+ error) (to_value outcome));
  _ ← record_or_fail "episode_finished" value;
  mret outcome.

Definition started_data (activation : Value) (requested : list string) (s : SkillSession) : Value :=
  json_object
    [("activation", activation);
     ("capability_generation", json_integer (snap_generation (coordinator_capabilities self)));
     ("capability_count", json_integer (Z.of_nat (snapshot_len (coordinator_capabilities self))));
     ("evaluation_timeout_ms", json_integer (as_millis (coordinator_timeout self)));
     ("skill_count", json_integer (Z.of_nat (size (packages (skills s)))));
     ("skill_registry_digest", json_string (as_str (skills_digest (skills s))));
     ("requested_skills", json_array (json_string <$> requested))].

Definition skills_policy : list (string * Value) :=
  [("skills", json_object
     [("progressive_disclosure", json_bool true); ("references_only", json_bool true);
      ("scripts_supported", json_bool false); ("skill_permissions", json_string "none");
      ("context_calls_must_not_mix_with_actions", json_bool true)])].

Definition runtime_policy (skill_policy : list (string * Value)) : Value :=
  json_object
    ([("probe_is_a_capability", json_bool true); ("evaluation_protocol", json_string "fixed_ab");
      ("evaluation_timeout_ms", json_integer (as_millis (coordinator_timeout self)));
      ("max_reasoning_rounds", json_integer (max_rounds self));
      ("reserve_final_action_round", json_bool true); ("commit_authority", json_string "runtime_only");
      ("commit_pending_blocks_agent_calls", json_bool true)] ++ skill_policy).

(** The context the reasoner starts from. *)
Definition episode_context (activation : Value) (view : option SkillCatalogView) (s : SkillSession)
    : Value :=
  let fields policy := [("episode_id", json_integer episode_id); ("activation", activation);
    ("capability_generation", json_integer (snap_generation (coordinator_capabilities self)));
    ("runtime_policy", runtime_policy policy)] in
  match view with
  | None => json_object (fields [])
  | Some view =>
    let explicitly_loaded := explicit_context s in
    json_object (fields skills_policy
      ++ [("available_skills", json_array (catalog_entries view));
          ("skill_catalog_truncated", json_bool (truncated view));
          ("skills_omitted_count", json_integer (omitted view))]
      ++ (if bool_decide (explicitly_loaded = []) then []
          else [("loaded_skills", json_array explicitly_loaded)]))
  end.

(** [EpisodeCoordinator::run] once the skill session is there. *)
Definition run_session_loop (activation : Value) (requested : list string) : RM EpisodeOutcome :=
  s ← gets run_skills;
  let available := has_available_skills s in
  view ← lift (if available then (v ← session_catalog s; Ok (Some v)) else Ok None);
  let catalog := from_snapshots (coordinator_capabilities self) available in
  _ ← record_or_fail "episode_started" (started_data activation requested s);
  _ ← for_each (λ data, record_or_fail "skill_loaded" data) (explicit_audit_data s);
  _ ← match view with
      | Some view =>
        if truncated view then
          record_or_fail "skill_catalog_truncated"
            (json_object [("omitted", json_integer (omitted view));
                          ("max_catalog_chars", json_integer (max_catalog_chars (skill_config self)))])
        else mret tt
      | None => mret tt
      end;
  _ ← modify (log_event Run_Begin);
  first_turn ← in_world_of (reasoner_begin (episode_context activation view s) (catalog_specs catalog));
  match first_turn with
  | Err error =>
    _ ← in_session (fail_closed ("reasoner failed before acting: " +:+ error));
    finish_session
  | Ok turn =>
    let fuel := Z.to_nat (max_rounds self + max_skill_rounds (skill_limits s) + 1) in
    ended ← rounds fuel catalog turn;
    if ended : bool then finish_session else panic
  end.

(** [EpisodeCoordinator::run] from a world, with what is left of the session. *)
Definition run (activation : Value) (requested : list string) (w : W)
    : outcome string EpisodeOutcome * (EpisodeSession (W := W) (T := T) * list RunEvent) :=
  let session := EpisodeSession_new episode_id w in
  match SkillSession_new (coordinator_skills self) (skill_config self) requested with
  | Err error => (Throw error, (session, []))
  | Ok s =>
    let '(r, s) := run_session_loop activation requested (MkRun session s 0 0 []) in
    (r, (run_session s, run_log s))
  end.
End Episode.
End Run.
