(* ===== verification/RunSafety.v ===== *)
(** * Every run of an episode ends, and ends safely

    Whatever the reasoner answers and whenever the audit log, a provider or the
    reasoner fails, the loop ends within its two limits, every command was
    announced to the audit log before it was executed, skills and actions never
    share a batch, and the session is left as [EpisodeSafety.v] promises. *)

From S2P Require Export EpisodeSafety SkillSafety Tools Run.

Open Scope Z_scope.

Section RunSafety.
Context `{JD : JsonData, !Serialize Value, !Serialize (list Value), !Serialize (list ChangeId), !Sha256}.
Context `{!Serialize MetricBatch, !Serialize CleanupReceipt, !Serialize ComparisonEvidence,
  !Serialize ContractPayload, !Serialize IntentDigestPayload, !Serialize EvaluationDecision,
  !Serialize AbEvaluationEvidence, !Serialize AuthorizationPayload,
  !ToValue ProbeEvidence, !ToValue AbEvaluationEvidence, !ToValue EpisodeOutcome}.
Context {W T : Type} `{!TransactionWal T, !WalLaws T, !TransactionStore W T, !Clock W,
  !AgentReasoner W, !AuditSink W}.
Context `{!TransactionStoreLaws W T, !Sha256Laws}.
Context (decode_intent_spec : Value → result string EvaluationIntentSpec).
Context (self : EpisodeCoordinator (W := W)) (episode_id : EpisodeId).

Abbreviation timeout := (coordinator_timeout self).
Abbreviation capabilities := (coordinator_capabilities self).
Abbreviation session := (EpisodeSession (W := W) (T := T)).
Abbreviation state := (RunState (W := W) (T := T)).
Abbreviation RM := (M state string).
Implicit Types (s : state) (log : list RunEvent).

(** ** What the history of a run says *)

(** The audit record that announces a command. *)
Definition announcement (invocation : AgentToolInvocation) (e : RunEvent) : Prop :=
  ∃ round, e = Run_Record "agent_command"
    (json_object [("round", json_integer round);
                  ("call_id", json_string (invocation_id invocation));
                  ("tool", json_string (invocation_name invocation));
                  ("arguments", invocation_arguments invocation)]) true.

(** Every command comes directly after its record; the newest event is first. *)
Fixpoint commands_announced log : Prop :=
  match log with
  | [] => True
  | Run_Execute invocation _ :: rest =>
    (∃ e, head rest = Some e ∧ announcement invocation e) ∧ commands_announced rest
  | _ :: rest => commands_announced rest
  end.

Definition is_turn (e : RunEvent) : bool :=
  match e with Run_Begin | Run_Resume _ => true | _ => false end.
Definition is_execute (e : RunEvent) : bool :=
  match e with Run_Execute _ _ => true | _ => false end.
Definition is_skill (e : RunEvent) : bool := match e with Run_Skill _ _ => true | _ => false end.

(** The events since the reasoner was last asked. *)
Fixpoint current_batch log : list RunEvent :=
  match log with [] => [] | e :: rest => if is_turn e then [] else e :: current_batch rest end.

(** No batch holds both skill calls and commands, at any time of the run. *)
Fixpoint unmixed log : Prop :=
  match log with
  | [] => True
  | e :: rest => (existsb is_execute (current_batch log) = false
                  ∨ existsb is_skill (current_batch log) = false) ∧ unmixed rest
  end.

Fixpoint turns log : Z :=
  match log with [] => 0 | e :: rest => (if is_turn e then 1 else 0) + turns rest end.

(** ** The invariant of the loop *)

Hypothesis snapshot_spec : SnapshotSpec capabilities.
Hypothesis snapshot_ids : ∀ id meta, snap_metadata capabilities !! id = Some meta → meta_id meta = id.
Hypothesis episode_range : 0 <= episode_id <= u64_max.
Hypothesis evidence_encodes : ∀ e : AbEvaluationEvidence, ∃ v, to_value e = Ok v.

Section Limit.
Context (skill_limit : Z).

Record run_ok s : Prop := {
  ro_session : session_ok episode_id timeout capabilities (run_session s);
  ro_limit : max_skill_rounds_of s = skill_limit;
  ro_announced : commands_announced (run_log s);
  ro_unmixed : unmixed (run_log s);
}.

(** Within a batch: the counters, the number of turns, and one kind of call only. *)
Record batch_ok (context_round : bool) (a k n : Z) s : Prop := {
  bo_run : run_ok s;
  bo_actions : action_rounds s = a;
  bo_skills : skill_rounds s = k;
  bo_turns : turns (run_log s) = n;
  bo_kind : existsb (if context_round then is_execute else is_skill)
              (current_batch (run_log s)) = false;
}.

Lemma batch_ok_session context_round a k n s x :
  batch_ok context_round a k n s → session_ok episode_id timeout capabilities x →
  batch_ok context_round a k n (set_run_session x s).
Proof. by intros [[] ] ?. Qed.

(** An event that is no turn and of the kind of the batch. *)
Lemma batch_ok_event context_round a k n s e :
  batch_ok context_round a k n s → is_turn e = false →
  (if context_round then is_execute else is_skill) e = false → commands_announced (e :: run_log s) →
  batch_ok context_round a k n (log_event e s).
Proof.
  intros [[Hs Hl Ha Hu] <- <- <- Hk] Ht He Han.
  assert (existsb (if context_round then is_execute else is_skill)
            (current_batch (e :: run_log s)) = false) as Hk'.
  { simpl. rewrite Ht. simpl. by rewrite He, Hk. }
  split; [split| | | |]; try done.
  - split; [|done]. destruct context_round; [by left|by right].
  - simpl. by rewrite Ht.
Qed.

Lemma wp_in_session {A} (m : M session string A) (Q : A → state → Prop) (R : string → state → Prop) s :
  wp m (λ a x, Q a (set_run_session x s)) (λ e x, R e (set_run_session x s)) (run_session s) →
  wp (in_session m) Q R s.
Proof. unfold wp, in_session. by destruct (m (run_session s)) as [[] x]. Qed.

Lemma wp_in_world {A} (call : W → A * W) (Q : A → state → Prop) (R : string → state → Prop) s :
  (∀ a w, Q a (set_run_session (set_ses_world w (run_session s)) s)) → wp (in_world_of call) Q R s.
Proof. intros HQ. unfold wp, in_world_of. by destruct (call _) as [a w]. Qed.

Section Batch.
Context (context_round : bool) (a k n : Z).
Abbreviation B := (batch_ok context_round a k n).

Lemma wp_record event data s :
  B s → wp (record episode_id event data)
    (λ r s', B s' ∧ (is_ok r = true → head (run_log s') = Some (Run_Record event data true)))
    (λ _ _, False) s.
Proof.
  intros Hs. unfold record. apply wp_bind, wp_gets, wp_bind, wp_in_world. intros r w.
  apply wp_bind, wp_modify, wp_ret. split.
  - apply batch_ok_event; [|done|by destruct context_round|].
    + apply batch_ok_session; [done|]. apply world_ok, Hs.
    + apply Hs.
  - destruct r; simpl; [done|intros [=] ].
Qed.

Lemma wp_fail reason s : B s → wp (in_session (fail_closed reason)) (λ _, B) (λ _ _, False) s.
Proof.
  intros Hs. apply wp_in_session.
  eapply wp_mono; [apply fail_closed_ok, Hs| |done]. intros [] x Hx. by apply batch_ok_session.
Qed.

Lemma wp_audited {A} event data (body : RM (option A)) (Q : option A → state → Prop) s :
  B s →
  (∀ s', B s' → head (run_log s') = Some (Run_Record event data true) → wp body Q (λ _ _, False) s') →
  (∀ s', B s' → Q None s') →
  wp (audited episode_id event data body) Q (λ _ _, False) s.
Proof.
  intros Hs Hbody HN. unfold audited. apply wp_bind. eapply wp_mono; [by apply wp_record| |done].
  intros [[]|e] s' [Hs' Hh]; [by apply Hbody; auto|].
  apply wp_bind. eapply wp_mono; [by apply wp_fail| |done]. intros [] s'' Hs''. by apply wp_ret, HN.
Qed.

Lemma wp_skill_call command invocation s :
  context_round = true → B s →
  wp (skill_call command invocation) (λ _, B) (λ _ _, False) s.
Proof.
  intros Hc Hs. unfold skill_call. apply wp_bind, wp_gets. unfold id.
  destruct (skill_execute command invocation (run_skills s)) as [execution skills] eqn:He.
  apply wp_bind, wp_modify, wp_bind, wp_modify, wp_ret.
  apply (batch_ok_event _ _ _ _ (set_run_skills skills s)); [|done|by rewrite Hc|].
  - destruct Hs as [[] ]. split; try done. split; try done. unfold max_skill_rounds_of in *. simpl.
    rewrite <- ro_limit0. f_equal.
    assert (skills = (skill_execute command invocation (run_skills s)).2) as -> by by rewrite He.
    destruct command; simpl; [unfold load_skill|unfold load_reference]; by repeat case_match.
  - apply Hs.
Qed.

Lemma wp_action_call command invocation s e :
  context_round = false → B s → head (run_log s) = Some e → announcement invocation e →
  wp (action_call self episode_id command invocation) (λ _, B) (λ _ _, False) s.
Proof.
  intros Hc Hs Hh Ha. unfold action_call. apply wp_bind, wp_modify, wp_in_session.
  assert (B (log_event (Run_Execute invocation command) s)) as Hb.
  { apply batch_ok_event; [done|done|by rewrite Hc|]. split; [by exists e|apply Hs]. }
  eapply wp_mono; [apply execute_ok; try done; apply Hb| |done]. intros r x Hx.
  by apply batch_ok_session.
Qed.

End Batch.

(** A call of a batch that is of one kind. *)
Definition fits_batch (context_round mixed_batch : bool) (d : result string DecodedToolCall) : Prop :=
  mixed_batch = false →
  (is_context d = true → context_round = true) ∧ (is_action d = true → context_round = false).

Lemma wp_process_call context_round a k n mixed_batch call s :
  batch_ok context_round a k n s → fits_batch context_round mixed_batch call.2 →
  wp (process_call self episode_id mixed_batch context_round call) (λ _, batch_ok context_round a k n) (λ _ _, False) s.
Proof.
  intros Hs Hfit. unfold process_call. apply wp_bind.
  apply (wp_mono _ _ (λ _, batch_ok context_round a k n) _ (λ _ _, False)); [|intros [result|] s' Hs'|done].
  2:{ destruct context_round; [by apply wp_ret|].
      eapply wp_audited; [exact Hs'|intros; by apply wp_ret|done]. }
  2:{ by apply wp_ret. }
  destruct call as [invocation d]; simpl in *. unfold perform_call.
  destruct mixed_batch; [by apply wp_ret|]. destruct (Hfit eq_refl) as [Hctx Hact].
  destruct d as [ [command|command]|error]; simpl in *.
  - apply wp_bind. eapply wp_mono; [by apply wp_skill_call; auto| |done]. intros execution s' Hs'.
    apply wp_bind, wp_gets. eapply wp_audited; [exact Hs'|intros; by apply wp_ret|done].
  - apply wp_bind, wp_gets. eapply wp_audited; [exact Hs| |done]. intros s' Hs' Hh. apply wp_bind.
    eapply wp_mono; [eapply wp_action_call; [by apply Hact|done|exact Hh|by eexists]| |done].
    intros r s'' Hs''. by apply wp_ret.
  - destruct context_round; [|by apply wp_ret]. apply wp_bind, wp_gets.
    eapply wp_audited; [exact Hs|intros; by apply wp_ret|done].
Qed.

Lemma wp_process_calls context_round a k n mixed_batch calls results s :
  batch_ok context_round a k n s → Forall (λ call, fits_batch context_round mixed_batch call.2) calls →
  wp (process_calls self episode_id mixed_batch context_round calls results)
    (λ _, batch_ok context_round a k n) (λ _ _, False) s.
Proof.
  revert results s. induction calls as [|call calls IH]; intros results s Hs Hf; simpl; [by apply wp_ret|].
  apply Forall_cons in Hf as [Hcall Hf]. apply wp_bind.
  eapply wp_mono; [by apply wp_process_call| |done]. intros [result|] s' Hs'; [|by apply wp_ret].
  apply wp_bind, wp_gets. destruct (is_reasoning_stopped _); [by apply wp_ret|by apply IH].
Qed.

(** ** Rounds *)

Hypothesis limit_range : 0 <= skill_limit.

(** Before the reasoner's answer is looked at: the counters and the number of
    times it was asked. *)
Record turn_ok (a k : Z) s : Prop := {
  tu_run : run_ok s;
  tu_actions : action_rounds s = a;
  tu_skills : skill_rounds s = k;
  tu_turns : turns (run_log s) = 1 + a + k;
  tu_batch : current_batch (run_log s) = [];
  tu_action_range : 0 <= a <= max_rounds self;
  tu_skill_range : 0 <= k <= skill_limit;
}.

(** When the loop is left. *)
Definition rounds_over s : Prop :=
  run_ok s ∧ turns (run_log s) <= max_rounds self + skill_limit + 1.

Lemma run_ok_session s x :
  run_ok s → session_ok episode_id timeout capabilities x → run_ok (set_run_session x s).
Proof. by intros [] ?. Qed.

Lemma rounds_over_session s x :
  rounds_over s → session_ok episode_id timeout capabilities x → rounds_over (set_run_session x s).
Proof. intros [Hr Ht] Hx. split; [by apply run_ok_session|done]. Qed.

Lemma wp_summarize message (Q : unit → state → Prop) s :
  run_ok s → (∀ x, session_ok episode_id timeout capabilities x → Q tt (set_run_session x s)) →
  wp (summarize_run message) Q (λ _ _, False) s.
Proof. intros Hs HQ. apply wp_in_session, wp_modify, HQ, summary_ok, Hs. Qed.

Lemma wp_fail_run reason (Q : unit → state → Prop) (R : string → state → Prop) s :
  run_ok s → (∀ x, session_ok episode_id timeout capabilities x → Q tt (set_run_session x s)) →
  wp (in_session (fail_closed reason)) Q R s.
Proof.
  intros Hs HQ. apply wp_in_session. eapply wp_mono; [apply fail_closed_ok, Hs| |done]. intros []. apply HQ.
Qed.

(** The counters of the round that was taken. *)
Definition round_counts (context_round : bool) (a k : Z) : Z * Z :=
  if context_round then (a, k + 1) else (a + 1, k).

Lemma round_counts_sum context_round a k a' k' :
  round_counts context_round a k = (a', k') → a' + k' = a + k + 1.
Proof. unfold round_counts. destruct context_round; intros [= <- <-]; lia. Qed.

Lemma wp_take_round context_round a k s :
  turn_ok a k s →
  wp (take_round self context_round)
    (λ admitted s', if admitted : bool then
        let '(a', k') := round_counts context_round a k in
        batch_ok context_round a' k' (a' + k') s' ∧ 0 <= a' <= max_rounds self ∧ 0 <= k' <= skill_limit
      else rounds_over s') (λ _ _, False) s.
Proof.
  intros [Hr Ha Hk Ht Hb Har Hkr]. unfold take_round. apply wp_bind, wp_gets. unfold id.
  assert (∀ x, session_ok episode_id timeout capabilities x → rounds_over (set_run_session x s)) as Hover.
  { intros x Hx. split; [by apply run_ok_session|]. simpl. lia. }
  pose proof (ro_limit s Hr) as Hlim. destruct context_round.
  - destruct (Z.eqb_spec (skill_rounds s) (max_skill_rounds_of s)) as [He|He].
    + apply wp_bind, wp_summarize; [done|]. intros x Hx. by apply wp_ret, Hover.
    + apply wp_bind, wp_modify, wp_ret. cbn -[Z.add Z.le]. split; [|lia].
      split; [by destruct Hr|done|simpl; lia|simpl; lia|simpl; by rewrite Hb].
  - destruct (Z.eqb_spec (action_rounds s) (max_rounds self)) as [He|He].
    + apply wp_bind, wp_summarize; [done|]. intros x Hx. by apply wp_ret, Hover.
    + apply wp_bind, wp_modify, wp_ret. cbn -[Z.add Z.le]. split; [|lia].
      split; [by destruct Hr|simpl; lia|done|simpl; lia|simpl; by rewrite Hb].
Qed.

Lemma batch_rounds_over context_round a k s :
  batch_ok context_round a k (a + k) s → 0 <= a <= max_rounds self → 0 <= k <= skill_limit →
  rounds_over s.
Proof. intros [Hr _ _ Ht _] ? ?. split; [done|]. lia. Qed.

Lemma wp_final_turn content a k s :
  turn_ok a k s →
  wp (final_turn self episode_id content) (λ next s', next = None ∧ rounds_over s') (λ _ _, False) s.
Proof.
  intros Hs. unfold final_turn. apply wp_bind.
  eapply wp_mono; [by apply wp_take_round| |done]. intros [|] s1; simpl.
  2:{ intros Hov. by apply wp_ret. }
  intros (Hb & Ha & Hk). apply wp_bind, wp_gets, wp_bind.
  eapply wp_mono; [by apply wp_record| |done]. intros r s2 [Hb2 _].
  assert (rounds_over s2) as Hov by by eapply batch_rounds_over.
  assert (run_ok s2) as Hr2 by apply Hb2.
  destruct r as [[]|e]; apply wp_bind;
    [apply wp_summarize|apply wp_fail_run]; try done;
    intros x Hx; apply wp_ret; (split; [done|by apply rounds_over_session]).
Qed.

Lemma decode_all_Ret calls available :
  ∃ decoded, decode_all decode_intent_spec (from_snapshots capabilities available) calls = Ret decoded.
Proof.
  induction calls as [|call calls [decoded IH] ]; simpl; [by eexists|].
  pose proof (decode_sound decode_intent_spec capabilities available call snapshot_ids) as Hd.
  destruct (ToolDispatcher_decode _ _ _); [| |done]; rewrite IH; by eexists.
Qed.

Lemma batch_fits (calls : list AgentToolInvocation) decoded :
  let has_context := existsb is_context decoded in
  let has_action := existsb is_action decoded in
  Forall (λ call : AgentToolInvocation * result string DecodedToolCall,
            fits_batch (has_context && negb has_action) (has_context && has_action) call.2)
    (zip calls decoded).
Proof.
  intros hc ha. apply Forall_forall. intros [call d] Hin%elem_of_zip_r. intros Hm. simpl in *.
  assert (is_context d = true → hc = true) as H1.
  { intros Hd. apply existsb_exists. exists d. by rewrite <- list_elem_of_In. }
  assert (is_action d = true → ha = true) as H2.
  { intros Hd. apply existsb_exists. exists d. by rewrite <- list_elem_of_In. }
  destruct hc, ha; simpl in *; naive_solver.
Qed.

(** The reasoner is asked again, with the batch behind it. *)
Lemma turn_ok_resume context_round a k s results x :
  batch_ok context_round a k (a + k) s → 0 <= a <= max_rounds self → 0 <= k <= skill_limit →
  session_ok episode_id timeout capabilities x →
  turn_ok a k (set_run_session x (log_event (Run_Resume results) s)).
Proof.
  intros [Hr Ha Hk Ht _] Har Hkr Hx. split; try done; simpl; [|lia].
  destruct Hr as [Hs Hl Han Hun]. split; try done. split; [by left|done].
Qed.

Lemma wp_batch_turn available calls a k s :
  turn_ok a k s →
  wp (batch_turn decode_intent_spec self episode_id (from_snapshots capabilities available) calls)
    (λ next s', match next with
                | None => rounds_over s'
                | Some _ => ∃ a' k', turn_ok a' k' s' ∧ a' + k' = a + k + 1
                end) (λ _ _, False) s.
Proof.
  intros Hs. unfold batch_turn. destruct (decode_all_Ret calls available) as [decoded Hd].
  apply wp_bind. unfold wp at 1. rewrite Hd. cbv zeta.
  set (context_round := existsb is_context decoded && negb (existsb is_action decoded)).
  apply wp_bind. eapply wp_mono; [by apply wp_take_round| |done]. intros [|] s1; simpl.
  2:{ intros Hov. by apply wp_ret. }
  destruct (round_counts context_round a k) as [a' k'] eqn:Hcount. intros (Hb & Ha & Hk).
  apply round_counts_sum in Hcount.
  apply wp_bind. eapply wp_mono; [by apply wp_process_calls; [|apply batch_fits]| |done].
  intros [results|] s2 Hb2; [|by apply wp_ret; eapply batch_rounds_over].
  apply wp_bind, wp_gets. destruct (is_reasoning_stopped _).
  { apply wp_ret. by eapply batch_rounds_over. }
  apply wp_bind, wp_gets. unfold id.
  assert (rounds_over s2) as Hov2 by by eapply batch_rounds_over.
  assert (run_ok s2) as Hr2 by apply Hb2.
  destruct (negb context_round && _).
  { apply wp_bind, wp_summarize; [done|]. intros x Hx. apply wp_ret. by apply rounds_over_session. }
  apply wp_bind, wp_modify, wp_bind, wp_in_world. intros r w.
  assert (turn_ok a' k' (set_run_session (set_ses_world w (run_session s2))
            (log_event (Run_Resume results) s2))) as Hturn.
  { eapply turn_ok_resume; try done. apply world_ok, Hr2. }
  destruct r as [turn|e]; [apply wp_ret; by exists a', k'|].
  apply wp_bind, wp_fail_run; [apply Hturn|]. intros x Hx. apply wp_ret.
  destruct Hturn as [Ht1 _ _ Ht2 _ Ht3 Ht4]. split; [by apply run_ok_session|]. simpl in *. lia.
Qed.

Lemma wp_take_turn available turn a k s :
  turn_ok a k s →
  wp (take_turn decode_intent_spec self episode_id (from_snapshots capabilities available) turn)
    (λ next s', match next with
                | None => rounds_over s'
                | Some _ => ∃ a' k', turn_ok a' k' s' ∧ a' + k' = a + k + 1
                end) (λ _ _, False) s.
Proof.
  intros Hs. destruct turn as [ [|call calls]|content].
  - simpl. apply wp_bind, wp_summarize; [apply Hs|]. intros x Hx. apply wp_ret.
    destruct Hs as [Hr _ _ Ht _ ? ?]. split; [by apply run_ok_session|]. simpl. lia.
  - by apply wp_batch_turn.
  - simpl. eapply wp_mono; [by eapply wp_final_turn| |done]. by intros next s' [-> ?].
Qed.

(** Termination: the fuel is enough. *)
Lemma wp_rounds available fuel turn a k s :
  turn_ok a k s → max_rounds self - a + (skill_limit - k) + 1 <= Z.of_nat fuel →
  wp (rounds decode_intent_spec self episode_id fuel (from_snapshots capabilities available) turn)
    (λ ended s', ended = true ∧ rounds_over s') (λ _ _, False) s.
Proof.
  revert turn a k s. induction fuel as [|fuel IH]; intros turn a k s Hs Hfuel; simpl.
  - destruct Hs. lia.
  - apply wp_bind. eapply wp_mono; [by apply wp_take_turn| |done]. intros [next|] s'.
    + intros (a' & k' & Hs' & Hsum). eapply IH; [done|]. lia.
    + intros Hov. by apply wp_ret.
Qed.

(** ** The whole run *)

(** How an episode may end. *)
Definition episode_over (x : session) : Prop :=
  Forall rolled_back_transaction (ses_retired x)
  ∧ match es_phase (ses_state x) with
    | Clean => ses_transaction x = None ∧ es_lifecycle (ses_state x) = Finished
    | Committed => ∃ i candidate e authorization p,
        commit_record timeout capabilities x i candidate e authorization p
    | RecoveryRequired => True
    | _ => False
    end.

Definition settled_run s : Prop := rounds_over s ∧ episode_over (run_session s).

(** Before the reasoner is asked: nothing but audit records. *)
Definition only_records log : Prop :=
  Forall (λ e, match e with Run_Record _ _ _ => True | _ => False end) log.

Definition fresh s : Prop :=
  (∃ w, run_session s = EpisodeSession_new episode_id w) ∧ only_records (run_log s)
  ∧ max_skill_rounds_of s = skill_limit ∧ action_rounds s = 0 ∧ skill_rounds s = 0.

Lemma only_records_facts log :
  only_records log →
  commands_announced log ∧ unmixed log ∧ turns log = 0 ∧ existsb is_execute (current_batch log) = false.
Proof.
  induction 1 as [|e log He _ (IH1 & IH2 & IH3 & IH4)]; [done|].
  destruct e; try done. simpl. auto.
Qed.

Lemma unmixed_record log event data ok :
  unmixed log → unmixed (Run_Record event data ok :: log).
Proof. destruct log as [|e log]; [by split; [left|]|]. intros [Hc Hu]. split; [exact Hc|by split]. Qed.

Lemma run_ok_record s event data ok :
  run_ok s → run_ok (log_event (Run_Record event data ok) s).
Proof. intros []. split; try done. by apply unmixed_record. Qed.

Lemma wp_record_with event data (I : state → Prop) s :
  (∀ w b, I (log_event (Run_Record event data b) (set_run_session (set_ses_world w (run_session s)) s))) →
  wp (record episode_id event data) (λ _, I) (λ _ _, False) s.
Proof.
  intros HI. unfold record. apply wp_bind, wp_gets, wp_bind, wp_in_world. intros r w.
  apply wp_bind, wp_modify, wp_ret, HI.
Qed.

Lemma wp_record_or_fail event data (I : state → Prop) s :
  (∀ w b, I (log_event (Run_Record event data b) (set_run_session (set_ses_world w (run_session s)) s))) →
  wp (record_or_fail episode_id event data) (λ _, I) (λ _, I) s.
Proof.
  intros HI. apply wp_bind. eapply wp_mono; [by apply wp_record_with| |done].
  intros r s' Hs'. by apply wp_lift.
Qed.

Lemma episode_over_world x w : episode_over x → episode_over (set_ses_world w x).
Proof.
  intros [Hret Hph]. split; [done|]. simpl. destruct (es_phase (ses_state x)); try done.
  destruct Hph as (i & c & e & a & p & []). exists i, c, e, a, p. by split.
Qed.

Lemma settled_run_record s event data w b :
  settled_run s →
  settled_run (log_event (Run_Record event data b) (set_run_session (set_ses_world w (run_session s)) s)).
Proof.
  intros [[Hr Ht] He]. split; [|by apply episode_over_world]. split; [|exact Ht].
  apply run_ok_record, run_ok_session; [done|]. apply world_ok, Hr.
Qed.

Lemma wp_finish_session s :
  rounds_over s →
  wp (finish_session episode_id)
    (λ o s', settled_run s' ∧ o = episode_outcome episode_id (run_session s'))
    (λ _, settled_run) s.
Proof.
  intros Hs. unfold finish_session. apply wp_bind, wp_in_session.
  eapply wp_mono; [apply settle_session_ok, Hs| |done]. intros [] x [Hx Hph].
  assert (settled_run (set_run_session x s)) as Hset.
  { split; [by apply rounds_over_session|]. split; [apply Hx|]. simpl.
    pose proof (so_phase _ _ _ _ Hx) as Hp. unfold phase_ok in Hp.
    destruct Hph as [[Hph Hf]|[Hph|Hph]]; rewrite Hph in *; [|done|done]. split; [apply Hp|done]. }
  apply wp_bind, wp_gets, wp_bind, wp_lift; [|done]. intros value _.
  apply wp_bind. eapply wp_mono; [apply (wp_record_or_fail _ _ (λ s', settled_run s' ∧
    episode_outcome episode_id (run_session s') = episode_outcome episode_id x))| |].
  - intros w b. split; [by apply settled_run_record|done].
  - intros [] s' [Hs' Ho]. by apply wp_ret.
  - by intros e s' [Hs' _].
Qed.

Lemma fresh_record s event data w b :
  fresh s →
  fresh (log_event (Run_Record event data b) (set_run_session (set_ses_world w (run_session s)) s)).
Proof.
  intros ((w0 & Hw) & Hrec & Hrest). split_and!; try apply Hrest; [|by constructor].
  exists w. simpl. by rewrite Hw.
Qed.

Lemma fresh_first_turn s w :
  fresh s → 0 <= max_rounds self →
  turn_ok 0 0 (set_run_session (set_ses_world w (run_session s)) (log_event Run_Begin s)).
Proof.
  intros ((w0 & Hw) & Hrec & Hlim & Ha & Hk) Hmax.
  destruct (only_records_facts _ Hrec) as (H1 & H2 & H3 & _).
  split; try done; simpl; [|lia]. split; try done; simpl; [|split; [by left|done]].
  rewrite Hw. apply world_ok, new_session_ok.
Qed.

Definition run_settles (x : session) log : Prop :=
  commands_announced log ∧ unmixed log ∧ turns log <= max_rounds self + skill_limit + 1.

(** What is left of a run: the history is in order, and the session is over
    or was never given to the reasoner. *)
Definition run_done (o : outcome string EpisodeOutcome) (x : session) log : Prop :=
  run_settles x log
  ∧ match o with
    | Ret outcome => episode_over x ∧ outcome = episode_outcome episode_id x
    | Throw _ => episode_over x ∨ (∃ w, x = EpisodeSession_new episode_id w) ∧ only_records log
    | Panic => False
    end.

Lemma settled_run_done s e : settled_run s → run_done (Throw e) (run_session s) (run_log s).
Proof. intros [[Hr Ht] He]. split; [|by left]. by destruct Hr. Qed.

Lemma fresh_run_done s e : fresh s → 0 <= max_rounds self → run_done (Throw e) (run_session s) (run_log s).
Proof.
  intros (Hw & Hrec & _) Hmax. destruct (only_records_facts _ Hrec) as (H1 & H2 & H3 & _).
  split; [|by right]. split_and!; try done. lia.
Qed.

Lemma wp_finish_done s :
  rounds_over s →
  wp (finish_session episode_id)
    (λ o s', run_done (Ret o) (run_session s') (run_log s'))
    (λ e s', run_done (Throw e) (run_session s') (run_log s')) s.
Proof.
  intros Hs. eapply wp_mono; [by apply wp_finish_session| |].
  - intros o s' [[[Hr Ht] He] ->]. split; [|done]. by destruct Hr.
  - intros e s'. apply settled_run_done.
Qed.

Lemma wp_run_session_loop activation requested s :
  fresh s → 0 <= max_rounds self →
  wp (run_session_loop decode_intent_spec self episode_id activation requested)
    (λ o s', run_done (Ret o) (run_session s') (run_log s'))
    (λ e s', run_done (Throw e) (run_session s') (run_log s')) s.
Proof.
  intros Hs Hmax. unfold run_session_loop. apply wp_bind, wp_gets. cbv zeta.
  assert (∀ e s', fresh s' → run_done (Throw e) (run_session s') (run_log s')) as Hearly.
  { intros e s' Hs'. by apply fresh_run_done. }
  assert (∀ event data s', fresh s' →
    wp (record_or_fail episode_id event data) (λ _, fresh)
      (λ e s', run_done (Throw e) (run_session s') (run_log s')) s') as Hrecord.
  { intros event data s' Hs'. eapply wp_mono; [apply (wp_record_or_fail _ _ fresh)| |].
    - intros w b. by apply fresh_record.
    - done.
    - done. }
  apply wp_bind, wp_lift; [|by auto]. intros view _.
  apply wp_bind. eapply wp_mono; [by apply Hrecord| |done]. intros [] s1 Hs1.
  apply wp_bind, (wp_for_each (λ _, fresh)); [done|by auto|]. clear s1 Hs1. intros s1 Hs1.
  apply wp_bind.
  eapply (wp_mono _ _ (λ _, fresh) _ (λ e s', run_done (Throw e) (run_session s') (run_log s'))).
  { destruct view as [view|]; [|by apply wp_ret]. destruct (truncated view); [by auto|by apply wp_ret]. }
  2:{ done. }
  clear s1 Hs1. intros [] s1 Hs1. apply wp_bind, wp_modify, wp_bind, wp_in_world. intros r w.
  pose proof (fresh_first_turn _ w Hs1 Hmax) as Hturn. destruct r as [turn|error].
  - apply wp_bind. eapply wp_mono; [eapply wp_rounds; [exact Hturn|]| |done].
    + destruct Hs as (_ & _ & Hlim & _). unfold max_skill_rounds_of in Hlim. rewrite Hlim. lia.
    + intros ended s2 [-> Hov]. by apply wp_finish_done.
  - apply wp_bind, wp_fail_run; [apply Hturn|]. intros x Hx. apply wp_finish_done.
    destruct Hturn as [Ht1 _ _ Ht2 _ _ _]. split; [by apply run_ok_session|]. simpl in *. lia.
Qed.
End Limit.

Lemma run_is_done activation requested w :
  0 <= max_rounds self → 0 <= max_skill_rounds (skill_config self) →
  ∃ r x log, run decode_intent_spec self episode_id activation requested w = (r, (x, log))
    ∧ run_done (max_skill_rounds (skill_config self)) r x log.
Proof.
  intros Hmax Hskill. unfold run.
  destruct (SkillSession_new _ _ _) as [sk|error] eqn:Hsk; last first.
  { eexists _, _, []. split; [done|]. split; [split_and!; try done; simpl; lia|].
    right. split; [by eexists|by constructor]. }
  pose proof (SkillSession_new_limits _ _ _ _ Hsk) as Hlim.
  pose proof (wp_run_session_loop (max_skill_rounds (skill_config self)) Hskill activation requested
    (MkRun (EpisodeSession_new episode_id w) sk 0 0 [])) as Hw.
  assert (fresh (max_skill_rounds (skill_config self))
    (MkRun (EpisodeSession_new episode_id w) sk 0 0 [])) as Hf.
  { split_and!; [by eexists|by apply Forall_nil| |done..]. unfold max_skill_rounds_of. simpl. by rewrite (proj2 Hlim). }
  specialize (Hw Hf Hmax). unfold wp in Hw.
  destruct (run_session_loop _ _ _ _ _ _) as [r s] eqn:Hrun.
  eexists r, (run_session s), (run_log s). split; [done|]. by destruct r.
Qed.

(** C4. A run of an episode never panics and always ends: the reasoner is asked at
    most once more than the rounds of both kinds allow, whatever it answers and
    whichever provider, audit write or reasoner call fails.  In its history each
    command directly follows a written audit record with that command's call id,
    tool and arguments, and no batch holds both skill calls and commands.  If
    it returns, the session is clean with no transaction, committed, or marked for
    recovery, and the outcome is the session's; if it fails, the session is over in
    the same way, unless nothing happened yet but audit records. *)
Theorem runs_end_safely activation requested w :
  0 <= max_rounds self → 0 <= max_skill_rounds (skill_config self) →
  ∃ r x log, run decode_intent_spec self episode_id activation requested w = (r, (x, log))
    ∧ commands_announced log ∧ unmixed log
    ∧ turns log <= max_rounds self + max_skill_rounds (skill_config self) + 1
    ∧ match r with
      | Ret outcome => episode_over x ∧ outcome = episode_outcome episode_id x
      | Throw _ => episode_over x ∨ (∃ w', x = EpisodeSession_new episode_id w') ∧ only_records log
      | Panic => False
      end.
Proof.
  intros Hmax Hskill.
  destruct (run_is_done activation requested w Hmax Hskill) as (r & x & log & Hrun & (? & ? & ?) & ?).
  by exists r, x, log.
Qed.
End RunSafety.
