(* ===== verification/Activation.v ===== *)
(** * Activations ([tuning_agent/src/activation/])

    What wakes the agent: events and requests ([event.rs]), the kernel that accepts
    or refuses them ([kernel.rs]), the timer and the Unix socket they arrive by
    ([source/]).  Instants and durations are nanoseconds; a client's stream and the
    listener are operations on the world. *)

From S2P Require Export Run.

Open Scope Z_scope.

(** ** Events, requests and responses ([event.rs]) *)

Section Events.
Context `{JD : JsonData}.

Inductive Scope := Scope_Host | Scope_Cgroup (path : string).
Inductive EventSource := Source_Cli | Source_Program (name : string) | Source_Internal.
Inductive Severity := Info | Warning | Critical.

(** [Severity::as_str], and the derived order. *)
Definition Severity_as_str (s : Severity) : string :=
  match s with Info => "info" | Warning => "warning" | Critical => "critical" end.
Definition severity_rank (s : Severity) : Z :=
  match s with Info => 0 | Warning => 1 | Critical => 2 end.

Record ActivationEvent := MkActivationEvent {
  source : EventSource;
  event_type : string;
  severity : Severity;
  scope : Scope;
  event_timestamp_ns : Z;
  evidence : Value;
}.

(** The clock is read by the caller. *)
Definition ActivationEvent_new (s : EventSource) (type : string) (sev : Severity) (sc : Scope) (now : Z)
    : ActivationEvent :=
  MkActivationEvent s type sev sc now (json_object []).

Record ActivationRequest := MkActivationRequest {
  request_id : string;
  wait : bool;
  requested_skills : list string;
  request_event : ActivationEvent;
}.

Definition ActivationRequest_new (id : string) (wait : bool) (event : ActivationEvent) : ActivationRequest :=
  MkActivationRequest id wait [] event.
Definition with_requested_skills (r : ActivationRequest) (skills : list string) : ActivationRequest :=
  MkActivationRequest (request_id r) (wait r) skills (request_event r).
Definition fire_and_forget (event : ActivationEvent) : ActivationRequest :=
  MkActivationRequest ("legacy-" +:+ show (event_timestamp_ns event)) false [] event.

Inductive ActivationOutcomeStatus :=
  | Status_Committed | Status_NoCommit | Status_RecoveryRequired | Status_Rejected | Status_Error.

Record ActivationResponse := MkActivationResponse {
  version : Z;
  response_request_id : string;
  response_status : ActivationOutcomeStatus;
  accepted : bool;
  response_episode : option EpisodeOutcome;
  response_error : option string;
}.

Definition ActivationResponse_rejected (id error : string) : ActivationResponse :=
  MkActivationResponse 1 id Status_Rejected false None (Some error).
Definition ActivationResponse_error (id error : string) : ActivationResponse :=
  MkActivationResponse 1 id Status_Error false None (Some error).
Definition ActivationResponse_from_episode (id : string) (episode : EpisodeOutcome) : ActivationResponse :=
  let status := match outcome_phase episode with
                | Committed => Status_Committed
                | RecoveryRequired => Status_RecoveryRequired
                | _ => Status_NoCommit
                end in
  MkActivationResponse 1 id status true (Some episode) None.

(** ** The activation kernel ([kernel.rs]) *)

Inductive ActivationState := Sleeping | Active | Cooldown | Frozen.
#[export] Instance ActivationState_eq_dec : EqDecision ActivationState.
Proof. solve_decision. Defined.

Definition ActivationState_debug (s : ActivationState) : string :=
  match s with
  | Sleeping => "Sleeping" | Active => "Active" | Cooldown => "Cooldown" | Frozen => "Frozen"
  end.

Record ActivationKernel := MkActivationKernel {
  activation_state : ActivationState;
  cooldown_until : option Z;
  last_event_type : option string;
  last_wake : option Z;
  dedupe_window : Z;
}.

Definition ActivationKernel_default : ActivationKernel :=
  MkActivationKernel Sleeping None None None (5 * 10 ^ 9).

(** [last_wake.zip(last_event_type)] with the same type inside the window. *)
Definition is_duplicate (k : ActivationKernel) (event : ActivationEvent) (now : Z) : bool :=
  match last_wake k, last_event_type k with
  | Some wake, Some type =>
    bool_decide (type = event_type event) && (saturating_duration_since now wake <? dedupe_window k)
  | _, _ => false
  end.

(** The cooldown is over: the kernel is awake again before the event is looked at. *)
Definition wake_up (k : ActivationKernel) : ActivationKernel :=
  MkActivationKernel Sleeping None (last_event_type k) (last_wake k) (dedupe_window k).

Definition accept_awake (k : ActivationKernel) (event : ActivationEvent) (now : Z)
    : bool * ActivationKernel :=
  if is_duplicate k event now && (severity_rank (severity event) <? severity_rank Critical) then (false, k)
  else (true, MkActivationKernel Active None (Some (event_type event)) (Some now) (dedupe_window k)).

Definition accept_at (event : ActivationEvent) (now : Z) (k : ActivationKernel) : bool * ActivationKernel :=
  if bool_decide (activation_state k = Frozen) then (false, k)
  else if bool_decide (activation_state k = Cooldown) then
    if match cooldown_until k with None => true | Some until => now <? until end then (false, k)
    else accept_awake (wake_up k) event now
  else accept_awake k event now.

(** A deadline that overflows is treated as an indefinite cooldown. *)
Definition cooldown_at (duration now : Z) (k : ActivationKernel) : ActivationKernel :=
  MkActivationKernel Cooldown (instant_checked_add now duration) (last_event_type k) (last_wake k)
    (dedupe_window k).
Definition freeze_activation (k : ActivationKernel) : ActivationKernel :=
  MkActivationKernel Frozen None (last_event_type k) (last_wake k) (dedupe_window k).
Definition sleep (k : ActivationKernel) : ActivationKernel :=
  MkActivationKernel Sleeping None (last_event_type k) (last_wake k) (dedupe_window k).

(** ** The timer ([source/timer.rs]) *)

Record TimerSource := MkTimer { timer_interval : option Z; next_tick : Z }.

Definition TimerSource_new (interval_ms : option Z) (now : Z) : TimerSource :=
  MkTimer (match interval_ms with
           | Some ms => if 0 <? ms then Some (from_millis ms) else None
           | None => None
           end) now.

(** [now + interval] panics when the sum is no instant; the event's time is that
    of the system clock. *)
Definition TimerSource_poll `{!Clock W, !AuditSink W} (t : TimerSource) (w : W)
    : outcome string (list ActivationEvent * TimerSource) * W :=
  match timer_interval t with
  | None => (Ret ([], t), w)
  | Some interval =>
    let '(now, w) := instant_now w in
    if now <? next_tick t then (Ret ([], t), w)
    else match instant_checked_add now interval with
         | None => (Panic, w)
         | Some tick =>
           let '(system_now, w) := now_ns w in
           (Ret ([ActivationEvent_new Source_Internal "timer" Info Scope_Host system_now],
                 MkTimer (Some interval) tick), w)
         end
  end.
End Events.

(** ** The Unix socket ([source/unix.rs]) *)

Definition MAX_ACTIVATION_BYTES : Z := 64 * 1024.
Definition MAX_CONNECTIONS_PER_POLL : nat := 16.

(** [std::io::Error], as far as the source looks at it. *)
Inductive IoErrorKind := WouldBlock | TimedOut | InvalidData | InvalidInput | OtherKind.
#[export] Instance IoErrorKind_eq_dec : EqDecision IoErrorKind.
Proof. solve_decision. Defined.
Record IoError := MkIoError { io_kind : IoErrorKind; io_message : string }.

(** A listener and the streams it accepts, named by numbers; [read_chunk] fills a
    buffer of 4096 bytes, and returns the empty string at the end of the stream. *)
Class UnixSockets (W : Type) := {
  socket_accept : W → result IoError Z * W;
  set_read_timeout : Z → W → bool * W;
  read_chunk : Z → W → result IoError string * W;
  write_all : Z → string → W → result IoError unit * W;
  shutdown_write : Z → W → result IoError unit * W;
}.

Section Unix.
Context `{JD : JsonData, !Serialize ActivationResponse, !UnixSockets W}.
(** [serde_json::from_slice] at [Value], and [from_value] at a request and an event. *)
Context (value_from_slice : string → result string Value)
  (decode_request : Value → result string ActivationRequest)
  (decode_event : Value → result string ActivationEvent).

Record UnixActivation := MkUnixActivation { unix_request : ActivationRequest; stream : option Z }.

Definition wants_response (a : UnixActivation) : bool := wait (unix_request a).

(** Sequencing of fallible calls on the world. *)
Definition then_io {A B} (m : W → result IoError A * W) (k : A → W → result IoError B * W) (w : W)
    : result IoError B * W :=
  match m w with (Ok a, w) => k a w | (Err e, w) => (Err e, w) end.

Definition respond (a : UnixActivation) (response : ActivationResponse) (w : W) : result IoError unit * W :=
  match stream a with
  | None => (Ok tt, w)
  | Some s =>
    match to_vec response with
    | Err error => (Err (MkIoError OtherKind error), w)
    | Ok payload => then_io (write_all s payload) (λ _, shutdown_write s) w
    end
  end.

Definition too_large : IoError := MkIoError InvalidData "activation event exceeds 64 KiB".

Definition is_timeout (e : IoError) : bool :=
  bool_decide (io_kind e = WouldBlock) || bool_decide (io_kind e = TimedOut).

(** The read loop; every turn but the last adds a byte, so [fuel] is the number of
    bytes a payload may have, and two. *)
Fixpoint read_loop (fuel : nat) (s : Z) (payload : string) (w : W) : option (result IoError string * W) :=
  match fuel with
  | O => None
  | S fuel =>
    match read_chunk s w with
    | (Ok chunk, w) =>
      if bool_decide (chunk = "") then Some (Ok payload, w)
      else let payload := payload +:+ chunk in
           if MAX_ACTIVATION_BYTES <? Z.of_nat (String.length payload) then Some (Err too_large, w)
           else read_loop fuel s payload w
    | (Err e, w) =>
      if is_timeout e then
        if bool_decide (payload = "") then Some (Err e, w) else Some (Ok payload, w)
      else Some (Err e, w)
    end
  end.

Definition read_fuel : nat := Z.to_nat (MAX_ACTIVATION_BYTES + 2).

(** The request in what was read: a full request, or a bare event. *)
Definition parse_activation (payload : string) : result IoError ActivationRequest :=
  let other {A} (r : result string A) := map_err (MkIoError OtherKind) r in
  _ ← reject (MAX_ACTIVATION_BYTES <? Z.of_nat (String.length payload)) too_large;
  value ← other (value_from_slice payload);
  match value_get "event" value with
  | Some _ => other (decode_request value)
  | None => event ← other (decode_event value); Ok (fire_and_forget event)
  end.

Definition read_activation (s : Z) (w : W) : option (result IoError ActivationRequest * W) :=
  match read_loop read_fuel s "" w with
  | Some (Ok payload, w) => Some (parse_activation payload, w)
  | Some (Err e, w) => Some (Err e, w)
  | None => None
  end.

(** One accepted connection: a client that cannot be read is dropped. *)
Definition read_connection (s : Z) (w : W) : option (list UnixActivation * W) :=
  match set_read_timeout s w with
  | (false, w) => Some ([], w)
  | (true, w) =>
    match read_activation s w with
    | Some (Ok request, w) => Some ([MkUnixActivation request (if wait request then Some s else None)], w)
    | Some (Err _, w) => Some ([], w)
    | None => None
    end
  end.

Fixpoint poll_connections (n : nat) (activations : list UnixActivation) (w : W)
    : option (result IoError (list UnixActivation) * W) :=
  match n with
  | O => Some (Ok activations, w)
  | S n =>
    match socket_accept w with
    | (Ok s, w) =>
      match read_connection s w with
      | Some (more, w) => poll_connections n (activations ++ more) w
      | None => None
      end
    | (Err e, w) =>
      if bool_decide (io_kind e = WouldBlock) then Some (Ok activations, w) else Some (Err e, w)
    end
  end.

(** [UnixIpcSource::poll]; [None] would be a read loop that does not end. *)
Definition UnixIpcSource_poll (w : W) : option (result IoError (list UnixActivation) * W) :=
  poll_connections MAX_CONNECTIONS_PER_POLL [] w.
End Unix.
