(* ===== verification/Cli.v ===== *)
(** * The command line ([tuning_agent/src/main.rs])

    What [parse_args] makes of the arguments, and that the command line a user
    writes for an activation is read back as that activation. *)

From S2P Require Export Activation Digits.

Open Scope Z_scope.

Section Cli.
Context `{JD : JsonData}.

(** ** Commands *)

Inductive CliCommand :=
  | Cli_Daemon
  | Cli_Activate (event : ActivationEvent) (wait json : bool) (timeout : Z) (skills : list string)
  | Cli_Help.

Record Args := MkArgs { config_path : option string; cli_command : CliCommand }.

Definition parse_severity (input : string) : Severity :=
  if bool_decide (input ∈ ["warning"; "warn"]) then Warning
  else if bool_decide (input ∈ ["critical"; "crit"]) then Critical
  else Info.

Definition parse_source (input : string) : EventSource :=
  if bool_decide (input = "internal") then Source_Internal
  else if bool_decide (input = "cli") then Source_Cli
  else Source_Program input.

(** The loop over the arguments of [activate]; [None] is the help text.  A timeout
    is kept in nanoseconds. *)
Record ActivateFlags := MkFlags {
  flag_wait : bool; flag_json : bool; flag_timeout : Z; flag_skills : list string; positional : list string }.

Definition no_flags : ActivateFlags := MkFlags false false (600 * 10 ^ 9) [] [].

Fixpoint parse_flags (args : list string) (f : ActivateFlags) : option ActivateFlags :=
  match args with
  | [] => Some f
  | arg :: args =>
    if bool_decide (arg = "--wait") then
      parse_flags args (MkFlags true (flag_json f) (flag_timeout f) (flag_skills f) (positional f))
    else if bool_decide (arg = "--json") then
      parse_flags args (MkFlags (flag_wait f) true (flag_timeout f) (flag_skills f) (positional f))
    else if bool_decide (arg = "--timeout-seconds") then
      match args with
      | value :: args =>
        match parse_u64 value with
        | Some seconds =>
          if 0 <? seconds then
            parse_flags args (MkFlags (flag_wait f) (flag_json f) (seconds * 10 ^ 9) (flag_skills f) (positional f))
          else None
        | None => None
        end
      | [] => None
      end
    else if bool_decide (arg = "--skill") then
      match args with
      | value :: args =>
        parse_flags args (MkFlags (flag_wait f) (flag_json f) (flag_timeout f) (flag_skills f ++ [value]) (positional f))
      | [] => None
      end
    else parse_flags args (MkFlags (flag_wait f) (flag_json f) (flag_timeout f) (flag_skills f)
                             (positional f ++ [arg]))
  end.

(** [positional.get(i)] with its default. *)
Definition event_of (positional : list string) (now : Z) : ActivationEvent :=
  ActivationEvent_new
    (match positional !! 2%nat with Some s => parse_source s | None => Source_Cli end)
    (default "manual" (positional !! 0%nat))
    (match positional !! 1%nat with Some s => parse_severity s | None => Info end)
    (match positional !! 3%nat with Some s => Scope_Cgroup s | None => Scope_Host end) now.

(** The clock is read when an activation is made. *)
Definition parse_command (command : option string) (args : list string) (now : Z) : CliCommand :=
  match command with
  | Some c =>
    if bool_decide (c = "daemon") then Cli_Daemon
    else if bool_decide (c = "activate") then
      match parse_flags args no_flags with
      | Some f => Cli_Activate (event_of (positional f) now) (flag_wait f) (flag_json f) (flag_timeout f)
                    (flag_skills f)
      | None => Cli_Help
      end
    else Cli_Help
  | None => Cli_Help
  end.

(** The arguments after the program's name. *)
Definition parse_args (args : list string) (now : Z) : Args :=
  match args with
  | first :: rest =>
    if bool_decide (first ∈ ["--config"; "-c"]) then
      MkArgs (head rest) (parse_command (head (tail rest)) (tail (tail rest)) now)
    else MkArgs None (parse_command (Some first) rest now)
  | [] => MkArgs None (parse_command None [] now)
  end.

(** ** Reading back what was written *)

Definition source_argument (s : EventSource) : string :=
  match s with Source_Cli => "cli" | Source_Internal => "internal" | Source_Program name => name end.

(** The command line for an activation. *)
Definition activate_arguments (e : ActivationEvent) (wait json : bool) (timeout_seconds : Z)
    (skills : list string) : list string :=
  concat [["activate"]; if wait then ["--wait"] else []; if json then ["--json"] else [];
          ["--timeout-seconds"; show timeout_seconds];
          concat (map (λ skill, ["--skill"; skill]) skills);
          [event_type e; Severity_as_str (severity e); source_argument (source e)];
          match scope e with Scope_Host => [] | Scope_Cgroup path => [path] end].

Definition flag_names : list string := ["--wait"; "--json"; "--timeout-seconds"; "--skill"].

(** The texts an event is written with are no flags, and a program is not named
    like the other sources. *)
Definition writable (e : ActivationEvent) : Prop :=
  (event_type e ∉ flag_names)
  ∧ match source e with
    | Source_Program name => (name ∉ flag_names) ∧ (name ∉ ["internal"; "cli"])
    | _ => True
    end
  ∧ match scope e with Scope_Cgroup path => path ∉ flag_names | Scope_Host => True end.

Lemma parse_positional arg args f :
  arg ∉ flag_names →
  parse_flags (arg :: args) f
  = parse_flags args (MkFlags (flag_wait f) (flag_json f) (flag_timeout f) (flag_skills f) (positional f ++ [arg])).
Proof.
  intros Ha. unfold flag_names in Ha. simpl. rewrite !not_elem_of_cons in Ha.
  destruct Ha as (? & ? & ? & ? & _). by rewrite !bool_decide_eq_false_2.
Qed.

Lemma parse_skills skills args f :
  parse_flags (concat (map (λ skill, ["--skill"; skill]) skills) ++ args) f
  = parse_flags args (MkFlags (flag_wait f) (flag_json f) (flag_timeout f) (flag_skills f ++ skills) (positional f)).
Proof.
  revert f. induction skills as [|skill skills IH]; intros [w j t s p]; simpl; [by rewrite app_nil_r|].
  rewrite IH. simpl. by rewrite <- app_assoc.
Qed.

Lemma digit_value_char (n : N) : (n < 10)%N → digit_value (pretty_N_char n) = Some (Z.of_N n).
Proof.
  intros Hn. destruct n as [|[[[|[]|]|[|[]|]|]|[[|[]|]|[|[]|]|]|]]; try lia; reflexivity.
Qed.

(** Reading digits continues from the number written so far. *)
Lemma parse_digits_go x s :
  Z.of_N x <= u64_max → parse_digits u64_max 0 (pretty_N_go x s) = parse_digits u64_max (Z.of_N x) s.
Proof.
  revert s. induction (N.lt_wf_0 x) as [x _ IH]; intros s Hx.
  destruct (decide (x = 0%N)) as [->|Hne]; [by rewrite pretty_N_go_0|].
  rewrite pretty_N_go_step by lia.
  assert (x `div` 10 < x)%N as Hlt by (apply N.div_lt; lia).
  rewrite IH; [|done|lia]. simpl.
  pose proof (N.mod_lt x 10 ltac:(done)) as Hmod. rewrite digit_value_char by done.
  assert (Z.of_N (x `div` 10) * 10 + Z.of_N (x `mod` 10) = Z.of_N x) as ->.
  { pose proof (N.div_mod x 10). lia. }
  destruct (Z.ltb_spec u64_max (Z.of_N x)); [lia|done].
Qed.

Lemma parse_u64_show n : 0 < n <= u64_max → parse_u64 (show n) = Some n.
Proof.
  intros Hn. assert (∃ x, n = Z.of_N x ∧ x ≠ 0%N ∧ show n = pretty_N_go x "") as (x & -> & Hx & ->).
  { destruct n as [|p|p]; [lia| |lia]. exists (N.pos p). split_and!; [done..|].
    unfold show. change (pretty (Z.pos p)) with (pretty (N.pos p)). unfold pretty, pretty_N. by case_decide. }
  change (Some (Z.of_N x)) with (parse_digits u64_max (Z.of_N x) "").
  rewrite <- (parse_digits_go x "") by lia.
  pose proof (parse_digits_go x "") as Hgo. destruct (pretty_N_go x "") as [|a rest].
  { specialize (Hgo ltac:(lia)). simpl in Hgo. injection Hgo as Hgo. lia. }
  unfold parse_u64, parse_unsigned. case_bool_decide as Ha; [|done]. subst a. specialize (Hgo ltac:(lia)). discriminate Hgo.
Qed.

(** The command line written for an activation is read back as that activation,
    with its flags, its timeout, its skills and the configuration file, when no
    text of the event is a flag and no program is named like another source. *)
Theorem activations_round_trip e wait json timeout skills config now :
  writable e → 0 < timeout <= u64_max →
  parse_args (match config with Some path => ["--config"; path] | None => [] end
              ++ activate_arguments e wait json timeout skills) now
  = MkArgs config (Cli_Activate (ActivationEvent_new (source e) (event_type e) (severity e) (scope e) now)
                     wait json (timeout * 10 ^ 9) skills).
Proof.
  intros (Ht & Hs & Hc) Htime.
  assert (parse_args (match config with Some path => ["--config"; path] | None => [] end
    ++ activate_arguments e wait json timeout skills) now
    = MkArgs config (parse_command (Some "activate") (tail (activate_arguments e wait json timeout skills)) now)) as ->.
  { by destruct config. }
  assert (parse_flags (tail (activate_arguments e wait json timeout skills)) no_flags
    = Some (MkFlags wait json (timeout * 10 ^ 9) skills
        ([event_type e; Severity_as_str (severity e); source_argument (source e)]
         ++ match scope e with Scope_Host => [] | Scope_Cgroup path => [path] end))) as Hf.
  { assert (∀ args f, parse_flags ((if wait then ["--wait"] else []) ++ args) f
      = parse_flags args (MkFlags (if wait then true else flag_wait f) (flag_json f) (flag_timeout f)
                            (flag_skills f) (positional f))) as Hwait by (intros args []; by destruct wait).
    assert (∀ args f, parse_flags ((if json then ["--json"] else []) ++ args) f
      = parse_flags args (MkFlags (flag_wait f) (if json then true else flag_json f) (flag_timeout f)
                            (flag_skills f) (positional f))) as Hjson by (intros args []; by destruct json).
    assert (∀ args f, parse_flags ("--timeout-seconds" :: show timeout :: args) f
      = parse_flags args (MkFlags (flag_wait f) (flag_json f) (timeout * 10 ^ 9) (flag_skills f) (positional f))) as Hto.
    { intros args f. simpl. rewrite parse_u64_show by done. by destruct (Z.ltb_spec 0 timeout); [|lia]. }
    assert (Severity_as_str (severity e) ∉ flag_names) as Hsev by (destruct (severity e); vm_compute; set_solver).
    assert (source_argument (source e) ∉ flag_names) as Hsrc.
    { destruct (source e); simpl; [set_solver|apply Hs|set_solver]. }
    unfold activate_arguments. cbn [concat tail app]. rewrite Hwait, Hjson, Hto, parse_skills.
    cbn [app]. rewrite !parse_positional by done.
    destruct (scope e); cbn [app]; rewrite ?parse_positional by done; simpl; by destruct wait, json. }
  unfold parse_command. rewrite bool_decide_eq_false_2, bool_decide_eq_true_2, Hf by done.
  unfold event_of. simpl. do 2 f_equal.
  assert (parse_severity (Severity_as_str (severity e)) = severity e) as -> by by destruct (severity e).
  assert (parse_source (source_argument (source e)) = source e) as ->.
  { destruct (source e) as [|name|]; [done| |done]. destruct Hs as [_ Hn]. unfold parse_source. simpl.
    rewrite !bool_decide_eq_false_2 by set_solver. done. }
  by destruct (scope e).
Qed.
End Cli.
