(* ===== verification/Daemon.v ===== *)
(** * The daemon ([tuning_agent/src/runtime/daemon.rs])

    First the identifiers of episodes ([next_episode_id]): a process-wide atomic hands
    out the time of the system clock, or one more than the last identifier; the loop
    around [compare_exchange_weak] is a step relation over any number of threads, with
    stale loads and spurious failures, and without a competitor it is the function
    [next_episode_id].  Then the loop of the daemon and the handling of a request. *)

From stdpp Require Import relations.
From S2P Require Export Domain Activation.

Open Scope Z_scope.

(** [clock.max(observed.saturating_add(1))] on [u64]. *)
Definition next_id (clock observed : Z) : Z := Z.max clock (u64_saturating_add observed 1).

(** The call of a single thread: the identifier, which is also the new [LAST_ID].
    The clock is a time in nanoseconds since 1970, capped at [u64::MAX]. *)
Definition next_episode_id (clock last : Z) : Z := next_id (Z.min clock u64_max) last.

(** ** Threads *)

Inductive IdThread :=
  | Id_Calling
  | Id_Observed (clock observed : Z)
  | Id_Returned (id : Z).

(** [LAST_ID] is the newest identifier handed out, or zero. *)
Record IdState := MkIdState { handed_out : list Z; threads : list IdThread }.

Definition last_id (s : IdState) : Z := match handed_out s with [] => 0 | id :: _ => id end.
Definition set_thread (i : nat) (t : IdThread) (s : IdState) : IdState :=
  MkIdState (handed_out s) (<[i := t]> (threads s)).

(** A relaxed load, also that of a failing exchange, may return any value the atomic
    has held; an exchange succeeds only on the newest, and may fail even then. *)
Definition may_load (s : IdState) (v : Z) : Prop := v = 0 ∨ v ∈ handed_out s.

Inductive id_step : IdState → IdState → Prop :=
  | step_load i clock v s :
    threads s !! i = Some Id_Calling → 0 <= clock <= u64_max → may_load s v →
    id_step s (set_thread i (Id_Observed clock v) s)
  | step_exchange i clock v s :
    threads s !! i = Some (Id_Observed clock v) → v = last_id s →
    id_step s (MkIdState (next_id clock v :: handed_out s) (<[i := Id_Returned (next_id clock v)]> (threads s)))
  | step_retry i clock v v' s :
    threads s !! i = Some (Id_Observed clock v) → may_load s v' →
    id_step s (set_thread i (Id_Observed clock v') s).

Definition ids_start (n : nat) : IdState := MkIdState [] (replicate n Id_Calling).

(** ** What was handed out, newest first *)

(** Each identifier is above all before it, unless the identifiers are used up. *)
Fixpoint increasing (ids : list Z) : Prop :=
  match ids with
  | [] => True
  | id :: older => (Forall (λ o, o < id ∨ id = u64_max) older) ∧ 1 <= id <= u64_max ∧ increasing older
  end.

Record ids_ok (s : IdState) : Prop := {
  io_increasing : increasing (handed_out s);
  io_threads : Forall (λ t, match t with
    | Id_Calling => True
    | Id_Observed clock v => 0 <= clock <= u64_max ∧ may_load s v
    | Id_Returned id => id ∈ handed_out s
    end) (threads s);
}.

Lemma increasing_range ids id : increasing ids → id ∈ ids → 1 <= id <= u64_max.
Proof.
  induction ids as [|i ids IH]; [by intros _ ?%not_elem_of_nil|]. simpl. intros (_ & Hi & Hids).
  intros [->|Hin]%elem_of_cons; [done|by apply IH].
Qed.

Lemma increasing_below ids id last older :
  ids = last :: older → increasing ids → id ∈ ids → id <= last.
Proof.
  intros -> Hids Hin. pose proof (increasing_range _ _ Hids Hin). simpl in Hids.
  destruct Hids as (Hf & Hl & _). apply elem_of_cons in Hin as [->|Hin]; [lia|].
  rewrite Forall_forall in Hf. destruct (Hf _ Hin); lia.
Qed.

Lemma last_id_range s : ids_ok s → 0 <= last_id s <= u64_max.
Proof.
  intros [Hi _]. unfold last_id. destruct (handed_out s) as [|id ids] eqn:He; [done|].
  destruct Hi as (_ & ? & _). lia.
Qed.

Lemma ids_ok_exchange clock s :
  ids_ok s → 0 <= clock <= u64_max → increasing (next_id clock (last_id s) :: handed_out s).
Proof.
  intros Hs Hc. pose proof (last_id_range _ Hs) as Hl. destruct Hs as [Hi _]. simpl. unfold next_id, u64_saturating_add.
  assert (1 <= u64_max) by done. split_and!; [|lia|lia|done]. apply Forall_forall. intros o Ho.
  assert (o <= last_id s).
  { unfold last_id. destruct (handed_out s) as [|last older] ; [by apply not_elem_of_nil in Ho|].
    by apply (increasing_below (last :: older) o last older). }
  lia.
Qed.

Lemma ids_ok_step s s' : id_step s s' → ids_ok s → ids_ok s'.
Proof.
  intros Hstep Hs. pose proof Hs as [Hi Ht]. rewrite Forall_lookup in Ht.
  destruct Hstep as [i clock v s Hth Hc Hv|i clock v s Hth ->|i clock v v' s Hth Hv].
  - split; [done|]. apply Forall_insert; [by apply Forall_lookup|done].
  - destruct (Ht _ _ Hth) as [Hc _]. split; [by apply ids_ok_exchange|]. simpl.
    apply Forall_insert; [|by apply elem_of_cons; left]. apply Forall_lookup. intros j t Hj.
    specialize (Ht j t Hj). destruct t as [|c o|id]; [done| |by apply elem_of_cons; right].
    destruct Ht as [? [?|?]]; (split; [done|]); [by left|right; by apply elem_of_cons; right].
  - destruct (Ht _ _ Hth) as [Hc _]. split; [done|]. apply Forall_insert; [by apply Forall_lookup|done].
Qed.

Lemma ids_ok_reachable n s : rtc id_step (ids_start n) s → ids_ok s.
Proof.
  assert (ids_ok (ids_start n)) as Hstart by (split; [done|apply Forall_replicate, I]).
  revert Hstart. generalize (ids_start n). intros s0 H0 Hs.
  induction Hs as [|s0 s1 s2 Hstep _ IH]; [done|]. by eapply IH, ids_ok_step.
Qed.

(** C32. However many threads ask for episode identifiers and however their loads and
    exchanges interleave, stale or failing for no reason, every identifier is
    larger than all that were handed out before it, until the 64 bits are used up;
    and a thread that asks always can get one within three steps of its own, which
    is at least the time its clock gave. *)
Theorem episode_ids_increase n s i t :
  rtc id_step (ids_start n) s → threads s !! i = Some t →
  increasing (handed_out s)
  ∧ match t with
    | Id_Returned id => id ∈ handed_out s
    | _ => ∃ k s' id, (k ≤ 3)%nat ∧ nsteps id_step k s s' ∧ handed_out s' = id :: handed_out s
        ∧ threads s' !! i = Some (Id_Returned id) ∧ (∀ j, j ≠ i → threads s' !! j = threads s !! j)
        ∧ match t with Id_Observed clock _ => clock <= id | _ => True end
    end.
Proof.
  intros Hs%ids_ok_reachable Ht. split; [apply Hs|].
  pose proof (last_id_range _ Hs) as Hl. pose proof (io_threads _ Hs) as Hth. rewrite Forall_lookup in Hth.
  specialize (Hth _ _ Ht). pose proof (lookup_lt_Some _ _ _ Ht) as Hlt.
  assert (may_load s (last_id s)) as Hload.
  { unfold may_load, last_id. destruct (handed_out s); [by left|right; by apply elem_of_cons; left]. }
  set (handed clock := MkIdState (next_id clock (last_id s) :: handed_out s)
    (<[i := Id_Returned (next_id clock (last_id s))]> (threads s))).
  assert (∀ clock s1, handed_out s1 = handed_out s → threads s1 = <[i := Id_Observed clock (last_id s)]> (threads s) →
    id_step s1 (handed clock)) as Hex.
  { intros clock s1 H1 H2. unfold handed. rewrite <- H1.
    replace (<[i := Id_Returned _]> (threads s)) with (<[i := Id_Returned (next_id clock (last_id s))]> (threads s1))
      by (rewrite H2; apply list_insert_insert_eq).
    apply (step_exchange i); [rewrite H2; by apply list_lookup_insert_eq|]. unfold last_id. by rewrite H1. }
  assert (∀ clock, threads (handed clock) !! i
      = Some (Id_Returned (next_id clock (last_id s)))) as Hret by (intros; by apply list_lookup_insert_eq).
  destruct t as [|clock v|id]; [| |done].
  - exists 2%nat, (handed 0), (next_id 0 (last_id s)). split; [lia|]. split; [|split; [done|split; [apply Hret|]]].
    + eapply nsteps_l; [by apply (step_load i 0 (last_id s))|].
      eapply nsteps_once. by apply Hex.
    + split; [|done]. intros j Hj. by apply list_lookup_insert_ne.
  - exists 2%nat, (handed clock), (next_id clock (last_id s)). split; [lia|]. split; [|split; [done|split; [apply Hret|]]].
    + eapply nsteps_l; [by apply (step_retry i clock v (last_id s))|]. eapply nsteps_once. by apply Hex.
    + split; [|unfold next_id, u64_saturating_add; lia]. intros j Hj. by apply list_lookup_insert_ne.
Qed.

(** A thread alone gets what [next_episode_id] computes. *)
Lemma next_episode_id_steps clock s :
  0 <= clock → threads s = [Id_Calling] →
  rtc id_step s (MkIdState (next_episode_id clock (last_id s) :: handed_out s)
                   [Id_Returned (next_episode_id clock (last_id s))]).
Proof.
  intros Hc Ht. unfold next_episode_id.
  eapply rtc_l; [apply (step_load 0 (Z.min clock u64_max) (last_id s)); [by rewrite Ht|unfold u64_max; lia|]|].
  { unfold may_load, last_id. destruct (handed_out s); [by left|right; by apply elem_of_cons; left]. }
  eapply rtc_l; [|apply rtc_refl].
  pose proof (step_exchange 0 (Z.min clock u64_max) (last_id s)
    (set_thread 0 (Id_Observed (Z.min clock u64_max) (last_id s)) s)) as Hstep.
  unfold set_thread in *. simpl in *. rewrite Ht in *. simpl in *. by apply Hstep.
Qed.

Lemma next_episode_id_range clock last :
  0 <= clock → 0 <= last <= u64_max →
  1 <= next_episode_id clock last <= u64_max
  ∧ (last < next_episode_id clock last ∨ next_episode_id clock last = u64_max).
Proof. unfold next_episode_id, next_id, u64_saturating_add. assert (1 <= u64_max) by done. lia. Qed.

(** Two threads that load the same value: one exchange fails and is retried. *)
Lemma episode_ids_increase_witness :
  ∃ s, rtc id_step (ids_start 2) s ∧ increasing (handed_out s) ∧ handed_out s = [6; 5].
Proof.
  set (race := MkIdState [6; 5] [Id_Returned 5; Id_Returned 6]).
  assert (rtc id_step (ids_start 2) race) as Hrun.
  { eapply rtc_l; [apply (step_load 0 5 0); [reflexivity|vm_compute; split; discriminate|by left]|].
    eapply rtc_l; [apply (step_load 1 4 0); [reflexivity|vm_compute; split; discriminate|by left]|].
    eapply rtc_l; [apply (step_exchange 0 5 0); reflexivity|].
    eapply rtc_l; [apply (step_retry 1 4 0 5); [reflexivity|right; apply elem_of_cons; by left]|].
    eapply rtc_l; [apply (step_exchange 1 4 5); reflexivity|]. apply rtc_refl. }
  exists race. split; [exact Hrun|].
  split; [exact (proj1 (episode_ids_increase 2 race 0 (Id_Returned 5) Hrun eq_refl))|reflexivity].
Defined.

(** * The daemon ([tuning_agent/src/runtime/daemon.rs])

    The loop that takes activations from the Unix socket and the timer, asks the
    activation kernel, runs an episode for each accepted one, and freezes or cools
    down afterwards.  The world holds the audit log, the transaction store, the
    reasoner, the clocks and the sockets; the state also keeps, as a history, what
    became of each request. *)

Open Scope Z_scope.

Section Daemon.
Context `{JD : JsonData, !Serialize Value, !Serialize (list Value), !Serialize (list ChangeId), !Sha256}.
Context `{!Serialize MetricBatch, !Serialize CleanupReceipt, !Serialize ComparisonEvidence,
  !Serialize ContractPayload, !Serialize IntentDigestPayload, !Serialize EvaluationDecision,
  !Serialize AbEvaluationEvidence, !Serialize AuthorizationPayload, !Serialize ActivationResponse,
  !ToValue ProbeEvidence, !ToValue AbEvaluationEvidence, !ToValue EpisodeOutcome, !ToValue ActivationEvent}.
Context {W T : Type} `{!TransactionWal T, !TransactionStore W T, !Clock W, !AgentReasoner W, !AuditSink W,
  !UnixSockets W}.
Context (decode_intent_spec : Value → result string EvaluationIntentSpec).
Context (value_from_slice : string → result string Value)
  (decode_request : Value → result string ActivationRequest)
  (decode_event : Value → result string ActivationEvent).
(** [OpenAiReasoner::new]: a reasoner that replaces the one in the world. *)
Context (OpenAiReasoner_new : LlmConfig → W → result string unit * W).

(** The history: a request refused in a state, or accepted at an instant; an episode
    with its result and the session it left; the kernel frozen or set to cool down. *)
Inductive DaemonEvent :=
  | Daemon_Refused (event : ActivationEvent) (now : Z) (state : ActivationState)
  | Daemon_Accepted (event : ActivationEvent) (now : Z)
  | Daemon_Episode (id : EpisodeId) (result : outcome string EpisodeOutcome)
      (session : EpisodeSession (W := W) (T := T))
  | Daemon_Frozen
  | Daemon_Cooling (now : Z).

(** [Runtime], with [LAST_ID], the world and the history. *)
Record Runtime := MkRuntime {
  rt_config : Config;
  rt_activation : ActivationKernel;
  rt_capabilities : CapabilitySnapshot W;
  rt_skills : SkillSnapshot;
  rt_last_id : Z;
  rt_world : W;
  rt_history : list DaemonEvent;
}.

Definition set_rt_activation k (s : Runtime) : Runtime :=
  MkRuntime (rt_config s) k (rt_capabilities s) (rt_skills s) (rt_last_id s) (rt_world s) (rt_history s).
Definition set_rt_last_id id (s : Runtime) : Runtime :=
  MkRuntime (rt_config s) (rt_activation s) (rt_capabilities s) (rt_skills s) id (rt_world s) (rt_history s).
Definition set_rt_world w (s : Runtime) : Runtime :=
  MkRuntime (rt_config s) (rt_activation s) (rt_capabilities s) (rt_skills s) (rt_last_id s) w (rt_history s).
Definition push_event e (s : Runtime) : Runtime :=
  MkRuntime (rt_config s) (rt_activation s) (rt_capabilities s) (rt_skills s) (rt_last_id s) (rt_world s)
    (e :: rt_history s).

Abbreviation DM := (M Runtime string).

Definition in_rt_world {A} (call : W → A * W) : DM A := λ s,
  let '(a, w) := call (rt_world s) in (Ret a, set_rt_world w s).

(** [self.audit.record(..)?]. *)
Definition audit_runtime (event : string) (data : Value) : DM unit :=
  r ← in_rt_world (λ w, let '(record, w) := AuditRecord_runtime event data w in audit_record record w);
  lift r.
Definition audit_episode (event : string) (id : EpisodeId) (phase : EpisodePhase) (data : Value) : DM unit :=
  r ← in_rt_world (λ w, let '(record, w) := AuditRecord_episode event id phase data w in audit_record record w);
  lift r.

(** An expression in [json!]: the macro unwraps its conversion. *)
Definition event_value (event : ActivationEvent) : DM Value :=
  match to_value event with Ok v => mret v | Err _ => panic end.

(** [self.activation.accept(&event)]. *)
Definition accept (event : ActivationEvent) : DM bool :=
  now ← in_rt_world instant_now;
  s ← gets (λ s, s);
  let '(ok, k) := accept_at event now (rt_activation s) in
  _ ← modify (set_rt_activation k);
  _ ← modify (push_event (if ok : bool then Daemon_Accepted event now
                          else Daemon_Refused event now (activation_state k)));
  mret ok.

Definition take_episode_id : DM EpisodeId :=
  clock ← in_rt_world now_ns;
  s ← gets (λ s, s);
  let id := next_episode_id clock (rt_last_id s) in
  _ ← modify (set_rt_last_id id);
  mret id.

Definition refuse_request (request : ActivationRequest) : DM ActivationResponse :=
  s ← gets (λ s, s);
  let state := activation_state (rt_activation s) in
  event ← event_value (request_event request);
  _ ← audit_runtime "activation_rejected"
        (json_object [("event", event); ("activation_state", json_string (ActivationState_debug state));
                      ("request_id", json_string (request_id request))]);
  mret (ActivationResponse_rejected (request_id request)
          ("activation rejected while kernel was " +:+ ActivationState_debug state)).

(** An episode that has no outcome: the kernel sleeps, whatever was left behind. *)
Definition episode_failed (request : ActivationRequest) (id : EpisodeId) (error : string)
    (details : list (string * Value)) : DM ActivationResponse :=
  _ ← modify (λ s, set_rt_activation (sleep (rt_activation s)) s);
  _ ← audit_episode "episode_rejected" id Clean
        (json_object ([("error", json_string error); ("request_id", json_string (request_id request))] ++ details));
  mret (ActivationResponse_error (request_id request) error).

(** [EpisodeCoordinator::new(..).and_then(|c| c.run(..))]. *)
Definition run_episode (id : EpisodeId) (activation : Value) (requested : list string)
    : DM (result string EpisodeOutcome) := λ s,
  let config := rt_config s in
  match EpisodeCoordinator_new (reasoning_max_rounds (reasoning config))
          (from_millis (evaluation_timeout_ms (safety config))) (rt_capabilities s) (rt_skills s)
          (skills_config config) with
  | Err error => (Ret (Err error), s)
  | Ok coordinator =>
    let '(r, (session, _)) := run decode_intent_spec coordinator id activation requested (rt_world s) in
    let s := push_event (Daemon_Episode id r session) (set_rt_world (ses_world session) s) in
    match r with
    | Ret outcome => (Ret (Ok outcome), s)
    | Throw error => (Ret (Err error), s)
    | Panic => (Panic, s)
    end
  end.

(** After an episode with an outcome: freeze, or cool down. *)
Definition settle_activation (outcome : EpisodeOutcome) : DM unit :=
  match outcome_phase outcome with
  | RecoveryRequired =>
    _ ← modify (λ s, set_rt_activation (freeze_activation (rt_activation s)) s);
    modify (push_event Daemon_Frozen)
  | _ =>
    now ← in_rt_world instant_now;
    _ ← modify (λ s, set_rt_activation
          (cooldown_at (from_millis (cooldown_ms (safety (rt_config s)))) now (rt_activation s)) s);
    modify (push_event (Daemon_Cooling now))
  end.

Definition process_activation_request (request : ActivationRequest) : DM ActivationResponse :=
  let event := request_event request in
  ok ← accept event;
  if negb ok then refuse_request request
  else
    id ← take_episode_id;
    activation ← lift (to_value event);
    s ← gets (λ s, s);
    reasoner ← in_rt_world (OpenAiReasoner_new (llm (rt_config s)));
    match reasoner with
    | Err error => episode_failed request id error []
    | Ok _ =>
      r ← run_episode id activation (requested_skills request);
      match r with
      | Err error =>
        episode_failed request id error
          [("requested_skills", json_array (json_string <$> requested_skills request))]
      | Ok outcome =>
        _ ← settle_activation outcome;
        mret (ActivationResponse_from_episode (request_id request) outcome)
      end
    end.

(** An error of the socket in the daemon's loop. *)
Definition in_io {A} (call : W → result IoError A * W) : DM A :=
  r ← in_rt_world call; lift (map_err io_message r).

Definition process_unix_activation (activation : UnixActivation) : DM unit :=
  response ← process_activation_request (unix_request activation);
  if wants_response activation then in_io (respond activation response) else mret tt.

Definition poll_unix : DM (list UnixActivation) := λ s,
  match UnixIpcSource_poll value_from_slice decode_request decode_event (rt_world s) with
  | Some (r, w) => (of_result (map_err io_message r), set_rt_world w s)
  | None => (Panic, s)
  end.

Definition poll_timer (timer : TimerSource) : DM (list ActivationEvent * TimerSource) := λ s,
  let '(r, w) := TimerSource_poll timer (rt_world s) in (r, set_rt_world w s).

(** One turn of [run_daemon], with the timer. *)
Definition daemon_turn (timer : TimerSource) : DM TimerSource :=
  activations ← poll_unix;
  _ ← for_each process_unix_activation activations;
  polled ← poll_timer timer;
  let '(events, timer) := polled in
  _ ← for_each (λ event, _ ← process_activation_request (fire_and_forget event); mret tt) events;
  _ ← in_rt_world (λ w, (tt, thread_sleep (50 * 10 ^ 6) w));
  mret timer.

(** [n] turns of the loop, which ends only by an error. *)
Fixpoint daemon_turns (n : nat) (timer : TimerSource) : DM TimerSource :=
  match n with
  | O => mret timer
  | S n => timer ← daemon_turn timer; daemon_turns n timer
  end.

(** [run_daemon], once the socket is bound. *)
Definition run_daemon (n : nat) : DM TimerSource :=
  s ← gets (λ s, s);
  now ← in_rt_world instant_now;
  daemon_turns n (TimerSource_new (timer_interval_ms (activation_config (rt_config s))) now).
End Daemon.
