(* ===== verification/DaemonSafety.v ===== *)
(** * What the daemon guarantees

    The history of the daemon is in order whatever requests arrive: no episode is
    accepted after one that needs recovery was reported, the cooldown is kept,
    repeated events are held back, identifiers grow, and every episode ends as
    [RunSafety.v] promises.  Two theorems show where this stops: an episode whose
    last audit record fails, and a client that hangs up. *)

From S2P Require Export RunSafety Daemon Config.

Open Scope Z_scope.

(** ** Reading a client ends *)

Section Reading.
Context `{JD : JsonData, !Serialize ActivationResponse, !UnixSockets W}.
Context (value_from_slice : string → result string Value)
  (decode_request : Value → result string ActivationRequest)
  (decode_event : Value → result string ActivationEvent).

Lemma read_loop_ends fuel s payload w :
  Z.of_nat (String.length payload) <= MAX_ACTIVATION_BYTES →
  MAX_ACTIVATION_BYTES + 1 < Z.of_nat (String.length payload) + Z.of_nat fuel →
  ∃ r w', read_loop fuel s payload w = Some (r, w')
    ∧ match r with Ok p => Z.of_nat (String.length p) <= MAX_ACTIVATION_BYTES | Err _ => True end.
Proof.
  revert payload w. induction fuel as [|fuel IH]; intros payload w Hp Hf; [lia|]. cbn [read_loop].
  destruct (read_chunk s w) as [ [chunk|e] w']; [|destruct (is_timeout e); [case_bool_decide|]; by eexists _, _].
  case_bool_decide as Hc; [by eexists _, _|]. destruct (Z.ltb_spec MAX_ACTIVATION_BYTES
    (Z.of_nat (String.length (payload +:+ chunk)))); [by eexists _, _|].
  apply IH; [done|]. rewrite string_length_app. destruct chunk; [done|]. simpl. lia.
Qed.

Lemma read_activation_ends s w :
  ∃ r w', read_activation value_from_slice decode_request decode_event s w = Some (r, w').
Proof.
  unfold read_activation, read_fuel.
  destruct (read_loop_ends (Z.to_nat (MAX_ACTIVATION_BYTES + 2)) s "" w) as (r & w' & -> & _); [done|simpl; lia|].
  destruct r; by eexists _, _.
Qed.

(** What a poll gives was decoded from some client. *)
Definition decoded (r : ActivationRequest) : Prop :=
  (∃ v, decode_request v = Ok r) ∨ (∃ v e, decode_event v = Ok e ∧ r = fire_and_forget e).

Lemma parse_activation_decoded payload r :
  parse_activation value_from_slice decode_request decode_event payload = Ok r → decoded r.
Proof.
  unfold parse_activation. intros H. apply reject_bind_Ok in H as [_ H].
  destruct (value_from_slice payload) as [v|]; [|done]. simpl in H. destruct (value_get "event" v).
  - left. exists v. by destruct (decode_request v); [injection H as ->|].
  - right. exists v. destruct (decode_event v) as [e|]; [|done]. injection H as <-. by exists e.
Qed.

Lemma read_connection_ends s w :
  ∃ l w', read_connection value_from_slice decode_request decode_event s w = Some (l, w')
    ∧ Forall (λ a, decoded (unix_request a)) l.
Proof.
  unfold read_connection. destruct (set_read_timeout s w) as [ [] w1]; [|by eexists _, _].
  destruct (read_activation_ends s w1) as (r & w2 & Hr). rewrite Hr.
  destruct r as [request|e]; eexists _, _; (split; [done|]); [|constructor]. apply Forall_singleton. simpl.
  unfold read_activation in Hr. destruct (read_loop _ _ _ _) as [ [ [payload|] ?]|]; [|done..].
  injection Hr as Hr _. exact (parse_activation_decoded _ _ Hr).
Qed.

Lemma poll_connections_ends n activations w :
  Forall (λ a, decoded (unix_request a)) activations →
  ∃ r w', poll_connections value_from_slice decode_request decode_event n activations w = Some (r, w')
    ∧ match r with Ok l => Forall (λ a, decoded (unix_request a)) l | Err _ => True end.
Proof.
  revert activations w. induction n as [|n IH]; intros activations w Ha; simpl; [by eexists _, _|].
  destruct (socket_accept w) as [ [s|e] w1]; [|case_bool_decide; by eexists _, _].
  destruct (read_connection_ends s w1) as (l & w2 & -> & Hl). apply IH, Forall_app_2; done.
Qed.
End Reading.

(** ** The history *)

Section Daemon.
Context `{JD : JsonData, !Serialize Value, !Serialize (list Value), !Serialize (list ChangeId), !Sha256}.
Context `{!Serialize MetricBatch, !Serialize CleanupReceipt, !Serialize ComparisonEvidence,
  !Serialize ContractPayload, !Serialize IntentDigestPayload, !Serialize EvaluationDecision,
  !Serialize AbEvaluationEvidence, !Serialize AuthorizationPayload, !Serialize ActivationResponse,
  !ToValue ProbeEvidence, !ToValue AbEvaluationEvidence, !ToValue EpisodeOutcome, !ToValue ActivationEvent}.
Context {W T : Type} `{!TransactionWal T, !WalLaws T, !TransactionStore W T, !Clock W, !AgentReasoner W,
  !AuditSink W, !UnixSockets W}.
Context `{!TransactionStoreLaws W T, !Sha256Laws}.
Context (decode_intent_spec : Value → result string EvaluationIntentSpec).
Context (value_from_slice : string → result string Value)
  (decode_request : Value → result string ActivationRequest)
  (decode_event : Value → result string ActivationEvent).
Context (OpenAiReasoner_new : LlmConfig → W → result string unit * W).
Context (config : Config) (capabilities : CapabilitySnapshot W) (skills : SkillSnapshot).

Abbreviation event := (DaemonEvent (W := W) (T := T)).
Abbreviation session := (EpisodeSession (W := W) (T := T)).
Implicit Types (l : list event) (s : Runtime (W := W) (T := T)).

(** No freeze, and no episode that reported that it needs recovery. *)
Definition leaves_running (e : event) : Prop :=
  match e with
  | Daemon_Frozen => False
  | Daemon_Episode _ (Ret o) _ => outcome_phase o ≠ RecoveryRequired
  | _ => True
  end.

(** At instant [t], or when a request was refused since, the last cooldown is over. *)
Fixpoint cooled (t : Z) l : Prop :=
  match l with
  | Daemon_Cooling now :: _ => now + from_millis (cooldown_ms (safety config)) <= t
  | Daemon_Refused _ now _ :: older => cooled t older ∨ cooled now older
  | _ => True
  end.

Fixpoint last_accepted l : option (ActivationEvent * Z) :=
  match l with
  | [] => None
  | Daemon_Accepted e now :: _ => Some (e, now)
  | _ :: older => last_accepted older
  end.

(** An event that repeats the last accepted one is critical, or late enough. *)
Definition debounced (e : ActivationEvent) (now : Z) (last : option (ActivationEvent * Z)) : Prop :=
  match last with
  | Some (e', now') => event_type e' = event_type e → severity e = Critical ∨ now' + 5 * 10 ^ 9 <= now
  | None => True
  end.

Definition id_before (id : EpisodeId) (e : event) : Prop :=
  match e with Daemon_Episode id' _ _ => id' < id ∨ id = u64_max | _ => True end.

(** How an episode may have ended; an error may also come before it began. *)
Definition coordinator : EpisodeCoordinator (W := W) :=
  MkCoordinator (reasoning_max_rounds (reasoning config))
    (from_millis (evaluation_timeout_ms (safety config))) capabilities skills (skills_config config).

Definition episode_ended (id : EpisodeId) (r : outcome string EpisodeOutcome) (x : session) : Prop :=
  match r with
  | Ret o => episode_over coordinator x ∧ o = episode_outcome id x
  | Throw _ => episode_over coordinator x ∨ ∃ w, x = EpisodeSession_new id w
  | Panic => False
  end.

Definition event_ok (e : event) l : Prop :=
  match e with
  | Daemon_Refused _ _ _ => True
  | Daemon_Accepted e now => Forall leaves_running l ∧ cooled now l ∧ debounced e now (last_accepted l)
  | Daemon_Episode id r x =>
    (∃ e now, head l = Some (Daemon_Accepted e now)) ∧ Forall (id_before id) l ∧ episode_ended id r x
  | Daemon_Frozen => ∃ id o x, head l = Some (Daemon_Episode id (Ret o) x) ∧ outcome_phase o = RecoveryRequired
  | Daemon_Cooling _ => ∃ id o x, head l = Some (Daemon_Episode id (Ret o) x) ∧ outcome_phase o ≠ RecoveryRequired
  end.

Fixpoint daemon_history_ok l : Prop :=
  match l with [] => True | e :: older => event_ok e older ∧ daemon_history_ok older end.

(** ** The invariant *)

(** The kernel remembers the last accepted event. *)
Record kernel_knows (k : ActivationKernel) l : Prop := {
  kn_type : last_event_type k = event_type ∘ fst <$> last_accepted l;
  kn_wake : last_wake k = snd <$> last_accepted l;
  kn_window : dedupe_window k = 5 * 10 ^ 9;
}.

Record kernel_ok (k : ActivationKernel) l : Prop := {
  ko_running : activation_state k ≠ Frozen → Forall leaves_running l;
  ko_frozen : activation_state k = Frozen → Daemon_Frozen ∈ l;
  ko_cooled : match activation_state k with
    | Frozen => True
    | Cooldown => ∀ t until, cooldown_until k = Some until → until <= t → cooled t l
    | _ => ∀ t, cooled t l
    end;
  ko_knows : kernel_knows k l;
}.

Record runtime_ok s : Prop := {
  rk_config : rt_config s = config;
  rk_capabilities : rt_capabilities s = capabilities;
  rk_skills : rt_skills s = skills;
  rk_last : 0 <= rt_last_id s <= u64_max;
  rk_ids : Forall (λ e, match e with Daemon_Episode id _ _ => id <= rt_last_id s | _ => True end) (rt_history s);
  rk_history : daemon_history_ok (rt_history s);
  rk_kernel : kernel_ok (rt_activation s) (rt_history s);
}.

Lemma kernel_ok_default : kernel_ok ActivationKernel_default [].
Proof. split; [intros _; constructor|done|done|done]. Qed.

Lemma kernel_ok_refused k l e now st :
  kernel_ok k l → kernel_ok k (Daemon_Refused e now st :: l).
Proof.
  intros [Hr Hf Hc [Ht Hw Hd]]. split; [intros Hne; constructor; [done|by apply Hr]|right; by apply Hf| |by split].
  destruct (activation_state k); simpl; eauto.
Qed.

Lemma kernel_ok_woken k l e now st :
  kernel_knows k l → Forall leaves_running l → cooled now l →
  kernel_ok (wake_up k) (Daemon_Refused e now st :: l).
Proof.
  intros [Ht Hw Hd] Hr Hc. split; [by constructor|done|simpl; by right|by split].
Qed.

Lemma severity_critical (x : Severity) : (severity_rank x <? severity_rank Critical) = false → x = Critical.
Proof. by destruct x. Qed.

Lemma accept_awake_ok k l e now :
  kernel_knows k l → Forall leaves_running l → cooled now l →
  match accept_awake k e now with
  | (true, k') => event_ok (Daemon_Accepted e now) l ∧ kernel_ok k' (Daemon_Accepted e now :: l)
  | (false, k') => k' = k
  end.
Proof.
  intros [Ht Hw Hd] Hrun Hnow. unfold accept_awake. destruct (_ && _) eqn:Hdup; [done|]. split.
  - split; [done|]. split; [done|]. unfold debounced. destruct (last_accepted l) as [ [e' now']|]; [|done].
    simpl in Ht, Hw. intros Htype. unfold is_duplicate in Hdup. rewrite Ht, Hw, Hd in Hdup.
    rewrite bool_decide_eq_true_2 in Hdup by done. simpl in Hdup. apply andb_false_iff in Hdup as [Hdup|Hdup].
    + right. unfold saturating_duration_since in Hdup. lia.
    + left. by apply severity_critical.
  - split; [by constructor|done|done|by split].
Qed.

Lemma accept_at_ok k l e now :
  kernel_ok k l →
  match accept_at e now k with
  | (true, k') => event_ok (Daemon_Accepted e now) l ∧ kernel_ok k' (Daemon_Accepted e now :: l)
  | (false, k') => kernel_ok k' (Daemon_Refused e now (activation_state k') :: l)
  end.
Proof.
  intros Hk. unfold accept_at. case_bool_decide as Hf; [by apply kernel_ok_refused|].
  pose proof (ko_running _ _ Hk Hf) as Hr. pose proof (ko_cooled _ _ Hk) as Hc. pose proof (ko_knows _ _ Hk) as Hn.
  case_bool_decide as Hcd.
  - destruct (cooldown_until k) as [until|] eqn:Hu; [|by apply kernel_ok_refused].
    destruct (Z.ltb_spec now until); [by apply kernel_ok_refused|].
    rewrite Hcd in Hc. specialize (Hc now until eq_refl ltac:(lia)).
    pose proof (accept_awake_ok (wake_up k) l e now) as Ha.
    destruct (accept_awake (wake_up k) e now) as [ [] k']; [by apply Ha; [destruct Hn|..]|].
    rewrite Ha; [by apply kernel_ok_woken|by destruct Hn|done..].
  - assert (cooled now l) as Hnow by (destruct (activation_state k); done || apply Hc).
    pose proof (accept_awake_ok k l e now Hn Hr Hnow) as Ha. destruct (accept_awake k e now) as [ [] k']; [done|].
    subst k'. by apply kernel_ok_refused.
Qed.

(** ** One request *)

Hypothesis config_ok : config_valid config.
Hypothesis config_unsigned : 0 <= reasoning_max_rounds (reasoning config) ∧ 0 <= evaluation_timeout_ms (safety config).
Hypothesis snapshot_spec : SnapshotSpec capabilities.
Hypothesis snapshot_ids : ∀ id meta, snap_metadata capabilities !! id = Some meta → meta_id meta = id.
Hypothesis evidence_encodes : ∀ e : AbEvaluationEvidence, ∃ v, to_value e = Ok v.
(** An event is encoded when its time fits 64 bits, and the system clock gives such times. *)
Hypothesis events_encode : ∀ e : ActivationEvent, event_timestamp_ns e <= u64_max → ∃ v, to_value e = Ok v.
Hypothesis system_clock : ∀ w : W, 0 <= (now_ns w).1 <= u64_max.

Lemma wp_in_rt_world {A} (call : W → A * W) (Q : A → Runtime → Prop) (R : string → Runtime → Prop) s :
  (∀ a w, call (rt_world s) = (a, w) → Q a (set_rt_world w s)) → wp (in_rt_world call) Q R s.
Proof. intros HQ. unfold wp, in_rt_world. destruct (call _) as [a w] eqn:Hc. by apply HQ. Qed.

Lemma runtime_ok_world w s : runtime_ok s → runtime_ok (set_rt_world w s).
Proof. by intros []. Qed.

(** An audit record changes nothing but the world. *)
Lemma wp_audit_runtime name data (Q R : Runtime → Prop) s :
  (∀ w, Q (set_rt_world w s)) → (∀ w, R (set_rt_world w s)) →
  wp (audit_runtime name data) (λ _, Q) (λ _, R) s.
Proof.
  intros HQ HR. unfold audit_runtime. apply wp_bind, wp_in_rt_world. intros r w _. apply wp_lift; auto.
Qed.

Lemma wp_audit_episode name id phase data (Q R : Runtime → Prop) s :
  (∀ w, Q (set_rt_world w s)) → (∀ w, R (set_rt_world w s)) →
  wp (audit_episode name id phase data) (λ _, Q) (λ _, R) s.
Proof.
  intros HQ HR. unfold audit_episode. apply wp_bind, wp_in_rt_world. intros r w _. apply wp_lift; auto.
Qed.

Definition request_fits (r : ActivationRequest) : Prop := event_timestamp_ns (request_event r) <= u64_max.

Lemma wp_refuse_request r s :
  request_fits r → runtime_ok s → wp (refuse_request r) (λ _, runtime_ok) (λ _, runtime_ok) s.
Proof.
  intros Hr Hs. unfold refuse_request, event_value. destruct (events_encode _ Hr) as (v & ->).
  apply wp_bind, wp_gets, wp_bind, wp_ret, wp_bind.
  apply (wp_audit_runtime _ _ (λ s, wp _ _ _ s)); intros w; [apply wp_ret|]; by apply runtime_ok_world.
Qed.

(** After an accepted request: the kernel is not frozen and the newest event settles nothing. *)
Definition running s : Prop :=
  runtime_ok s ∧ activation_state (rt_activation s) = Active ∧ ∃ e now older,
    rt_history s = Daemon_Accepted e now :: older.

Lemma wp_accept e s :
  runtime_ok s → wp (accept e) (λ ok s', if ok then running s' else runtime_ok s') (λ _ _, False) s.
Proof.
  intros Hs. unfold accept. apply wp_bind, wp_in_rt_world. intros now w _. apply wp_bind, wp_gets. simpl.
  pose proof (accept_at_ok _ _ e now (rk_kernel _ Hs)) as Ha. destruct Hs as [Hc Hcap Hsk Hl Hids Hh Hk].
  destruct (accept_at e now (rt_activation s)) as [ok k] eqn:Hat. apply wp_bind, wp_modify, wp_bind, wp_modify, wp_ret.
  destruct ok.
  - destruct Ha as [Hev Hk']. split; [|split; [|by eexists _, _, _]].
    + split; simpl; try done. by constructor.
    + simpl. unfold accept_at, accept_awake in Hat. by repeat case_match; simplify_eq.
  - split; simpl; try done. by constructor.
Qed.

Definition with_fresh_id id s : Prop :=
  running s ∧ rt_last_id s = id ∧ 1 <= id <= u64_max ∧ Forall (id_before id) (rt_history s).

Lemma wp_take_episode_id s :
  running s → wp take_episode_id (λ id, with_fresh_id id) (λ _ _, False) s.
Proof.
  intros [Hs (Ha & e & now & older & Hh)]. unfold take_episode_id. apply wp_bind, wp_in_rt_world. intros clock w Hclock.
  apply wp_bind, wp_gets. simpl. apply wp_bind, wp_modify, wp_ret. destruct Hs as [Hc Hcap Hsk Hl Hids Hhok Hk].
  pose proof (system_clock (rt_world s)) as Hsys. rewrite Hclock in Hsys. simpl in Hsys.
  destruct (next_episode_id_range clock (rt_last_id s)) as [Hrange Hnew]; [lia|done|].
  assert (rt_last_id s <= next_episode_id clock (rt_last_id s)) as Hle by lia.
  split; [|split; [done|split; [done|]]].
  - split; [|split; [done|by exists e, now, older]]. split; simpl; try done; [lia|].
    eapply Forall_impl; [exact Hids|]. intros []; simpl; lia.
  - simpl. eapply Forall_impl; [exact Hids|]. intros [] ?; simpl in *; try done. lia.
Qed.

Lemma with_fresh_id_world id w s : with_fresh_id id s → with_fresh_id id (set_rt_world w s).
Proof. intros ((Hs & Hrest) & Hid). split; [|done]. split; [by apply runtime_ok_world|done]. Qed.

(** The history ends in an accepted event or in an episode that reported nothing. *)
Definition failed s : Prop :=
  runtime_ok (set_rt_activation (sleep (rt_activation s)) s).

Lemma wp_episode_failed r id error details s :
  failed s → wp (episode_failed r id error details) (λ _, runtime_ok) (λ _, runtime_ok) s.
Proof.
  intros Hs. unfold episode_failed. apply wp_bind, wp_modify, wp_bind.
  apply (wp_audit_episode _ _ _ _ (λ s, wp _ _ _ s)); intros w; [apply wp_ret|]; by apply runtime_ok_world.
Qed.

Lemma failed_of_running s : running s → failed s.
Proof.
  intros [Hs (Ha & e & now & older & Hh)]. destruct Hs as [Hc Hcap Hsk Hl Hids Hhok Hk].
  split; try done. simpl. destruct Hk as [Hr _ Hcool [Ht Hw Hd]].
  split; [intros _; apply Hr; by rewrite Ha|done|simpl; intros t; rewrite Hh; done|by split].
Qed.

(** What holds directly after an episode. *)
Record after_episode (id : EpisodeId) (r : outcome string EpisodeOutcome) s : Prop := {
  ae_config : rt_config s = config;
  ae_capabilities : rt_capabilities s = capabilities;
  ae_skills : rt_skills s = skills;
  ae_last : 0 <= rt_last_id s <= u64_max;
  ae_ids : Forall (λ e, match e with Daemon_Episode id _ _ => id <= rt_last_id s | _ => True end) (rt_history s);
  ae_history : daemon_history_ok (rt_history s);
  ae_episode : ∃ x older, rt_history s = Daemon_Episode id r x :: older ∧ Forall leaves_running older
                 ∧ kernel_knows (rt_activation s) (rt_history s);
}.

Lemma wp_run_episode id activation requested s :
  with_fresh_id id s →
  wp (run_episode decode_intent_spec id activation requested)
    (λ r s', match r with Ok o => after_episode id (Ret o) s' | Err e => failed s' end) (λ _ _, False) s.
Proof.
  intros ((Hs & Ha & e & now & older & Hh) & Hid & Hrange & Hbefore).
  unfold run_episode, wp. rewrite (rk_config _ Hs), (rk_capabilities _ Hs), (rk_skills _ Hs).
  destruct config_ok as [ [Hmax _] _ (Hto & _) _ Hskills _ _].
  unfold EpisodeCoordinator_new.
  rewrite (reject_false (from_millis _ =? 0)) by (apply Z.eqb_neq; unfold from_millis; lia).
  rewrite (reject_false (_ =? 0)) by by apply Z.eqb_neq.
  simpl. destruct (run_is_done (T := T) decode_intent_spec coordinator id snapshot_spec snapshot_ids
    ltac:(lia) evidence_encodes activation requested (rt_world s)) as (r & x & log & Hrun & _ & Hr).
  { apply config_unsigned. }
  { simpl. pose proof (sv_rounds _ Hskills) as []. lia. }
  fold coordinator. rewrite Hrun. pose proof Hs as [Hc Hcap Hsk Hl Hids Hhok [Hrun' _ Hcool Hkn] ].
  assert (episode_ended id r x) as Hended.
  { destruct r; [done| |done]. destruct Hr as [?|[? _]]; [by left|by right]. }
  assert (Forall leaves_running (rt_history s)) as Hleft by (apply Hrun'; by rewrite Ha).
  assert (daemon_history_ok (Daemon_Episode id r x :: rt_history s)) as Hnew.
  { split; [|done]. split; [rewrite Hh; by eexists _, _|]. by split. }
  assert (Forall (λ e, match e with Daemon_Episode id _ _ => id <= rt_last_id s | _ => True end)
    (Daemon_Episode id r x :: rt_history s)) as Hids'.
  { constructor; [by rewrite Hid|done]. }
  assert (kernel_knows (rt_activation s) (Daemon_Episode id r x :: rt_history s)) as Hkn' by (by destruct Hkn).
  destruct r as [o|error|]; [| |done].
  - split; try done. simpl. by eexists _, _.
  - split; try done. simpl. split; [intros _; by constructor|done|done|]. by destruct Hkn'.
Qed.

Lemma wp_settle_activation id o s :
  after_episode id (Ret o) s → wp (settle_activation o) (λ _, runtime_ok) (λ _ _, False) s.
Proof.
  intros [Hc Hcap Hsk Hl Hids Hh (x & older & Hx & Hleft & [Ht Hw Hd])]. unfold settle_activation.
  assert (∀ now, outcome_phase o ≠ RecoveryRequired →
    runtime_ok (push_event (Daemon_Cooling now)
      (set_rt_activation (cooldown_at (from_millis (cooldown_ms (safety (rt_config s)))) now (rt_activation s)) s))) as Hcool.
  { intros now Hph. split; simpl; try done; [by constructor| |].
    - split; [|done]. rewrite Hx. by eexists _, _, _.
    - split; simpl; [|done| |by split].
      + intros _. rewrite Hx. do 2 (constructor; [done|]). done.
      + intros t until Hu Hle. rewrite Hc in Hu. unfold instant_checked_add in Hu.
        destruct (_ <? _); [injection Hu as <-|done]. done. }
  destruct (decide (outcome_phase o = RecoveryRequired)) as [Hph|Hph].
  - rewrite Hph. apply wp_bind, wp_modify, wp_modify. split; simpl; try done; [by constructor|..].
    + split; [|done]. rewrite Hx. by eexists _, _, _.
    + split; simpl; [done|by left|done|by split].
  - destruct (outcome_phase o) eqn:Hp; try done;
      (apply wp_bind, wp_in_rt_world; intros now w _; apply wp_bind, wp_modify, wp_modify;
       by apply (runtime_ok_world w _ (Hcool now Hph))).
Qed.

Lemma wp_process_request r s :
  request_fits r → runtime_ok s →
  wp (process_activation_request decode_intent_spec OpenAiReasoner_new r) (λ _, runtime_ok) (λ _, runtime_ok) s.
Proof.
  intros Hr Hs. unfold process_activation_request. apply wp_bind.
  eapply wp_mono; [by apply wp_accept| |done]. intros [] s1 Hs1; simpl; [|by apply wp_refuse_request].
  apply wp_bind. eapply wp_mono; [by apply wp_take_episode_id| |done]. clear s1 Hs1. intros id s1 Hs1.
  destruct (events_encode _ Hr) as (v & Hv).
  apply wp_bind, wp_lift; [intros activation _|intros e He; congruence].
  apply wp_bind, wp_gets, wp_bind, wp_in_rt_world. intros reasoner w _.
  pose proof (with_fresh_id_world _ w _ Hs1) as Hs2. destruct reasoner as [_|error].
  - apply wp_bind. eapply wp_mono; [by apply wp_run_episode| |done].
    intros [o|error] s2 Hs3; [|by apply wp_episode_failed].
    apply wp_bind. eapply wp_mono; [by apply (wp_settle_activation id)| |done]. intros [] s3 Hs4. by apply wp_ret.
  - apply wp_episode_failed, failed_of_running, Hs2.
Qed.

(** ** The loop *)

Hypothesis requests_decode : ∀ v r, decode_request v = Ok r → event_timestamp_ns (request_event r) <= u64_max.
Hypothesis events_decode : ∀ v e, decode_event v = Ok e → event_timestamp_ns e <= u64_max.
(** Instants are far from the end of time, and the interval is a [u64]. *)
Hypothesis instants : ∀ w : W, (instant_now w).1 <= 2 ^ 62 * 10 ^ 9.
Hypothesis interval : ∀ ms, timer_interval_ms (activation_config config) = Some ms → ms <= u64_max.

Definition timer_ok (t : TimerSource) : Prop :=
  ∀ interval, timer_interval t = Some interval → interval <= from_millis u64_max.

Lemma decoded_fits r : decoded decode_request decode_event r → request_fits r.
Proof.
  intros [ (v & Hv)|(v & e & He & ->)]; [by eapply requests_decode|]. by apply (events_decode v).
Qed.

Lemma wp_process_unix a s :
  request_fits (unix_request a) → runtime_ok s →
  wp (process_unix_activation decode_intent_spec OpenAiReasoner_new a) (λ _, runtime_ok) (λ _, runtime_ok) s.
Proof.
  intros Ha Hs. unfold process_unix_activation. apply wp_bind.
  eapply wp_mono; [by apply wp_process_request| |done]. intros response s1 Hs1.
  destruct (wants_response a); [|by apply wp_ret]. unfold in_io. apply wp_bind, wp_in_rt_world. intros r w _.
  apply wp_lift; intros; by apply runtime_ok_world.
Qed.

Lemma wp_poll_unix s :
  runtime_ok s →
  wp (poll_unix value_from_slice decode_request decode_event)
    (λ activations s', Forall (λ a, request_fits (unix_request a)) activations ∧ runtime_ok s') (λ _, runtime_ok) s.
Proof.
  intros Hs. unfold wp, poll_unix, UnixIpcSource_poll.
  destruct (poll_connections_ends value_from_slice decode_request decode_event MAX_CONNECTIONS_PER_POLL [] (rt_world s))
    as (r & w & -> & Hr); [constructor|]. destruct r as [l|e]; simpl; [|by apply runtime_ok_world].
  split; [|by apply runtime_ok_world]. eapply Forall_impl; [exact Hr|]. intros a. apply decoded_fits.
Qed.

Lemma wp_poll_timer t s :
  timer_ok t → runtime_ok s →
  wp (poll_timer t) (λ p s', Forall (λ e, event_timestamp_ns e <= u64_max) p.1 ∧ timer_ok p.2 ∧ runtime_ok s')
    (λ _ _, False) s.
Proof.
  intros Ht Hs. unfold wp, poll_timer, TimerSource_poll. destruct (timer_interval t) as [ms|] eqn:Hms; last first.
  { simpl. split; [constructor|]. split; [done|by apply runtime_ok_world]. }
  pose proof (instants (rt_world s)) as Hi. destruct (instant_now (rt_world s)) as [now w]. simpl in Hi.
  destruct (now <? next_tick t); [simpl; split; [constructor|]; split; [done|by apply runtime_ok_world]|].
  specialize (Ht _ Hms). unfold instant_checked_add.
  assert ((now + ms) / 10 ^ 9 < 2 ^ 63) as Hadd.
  { apply Z.div_lt_upper_bound; [done|]. unfold from_millis, u64_max in Ht. lia. }
  apply Z.ltb_lt in Hadd. rewrite Hadd. pose proof (system_clock w) as Hsys.
  destruct (now_ns w) as [system w']. simpl in *. split; [by constructor; [apply Hsys|constructor]|].
  split; [|by apply runtime_ok_world]. intros i [= <-]. done.
Qed.

Lemma wp_daemon_turn t s :
  timer_ok t → runtime_ok s →
  wp (daemon_turn decode_intent_spec value_from_slice decode_request decode_event OpenAiReasoner_new t)
    (λ t' s', timer_ok t' ∧ runtime_ok s') (λ _, runtime_ok) s.
Proof.
  intros Ht Hs. unfold daemon_turn. apply wp_bind. eapply wp_mono; [by apply wp_poll_unix| |done].
  intros l s1 [Hl Hs1]. apply wp_bind, (wp_for_each (λ _, runtime_ok)); [done| |].
  { intros pre a post s2 -> Hs2. apply Forall_app in Hl as [_ [Ha _]%Forall_cons]. by apply wp_process_unix. }
  clear s1 Hs1. intros s1 Hs1. apply wp_bind. eapply wp_mono; [by apply wp_poll_timer| |done].
  intros [events t'] s2 (He & Ht' & Hs2). apply wp_bind, (wp_for_each (λ _, runtime_ok)); [done| |].
  { intros pre a post s3 -> Hs3. simpl in He. apply Forall_app in He as [_ [Ha _]%Forall_cons]. apply wp_bind.
    eapply wp_mono; [by apply wp_process_request| |done]. intros response s4 Hs4. by apply wp_ret. }
  clear s2 Hs2. intros s2 Hs2. apply wp_bind, wp_in_rt_world. intros [] w _. apply wp_ret.
  split; [done|by apply runtime_ok_world].
Qed.

Lemma wp_daemon_turns n t s :
  timer_ok t → runtime_ok s →
  wp (daemon_turns decode_intent_spec value_from_slice decode_request decode_event OpenAiReasoner_new n t)
    (λ _, runtime_ok) (λ _, runtime_ok) s.
Proof.
  revert t s. induction n as [|n IH]; intros t s Ht Hs; simpl; [by apply wp_ret|].
  apply wp_bind. eapply wp_mono; [by apply wp_daemon_turn| |done]. intros t' s' [Ht' Hs']. by apply IH.
Qed.

(** C7. Whatever clients send, the timer does, the reasoner answers and whichever
    call fails, the daemon never panics, and its history is in order: a request is
    accepted only if no episode before it returned an outcome that needs recovery,
    when the cooldown after the last outcome is over, and not for an event that
    repeats the last one within five seconds, unless it is critical; every episode
    follows an accepted request, with an identifier above those before it, and
    ended as every run does, with the session over.  The daemon is frozen exactly
    after the event of freezing, which directly follows an outcome that needs
    recovery, and stays frozen from such an outcome on.  An episode whose run
    returned an error instead of an outcome, whatever the phase of its session,
    does not freeze the daemon ([lost_record_keeps_the_daemon_awake]). *)
Theorem daemon_serves_safely n w :
  let s := MkRuntime config ActivationKernel_default capabilities skills 0 w [] in
  ∃ r s', run_daemon decode_intent_spec value_from_slice decode_request decode_event OpenAiReasoner_new n s = (r, s')
    ∧ r ≠ Panic ∧ daemon_history_ok (rt_history s')
    ∧ (activation_state (rt_activation s') = Frozen ↔ Daemon_Frozen ∈ rt_history s')
    ∧ (∀ id o x, Daemon_Episode id (Ret o) x ∈ rt_history s' → outcome_phase o = RecoveryRequired →
         activation_state (rt_activation s') = Frozen).
Proof.
  intros s. assert (runtime_ok s) as Hs by (split; try done; apply kernel_ok_default).
  assert (wp (run_daemon decode_intent_spec value_from_slice decode_request decode_event OpenAiReasoner_new n)
    (λ _, runtime_ok) (λ _, runtime_ok) s) as Hrun.
  { unfold run_daemon. apply wp_bind, wp_gets, wp_bind, wp_in_rt_world. intros now w' _.
    apply wp_daemon_turns; [|by apply runtime_ok_world]. intros ms. unfold TimerSource_new. simpl.
    destruct (timer_interval_ms (activation_config config)) as [i|] eqn:Hi; [|done].
    pose proof (interval i eq_refl).
    destruct (0 <? i); [|done]. intros [= <-]. unfold from_millis. lia. }
  unfold wp in Hrun. destruct (run_daemon _ _ _ _ _ _ _) as [r s'] eqn:Hr. exists r, s'. split; [done|].
  assert (runtime_ok s' ∧ r ≠ Panic) as [Hok Hp] by (destruct r; [by split..|done]).
  split; [done|]. split; [apply Hok|].
  assert (∀ e, e ∈ rt_history s' → ¬ leaves_running e → activation_state (rt_activation s') = Frozen) as Hfr.
  { intros e Hin He. destruct (decide (activation_state (rt_activation s') = Frozen)) as [|Hne]; [done|].
    pose proof (ko_running _ _ (rk_kernel _ Hok) Hne) as Hleft. rewrite Forall_forall in Hleft.
    by apply Hleft in Hin. }
  split; [split; [apply (ko_frozen _ _ (rk_kernel _ Hok))|intros Hin; apply (Hfr _ Hin); simpl; tauto]|].
  intros id o x Hin Ho. apply (Hfr _ Hin). intros Hl. by apply Hl.
Qed.
End Daemon.
