(* ===== verification/Scenario.v ===== *)
(** * A concrete transaction

    Instances of everything the development leaves open, as in the tests of
    [kernel.rs]: a small JSON type with its encoding, a 32-bit checksum in place
    of SHA-256, the tests' [FakeDriver] over a map of resources (extended with
    scheduled readback failures), its registration, and runs on the in-memory log.
    The witnesses and the counterexamples of the other files use them. *)

From S2P Require Export Sealed.

(** ** Codecs *)

Inductive json := JNull | JBool (b : bool) | JNumber (x : spec_float) | JString (s : string)
  | JArguments (resource value : string)
  | JNil | JCons (head rest : json)
  | JEmpty | JField (key : string) (value rest : json).
#[export] Instance json_eq_dec : EqDecision json.
Proof. solve_decision. Defined.

#[export] Instance json_Json : Json := {
  Value := json;
  Value_Null := JNull;
  is_null v := match v with JNull => true | _ => false end;
  is_object v := match v with JArguments _ _ | JEmpty | JField _ _ _ => true | _ => false end;
  is_array v := match v with JNil | JCons _ _ => true | _ => false end;
  is_boolean v := match v with JBool _ => true | _ => false end;
  as_f64 v := match v with JNumber x => Some x | _ => None end;
}.

Definition quotation : ascii := "034"%char.
Definition quoted (s : string) : string := String quotation s +:+ String quotation "".

Fixpoint json_text (v : json) : string :=
  match v with
  | JNull => "null"
  | JBool b => if b then "true" else "false"
  | JNumber (S754_zero s) => if s then "-0" else "0"
  | JNumber (S754_finite s m e) => (if s then "-" else "") +:+ show (Z.pos m) +:+ "b" +:+ show e
  | JNumber _ => "null"
  | JString s => quoted s
  | JArguments r v => "{" +:+ quoted r +:+ "," +:+ quoted v +:+ "}"
  | JNil => "]"
  | JCons v l => "[" +:+ json_text v +:+ json_text l
  | JEmpty => "}"
  | JField k v l => "{" +:+ quoted k +:+ ":" +:+ json_text v +:+ json_text l
  end.

#[export] Instance json_Serialize : Serialize Value := λ v, Ok (json_text v).

#[export] Instance ids_Serialize : Serialize (list ChangeId) := λ ids,
  Ok (foldr (λ id s, quoted (as_str id) +:+ "," +:+ s) "" ids).

#[export] Instance ids_EncodesIds : EncodesIds.
Proof. intros ids. by eexists. Qed.

(** A checksum with the shape of a SHA-256 digest: 64 hexadecimal digits. *)
Definition hex_char (n : N) : ascii :=
  ascii_of_N (if (n <? 10)%N then 48 + n else 87 + n)%N.

Fixpoint hex_string (digits : nat) (n : N) : string :=
  match digits with
  | O => ""
  | S digits => String (hex_char (n mod 16)) (hex_string digits (n / 16))
  end.

Definition checksum (s : string) : N :=
  foldl (λ acc a, N.land (acc * 257 + N_of_ascii a + 1) 4294967295)%N 0%N (String.list_ascii_of_string s).

#[export] Instance checksum_Sha256 : Sha256 := λ s, hex_string 64 (checksum s).

Lemma hex_char_visible n : (n < 16)%N → visible (hex_char n).
Proof.
  intros Hn. unfold visible, hex_char. rewrite N_ascii_embedding.
  - destruct (N.ltb_spec n 10); lia.
  - destruct (N.ltb_spec n 10); lia.
Qed.

Lemma hex_string_visible digits n : visible_text (hex_string digits n).
Proof.
  unfold visible_text. revert n. induction digits as [|d IH]; intros n; simpl; [constructor|].
  constructor; [|apply IH]. apply hex_char_visible. apply N.mod_lt. done.
Qed.

Lemma hex_string_length digits n : String.length (hex_string digits n) = digits.
Proof. revert n. induction digits as [|d IH]; intros n; simpl; [done|]. by rewrite IH. Qed.

#[export] Instance checksum_laws : Sha256Laws.
Proof. split; intros s; [apply hex_string_length|apply hex_string_visible]. Qed.

(** ** The driver *)

Record FakeWorld := MkFakeWorld {
  current : gmap ResourceKey string;
  statuses : gmap OperationId MutationOperationState;
  response_lost : bool;
  readback_failures : list bool;
}.

Definition state_of (value : string) : MutationState :=
  MkMutationState (JString value)
    (match content_digest (A := Value) (JString value) with Ok d => d | Err _ => StringId "" end).

Definition string_of_state (s : MutationState) : string :=
  match state_value s with JString v => v | _ => "" end.

Definition fake_pin : ProviderPin :=
  MkProviderPin (StringId "test.fake") (StringId "1") Builtin (StringId "sha256:fake").

Definition fake_meta : CapabilityMeta :=
  let m := CapabilityMeta_new (StringId "test.mutate") Mutation ReversibleMutation fake_pin
             "mutates a fake resource" (JString "in" : Value) (JString "out" : Value) in
  let m := with_allowed_phases m [Clean; Experimenting] in
  MkCapabilityMeta (meta_id m) (kind m) (effect m) (provider m) (description m) (input_schema m)
    (output_schema m) (role m) (allowed_phases m) (limits m) (deterministic m) true.

Definition not_found : ProviderError := ProviderError_new Unavailable "no such resource".

Definition fake_prepare (q : MutationPrepareRequest) (w : FakeWorld)
    : result ProviderError PreparedMutation * FakeWorld :=
  match prepare_arguments q with
  | JArguments r v =>
    match current w !! MkResourceKey r with
    | Some now => (Ok (MkPreparedMutation (StringId "test.mutate") fake_pin (MkResourceKey r)
                    (state_of now) (state_of v) JNull), w)
    | None => (Err not_found, w)
    end
  | _ => (Err (ProviderError_new InvalidRequest "arguments"), w)
  end.

Definition fake_write (op : OperationId) (p : PreparedMutation) (to : MutationState)
    (st : MutationOperationState) (w : FakeWorld) : FakeWorld :=
  MkFakeWorld (<[prepared_resource p := string_of_state to]> (current w))
    (<[op := st]> (statuses w)) (response_lost w) (readback_failures w).

Definition fake_apply (q : MutationApplyRequest) (w : FakeWorld)
    : result ProviderError MutationReceipt * FakeWorld :=
  let p := apply_prepared q in
  let w' := fake_write (apply_operation_id q) p (desired p) Applied w in
  if response_lost w then
    (Err (with_retryable (ProviderError_new Timeout "response lost") true),
     MkFakeWorld (current w') (statuses w) (response_lost w) (readback_failures w))
  else (Ok (MkReceipt (apply_operation_id q) Applied (Some (desired p)) JNull), w').

Definition fake_restore (q : MutationRestoreRequest) (w : FakeWorld)
    : result ProviderError MutationReceipt * FakeWorld :=
  let p := restore_prepared q in
  (Ok (MkReceipt (restore_operation_id q) Restored (Some (baseline p)) JNull),
   fake_write (restore_operation_id q) p (baseline p) Restored w).

Definition fake_status (q : MutationQuery) (w : FakeWorld)
    : result ProviderError MutationStatus * FakeWorld :=
  (Ok (MkStatus (query_operation_id q)
        (match statuses w !! query_operation_id q with Some st => st | None => Unknown end)
        None JNull), w).

(** A readback; the schedule says which of the next ones fail. *)
Definition fake_verify (q : MutationVerifyRequest) (w : FakeWorld)
    : result ProviderError MutationVerification * FakeWorld :=
  let answer := match current w !! prepared_resource (verify_prepared q) with
                | Some now =>
                  Ok (MkVerification (bool_decide (state_of now = verify_expected q))
                        (Some (state_of now)) JNull)
                | None => Err not_found
                end in
  match readback_failures w with
  | true :: rest =>
    (Err (ProviderError_new Unavailable "readback failed"),
     MkFakeWorld (current w) (statuses w) (response_lost w) rest)
  | false :: rest => (answer, MkFakeWorld (current w) (statuses w) (response_lost w) rest)
  | [] => (answer, w)
  end.

Definition fake_finalize (q : MutationFinalizeRequest) (w : FakeWorld)
    : result ProviderError MutationReceipt * FakeWorld :=
  (Ok (MkReceipt (finalize_operation_id q) Finalized_op (Some (desired (finalize_prepared q))) JNull), w).

Definition fake_driver : MutationDriver FakeWorld :=
  MkMutationDriver FakeWorld fake_meta fake_prepare fake_apply fake_status fake_verify fake_restore
    fake_finalize.

Definition fake_capabilities : CapabilitySnapshot FakeWorld :=
  match register_mutation (CapabilityRegistry_new AdminPolicy_default) fake_driver with
  | Ok r => snapshot r
  | Err _ => snapshot (CapabilityRegistry_new AdminPolicy_default)
  end.

(** ** The run *)

Definition tx : TransactionId := StringId "tx".
Definition fake_intent_pin : EvaluationIntentPin :=
  MkEvaluationIntentPin 1 (StringId "sha256:intent") (StringId "sha256:contract").
Definition fake_capability : CapabilityId := StringId "test.mutate".
Definition change_a : ChangeId := StringId "change/a".
Definition change_b : ChangeId := StringId "change/b".

Definition quiet_world : FakeWorld :=
  MkFakeWorld (list_to_map [(MkResourceKey "resource/a", "old"); (MkResourceKey "resource/b", "old")])
    ∅ false [].

Definition empty_log : MemoryWal := MkMemoryWal [] false None.

(** The state an operation leaves. *)
Definition after {A} (m : M (Sys FakeWorld MemoryWal) TransactionError A) (s : Sys FakeWorld MemoryWal) := (m s).2.

Definition set_world (w : FakeWorld) (s : Sys FakeWorld MemoryWal) : Sys FakeWorld MemoryWal :=
  MkSys (kernel s) w (trace s).

Definition begun : Sys FakeWorld MemoryWal :=
  (begin_transaction tx fake_intent_pin fake_capabilities empty_log quiet_world).2.

Definition set_a (value : string) : Value := JArguments "resource/a" value.

Definition experimented_a := after (experiment change_a fake_capability (set_a "new")) begun.
Definition restored_a := after restore_baseline experimented_a.

Definition candidate_a : Candidate :=
  match Candidate_new [change_a] with Ok c => c | Err _ => MkCandidate [] (StringId "") end.
Definition replayed_a := after (replay_candidate candidate_a) restored_a.

Definition authorization_a : CommitAuthorization :=
  MkCommitAuthorization fake_intent_pin (candidate_digest candidate_a) (StringId "sha256:decision")
    (StringId "sha256:evidence") (StringId "sha256:authorization").
Definition committed_a := after (finalize_candidate candidate_a authorization_a) replayed_a.

(** The states of the run are reachable. *)
Lemma begun_reachable : reachable begun.
Proof. eapply (reach_begin tx fake_intent_pin fake_capabilities empty_log quiet_world); done. Qed.

Lemma after_discard {A} (m : M (Sys FakeWorld MemoryWal) TransactionError A) s :
  after (discard m) s = after m s.
Proof. unfold after, discard, mbind, M_bind. by destruct (m s) as [[] s']. Qed.

Lemma reachable_after {A} op (m : M (Sys FakeWorld MemoryWal) TransactionError A) s :
  perform op = discard m → reachable s → reachable (after m s).
Proof.
  intros Hop Hs. rewrite <- after_discard, <- Hop. eapply reach_perform; [exact Hs|].
  apply surjective_pairing.
Qed.

Lemma experiment_reachable id cap args s : reachable s → reachable (after (experiment id cap args) s).
Proof. by apply (reachable_after (Op_experiment id cap args)). Qed.
Lemma restore_reachable s : reachable s → reachable (after restore_baseline s).
Proof. by apply (reachable_after Op_restore_baseline). Qed.
Lemma replay_reachable c s : reachable s → reachable (after (replay_candidate c) s).
Proof. by apply (reachable_after (Op_replay_candidate c)). Qed.
Lemma finalize_reachable c a s : reachable s → reachable (after (finalize_candidate c a) s).
Proof. by apply (reachable_after (Op_finalize_candidate c a)). Qed.
Lemma rollback_reachable s : reachable s → reachable (after rollback_all s).
Proof. by apply (reachable_after Op_rollback_all). Qed.
Lemma world_reachable w s : reachable s → reachable (set_world w s).
Proof. apply reach_world. Qed.

Lemma experimented_a_reachable : reachable experimented_a.
Proof. apply experiment_reachable, begun_reachable. Qed.
Lemma restored_a_reachable : reachable restored_a.
Proof. apply restore_reachable, experimented_a_reachable. Qed.
Lemma replayed_a_reachable : reachable replayed_a.
Proof. apply replay_reachable, restored_a_reachable. Qed.
Lemma committed_a_reachable : reachable committed_a.
Proof. apply finalize_reachable, replayed_a_reachable. Qed.

(** An operation that returns, known by evaluating the outcome only. *)
Definition is_ret {A} (o : outcome TransactionError A) : bool :=
  match o with Ret _ => true | _ => false end.

Lemma returns {A} (m : M (Sys FakeWorld MemoryWal) TransactionError A) s :
  is_ret (m s).1 = true → ∃ a, m s = (Ret a, after m s).
Proof. unfold after. destruct (m s) as [[a|e|] s']; [by exists a|done|done]. Qed.

Lemma settled_by_size (s : Sys FakeWorld MemoryWal) : size (pending s) = 0 → settled s.
Proof. apply map_size_empty_iff. Qed.

(** ** A readback that fails once

    The rollback restores the resource, the readback after the restore fails, and
    a second rollback finds the resource at its baseline. *)

Definition third_readback_fails (w : FakeWorld) : FakeWorld :=
  MkFakeWorld (current w) (statuses w) (response_lost w) [false; false; true].

Definition rollback_interrupted : Sys FakeWorld MemoryWal :=
  after rollback_all (set_world (third_readback_fails (world experimented_a)) experimented_a).
Definition rollback_retried := after rollback_all rollback_interrupted.

(** The same during the restore before a commit of another change. *)
Definition set_b (value : string) : Value := JArguments "resource/b" value.
Definition experimented_ab := after (experiment change_b fake_capability (set_b "new")) experimented_a.
Definition restore_interrupted :=
  after restore_baseline (set_world (third_readback_fails (world experimented_ab)) experimented_ab).
Definition restore_retried := after restore_baseline restore_interrupted.
Definition replayed_over_pending := after (replay_candidate candidate_a) restore_retried.
Definition committed_over_pending := after (finalize_candidate candidate_a authorization_a) replayed_over_pending.

(** [recover] refuses the log of a state as corrupt. *)
Definition refused_as_corrupt (s : Sys FakeWorld MemoryWal) : bool :=
  match recover (transaction_id (kernel s)) (intent_pin (kernel s)) (capabilities (kernel s)) (wal (kernel s)) with
  | Throw e => bool_decide (error_kind e = E_CorruptWal)
  | _ => false
  end.

(** ** A crash followed by a reboot

    The process dies when [n] entries of its log are durable, and the machine
    comes back with the resources at their boot values. *)

Definition crashed (n : nat) (w : FakeWorld) (s : Sys FakeWorld MemoryWal) : Sys FakeWorld MemoryWal :=
  match recover (transaction_id (kernel s)) (intent_pin (kernel s)) (capabilities (kernel s))
          (MkMemoryWal (take n (mem_entries (wal (kernel s)))) false None) with
  | Ret k => MkSys k w []
  | _ => s
  end.

Lemma crash_reachable n m w s :
  reachable s → length (take n (mem_entries (wal (kernel s)))) = S m →
  (Z.of_nat (S m) ≤ u64_max)%Z → reachable (crashed n w s).
Proof.
  intros Hs Hlen Hmax. unfold crashed.
  set (log := MkMemoryWal _ false None). destruct (recover _ _ _ log) as [k|e|] eqn:Hk; [|done|done].
  eapply (reach_crash s log w k); [exact Hs|exact I| | | |exact Hk].
  - exists (drop n (mem_entries (wal (kernel s)))). symmetry. apply take_drop.
  - intros He. change (durable log) with (take n (mem_entries (wal (kernel s)))) in He.
    by rewrite He in Hlen.
  - change (durable log) with (take n (mem_entries (wal (kernel s)))). by rewrite Hlen.
Qed.

(** The crash comes after the apply intent of a replay. *)
Definition rebooted_in_replay := crashed 6 quiet_world replayed_a.
Definition rebooted_rollback := after rollback_all rebooted_in_replay.

(** The crash comes after the finalize intent of a commit. *)
Definition rebooted_in_finalize := crashed 8 quiet_world committed_a.
Definition refinalized_rollback := after rollback_all rebooted_in_finalize.
