(* ===== verification/Codec.v ===== *)
(** * A codec for the log records of the concrete transaction

    [WalCodec] of [Wal.v] at the records of [Scenario.v]: an entry is written as the
    binary digits of its number in an enumeration of the entries.  It shows that
    the laws asked of [serde_json] can hold, and gives files to the witnesses. *)

From stdpp Require Import countable.
From S2P Require Export Scenario.

(** ** Enumerations of the parts *)

#[export] Instance spec_float_eq_dec : EqDecision spec_float.
Proof. solve_decision. Defined.
#[export] Instance spec_float_countable : Countable spec_float.
Proof.
  refine (inj_countable'
    (λ x, match x with
          | S754_zero s => inl s | S754_infinity s => inr (inl s) | S754_nan => inr (inr (inl tt))
          | S754_finite s m e => inr (inr (inr (s, m, e)))
          end)
    (λ y, match y with
          | inl s => S754_zero s | inr (inl s) => S754_infinity s | inr (inr (inl _)) => S754_nan
          | inr (inr (inr (s, m, e))) => S754_finite s m e
          end) _).
  by intros [].
Defined.

Definition leaf : Type := nat + (bool + (spec_float + (string + string * string))).

Fixpoint json_tree (v : json) : gen_tree leaf :=
  match v with
  | JNull => GenLeaf (inl 0)
  | JNil => GenLeaf (inl 1)
  | JEmpty => GenLeaf (inl 2)
  | JBool b => GenLeaf (inr (inl b))
  | JNumber x => GenLeaf (inr (inr (inl x)))
  | JString s => GenLeaf (inr (inr (inr (inl s))))
  | JArguments r v => GenLeaf (inr (inr (inr (inr (r, v)))))
  | JCons head rest => GenNode 0 [json_tree head; json_tree rest]
  | JField key value rest =>
    GenNode 1 [GenLeaf (inr (inr (inr (inl key)))); json_tree value; json_tree rest]
  end.

Fixpoint tree_json (t : gen_tree leaf) : json :=
  match t with
  | GenLeaf (inl 0) => JNull
  | GenLeaf (inl 1) => JNil
  | GenLeaf (inl _) => JEmpty
  | GenLeaf (inr (inl b)) => JBool b
  | GenLeaf (inr (inr (inl x))) => JNumber x
  | GenLeaf (inr (inr (inr (inl s)))) => JString s
  | GenLeaf (inr (inr (inr (inr (r, v))))) => JArguments r v
  | GenNode 0 [head; rest] => JCons (tree_json head) (tree_json rest)
  | GenNode _ [GenLeaf (inr (inr (inr (inl key)))); value; rest] =>
    JField key (tree_json value) (tree_json rest)
  | _ => JNull
  end.

Lemma tree_json_tree v : tree_json (json_tree v) = v.
Proof. induction v as [| | | | | |v1 IH1 v2 IH2| |]; simpl; try congruence. rewrite IH1, IH2. by repeat case_match. Qed.

#[export] Instance json_countable : Countable json :=
  inj_countable' json_tree tree_json tree_json_tree.

#[export] Instance ChangeState_countable : Countable ChangeState.
Proof.
  refine (inj_countable'
    (λ s, match s with IntentDurable => 0 | AppliedUnknown => 1 | AppliedVerified => 2
          | BaselineRestored => 3 | CandidateApplied => 4 | Finalized => 5 | RolledBack => 6
          | FailedNotApplied => 7 | DriftDetected => 8 end)
    (λ n, match n with 0 => IntentDurable | 1 => AppliedUnknown | 2 => AppliedVerified
          | 3 => BaselineRestored | 4 => CandidateApplied | 5 => Finalized | 6 => RolledBack
          | 7 => FailedNotApplied | _ => DriftDetected end) _).
  by intros [].
Defined.

#[export] Instance intent_kind_countable : Countable OperationIntentKind.
Proof.
  refine (inj_countable' (λ k, match k with Intent_Apply => 0 | Intent_Restore => 1 | Intent_Finalize => 2 end)
    (λ n, match n with 0 => Intent_Apply | 1 => Intent_Restore | _ => Intent_Finalize end) _).
  by intros [].
Defined.

#[export] Instance seal_countable : Countable TransactionSeal.
Proof.
  refine (inj_countable' (λ o, match o with Seal_Committed => true | Seal_RolledBack => false end)
    (λ b : bool, if b then Seal_Committed else Seal_RolledBack) _). by intros [].
Defined.

#[export] Instance class_countable : Countable ProviderClass.
Proof.
  refine (inj_countable' (λ c, match c with Builtin => 0 | Local => 1 | Mcp => 2 end)
    (λ n, match n with 0 => Builtin | 1 => Local | _ => Mcp end) _). by intros [].
Defined.

#[export] Instance operation_state_countable : Countable MutationOperationState.
Proof.
  refine (inj_countable'
    (λ s, match s with NotApplied => 0 | Applied => 1 | Restored => 2 | Finalized_op => 3 | Unknown => 4 end)
    (λ n, match n with 0 => NotApplied | 1 => Applied | 2 => Restored | 3 => Finalized_op | _ => Unknown end) _).
  by intros [].
Defined.

(** ** Records *)

#[export] Instance pin_countable : Countable ProviderPin.
Proof.
  refine (inj_countable' (λ p, ((provider_id p, provider_version p), (provider_class p, manifest_digest p)))
    (λ '((a, b), (c, d)), MkProviderPin a b c d) _). by intros [].
Defined.

#[export] Instance intent_pin_countable : Countable EvaluationIntentPin.
Proof.
  refine (inj_countable' (λ p, (pin_episode_id p, (pin_intent_digest p, pin_contract_digest p)))
    (λ '(a, (b, c)), MkEvaluationIntentPin a b c) _). by intros [].
Defined.

#[export] Instance state_countable : Countable MutationState.
Proof.
  refine (inj_countable' (λ s, (state_value s : json, state_digest s))
    (λ '(a, b), MkMutationState a b) _). by intros [].
Defined.

#[export] Instance prepared_countable : Countable PreparedMutation.
Proof.
  refine (inj_countable'
    (λ p, ((prepared_capability_id p, (prepared_provider p, prepared_resource p)),
           (baseline p, (desired p, prepared_driver_data p : json))))
    (λ '((a, (b, c)), (d, (e, f))), MkPreparedMutation a b c d e f) _). by intros [].
Defined.

#[export] Instance receipt_countable : Countable MutationReceipt.
Proof.
  refine (inj_countable'
    (λ r, ((receipt_operation_id r, receipt_state r), (receipt_observed r, receipt_driver_data r : json)))
    (λ '((a, b), (c, d)), MkReceipt a b c d) _). by intros [].
Defined.

#[export] Instance authorization_countable : Countable CommitAuthorization.
Proof.
  refine (inj_countable'
    (λ a, ((auth_intent_pin a, auth_candidate_digest a),
           (auth_decision_digest a, (auth_evaluation_evidence_digest a, authorization_digest a))))
    (λ '((a, b), (c, (d, e))), MkCommitAuthorization a b c d e) _). by intros [].
Defined.

#[export] Instance change_countable : Countable ChangeRecord.
Proof.
  refine (inj_countable'
    (λ c, (((cr_transaction_id c, cr_change_id c), (cr_supersedes c, (cr_capability_id c, cr_resource c))),
           ((cr_prepared c, (cr_experiment_verified c, cr_state c)),
            (cr_last_operation_id c, (cr_last_receipt c, cr_message c)))))
    (λ '(((a, b), (c, (d, e))), ((f, (g, h)), (i, (j, k)))), MkChangeRecord a b c d e f g h i j k) _).
  by intros [].
Defined.

#[export] Instance event_eq_dec : EqDecision WalEvent.
Proof. solve_decision. Defined.
#[export] Instance event_countable : Countable WalEvent.
Proof.
  refine (inj_countable'
    (λ e, match e with
          | Started pin g => inl (pin, g)
          | ChangeUpsert c => inr (inl c)
          | OperationIntent id op k => inr (inr (inl (id, (op, k))))
          | Sealed o => inr (inr (inr (inl o)))
          | CommitSealed a cs => inr (inr (inr (inr (a, cs))))
          end)
    (λ x, match x with
          | inl (pin, g) => Started pin g
          | inr (inl c) => ChangeUpsert c
          | inr (inr (inl (id, (op, k)))) => OperationIntent id op k
          | inr (inr (inr (inl o))) => Sealed o
          | inr (inr (inr (inr (a, cs)))) => CommitSealed a cs
          end) _).
  by intros [].
Defined.

#[export] Instance entry_eq_dec : EqDecision WalEntry.
Proof. solve_decision. Defined.
#[export] Instance entry_countable : Countable WalEntry.
Proof.
  refine (inj_countable' (λ e, (sequence e, (entry_transaction_id e, event e)))
    (λ '(a, (b, c)), MkWalEntry a b c) _). by intros [].
Defined.

(** ** The line of an entry *)

Fixpoint digits (p : positive) : string :=
  match p with
  | xH => "1"
  | xO p => String "0" (digits p)
  | xI p => String "2" (digits p)
  end.

Fixpoint of_digits (s : string) : option positive :=
  match s with
  | String "0" s => xO <$> of_digits s
  | String "2" s => xI <$> of_digits s
  | String "1" EmptyString => Some xH
  | _ => None
  end.

Lemma of_digits_digits p : of_digits (digits p) = Some p.
Proof. induction p as [p IH|p IH|]; simpl; [by rewrite IH..|done]. Qed.

(** A number that is cut has lost the digit that ends it. *)
Lemma cut_digits n p q : digits n = p +:+ q → q ≠ "" → of_digits p = None.
Proof.
  revert n. induction p as [|c p IH]; intros n Hn Hq; [done|]. rewrite string_app_cons in Hn.
  destruct n as [n|n|]; simpl in Hn; injection Hn as <- Hn; simpl.
  - by rewrite (IH n).
  - by rewrite (IH n).
  - symmetry in Hn. by destruct p, q.
Qed.

Definition entry_digits (e : WalEntry) : string := String "e" (digits (encode e)).
Definition numbered_Serialize : Serialize WalEntry := λ e, Ok (entry_digits e).
Definition numbered_Deserialize : Deserialize WalEntry := λ line,
  match line with
  | String _ s =>
    match of_digits s ≫= countable.decode with Some e => Ok e | None => Err "unknown entry" end
  | EmptyString => Err "empty line"
  end.

Lemma digits_text p : Forall (λ c, 32 ≤ N_of_ascii c)%N (String.list_ascii_of_string (digits p)).
Proof. induction p; simpl; by repeat constructor. Qed.

Lemma entry_digits_not_blank e : is_blank (entry_digits e) = false.
Proof.
  apply not_true_iff_false. rewrite is_blank_spec. simpl. by intros [? _]%Forall_cons.
Qed.

Lemma decode_entry_digits e : from_str (Deserialize := numbered_Deserialize) (entry_digits e) = Ok e.
Proof.
  unfold from_str, numbered_Deserialize, entry_digits. rewrite of_digits_digits. simpl.
  by rewrite countable.decode_encode.
Qed.

Definition numbered_codec : @WalCodec _ numbered_Serialize numbered_Deserialize.
Proof.
  split.
  - intros e. by eexists.
  - intros e s [= <-]. apply decode_entry_digits.
  - intros e s [= <-]. split; [apply entry_digits_not_blank|]. constructor; [done|apply digits_text].
Defined.

Definition numbered_torn : @TornLines _ numbered_Serialize numbered_Deserialize.
Proof.
  split. intros e s p q [= <-] Hs Hp Hq. destruct p as [|c p]; [done|].
  unfold entry_digits in Hs. rewrite string_app_cons in Hs. injection Hs as <- Hs. split.
  - apply not_true_iff_false. rewrite is_blank_spec. simpl. by intros [? _]%Forall_cons.
  - unfold from_str, numbered_Deserialize. rewrite (cut_digits _ _ _ Hs Hq). by eexists.
Defined.

(** A file with the lines of these entries holds them. *)
Lemma written_holds es meta calls :
  @file_holds _ numbered_Deserialize (MkOsFile (lines_text (entry_digits <$> es)) meta calls None) es.
Proof.
  exists (entry_digits <$> es). split; [done|]. split.
  - apply Forall_fmap, Forall_true. intros e. constructor; [done|apply digits_text].
  - induction es as [|e es IH]; simpl; constructor; [|done].
    split; [apply entry_digits_not_blank|apply decode_entry_digits].
Qed.
