(* ===== verification/EvalScenario.v ===== *)
(** * A concrete episode

    What [Scenario.v] leaves open for an evaluation: the JSON accessors, codecs, a
    clock that stands still, a guardrail measurement, a measurement whose latency
    depends on the tuned resource, and the threshold policy with a decoder of its
    specifications.  An episode of them experiments, asks for a commit and is
    committed; the witnesses of the evaluation and episode theorems use it.

    The second part holds the witnesses of the evaluation and episode theorems. *)

From S2P Require Export EpisodeSafety Waits Aggregate Scenario.

Open Scope Z_scope.

(** ** JSON *)

Fixpoint json_get (k : string) (v : json) : option json :=
  match v with
  | JField k' v rest => if bool_decide (k = k') then Some v else json_get k rest
  | _ => None
  end.

Fixpoint json_keys (v : json) : option (list string) :=
  match v with
  | JEmpty => Some []
  | JField k _ rest => cons k <$> json_keys rest
  | _ => None
  end.

Fixpoint json_items (v : json) : option (list json) :=
  match v with
  | JNil => Some []
  | JCons v rest => cons v <$> json_items rest
  | _ => None
  end.

Definition json_of_list (l : list json) : json := foldr JCons JNil l.
Definition json_of_fields (l : list (string * json)) : json :=
  foldr (λ f rest, JField f.1 f.2 rest) JEmpty l.

(** Only a list of fields is an object with keys. *)
Definition json_lookup (k : string) (v : json) : option json := _ ← json_keys v; json_get k v.

#[export] Instance json_JsonData : JsonData (J := json_Json) := {
  value_get := json_lookup;
  object_keys := json_keys;
  as_array := json_items;
  as_string v := match v with JString s => Some s | _ => None end;
  as_bool v := match v with JBool b => Some b | _ => None end;
  json_string := JString;
  json_bool := JBool;
  json_f64 := JNumber;
  json_integer n := JNumber (f64_of_Z n);
  json_array := json_of_list;
  json_object := json_of_fields;
}.

(** ** Codecs *)

Definition id_json {k} (id : string_id k) : json := JString (as_str id).
Definition int_json (n : Z) : json := JString (show n).

Definition metric_json (m : MetricValue) : json :=
  json_of_list [metric_value m; JString (metric_unit m)].
Definition batch_json (b : MetricBatch) : json :=
  json_of_list [int_json (started_at_ns b); int_json (ended_at_ns b);
    json_option JString (workload_fingerprint b);
    json_of_fields ((λ p, (p.1, metric_json p.2)) <$> map_to_list (metrics b)); provenance b].
Definition binding_json (b : ComparisonBinding) : json :=
  json_of_list [id_json (cb_capability_id b); cb_specification b].
Definition decision_json (d : EvaluationDecision) : json :=
  JString (EvaluationVerdict_debug (verdict d) +:+ ": " +:+ decision_reason d).
Definition pin_json (p : EvaluationIntentPin) : json :=
  json_of_list [int_json (pin_episode_id p); id_json (pin_intent_digest p);
    id_json (pin_contract_digest p)].
Definition evidence_json (e : AbEvaluationEvidence) : json :=
  json_of_list [pin_json (ab_intent e); id_json (ab_contract_id e); id_json (ab_candidate_digest e);
    step_details (ab_baseline_restore e); step_details (ab_candidate_replay e);
    batch_json (evidence_batch (ab_baseline_measurement e));
    batch_json (evidence_batch (ab_candidate_measurement e)); decision_json (ab_decision e)].

#[export] Instance batch_Serialize : Serialize MetricBatch := λ b, Ok (json_text (batch_json b)).
#[export] Instance receipt_Serialize : Serialize CleanupReceipt := λ r,
  Ok (json_text (json_of_list [id_json (cleanup_session_id r); JBool (cleaned_up r)])).
#[export] Instance comparison_Serialize : Serialize ComparisonEvidence := λ e,
  Ok (json_text (comparison_details e)).
#[export] Instance decision_Serialize : Serialize EvaluationDecision := λ d,
  Ok (json_text (decision_json d)).
#[export] Instance evidence_Serialize : Serialize AbEvaluationEvidence := λ e,
  Ok (json_text (evidence_json e)).
#[export] Instance evidence_ToValue : ToValue AbEvaluationEvidence := λ e, Ok (evidence_json e).
#[export] Instance probe_ToValue : ToValue ProbeEvidence := λ e, Ok (probe_data e).
#[export] Instance intent_Serialize : Serialize IntentDigestPayload := λ p,
  Ok (json_text (json_of_list [JString (ip_domain p); int_json (ip_episode_id p);
    JString (objective_str (ip_objective p)); id_json (ip_contract_digest p)])).
#[export] Instance authorization_Serialize : Serialize AuthorizationPayload := λ p,
  Ok (json_text (json_of_list [pin_json (payload_intent_pin p); id_json (payload_candidate_digest p);
    id_json (payload_decision_digest p); id_json (payload_evaluation_evidence_digest p)])).
#[export] Instance contract_Serialize : Serialize ContractPayload :=
  λ '(id, measurement, primary, guards, invariants, sampling, generation, pins),
  Ok (json_text (json_of_list [id_json id; id_json (mb_capability_id measurement);
    mb_specification measurement; json_of_list (binding_json <$> primary);
    json_of_list (binding_json <$> guards); json_of_list (binding_json <$> invariants);
    json_of_list (int_json <$> [settle_ms sampling; sample_count sampling;
      sample_interval_ms sampling; generation]);
    json_of_list ((λ p, json_of_list [id_json (bp_capability_id p);
      id_json (provider_id (bp_provider p)); id_json (manifest_digest (bp_provider p))]) <$> pins)])).

(** [serde_json::from_value] at the threshold specification: [conditions] with one
    of two operators. *)
Definition decode_operator (s : string) : option MetricOperator :=
  if bool_decide (s = "decrease_percent_ge") then Some DecreasePercentGe
  else if bool_decide (s = "current_le") then Some CurrentLe else None.

Definition decode_condition (v : json) : option MetricCondition :=
  match json_get "metric" v, json_get "op" v, json_get "value" v with
  | Some (JString metric), Some (JString op), Some (JNumber value) =>
    option_map (λ op, MkMetricCondition metric op value) (decode_operator op)
  | _, _, _ => None
  end.

Fixpoint decode_conditions (v : json) : option (list MetricCondition) :=
  match v with
  | JNil => Some []
  | JCons v rest =>
    match decode_condition v, decode_conditions rest with
    | Some c, Some cs => Some (c :: cs) | _, _ => None
    end
  | _ => None
  end.

Definition decode_thresholds (v : Value) : result string ThresholdComparisonSpec :=
  match json_get "conditions" v with
  | Some l =>
    match decode_conditions l with
    | Some conditions => Ok (MkThresholdSpec conditions)
    | None => Err "invalid condition"
    end
  | None => Err "missing conditions"
  end.

(** ** The environment *)

#[export] Instance still_Clock : Clock FakeWorld := {
  instant_now w := (0, w);
  thread_sleep _ w := w;
}.

#[export] Instance memory_store : TransactionStore FakeWorld MemoryWal := λ _ w, (Ok empty_log, w).
#[export] Instance memory_store_laws : TransactionStoreLaws FakeWorld MemoryWal.
Proof. by intros tid w t w' [= <- <-]. Qed.

Definition resource_a : ResourceKey := MkResourceKey "resource/a".

(** The latency a workload sees: lower when the resource is tuned. *)
Definition latency (w : FakeWorld) : spec_float :=
  f64_of_Z (match current w !! resource_a with Some "new"%string => 50 | _ => 100 end).

Definition observed (w : FakeWorld) : MetricBatch :=
  MkMetricBatch 1 2 Valid (Some "workload")
    {["latency" := MkMetricValue (JNumber (latency w)) "ms" Gauge]} JNull.

Definition measurement_of (id : CapabilityId) (r : CapabilityRole) : MeasurementProvider FakeWorld :=
  let m := CapabilityMeta_new id Measurement ReadOnly fake_pin "measures the latency"
             (JString "in" : Value) (JString "out" : Value) in
  let m := with_allowed_phases m [CommitPending] in
  let m := MkCapabilityMeta (meta_id m) (kind m) (effect m) (provider m) (description m)
             (input_schema m) (output_schema m) r (allowed_phases m)
             (MkCapabilityLimits 10 (max_output_bytes (limits m))) (deterministic m) (idempotent m) in
  {| measurement_meta := m;
     validate_measurement_specification _ := Ok tt;
     open_session _ w := (Ok (Domain.MkSession (StringId "session") JNull), w);
     sample _ w := (Ok (observed w), w);
     close session w := (Ok (MkCleanupReceipt (session_id session) true JNull), w) |}.

Definition guardrail_id : CapabilityId := StringId TRUSTED_GUARDRAIL_MEASUREMENT_ID.
Definition latency_id : CapabilityId := StringId "test.latency".
Definition guardrails : MeasurementProvider FakeWorld := measurement_of guardrail_id RuntimeSystemGuardrail.
Definition latencies : MeasurementProvider FakeWorld := measurement_of latency_id AgentSelectable.
Definition thresholds : ComparisonPolicy := ThresholdComparisonPolicy decode_thresholds.

(** Registrations one after another. *)
Definition fake_registry : result RegistryError (CapabilityRegistry FakeWorld) :=
  r ← register_mutation (CapabilityRegistry_new AdminPolicy_default) fake_driver;
  r ← register_measurement r guardrails;
  r ← register_measurement r latencies;
  register_comparison r thresholds.

Definition episode_capabilities : CapabilitySnapshot FakeWorld :=
  match fake_registry with Ok r => snapshot r | Err _ => fake_capabilities end.

Lemma fake_registry_built :
  ∃ r, fake_registry = Ok r ∧ rtc registers (CapabilityRegistry_new AdminPolicy_default) r.
Proof.
  assert (is_ok fake_registry = true) as Hok by by vm_compute.
  destruct fake_registry as [r|e] eqn:Hr; [|done]. exists r. split; [done|]. unfold fake_registry in Hr.
  apply result_bind_Ok in Hr as (r1 & H1 & Hr). apply result_bind_Ok in Hr as (r2 & H2 & Hr).
  apply result_bind_Ok in Hr as (r3 & H3 & Hr).
  eapply rtc_l; [by eapply registers_mutation|]. eapply rtc_l; [by eapply registers_measurement|].
  eapply rtc_l; [by eapply registers_measurement|]. eapply rtc_once. by eapply registers_comparison.
Qed.

Lemma episode_capabilities_spec : SnapshotSpec episode_capabilities.
Proof.
  unfold episode_capabilities. destruct fake_registry_built as (r & -> & Hr).
  by apply ok_snapshot, (registry_ok_reachable AdminPolicy_default r).
Qed.

(** ** The episode *)

Definition one_second : Z := from_millis 1000.
Definition condition_json (op : string) (value : Z) : json :=
  json_of_fields [("metric", JString "latency"); ("op", JString op);
    ("value", JNumber (f64_of_Z value))].
Definition binding_of (op : string) (value : Z) : ComparisonBinding :=
  MkComparisonBinding (StringId "builtin/comparison.threshold.v1")
    (json_of_fields [("conditions", json_of_list [condition_json op value])]).
Definition contract_spec : EvaluationContractSpec :=
  MkContractSpec (MkMeasurementBinding latency_id JEmpty) [binding_of "decrease_percent_ge" 10]
    [binding_of "current_le" 200] [] (MkSamplingPlan 5 2 1).
Definition intent_spec : EvaluationIntentSpec := MkIntentSpec (MkObjective "reduce latency") contract_spec.

Abbreviation fake_session := (EpisodeSession (W := FakeWorld) (T := MemoryWal)).
Definition invocation : AgentToolInvocation := MkInvocation "call" "tool" JNull.
Definition issue (command : AgentCommand) (s : fake_session) : fake_session :=
  (execute 1 one_second episode_capabilities command invocation s).2.

Definition new_episode : fake_session := EpisodeSession_new 1 quiet_world.
Definition intent_frozen := issue (Command_BeginExperiment "call" intent_spec) new_episode.
Definition mutated := issue (Command_Mutation "call" fake_capability (set_a "new") "try") intent_frozen.
Definition commit_command (ids : list ChangeId) : AgentCommand := Command_RequestCommit "call" ids "better".
Definition first_change : ChangeId := StringId "episode-1/change-1".
Definition committed_episode := issue (commit_command [first_change]) mutated.

Lemma issue_run command (s : fake_session) :
  session_run 1 one_second episode_capabilities s →
  session_run 1 one_second episode_capabilities (issue command s).
Proof. intros Hs. eapply session_execute; [exact Hs|apply surjective_pairing]. Qed.

Lemma committed_episode_run : session_run 1 one_second episode_capabilities committed_episode.
Proof. apply issue_run, issue_run, issue_run. constructor. Qed.

(** * The theorems at the concrete episode

    Each theorem on contracts, measurements, evaluations and episodes that has
    hypotheses, applied at the episode of [EvalScenario.v] or a part of it. *)

Open Scope Z_scope.

Definition is_return {E A} (o : outcome E A) : bool := match o with Ret _ => true | _ => false end.
Lemma is_return_Ret {E A} (o : outcome E A) : is_return o = true → ∃ a, o = Ret a.
Proof. destruct o as [a| |]; [by exists a|done|done]. Qed.

(** ** Registry and contracts *)

Lemma registered_capabilities_are_admitted_witness :
  ∃ r, fake_registry = Ok r ∧ registry_ok r ∧ policy r = AdminPolicy_default.
Proof.
  destruct fake_registry_built as (r & Hr & H). exists r. split; [exact Hr|].
  exact (registered_capabilities_are_admitted AdminPolicy_default r H).
Defined.

Definition contract_name : ContractId := StringId "episode-1/contract".

Lemma contract_freezes : ∃ c, freeze episode_capabilities contract_name contract_spec = Ret c.
Proof. apply is_return_Ret. by vm_compute. Qed.

Lemma frozen_contract_pins_the_snapshot_witness :
  ∃ c, freeze episode_capabilities contract_name contract_spec = Ret c
    ∧ frozen_with episode_capabilities c.
Proof.
  destruct contract_freezes as [c Hc]. exists c. split; [exact Hc|].
  apply (frozen_contract_pins_the_snapshot episode_capabilities contract_name contract_spec
           episode_capabilities_spec), Hc.
Defined.

Lemma protocol_starts : ∃ self, AbEvaluationProtocol_new episode_capabilities one_second = Ret self.
Proof. apply is_return_Ret. by vm_compute. Qed.

Lemma frozen_contracts_validate_witness :
  ∃ (self : AbEvaluationProtocol (W := FakeWorld)) c, frozen_with (ap_capabilities self) c
    ∧ (validate_contract self c ()).1 ≠ Panic ∧ (validate_contract self c ()).2 = ().
Proof.
  destruct protocol_starts as [self Hself], frozen_contract_pins_the_snapshot_witness as (c & _ & Hc).
  apply protocol_new_Ret in Hself as (_ & Hcaps & _). rewrite <- Hcaps in Hc. exists self, c.
  split; [exact Hc|]. pose proof (frozen_contracts_validate self c () Hc) as (H1 & H2 & _).
  split; [exact H1|exact H2].
Defined.

(** ** The episode machine *)

Definition sample_contract : FrozenEvaluationContract :=
  MkContract contract_name (spec_measurement contract_spec) (spec_primary contract_spec) [] []
    (spec_sampling contract_spec) 4 [] (StringId "sha256:contract").
Definition sample_intent : FrozenEvaluationIntent :=
  MkIntent fake_intent_pin (spec_objective intent_spec) sample_contract.

Definition commit_path : list Transition :=
  [T_FreezeIntent sample_intent; T_BeginTransaction tx; T_MutationApplied tx;
   T_RequestCommit (StringId "sha256:candidate")]
  ++ (T_Advance <$> [RestoringBaseline; MeasuringBaseline; ReplayingCandidate; MeasuringCandidate;
                     Comparing; Finalizing]) ++ [T_CommitCompleted].

(** The state a list of transitions leads to, if each is accepted. *)
Fixpoint follow (ts : list Transition) (m : EpisodeStateMachine) : option EpisodeStateMachine :=
  match ts with
  | [] => Some m
  | t :: ts => match transition t m with (Ret tt, m') => follow ts m' | _ => None end
  end.

Lemma follow_run m0 past m ts m' :
  episode_run m0 past m → follow ts m = Some m' → episode_run m0 (past ++ ts) m'.
Proof.
  revert past m. induction ts as [|t ts IH]; intros past m Hr; simpl.
  - intros [= <-]. by rewrite app_nil_r.
  - destruct (transition t m) as [[[]| |] m1] eqn:Ht; [|done..]. intros Hf.
    rewrite cons_middle, app_assoc. eapply IH; [by econstructor|done].
Qed.

Lemma commits_follow_the_protocol_witness :
  ∃ m, follow commit_path (EpisodeStateMachine_new 1) = Some m ∧ es_phase m = Committed
    ∧ ∃ i tid d, length (milestones commit_path) = 10%nat ∧ es_intent m = Some i
        ∧ es_transaction_id m = Some tid ∧ es_candidate_digest m = Some d.
Proof.
  destruct (follow commit_path (EpisodeStateMachine_new 1)) as [m|] eqn:Hf; [|by vm_compute in Hf].
  assert (es_phase m = Committed) as Hm by (vm_compute in Hf; by injection Hf as <-).
  exists m. split; [done|]. split; [exact Hm|].
  destruct (commits_follow_the_protocol 1 commit_path m
    (follow_run _ [] _ commit_path _ (run_nil _) Hf) Hm) as (i & tid & d & Hms & Hi & _ & Ht & Hd & _).
  exists i, tid, d. rewrite Hms. split; [done|]. split; [exact Hi|]. split; [exact Ht|exact Hd].
Defined.

Lemma episodes_terminate_witness : (length [T_StopReasoning; T_FinishClean] ≤ 41)%nat.
Proof.
  pose (m0 := EpisodeStateMachine_new 1). pose (m1 := (transition T_StopReasoning m0).2).
  apply (episodes_terminate 1 [T_StopReasoning; T_FinishClean] (transition T_FinishClean m1).2).
  apply (busy_snoc m0 [T_StopReasoning] m1 T_FinishClean); [|reflexivity|by intros [=]].
  apply (busy_snoc m0 [] m0 T_StopReasoning); [constructor|reflexivity|by intros [=]].
Defined.

(** ** Conditions *)

Definition untuned : MetricBatch := observed quiet_world.
Definition tuned : MetricBatch := observed (ses_world committed_episode).
Definition faster (percent : Z) : MetricCondition :=
  MkMetricCondition "latency" DecreasePercentGe (f64_of_Z percent).

(** Half the latency passes a demand of 40 percent, so one of 10 percent. *)
Lemma conditions_are_decided_and_monotone_witness :
  mce_outcome (evaluate_metric_condition (faster 10) untuned tuned) = Cond_Passed.
Proof.
  apply (proj2 (conditions_are_decided_and_monotone (faster 40) (f64_of_Z 10) untuned tuned));
    by vm_compute.
Defined.

Definition threshold_request : ComparisonRequest :=
  MkComparisonRequest (MkInvocationContext 1 (StringId "op")) contract_name
    (cb_specification (binding_of "decrease_percent_ge" 10)) untuned tuned.

Lemma thresholds_compare : ∃ e, Capability.compare thresholds threshold_request = Ok e ∧ conclusion e = Improved.
Proof.
  destruct (Capability.compare thresholds threshold_request) as [e|e] eqn:He.
  - exists e. split; [done|].
    assert ((λ r : result ProviderError ComparisonEvidence,
               match r with Ok e => conclusion e | _ => Inconclusive end)
              (Capability.compare thresholds threshold_request) = Improved) as Hc by by vm_compute.
    by rewrite He in Hc.
  - assert (is_ok (Capability.compare thresholds threshold_request) = true) as Hc by by vm_compute.
    by rewrite He in Hc.
Qed.

Lemma threshold_policy_concludes_witness :
  ∃ spec, decode_thresholds (comparison_specification threshold_request) = Ok spec
    ∧ Forall (λ c, mce_outcome (evaluate_metric_condition c untuned tuned) = Cond_Passed)
        (spec_conditions spec).
Proof.
  destruct thresholds_compare as (e & He & Hc).
  destruct (threshold_policy_concludes decode_thresholds threshold_request e He)
    as (spec & Hd & _ & _ & Hi & _).
  exists spec. split; [exact Hd|]. by apply Hi.
Defined.

(** ** Measurements *)

Definition at_start : EvalSys (P := unit) (W := FakeWorld) := MkEval () quiet_world [].
Definition budget : EvaluationDeadline := MkDeadline 0 one_second one_second.
Definition probe_context : InvocationContext := MkInvocationContext 1 (StringId "op").

Lemma sessions_are_closed_once_witness :
  ∃ evidence new, (collect_measurement latencies probe_context (spec_sampling contract_spec) budget
                     (spec_measurement contract_spec) at_start).1 = Ret evidence
    ∧ collected budget latencies probe_context (spec_sampling contract_spec)
        (spec_measurement contract_spec) [] evidence new.
Proof.
  destruct (collect_measurement latencies probe_context (spec_sampling contract_spec) budget
              (spec_measurement contract_spec) at_start) as [r s'] eqn:Hr.
  destruct (sessions_are_closed_once budget latencies probe_context (spec_sampling contract_spec)
              (spec_measurement contract_spec) at_start r s' Hr) as (new & _ & _ & Hn).
  assert (is_return (collect_measurement latencies probe_context (spec_sampling contract_spec) budget
            (spec_measurement contract_spec) at_start).1 = true) as Hret by by vm_compute.
  rewrite Hr in Hret. destruct r as [evidence| |]; [|done..]. exists evidence, new.
  split; [reflexivity|exact Hn].
Defined.

Definition two_samples : list MetricBatch := [untuned; tuned].

Lemma aggregation_ignores_sample_order_witness :
  ∃ b1 b2, aggregate_samples two_samples = Ok b1 ∧ aggregate_samples (reverse two_samples) = Ok b2
    ∧ metrics b2 = metrics b1.
Proof.
  assert (is_ok (aggregate_samples two_samples) = true) as Hok by by vm_compute.
  destruct (aggregate_samples two_samples) as [b1|e] eqn:Hb; [|done].
  destruct (aggregation_ignores_sample_order two_samples (reverse two_samples) b1)
    as ((b2 & Hb2 & _ & _ & _ & _ & Hm) & _);
    [symmetry; apply reverse_Permutation|vm_compute; done|exact Hb|].
  exists b1, b2. split; [reflexivity|]. split; [exact Hb2|exact Hm].
Defined.

(** ** The evaluation of the mutated episode *)

Definition begun_port : KernelPort FakeWorld MemoryWal := (kernel begun, trace begun).
Definition mutated_port : KernelPort FakeWorld MemoryWal := default begun_port (ses_transaction mutated).
Definition mutated_intent : FrozenEvaluationIntent := default sample_intent (es_intent (ses_state mutated)).
Definition mutated_candidate : Candidate :=
  match Candidate_new [first_change] with Ok c => c | Err _ => candidate_a end.
Definition mutated_sys : EvalSys (P := KernelPort FakeWorld MemoryWal) (W := FakeWorld) :=
  MkEval mutated_port (ses_world mutated) [].

Lemma mutated_run : session_run 1 one_second episode_capabilities mutated.
Proof. apply issue_run, issue_run. constructor. Qed.

Lemma mutated_port_planned :
  ∃ tid, port_planned tid (intent_pin_of mutated_intent) episode_capabilities
           (change_order mutated_port.1) mutated_port.
Proof.
  pose proof (session_run_ok 1 one_second episode_capabilities episode_capabilities_spec
    ltac:(done) (λ e, ex_intro _ _ eq_refl) mutated mutated_run) as [_ _ _ Hp].
  assert (es_phase (ses_state mutated) = Experimenting) as Hph by (vm_compute; reflexivity).
  unfold phase_ok in Hp. rewrite Hph in Hp. destruct Hp as (i & tid & p & Hi & _ & Ht & Hs).
  exists tid. unfold mutated_port, mutated_intent. rewrite Hi, Ht. split; [exact Hs|reflexivity].
Qed.

Definition evaluated_mutation (self : AbEvaluationProtocol) :=
  evaluate self kernel_port probe_context mutated_intent mutated_candidate mutated_sys.

Lemma evaluation_returns self :
  AbEvaluationProtocol_new episode_capabilities one_second = Ret self →
  is_return (evaluated_mutation self).1 = true.
Proof.
  assert ((λ o, match o with Ret self => is_return (evaluated_mutation self).1 | _ => false end)
            (AbEvaluationProtocol_new episode_capabilities one_second) = true) as H by by vm_compute.
  by intros Hself; rewrite Hself in H.
Qed.

Lemma evaluation_follows_the_protocol_witness :
  ∃ self e new tid, evaluated self probe_context mutated_intent mutated_candidate e (calls new)
    ∧ holds_candidate tid (intent_pin_of mutated_intent) episode_capabilities
        (change_order mutated_port.1) (change_ids mutated_candidate)
        (eval_port (evaluated_mutation self).2).
Proof.
  destruct protocol_starts as [self Hself], mutated_port_planned as [tid Hp].
  pose proof (evaluation_returns self Hself) as Hret. unfold evaluated_mutation in *.
  destruct (evaluate _ _ _ _ _ _) as [r s'] eqn:Hr.
  destruct (evaluation_follows_the_protocol kernel_port
    (PortSpec0 := kernel_port_spec tid (intent_pin_of mutated_intent) episode_capabilities
                    (change_order mutated_port.1))
    self probe_context mutated_intent mutated_candidate mutated_sys r s' Hp) as (new & _ & _ & Hn);
    [by vm_compute|exact Hr|].
  destruct r as [e| |]; [|done..]. destruct Hn as (d & _ & _ & Hh & He).
  exists self, e, new, tid. split; [exact He|]. rewrite Hr. exact Hh.
Defined.

Definition mutated_plan : SamplingPlan := contract_sampling (intent_contract mutated_intent).

Lemma mutated_plan_valid : SamplingPlan_validate mutated_plan = Ok tt ∧ sampling_in_range mutated_plan.
Proof.
  assert (mutated_plan = MkSamplingPlan 5 2 1) as -> by (vm_compute; reflexivity).
  split; [reflexivity|]. unfold sampling_in_range, u64_max. simpl. lia.
Qed.

Lemma mutated_schedule : scheduled_ms (intent_contract mutated_intent) = 14.
Proof. vm_compute. reflexivity. Qed.

Lemma stored_intents_are_authentic_witness :
  ∃ i, FrozenEvaluationIntent_try_from mutated_intent = Ok i ∧ intent_valid i.
Proof.
  assert (is_ok (FrozenEvaluationIntent_try_from mutated_intent) = true) as Hok by (vm_compute; reflexivity).
  destruct (FrozenEvaluationIntent_try_from mutated_intent) as [i|e] eqn:Hi; [|done].
  exists i. split; [reflexivity|].
  exact (proj1 (proj1 (stored_intents_are_authentic mutated_intent i) Hi)).
Defined.

Lemma waits_fit_the_schedule_witness :
  ∃ self, slept (eval_trace (evaluated_mutation self).2) <= from_millis 14.
Proof.
  destruct protocol_starts as [self Hself], mutated_plan_valid as [Hv Hr]. exists self.
  rewrite <- mutated_schedule.
  exact (proj1 (waits_fit_the_schedule episode_capabilities one_second self kernel_port
    probe_context mutated_intent mutated_candidate mutated_sys Hself Hv Hr)).
Defined.

(** ** The episode *)

Lemma episodes_end_safely_witness :
  ∃ result s', execute 1 one_second episode_capabilities (Command_Abort "call" "stop") invocation mutated
                 = (Ret result, s').
Proof.
  apply (episodes_end_safely 1 one_second episode_capabilities episode_capabilities_spec
    ltac:(done) (λ e, ex_intro _ _ eq_refl) mutated (Command_Abort "call" "stop") invocation mutated_run).
Defined.

Lemma commits_are_earned_and_durable_witness :
  ∃ i e p k, es_intent (ses_state committed_episode) = Some i
    ∧ ses_transaction committed_episode = Some p ∧ verdict (ab_decision e) = Verdict_Improved
    ∧ recover (transaction_id p.1) (intent_pin p.1) (capabilities p.1) (wal p.1) = Ret k
    ∧ sealed k = Some Seal_Committed.
Proof.
  pose (t := match ses_transaction committed_episode with Some p => wal p.1 | None => empty_log end).
  destruct (commits_are_earned_and_durable 1 one_second episode_capabilities episode_capabilities_spec
    ltac:(done) (λ e, ex_intro _ _ eq_refl) committed_episode t committed_episode_run)
    as (i & c & e & a & p & pr & ec & Hi & Hp & _ & Hv & _ & _ & _ & _ & _ & _ & Hrec);
    [by vm_compute|].
  assert (Z.of_nat (length (durable t)) <= u64_max) as Hlen by by vm_compute.
  unfold t in Hrec, Hlen. rewrite Hp in Hrec, Hlen.
  destruct Hrec as (k & Hk & Hs & _); [done|done|done|].
  exists i, e, p, k. refine (conj Hi (conj Hp (conj Hv (conj Hk Hs)))).
Defined.
