(* ===== verification/LinuxWitnesses.v ===== *)
(** * A tunable file

    A file system that is a map of paths, the driver bound to
    [/proc/sys/vm/swappiness], and the theorems of [LinuxFileSafety.v] on them. *)

From S2P Require Import LinuxFileSafety EvalScenario.

Open Scope Z_scope.

#[export] Instance json_laws : JsonLaws (JD := json_JsonData).
Proof.
  split.
  - done.
  - done.
  - done.
  - intros l. simpl. induction l as [|v l IH]; simpl in *; [done|]. by rewrite IH.
  - intros []; done.
  - intros []; simpl; split; try done; by intros [? ?].
  - intros k l _. simpl. unfold json_lookup. assert (is_Some (json_keys (json_of_fields l))) as [ks ->].
    { induction l as [|[k' v] l [ks Hks]]; simpl; [eauto|]. rewrite Hks. simpl. eauto. }
    simpl. induction l as [|[k' v] l IH]; simpl; [by rewrite lookup_empty|].
    rewrite IH. case_bool_decide as Hk; [by subst; rewrite lookup_insert_eq|by rewrite lookup_insert_ne].
Qed.

#[export] Instance string_Serialize : Serialize string := λ s, Ok (json_text (JString s)).
#[export] Instance target_Serialize : Serialize LinuxMutationTarget := λ t,
  Ok (match t with Sysctl k => k | ProcSys p | Sysfs p | Cgroup p => p end).

(** ** The file system *)

Definition Files : Type := gmap string string.
Definition directories : list string := ["/proc/sys"; "/sys"; "/sys/fs/cgroup"].

(** There are no links: what exists is its own canonical name. *)
Definition files_canonicalize (path : string) (o : Files) : result string string * Files :=
  (if bool_decide (path ∈ directories) || bool_decide (path = "/proc/sys/vm/swappiness") then Ok path
   else Err "not found", o).
Definition files_read (path : string) (o : Files) : result string string * Files :=
  (ok_or "not found" (o !! path), o).
(** The kernel takes numbers and shows them without leading zeros. *)
Definition is_digit (a : ascii) : bool := bool_decide (48 ≤ nat_of_ascii a ≤ 57)%nat.
Fixpoint without_zeros (s : string) : string :=
  match s with
  | String a (String b _ as rest) => if Ascii.eqb a "0" && is_digit b then without_zeros rest else s
  | _ => s
  end.
Definition files_write (path value : string) (o : Files) : result string unit * Files :=
  let line := trim_line_ends value in
  if bool_decide (line = "") || negb (forallb is_digit (String.list_ascii_of_string line))
  then (Err "Invalid argument", o) else (Ok tt, <[path := without_zeros line +:+ line_feed]> o).

#[export] Instance Files_FileSystem : FileSystem Files := {
  canonicalize := files_canonicalize; read_to_string := files_read; fs_write := files_write }.

Definition swappiness : string := "/proc/sys/vm/swappiness".

#[export] Instance swappiness_quiet : QuietFile (O := Files) (lookup swappiness) swappiness "/proc/sys".
Proof.
  split; try done. intros o c. simpl. unfold files_read. simpl.
  destruct (o !! swappiness) as [c'|]; simpl; split; intros Hc; simplify_eq; done.
Qed.

Definition sixty : Files := {[swappiness := "60" +:+ line_feed]}.
Definition linux_world : LinuxWorld Files := MkLinuxWorld sixty ∅ [].
Definition swappiness_id : CapabilityId := StringId "mutation.vm.swappiness".
Definition swappiness_target : LinuxMutationTarget := Sysctl "vm.swappiness".

Definition bound : outcome string BoundDriver * LinuxWorld Files :=
  BoundDriver_new swappiness_id "Controls swapping." swappiness_target linux_world.
Definition swappiness_driver : BoundDriver :=
  match bound.1 with Ret d => d | _ => MkBoundDriver fake_meta JNull (MkResourceKey "") JNull end.

Lemma bound_Ret : ∃ w, bound = (Ret swappiness_driver, w).
Proof. exists bound.2. vm_compute. reflexivity. Qed.

Definition set_value (value : string) : MutationPrepareRequest :=
  MkPrepareRequest (MkInvocationContext 1 (StringId "op")) (json_of_fields [("value", JString value)]).

Lemma bound_driver_writes_only_its_file_witness :
  ∃ file, value_get "path" (expected_driver_data swappiness_driver) ≫= as_string = Some file
    ∧ file = swappiness
    ∧ ((bound_prepare swappiness_driver (set_value "10") linux_world).1 = Panic →
         answered_no_text swappiness_target (os linux_world)).
Proof.
  destruct bound_Ret as (w & Hw).
  destruct (bound_driver_writes_only_its_file swappiness_id "Controls swapping." swappiness_target
    linux_world swappiness_driver w Hw) as (file & _ & Hf & _ & Hp & _).
  exists file. split; [exact Hf|]. split; [|apply Hp].
  assert (Some file = Some swappiness) as Hs by (rewrite <- Hf; vm_compute; reflexivity).
  injection Hs as Hs. exact Hs.
Defined.

Lemma swappiness_bound_at : bound_at swappiness "sysctl" "/proc/sys" swappiness_driver.
Proof. split; vm_compute; reflexivity. Qed.

Definition prepared_swappiness := bound_prepare swappiness_driver (set_value "10") linux_world.
Lemma prepared_Ret : ∃ p w, prepared_swappiness = (Ret p, w).
Proof.
  assert (match prepared_swappiness.1 with Ret _ => true | _ => false end = true) as Hp by (vm_compute; reflexivity).
  destruct prepared_swappiness as [ [p|e|] w]; [by exists p, w|done..].
Qed.

Lemma strings_encode (s : string) : ∃ e, to_vec s = Ok e.
Proof. by eexists. Qed.

Lemma linux_world_line : holds (lookup swappiness) linux_world "60".
Proof. vm_compute. reflexivity. Qed.

Lemma swappiness_accepts line :
  (∀ o : Files, fs_write swappiness (line +:+ line_feed) o = (Ok tt, <[swappiness := line +:+ line_feed]> o)) →
  trim_line_ends (line +:+ line_feed) = line → accepts (O := Files) (lookup swappiness) swappiness line.
Proof.
  intros Hw Ht o r o' _ Hr. rewrite Hw in Hr. injection Hr as <- <-. split; [done|].
  pose proof (lookup_insert_eq (M := gmap string) o swappiness (line +:+ line_feed)) as Hl.
  etransitivity; [exact (f_equal (fmap trim_line_ends) Hl)|]. simpl. by rewrite Ht.
Qed.

(** Prepared, applied and restored: the file holds its old line again. *)
Lemma changes_are_reversible_witness :
  ∃ p w1 r w2 r' w3, prepared_swappiness = (Ret p, w1)
    ∧ bound_apply swappiness_driver (MkApplyRequest (StringId "apply") p) w1 = (Ret r, w2)
    ∧ receipt_state r = Applied ∧ holds (lookup swappiness) w2 "10"
    ∧ bound_restore swappiness_driver (MkRestoreRequest (StringId "restore") p) w2 = (Ret r', w3)
    ∧ receipt_state r' = Restored ∧ holds (lookup swappiness) w3 "60".
Proof.
  destruct prepared_Ret as (p & w1 & Hp).
  pose proof (changes_are_reversible (lookup swappiness) swappiness "sysctl" "/proc/sys" strings_encode
    swappiness_driver (set_value "10") linux_world p w1 swappiness_bound_at
    (ex_intro _ _ linux_world_line)) as Hall.
  specialize (Hall Hp).
  destruct Hall as (from & to & Hfrom & Hs & _ & Hto & Hall).
  assert (from = "60") as -> by (vm_compute in Hfrom; injection Hfrom as <-; reflexivity).
  assert (to = "10") as -> by (vm_compute in Hto; injection Hto as <-; reflexivity).
  assert (holds (lookup swappiness) w1 "60") as H60 by exact (holds_same _ _ _ _ Hs Hfrom).
  pose proof (Hall w1 "60" (StringId "apply") H60) as H1.
  destruct (bound_apply swappiness_driver (MkApplyRequest (StringId "apply") p) w1) as [applied w2] eqn:Ha.
  destruct (bound_restore swappiness_driver (MkRestoreRequest (StringId "apply") p) w1) as [x1 x2].
  destruct H1 as (H1 & _ & _). destruct (H1 (or_introl eq_refl)) as (_ & _ & H1' & _).
  destruct H1' as (r & -> & Hst & H10); [apply swappiness_accepts; [intros o|]; vm_compute; reflexivity|].
  pose proof (Hall w2 "10" (StringId "restore") H10) as H2.
  destruct (bound_apply swappiness_driver (MkApplyRequest (StringId "restore") p) w2) as [y1 y2].
  destruct (bound_restore swappiness_driver (MkRestoreRequest (StringId "restore") p) w2) as [restored w3] eqn:Hr.
  destruct H2 as (H2 & _ & _). destruct (H2 (or_intror eq_refl)) as (_ & _ & _ & H2').
  destruct H2' as (r' & -> & Hst' & H60'); [apply swappiness_accepts; [intros o|]; vm_compute; reflexivity|].
  exists p, w1, r, w2, r', w3.
  split; [exact Hp|]. split; [exact Ha|]. split; [exact Hst|]. split; [exact H10|].
  split; [exact Hr|]. split; [exact Hst'|exact H60'].
Defined.

(** A line the kernel rewrites is answered [Unknown], and one it refuses with an error
    after which the operation is known not to be applied. *)
Definition asked (value : string) : option (outcome ProviderError MutationReceipt * LinuxWorld Files) :=
  match bound_prepare swappiness_driver (set_value value) linux_world with
  | (Ret p, w) => Some (bound_apply swappiness_driver (MkApplyRequest (StringId "apply") p) w)
  | _ => None
  end.

Example rewritten_line_is_unknown :
  match asked "007" with Some (Ret r, _) => Some (receipt_state r) | _ => None end = Some Unknown.
Proof. by vm_compute. Qed.

Example refused_line_is_not_applied :
  match asked "off" with
  | Some (Throw _, w) => status_state <$> driver_operations (inner_meta swappiness_driver) w !! StringId "apply"
  | _ => None
  end = Some NotApplied.
Proof. by vm_compute. Qed.
