(* ===== verification/RunWitnesses.v ===== *)
(** * A run of the concrete episode

    A reasoner that freezes the intent of [EvalScenario.v], tunes its resource and
    asks for the commit, an audit log that takes every record, and a catalog with
    one skill: the run commits, and the theorems on runs, tools and skills apply. *)

From S2P Require Import RunSafety EvalScenario.

Open Scope Z_scope.

(** ** The reasoner and the audit log *)

Definition tool_name (prefix : string) : string := capability_tool_name prefix fake_capability.

Definition begin_call : AgentToolInvocation := MkInvocation "call-1" "begin_experiment" JEmpty.
Definition mutate_call : AgentToolInvocation :=
  MkInvocation "call-2" (tool_name "experiment")
    (json_of_fields [("arguments", set_a "new"); ("reason", JString "try")]).
Definition commit_call : AgentToolInvocation :=
  MkInvocation "call-3" "request_commit"
    (json_of_fields [("change_ids", json_of_list [JString (as_str first_change)]);
                     ("reason", JString "better")]).

Definition next_turn (results : list AgentToolResult) : AgentTurn :=
  match results with
  | [r] =>
    if bool_decide (result_call_id r = "call-1") then Turn_ToolCalls [mutate_call]
    else if bool_decide (result_call_id r = "call-2") then Turn_ToolCalls [commit_call]
    else Turn_Final "done"
  | _ => Turn_Final "done"
  end.

#[export] Instance scripted_reasoner : AgentReasoner FakeWorld := {
  reasoner_begin _ _ w := (Ok (Turn_ToolCalls [begin_call]), w);
  reasoner_resume results w := (Ok (next_turn results), w);
}.

#[export] Instance forgetful_sink : AuditSink FakeWorld := {
  now_ns w := (0, w);
  audit_record _ w := (Ok tt, w);
}.

#[export] Instance values_Serialize : Serialize (list Value) := λ l, Ok (json_text (json_of_list l)).
#[export] Instance names_Serialize : Serialize (list (string * string)) := λ l,
  Ok (json_text (json_of_fields ((λ p, (p.1, JString p.2)) <$> l))).
#[export] Instance outcome_ToValue : ToValue EpisodeOutcome := λ o,
  Ok (JString (outcome_summary o)).

(** ** A skill *)

Definition notes : ReferenceDocument :=
  MkReference "references/notes.md" "notes" 5 (StringId "sha256:notes").
Definition skill : SkillPackage :=
  MkPackage (MkSkillMeta "tuning" "How to tune." None None ∅ None) "/skills/tuning" "Tune."
    {["references/notes.md" := notes]} true (StringId "sha256:skill").
Definition fake_skills : SkillSnapshot :=
  match SkillSnapshot_new {["tuning" := skill]} with Ok s => s | Err _ => MkSkillSnapshot ∅ (StringId "") end.
Definition fake_config : SkillConfig := 
  MkSkillConfig true ["/skills"] 64 8000 1 2 1 (128 * 1024) (256 * 1024) 128 (16 * 1024 * 1024).

Definition fake_coordinator : EpisodeCoordinator (W := FakeWorld) :=
  MkCoordinator 6 one_second episode_capabilities fake_skills fake_config.

Abbreviation fake_run := (run (T := MemoryWal) (λ _, Ok intent_spec) fake_coordinator 1 JNull ["tuning"] quiet_world).

Definition run_phase : option EpisodePhase :=
  match fake_run.1 with Ret o => Some (outcome_phase o) | _ => None end.
Example fake_run_commits : run_phase = Some Committed.
Proof. by vm_compute. Qed.

Lemma fake_registry_ids id meta :
  snap_metadata episode_capabilities !! id = Some meta → meta_id meta = id.
Proof.
  unfold episode_capabilities. destruct fake_registry_built as (r & -> & Hr). intros Hm.
  apply (ok_permitted r (proj1 (registry_ok_reachable AdminPolicy_default r Hr)) id meta), Hm.
Qed.

Lemma runs_end_safely_witness :
  ∃ x log, fake_run.2 = (x, log) ∧ commands_announced log ∧ unmixed log ∧ turns log <= 9
    ∧ episode_over fake_coordinator x ∧ es_phase (ses_state x) = Committed.
Proof.
  assert (0 <= 1 <= u64_max) as Hid by done.
  destruct (runs_end_safely (T := MemoryWal) (λ _, Ok intent_spec) fake_coordinator 1
    episode_capabilities_spec fake_registry_ids Hid (λ e, ex_intro _ (evidence_json e) eq_refl) JNull ["tuning"]
    quiet_world) as (r & x & log & Hrun & Ha & Hu & Ht & Hr); [done|done|].
  assert (run_phase = match r with Ret o => Some (outcome_phase o) | _ => None end) as Hc.
  { unfold run_phase. exact (f_equal (λ p, match p.1 with Ret o => Some (outcome_phase o) | _ => None end) Hrun). }
  rewrite fake_run_commits in Hc.
  destruct r as [o| |]; [|done..]. destruct Hr as [Ho ->]. injection Hc as Hc. symmetry in Hc.
  exists x, log. split; [exact (f_equal snd Hrun)|]. split; [exact Ha|]. split; [exact Hu|]. split; [exact Ht|].
  split; [exact Ho|exact Hc].
Defined.

(** The checksums of the registered identifiers differ in their first 32 digits. *)
Lemma fake_tool_names : distinct_tool_names episode_capabilities.
Proof.
  assert (Forall (λ id, Forall (λ id', String.substring 0 32 (sha256_hex (as_str id))
      = String.substring 0 32 (sha256_hex (as_str id')) → id = id')
    (elements (dom (snap_metadata episode_capabilities)))) (elements (dom (snap_metadata episode_capabilities)))) as Hall.
  { apply (bool_decide_unpack _). by vm_compute. }
  intros prefix id id' Hid Hid' Heq. rewrite <- elem_of_elements in Hid, Hid'. rewrite Forall_forall in Hall.
  specialize (Hall _ Hid). rewrite Forall_forall in Hall. apply (Hall _ Hid').
  by do 2 apply (inj (String.append _)) in Heq.
Qed.

Lemma tool_calls_stay_within_authority_witness :
  ∃ r, fake_registry = Ok r
    ∧ ToolDispatcher_decode (λ _, Ok intent_spec) (from_snapshots (snapshot r) false) mutate_call
      = Ret (Decoded_Action (Command_Mutation "call-2" fake_capability (set_a "new") "try")).
Proof.
  pose proof fake_tool_names as Hnames. unfold episode_capabilities in Hnames.
  destruct fake_registry_built as (r & Hr & H). exists r. split; [exact Hr|]. rewrite Hr in Hnames.
  apply (proj2 (proj2 (tool_calls_stay_within_authority (λ _, Ok intent_spec) r false mutate_call
    (proj1 (registry_ok_reachable AdminPolicy_default r H)))) Hnames).
  apply (decodes_mutation _ _ _ mutate_call fake_capability (set_a "new") "try").
  - assert (snapshot_meta episode_capabilities fake_capability ≫= (λ m, Some (kind m)) = Some Mutation) as Hk
      by by vm_compute.
    unfold episode_capabilities in Hk. rewrite Hr in Hk.
    destruct (snapshot_meta (snapshot r) fake_capability) as [meta|] eqn:Hm; [|discriminate Hk].
    exists meta. split; [exact Hm|]. split; [injection Hk as Hk; exact Hk|reflexivity].
  - by vm_compute.
  - split; by vm_compute.
Defined.

Definition fake_skill_session : SkillSession :=
  MkSkillSession fake_skills {["tuning"]} {["tuning"]} ∅ fake_config.

Lemma skill_sessions_stay_within_limits_witness :
  result_ok (execution_result
    (skill_execute (LoadReference "tuning" "references/notes.md") begin_call fake_skill_session).1) = true.
Proof.
  assert (SkillSession_new fake_skills fake_config ["tuning"] = Ok fake_skill_session) as Hs by by vm_compute.
  assert (0 <= max_reference_reads fake_config) as Hmax by done.
  apply (skill_sessions_stay_within_limits fake_skills fake_config ["tuning"] fake_skill_session []
    (LoadReference "tuning" "references/notes.md") begin_call Hmax Hs).
  split; [by vm_compute|]. split; [by vm_compute|]. exists skill. split; [by vm_compute|].
  exists notes. by vm_compute.
Defined.
