(* ===== verification/DaemonWitnesses.v ===== *)
(** * A run of the daemon, and one where it should have stopped

    The timer starts the episode of [RunWitnesses.v] and the daemon cools down after
    the commit.  Then a host whose readbacks fail: the episode cannot be rolled
    back, its last audit record is lost, and the daemon takes the next request. *)

From S2P Require Import Cli DaemonSafety EvalScenario RunWitnesses.

Open Scope Z_scope.

#[export] Instance event_ToValue : ToValue ActivationEvent := λ e, Ok (JString (event_type e)).
#[export] Instance response_Serialize : Serialize ActivationResponse := λ r, Ok (response_request_id r).

(** No client ever connects. *)
#[export] Instance silent_sockets : UnixSockets FakeWorld := {
  socket_accept w := (Err (MkIoError WouldBlock "no connection"), w);
  set_read_timeout _ w := (true, w);
  read_chunk _ w := (Ok "", w);
  write_all _ _ w := (Ok tt, w);
  shutdown_write _ w := (Ok tt, w);
}.

Definition daemon_config : Config :=
  {| llm := LlmConfig_default; reasoning := MkReasoningConfig 6; safety := MkSafetyConfig 1000 30000;
     activation_config := MkActivationConfig "/tmp/tuning-agent.sock" (Some 1000);
     audit_config := AuditConfig_default; transaction_config := TransactionConfig_default;
     skills_config := fake_config; capabilities_config := CapabilityConfig_default; mcp := McpConfig_default |}.

Lemma daemon_config_ok : config_valid daemon_config.
Proof. apply Config_validate_Ok. by vm_compute. Qed.

Definition new_runtime (w : FakeWorld) : Runtime (W := FakeWorld) (T := MemoryWal) :=
  MkRuntime daemon_config ActivationKernel_default episode_capabilities fake_skills 0 w [].
Definition no_request (v : Value) : result string ActivationRequest := Err "no request".
Definition no_event (v : Value) : result string ActivationEvent := Err "no event".
Definition new_reasoner (c : LlmConfig) (w : FakeWorld) : result string unit * FakeWorld := (Ok tt, w).

Definition fake_daemon := run_daemon (T := MemoryWal) (λ _, Ok intent_spec) (λ _, Err "no value") no_request
  no_event new_reasoner 1 (new_runtime quiet_world).

Definition event_name (e : DaemonEvent (W := FakeWorld) (T := MemoryWal)) : string :=
  match e with
  | Daemon_Refused _ _ _ => "refused" | Daemon_Accepted _ _ => "accepted"
  | Daemon_Episode _ (Ret o) _ => EpisodePhase_name (outcome_phase o)
  | Daemon_Episode _ _ x => "failed in " +:+ EpisodePhase_name (es_phase (ses_state x))
  | Daemon_Frozen => "frozen" | Daemon_Cooling _ => "cooling"
  end.

Example fake_daemon_commits : event_name <$> rt_history fake_daemon.2 = ["cooling"; "committed"; "accepted"].
Proof. by vm_compute. Qed.

Lemma daemon_serves_safely_witness :
  daemon_history_ok daemon_config episode_capabilities fake_skills (rt_history fake_daemon.2)
  ∧ length (rt_history fake_daemon.2) = 3%nat.
Proof.
  destruct (daemon_serves_safely (T := MemoryWal) (λ _, Ok intent_spec) (λ _, Err "no value") no_request no_event
    new_reasoner daemon_config episode_capabilities fake_skills daemon_config_ok) with (n := 1%nat) (w := quiet_world)
    as (r & s' & Hrun & _ & Hh & _).
  - vm_compute. split; discriminate.
  - exact episode_capabilities_spec.
  - exact fake_registry_ids.
  - exact (λ e, ex_intro _ (evidence_json e) eq_refl).
  - exact (λ e _, ex_intro _ (JString (event_type e)) eq_refl).
  - intros w. vm_compute. split; discriminate.
  - intros v r Hv. discriminate.
  - intros v e Hv. discriminate.
  - intros w. vm_compute. discriminate.
  - intros ms [= <-]. vm_compute. discriminate.
  - assert (fake_daemon = (r, s')) as Hd by exact Hrun.
    split; [rewrite Hd; exact Hh|]. rewrite <- (length_fmap event_name), fake_daemon_commits. reflexivity.
Defined.

(** ** A lost record *)

(** The audit log refuses the last record of an episode, and nothing else. *)
Definition full_disk : AuditSink FakeWorld := {|
  now_ns w := (0, w);
  audit_record r w := (if bool_decide (record_event_name r = "episode_finished") then Err "disk full" else Ok tt, w);
|}.

(** Every readback of a resource fails. *)
Definition unreadable_world : FakeWorld :=
  MkFakeWorld (current quiet_world) ∅ false (replicate 100 true).

Definition wake (type : string) : ActivationRequest :=
  ActivationRequest_new type false (MkActivationEvent Source_Cli type Info Scope_Host 0 JNull).

Definition serve (request : ActivationRequest) (s : Runtime) :=
  process_activation_request (T := MemoryWal) (AuditSink0 := full_disk) (λ _, Ok intent_spec) new_reasoner request s.

Definition after_first := serve (wake "first") (new_runtime unreadable_world).
Definition after_second := serve (wake "second") after_first.2.

(** When the transaction of an episode cannot be rolled back and the audit record
    that ends the episode is lost as well, the coordinator fails instead of
    reporting [RecoveryRequired]; the daemon then sleeps where it means to freeze,
    and accepts the next request on the unrecovered host. *)
Theorem lost_record_keeps_the_daemon_awake :
  activation_state (rt_activation after_first.2) = Sleeping
  ∧ match rt_history after_second.2 with
    | [Daemon_Episode _ _ _; Daemon_Accepted _ _; Daemon_Episode _ (Throw _) x; Daemon_Accepted _ _] =>
      es_phase (ses_state x) = RecoveryRequired
    | _ => False
    end.
Proof. split; vm_compute; reflexivity. Qed.

(** ** A command line *)

Definition load_warning : ActivationEvent :=
  MkActivationEvent (Source_Program "monitor") "high-load" Warning (Scope_Cgroup "/web") 0 JNull.

Lemma activations_round_trip_witness :
  parse_args (["--config"; "agent.toml"] ++ activate_arguments load_warning true false 30 ["tuning"]) 7
  = MkArgs (Some "agent.toml")
      (Cli_Activate (ActivationEvent_new (Source_Program "monitor") "high-load" Warning (Scope_Cgroup "/web") 7)
         true false (30 * 10 ^ 9) ["tuning"]).
Proof.
  apply (activations_round_trip load_warning true false 30 ["tuning"] (Some "agent.toml") 7).
  - unfold writable, flag_names. simpl. set_solver.
  - vm_compute. split; [reflexivity|discriminate].
Defined.
