(* ===== verification/CommitSafety.v ===== *)
(** * Crash safety and commits of transactions

    The theorems about runs with crashes: every crash point of every run can be
    recovered, nothing panics, driver calls follow their durable intents, a sealed
    transaction accepts no more work.  Then what commits and rollbacks rest on: the
    commit gate, the readbacks, and which sealed logs recovery accepts. *)

From S2P Require Export Scenario.

Section Statements.
Context `{J : Json, !Serialize Value, !Serialize (list ChangeId), !Sha256}.
Context {W T : Type} `{!TransactionWal T, !WalLaws T}.
Implicit Types (s : Sys W T) (k : TransactionKernel W T).

(** [w] is what a crash of [s] can leave of its log. *)
Record crash_log s (w : T) : Prop := {
  crash_ok : wal_ok w;
  crash_prefix : durable w `prefix_of` durable (wal (kernel s));
  crash_started : durable w ≠ [];
  crash_length : (Z.of_nat (length (durable w)) ≤ u64_max)%Z;
}.

Definition unsealed_log (w : T) : Prop := Forall (λ e, is_seal e = false) (durable w).

Definition recover_from s (w : T) : outcome TransactionError (TransactionKernel W T) :=
  recover (transaction_id (kernel s)) (intent_pin (kernel s)) (capabilities (kernel s)) w.

(** A recovered record: the last logged one, or that one with an unknown outcome. *)
Definition logged_record (es : list WalEntry) (id : ChangeId) (c : ChangeRecord) : Prop :=
  ∃ e d, e ∈ es ∧ event e = ChangeUpsert d ∧ cr_change_id d = id ∧ same_identity c d
    ∧ (cr_state c = cr_state d ∨ cr_state c = AppliedUnknown) ∧ cr_state c ≠ IntentDurable.
Definition recovered_record (w : T) : ChangeId → ChangeRecord → Prop := logged_record (durable w).
End Statements.

Section CrashSafety.
Context `{J : Json, !Serialize Value, !Serialize (list ChangeId), !Sha256}.
Context {W T : Type} `{!TransactionWal T, !WalLaws T, !EncodesIds, !Sha256Laws}.
Implicit Types (s : Sys W T) (k : TransactionKernel W T) (c d : ChangeRecord).

Lemma prefix_good s es :
  reachable s → es `prefix_of` durable (wal (kernel s)) → es ≠ [] →
  (∃ r, good_log (transaction_id (kernel s)) (intent_pin (kernel s)) (capabilities (kernel s)) es r)
  ∨ closed s ∧ es = durable (wal (kernel s)).
Proof.
  intros Hs Hp Hne. destruct (reachable_invariant s Hs) as [[r [Hlog _]]|Hc].
  - left. eapply good_log_prefix; [apply Hlog|done|done].
  - destruct (closed_crash _ _ Hc Hp Hne); auto.
Qed.

Lemma unsealed_good s es :
  reachable s → es `prefix_of` durable (wal (kernel s)) → es ≠ [] → Forall (λ e, is_seal e = false) es →
  ∃ r, good_log (transaction_id (kernel s)) (intent_pin (kernel s)) (capabilities (kernel s)) es r.
Proof.
  intros Hs Hp Hne Hu. destruct (prefix_good s es Hs Hp Hne) as [Hg|[[_ _ (es' & e & r & Hd & He & _) _] ->]];
    [done|].
  rewrite Hd in Hu. apply Forall_app in Hu as [_ Hu]. apply Forall_cons in Hu as [Hu _]. congruence.
Qed.

Lemma crash_good s w :
  reachable s → crash_log s w →
  (∃ r, good_log (transaction_id (kernel s)) (intent_pin (kernel s)) (capabilities (kernel s))
          (durable w) r) ∨ closed s ∧ durable w = durable (wal (kernel s)).
Proof. intros Hs [_ Hp Hne _]. by apply prefix_good. Qed.

Lemma crash_unsealed_good s w :
  reachable s → crash_log s w → unsealed_log w →
  ∃ r, good_log (transaction_id (kernel s)) (intent_pin (kernel s)) (capabilities (kernel s))
         (durable w) r.
Proof. intros Hs [_ Hp Hne _] Hu. by apply unsealed_good. Qed.

Lemma settled_record r id c (tid : TransactionId) pin (caps : CapabilitySnapshot W) es :
  good_log tid pin caps es r → settled_changes r !! id = Some c → logged_record es id c.
Proof.
  intros Hg Hc. pose proof (settled_changes_tracks r id) as Ht. rewrite Hc in Ht.
  inversion Ht as [c' d [Hi _ Hs] Hcc Hd|]; subst.
  destruct (good_log_upserted _ _ _ _ _ _ _ Hg (eq_sym Hd)) as (e & He & Hev & Hid).
  exists e, d. split_and!; try done. rewrite settled_changes_lookup in Hc.
  apply fmap_Some in Hc as (x & _ & ->). unfold mark_unapplied. by case_bool_decide.
Qed.


(** C28. No client operation panics in any reachable state, and [recover] does not
    panic on any log a crash can leave, sealed ones included. *)
Theorem nothing_panics s w op :
  reachable s → crash_log s w → (perform op s).1 ≠ Panic ∧ recover_from s w ≠ Panic.
Proof.
  intros Hs Hc. split.
  - destruct (reachable_invariant s Hs) as [Hg|Hcl].
    + by eapply wp_no_panic, wp_perform.
    + destruct (closed_rejects op s Hcl) as (e & -> & _). done.
  - destruct (crash_good s w Hs Hc) as [[r Hg]|[[_ _ (es & e & r & Hd & He & Hg & Ht & Hq) _] Hw]].
    + destruct (recover_good _ _ _ w r (world s) (crash_ok _ _ Hc) Hg (crash_length _ _ Hc))
        as (k & Hk & _). unfold recover_from. by rewrite Hk.
    + rewrite <- Hw in Hd.
      pose proof (recover_sealed _ _ _ w es e r (world s) (crash_ok _ _ Hc) Hd He Hg Ht Hq
        (crash_length _ _ Hc)) as Hr.
      intros Hp. unfold recover_from in Hp. by rewrite Hp in Hr.
Qed.

(** C25. Write-ahead: in every reachable state, each apply, restore and finalize
    call of the process so far was made immediately after the log durably
    acknowledged its intent, under the same operation id and for the prepared
    mutation of a logged change. *)
Theorem effects_are_announced s :
  reachable s → write_ahead (durable (wal (kernel s))) (trace s).
Proof.
  intros Hs. destruct (reachable_invariant s Hs) as [[r [Hlog _]]|Hc]; [apply Hlog|apply Hc].
Qed.

(** C26. Recovering the whole log of an open transaction gives back the kernel that
    crashed: the same changes in the same order, the same latest change of each
    resource, the same experiment evidence, and for each change the same state
    unless one of the two sides says that the outcome is unknown. *)
Theorem recovery_reproduces_the_kernel s w :
  reachable s → sealed (kernel s) = None → crash_log s w → durable w = durable (wal (kernel s)) →
  ∃ k, recover_from s w = Ret k ∧ change_order k = change_order (kernel s)
    ∧ resource_heads k = resource_heads (kernel s)
    ∧ ∀ id c, changes (kernel s) !! id = Some c → ∃ d, changes k !! id = Some d
        ∧ same_identity c d ∧ cr_experiment_verified d = cr_experiment_verified c
        ∧ (cr_state c = cr_state d ∨ cr_state c = AppliedUnknown ∨ cr_state d = AppliedUnknown).
Proof.
  intros Hs Hopen Hc Hd. destruct (reachable_invariant s Hs) as [[r [Hlog Hag]]|[_ [o Ho] _ _]]; [|congruence].
  pose proof (lg_log _ _ Hlog) as Hg. rewrite <- Hd in Hg.
  destruct (recover_good _ _ _ w r (world s) (crash_ok _ _ Hc) Hg (crash_length _ _ Hc))
    as (k & Hk & [_ Hagk] & _). simpl in Hagk.
  exists k. split_and!; [done| | |].
  - by rewrite (ag_order _ _ Hagk), (ag_order _ _ Hag).
  - by rewrite (ag_heads _ _ Hagk), (ag_heads _ _ Hag).
  - intros id c Hcc. destruct (agrees_lookup _ _ _ _ Hag Hcc) as (x & Hx & [Hi Hv Hst]).
    pose proof (ag_changes _ _ Hagk id) as Hkx. rewrite Hx in Hkx.
    inversion Hkx as [d x' [Hi' Hv' Hst'] Hdd Hxx|]; subst. exists d. split_and!; [done| |congruence|].
    + etrans; [exact Hi|by symmetry].
    + destruct Hst as [Hst|Hst]; [|by auto]. destruct Hst' as [Hst'|Hst']; [left; congruence|by auto].
Qed.

(** A sealed transaction is final: every client operation fails with the
    kind [Sealed] and changes nothing, neither the kernel nor the log nor the
    outside world. *)
Theorem sealed_transactions_are_final s op :
  reachable s → is_Some (sealed (kernel s)) →
  ∃ e, perform op s = (Throw e, s) ∧ error_kind e = E_Sealed.
Proof.
  intros Hs [o Ho]. destruct (reachable_invariant s Hs) as [Hg|Hc]; [|by apply closed_rejects].
  rewrite (good_open _ Hg) in Ho. done.
Qed.

(** A transaction never holds more than 64 changes, and its bookkeeping is
    consistent in every reachable open state: the order lists each change once,
    and the latest change of a resource is a known change of that resource. *)
Theorem bookkeeping_is_consistent s :
  reachable s → sealed (kernel s) = None →
  NoDup (change_order (kernel s))
  ∧ (∀ id, id ∈ change_order (kernel s) ↔ is_Some (changes (kernel s) !! id))
  ∧ length (change_order (kernel s)) ≤ MAX_CHANGES_PER_TRANSACTION
  ∧ (∀ res id, resource_heads (kernel s) !! res = Some id →
       ∃ c, changes (kernel s) !! id = Some c ∧ cr_resource c = res)
  ∧ ∀ id c, changes (kernel s) !! id = Some c →
      cr_change_id c = id ∧ baseline (cr_prepared c) ≠ desired (cr_prepared c).
Proof.
  intros Hs Hopen. destruct (reachable_invariant s Hs) as [Hg|[_ [o Ho] _ _]]; [|congruence].
  destruct (good_size _ Hg) as [Hlen Hmax]. split_and!.
  - by apply good_nodup.
  - intros id. split; [by apply good_known|by apply good_ordered].
  - lia.
  - intros res id. by apply good_head.
  - intros id c Hc. destruct (good_record _ _ _ Hg Hc) as (Hid & Hval & _). split; [done|apply Hval].
Qed.
End CrashSafety.

(** ** Witnesses *)

(** The log a crash during the replay of the candidate leaves: the apply intent
    is durable, its result is not. *)
Definition log_at (n : nat) : MemoryWal :=
  MkMemoryWal (take n (mem_entries (wal (kernel replayed_a)))) false None.

Lemma nonempty_by_length {A} (l : list A) n : length l = S n → l ≠ [].
Proof. by destruct l. Qed.

Lemma log_at_6_crash : crash_log replayed_a (log_at 6).
Proof.
  split.
  - exact I.
  - exists (drop 6 (mem_entries (wal (kernel replayed_a)))). symmetry. apply take_drop.
  - apply (nonempty_by_length _ 5). vm_compute. reflexivity.
  - vm_compute. discriminate.
Qed.

Lemma forallb_Forall {A} (f : A → bool) l : forallb f l = true → Forall (λ x, f x = true) l.
Proof. induction l as [|x l IH]; simpl; [done|]. intros [? ?]%andb_true_iff. constructor; auto. Qed.

Lemma log_at_6_unsealed : unsealed_log (log_at 6).
Proof.
  eapply Forall_impl; [apply (forallb_Forall (λ e, negb (is_seal e)))|intros e; apply negb_true_iff].
  vm_compute. reflexivity.
Qed.


Lemma nothing_panics_witness :
  reachable replayed_a ∧ crash_log replayed_a (log_at 6)
  ∧ (perform Op_rollback_all replayed_a).1 ≠ Panic ∧ recover_from replayed_a (log_at 6) ≠ Panic.
Proof.
  split; [exact replayed_a_reachable|]. split; [exact log_at_6_crash|].
  exact (nothing_panics replayed_a (log_at 6) Op_rollback_all replayed_a_reachable log_at_6_crash).
Defined.

Lemma effects_are_announced_witness :
  reachable committed_a ∧ length (trace committed_a) = 23
  ∧ write_ahead (durable (wal (kernel committed_a))) (trace committed_a).
Proof.
  split; [exact committed_a_reachable|]. split; [vm_compute; reflexivity|].
  exact (effects_are_announced committed_a committed_a_reachable).
Defined.

Lemma whole_log_crash : crash_log replayed_a (wal (kernel replayed_a)).
Proof.
  split.
  - exact I.
  - exists []. symmetry. apply app_nil_r.
  - apply (nonempty_by_length _ 6). vm_compute. reflexivity.
  - vm_compute. discriminate.
Qed.

Lemma recovery_reproduces_the_kernel_witness :
  reachable replayed_a ∧ sealed (kernel replayed_a) = None
  ∧ crash_log replayed_a (wal (kernel replayed_a))
  ∧ ∃ k, recover_from replayed_a (wal (kernel replayed_a)) = Ret k
      ∧ change_order k = change_order (kernel replayed_a)
      ∧ resource_heads k = resource_heads (kernel replayed_a)
      ∧ ∀ id c, changes (kernel replayed_a) !! id = Some c → ∃ d, changes k !! id = Some d
          ∧ same_identity c d ∧ cr_experiment_verified d = cr_experiment_verified c
          ∧ (cr_state c = cr_state d ∨ cr_state c = AppliedUnknown ∨ cr_state d = AppliedUnknown).
Proof.
  split; [exact replayed_a_reachable|]. split; [vm_compute; reflexivity|].
  split; [exact whole_log_crash|].
  apply (recovery_reproduces_the_kernel replayed_a (wal (kernel replayed_a)) replayed_a_reachable).
  - vm_compute. reflexivity.
  - exact whole_log_crash.
  - reflexivity.
Defined.

Lemma sealed_transactions_are_final_witness :
  reachable committed_a ∧ sealed (kernel committed_a) = Some Seal_Committed
  ∧ ∃ e, perform Op_rollback_all committed_a = (Throw e, committed_a) ∧ error_kind e = E_Sealed.
Proof.
  split; [exact committed_a_reachable|]. split; [vm_compute; reflexivity|].
  apply (sealed_transactions_are_final committed_a Op_rollback_all committed_a_reachable).
  exists Seal_Committed. vm_compute. reflexivity.
Defined.

Lemma bookkeeping_is_consistent_witness :
  reachable replayed_a ∧ sealed (kernel replayed_a) = None
  ∧ change_order (kernel replayed_a) = [change_a]
  ∧ length (change_order (kernel replayed_a)) ≤ MAX_CHANGES_PER_TRANSACTION.
Proof.
  assert (sealed (kernel replayed_a) = None) as Hopen by (vm_compute; reflexivity).
  split; [exact replayed_a_reachable|]. split; [exact Hopen|]. split; [vm_compute; reflexivity|].
  exact (proj1 (proj2 (proj2 (bookkeeping_is_consistent replayed_a replayed_a_reachable Hopen)))).
Defined.

(** * Commit and rollback

    What a client operation that returns guarantees, about the kernel, the log and
    the readbacks; which sealed logs recovery accepts; and two runs in which the
    kernel seals a log that recovery refuses. *)

Section CommitSafety.
Context `{J : Json, !Serialize Value, !Serialize (list ChangeId), !Sha256}.
Context {W T : Type} `{!TransactionWal T, !WalLaws T, !EncodesIds, !Sha256Laws}.
Implicit Types (s : Sys W T) (k : TransactionKernel W T) (c d : ChangeRecord) (cand : Candidate).

(** A run of an operation from a reachable open state meets its specification. *)
Lemma returned {A} s (m : M (Sys W T) TransactionError A) Q R a s' :
  reachable s → (closed s → ∃ e, m s = (Throw e, s)) → (good s → wp m Q R s) →
  m s = (Ret a, s') → good s ∧ Q a s'.
Proof.
  intros Hs Hcl Hwp Hm. destruct (reachable_invariant s Hs) as [Hg|Hc].
  - split; [done|]. by eapply wp_elim_ret; [apply Hwp|].
  - destruct (Hcl Hc) as [e He]. congruence.
Qed.

Lemma closed_throws {A} s (f : unit → M (Sys W T) TransactionError A) :
  closed s → ∃ e, (ensure_open ≫= f) s = (Throw e, s).
Proof.
  intros Hc. destruct (cl_sealed _ Hc) as [o Ho].
  unfold ensure_open, mbind, M_bind, gets. rewrite Ho. by eexists.
Qed.

Lemma last_entry (es : list WalEntry) e : last (es ++ [e]) = Some e.
Proof. apply last_snoc. Qed.

(** C23. Commit gate: [finalize_candidate] returns only when the authorization
    carries the intent pin of the transaction and the digest of the candidate,
    the candidate is the one that was replayed, and every change of it was
    verified by an experiment, is the latest of its resource and was acknowledged
    by its provider with a finalized receipt.  The log then ends with the commit
    record, which finalizes exactly the changes of the candidate and rolls back
    all the others, in the order of the changes. *)
Theorem commit_gate cand auth s l s' :
  reachable s → finalize_candidate cand auth s = (Ret l, s') →
  auth_intent_pin auth = intent_pin (kernel s)
  ∧ auth_candidate_digest auth = candidate_digest cand
  ∧ active_candidate (kernel s) = Some cand
  ∧ Forall (selectable (kernel s)) (change_ids cand) ∧ NoDup (change_ids cand)
  ∧ sealed (kernel s') = Some Seal_Committed ∧ commit_authorization (kernel s') = Some auth
  ∧ ∃ n ts, last (durable (wal (kernel s')))
              = Some (MkWalEntry n (transaction_id (kernel s)) (CommitSealed auth ts))
      ∧ cr_change_id <$> ts = change_order (kernel s)
      ∧ ∀ t, t ∈ ts →
          if candidate_contains cand (cr_change_id t)
          then cr_state t = Finalized ∧ acknowledged t else cr_state t = RolledBack.
Proof.
  intros Hs Hm.
  destruct (returned s _ _ _ l s' Hs (closed_throws s _) (wp_finalize_candidate cand auth s) Hm)
    as [Hg [[s1 Hco] _]].
  pose proof (co_good _ _ _ _ _ Hco) as Hg1. pose proof (co_touches _ _ _ _ _ Hco) as Ht.
  split_and!; try apply Hco.
  exists (next_sequence (kernel s1)), (terminals cand s1). split_and!.
  - rewrite (co_log _ _ _ _ _ Hco), last_entry. unfold commit_entry, new_entry.
    by rewrite (to_transaction _ _ _ Ht).
  - rewrite terminals_ids by done. apply Ht.
  - intros t Hin. pose proof (terminals_Forall2 cand s1 Hg1) as HF.
    apply list_elem_of_lookup in Hin as [i Hi].
    destruct (Forall2_lookup_r _ _ _ _ _ HF Hi) as (id & Hid & c & Hc & ->).
    pose proof (good_id _ _ _ Hg1 Hc) as Hcid. unfold terminal_of. simpl. rewrite Hcid.
    destruct (candidate_contains cand id) eqn:Hcont; [|done]. split; [done|].
    apply bool_decide_eq_true in Hcont. destruct (co_acked _ _ _ _ _ Hco id Hcont) as (c' & Hc' & _ & Ha).
    rewrite Hc in Hc'. by injection Hc' as <-.
Qed.

(** Between the last acknowledgement and the durable commit decision there is
    nothing but matched readbacks: the resource of every change that is the
    latest of its resource was read back at the value the commit gives it, the
    desired one for the changes of the candidate and the baseline for the others. *)
Theorem commit_follows_readbacks cand auth s l s' :
  reachable s → finalize_candidate cand auth s = (Ret l, s') →
  ∃ entry checks before, trace s' = Ev_Durable entry :: checks ++ before
    ∧ last (durable (wal (kernel s'))) = Some entry
    ∧ Forall is_match checks
    ∧ ∀ id c, id ∈ change_order (kernel s) → changes (kernel s) !! id = Some c →
        resource_heads (kernel s) !! cr_resource c = Some id →
        ∃ q, Ev_Verify q true ∈ checks ∧ at_target cand id c q.
Proof.
  intros Hs Hm.
  destruct (returned s _ _ _ l s' Hs (closed_throws s _) (wp_finalize_candidate cand auth s) Hm)
    as [Hg [[s1 Hco] _]].
  pose proof (co_touches _ _ _ _ _ Hco) as Ht.
  destruct (co_checks _ _ _ _ _ Hco) as (checks & rest & Htr & Hall & Hids).
  exists (commit_entry s1 auth cand), checks, (rest ++ trace s). split_and!.
  - by rewrite (co_trace _ _ _ _ _ Hco), Htr.
  - by rewrite (co_log _ _ _ _ _ Hco), last_entry.
  - done.
  - intros id c Hid Hc Hh. destruct (touches_change _ _ _ _ _ Ht Hc) as (c' & Hc' & [Hi _]).
    destruct (Hids id c' Hid Hc') as (q & Hq & Hp & He).
    { by rewrite (to_heads _ _ _ Ht), <- (si_resource _ _ Hi). }
    exists q. split; [done|]. unfold at_target. rewrite (si_prepared _ _ Hi). split; [done|].
    rewrite He. destruct (candidate_contains cand id); simpl; by rewrite (si_prepared _ _ Hi).
Qed.

Lemma committed_recovers cand auth s l1 s1 l2 s2 l3 s3 w :
  reachable s → settled s →
  restore_baseline s = (Ret l1, s1) → replay_candidate cand s1 = (Ret l2, s2) →
  finalize_candidate cand auth s2 = (Ret l3, s3) →
  Candidate_new (change_ids cand) = Ok cand → canonical cand s →
  wal_ok w → durable w = durable (wal (kernel s3)) → (Z.of_nat (length (durable w)) ≤ u64_max)%Z →
  ∃ k, recover_from s3 w = Ret k ∧ sealed k = Some Seal_Committed
    ∧ commit_authorization k = Some auth
    ∧ changes k = changes (kernel s3) ∧ change_order k = change_order (kernel s3)
    ∧ log_pending (durable (wal (kernel s3))) = ∅.
Proof.
  intros Hs Hset Hm1 Hm2 Hm3 Hnew Hcanon Hw Hd Hlen.
  destruct (returned s _ _ _ l1 s1 Hs (closed_throws s _) (wp_restore_baseline s) Hm1)
    as [Hg (Hg1 & Hx1 & [Ho1 Hh1] & Hset1 & _ & Hres & _)].
  pose proof (wp_elim_ret _ _ _ _ _ _ (wp_replay_candidate cand s1 Hg1) Hm2)
    as (Hg2 & Hx2 & [Ho2 Hh2] & Hset2 & _ & _ & _ & Hrep & _).
  pose proof (wp_elim_ret _ _ _ _ _ _ (wp_finalize_candidate cand auth s2 Hg2) Hm3)
    as [(s2' & Hco) _].
  assert (settled s2) as Hs2 by auto.
  destruct (recover_committed cand auth s2 s2' s3 w Hco) as (k & Hk & Hsk & Hau & Hch & Ho); try done.
  - unfold canonical. by rewrite Ho2, Ho1.
  - intros id c Hni Hc. destruct (Hrep id) as (c' & Hc' & _ & Hst).
    { rewrite <- Ho2. apply good_ordered; [done|by exists c]. }
    rewrite Hc in Hc'. injection Hc' as <-. unfold candidate_contains in Hst.
    by rewrite bool_decide_eq_false_2 in Hst.
  - exists k. split_and!; try done. change (pending s3 = ∅).
    rewrite (pending_seal _ _ _ (co_log _ _ _ _ _ Hco) eq_refl).
    by apply (co_settled _ _ _ _ _ Hco).
Qed.

(** C27. The commit protocol of the coordinator, from a state with no operation left
    without a result: restore the baseline, replay a candidate listed in the
    order of the changes, finalize it.  When the three operations return, a
    crash after them is recovered as the same committed transaction: the same
    records, under the same authorization. *)
Theorem clean_commit_recovers cand auth s l1 s1 l2 s2 l3 s3 w :
  reachable s → settled s →
  restore_baseline s = (Ret l1, s1) → replay_candidate cand s1 = (Ret l2, s2) →
  finalize_candidate cand auth s2 = (Ret l3, s3) →
  Candidate_new (change_ids cand) = Ok cand → canonical cand s →
  wal_ok w → durable w = durable (wal (kernel s3)) → (Z.of_nat (length (durable w)) ≤ u64_max)%Z →
  ∃ k, recover_from s3 w = Ret k ∧ sealed k = Some Seal_Committed
    ∧ commit_authorization k = Some auth
    ∧ changes k = changes (kernel s3) ∧ change_order k = change_order (kernel s3).
Proof.
  intros Hs Hset Hm1 Hm2 Hm3 Hnew Hcanon Hw Hd Hlen.
  destruct (committed_recovers cand auth s l1 s1 l2 s2 l3 s3 w) as (k & Hk); try done.
  exists k. naive_solver.
Qed.

(** C24. [rollback_all] returns only with every change of the transaction rolled
    back, its resource read back at the baseline during the rollback, and the
    rollback seal durable as the last entry of the log. *)
Theorem rollback_restores_every_change s l s' :
  reachable s → rollback_all s = (Ret l, s') →
  sealed (kernel s') = Some Seal_RolledBack
  ∧ change_order (kernel s') = change_order (kernel s)
  ∧ (∀ id, id ∈ change_order (kernel s) → ∃ c, changes (kernel s') !! id = Some c
       ∧ cr_state c = RolledBack ∧ verified_since Expect_Baseline c s s')
  ∧ ∃ n, last (durable (wal (kernel s')))
           = Some (MkWalEntry n (transaction_id (kernel s)) (Sealed Seal_RolledBack)).
Proof.
  intros Hs Hm.
  destruct (returned s _ _ _ l s' Hs (closed_throws s _) (wp_rollback_all s) Hm)
    as [Hg [(_ & Hsealed & Hx & [Ho _] & Hres & s1 & _ & Hx1 & _ & _ & Hd) _]].
  split_and!; try done. exists (next_sequence (kernel s1)). rewrite Hd, last_entry.
  unfold new_entry. by rewrite (ex_transaction _ _ Hx1).
Qed.

(** C29. The log of a completed rollback is accepted by [recover], as the same
    transaction rolled back with every change rolled back, exactly when it leaves
    no apply or restore intent without a result; otherwise recovery refuses it as
    corrupt. *)
Theorem rollback_recoverable_iff s l s' w :
  reachable s → rollback_all s = (Ret l, s') →
  wal_ok w → durable w = durable (wal (kernel s')) → (Z.of_nat (length (durable w)) ≤ u64_max)%Z →
  (¬ unanswered s' → ∃ k, recover_from s' w = Ret k ∧ sealed k = Some Seal_RolledBack
     ∧ change_order k = change_order (kernel s')
     ∧ ∀ id c, changes k !! id = Some c → cr_state c = RolledBack)
  ∧ (unanswered s' → ∃ e, recover_from s' w = Throw e ∧ error_kind e = E_CorruptWal).
Proof.
  intros Hs Hm Hw Hd Hlen.
  destruct (returned s _ _ _ l s' Hs (closed_throws s _) (wp_rollback_all s) Hm) as [Hg [Hrb _]].
  destruct (recover_rolled_back s s' w Hrb Hw Hd Hlen) as [Hbad Hgood]. by split.
Qed.

(** A rollback from a state with no operation left without a result is always
    recovered as rolled back. *)
Theorem settled_rollback_recovers s l s' w :
  reachable s → settled s → rollback_all s = (Ret l, s') →
  wal_ok w → durable w = durable (wal (kernel s')) → (Z.of_nat (length (durable w)) ≤ u64_max)%Z →
  ∃ k, recover_from s' w = Ret k ∧ sealed k = Some Seal_RolledBack.
Proof.
  intros Hs Hset Hm Hw Hd Hlen.
  destruct (returned s _ _ _ l s' Hs (closed_throws s _) (wp_rollback_all s) Hm) as [Hg [Hrb _]].
  destruct (recover_rolled_back s s' w Hrb Hw Hd Hlen) as [_ Hgood].
  destruct Hrb as (_ & _ & _ & _ & _ & s1 & _ & _ & Hset1 & _ & Hlog).
  destruct Hgood as (k & Hk & Hsk & _); [|by exists k].
  intros (id & op & kd & Hp & _). rewrite (pending_seal _ _ _ Hlog eq_refl), (Hset1 Hset) in Hp.
  by rewrite lookup_empty in Hp.
Qed.

(** A successful [experiment] adds exactly one change, at the end of the order
    and as the latest of its resource, applied, verified and read back at its
    desired value; it supersedes the previous latest change of the resource,
    which was applied and is now restored, under the same baseline.  Every other
    record is unchanged, and no operation is left without a result that was not
    so before. *)
Theorem experiment_adds_a_verified_change s cid cap args c s' :
  reachable s → experiment cid cap args s = (Ret c, s') →
  experimented cid cap c s s'.
Proof.
  intros Hs Hm.
  destruct (returned s _ _ _ c s' Hs (closed_throws s _) (wp_experiment s cid cap args) Hm)
    as [Hg (_ & _ & Hxp)].
  exact Hxp.
Qed.

(** A successful [restore_baseline] leaves every change restored and read back at
    its baseline, no active candidate, and the plan of the transaction as it was;
    it returns the records in order. *)
Theorem restore_baseline_restores s l s' :
  reachable s → restore_baseline s = (Ret l, s') →
  change_order (kernel s') = change_order (kernel s)
  ∧ resource_heads (kernel s') = resource_heads (kernel s)
  ∧ active_candidate (kernel s') = None
  ∧ l = changes_in_order (kernel s')
  ∧ ∀ id, id ∈ change_order (kernel s) → ∃ c, changes (kernel s') !! id = Some c
      ∧ cr_state c = BaselineRestored ∧ verified_since Expect_Baseline c s s'.
Proof.
  intros Hs Hm.
  destruct (returned s _ _ _ l s' Hs (closed_throws s _) (wp_restore_baseline s) Hm)
    as [Hg (_ & _ & [Ho Hh] & _ & Ha & Hres & Hl)].
  by split_and!.
Qed.

(** A successful [replay_candidate] was given distinct changes, each verified by
    an experiment and the latest of its resource, and all changes restored.  It
    leaves exactly the changes of the candidate applied and read back at their
    desired values, the others at the baseline that was read back before the
    first apply, and makes the candidate the active one. *)
Theorem replay_applies_exactly_the_candidate cand s l s' :
  reachable s → replay_candidate cand s = (Ret l, s') →
  NoDup (change_ids cand) ∧ Forall (selectable (kernel s)) (change_ids cand)
  ∧ active_candidate (kernel s') = Some cand
  ∧ change_order (kernel s') = change_order (kernel s)
  ∧ l = omap (λ id, changes (kernel s') !! id) (change_ids cand)
  ∧ ∀ id, id ∈ change_order (kernel s) → ∃ c, changes (kernel s') !! id = Some c
      ∧ verified_since Expect_Baseline c s s'
      ∧ if candidate_contains cand id
        then cr_state c = CandidateApplied ∧ verified_since Expect_Desired c s s'
        else cr_state c = BaselineRestored.
Proof.
  intros Hs Hm.
  destruct (returned s _ _ _ l s' Hs (closed_throws s _) (wp_replay_candidate cand s) Hm)
    as [Hg (_ & _ & [Ho Hh] & _ & Hnd & Hsel & Ha & Hrep & Hl)].
  by split_and!.
Qed.
End CommitSafety.

(** ** Two sealed logs that recovery refuses *)

(** A readback that fails once, after a restore, is enough for a rollback to seal
    a log that recovery refuses: the restore intent stays without a result,
    because the second rollback finds the resource at its baseline and records
    that under a new operation id. *)
Theorem retried_rollback_seals_a_corrupt_log :
  reachable rollback_interrupted
  ∧ is_ret (rollback_all rollback_interrupted).1 = true
  ∧ sealed (kernel rollback_retried) = Some Seal_RolledBack
  ∧ refused_as_corrupt rollback_retried = true.
Proof.
  split; [|repeat split; vm_compute; reflexivity]. apply rollback_reachable, world_reachable, experimented_a_reachable.
Qed.

(** In the same way a commit is decided on a log recovery refuses: the candidate
    is finalized, every driver call of the restore, the replay and the commit
    succeeded, and the committed log is corrupt for [recover]. *)
Theorem commit_over_pending_restore_is_corrupt :
  reachable replayed_over_pending
  ∧ is_ret (restore_baseline restore_interrupted).1 = true
  ∧ is_ret (replay_candidate candidate_a restore_retried).1 = true
  ∧ is_ret (finalize_candidate candidate_a authorization_a replayed_over_pending).1 = true
  ∧ sealed (kernel committed_over_pending) = Some Seal_Committed
  ∧ refused_as_corrupt committed_over_pending = true.
Proof.
  split; [|repeat split; vm_compute; reflexivity].
  apply replay_reachable, restore_reachable, restore_reachable, world_reachable, experiment_reachable.
  exact experimented_a_reachable.
Qed.

(** ** Witnesses *)

Lemma finalize_returns : ∃ l, finalize_candidate candidate_a authorization_a replayed_a = (Ret l, committed_a).
Proof. unfold committed_a. apply (returns (finalize_candidate candidate_a authorization_a) replayed_a). vm_compute. reflexivity. Qed.

Lemma commit_gate_witness :
  reachable replayed_a ∧ ∃ l, finalize_candidate candidate_a authorization_a replayed_a = (Ret l, committed_a)
  ∧ auth_intent_pin authorization_a = intent_pin (kernel replayed_a)
  ∧ sealed (kernel committed_a) = Some Seal_Committed.
Proof.
  split; [exact replayed_a_reachable|]. destruct finalize_returns as [l Hl]. exists l.
  split; [exact Hl|].
  destruct (commit_gate candidate_a authorization_a replayed_a l committed_a replayed_a_reachable Hl)
    as (Hp & _ & _ & _ & _ & Hsealed & _).
  split; [exact Hp|exact Hsealed].
Defined.

Lemma commit_follows_readbacks_witness :
  reachable replayed_a ∧ ∃ l, finalize_candidate candidate_a authorization_a replayed_a = (Ret l, committed_a)
  ∧ ∃ entry checks before, trace committed_a = Ev_Durable entry :: checks ++ before
      ∧ last (durable (wal (kernel committed_a))) = Some entry
      ∧ Forall is_match checks
      ∧ ∀ id c, id ∈ change_order (kernel replayed_a) → changes (kernel replayed_a) !! id = Some c →
          resource_heads (kernel replayed_a) !! cr_resource c = Some id →
          ∃ q, Ev_Verify q true ∈ checks ∧ at_target candidate_a id c q.
Proof.
  split; [exact replayed_a_reachable|]. destruct finalize_returns as [l Hl]. exists l.
  split; [exact Hl|].
  exact (commit_follows_readbacks candidate_a authorization_a replayed_a l committed_a
    replayed_a_reachable Hl).
Defined.

Lemma experimented_a_settled : settled experimented_a.
Proof. apply settled_by_size. vm_compute. reflexivity. Qed.

Lemma restore_returns : ∃ l, restore_baseline experimented_a = (Ret l, restored_a).
Proof. unfold restored_a. apply (returns restore_baseline experimented_a). vm_compute. reflexivity. Qed.

Lemma replay_returns : ∃ l, replay_candidate candidate_a restored_a = (Ret l, replayed_a).
Proof. unfold replayed_a. apply (returns (replay_candidate candidate_a) restored_a). vm_compute. reflexivity. Qed.

Lemma clean_commit_recovers_witness :
  reachable experimented_a ∧ settled experimented_a ∧ canonical candidate_a experimented_a
  ∧ ∃ k, recover_from committed_a (wal (kernel committed_a)) = Ret k
      ∧ sealed k = Some Seal_Committed ∧ commit_authorization k = Some authorization_a
      ∧ changes k = changes (kernel committed_a) ∧ change_order k = change_order (kernel committed_a).
Proof.
  assert (canonical candidate_a experimented_a) as Hcanon by (vm_compute; reflexivity).
  split; [exact experimented_a_reachable|]. split; [exact experimented_a_settled|].
  split; [exact Hcanon|].
  destruct restore_returns as [l1 Hl1], replay_returns as [l2 Hl2], finalize_returns as [l3 Hl3].
  apply (clean_commit_recovers candidate_a authorization_a experimented_a l1 restored_a l2 replayed_a l3
    committed_a (wal (kernel committed_a)) experimented_a_reachable experimented_a_settled Hl1 Hl2 Hl3).
  - vm_compute. reflexivity.
  - exact Hcanon.
  - exact I.
  - reflexivity.
  - vm_compute. discriminate.
Defined.

Definition rolled_back_a := after rollback_all experimented_a.

Lemma rollback_returns : ∃ l, rollback_all experimented_a = (Ret l, rolled_back_a).
Proof. unfold rolled_back_a. apply (returns rollback_all experimented_a). vm_compute. reflexivity. Qed.

Lemma rollback_restores_every_change_witness :
  reachable experimented_a ∧ ∃ l, rollback_all experimented_a = (Ret l, rolled_back_a)
  ∧ sealed (kernel rolled_back_a) = Some Seal_RolledBack.
Proof.
  split; [exact experimented_a_reachable|]. destruct rollback_returns as [l Hl]. exists l.
  split; [exact Hl|].
  exact (proj1 (rollback_restores_every_change experimented_a l rolled_back_a experimented_a_reachable Hl)).
Defined.

Lemma rolled_back_a_answered : ¬ unanswered rolled_back_a.
Proof.
  assert (pending rolled_back_a = ∅) as Hp by (apply settled_by_size; vm_compute; reflexivity).
  intros (id & op & kd & Hid & _). by rewrite Hp, lookup_empty in Hid.
Qed.

Lemma rollback_retried_unanswered : unanswered rollback_retried.
Proof.
  assert (match pending rollback_retried !! change_a with
          | Some (_, kd) => bool_decide (kd ≠ Intent_Finalize) | None => false end = true) as Hp
    by (vm_compute; reflexivity).
  destruct (pending rollback_retried !! change_a) as [[op kd]|] eqn:Hc; [|done].
  exists change_a, op, kd. split; [done|]. by apply bool_decide_eq_true in Hp.
Qed.

Lemma interrupted_rollback_reachable : reachable rollback_interrupted.
Proof. apply rollback_reachable, world_reachable, experimented_a_reachable. Qed.

Lemma rollback_recoverable_iff_witness :
  (∃ k, recover_from rolled_back_a (wal (kernel rolled_back_a)) = Ret k
     ∧ sealed k = Some Seal_RolledBack ∧ change_order k = change_order (kernel rolled_back_a)
     ∧ ∀ id c, changes k !! id = Some c → cr_state c = RolledBack)
  ∧ ∃ e, recover_from rollback_retried (wal (kernel rollback_retried)) = Throw e ∧ error_kind e = E_CorruptWal.
Proof.
  split.
  - destruct rollback_returns as [l Hl].
    apply (rollback_recoverable_iff experimented_a l rolled_back_a (wal (kernel rolled_back_a))
      experimented_a_reachable Hl); [exact I|reflexivity|vm_compute; discriminate|exact rolled_back_a_answered].
  - assert (∃ l, rollback_all rollback_interrupted = (Ret l, rollback_retried)) as [l Hl].
    { unfold rollback_retried. apply (returns rollback_all rollback_interrupted). vm_compute. reflexivity. }
    apply (rollback_recoverable_iff rollback_interrupted l rollback_retried (wal (kernel rollback_retried))
      interrupted_rollback_reachable Hl); [exact I|reflexivity|vm_compute; discriminate|exact rollback_retried_unanswered].
Defined.

Lemma settled_rollback_recovers_witness :
  reachable experimented_a ∧ settled experimented_a
  ∧ ∃ k, recover_from rolled_back_a (wal (kernel rolled_back_a)) = Ret k ∧ sealed k = Some Seal_RolledBack.
Proof.
  split; [exact experimented_a_reachable|]. split; [exact experimented_a_settled|].
  destruct rollback_returns as [l Hl].
  apply (settled_rollback_recovers experimented_a l rolled_back_a (wal (kernel rolled_back_a))
    experimented_a_reachable experimented_a_settled Hl); [exact I|reflexivity|vm_compute; discriminate].
Defined.

Lemma experiment_returns :
  ∃ c, experiment change_a fake_capability (set_a "new") begun = (Ret c, experimented_a).
Proof. unfold experimented_a. apply (returns (experiment change_a fake_capability (set_a "new")) begun). vm_compute. reflexivity. Qed.

Lemma experiment_adds_a_verified_change_witness :
  reachable begun ∧ ∃ c, experiment change_a fake_capability (set_a "new") begun = (Ret c, experimented_a)
  ∧ experimented change_a fake_capability c begun experimented_a.
Proof.
  split; [exact begun_reachable|]. destruct experiment_returns as [c Hc]. exists c.
  split; [exact Hc|].
  exact (experiment_adds_a_verified_change begun change_a fake_capability (set_a "new") c experimented_a
    begun_reachable Hc).
Defined.

Lemma restore_baseline_restores_witness :
  reachable experimented_a ∧ ∃ l, restore_baseline experimented_a = (Ret l, restored_a)
  ∧ active_candidate (kernel restored_a) = None ∧ l = changes_in_order (kernel restored_a).
Proof.
  split; [exact experimented_a_reachable|]. destruct restore_returns as [l Hl]. exists l.
  split; [exact Hl|].
  destruct (restore_baseline_restores experimented_a l restored_a experimented_a_reachable Hl)
    as (_ & _ & Ha & Hr & _).
  split; [exact Ha|exact Hr].
Defined.

Lemma replay_applies_exactly_the_candidate_witness :
  reachable restored_a ∧ ∃ l, replay_candidate candidate_a restored_a = (Ret l, replayed_a)
  ∧ active_candidate (kernel replayed_a) = Some candidate_a.
Proof.
  split; [exact restored_a_reachable|]. destruct replay_returns as [l Hl]. exists l.
  split; [exact Hl|].
  exact (proj1 (proj2 (proj2 (replay_applies_exactly_the_candidate candidate_a restored_a l replayed_a
    restored_a_reachable Hl)))).
Defined.
