(* ===== verification/Discovery.v ===== *)
(** * Inspection agrees with recovery

    At start-up the store inspects each log without a kernel ([inspect_log]), and
    the logs it calls pending are then recovered ([recover]).  The two read the
    same records with different checks.  [mirrors] relates their states after any
    log, reachable or not, that [recover] replays, and the theorems say where they
    agree and the two cases in which they do not. *)

From S2P Require Export Store CommitSafety.

Section Mirror.
Context `{J : Json, !Serialize Value, !Serialize (list ChangeId), !Sha256}.
Context {W : Type}.
Implicit Types (caps : CapabilitySnapshot W) (c d : ChangeRecord) (r : ReplayState) (i : InspectState).

(** The states of the two loops after the same started log. *)
Record mirrors (pin : EvaluationIntentPin) r i : Prop := {
  mi_pin : is_intent_pin i = Some pin;
  mi_generation : is_Some (is_generation i);
  mi_changes : is_changes i = recovery_change <$> rs_changes r;
  mi_heads : is_heads i = rs_heads r;
  mi_known : is_known i = dom (rs_changes r);
  mi_pending : is_pending i = rs_pending r;
  mi_sealed : is_sealed i = rs_sealed r;
  mi_authorization : is_authorization i = rs_authorization r;
  mi_ids id c : rs_changes r !! id = Some c → cr_change_id c = id;
  mi_owners res id : rs_heads r !! res = Some id → ∃ c, rs_changes r !! id = Some c
    ∧ cr_resource c = res
    ∧ is_baselines i !! res = Some (state_digest (baseline (cr_prepared c)))
    ∧ is_providers i !! res = Some (prepared_provider (cr_prepared c));
  mi_intended id : is_Some (rs_pending r !! id) → is_Some (rs_changes r !! id);
  mi_started : rs_saw_start r = true;
  mi_unsealed : rs_sealed r ≠ Some Seal_Committed → rs_authorization r = None;
}.

Lemma digest_binds_true state :
  content_digest (state_value state) = Ok (state_digest state) → digest_binds state = true.
Proof. intros Hd. unfold digest_binds. rewrite Hd. by apply bool_decide_eq_true. Qed.

(** Two states whose digests bind their values are equal when the values are. *)
Lemma bound_states_differ (s1 s2 : MutationState) :
  content_digest (state_value s1) = Ok (state_digest s1) →
  content_digest (state_value s2) = Ok (state_digest s2) →
  s1 ≠ s2 → state_value s1 ≠ state_value s2.
Proof.
  destruct s1 as [v1 d1], s2 as [v2 d2]. simpl. intros H1 H2 Hne ->. apply Hne. congruence.
Qed.

Lemma lookup_mirror pin r i id : mirrors pin r i → is_changes i !! id = recovery_change <$> rs_changes r !! id.
Proof. intros Hm. by rewrite (mi_changes _ _ _ Hm), lookup_fmap. Qed.

Lemma size_mirror pin r i : mirrors pin r i → size (is_changes i) = size (rs_changes r).
Proof. intros Hm. by rewrite (mi_changes _ _ _ Hm), map_size_fmap. Qed.

Lemma inspect_known_change_Ok d c :
  validate_recovered_transition d c = Ok tt → inspect_known_change (recovery_change d) c = Ok tt.
Proof.
  rewrite validate_recovered_transition_Ok. intros ([H1 H2 H3 H4 H5 H6] & Hv & Hg).
  unfold inspect_known_change. simpl. rewrite H3, H4, H5, !bool_decide_neq_refl.
  simpl. destruct (cr_experiment_verified d), (cr_experiment_verified c); simpl; try done.
  - by specialize (Hv eq_refl).
  - rewrite Hg by done. done.
Qed.

Lemma inspect_new_change_Ok pin r i c :
  mirrors pin r i →
  size (rs_changes r) < MAX_CHANGES_PER_TRANSACTION → cr_experiment_verified c = false →
  validate_recovered_revision (rs_changes r) (rs_heads r) c = Ok tt →
  ∃ bs ps, inspect_new_change c i = Ok (bs, ps)
    ∧ bs !! cr_resource c = Some (state_digest (baseline (cr_prepared c)))
    ∧ ps !! cr_resource c = Some (prepared_provider (cr_prepared c))
    ∧ ∀ res, res ≠ cr_resource c → bs !! res = is_baselines i !! res ∧ ps !! res = is_providers i !! res.
Proof.
  intros Hm Hsize Hver. rewrite validate_recovered_revision_Ok. intros (Hst & Hh & Hprev).
  unfold inspect_new_change. rewrite (size_mirror _ _ _ Hm), (bool_decide_eq_false_2 (_ ≤ _)) by lia.
  simpl. rewrite Hver. simpl. rewrite (bool_decide_eq_false_2 (cr_state c ≠ _)) by (intros Hn; by apply Hn).
  simpl. rewrite (mi_heads _ _ _ Hm). destruct (cr_supersedes c) as [p|].
  - destruct (Hprev p eq_refl) as (d & Hd & Hds & Hdv & Hdc & Hdp & Hdb).
    rewrite (lookup_mirror _ _ _ _ Hm), Hd. simpl.
    destruct (mi_owners _ _ _ Hm _ _ Hh) as (d' & Hd' & Hres & Hb & Hp).
    rewrite Hd in Hd'. injection Hd' as <-. rewrite Hh, Hdv, Hb, Hp, Hdb, Hdp, Hds, Hdc.
    rewrite !bool_decide_neq_refl. simpl.
    do 2 eexists. split; [reflexivity|]. rewrite Hb, Hp, Hdb, Hdp. by split_and!.
  - rewrite Hh. do 2 eexists. split; [reflexivity|]. rewrite !lookup_insert_eq. split_and!; try done.
    intros res Hres. by rewrite !lookup_insert_ne.
Qed.

Lemma answer_pending_known c pending (m : gmap ChangeId ChangeRecord) :
  (∀ id, is_Some (pending !! id) → is_Some (m !! id)) →
  ∀ id, is_Some (answer_pending c pending !! id) → is_Some (<[cr_change_id c := c]> m !! id).
Proof.
  intros Hp id Hid. destruct (decide (id = cr_change_id c)) as [->|Hne].
  - rewrite lookup_insert_eq. by eexists.
  - rewrite lookup_insert_ne by done. apply Hp. unfold answer_pending in Hid.
    destruct (pending !! cr_change_id c) as [[op k]|]; [|done].
    case_bool_decide; [|done]. by rewrite lookup_delete_ne in Hid.
Qed.

(** One upsert that recovery accepts. *)
Lemma upsert_mirrors tid pin caps c r r' i :
  mirrors pin r i → replay_upsert tid caps c r = Ok r' →
  ∃ i', inspect_upsert tid c i = Ok i' ∧ mirrors pin r' i'.
Proof.
  intros Hm. unfold replay_upsert. rewrite reject_bind_Ok, result_bind_Ok.
  intros (Hval%validate_recovered_change_Ok & [heads order] & Hcase & [= <-]).
  destruct Hval as [Hid Hst].
  assert (∃ bs ps, (match is_changes i !! cr_change_id c with
      | Some previous => inspect_known_change previous c ≫= λ _, Ok (is_heads i, (is_baselines i, is_providers i))
      | None => inspect_new_change c i ≫= λ tables, Ok (<[cr_resource c:=cr_change_id c]> (is_heads i), tables)
      end) = Ok (E := WalError) (heads, (bs, ps)) ∧
      (∀ res id, heads !! res = Some id → ∃ x, <[cr_change_id c := c]> (rs_changes r) !! id = Some x
        ∧ cr_resource x = res ∧ bs !! res = Some (state_digest (baseline (cr_prepared x)))
        ∧ ps !! res = Some (prepared_provider (cr_prepared x)))) as (bs & ps & Htab & Hown).
  { rewrite (lookup_mirror _ _ _ _ Hm). destruct (rs_changes r !! cr_change_id c) as [d|] eqn:Hd; simpl.
    - apply reject_bind_Ok in Hcase as [Htr [= <- <-]]. exists (is_baselines i), (is_providers i).
      rewrite (inspect_known_change_Ok _ _ Htr). simpl. rewrite (mi_heads _ _ _ Hm). split; [done|].
      intros res id Hh. destruct (mi_owners _ _ _ Hm _ _ Hh) as (x & Hx & Hrest).
      destruct (decide (id = cr_change_id c)) as [->|Hne]; [|exists x; by rewrite lookup_insert_ne].
      exists c. rewrite lookup_insert_eq. split; [done|]. rewrite Hd in Hx. injection Hx as <-.
      apply validate_recovered_transition_Ok in Htr as ([H1 H2 H3 H4 H5 H6] & _).
      by rewrite <- H5, <- H6.
    - rewrite !reject_bind_Ok, !reject_Ok, bool_decide_eq_false, Nat.nle_gt in Hcase.
      destruct Hcase as (Hsize & Hver & Hrev & [= <- <-]).
      destruct (inspect_new_change_Ok _ _ _ _ Hm Hsize Hver Hrev) as (bs & ps & Hnew & Hb & Hp & Hother).
      exists bs, ps. rewrite Hnew. simpl. rewrite (mi_heads _ _ _ Hm). split; [done|]. intros res id.
      destruct (decide (res = cr_resource c)) as [->|Hne].
      + rewrite lookup_insert_eq. intros [= <-]. exists c. by rewrite lookup_insert_eq.
      + rewrite lookup_insert_ne by done. intros Hh.
        destruct (mi_owners _ _ _ Hm _ _ Hh) as (x & Hx & Hres & Hrest). exists x.
        rewrite lookup_insert_ne by congruence. destruct (Hother res Hne) as [-> ->]. done. }
  eexists. split.
  - unfold inspect_upsert. rewrite (mi_pin _ _ _ Hm). simpl.
    rewrite (bool_decide_eq_false_2 (cr_transaction_id c ≠ tid)) by (intros Hn; apply Hn, Hid). simpl.
    rewrite !digest_binds_true by apply Hid. simpl.
    rewrite (bool_decide_eq_false_2 (state_value _ = _)) by (apply bound_states_differ; apply Hid).
    simpl. rewrite Htab. simpl. rewrite reject_false; [simpl; done|].
    unfold claims_verified in Hst. destruct (bool_decide _); [|done]. by rewrite (Hst eq_refl).
  - split; simpl; try apply Hm; try done.
    + by rewrite (mi_changes _ _ _ Hm), fmap_insert.
    + by rewrite (mi_known _ _ _ Hm), dom_insert_L.
    + by rewrite (mi_pending _ _ _ Hm).
    + intros id x. destruct (decide (id = cr_change_id c)) as [->|Hne].
      * rewrite lookup_insert_eq. by intros [= <-].
      * rewrite lookup_insert_ne by done. apply Hm.
    + apply answer_pending_known, Hm.
Qed.

Lemma intent_mirrors pin id op k r r' i :
  mirrors pin r i → replay_intent id op k r = Ok r' →
  ∃ i', inspect_intent id op k i = Ret i' ∧ mirrors pin r' i'.
Proof.
  intros Hm. unfold replay_intent. rewrite ok_or_bind_Ok. intros (c & Hc & Hr).
  rewrite reject_bind_Ok in Hr. destruct Hr as [Hf%reject_Ok [= <-]].
  eexists. split.
  - unfold inspect_intent. rewrite (mi_known _ _ _ Hm).
    rewrite (bool_decide_eq_false_2 (id ∉ _)) by (intros Hn; apply Hn, elem_of_dom; by eexists).
    simpl. rewrite (lookup_mirror _ _ _ _ Hm), Hc. simpl.
    destruct (bool_decide (k = Intent_Finalize)); [|reflexivity].
    simpl in Hf. rewrite Hf. reflexivity.
  - split; simpl; try apply Hm; try done.
    + by rewrite (mi_pending _ _ _ Hm).
    + intros id' Hid. destruct (decide (id' = id)) as [->|Hne]; [by eexists|].
      rewrite lookup_insert_ne in Hid by done. by apply Hm.
Qed.

Lemma insert_terminals_mirror ts (m : gmap ChangeId ChangeRecord) :
  insert_terminals ts (recovery_change <$> m) = recovery_change <$> insert_changes ts m.
Proof.
  revert m. unfold insert_terminals, insert_changes.
  induction ts as [|t ts IH]; intros m; simpl; [done|]. by rewrite <- fmap_insert, IH.
Qed.

(** A terminal change recovery accepts. *)
Lemma terminal_mirrors tid pin caps r i seen t seen' :
  mirrors pin r i → replay_terminal tid caps r seen t = Ok seen' →
  inspect_terminal tid i seen t = Ok seen'
  ∧ ∃ d, rs_changes r !! cr_change_id t = Some d ∧ same_identity d t.
Proof.
  intros Hm. unfold replay_terminal. rewrite reject_bind_Ok, ok_or_bind_Ok.
  intros ([Hid Hst]%validate_recovered_change_Ok & d & Hd & Hr). rewrite !reject_bind_Ok in Hr.
  destruct Hr as (Htr%validate_recovered_transition_Ok & Hmove%reject_Ok & Hterm%reject_Ok
                  & Hhead%reject_Ok & Hseen).
  destruct Htr as ([H1 H2 H3 H4 H5 H6] & Hv & Hg). split; [|by exists d].
  apply orb_false_iff in Hterm as [Hin Hnew]. rewrite negb_false_iff in Hin.
  assert (cr_state t ≠ AppliedVerified) as Hna.
  { apply bool_decide_eq_true in Hin. intros Ha. rewrite Ha in Hin. set_solver. }
  assert (cr_experiment_verified d = cr_experiment_verified t) as Hver.
  { destruct (cr_experiment_verified d), (cr_experiment_verified t); try done.
    - by specialize (Hv eq_refl).
    - by specialize (Hg eq_refl eq_refl). }
  unfold inspect_terminal. rewrite (iv_transaction _ _ _ Hid), bool_decide_neq_refl, Hin, Hnew.
  assert (bool_decide (cr_state t = Finalized) && negb (cr_experiment_verified t) = false) as ->.
  { case_bool_decide as Hf; [|done]. unfold claims_verified in Hst. rewrite Hf in Hst.
    by rewrite Hst. }
  simpl. rewrite (lookup_mirror _ _ _ _ Hm), Hd. simpl. rewrite H3, H4, H5, Hver, !bool_decide_neq_refl.
  simpl. rewrite Hmove. simpl. rewrite (mi_heads _ _ _ Hm), Hhead. by injection Hseen as <-.
Qed.

Lemma terminals_mirror tid pin caps r i ts seen seen' :
  mirrors pin r i → fold_result (replay_terminal tid caps r) seen ts = Ok seen' →
  fold_result (inspect_terminal tid i) seen ts = Ok seen'
  ∧ Forall (λ t, ∃ d, rs_changes r !! cr_change_id t = Some d ∧ same_identity d t) ts.
Proof.
  intros Hm. revert seen. induction ts as [|t ts IH]; intros seen; simpl; [intros [= <-]; by split|].
  destruct (replay_terminal tid caps r seen t) as [seen1|] eqn:Ht; [|done]. intros Hrest.
  destruct (terminal_mirrors _ _ _ _ _ _ _ _ Hm Ht) as [-> Hd].
  destruct (IH _ Hrest) as [-> Hall]. split; [done|]. by constructor.
Qed.

(** Replacing records by records of the same identity. *)
Lemma insert_changes_same (ts : list ChangeRecord) m id c :
  Forall (λ t, ∃ d, m !! cr_change_id t = Some d ∧ same_identity d t) ts →
  m !! id = Some c → ∃ c', insert_changes ts m !! id = Some c' ∧ same_identity c c'.
Proof.
  unfold insert_changes. revert m c. induction ts as [|t ts IH]; intros m c Hall Hc; simpl.
  - exists c. split; [done|]. reflexivity.
  - apply Forall_cons in Hall as [(d & Hd & Hi) Hall].
    assert (Forall (λ u, ∃ x, <[cr_change_id t := t]> m !! cr_change_id u = Some x ∧ same_identity x u) ts) as Hall'.
    { eapply Forall_impl; [exact Hall|]. intros u (x & Hx & Hxu).
      destruct (decide (cr_change_id u = cr_change_id t)) as [He|Hne].
      - exists t. rewrite He, lookup_insert_eq. split; [done|]. rewrite He, Hd in Hx. injection Hx as ->.
        etrans; [by symmetry|done].
      - exists x. by rewrite lookup_insert_ne. }
    destruct (decide (id = cr_change_id t)) as [->|Hne].
    + rewrite Hd in Hc. injection Hc as ->.
      destruct (IH _ t Hall') as (c' & Hc' & Hi'); [by rewrite lookup_insert_eq|].
      exists c'. split; [done|]. by etrans.
    + apply IH; [done|]. by rewrite lookup_insert_ne.
Qed.

Lemma insert_changes_known (ts : list ChangeRecord) m id c' :
  Forall (λ t, ∃ d, m !! cr_change_id t = Some d ∧ same_identity d t) ts →
  insert_changes ts m !! id = Some c' → ∃ c, m !! id = Some c ∧ same_identity c c'.
Proof.
  intros Hall Hc'. destruct (m !! id) as [c|] eqn:Hc.
  - destruct (insert_changes_same _ _ _ _ Hall Hc) as (c2 & Hc2 & Hi).
    rewrite Hc' in Hc2. injection Hc2 as <-. by exists c.
  - exfalso. rewrite insert_changes_other in Hc'; [congruence|].
    intros (t & -> & Ht)%list_elem_of_fmap. rewrite Forall_forall in Hall.
    destruct (Hall t Ht) as (d & Hd & _). congruence.
Qed.

Lemma commit_mirrors tid pin caps total n auth ts r r' i :
  mirrors pin r i → replay_commit tid pin caps total (Z.of_nat n) auth ts r = Ok r' →
  ∃ i', inspect_commit tid total n auth ts i = Ok i' ∧ mirrors pin r' i'.
Proof.
  intros Hm. unfold replay_commit. rewrite !reject_bind_Ok, result_bind_Ok.
  intros (Hplace%reject_Ok & Hfull%reject_Ok & seen & Hts & Hr).
  apply result_bind_Ok in Hr as (cc & Hcc%map_err_Ok & Hr). rewrite !reject_bind_Ok in Hr.
  destruct Hr as (Hdig%reject_Ok & Hpin%reject_Ok & [= <-]).
  destruct (terminals_mirror _ _ _ _ _ _ _ _ Hm Hts) as [Hin Hall].
  unfold misplaced_seal in Hplace. apply orb_false_iff in Hplace as [Hs Hlast].
  rewrite !orb_false_iff in Hfull. destruct Hfull as [[Hp Hne] Hlen].
  eexists. split.
  - unfold inspect_commit. rewrite (mi_sealed _ _ _ Hm), (mi_pending _ _ _ Hm), (size_mirror _ _ _ Hm).
    assert (negb (n + 1 =? total) = false) as ->.
    { rewrite negb_false_iff in Hlast |- *. apply Z.eqb_eq in Hlast. apply Nat.eqb_eq. lia. }
    destruct (rs_sealed r); [done|]. rewrite Hp, Hne, Hlen. simpl.
    rewrite Hin. simpl. rewrite Hcc. simpl. rewrite Hdig. simpl.
    rewrite (mi_pin _ _ _ Hm). apply bool_decide_eq_false, dec_stable in Hpin as ->.
    rewrite bool_decide_neq_refl. simpl. reflexivity.
  - split; simpl; try apply Hm; try done.
    + by rewrite (mi_changes _ _ _ Hm), insert_terminals_mirror.
    + rewrite (mi_known _ _ _ Hm). apply set_eq. intros id. rewrite !elem_of_dom. split.
      * intros [c Hc]. destruct (insert_changes_same _ _ _ _ Hall Hc) as (c' & Hc' & _). by exists c'.
      * intros [c' Hc']. destruct (insert_changes_known _ _ _ _ Hall Hc') as (c & Hc & _). by exists c.
    + intros id c' Hc'. destruct (insert_changes_known _ _ _ _ Hall Hc') as (c & Hc & Hi).
      rewrite <- (si_change _ _ Hi). by apply Hm.
    + intros res id Hh. destruct (mi_owners _ _ _ Hm _ _ Hh) as (c & Hc & Hres & Hb & Hpr).
      destruct (insert_changes_same _ _ _ _ Hall Hc) as (c' & Hc' & Hi). exists c'.
      by rewrite <- (si_resource _ _ Hi), <- (si_prepared _ _ Hi).
    + intros id Hid. destruct (mi_intended _ _ _ Hm id Hid) as [c Hc].
      destruct (insert_changes_same _ _ _ _ Hall Hc) as (c' & Hc' & _). by exists c'.
Qed.
(** ** The whole log *)

Lemma inspect_header_Ok tid n e r :
  entry_transaction_id e = tid → sequence e = Z.of_nat n → inspect_header tid n e = Ok tt.
Proof. intros Ht Hs. unfold inspect_header. by rewrite Ht, Hs, !bool_decide_neq_refl. Qed.

Lemma replay_header_Ok tid e r r' :
  replay_header tid e r = Ok r' →
  entry_transaction_id e = tid ∧ sequence e = rs_sequence r ∧ r' = advance r.
Proof.
  unfold replay_header. rewrite !reject_bind_Ok, !reject_Ok, !bool_decide_eq_false.
  intros (Ht%dec_stable & Hs%dec_stable & [= <-]). done.
Qed.

(** One entry: the inspection follows, or refuses a commit without authorization. *)
Lemma entry_mirrors tid pin caps total n r i e r' :
  mirrors pin r i → rs_sequence r = Z.of_nat n → replay_entry tid pin caps total r e = Ok r' →
  rs_sequence r' = Z.of_nat (S n)
  ∧ ((∃ i', inspect_entry tid total (n, i) e = Ret (S n, i') ∧ mirrors pin r' i')
     ∨ (∃ err, inspect_entry tid total (n, i) e = Throw err) ∧ S n = total
       ∧ rs_sealed r' = Some Seal_Committed ∧ rs_authorization r' = None).
Proof.
  intros Hm Hn. unfold replay_entry. rewrite result_bind_Ok. intros (r1 & Hh & Hev).
  apply replay_header_Ok in Hh as (Htid & Hseq & ->). split.
  { rewrite (replay_event_sequence _ _ _ _ _ _ _ Hev). simpl. lia. }
  rewrite Hn in Hseq. unfold inspect_entry. rewrite (inspect_header_Ok _ _ _ r Htid Hseq). simpl.
  assert (mirrors pin (advance r) i) as Hma by (by destruct Hm).
  assert (∀ (o : outcome WalError InspectState) i', o = Ret i' → mirrors pin r' i' →
    (∃ i2, mbind (λ i0, Ret (S n, i0)) o = Ret (S n, i2) ∧ mirrors pin r' i2)) as Hret.
  { intros o i' -> Hi. by exists i'. }
  unfold replay_event in Hev. unfold inspect_event.
  destruct (event e) as [stored g|c|id op k|o|a cs].
  - unfold replay_started in Hev. apply reject_bind_Ok in Hev as [Hr _]. apply reject_Ok in Hr.
    rewrite Hseq in Hr. exfalso. rewrite !orb_false_iff, negb_false_iff, Z.eqb_eq in Hr.
    destruct Hr as [[Hstart _] _]. simpl in Hstart. by rewrite (mi_started _ _ _ Hm) in Hstart.
  - left. destruct (upsert_mirrors _ _ _ _ _ _ _ Hma Hev) as (i' & Hi & Hmi). eapply Hret; [|done]. by rewrite Hi.
  - left. destruct (intent_mirrors _ _ _ _ _ _ _ Hma Hev) as (i' & Hi & Hmi). by eapply Hret.
  - unfold replay_seal in Hev. apply reject_bind_Ok in Hev as [Hr [= <-]]. apply reject_Ok in Hr.
    unfold misplaced_seal in Hr. apply orb_false_iff in Hr as [Hs Hlast]. simpl in Hs.
    rewrite negb_false_iff, Z.eqb_eq, Hseq in Hlast.
    destruct o.
    + right. split; [by eexists|]. split; [lia|]. split; [done|]. simpl. apply Hm. by destruct (rs_sealed r).
    + left. eexists. split.
      * unfold inspect_seal. rewrite (mi_sealed _ _ _ Hm). destruct (rs_sealed r); [done|].
        simpl. assert ((n + 1 =? total) = true) as -> by (apply Nat.eqb_eq; lia). simpl. reflexivity.
      * split; simpl; try apply Hm; try done. intros _. apply Hm. by destruct (rs_sealed r).
  - left. rewrite Hseq in Hev. destruct (commit_mirrors _ _ _ _ _ _ _ _ _ _ Hma Hev) as (i' & Hi & Hmi).
    eapply Hret; [|done]. by rewrite Hi.
Qed.
(** Only the first entry can be the start record. *)
Lemma replay_event_start tid pin caps total e r r' :
  replay_event tid pin caps total e r = Ok r' →
  (∃ stored g, event e = Started stored g ∧ sequence e = 0%Z) ∨ rs_saw_start r' = rs_saw_start r.
Proof.
  unfold replay_event. destruct (event e) as [stored g|c|id op k|o|a cs]; intros Hev.
  - left. unfold replay_started in Hev. apply reject_bind_Ok in Hev as [Hr _]. apply reject_Ok in Hr.
    rewrite !orb_false_iff, negb_false_iff, Z.eqb_eq in Hr. destruct Hr as [_ Hz]. by do 2 eexists.
  - right. unfold replay_upsert in Hev. rewrite reject_bind_Ok, result_bind_Ok in Hev.
    by destruct Hev as (_ & [heads order] & _ & [= <-]).
  - right. unfold replay_intent in Hev. rewrite ok_or_bind_Ok in Hev. destruct Hev as (c & _ & Hev).
    rewrite reject_bind_Ok in Hev. by destruct Hev as [_ [= <-]].
  - right. unfold replay_seal in Hev. rewrite reject_bind_Ok in Hev. by destruct Hev as [_ [= <-]].
  - right. unfold replay_commit in Hev. rewrite !reject_bind_Ok, result_bind_Ok in Hev.
    destruct Hev as (_ & _ & seen & _ & Hev). apply result_bind_Ok in Hev as (cc & _ & Hev).
    rewrite !reject_bind_Ok in Hev. by destruct Hev as (_ & _ & [= <-]).
Qed.

Lemma log_mirrors tid pin caps total es n r i r' :
  mirrors pin r i → rs_sequence r = Z.of_nat n → n + length es = total →
  fold_result (replay_entry tid pin caps total) r es = Ok r' →
  (∃ i', fold_outcome (inspect_entry tid total) (n, i) es = Ret (total, i') ∧ mirrors pin r' i')
  ∨ (∃ err, fold_outcome (inspect_entry tid total) (n, i) es = Throw err)
    ∧ rs_sealed r' = Some Seal_Committed ∧ rs_authorization r' = None.
Proof.
  revert n r i. induction es as [|e es IH]; intros n r i Hm Hn Hlen; cbn [fold_result fold_outcome].
  - intros [= <-]. left. exists i. simpl in Hlen. by rewrite Nat.add_0_r in Hlen; subst.
  - destruct (replay_entry tid pin caps total r e) as [r1|] eqn:He; [|done]. intros Hes.
    simpl in Hlen. destruct (entry_mirrors _ _ _ _ _ _ _ _ _ Hm Hn He)
      as (Hn1 & [(i1 & Hi & Hm1)|((err & Herr) & Hlast & Hs & Ha)]).
    + rewrite Hi. eapply IH; [done|done|lia|done].
    + right. rewrite Herr. split; [by eexists|]. destruct es; [|simpl in Hlen; lia].
      by injection Hes as <-.
Qed.

(** A log that does not begin with its start record never gets one. *)
Lemma unstarted_stays tid pin caps total es r r' :
  rs_saw_start r = false → (0 < rs_sequence r)%Z →
  fold_result (replay_entry tid pin caps total) r es = Ok r' → rs_saw_start r' = false.
Proof.
  revert r. induction es as [|e es IH]; intros r Hs Hpos; cbn [fold_result]; [by intros [= <-]|].
  destruct (replay_entry tid pin caps total r e) as [r1|] eqn:He; [|done].
  unfold replay_entry in He. apply result_bind_Ok in He as (ra & Hh & Hev).
  apply replay_header_Ok in Hh as (_ & Hseq & ->).
  apply IH; [|rewrite (replay_event_sequence _ _ _ _ _ _ _ Hev); simpl; lia].
  destruct (replay_event_start _ _ _ _ _ _ _ Hev) as [(_ & _ & _ & Hz)|Hz]; [lia|by rewrite Hz].
Qed.
End Mirror.

Section Agreement.
Context `{J : Json, !Serialize Value, !Serialize (list ChangeId), !Sha256}.
Context {W T : Type} `{!TransactionWal T}.
Implicit Types (caps : CapabilitySnapshot W) (c d : ChangeRecord) (r : ReplayState) (i : InspectState)
  (k : TransactionKernel W T) (w : T).

(** What recovery makes of the log, the replay apart. *)
Lemma recover_finish_Ret tid pin caps w r k :
  recover_finish tid pin caps w r = Ret k →
  rs_saw_start r = true ∧ changes k = settled_changes r ∧ resource_heads k = rs_heads r
  ∧ change_order k = rs_order r ∧ next_sequence k = rs_sequence r ∧ sealed k = rs_sealed r
  ∧ commit_authorization k = rs_authorization r
  ∧ ∀ o, rs_sealed r = Some o → map_Forall (λ _ c, Is_true (sealed_terminal o c)) (settled_changes r).
Proof.
  unfold recover_finish. destruct (rs_saw_start r); [|done]. simpl.
  set (check := match rs_sealed r with Some o => _ | None => _ end).
  destruct check as [[]|] eqn:Hcheck; [|done]. simpl.
  destruct (applied_candidates _ _) as [ids| |]; try done. simpl.
  destruct (require_heads _ _ ids) as [[]| |]; try done. simpl.
  destruct (if bool_decide (ids = []) then _ else _) as [cand| |]; try done. simpl.
  intros [= <-]. split_and!; try done. intros o Ho. subst check. rewrite Ho in Hcheck.
  by apply reject_Ok, negb_false_iff, bool_decide_eq_true in Hcheck.
Qed.

Lemma recover_Ret tid pin caps w es k :
  load w = Ok es → recover tid pin caps w = Ret k →
  ∃ r, replay tid pin caps es = Ok r ∧ recover_finish tid pin caps w r = Ret k.
Proof.
  intros Hw. unfold recover. rewrite Hw. simpl. destruct (replay tid pin caps es) as [r|]; [|done].
  by exists r.
Qed.

(** A change as the inspection reports it and as the kernel has it. *)
Definition reported k (x : RecoveryChange) : Prop :=
  ∃ c, changes k !! rc_change_id x = Some c ∧ cr_supersedes c = rc_supersedes x
    ∧ cr_capability_id c = rc_capability_id x ∧ cr_resource c = rc_resource x
    ∧ cr_experiment_verified c = rc_experiment_verified x
    ∧ (cr_state c = rc_state x ∨ cr_state c = AppliedUnknown).

Lemma settled_reported r id c d :
  rs_changes r !! id = Some c → settled_changes r !! id = Some d →
  same_identity d c ∧ cr_experiment_verified d = cr_experiment_verified c
  ∧ (cr_state d = cr_state c ∨ cr_state d = AppliedUnknown).
Proof.
  intros Hc Hd. pose proof (settled_changes_tracks r id) as Ht. rewrite Hc, Hd in Ht.
  inversion Ht as [x y [Hi Hv Hs] Hx Hy|]; subst. done.
Qed.

(** The kernel does not know the outcome of a change when its last intent, other
    than a finalize, or its first apply has no result, or the log says so. *)
Lemma settled_unknown r id c d :
  rs_changes r !! id = Some c → settled_changes r !! id = Some d →
  cr_state d = AppliedUnknown ↔
  (∃ op kd, rs_pending r !! id = Some (op, kd) ∧ kd ≠ Intent_Finalize)
  ∨ cr_state c ∈ [IntentDurable; AppliedUnknown].
Proof.
  intros Hc. rewrite settled_changes_lookup, Hc. simpl. intros [= <-].
  assert (∀ st, st ∈ [IntentDurable; AppliedUnknown] ↔ st = IntentDurable ∨ st = AppliedUnknown) as Hin.
  { intros st. set_solver. }
  rewrite Hin. unfold mark_unapplied, mark_pending.
  destruct (rs_pending r !! id) as [[op kd]|] eqn:Hp; simpl.
  - destruct (decide (kd = Intent_Finalize)) as [->|Hk].
    + rewrite bool_decide_neq_refl. simpl. case_bool_decide as Hi; simpl in *.
      * split; [by auto|done].
      * split; [by auto|]. intros [(? & ? & [= <- <-] & ?)|[?|?]]; done.
    + rewrite (bool_decide_eq_true_2 (kd ≠ _)) by done. simpl. split; [|done]. intros _. left. eauto.
  - case_bool_decide as Hi; simpl; [by split; auto|]. split; [by auto|].
    intros [(? & ? & ? & ?)|[?|?]]; done.
Qed.

Lemma existsb_map {A} (f : ChangeId * A → bool) (m : gmap ChangeId A) :
  existsb f (map_to_list m) = true ↔ ∃ id a, m !! id = Some a ∧ f (id, a) = true.
Proof.
  rewrite existsb_exists. split.
  - intros ([id a] & Hin & Hf). exists id, a. split; [|done].
    apply elem_of_map_to_list. by apply list_elem_of_In.
  - intros (id & a & Hm & Hf). exists (id, a). split; [|done].
    apply list_elem_of_In. by apply elem_of_map_to_list.
Qed.

Lemma unknown_outcome_iff pin r i :
  mirrors pin r i →
  unknown_outcome i = true ↔ ∃ id d, settled_changes r !! id = Some d ∧ cr_state d = AppliedUnknown.
Proof.
  intros Hm. unfold unknown_outcome. rewrite orb_true_iff, !existsb_map.
  rewrite (mi_pending _ _ _ Hm). split.
  - intros [(id & [op k] & Hp & Hk)|(id & x & Hx & Hs)].
    + destruct (mi_intended _ _ _ Hm id) as [c Hc]; [by eexists|].
      assert (is_Some (settled_changes r !! id)) as [d Hd] by (rewrite settled_changes_lookup, Hc; by eexists).
      exists id, d. split; [done|]. apply (settled_unknown r id c d Hc Hd). left.
      exists op, k. split; [done|]. by apply bool_decide_eq_true in Hk.
    + rewrite (lookup_mirror _ _ _ _ Hm) in Hx. apply fmap_Some in Hx as (c & Hc & ->).
      assert (is_Some (settled_changes r !! id)) as [d Hd] by (rewrite settled_changes_lookup, Hc; by eexists).
      exists id, d. split; [done|]. apply (settled_unknown r id c d Hc Hd). right.
      by apply bool_decide_eq_true in Hs.
  - intros (id & d & Hd & Hs). pose proof Hd as Hd'. rewrite settled_changes_lookup in Hd'.
    apply fmap_Some in Hd' as (c & Hc & _).
    destruct (proj1 (settled_unknown r id c d Hc Hd) Hs) as [(op & kd & Hp & Hk)|Hst].
    + left. exists id, (op, kd). split; [done|]. by apply bool_decide_eq_true.
    + right. exists id, (recovery_change c). rewrite (lookup_mirror _ _ _ _ Hm), Hc.
      split; [done|]. by apply bool_decide_eq_true.
Qed.

Lemma values_by_id_elem (m : gmap ChangeId RecoveryChange) x :
  x ∈ values_by_id m ↔ ∃ id, m !! id = Some x.
Proof.
  unfold values_by_id. rewrite sort_by_perm, list_elem_of_fmap. split.
  - intros ([id y] & -> & Hin). exists id. by apply elem_of_map_to_list.
  - intros (id & Hid). exists (id, x). split; [done|]. by apply elem_of_map_to_list.
Qed.

Lemma values_by_id_nodup (m : gmap ChangeId RecoveryChange) :
  (∀ id x, m !! id = Some x → rc_change_id x = id) → NoDup (rc_change_id <$> values_by_id m).
Proof.
  intros Hid. unfold values_by_id. rewrite sort_by_perm, <- list_fmap_compose.
  rewrite (list_fmap_ext _ fst).
  - apply NoDup_fst_map_to_list.
  - intros j [id x] Hin. simpl. apply Hid, elem_of_map_to_list. by eapply list_elem_of_lookup_2.
Qed.

(** A sealed log whose every intent is answered is terminal for both. *)
Lemma terminal_mirrors_settled pin r i o :
  mirrors pin r i → rs_pending r = ∅ →
  map_Forall (λ _ c, Is_true (sealed_terminal o c)) (settled_changes r) →
  map_Forall (λ _ x, Is_true (terminal_state o x)) (is_changes i).
Proof.
  intros Hm Hp Hall id x Hx. rewrite (lookup_mirror _ _ _ _ Hm) in Hx.
  apply fmap_Some in Hx as (c & Hc & ->).
  assert (settled_changes r !! id = Some (mark_unapplied c)) as Hd.
  { rewrite settled_changes_lookup, Hc. unfold mark_pending. by rewrite Hp, lookup_empty. }
  specialize (Hall _ _ Hd). simpl in Hall. unfold mark_unapplied in Hall.
  case_bool_decide as Hi; [|done]. by destruct o.
Qed.

(** A sealed log recovery accepts leaves at most finalize intents unanswered. *)
Lemma sealed_pending_finalize pin r i o :
  mirrors pin r i → map_Forall (λ _ c, Is_true (sealed_terminal o c)) (settled_changes r) →
  ∀ id op kd, rs_pending r !! id = Some (op, kd) → kd = Intent_Finalize.
Proof.
  intros Hm Hall id op kd Hp. destruct (decide (kd = Intent_Finalize)) as [|Hk]; [done|].
  destruct (mi_intended _ _ _ Hm id) as [c Hc]; [by eexists|].
  assert (is_Some (settled_changes r !! id)) as [d Hd] by (rewrite settled_changes_lookup, Hc; by eexists).
  assert (cr_state d = AppliedUnknown) as Hu by (apply (settled_unknown r id c d Hc Hd); left; eauto).
  specialize (Hall _ _ Hd). simpl in Hall. unfold sealed_terminal in Hall. rewrite Hu in Hall. by destruct o.
Qed.

(** The start-up inspection and the recovery of a log say the same. *)
Definition inspection_agrees (pin : EvaluationIntentPin) (path : string) (es : list WalEntry)
    (identity : FileIdentity) k (inspection : outcome WalError LogState) : Prop :=
  match inspection with
  | Ret (Log_Pending p) =>
    sealed k = None ∧ pt_intent_pin p = pin ∧ pt_path p = path ∧ pt_identity p = identity
    ∧ pt_entry_count p = length es ∧ pt_next_sequence p = next_sequence k
    ∧ NoDup (rc_change_id <$> pt_changes p) ∧ Forall (reported k) (pt_changes p)
    ∧ (∀ id, is_Some (changes k !! id) → id ∈ rc_change_id <$> pt_changes p)
    ∧ (pt_has_applied_unknown p = true
       ↔ ∃ id c, changes k !! id = Some c ∧ cr_state c = AppliedUnknown)
  | Ret (Log_Sealed t) =>
    sealed k = Some (st_outcome t) ∧ st_authorization t = commit_authorization k
    ∧ st_intent_pin t = pin ∧ st_path t = path
  | Throw _ =>
    sealed k = Some Seal_Committed ∧ commit_authorization k = None
    ∨ is_Some (sealed k) ∧ ∃ id op, log_pending es !! id = Some (op, Intent_Finalize)
  | Panic => False
  end.

Lemma replay_pending tid pin caps total es r r' :
  fold_result (replay_entry tid pin caps total) r es = Ok r' →
  rs_pending r' = foldl pending_step (rs_pending r) es.
Proof.
  revert r. induction es as [|e es IH]; intros r; cbn [fold_result foldl]; [by intros [= <-]|].
  destruct (replay_entry tid pin caps total r e) as [r1|] eqn:He; [|done].
  intros ->%IH. f_equal. unfold replay_entry in He. apply result_bind_Ok in He as (ra & Hh & Hev).
  apply replay_header_Ok in Hh as (_ & _ & ->). unfold replay_event in Hev. unfold pending_step.
  destruct (event e) as [stored g|c|id op kd|o|a cs].
  - unfold replay_started in Hev. rewrite reject_bind_Ok in Hev. by destruct Hev as [_ [= <-]].
  - unfold replay_upsert in Hev. rewrite reject_bind_Ok, result_bind_Ok in Hev.
    by destruct Hev as (_ & [heads order] & _ & [= <-]).
  - unfold replay_intent in Hev. rewrite ok_or_bind_Ok in Hev. destruct Hev as (c & _ & Hev).
    rewrite reject_bind_Ok in Hev. by destruct Hev as [_ [= <-]].
  - unfold replay_seal in Hev. rewrite reject_bind_Ok in Hev. by destruct Hev as [_ [= <-]].
  - unfold replay_commit in Hev. rewrite !reject_bind_Ok, result_bind_Ok in Hev.
    destruct Hev as (_ & _ & seen & _ & Hev). apply result_bind_Ok in Hev as (cc & _ & Hev).
    rewrite !reject_bind_Ok in Hev. by destruct Hev as (_ & _ & [= <-]).
Qed.

Lemma replay_sequence_length tid pin caps total es r r' :
  fold_result (replay_entry tid pin caps total) r es = Ok r' →
  rs_sequence r' = (rs_sequence r + Z.of_nat (length es))%Z.
Proof.
  revert r. induction es as [|e es IH]; intros r; cbn [fold_result length]; [intros [= <-]; lia|].
  destruct (replay_entry tid pin caps total r e) as [r1|] eqn:He; [|done]. intros ->%IH.
  unfold replay_entry in He. apply result_bind_Ok in He as (ra & Hh & Hev).
  apply replay_header_Ok in Hh as (_ & _ & ->).
  rewrite (replay_event_sequence _ _ _ _ _ _ _ Hev). simpl. lia.
Qed.

(** The loops agree on any log that recovery replays from its start record. *)
Lemma replayed_mirrors tid pin caps es r :
  replay tid pin caps es = Ok r → rs_saw_start r = true →
  es ≠ [] ∧
  ((∃ i, fold_outcome (inspect_entry tid (length es)) (0, inspect_start) es = Ret (length es, i)
     ∧ mirrors pin r i)
   ∨ (∃ err, fold_outcome (inspect_entry tid (length es)) (0, inspect_start) es = Throw err)
     ∧ rs_sealed r = Some Seal_Committed ∧ rs_authorization r = None).
Proof.
  unfold replay. destruct es as [|e es]; [by intros [= <-]|]. cbn [fold_result fold_outcome].
  destruct (replay_entry tid pin caps _ replay_start e) as [r1|] eqn:He; [|done]. intros Hes Hstart.
  split; [done|]. pose proof He as He'. unfold replay_entry in He'.
  apply result_bind_Ok in He' as (ra & Hh & Hev). apply replay_header_Ok in Hh as (Htid & Hseq & ->).
  pose proof (replay_event_sequence _ _ _ _ _ _ _ Hev) as Hs1. simpl in Hs1.
  destruct (rs_saw_start r1) eqn:Hs.
  - destruct (replay_event_start _ _ _ _ _ _ _ Hev) as [(stored & g & He1 & _)|Hz];
      [|by rewrite Hz in Hs].
    destruct e as [sq t ev]. simpl in *. subst sq t ev. unfold replay_event in Hev. simpl in Hev.
    unfold replay_started in Hev. apply reject_bind_Ok in Hev as [Hr [= <-]]. apply reject_Ok in Hr.
    rewrite !orb_false_iff, bool_decide_eq_false in Hr. destruct Hr as [[_ Hpin%dec_stable] _]. subst stored.
    unfold inspect_entry at 1, inspect_header. simpl. rewrite !bool_decide_neq_refl. simpl.
    eapply (log_mirrors _ _ _ _ es 1); [|done|done|exact Hes].
    split; simpl; try done; try (intros *; by rewrite lookup_empty); eauto.
  - rewrite (unstarted_stays _ _ _ _ _ _ _ Hs ltac:(lia) Hes) in Hstart. done.
Qed.

Lemma pending_reported tid pin caps w r i k path es identity :
  mirrors pin r i → recover_finish tid pin caps w r = Ret k → is_Some (is_generation i) →
  rs_sequence r = Z.of_nat (length es) → rs_sealed r = None →
  inspection_agrees pin path es identity k (of_result (inspect_finish path tid (length es) identity i)).
Proof.
  intros Hm Hfin [g Hg] Hseq Hns.
  destruct (recover_finish_Ret _ _ _ _ _ _ Hfin) as (_ & Hch & _ & _ & Hnx & Hsd & _ & _).
  unfold inspect_finish. rewrite (mi_pin _ _ _ Hm), (mi_sealed _ _ _ Hm), Hns, Hg. simpl.
  assert (∀ id x, is_changes i !! id = Some x → rc_change_id x = id) as Hids.
  { intros id x Hx. rewrite (lookup_mirror _ _ _ _ Hm) in Hx.
    apply fmap_Some in Hx as (c & Hc & ->). by apply (mi_ids _ _ _ Hm). }
  split_and!; try done; try congruence.
  - by apply values_by_id_nodup.
  - apply Forall_forall. intros x (id & Hx)%values_by_id_elem. rewrite (lookup_mirror _ _ _ _ Hm) in Hx.
    apply fmap_Some in Hx as (c & Hc & ->). pose proof (mi_ids _ _ _ Hm _ _ Hc) as Hid.
    assert (is_Some (settled_changes r !! id)) as [d Hd] by (rewrite settled_changes_lookup, Hc; by eexists).
    destruct (settled_reported _ _ _ _ Hc Hd) as ([] & Hv & Hst).
    exists d. simpl. rewrite Hch, Hid. split_and!; done.
  - intros id. rewrite Hch, settled_changes_lookup, fmap_is_Some. intros [c Hc].
    apply list_elem_of_fmap. exists (recovery_change c). split; [by rewrite <- (mi_ids _ _ _ Hm _ _ Hc)|].
    apply values_by_id_elem. exists id. by rewrite (lookup_mirror _ _ _ _ Hm), Hc.
  - rewrite (unknown_outcome_iff _ _ _ Hm), Hch. done.
Qed.

Lemma sealed_reported tid pin caps w r i k path es identity o :
  mirrors pin r i → recover_finish tid pin caps w r = Ret k →
  rs_pending r = log_pending es → rs_sealed r = Some o →
  inspection_agrees pin path es identity k (of_result (inspect_finish path tid (length es) identity i)).
Proof.
  intros Hm Hfin Hp Ho.
  destruct (recover_finish_Ret _ _ _ _ _ _ Hfin) as (_ & Hch & _ & _ & Hnx & Hsd & Hau & Hall).
  specialize (Hall o Ho). unfold inspect_finish.
  rewrite (mi_pin _ _ _ Hm), (mi_sealed _ _ _ Hm), Ho, (mi_pending _ _ _ Hm), (mi_authorization _ _ _ Hm).
  simpl. destruct (decide (rs_pending r = ∅)) as [He|Hne].
  - rewrite (bool_decide_eq_true_2 (rs_pending r = ∅)) by done. simpl.
    rewrite bool_decide_eq_true_2 by (by eapply terminal_mirrors_settled). simpl.
    destruct o; [|simpl; split_and!; try done; try congruence].
    + destruct (rs_authorization r) as [a|] eqn:Ha; simpl; [split_and!; congruence|].
      left. split; congruence.
    + rewrite Hau. symmetry. apply (mi_unsealed _ _ _ Hm). by rewrite Ho.
  - rewrite (bool_decide_eq_false_2 (rs_pending r = ∅)) by done. simpl. right. split; [rewrite Hsd, Ho; by eexists|].
    destruct (map_choose _ Hne) as (id & [op kd] & Hid). exists id, op. rewrite <- Hp, Hid.
    by rewrite (sealed_pending_finalize _ _ _ _ Hm Hall _ _ _ Hid).
Qed.
End Agreement.

(** ** No panic

    The inspection indexes its changes by the ids it has seen. *)

Section NoPanic.
Context `{J : Json, !Serialize Value, !Serialize (list ChangeId), !Sha256}.
Implicit Types (i : InspectState).

Definition knows_changes i : Prop := ∀ id, id ∈ is_known i → is_Some (is_changes i !! id).

Lemma insert_terminals_grows ts (m : gmap ChangeId RecoveryChange) id :
  is_Some (m !! id) → is_Some (insert_terminals ts m !! id).
Proof.
  unfold insert_terminals. revert m. induction ts as [|t ts IH]; intros m Hm; simpl; [done|].
  apply IH. destruct (decide (id = cr_change_id t)) as [->|Hne].
  - rewrite lookup_insert_eq. by eexists.
  - by rewrite lookup_insert_ne.
Qed.

Lemma inspect_event_knows tid total n e i :
  knows_changes i →
  match inspect_event tid total n e i with
  | Ret i' => knows_changes i'
  | Throw _ => True
  | Panic => False
  end.
Proof.
  intros Hk. unfold inspect_event. destruct (event e) as [pin g|c|id op kd|o|a cs].
  - unfold inspect_started. destruct (reject _ _); [exact Hk|done].
  - destruct (inspect_upsert tid c i) as [i'|] eqn:Hu; [|done]. simpl. unfold inspect_upsert in Hu.
    rewrite !reject_bind_Ok, result_bind_Ok in Hu.
    destruct Hu as (_ & _ & _ & _ & [heads [bs ps]] & _ & Hu). apply reject_bind_Ok in Hu as [_ [= <-]].
    intros id. simpl. rewrite elem_of_union, elem_of_singleton.
    destruct (decide (id = cr_change_id c)) as [->|Hne]; [rewrite lookup_insert_eq; by eexists|].
    rewrite lookup_insert_ne by done. intros [?|?]; [done|]. by apply Hk.
  - unfold inspect_intent. destruct (decide (id ∈ is_known i)) as [Hin|Hin];
      [rewrite (bool_decide_eq_false_2 (id ∉ _)) by auto|by rewrite (bool_decide_eq_true_2 (id ∉ _))].
    simpl. destruct (bool_decide (kd = Intent_Finalize)); [|exact Hk]. simpl.
    destruct (Hk id) as [x Hx]; [done|]. rewrite Hx. destruct (reject _ _); [exact Hk|done].
  - destruct (inspect_seal total n o i) as [i'|] eqn:Hs; [|done]. simpl. unfold inspect_seal in Hs.
    rewrite !reject_bind_Ok in Hs. by destruct Hs as (_ & _ & [= <-]).
  - destruct (inspect_commit tid total n a cs i) as [i'|] eqn:Hc; [|done]. simpl.
    unfold inspect_commit in Hc. rewrite reject_bind_Ok, result_bind_Ok in Hc.
    destruct Hc as (_ & seen & _ & Hc). apply result_bind_Ok in Hc as (cc & _ & Hc).
    rewrite !reject_bind_Ok in Hc. destruct Hc as (_ & _ & [= <-]).
    intros id Hid. by apply insert_terminals_grows, Hk.
Qed.

Lemma inspect_loop_knows tid total es n i :
  knows_changes i → fold_outcome (inspect_entry tid total) (n, i) es ≠ Panic.
Proof.
  revert n i. induction es as [|e es IH]; intros n i Hk; cbn [fold_outcome]; [done|].
  unfold inspect_entry. destruct (inspect_header tid n e); [|done]. simpl.
  pose proof (inspect_event_knows tid total n e i Hk) as He.
  destruct (inspect_event tid total n e i) as [i'| |]; [|done|done]. simpl. by apply IH.
Qed.

(** The outcome of the last seal of a log. *)
Definition seal_step (o : option TransactionSeal) (e : WalEntry) : option TransactionSeal :=
  match event e with
  | Sealed outcome => Some outcome
  | CommitSealed _ _ => Some Seal_Committed
  | _ => o
  end.
Definition log_seal (es : list WalEntry) : option TransactionSeal := foldl seal_step None es.

Lemma log_seal_None es : log_seal es = None ↔ Forall (λ e, is_seal e = false) es.
Proof.
  unfold log_seal. induction es as [|e es IH] using rev_ind; [done|].
  rewrite foldl_app, Forall_app, Forall_singleton. simpl. unfold seal_step, is_seal.
  destruct (event e); rewrite <- ?IH; naive_solver.
Qed.

Lemma inspect_event_seal tid total n e i i' :
  inspect_event tid total n e i = Ret i' → is_sealed i' = seal_step (is_sealed i) e.
Proof.
  unfold inspect_event, seal_step. destruct (event e) as [pin g|c|id op kd|o|a cs].
  - unfold inspect_started. destruct (reject _ _); [|done]. by intros [= <-].
  - destruct (inspect_upsert tid c i) as [i1|] eqn:Hu; [|done]. simpl. intros [= <-].
    unfold inspect_upsert in Hu. rewrite !reject_bind_Ok, result_bind_Ok in Hu.
    destruct Hu as (_ & _ & _ & _ & [heads [bs ps]] & _ & Hu). by apply reject_bind_Ok in Hu as [_ [= <-]].
  - unfold inspect_intent. destruct (reject _ _); [|done]. simpl.
    destruct (if bool_decide (kd = Intent_Finalize) then _ else _) as [[]| |]; try done. by intros [= <-].
  - destruct (inspect_seal total n o i) as [i1|] eqn:Hs; [|done]. simpl. intros [= <-].
    unfold inspect_seal in Hs. rewrite !reject_bind_Ok in Hs. by destruct Hs as (_ & _ & [= <-]).
  - destruct (inspect_commit tid total n a cs i) as [i1|] eqn:Hc; [|done]. simpl. intros [= <-].
    unfold inspect_commit in Hc. rewrite reject_bind_Ok, result_bind_Ok in Hc.
    destruct Hc as (_ & seen & _ & Hc). apply result_bind_Ok in Hc as (cc & _ & Hc).
    rewrite !reject_bind_Ok in Hc. by destruct Hc as (_ & _ & [= <-]).
Qed.

Lemma inspect_loop_seal tid total es n i n' i' :
  fold_outcome (inspect_entry tid total) (n, i) es = Ret (n', i') →
  is_sealed i' = foldl seal_step (is_sealed i) es.
Proof.
  revert n i. induction es as [|e es IH]; intros n i; cbn [fold_outcome foldl]; [by intros [= _ <-]|].
  unfold inspect_entry at 1. destruct (inspect_header tid n e); [|done]. simpl.
  destruct (inspect_event tid total n e i) as [i1| |] eqn:He; [|done|done]. simpl.
  intros ->%IH. by rewrite (inspect_event_seal _ _ _ _ _ _ He).
Qed.

(** A log is listed as sealed with the outcome of its seal, as pending without one. *)
Lemma inspect_log_seal path tid es identity :
  match inspect_log path tid es identity with
  | Ret (Log_Pending _) => log_seal es = None
  | Ret (Log_Sealed t) => log_seal es = Some (st_outcome t)
  | _ => True
  end.
Proof.
  unfold inspect_log. case_bool_decide; [done|]. simpl.
  destruct (fold_outcome _ _ _) as [[n i]| |] eqn:Hl; [|done|done]. simpl.
  apply inspect_loop_seal in Hl. simpl in Hl. fold (log_seal es) in Hl. unfold inspect_finish.
  destruct (is_intent_pin i); [|done]. simpl. destruct (is_sealed i) as [o|].
  - destruct (reject (negb (bool_decide (is_pending i = ∅))) _); [|done]. simpl.
    destruct (reject _ _); [|done]. simpl.
    destruct (match o with Seal_Committed => _ | Seal_RolledBack => _ end); [|done]. simpl. done.
  - by destruct (is_generation i).
Qed.
End NoPanic.

(** ** The properties *)

Section Properties.
Context `{J : Json, !Serialize Value, !Serialize (list ChangeId), !Sha256}.
Context {W T : Type} `{!TransactionWal T}.
Implicit Types (caps : CapabilitySnapshot W) (k : TransactionKernel W T) (w : T).

Lemma agrees_on_log tid pin caps w es path identity k :
  load w = Ok es → recover tid pin caps w = Ret k →
  inspection_agrees pin path es identity k (inspect_log path tid es identity).
Proof.
  intros Hw Hk. destruct (recover_Ret _ _ _ _ _ _ Hw Hk) as (r & Hr & Hfin).
  destruct (recover_finish_Ret _ _ _ _ _ _ Hfin) as (Hstart & _ & _ & _ & _ & Hsd & Hau & _).
  destruct (replayed_mirrors _ _ _ _ _ Hr Hstart) as [Hne Hloop]. unfold inspect_log.
  rewrite bool_decide_eq_false_2 by done. simpl.
  pose proof (replay_pending _ _ _ _ _ _ _ Hr) as Hp. simpl in Hp.
  destruct Hloop as [(i & Hi & Hm)|([err Herr] & Hs & Ha)].
  - rewrite Hi. simpl. destruct (rs_sealed r) as [o|] eqn:Ho; [by eapply sealed_reported|].
    eapply pending_reported; try done; [by apply (mi_generation _ _ _ Hm)|].
    apply (replay_sequence_length _ _ _ _ _ _ _ Hr).
  - rewrite Herr. simpl. left. split; congruence.
Qed.

(** C31. The start-up inspection of a log agrees with its recovery, for any log
    whatever: when [recover] accepts it, [inspect_log] calls it pending exactly
    when the kernel is open, with the kernel's next sequence number, its changes
    and whether the outcome of one of them is unknown, and sealed with the
    kernel's outcome and authorization otherwise; it refuses only a commit seal
    without an authorization, and a sealed log with an unanswered finalize. *)
Theorem discovery_agrees_with_recovery tid pin caps w es path identity k :
  load w = Ok es → recover tid pin caps w = Ret k →
  inspection_agrees pin path es identity k (inspect_log path tid es identity).
Proof. apply agrees_on_log. Qed.

Lemma inspect_log_no_panic path tid es identity :
  inspect_log path tid es identity ≠ Panic.
Proof.
  unfold inspect_log. case_bool_decide; [done|]. simpl.
  pose proof (inspect_loop_knows tid (length es) es 0 inspect_start) as Hn.
  destruct (fold_outcome _ _ _) as [[n i]| |]; [simpl; by destruct (inspect_finish _ _ _ _ _)|done|].
  exfalso. apply Hn; [|done]. by intros id ?%not_elem_of_empty.
Qed.

(** [inspect_log] does not panic on any sequence of records. *)
Theorem inspection_never_panics path tid es identity :
  inspect_log path tid es identity ≠ Panic.
Proof. apply inspect_log_no_panic. Qed.
End Properties.

Section Reachable.
Context `{J : Json, !Serialize Value, !Serialize (list ChangeId), !Sha256}.
Context {W T : Type} `{!TransactionWal T, !WalLaws T, !EncodesIds, !Sha256Laws}.
Implicit Types (s : Sys W T) (k : TransactionKernel W T) (w : T).

Definition inspect_from s (w : T) (path : string) (identity : FileIdentity) : outcome WalError LogState :=
  inspect_log path (transaction_id (kernel s)) (durable w) identity.

(** What discovery and recovery make of a part of a log without its seal. *)
Lemma unsealed_inspected s es path identity :
  reachable s → es `prefix_of` durable (wal (kernel s)) → es ≠ [] → log_seal es = None →
  (Z.of_nat (length es) ≤ u64_max)%Z →
  ∃ p (k : TransactionKernel W MemoryWal),
    inspect_log path (transaction_id (kernel s)) es identity = Ret (Log_Pending p)
    ∧ recover (transaction_id (kernel s)) (intent_pin (kernel s)) (capabilities (kernel s))
        (MkMemoryWal es false None) = Ret k
    ∧ pt_intent_pin p = intent_pin (kernel s) ∧ sealed k = None
    ∧ ∀ id c, changes k !! id = Some c → logged_record es id c.
Proof.
  intros Hs Hp Hne Hu%log_seal_None Hlen. destruct (unsealed_good s es Hs Hp Hne Hu) as [r Hg].
  assert (@wal_ok _ MemoryWal _ _ (MkMemoryWal es false None)) as Hok by exact I.
  destruct (recover_good _ _ _ (MkMemoryWal es false None) r (world s) Hok Hg Hlen)
    as (k & Hk & Hl & Hw & _ & _ & _ & Hch).
  assert (good (MkSys k (world s) [])) as Hgood by (by exists r).
  pose proof (good_open _ Hgood) as Hopen. simpl in Hopen.
  pose proof (agrees_on_log _ _ _ (MkMemoryWal es false None) es path identity k eq_refl Hk) as Ha.
  destruct (inspect_log path _ es identity) as [[p|t]|e|]; simpl in Ha.
  - destruct Ha as (_ & Hpin & _). exists p, k. split_and!; try done.
    intros id c. rewrite Hch. by eapply settled_record.
  - destruct Ha as [Ha _]. congruence.
  - destruct Ha as [[Ha _]|[[o Ha] _]]; congruence.
  - done.
Qed.

(** Every crash point of every run is discovered as a pending transaction: the
    inspection of any non-empty unsealed prefix of the log of a reachable state
    reports the transaction pending, under its intent pin, with the next sequence
    number and the changes of the kernel that recovery then builds. *)
Theorem crash_points_are_discovered s w path identity :
  reachable s → crash_log s w → unsealed_log w →
  ∃ p k, inspect_from s w path identity = Ret (Log_Pending p) ∧ recover_from s w = Ret k
    ∧ pt_intent_pin p = intent_pin (kernel s) ∧ pt_next_sequence p = Z.of_nat (length (durable w))
    ∧ Forall (reported k) (pt_changes p)
    ∧ (∀ id, is_Some (changes k !! id) → id ∈ rc_change_id <$> pt_changes p)
    ∧ (pt_has_applied_unknown p = false →
       ∀ id c, changes k !! id = Some c → cr_state c ≠ AppliedUnknown).
Proof.
  intros Hs Hc Hu. destruct (crash_unsealed_good s w Hs Hc Hu) as [r Hg].
  destruct (recover_good _ _ _ w r (world s) (crash_ok _ _ Hc) Hg (crash_length _ _ Hc))
    as (k & Hk & Hl & Hw & _).
  assert (good (MkSys k (world s) [])) as Hgood by (by exists r).
  pose proof (good_open _ Hgood) as Hopen. simpl in Hopen.
  destruct Hl as [Hlog _]. pose proof (lg_sequence _ _ Hlog) as Hseq. simpl in Hseq.
  pose proof (agrees_on_log _ _ _ w _ path identity k (load_durable _ (crash_ok _ _ Hc)) Hk) as Ha.
  unfold inspect_from. destruct (inspect_log path _ _ identity) as [[p|t]|e|]; simpl in Ha.
  - destruct Ha as (_ & Hpin & _ & _ & _ & Hnx & _ & Hrep & Hall & Hun). exists p, k.
    split_and!; try done.
    + rewrite Hnx, Hseq, Hw. pose proof (crash_length _ _ Hc). unfold sequence_at. lia.
    + intros Hf id c Hcc Hst. assert (pt_has_applied_unknown p = true) by (apply Hun; eauto). congruence.
  - destruct Ha as [Ha _]. congruence.
  - destruct Ha as [[Ha _]|[[o Ha] _]]; congruence.
  - done.
Qed.

(** The commit protocol of the coordinator, from a state with no operation left
    without a result, leaves a log that the start-up inspection reports as
    committed under its authorization. *)
Theorem clean_commit_is_discovered cand auth s l1 s1 l2 s2 l3 s3 w path identity :
  reachable s → settled s →
  restore_baseline s = (Ret l1, s1) → replay_candidate cand s1 = (Ret l2, s2) →
  finalize_candidate cand auth s2 = (Ret l3, s3) →
  Candidate_new (change_ids cand) = Ok cand → canonical cand s →
  wal_ok w → durable w = durable (wal (kernel s3)) → (Z.of_nat (length (durable w)) ≤ u64_max)%Z →
  ∃ t, inspect_from s3 w path identity = Ret (Log_Sealed t) ∧ st_outcome t = Seal_Committed
    ∧ st_authorization t = Some auth ∧ st_intent_pin t = intent_pin (kernel s3).
Proof.
  intros Hs Hset Hm1 Hm2 Hm3 Hnew Hcanon Hw Hd Hlen.
  destruct (committed_recovers cand auth s l1 s1 l2 s2 l3 s3 w)
    as (k & Hk & Hsk & Hau & _ & _ & Hp); try done.
  pose proof (agrees_on_log _ _ _ w _ path identity k (load_durable _ Hw) Hk) as Ha.
  unfold inspect_from. destruct (inspect_log path _ _ identity) as [[p|t]|e|]; simpl in Ha.
  - destruct Ha as [Ha _]. congruence.
  - destruct Ha as (Ho & Hta & Hpin & _). exists t. split_and!; try done; congruence.
  - destruct Ha as [[_ Ha]|[_ (id & op & Hpe)]]; [congruence|].
    rewrite Hd in Hpe. rewrite Hp in Hpe. by rewrite lookup_empty in Hpe.
  - done.
Qed.
End Reachable.

(** ** A crash in the middle of an operation, followed by a reboot *)

(** The inspection of the log of a state refuses it. *)
Definition inspection_refuses (s : Sys FakeWorld MemoryWal) : bool :=
  match inspect_from s (wal (kernel s)) "tx.jsonl" (MkFileIdentity 1 1) with
  | Throw _ => true
  | _ => false
  end.

(** The rollback of an interrupted transaction can make its log unreadable for
    good.  The process dies after the apply intent of a replay and the machine
    comes back with the resources at their baselines: the recovered kernel rolls
    back and seals, and the sealed log is corrupt for recovery and for the
    inspection.  After a finalize intent it is the inspection alone that refuses
    the sealed log recovery accepts. *)
Theorem rollback_after_reboot_is_unreadable :
  reachable rebooted_in_replay ∧ is_ret (rollback_all rebooted_in_replay).1 = true
  ∧ sealed (kernel rebooted_rollback) = Some Seal_RolledBack
  ∧ refused_as_corrupt rebooted_rollback = true ∧ inspection_refuses rebooted_rollback = true
  ∧ reachable rebooted_in_finalize ∧ is_ret (rollback_all rebooted_in_finalize).1 = true
  ∧ sealed (kernel refinalized_rollback) = Some Seal_RolledBack
  ∧ refused_as_corrupt refinalized_rollback = false
  ∧ inspection_refuses refinalized_rollback = true.
Proof.
  split.
  { apply (crash_reachable 6 5); [exact replayed_a_reachable| |]; vm_compute; [reflexivity|discriminate]. }
  split; [vm_compute; reflexivity|]. split; [vm_compute; reflexivity|].
  split; [vm_compute; reflexivity|]. split; [vm_compute; reflexivity|]. split.
  { apply (crash_reachable 8 7); [exact committed_a_reachable| |]; vm_compute; [reflexivity|discriminate]. }
  repeat split; vm_compute; reflexivity.
Qed.

(** ** Witnesses *)

Definition identity_a : FileIdentity := MkFileIdentity 1 7.

Lemma is_ret_Ret {A} (o : outcome TransactionError A) : is_ret o = true → ∃ a, o = Ret a.
Proof. destruct o as [a| |]; [by exists a|done|done]. Qed.

Lemma discovery_agrees_with_recovery_witness :
  load (wal (kernel replayed_a)) = Ok (mem_entries (wal (kernel replayed_a)))
  ∧ ∃ k, recover tx fake_intent_pin fake_capabilities (wal (kernel replayed_a)) = Ret k
    ∧ inspection_agrees fake_intent_pin "tx.jsonl" (mem_entries (wal (kernel replayed_a))) identity_a k
        (inspect_log "tx.jsonl" tx (mem_entries (wal (kernel replayed_a))) identity_a).
Proof.
  split; [reflexivity|].
  destruct (is_ret_Ret (recover tx fake_intent_pin fake_capabilities (wal (kernel replayed_a)))) as [k Hk];
    [vm_compute; reflexivity|].
  exists k. split; [exact Hk|].
  exact (discovery_agrees_with_recovery tx fake_intent_pin fake_capabilities (wal (kernel replayed_a))
    _ "tx.jsonl" identity_a k eq_refl Hk).
Defined.

Lemma crash_points_are_discovered_witness :
  reachable replayed_a ∧ crash_log replayed_a (log_at 6) ∧ unsealed_log (log_at 6)
  ∧ ∃ p k, inspect_from replayed_a (log_at 6) "tx.jsonl" identity_a = Ret (Log_Pending p)
      ∧ recover_from replayed_a (log_at 6) = Ret k ∧ Forall (reported k) (pt_changes p).
Proof.
  split; [exact replayed_a_reachable|]. split; [exact log_at_6_crash|].
  split; [exact log_at_6_unsealed|].
  destruct (crash_points_are_discovered replayed_a (log_at 6) "tx.jsonl" identity_a replayed_a_reachable
    log_at_6_crash log_at_6_unsealed) as (p & k & Hp & Hk & _ & _ & Hr & _).
  exists p, k. exact (conj Hp (conj Hk Hr)).
Defined.

Lemma clean_commit_is_discovered_witness :
  reachable experimented_a ∧ settled experimented_a ∧ canonical candidate_a experimented_a
  ∧ ∃ t, inspect_from committed_a (wal (kernel committed_a)) "tx.jsonl" identity_a = Ret (Log_Sealed t)
      ∧ st_outcome t = Seal_Committed ∧ st_authorization t = Some authorization_a
      ∧ st_intent_pin t = intent_pin (kernel committed_a).
Proof.
  assert (canonical candidate_a experimented_a) as Hcanon by (vm_compute; reflexivity).
  split; [exact experimented_a_reachable|]. split; [exact experimented_a_settled|].
  split; [exact Hcanon|].
  destruct restore_returns as [l1 Hl1], replay_returns as [l2 Hl2], finalize_returns as [l3 Hl3].
  apply (clean_commit_is_discovered candidate_a authorization_a experimented_a l1 restored_a l2 replayed_a l3
    committed_a (wal (kernel committed_a)) "tx.jsonl" identity_a
    experimented_a_reachable experimented_a_settled Hl1 Hl2 Hl3).
  - vm_compute. reflexivity.
  - exact Hcanon.
  - exact I.
  - reflexivity.
  - vm_compute. discriminate.
Defined.
