(* ===== verification/Directory.v ===== *)
(** * The store and its directory ([tuning_agent/src/kernel/transaction/store.rs])

    The operations of [TransactionStore] on the directory of the logs: [create],
    [open_existing], [discard_unstarted], [discover].  A directory maps names to
    nodes; a node carries what the environment answers when it is listed, typed
    and opened, and the directory the outcomes of the calls that change it.  The
    theorems: discovery reports every log once, a log cut by a crash is reported and
    recovered from the entries it still holds, and creating and discarding touch no
    other file. *)

From S2P Require Export Discovery Codec.

(** ** The file system *)

Inductive FileKind := RegularFile | DirectoryFile | SymbolicLink | OtherFile.
#[export] Instance FileKind_eq_dec : EqDecision FileKind.
Proof. solve_decision. Defined.

(** [node_listed]: the entry is read and its type is asked for; [node_open]: an
    error of [open(2)] other than those that follow from the kind. *)
Record Node := MkNode {
  node_listed : result string (result string FileKind);
  node_kind : FileKind;
  node_open : option string;
  node_file : OsFile;
}.

Record Directory := MkDirectory {
  nodes : gmap string Node;
  next_identity : FileIdentity;
  next_file_outcomes : list io_outcome;
  faults : list (option string);
}.

Definition set_nodes (m : gmap string Node) (d : Directory) : Directory :=
  MkDirectory m (next_identity d) (next_file_outcomes d) (faults d).

(** A call that changes the directory: it fails with the next fault. *)
Definition syscall : M Directory string unit := λ d,
  match faults d with
  | [] => (Ret tt, d)
  | fault :: rest =>
    (match fault with Some error => Throw error | None => Ret tt end,
     MkDirectory (nodes d) (next_identity d) (next_file_outcomes d) rest)
  end.

Definition os_enoent : string := "No such file or directory (os error 2)".
Definition os_eexist : string := "File exists (os error 17)".
Definition os_eisdir : string := "Is a directory (os error 21)".
Definition os_eloop : string := "Too many levels of symbolic links (os error 40)".

(** [open(2)] with [O_NOFOLLOW], for reading or for appending. *)
Definition open_node (append : bool) (name : string) (d : Directory) : result string OsFile :=
  match nodes d !! name with
  | None => Err os_enoent
  | Some node =>
    match node_open node with
    | Some error => Err error
    | None =>
      match node_kind node with
      | SymbolicLink => Err os_eloop
      | DirectoryFile => if append then Err os_eisdir else Ok (node_file node)
      | _ => Ok (node_file node)
      end
    end
  end.

(** [open(2)] with [O_CREAT | O_EXCL]. *)
Definition create_node (name : string) : M Directory string OsFile :=
  _ ← syscall;
  d ← gets id;
  match nodes d !! name with
  | Some _ => throw os_eexist
  | None =>
    let file := MkOsFile "" (Ok (MkMetadata true (id_device (next_identity d))
                                   (id_inode (next_identity d))))
                  (next_file_outcomes d) None in
    let next := MkFileIdentity (id_device (next_identity d)) (id_inode (next_identity d) + 1) in
    _ ← modify (λ d, MkDirectory (<[name := MkNode (Ok (Ok RegularFile)) RegularFile None file]> (nodes d))
                       next (next_file_outcomes d) (faults d));
    mret file
  end.

Definition remove_node (name : string) : M Directory string unit :=
  _ ← syscall;
  d ← gets id;
  match nodes d !! name with
  | None => throw os_enoent
  | Some _ => modify (set_nodes (delete name (nodes d)))
  end.

(** A failed call with the message of the source around its error. *)
Definition or_fail {A} (message : string → string) (m : M Directory string A)
    : M Directory WalError A :=
  r ← attempt m;
  match r with
  | Ok a => mret a
  | Err error => throw (wal_err (message error))
  end.

(** ** The inventory *)

Section Inventory.
Context `{J : Json}.

Record UnstartedTransaction := MkUnstarted {
  ut_transaction_id : TransactionId;
  ut_path : string;
  ut_identity : FileIdentity;
}.
Record CorruptTransactionLog := MkCorrupt { ct_path : string; ct_error : string }.

Record RecoveryInventory := MkInventory {
  inv_pending : list PendingTransaction;
  inv_sealed : list SealedTransaction;
  inv_unstarted : list UnstartedTransaction;
  inv_corrupt : list CorruptTransactionLog;
}.

(** What [discover] makes of one entry of the directory. *)
Inductive Finding :=
  | Found_Pending (p : PendingTransaction)
  | Found_Sealed (t : SealedTransaction)
  | Found_Unstarted (u : UnstartedTransaction)
  | Found_Corrupt (c : CorruptTransactionLog).

Definition add_finding (f : Finding) (i : RecoveryInventory) : RecoveryInventory :=
  match f with
  | Found_Pending p => MkInventory (inv_pending i ++ [p]) (inv_sealed i) (inv_unstarted i) (inv_corrupt i)
  | Found_Sealed t => MkInventory (inv_pending i) (inv_sealed i ++ [t]) (inv_unstarted i) (inv_corrupt i)
  | Found_Unstarted u => MkInventory (inv_pending i) (inv_sealed i) (inv_unstarted i ++ [u]) (inv_corrupt i)
  | Found_Corrupt c => MkInventory (inv_pending i) (inv_sealed i) (inv_unstarted i) (inv_corrupt i ++ [c])
  end.

(** The four final sorts. *)
Definition sort_inventory (i : RecoveryInventory) : RecoveryInventory :=
  MkInventory
    (sort_by (λ x y, id_le (pt_transaction_id x) (pt_transaction_id y)) (inv_pending i))
    (sort_by (λ x y, id_le (st_transaction_id x) (st_transaction_id y)) (inv_sealed i))
    (sort_by (λ x y, id_le (ut_transaction_id x) (ut_transaction_id y)) (inv_unstarted i))
    (sort_by (λ x y, String.leb (ct_path x) (ct_path y)) (inv_corrupt i)).
End Inventory.

(** ** The store *)

Section Store.
Context `{J : Json, !Serialize Value, !Serialize (list ChangeId), !Sha256}.
Context `{!Serialize WalEntry, !Deserialize WalEntry}.
(** The canonical path of the root, and the order in which [read_dir] lists a
    directory. *)
Context (root : string) (listing : gmap string Node → list (string * Node)).

(** [self.root.join(name)]. *)
Definition store_path (name : string) : string := root +:+ "/" +:+ name.

Definition wal_path (id : TransactionId) : result WalError string :=
  name ← filename_for id;
  Ok (store_path name).

Definition sync_directory : M Directory WalError unit :=
  or_fail (λ error, "failed to sync transaction store '" +:+ root +:+ "': " +:+ error)
    (_ ← syscall; syscall).

Definition create (id : TransactionId) : M Directory WalError FileWal :=
  name ← lift (filename_for id);
  let path := store_path name in
  file ← or_fail (λ error, "refusing to create transaction WAL '" +:+ path +:+ "': " +:+ error)
           (create_node name);
  secured ← attempt syscall;
  match secured with
  | Err error =>
    _ ← attempt (E' := WalError) (remove_node name);
    _ ← attempt (E' := WalError) sync_directory;
    throw (wal_err ("failed to secure new transaction WAL '" +:+ path +:+ "': " +:+ error))
  | Ok _ =>
    _ ← or_fail (λ error, "failed to sync new transaction WAL '" +:+ path +:+ "': " +:+ error) syscall;
    _ ← sync_directory;
    lift (from_open_file path file)
  end.

Definition open_existing (p : PendingTransaction) (d : Directory) : result WalError FileWal :=
  name ← filename_for (pt_transaction_id p);
  let path := store_path name in
  _ ← reject (bool_decide (path ≠ pt_path p))
        (wal_err "pending WAL path does not match its transaction id");
  file ← map_err (λ error, wal_err ("failed to open existing transaction WAL '" +:+ path
                                    +:+ "': " +:+ error)) (open_node true name d);
  meta ← map_err (λ error, wal_err ("failed to inspect existing transaction WAL '" +:+ path
                                    +:+ "': " +:+ error)) (metadata file);
  _ ← reject (negb (is_regular meta))
        (wal_err ("transaction WAL '" +:+ path +:+ "' is not a regular file"));
  _ ← reject (bool_decide (identity_from_metadata meta ≠ pt_identity p))
        (wal_err ("transaction WAL '" +:+ path +:+ "' changed after discovery"));
  from_open_file path file.

Record OpenedWal := MkOpened {
  opened_entries : list WalEntry;
  opened_identity : FileIdentity;
  opened_len : nat;
}.

Definition load_read_only (name : string) (d : Directory) : result WalError OpenedWal :=
  let path := store_path name in
  file ← map_err (λ error, wal_err ("failed to open transaction WAL '" +:+ path
                                    +:+ "': " +:+ error)) (open_node false name d);
  meta ← map_err (λ error, wal_err ("failed to inspect transaction WAL '" +:+ path
                                    +:+ "': " +:+ error)) (metadata file);
  _ ← reject (negb (is_regular meta))
        (wal_err ("transaction WAL '" +:+ path +:+ "' is not a regular file"));
  entries ← load_file file path;
  Ok (MkOpened entries (identity_from_metadata meta) (String.length (contents file))).

Definition discard_unstarted (u : UnstartedTransaction) : M Directory WalError unit :=
  name ← lift (filename_for (ut_transaction_id u));
  let path := store_path name in
  _ ← lift (reject (bool_decide (path ≠ ut_path u))
        (wal_err "unstarted WAL path does not match its transaction id"));
  d ← gets id;
  opened ← lift (load_read_only name d);
  _ ← lift (reject (negb (opened_len opened =? 0) || negb (bool_decide (opened_entries opened = [])))
        (wal_err ("refusing to discard unstarted WAL '" +:+ path
           +:+ "' because it is no longer an empty regular file")));
  _ ← lift (reject (bool_decide (opened_identity opened ≠ ut_identity u))
        (wal_err ("refusing to discard unstarted WAL '" +:+ path
           +:+ "' because it changed after discovery")));
  _ ← or_fail (λ error, "failed to discard unstarted transaction WAL '" +:+ path +:+ "': " +:+ error)
        (remove_node name);
  sync_directory.

(** One iteration of the loop of [discover]; [None] is a [continue] that reports
    nothing. *)
Definition discover_entry (d : Directory) (entry : string * Node) : outcome WalError (option Finding) :=
  let '(name, node) := entry in
  let path := store_path name in
  let corrupt_log path error := Ret (Some (Found_Corrupt (MkCorrupt path error))) in
  match node_listed node with
  | Err error => corrupt_log root ("failed to read transaction store entry: " +:+ error)
  | Ok file_type =>
    if bool_decide (extension name ≠ Some "jsonl") then Ret None else
    match file_type with
    | Err error => corrupt_log path ("failed to inspect transaction log: " +:+ error)
    | Ok kind =>
      if bool_decide (kind ≠ RegularFile) then
        corrupt_log path "transaction log is not a regular file"
      else
      match transaction_id_from_filename name with
      | Err error => corrupt_log path (wal_error_message error)
      | Ok transaction_id =>
        match load_read_only name d with
        | Err error => corrupt_log path (wal_error_message error)
        | Ok opened =>
          if bool_decide (opened_entries opened = []) then
            if opened_len opened =? 0 then
              Ret (Some (Found_Unstarted (MkUnstarted transaction_id path (opened_identity opened))))
            else corrupt_log path "transaction WAL contains no records"
          else
            match inspect_log path transaction_id (opened_entries opened) (opened_identity opened) with
            | Ret (Log_Pending p) => Ret (Some (Found_Pending p))
            | Ret (Log_Sealed t) => Ret (Some (Found_Sealed t))
            | Throw error => corrupt_log path (wal_error_message error)
            | Panic => Panic
            end
        end
      end
    end
  end.

Definition discover_step (d : Directory) (i : RecoveryInventory) (entry : string * Node)
    : outcome WalError RecoveryInventory :=
  finding ← discover_entry d entry;
  Ret (match finding with Some f => add_finding f i | None => i end).

Definition discover : M Directory WalError RecoveryInventory :=
  _ ← or_fail (λ error, "failed to list transaction store '" +:+ root +:+ "': " +:+ error) syscall;
  d ← gets id;
  λ d', (i ← fold_outcome (discover_step d) (MkInventory [] [] [] []) (listing (nodes d));
         Ret (sort_inventory i), d').
End Store.

(** ** Discovery *)

Section Discover.
Context `{J : Json, !Serialize Value, !Serialize (list ChangeId), !Sha256}.
Context `{!Serialize WalEntry, !Deserialize WalEntry}.
Context (root : string).
Implicit Types (d : Directory) (i : RecoveryInventory).

Definition inventory_paths i : list string :=
  (pt_path <$> inv_pending i) ++ (st_path <$> inv_sealed i) ++ (ut_path <$> inv_unstarted i)
  ++ (ct_path <$> inv_corrupt i).

Definition finding_path (f : Finding) : string :=
  match f with
  | Found_Pending p => pt_path p
  | Found_Sealed t => st_path t
  | Found_Unstarted u => ut_path u
  | Found_Corrupt c => ct_path c
  end.

(** The path under which an entry must be reported: none for a file that is no log. *)
Definition entry_path (entry : string * Node) : option string :=
  match node_listed entry.2 with
  | Err _ => Some root
  | Ok _ => if bool_decide (extension entry.1 = Some "jsonl") then Some (store_path root entry.1) else None
  end.

Lemma add_finding_paths f i : inventory_paths (add_finding f i) ≡ₚ finding_path f :: inventory_paths i.
Proof. unfold inventory_paths. destruct f; simpl; rewrite fmap_app; simpl; solve_Permutation. Qed.

Lemma sort_inventory_paths i : inventory_paths (sort_inventory i) ≡ₚ inventory_paths i.
Proof. unfold inventory_paths, sort_inventory. simpl. by rewrite !sort_by_perm. Qed.

Lemma inspect_finish_path path tid n identity st r :
  inspect_finish path tid n identity st = Ok r →
  match r with Log_Pending p => pt_path p = path ∧ pt_transaction_id p = tid ∧ pt_identity p = identity
             | Log_Sealed t => st_path t = path ∧ st_transaction_id t = tid end.
Proof.
  unfold inspect_finish. rewrite result_bind_Ok. intros (pin & _ & Hr).
  destruct (is_sealed st) as [o|].
  - rewrite !reject_bind_Ok, result_bind_Ok in Hr. by destruct Hr as (_ & _ & a & _ & [= <-]).
  - rewrite result_bind_Ok in Hr. by destruct Hr as (g & _ & [= <-]).
Qed.

Lemma inspect_log_path path tid es identity r :
  inspect_log path tid es identity = Ret r →
  match r with Log_Pending p => pt_path p = path ∧ pt_transaction_id p = tid ∧ pt_identity p = identity
             | Log_Sealed t => st_path t = path ∧ st_transaction_id t = tid end.
Proof.
  unfold inspect_log. case_bool_decide; [done|]. simpl.
  destruct (fold_outcome _ _ _) as [[n st]| |]; [|done|done]. simpl.
  destruct (inspect_finish _ _ _ _ _) as [r'|] eqn:Hf; [|done]. simpl. intros [= <-].
  by eapply inspect_finish_path.
Qed.

Lemma discover_entry_path d entry :
  match discover_entry root d entry with
  | Ret f => finding_path <$> f = entry_path entry
  | Throw _ => False
  | Panic => False
  end.
Proof.
  destruct entry as [name node]. unfold discover_entry, entry_path. simpl.
  destruct (node_listed node) as [file_type|]; [|done].
  destruct (decide (extension name = Some "jsonl")) as [He|He].
  2: { by rewrite (bool_decide_eq_true_2 (_ ≠ _)), bool_decide_eq_false_2. }
  rewrite (bool_decide_eq_false_2 (extension name ≠ _)) by auto. rewrite bool_decide_eq_true_2 by done.
  destruct file_type as [kind|]; [|done]. case_bool_decide; [done|].
  destruct (transaction_id_from_filename name) as [tid|]; [|done].
  destruct (load_read_only root name d) as [o|]; [|done].
  case_bool_decide; [by destruct (opened_len o =? 0)|].
  destruct (inspect_log _ tid _ _) as [[p|t]|e|] eqn:Hi; [| |done|].
  - apply inspect_log_path in Hi as [Hp _]. simpl. by rewrite Hp.
  - apply inspect_log_path in Hi as [Hp _]. simpl. by rewrite Hp.
  - exact (inspect_log_no_panic _ _ _ _ Hi).
Qed.

Context (listing : gmap string Node → list (string * Node)).

(** What the loop reports of an entry. *)
Definition entry_finding d (entry : string * Node) : option Finding :=
  match discover_entry root d entry with Ret f => f | _ => None end.

Lemma entry_finding_paths d (entries : list (string * Node)) :
  finding_path <$> omap (entry_finding d) entries = omap entry_path entries.
Proof.
  induction entries as [|e entries IH]; [done|]. pose proof (discover_entry_path d e) as He.
  csimpl. unfold entry_finding at 1. destruct (discover_entry root d e) as [[f|]| |]; [| |done..].
  - rewrite <- He. csimpl. by f_equal.
  - by rewrite <- He.
Qed.

(** The loop reports one finding per entry that needs one, in the order of the
    entries, and never fails. *)
Lemma discover_loop d entries i :
  fold_outcome (discover_step root d) i entries
  = Ret (foldl (flip add_finding) i (omap (entry_finding d) entries)).
Proof.
  revert i. induction entries as [|e entries IH]; intros i; [done|]. cbn [fold_outcome].
  unfold discover_step. pose proof (discover_entry_path d e) as He. csimpl. unfold entry_finding at 1.
  destruct (discover_entry root d e) as [[f|]| |]; simpl in *; [apply IH|apply IH|done..].
Qed.

Lemma add_findings_paths fs i :
  inventory_paths (foldl (flip add_finding) i fs) ≡ₚ inventory_paths i ++ (finding_path <$> fs).
Proof.
  revert i. induction fs as [|f fs IH]; intros i; simpl; [by rewrite app_nil_r|].
  rewrite IH. unfold flip. rewrite add_finding_paths. simpl. apply Permutation_middle.
Qed.

(** The inventory has a finding. *)
Definition in_inventory (f : Finding) i : Prop :=
  match f with
  | Found_Pending p => p ∈ inv_pending i
  | Found_Sealed t => t ∈ inv_sealed i
  | Found_Unstarted u => u ∈ inv_unstarted i
  | Found_Corrupt c => c ∈ inv_corrupt i
  end.

Lemma in_add_finding f g i : f = g ∨ in_inventory f i → in_inventory f (add_finding g i).
Proof. intros [->|Hf]; [|destruct f]; destruct g; simpl in *; set_solver. Qed.

Lemma in_add_findings fs i f : f ∈ fs ∨ in_inventory f i → in_inventory f (foldl (flip add_finding) i fs).
Proof.
  revert i. induction fs as [|g fs IH]; intros i; simpl.
  - intros [?%not_elem_of_nil|?]; done.
  - rewrite elem_of_cons. intros [[Hf|Hf]|Hf]; apply IH; [right|by left|right]; apply in_add_finding; auto.
Qed.

Lemma in_sort_inventory f i : in_inventory f (sort_inventory i) ↔ in_inventory f i.
Proof. destruct f; simpl; by rewrite sort_by_perm. Qed.

Lemma discover_Ret d inv d' :
  discover root listing d = (Ret inv, d') →
  nodes d' = nodes d ∧ ∃ d0, nodes d0 = nodes d
    ∧ inv = sort_inventory (foldl (flip add_finding) (MkInventory [] [] [] [])
              (omap (entry_finding d0) (listing (nodes d)))).
Proof.
  unfold discover, or_fail, syscall, attempt, gets, mbind, M_bind, mret, M_ret, throw.
  intros Hd.
  assert (∃ d0, nodes d0 = nodes d ∧
    (fold_outcome (discover_step root d0) (MkInventory [] [] [] []) (listing (nodes d0)) ≫= λ i, Ret (sort_inventory i), d0)
    = (Ret inv, d')) as (d0 & Hn & He).
  { destruct (faults d) as [|[error|] rest]; [by exists d|done|].
    by exists (MkDirectory (nodes d) (next_identity d) (next_file_outcomes d) rest). }
  rewrite Hn, discover_loop in He. simpl in He. injection He as <- <-. split; [done|]. by exists d0.
Qed.

(** What the loop finds of an entry is in the inventory. *)
Lemma discover_lists d inv d' name node f :
  (∀ m, listing m ≡ₚ map_to_list m) → discover root listing d = (Ret inv, d') →
  nodes d !! name = Some node →
  (∀ d0, nodes d0 = nodes d → discover_entry root d0 (name, node) = Ret (Some f)) → in_inventory f inv.
Proof.
  intros Hl Hd Hn Hf. destruct (discover_Ret _ _ _ Hd) as (_ & d0 & Hn0 & ->).
  apply in_sort_inventory, in_add_findings. left. apply list_elem_of_omap. exists (name, node). split.
  - rewrite Hl. by apply elem_of_map_to_list.
  - unfold entry_finding. by rewrite Hf.
Qed.

Lemma discover_no_panic d : (discover root listing d).1 ≠ Panic.
Proof.
  unfold discover, or_fail, syscall, attempt, gets, mbind, M_bind, mret, M_ret, throw.
  destruct (faults d) as [|[error|] rest]; [|done|]; by rewrite discover_loop.
Qed.

Lemma discover_paths d inv d' :
  (∀ m, listing m ≡ₚ map_to_list m) → discover root listing d = (Ret inv, d') →
  inventory_paths inv ≡ₚ omap entry_path (map_to_list (nodes d)).
Proof.
  intros Hl Hd. destruct (discover_Ret _ _ _ Hd) as (_ & d0 & _ & ->).
  rewrite sort_inventory_paths, add_findings_paths, entry_finding_paths. simpl. by rewrite Hl.
Qed.

(** Discovery loses no log.  When the directory can be listed, every entry that
    ends in [.jsonl] is reported under its path exactly once, as pending, sealed,
    unstarted or corrupt, an entry that cannot be read is reported as corrupt
    under the path of the root, and nothing else is reported; the pending
    transactions come in the order of their ids.  Discovery changes no file. *)
Theorem discovery_is_complete d inv d' :
  (∀ m, listing m ≡ₚ map_to_list m) →
  discover root listing d = (Ret inv, d') →
  inventory_paths inv ≡ₚ omap entry_path (map_to_list (nodes d))
  ∧ Sorted (λ p q, id_le (pt_transaction_id p) (pt_transaction_id q) = true) (inv_pending inv)
  ∧ nodes d' = nodes d.
Proof.
  intros Hl Hd. split; [by eapply discover_paths|].
  destruct (discover_Ret _ _ _ Hd) as (Hn & d0 & _ & ->). split; [|done].
  apply sort_by_Sorted. intros x y. apply id_le_total.
Qed.
End Discover.

(** ** From a crash to the recovered kernel *)

Section CrashToRecovery.
Context `{J : Json, !Serialize Value, !Serialize (list ChangeId), !Sha256}.
Context `{!Serialize WalEntry, !Deserialize WalEntry}.
Context {W T : Type} `{!TransactionWal T, !WalLaws T, !EncodesIds, !Sha256Laws}.
Context (root : string) (listing : gmap string Node → list (string * Node)).
Implicit Types (s : Sys W T) (d : Directory).

(** A listed regular file that can be opened and read. *)
Record readable_log (node : Node) (m : FileMetadata) : Prop := {
  rl_listed : node_listed node = Ok (Ok RegularFile);
  rl_kind : node_kind node = RegularFile;
  rl_open : node_open node = None;
  rl_metadata : metadata (node_file node) = Ok m;
  rl_regular : is_regular m = true;
  rl_read : read_fault (node_file node) = None;
}.

Lemma open_readable append name node m d :
  nodes d !! name = Some node → readable_log node m → open_node append name d = Ok (node_file node).
Proof. intros Hn [_ Hk Ho _ _]. unfold open_node. by rewrite Hn, Ho, Hk. Qed.

Lemma id_of_filename name tid :
  transaction_id_from_filename name = Ok tid → filename_for tid = Ok name ∧ extension name = Some "jsonl".
Proof.
  intros [Hf _]%transaction_id_from_filename_Ok. split; [done|].
  apply filename_for_Ok in Hf as [_ ->]. apply filename_extension.
Qed.

(** What discovery makes of a readable log. *)
Lemma entry_readable name node m tid d :
  transaction_id_from_filename name = Ok tid → nodes d !! name = Some node → readable_log node m →
  let path := store_path root name in
  let corrupt error := Found_Corrupt (MkCorrupt path error) in
  discover_entry root d (name, node) =
    match load_file (node_file node) path with
    | Err error => Ret (Some (corrupt (wal_error_message error)))
    | Ok es =>
      if bool_decide (es = []) then
        Ret (Some (if String.length (contents (node_file node)) =? 0
                   then Found_Unstarted (MkUnstarted tid path (identity_from_metadata m))
                   else corrupt "transaction WAL contains no records"))
      else match inspect_log path tid es (identity_from_metadata m) with
           | Ret (Log_Pending p) => Ret (Some (Found_Pending p))
           | Ret (Log_Sealed t) => Ret (Some (Found_Sealed t))
           | Throw error => Ret (Some (corrupt (wal_error_message error)))
           | Panic => Panic
           end
    end.
Proof.
  intros Hname Hn Hr. simpl. destruct (id_of_filename _ _ Hname) as [_ Hext].
  unfold discover_entry. rewrite (rl_listed _ _ Hr), Hext, !bool_decide_neq_refl, Hname.
  unfold load_read_only. rewrite (open_readable _ _ _ _ _ Hn Hr). simpl.
  rewrite (rl_metadata _ _ Hr). simpl. rewrite (rl_regular _ _ Hr). simpl.
  destruct (load_file _ _) as [es|error]; simpl; [|done].
  case_bool_decide; [|done]. by destruct (_ =? 0).
Qed.

(** Recovery reads the log and nothing else of the [TransactionWal]. *)
Lemma recover_same_log {T1 T2} `{!TransactionWal T1, !TransactionWal T2} tid pin
    (caps : CapabilitySnapshot W) (w : T1) (w' : T2) es k :
  load w = Ok es → load w' = Ok es → recover tid pin caps w = Ret k →
  ∃ k' : TransactionKernel W T2, recover tid pin caps w' = Ret k' ∧ changes k' = changes k
    ∧ change_order k' = change_order k ∧ sealed k' = sealed k ∧ next_sequence k' = next_sequence k.
Proof.
  intros Hw Hw' Hr. destruct (recover_Ret _ _ _ _ _ _ Hw Hr) as (r & Hrep & Hfin).
  unfold recover. rewrite Hw'. simpl. rewrite Hrep. simpl. unfold recover_finish in Hfin |- *.
  destruct (rs_saw_start r); [|done]. simpl in Hfin |- *.
  destruct (match rs_sealed r with Some o => _ | None => _ end); [|done]. simpl in Hfin |- *.
  destruct (applied_candidates _ _) as [ids| |]; try done. simpl in Hfin |- *.
  destruct (require_heads _ _ ids); try done. simpl in Hfin |- *.
  destruct (if bool_decide (ids = []) then _ else _); try done. simpl in Hfin |- *.
  injection Hfin as <-. by eexists.
Qed.

(** The file a pending transaction names opens as the log that was discovered. *)
Lemma open_pending name node m tid es p d :
  transaction_id_from_filename name = Ok tid → nodes d !! name = Some node → readable_log node m →
  load_file (node_file node) (store_path root name) = Ok es →
  pt_transaction_id p = tid → pt_path p = store_path root name → pt_identity p = identity_from_metadata m →
  ∃ f, open_existing root p d = Ok f ∧ load f = Ok es.
Proof.
  intros Hname Hn Hr Hload Ht Hp Hi. destruct (id_of_filename _ _ Hname) as [Hfn _].
  unfold open_existing. rewrite Ht, Hfn, Hp. simpl. rewrite bool_decide_neq_refl. simpl.
  rewrite (open_readable _ _ _ _ _ Hn Hr). simpl. rewrite (rl_metadata _ _ Hr). simpl.
  rewrite (rl_regular _ _ Hr), Hi, bool_decide_neq_refl. simpl. unfold from_open_file.
  rewrite (rl_metadata _ _ Hr). simpl. rewrite (rl_regular _ _ Hr). simpl. rewrite Hload. simpl.
  by eexists.
Qed.

Definition listed_corrupt (name : string) (inv : RecoveryInventory) : Prop :=
  ∃ c, c ∈ inv_corrupt inv ∧ ct_path c = store_path root name.

(** A transaction that can be taken up again from the entries [es] of its log. *)
Definition listed_recoverable s (es : list WalEntry) (inv : RecoveryInventory) d : Prop :=
  ∃ p f k, p ∈ inv_pending inv ∧ pt_transaction_id p = transaction_id (kernel s)
    ∧ open_existing root p d = Ok f ∧ load f = Ok es
    ∧ recover (pt_transaction_id p) (pt_intent_pin p) (capabilities (kernel s)) f = Ret k
    ∧ sealed k = None ∧ ∀ id c, changes k !! id = Some c → logged_record es id c.

(** How the entries [es] that a crash left of the log of [s] are listed. *)
Definition listed s (es : list WalEntry) (name : string) (inv : RecoveryInventory) d : Prop :=
  match es, log_seal es with
  | [], _ => ∃ u, u ∈ inv_unstarted inv ∧ ut_transaction_id u = transaction_id (kernel s)
      ∧ ut_path u = store_path root name
  | _, None => listed_recoverable s es inv d
  | _, Some o =>
    (∃ t, t ∈ inv_sealed inv ∧ st_transaction_id t = transaction_id (kernel s)
      ∧ st_path t = store_path root name ∧ st_outcome t = o)
    ∨ listed_corrupt name inv
  end.

Lemma entries_are_listed s es name node m d inv d' :
  reachable s → es `prefix_of` durable (wal (kernel s)) → (Z.of_nat (length es) ≤ u64_max)%Z →
  transaction_id_from_filename name = Ok (transaction_id (kernel s)) →
  nodes d !! name = Some node → readable_log node m →
  load_file (node_file node) (store_path root name) = Ok es → (es = [] → contents (node_file node) = "") →
  (∀ m, listing m ≡ₚ map_to_list m) → discover root listing d = (Ret inv, d') →
  listed s es name inv d'.
Proof.
  intros Hs Hp Hlen Hname Hnode Hr Hload Hempty Hlist Hdisc.
  destruct (discover_Ret _ _ _ _ _ Hdisc) as (Hn' & _).
  assert (∀ f, (∀ d0, nodes d0 = nodes d → discover_entry root d0 (name, node) = Ret (Some f)) →
    in_inventory f inv) as Hin by (intros f Hf; by eapply discover_lists).
  assert (∀ d0, nodes d0 = nodes d → nodes d0 !! name = Some node) as Hnodes by (by intros d0 ->).
  pose proof (λ d0 Hd0, entry_readable name node m _ d0 Hname (Hnodes d0 Hd0) Hr) as Hentry.
  simpl in Hentry. rewrite Hload in Hentry. destruct es as [|e es]; simpl.
  { rewrite (Hempty eq_refl) in Hentry. exact (ex_intro _ _ (conj (Hin _ Hentry) (conj eq_refl eq_refl))). }
  rewrite (bool_decide_eq_false_2 (e :: es = [])) in Hentry by done.
  destruct (log_seal (e :: es)) as [o|] eqn:Ho.
  - pose proof (inspect_log_seal (store_path root name) (transaction_id (kernel s)) (e :: es)
      (identity_from_metadata m)) as Hseal.
    destruct (inspect_log _ _ _ _) as [[p|t]|error|] eqn:Hi; [congruence| | |].
    + left. apply inspect_log_path in Hi as [Hpath Htid]. exists t. split_and!; [exact (Hin _ Hentry)|done..|congruence].
    + right. eexists. split; [exact (Hin _ Hentry)|done].
    + by apply inspect_log_no_panic in Hi.
  - destruct (unsealed_inspected s (e :: es) (store_path root name) (identity_from_metadata m) Hs Hp)
      as (p & k & Hi & Hk & Hpin & Hopen & Hch); [done..|].
    rewrite Hi in Hentry. destruct (inspect_log_path _ _ _ _ _ Hi) as (Hpp & Hpt & Hpi).
    destruct (open_pending name node m _ (e :: es) p d' Hname) as (f & Hf & Hfl);
      [by rewrite Hn'|done..|].
    assert (load (MkMemoryWal (e :: es) false None) = Ok (e :: es)) as Hml by reflexivity.
    destruct (recover_same_log _ _ _ _ f _ k Hml Hfl Hk) as (k' & Hk' & Hkc & _ & Hks & _).
    exists p, f, k'. split_and!; [exact (Hin _ Hentry)|done..| | |].
    + by rewrite Hpt, Hpin.
    + by rewrite Hks.
    + intros id c. rewrite Hkc. apply Hch.
Qed.

(** C30. From a crash to the recovered kernel.  Let the file of a log be cut
    anywhere in the lines of the log of a reachable state: by a crash in the
    middle of an append, or one that loses what was not synced.  A cut inside a
    line makes discovery report the log as corrupt.  Any other leaves the lines
    of some first entries of the log.  With none, the transaction is listed as
    unstarted.  With some, but not the seal, it is listed as pending, the pending
    transaction opens the same file, and recovery from that file, under the intent
    pin the inventory gives, succeeds with an open kernel whose every change is its
    last logged record, or that record with an unknown outcome.  With the seal, it
    is listed as sealed with the seal's outcome, or as corrupt. *)
Theorem crashed_log_is_found_and_recovered `{!WalCodec, !TornLines} s ls rest name node m d inv d' :
  reachable s → encoded (durable (wal (kernel s))) ls → lines_text ls = contents (node_file node) +:+ rest →
  (Z.of_nat (length ls) ≤ u64_max)%Z →
  transaction_id_from_filename name = Ok (transaction_id (kernel s)) →
  nodes d !! name = Some node → readable_log node m →
  (∀ m, listing m ≡ₚ map_to_list m) → discover root listing d = (Ret inv, d') →
  (∃ es e, es ++ [e] `prefix_of` durable (wal (kernel s)) ∧ cut_line es e (contents (node_file node))
     ∧ listed_corrupt name inv)
  ∨ ∃ es, es `prefix_of` durable (wal (kernel s)) ∧ whole_lines es (contents (node_file node))
     ∧ listed s es name inv d'.
Proof.
  intros Hs Hls Htext Hlen Hname Hnode Hr Hlist Hdisc.
  destruct (cut_text _ _ _ _ Hls Htext) as [(es & Hp & Hw)|(es & e & Hp & Hc)].
  - right. exists es. split_and!; [done..|]. eapply entries_are_listed; try done.
    + apply prefix_length in Hp. rewrite (Forall2_length _ _ _ Hls) in Hp. lia.
    + apply load_whole_lines; [apply Hr|done].
    + intros ->. by apply whole_lines_nil.
  - left. exists es, e. split_and!; [done..|].
    destruct (load_cut_line (node_file node) (store_path root name) es e) as [error He]; [apply Hr|done|].
    exists (MkCorrupt (store_path root name) (wal_error_message error)). split; [|done].
    apply (discover_lists root listing d inv d' name node (Found_Corrupt _) Hlist Hdisc Hnode).
    intros d0 Hd0. rewrite (entry_readable name node m _ d0 Hname); [|by rewrite Hd0|done].
    simpl. by rewrite He.
Qed.
End CrashToRecovery.

(** ** Creating and discarding logs *)

Section Changes.
Context `{J : Json, !Serialize WalEntry, !Deserialize WalEntry}.
Context (root : string).
Implicit Types (d : Directory) (m : gmap string Node).

Lemma wp_syscall m d :
  nodes d = m → wp syscall (λ _ d', nodes d' = m) (λ _ d', nodes d' = m) d.
Proof. intros <-. unfold wp, syscall. by destruct (faults d) as [|[]]. Qed.

Lemma wp_or_fail {A} message (c : M Directory string A) Q R d :
  wp c Q (λ e, R (wal_err (message e))) d → wp (or_fail message c) Q R d.
Proof.
  intros Hc. unfold or_fail. apply wp_bind, wp_attempt. eapply wp_mono; [exact Hc| |]; simpl.
  - intros a d' Ha. by apply wp_ret.
  - intros e d' He. by apply wp_throw.
Qed.

Lemma wp_sync_directory m d :
  nodes d = m → wp (sync_directory root) (λ _ d', nodes d' = m) (λ _ d', nodes d' = m) d.
Proof.
  intros Hn. apply wp_or_fail, wp_bind. eapply wp_mono; [by apply wp_syscall| |done].
  intros [] d' Hd'. by apply wp_syscall.
Qed.

Lemma wp_create_node name d :
  wp (create_node name)
    (λ f d', nodes d !! name = None ∧ contents f = "" ∧ read_fault f = None
       ∧ (∃ dv ino, metadata f = Ok (MkMetadata true dv ino))
       ∧ ∃ node, node_file node = f ∧ nodes d' = <[name := node]> (nodes d))
    (λ _ d', nodes d' = nodes d) d.
Proof.
  apply wp_bind. eapply wp_mono; [by apply (wp_syscall (nodes d))| |done]. intros [] d' Hd'. simpl.
  apply wp_bind, wp_gets. unfold id. rewrite Hd'. destruct (nodes d !! name) eqn:Hname; [by apply wp_throw|].
  apply wp_bind, wp_modify, wp_ret. simpl. split_and!; try done; [by do 2 eexists|].
  eexists. split; [|by rewrite Hd']. done.
Qed.

Lemma wp_remove_node name d :
  wp (remove_node name)
    (λ _ d', is_Some (nodes d !! name) ∧ nodes d' = delete name (nodes d))
    (λ _ d', nodes d' = nodes d) d.
Proof.
  apply wp_bind. eapply wp_mono; [by apply (wp_syscall (nodes d))| |done]. intros [] d' Hd'. simpl.
  apply wp_bind, wp_gets. unfold id. rewrite Hd'. destruct (nodes d !! name) eqn:Hname; [|by apply wp_throw].
  apply wp_modify. simpl. split; [by eexists|done].
Qed.

(** A new log: an empty regular file under a name that was free. *)
Definition new_log (id : TransactionId) d d' (w : FileWal) : Prop :=
  ∃ name node, filename_for id = Ok name ∧ nodes d !! name = None
  ∧ nodes d' = <[name := node]> (nodes d) ∧ node_file node = file w
  ∧ file_path w = store_path root name ∧ contents (file w) = "" ∧ file_sealed w = false
  ∧ file_load w = Ok [].

Definition keeps_nodes d d' : Prop := ∀ name node, nodes d !! name = Some node → nodes d' !! name = Some node.

Lemma wp_create id d :
  wp (create root id) (λ w d', new_log id d d' w) (λ _ d', keeps_nodes d d') d.
Proof.
  unfold create. apply wp_bind, wp_lift; [|intros e _ name node; done]. intros name Hname.
  apply wp_bind, wp_or_fail. eapply wp_mono; [apply wp_create_node| |intros e d' He name' node'; by rewrite He].
  simpl. intros f d1 (Hnone & Hc & Hr & (dv & ino & Hm) & node & Hnf & Hd1).
  assert (∀ d2, nodes d2 = <[name := node]> (nodes d) → keeps_nodes d d2) as Hkeep.
  { intros d2 Hd2 name' node' Hn'. rewrite Hd2, lookup_insert_ne; [done|]. intros ->. congruence. }
  apply wp_bind, wp_attempt. eapply wp_mono; [by apply (wp_syscall (nodes d1))| |]; simpl.
  - intros [] d2 Hd2. apply wp_bind, wp_or_fail.
    eapply wp_mono; [by apply (wp_syscall (nodes d1))| |intros e d3 Hd3; apply Hkeep; congruence].
    intros [] d3 Hd3. apply wp_bind.
    eapply wp_mono; [by apply (wp_sync_directory (nodes d1))| |intros e d4 Hd4; apply Hkeep; congruence].
    intros [] d4 Hd4. apply wp_lift; [|intros e _; apply Hkeep; congruence].
    intros w Hw. unfold from_open_file in Hw. rewrite Hm in Hw. simpl in Hw.
    unfold load_file in Hw. rewrite Hr, Hc in Hw. simpl in Hw. injection Hw as <-.
    exists name, node. split_and!; try done; [congruence|].
    unfold file_load, load_file. simpl. by rewrite Hr, Hc.
  - intros error d2 Hd2. apply wp_bind, wp_attempt.
    eapply (wp_mono _ _ (λ _ d3, keeps_nodes d d3) _ (λ _ d3, keeps_nodes d d3)).
    { eapply wp_mono; [apply wp_remove_node| |]; simpl.
      - intros _ d3 [_ Hd3] name' node' Hn'. rewrite Hd3, Hd2, Hd1, lookup_delete_ne; [|congruence].
        rewrite lookup_insert_ne; [done|congruence].
      - intros _ d3 Hd3. apply Hkeep. congruence. }
    all: intros _ d3 Hd3; simpl; apply wp_bind, wp_attempt;
      (eapply wp_mono; [by apply (wp_sync_directory (nodes d3))| |]); simpl;
      intros _ d4 Hd4; apply wp_throw; intros name' node' Hn'; rewrite Hd4; by apply Hd3.
Qed.

(** [create] never reuses or overwrites a log: on success it has added one
    file, empty and unsealed, under the name of its transaction, which was free;
    on failure every file of the directory is as it was. *)
Theorem create_is_exclusive id d :
  match create root id d with
  | (Ret w, d') => new_log id d d' w
  | (Throw _, d') => keeps_nodes d d'
  | (Panic, _) => False
  end.
Proof. exact (wp_create id d). Qed.

(** The file of an unstarted transaction: empty, regular, and the one discovered. *)
Definition empty_log_file (u : UnstartedTransaction) (name : string) d : Prop :=
  filename_for (ut_transaction_id u) = Ok name ∧ ut_path u = store_path root name
  ∧ ∃ node meta, nodes d !! name = Some node ∧ metadata (node_file node) = Ok meta
      ∧ is_regular meta = true ∧ identity_from_metadata meta = ut_identity u
      ∧ contents (node_file node) = "".

Lemma open_node_Ok append name d f :
  open_node append name d = Ok f → ∃ node, nodes d !! name = Some node ∧ node_file node = f.
Proof.
  unfold open_node. destruct (nodes d !! name) as [node|]; [|done].
  destruct (node_open node); [done|]. intros Hf. exists node. split; [done|].
  destruct (node_kind node); [| |done|]; [by injection Hf| |by injection Hf].
  destruct append; [done|]. by injection Hf.
Qed.

Lemma string_length_0 s : String.length s = 0 → s = "".
Proof. by destruct s. Qed.

(** [discard_unstarted] removes a file only when it is the empty regular file
    that was discovered for the transaction, and never another one. *)
Theorem discard_removes_only_empty_logs u d :
  match discard_unstarted root u d with
  | (Ret _, d') => ∃ name, empty_log_file u name d ∧ nodes d' = delete name (nodes d)
  | (Throw _, d') =>
    nodes d' = nodes d ∨ ∃ name, empty_log_file u name d ∧ nodes d' = delete name (nodes d)
  | (Panic, _) => False
  end.
Proof.
  change (wp (discard_unstarted root u)
    (λ _ d', ∃ name, empty_log_file u name d ∧ nodes d' = delete name (nodes d))
    (λ _ d', nodes d' = nodes d ∨ ∃ name, empty_log_file u name d ∧ nodes d' = delete name (nodes d)) d).
  unfold discard_unstarted. apply wp_bind, wp_lift; [|by left]. intros name Hname.
  apply wp_bind, wp_lift; [|by left]. intros _ Hpath%reject_Ok. simpl.
  apply wp_bind, wp_gets. unfold id. apply wp_bind, wp_lift; [|by left]. intros o Ho. simpl.
  apply wp_bind, wp_lift; [|by left]. intros _ Hempty%reject_Ok.
  apply wp_bind, wp_lift; [|by left]. intros _ Hid%reject_Ok. simpl.
  assert (empty_log_file u name d) as Hlog.
  { unfold load_read_only in Ho. apply result_bind_Ok in Ho as (f & Hf%map_err_Ok & Ho).
    apply result_bind_Ok in Ho as (meta & Hm%map_err_Ok & Ho).
    apply reject_bind_Ok in Ho as [Hreg%reject_Ok Ho].
    apply result_bind_Ok in Ho as (es & _ & [= <-]). simpl in *.
    destruct (open_node_Ok _ _ _ _ Hf) as (node & Hn & <-).
    apply orb_false_iff in Hempty as [Hlen _]. rewrite negb_false_iff in Hlen, Hreg.
    apply bool_decide_eq_false, dec_stable in Hpath, Hid.
    split_and!; [done|done|]. exists node, meta. split_and!; try done.
    by apply string_length_0, Nat.eqb_eq. }
  apply wp_bind, wp_or_fail. eapply wp_mono; [apply wp_remove_node| |]; simpl.
  - intros [] d1 [_ Hd1]. eapply wp_mono; [by apply (wp_sync_directory (nodes d1))| |]; simpl.
    + intros _ d2 Hd2. exists name. split; [done|congruence].
    + intros _ d2 Hd2. right. exists name. split; [done|congruence].
  - intros _ d1 Hd1. by left.
Qed.
End Changes.

(** ** Witnesses *)

(** *** A crashed log in the codec of [Codec.v] *)

Section CutWitness.
#[local] Existing Instances numbered_Serialize numbered_Deserialize numbered_codec numbered_torn.

Definition numbered_lines (es : list WalEntry) : list string := entry_digits <$> es.

Lemma numbered_encoded es : encoded es (numbered_lines es).
Proof. unfold numbered_lines. induction es; constructor; [done|done]. Qed.

Definition cut_node (text : string) : Node :=
  MkNode (Ok (Ok RegularFile)) RegularFile None (MkOsFile text (Ok (MkMetadata true 1 7)) [] None).
Definition cut_directory (text : string) : Directory :=
  MkDirectory {["tx-7478.jsonl" := cut_node text]} (MkFileIdentity 1 8) [] [].

Lemma cut_readable text : readable_log (cut_node text) (MkMetadata true 1 7).
Proof. by split. Qed.

(** The lines without the newline of the last one. *)
Fixpoint unterminated (ls : list string) : string :=
  match ls with
  | [] => ""
  | [l] => l
  | l :: ls => l +:+ String newline (unterminated ls)
  end.

Lemma unterminated_newline ls : ls ≠ [] → unterminated ls +:+ String newline "" = lines_text ls.
Proof.
  induction ls as [|l [|l' ls] IH]; intros Hne; [done|done|].
  change (lines_text (l :: l' :: ls)) with (l +:+ String newline (lines_text (l' :: ls))).
  change (unterminated (l :: l' :: ls)) with (l +:+ String newline (unterminated (l' :: ls))).
  by rewrite <- IH, <- string_app_assoc, string_app_cons.
Qed.

Lemma lines_text_app ls1 ls2 : lines_text (ls1 ++ ls2) = lines_text ls1 +:+ lines_text ls2.
Proof.
  induction ls1 as [|l ls1 IH]; [done|]. simpl. by rewrite IH, <- string_app_assoc, string_app_cons.
Qed.

Lemma unterminated_whole es : es ≠ [] → whole_lines es (unterminated (numbered_lines es)).
Proof.
  intros Hne. exists (numbered_lines es). split; [apply numbered_encoded|]. right.
  apply unterminated_newline. by destruct es.
Qed.

(** The log of the concrete run, cut after the sixth of its seven lines and
    before the newline of that line: it is found, opened and recovered from six
    entries. *)
Definition six_entries : list WalEntry := mem_entries (log_at 6).
Definition six_lines : string := unterminated (numbered_lines six_entries).

Lemma six_cut :
  lines_text (numbered_lines (mem_entries (wal (kernel replayed_a))))
  = six_lines +:+ (String newline "" +:+ lines_text (numbered_lines (drop 6 (mem_entries (wal (kernel replayed_a)))))).
Proof.
  unfold six_lines, six_entries, log_at, numbered_lines. cbn [mem_entries].
  rewrite string_app_assoc, unterminated_newline, <- lines_text_app, <- fmap_app, take_drop; [done|].
  apply (nonempty_by_length _ 5). rewrite length_fmap. by vm_compute.
Qed.

Lemma discovery_returns root d :
  faults d = [] → ∃ inv, discover root map_to_list d = (Ret inv, d).
Proof.
  intros Hf. unfold discover, or_fail, syscall, attempt, gets, mbind, M_bind, mret, M_ret, throw.
  rewrite Hf. simpl. rewrite discover_loop. by eexists.
Qed.

Lemma Ok_inj {E A} (x y : A) : Ok (E := E) x = Ok y → x = y.
Proof. by intros [= ->]. Qed.

Lemma six_entries_listed inv :
  listed "/var/lib/tuning" replayed_a six_entries "tx-7478.jsonl" inv (cut_directory six_lines) →
  listed_recoverable "/var/lib/tuning" replayed_a six_entries inv (cut_directory six_lines).
Proof.
  assert (log_seal six_entries = None) as Hs by (by vm_compute).
  assert (six_entries ≠ []) as Hne by (apply (nonempty_by_length _ 5); by vm_compute).
  unfold listed. by destruct six_entries; [|rewrite Hs].
Qed.

Lemma crashed_log_is_found_and_recovered_witness :
  ∃ inv, discover "/var/lib/tuning" map_to_list (cut_directory six_lines) = (Ret inv, cut_directory six_lines)
    ∧ listed_recoverable "/var/lib/tuning" replayed_a six_entries inv (cut_directory six_lines).
Proof.
  destruct (discovery_returns "/var/lib/tuning" (cut_directory six_lines) eq_refl) as [inv Hinv].
  exists inv. split; [exact Hinv|].
  assert (load_file (node_file (cut_node six_lines)) (store_path "/var/lib/tuning" "tx-7478.jsonl") = Ok six_entries)
    as Hload.
  { apply load_whole_lines; [reflexivity|]. apply unterminated_whole, (nonempty_by_length _ 5). by vm_compute. }
  destruct (crashed_log_is_found_and_recovered "/var/lib/tuning" map_to_list replayed_a
    (numbered_lines (mem_entries (wal (kernel replayed_a)))) _ "tx-7478.jsonl" (cut_node six_lines)
    (MkMetadata true 1 7) (cut_directory six_lines) inv (cut_directory six_lines)
    replayed_a_reachable (numbered_encoded _) six_cut)
    as [(es & e & _ & Hcut & _)|(es & _ & Hwhole & Hlisted)].
  - unfold numbered_lines. rewrite length_fmap. by vm_compute.
  - by vm_compute.
  - apply lookup_singleton_eq.
  - apply cut_readable.
  - intros m. reflexivity.
  - exact Hinv.
  - exfalso. destruct (load_cut_line (node_file (cut_node six_lines))
      (store_path "/var/lib/tuning" "tx-7478.jsonl") es e eq_refl Hcut) as [error He]. congruence.
  - pose proof (load_whole_lines (node_file (cut_node six_lines))
      (store_path "/var/lib/tuning" "tx-7478.jsonl") es eq_refl Hwhole) as He.
    rewrite Hload in He. apply Ok_inj in He. apply six_entries_listed. rewrite He. exact Hlisted.
Defined.

(** Recovery accepts a log without its last newline, and the next append puts its
    entry on the same line: the log cannot be read any more. *)
Lemma digits_end n q : q ≠ "" → of_digits (digits n +:+ q) = None.
Proof.
  intros Hq. induction n as [n IH|n IH|]; cbn [digits]; rewrite string_app_cons; simpl; [by rewrite IH..|].
  by destruct q.
Qed.

Theorem append_after_a_lost_newline es e path :
  es ≠ [] →
  let w := MkFileWal path (MkOsFile (unterminated (numbered_lines es)) (Ok (MkMetadata true 1 7)) [] None) false in
  load w = Ok es ∧ (write_synced e w).1 = Ok tt ∧ ∃ error, load (write_synced e w).2 = Err error.
Proof.
  intros Hne w. split; [apply load_whole_lines; [done|by apply unterminated_whole]|]. split; [done|].
  destruct es as [|x es _] using rev_ind; [done|].
  assert (contents (file (write_synced e w).2)
    = lines_text (numbered_lines es ++ [entry_digits x +:+ entry_digits e])) as Hc.
  { subst w. unfold numbered_lines. rewrite fmap_app. simpl. rewrite lines_text_snoc.
    assert (∀ ls l, unterminated (ls ++ [l]) = lines_text ls +:+ l) as ->.
    { intros ls l. apply (string_app_inj_tail _ _ (String newline "")).
      rewrite unterminated_newline by (by destruct ls). by rewrite lines_text_snoc, string_app_assoc. }
    by rewrite !string_app_assoc. }
  unfold load, FileWal_wal, file_load, load_file. rewrite Hc. simpl.
  rewrite lines_lines_text.
  2: { apply Forall_app. split; [apply (encoded_lines es), numbered_encoded|]. apply Forall_singleton.
       unfold text_line. rewrite string_ascii_app. apply Forall_app. split; constructor; try done; apply digits_text. }
  destruct (encoded_lines _ _ (numbered_encoded es)) as [_ Hd].
  rewrite fold_result_app, (load_lines_decode _ _ es) by done. simpl.
  assert (from_str (entry_digits x +:+ entry_digits e) = Err "unknown entry") as ->.
  { unfold from_str, numbered_Deserialize, entry_digits. rewrite string_app_cons.
    by rewrite digits_end. }
  assert (is_blank (entry_digits x +:+ entry_digits e) = false) as ->.
  { apply not_true_iff_false. rewrite is_blank_spec. simpl. by intros [? _]%Forall_cons. }
  by eexists.
Qed.
End CutWitness.

(** *** A directory in a table codec *)

(** A table codec for the entries of one log: an entry is written as its sequence
    number. *)
Definition entry_line (e : WalEntry) : string := "entry " +:+ show (sequence e).
#[export] Instance table_Serialize : Serialize WalEntry := λ e, Ok (entry_line e).
#[export] Instance table_Deserialize : Deserialize WalEntry := λ line,
  match filter (λ e, entry_line e = line) (mem_entries (wal (kernel replayed_a))) with
  | e :: _ => Ok e
  | [] => Err "unknown entry"
  end.

Definition file_of (es : list WalEntry) : OsFile :=
  MkOsFile (lines_text (entry_line <$> es)) (Ok (MkMetadata true 1 7)) [] None.
Definition node_of (es : list WalEntry) : Node :=
  MkNode (Ok (Ok RegularFile)) RegularFile None (file_of es).

Definition crashed_directory : Directory :=
  MkDirectory
    (list_to_map [("tx-7478.jsonl", node_of (mem_entries (log_at 6)));
                  (".runtime.lock", node_of []);
                  ("tx-74.jsonl", node_of []);
                  ("tx-XY.jsonl", node_of [])])
    (MkFileIdentity 1 8) [] [].

Definition crashed_inventory : RecoveryInventory :=
  match (discover "/var/lib/tuning" map_to_list crashed_directory).1 with
  | Ret inv => inv
  | _ => MkInventory [] [] [] []
  end.

Lemma crashed_discovery :
  discover "/var/lib/tuning" map_to_list crashed_directory = (Ret crashed_inventory, crashed_directory).
Proof.
  assert (∀ r : outcome WalError RecoveryInventory * Directory,
    match r.1 with Ret _ => true | _ => false end = true → r.2 = crashed_directory →
    r = (Ret (match r.1 with Ret inv => inv | _ => MkInventory [] [] [] [] end), crashed_directory)) as H.
  { intros [[inv| |] d]; simpl; try done. by intros _ ->. }
  apply H; [vm_compute; reflexivity|reflexivity].
Qed.

Lemma discovery_is_complete_witness :
  discover "/var/lib/tuning" map_to_list crashed_directory = (Ret crashed_inventory, crashed_directory)
  ∧ (length (inv_pending crashed_inventory), length (inv_sealed crashed_inventory),
     length (inv_unstarted crashed_inventory), length (inv_corrupt crashed_inventory)) = (1, 0, 1, 1)
  ∧ inventory_paths crashed_inventory
      ≡ₚ omap (entry_path "/var/lib/tuning") (map_to_list (nodes crashed_directory)).
Proof.
  split; [exact crashed_discovery|]. split; [vm_compute; reflexivity|].
  exact (proj1 (discovery_is_complete "/var/lib/tuning" map_to_list crashed_directory crashed_inventory
    crashed_directory (λ m, reflexivity _) crashed_discovery)).
Defined.
