(* ===== verification/Gate.v ===== *)
(** * The recovery gate ([tuning_agent/src/runtime/recovery.rs])

    What the daemon does with the logs of earlier processes before it accepts an
    activation: an early pass that rolls back what the builtin drivers can reach,
    and the gate, which discards unstarted logs, reconciles sealed ones, recovers
    and rolls back pending ones, and opens only when nothing failed.  The state
    joins the world of the drivers and the audit sink to the directory of the
    logs; a log opened for a recovery is written back to its file.

    The second part shows what an open gate means. *)

From S2P Require Export Directory Run.

Local Open Scope Z_scope.

Section Gate.
Context `{JD : JsonData, !Serialize Value, !Serialize (list ChangeId), !Sha256}.
Context `{!Serialize WalEntry, !Deserialize WalEntry}.
Context {W : Type} `{!AuditSink W}.
Context (root : string) (listing : gmap string Node → list (string * Node)).

Record GateState := MkGate {
  gate_world : W;
  gate_directory : Directory;
  failed_items : Z;
  audit_failures : list string;
  failure_details : list string;
  gate_log : list (string * bool);
}.

Definition gate_start (w : W) (d : Directory) : GateState := MkGate w d 0 [] [] [].

Definition set_gate_world w (s : GateState) : GateState :=
  MkGate w (gate_directory s) (failed_items s) (audit_failures s) (failure_details s) (gate_log s).
Definition set_gate_directory d (s : GateState) : GateState :=
  MkGate (gate_world s) d (failed_items s) (audit_failures s) (failure_details s) (gate_log s).

(** ** Audit records *)

(** [audit.record(&AuditRecord::runtime(..))]; the history keeps the event and
    whether it was written. *)
Definition record_runtime {E} (event : string) (data : Value) : M GateState E (result string unit) := λ s,
  let '(record, w) := AuditRecord_runtime event data (gate_world s) in
  let '(r, w) := audit_record record w in
  (Ret r, MkGate w (gate_directory s) (failed_items s) (audit_failures s) (failure_details s)
            ((event, is_ok r) :: gate_log s)).

Definition record_or_collect {E} (event : string) (data : Value) : M GateState E unit :=
  r ← record_runtime event data;
  match r with
  | Ok _ => mret tt
  | Err error => modify (λ s,
      MkGate (gate_world s) (gate_directory s) (failed_items s)
        (audit_failures s ++ ["failed to record '" +:+ event +:+ "': " +:+ error])
        (failure_details s) (gate_log s))
  end.

(** [failed_items += 1; failure_details.push(..)]. *)
Definition fail_item {E} (detail : string) : M GateState E unit := modify (λ s,
  MkGate (gate_world s) (gate_directory s) (failed_items s + 1) (audit_failures s)
    (failure_details s ++ [detail]) (gate_log s)).

(** A path in [json!]: serde refuses one that is not UTF-8, and the macro unwraps. *)
Definition path_value {E} (path : string) : M GateState E Value :=
  if is_utf8 path then mret (json_string path) else panic.

Definition pin_value (pin : EvaluationIntentPin) : Value :=
  json_object [("episode_id", json_integer (pin_episode_id pin));
               ("intent_digest", json_string (as_str (pin_intent_digest pin)));
               ("contract_digest", json_string (as_str (pin_contract_digest pin)))].

(** The fields a record of a transaction with this pin starts with. *)
Definition transaction_fields (id : TransactionId) (pin : EvaluationIntentPin) : list (string * Value) :=
  [("transaction_id", json_string (as_str id)); ("intent_pin", pin_value pin);
   ("episode_id", json_integer (pin_episode_id pin))].
Definition digest_fields (pin : EvaluationIntentPin) : list (string * Value) :=
  [("intent_digest", json_string (as_str (pin_intent_digest pin)));
   ("contract_digest", json_string (as_str (pin_contract_digest pin)))].

(** ** Recovering one transaction *)

Record RecoveryAttemptError := MkAttemptError { attempt_stage : string; attempt_message : string }.

(** The handle of a log writes to its file. *)
Definition write_back (name : string) (f : OsFile) (d : Directory) : Directory :=
  set_nodes (alter (λ node, MkNode (node_listed node) (node_kind node) (node_open node) f) name (nodes d)) d.

Definition recover_pending (capabilities : CapabilitySnapshot W) (p : PendingTransaction)
    : M GateState RecoveryAttemptError Z := λ s,
  match open_existing root p (gate_directory s) with
  | Err error => (Throw (MkAttemptError "open_wal" (wal_error_message error)), s)
  | Ok log =>
    match recover (pt_transaction_id p) (pt_intent_pin p) capabilities log with
    | Throw error => (Throw (MkAttemptError "rebuild_transaction" (error_message error)), s)
    | Panic => (Panic, s)
    | Ret transaction =>
      let '(r, x) := rollback_all (MkSys transaction (gate_world s) []) in
      let name := match filename_for (pt_transaction_id p) with Ok name => name | Err _ => "" end in
      let s := set_gate_directory (write_back name (file (wal (kernel x))) (gate_directory s))
                 (set_gate_world (world x) s) in
      match r with
      | Ret restored => (Ret (Z.of_nat (length restored)), s)
      | Throw error => (Throw (MkAttemptError "rollback" (error_message error)), s)
      | Panic => (Panic, s)
      end
    end
  end.

(** A method of the store. *)
Definition in_store {A} (m : M Directory WalError A) : M GateState WalError A := λ s,
  let '(r, d) := m (gate_directory s) in (r, set_gate_directory d s).

(** [recover_available_before_plugin_bootstrap]. *)
Definition early_recover {E} (capabilities : CapabilitySnapshot W) (p : PendingTransaction)
    : M GateState E unit :=
  if forallb (λ c, bool_decide (is_Some (snapshot_mutation capabilities (rc_capability_id c)))) (pt_changes p)
  then _ ← attempt (recover_pending capabilities p); mret tt
  else mret tt.

Definition recover_available_before_plugin_bootstrap {E} (capabilities : CapabilitySnapshot W)
    : M GateState E unit :=
  r ← attempt (in_store (discover root listing));
  match r with
  | Err _ => mret tt
  | Ok inventory => for_each (early_recover capabilities) (inv_pending inventory)
  end.

(** ** The gate: one definition per loop *)

Definition gate_unstarted {E} (u : UnstartedTransaction) : M GateState E unit :=
  let id := ("transaction_id", json_string (as_str (ut_transaction_id u))) in
  r ← attempt (in_store (discard_unstarted root u));
  match r with
  | Ok _ =>
    path ← path_value (ut_path u);
    record_or_collect "unstarted_transaction_wal_discarded"
      (json_object [id; ("path", path);
         ("reason", json_string "the WAL had no durable Started record, so the transaction protocol could not have performed a mutation")])
  | Err error =>
    _ ← fail_item ("failed to discard unstarted WAL '" +:+ ut_path u +:+ "': " +:+ wal_error_message error);
    path ← path_value (ut_path u);
    record_or_collect "transaction_recovery_failed"
      (json_object [id; ("path", path); ("stage", json_string "discard_unstarted_wal");
                    ("error", json_string (wal_error_message error))])
  end.

(** The outcome and the authorization of a sealed log fit together. *)
Definition seal_consistent (t : SealedTransaction) : bool :=
  match st_outcome t, st_authorization t with
  | Seal_Committed, Some authorization => bool_decide (auth_intent_pin authorization = st_intent_pin t)
  | Seal_RolledBack, None => true
  | _, _ => false
  end.

Definition authorization_fields (a : CommitAuthorization) : list (string * Value) :=
  [("authorization_digest", json_string (as_str (authorization_digest a)));
   ("contract_digest", json_string (as_str (pin_contract_digest (auth_intent_pin a))));
   ("candidate_digest", json_string (as_str (auth_candidate_digest a)));
   ("decision_digest", json_string (as_str (auth_decision_digest a)));
   ("evaluation_evidence_digest", json_string (as_str (auth_evaluation_evidence_digest a)))].

Definition gate_sealed {E} (t : SealedTransaction) : M GateState E unit :=
  let pin := st_intent_pin t in
  let fields := transaction_fields (st_transaction_id t) pin in
  if seal_consistent t then
    path ← path_value (st_path t);
    match st_authorization t with
    | Some authorization =>
      record_or_collect "sealed_commit_reconciled"
        (json_object (fields ++ [("intent_digest", json_string (as_str (pin_intent_digest pin)));
                                 ("path", path)] ++ authorization_fields authorization))
    | None =>
      record_or_collect "sealed_rollback_reconciled"
        (json_object (fields ++ digest_fields pin ++ [("path", path)]))
    end
  else
    _ ← fail_item ("sealed transaction '" +:+ as_str (st_transaction_id t)
                   +:+ "' has inconsistent authorization metadata");
    path ← path_value (st_path t);
    record_or_collect "transaction_recovery_failed"
      (json_object (fields ++ [("path", path); ("stage", json_string "reconcile_seal");
         ("error", json_string "sealed transaction has inconsistent authorization metadata")])).

Definition gate_corrupt {E} (c : CorruptTransactionLog) : M GateState E unit :=
  _ ← fail_item ("corrupt WAL '" +:+ ct_path c +:+ "': " +:+ ct_error c);
  path ← path_value (ct_path c);
  record_or_collect "transaction_recovery_failed"
    (json_object [("stage", json_string "inspect_wal"); ("path", path);
                  ("error", json_string (ct_error c))]).

Definition gate_pending {E} (capabilities : CapabilitySnapshot W) (p : PendingTransaction)
    : M GateState E unit :=
  let pin := pt_intent_pin p in
  let fields := transaction_fields (pt_transaction_id p) pin ++ digest_fields pin in
  let unknown := json_bool (pt_has_applied_unknown p) in
  let recorded := ("recorded_capability_generation", json_integer (pt_capability_generation p)) in
  let current := ("current_capability_generation", json_integer (snap_generation capabilities)) in
  r ← attempt (recover_pending capabilities p);
  match r with
  | Ok restored_change_count =>
    record_or_collect "transaction_recovered"
      (json_object (fields ++ [("restored_change_count", json_integer restored_change_count);
         ("had_applied_unknown", unknown); recorded; current;
         ("generation_changed",
          json_bool (bool_decide (pt_capability_generation p ≠ snap_generation capabilities)))]))
  | Err error =>
    _ ← fail_item ("transaction '" +:+ as_str (pt_transaction_id p) +:+ "' failed during "
                   +:+ attempt_stage error +:+ ": " +:+ attempt_message error);
    path ← path_value (pt_path p);
    record_or_collect "transaction_recovery_failed"
      (json_object (fields ++ [("path", path); ("stage", json_string (attempt_stage error));
         ("error", json_string (attempt_message error)); ("had_applied_unknown", unknown);
         recorded; current]))
  end.

(** The gate after the loops. *)
Definition gate_verdict : M GateState string unit :=
  s ← gets id;
  if negb (failed_items s =? 0) || negb (bool_decide (audit_failures s = [])) then
    _ ← record_or_collect "recovery_gate_blocked"
          (json_object [("failed_item_count", json_integer (failed_items s));
             ("audit_failure_count", json_integer (Z.of_nat (length (audit_failures s))));
             ("failures", json_array (json_string <$> failure_details s))]);
    after ← gets audit_failures;
    throw ("transaction recovery gate blocked activation: " +:+ show (failed_items s)
           +:+ " WAL item(s) failed and " +:+ show (Z.of_nat (length after))
           +:+ " audit record(s) failed")
  else mret tt.

Definition gate_items (capabilities : CapabilitySnapshot W) (inventory : RecoveryInventory)
    : M GateState string unit :=
  _ ← for_each gate_unstarted (inv_unstarted inventory);
  _ ← for_each gate_sealed (inv_sealed inventory);
  _ ← for_each gate_corrupt (inv_corrupt inventory);
  _ ← for_each (gate_pending capabilities) (inv_pending inventory);
  gate_verdict.

Definition recover_before_activation (capabilities : CapabilitySnapshot W) : M GateState string unit :=
  r ← attempt (in_store (discover root listing));
  match r with
  | Ok inventory => gate_items capabilities inventory
  | Err error =>
    let message := "transaction recovery discovery failed: " +:+ wal_error_message error in
    audited ← record_runtime "transaction_recovery_failed"
      (json_object [("stage", json_string "discover"); ("error", json_string (wal_error_message error))]);
    match audited with
    | Err audit_error => throw (message +:+ "; failed to audit discovery error: " +:+ audit_error)
    | Ok _ => throw message
    end
  end.
End Gate.

(** * What an open gate means

    The gate of [Gate.v] never panics while the names in the store are UTF-8, and
    opens exactly when its audit log shows no failure: then no log of the store was
    corrupt, no sealed one inconsistent, every unstarted log is gone, and every
    pending transaction is rolled back, in its own file, to the baseline. *)

Local Open Scope Z_scope.

Section GateSafety.
Context `{JD : JsonData, !Serialize Value, !Serialize (list ChangeId), !Sha256}.
Context `{!Serialize WalEntry, !Deserialize WalEntry, !WalCodec}.
Context {W T : Type} `{!AuditSink W, !TransactionWal T, !WalLaws T, !EncodesIds, !Sha256Laws}.
Context (root : string) (listing : gmap string Node → list (string * Node)).
Context (caps : CapabilitySnapshot W).
Abbreviation state := (GateState (W := W)).
Implicit Types (s : state) (d : Directory) (p q : PendingTransaction) (m : gmap string Node).

(** ** The audit log and the counters *)

Definition failure_event : string := "transaction_recovery_failed".

(** Every record was written and none reports a failed item. *)
Definition clean_audit s : Prop := Forall (λ e, e.2 = true ∧ e.1 ≠ failure_event) (gate_log s).

Record gate_ok s : Prop := {
  go_failed : 0 <= failed_items s;
  go_clean : clean_audit s ↔ failed_items s = 0 ∧ audit_failures s = [];
}.

(** An item that was done, or failed, after [s]: the directory is as it was. *)
Definition item_done s s' : Prop :=
  gate_ok s' ∧ gate_directory s' = gate_directory s ∧ (clean_audit s' → clean_audit s).
Definition item_failed s s' : Prop :=
  gate_ok s' ∧ gate_directory s' = gate_directory s ∧ ¬ clean_audit s'.

Lemma gate_start_ok w d : gate_ok (gate_start w d).
Proof. split; [done|]. split; [done|]. intros _. unfold clean_audit. simpl. constructor. Qed.

Lemma gate_ok_same s s' :
  failed_items s' = failed_items s → audit_failures s' = audit_failures s → gate_log s' = gate_log s →
  gate_ok s → gate_ok s'.
Proof. intros Hf Ha Hl []. split; unfold clean_audit in *; by rewrite ?Hf, ?Ha, ?Hl. Qed.

Lemma wp_collect {E} event data s :
  gate_ok s → event ≠ failure_event →
  wp (E := E) (record_or_collect event data) (λ _, item_done s) (λ _ _, False) s.
Proof.
  intros [Hf Hc] He. unfold record_or_collect, record_runtime, AuditRecord_runtime, wp. simpl.
  unfold mbind, M_bind. destruct (now_ns _) as [t w]. destruct (audit_record _ _) as [[[]|error] w']; simpl.
  - split_and!; [|done|by intros [_ ?]%Forall_cons]. split; [done|]. unfold clean_audit. simpl.
    rewrite Forall_cons. simpl. split; [by intros [_ ?%Hc]|]. intros ?%Hc. done.
  - split_and!; [|done|by intros [_ ?]%Forall_cons]. split; [done|]. unfold clean_audit. simpl.
    rewrite Forall_cons. simpl. split; [by intros [[? _] _]|]. intros [_ Hnil]. by destruct (audit_failures s).
Qed.

Lemma wp_path {E} path (Q : Value → state → Prop) (R : E → state → Prop) s :
  is_utf8 path = true → Q (json_string path) s → wp (path_value path) Q R s.
Proof. unfold path_value. by intros ->. Qed.

(** An item that fails is counted and recorded. *)
Lemma wp_fail_recorded {E} detail path (data : Value → Value) s :
  is_utf8 path = true → gate_ok s →
  wp (E := E) (_ ← fail_item detail; v ← path_value path; record_or_collect failure_event (data v))
    (λ _, item_failed s) (λ _ _, False) s.
Proof.
  intros Hp [Hf Hc]. apply wp_bind, wp_modify, wp_bind, wp_path; [done|].
  unfold record_or_collect, record_runtime, AuditRecord_runtime, wp. simpl. unfold mbind, M_bind.
  destruct (now_ns _) as [t w]. destruct (audit_record _ _) as [[[]|error] w']; simpl.
  - split_and!; [|done|by intros [[_ ?] _]%Forall_cons]. split; simpl; [lia|]. unfold clean_audit. simpl.
    rewrite Forall_cons. split; [by intros [[_ ?] _]|]. intros [? _]. lia.
  - split_and!; [|done|by intros [[_ ?] _]%Forall_cons]. split; simpl; [lia|]. unfold clean_audit. simpl.
    rewrite Forall_cons. split; [by intros [[_ ?] _]|]. intros [? _]. lia.
Qed.

(** ** What a crash leaves in the files *)

(** The file of a transaction: complete lines that decode to a prefix of the log of
    a reachable state, over calls whose failures write nothing. *)
Definition crash_left (tid : TransactionId) (f : OsFile) : Prop :=
  read_fault f = None ∧ clean_calls (call_outcomes f) ∧ ∃ es, file_holds f es
  ∧ (es ≠ [] → ∃ (s : Sys W T) w, reachable s ∧ crash_log s w ∧ durable w = es
                 ∧ transaction_id (kernel s) = tid ∧ capabilities (kernel s) = caps).

Definition crash_directory m : Prop :=
  ∀ name node tid, m !! name = Some node → transaction_id_from_filename name = Ok tid →
  crash_left tid (node_file node).

(** An inspected log that ends in a seal is sealed. *)
Lemma inspect_seal_last tid n acc es e (count : nat) i :
  fold_outcome (inspect_entry tid n) acc (es ++ [e]) = Ret (count, i) → is_seal e = true →
  is_Some (is_sealed i).
Proof.
  revert acc. induction es as [|e' es IH]; intros [index st] Hf He; simpl in Hf.
  - destruct (inspect_header tid index e); [|done]. simpl in Hf.
    unfold is_seal, inspect_event in *. destruct (event e) as [| | |o|auth cs]; try done.
    + destruct (inspect_seal n index o st) as [st'|] eqn:Hs; [|done]. simpl in Hf. injection Hf as <- <-.
      unfold inspect_seal in Hs. rewrite !reject_bind_Ok in Hs. destruct Hs as (_ & _ & [= <-]). by eexists.
    + destruct (inspect_commit tid n index auth cs st) as [st'|] eqn:Hs; [|done]. simpl in Hf.
      injection Hf as <- <-. unfold inspect_commit in Hs.
      rewrite reject_bind_Ok, result_bind_Ok in Hs. destruct Hs as (_ & seen & _ & Hs).
      rewrite result_bind_Ok in Hs. destruct Hs as (cc & _ & Hs).
      rewrite !reject_bind_Ok in Hs. destruct Hs as (_ & _ & [= <-]). by eexists.
  - match type of Hf with match ?o with _ => _ end = _ => destruct o as [acc'| |]; [|done..] end.
    by apply (IH acc').
Qed.

Lemma pending_unsealed path tid es identity p :
  inspect_log path tid es identity = Ret (Log_Pending p) →
  ¬ ∃ es' e, es = es' ++ [e] ∧ is_seal e = true.
Proof.
  unfold inspect_log. case_bool_decide; [done|]. simpl. intros Hi (es' & e & -> & He).
  destruct (fold_outcome _ _ _) as [ [count i]| |] eqn:Hf; [|done..]. simpl in Hi.
  destruct (inspect_seal_last _ _ _ _ _ _ _ Hf He) as [o Ho].
  unfold inspect_finish in Hi. destruct (is_intent_pin i) as [pin|]; [|done]. simpl in Hi.
  rewrite Ho in Hi. destruct (bool_decide (is_pending i = ∅)); [|done]. simpl in Hi.
  destruct (bool_decide (map_Forall _ _)); [|done]. simpl in Hi.
  destruct o; [destruct (is_authorization i)|]; done.
Qed.

(** A log reported as pending is a good one, under the pin it is reported with. *)
Lemma pending_good (s : Sys W T) w path identity p :
  reachable s → crash_log s w →
  inspect_log path (transaction_id (kernel s)) (durable w) identity = Ret (Log_Pending p) →
  ∃ r, good_log (transaction_id (kernel s)) (pt_intent_pin p) (capabilities (kernel s)) (durable w) r.
Proof.
  intros Hs Hc Hi. destruct (crash_good s w Hs Hc) as [[r Hg]|[[_ _ (es & e & r & Hd & He & _) _] Hw]].
  - destruct (recover_good _ _ _ w r (world s) (crash_ok _ _ Hc) Hg (crash_length _ _ Hc))
      as (k & Hk & _).
    pose proof (agrees_on_log _ _ _ w _ path identity k (load_durable _ (crash_ok _ _ Hc)) Hk) as Ha.
    rewrite Hi in Ha. destruct Ha as (_ & -> & _). by exists r.
  - rewrite Hw in Hi. exfalso. apply (pending_unsealed _ _ _ _ _ Hi). by exists es, e.
Qed.

(** ** The pending transactions of the inventory *)

(** [p] is what discovery reports of the file [node] under [name]. *)
Definition pending_of d p (name : string) (node : Node) : Prop :=
  nodes d !! name = Some node ∧ discover_entry root d (name, node) = Ret (Some (Found_Pending p)).

Lemma pending_of_name d p name node :
  pending_of d p name node →
  transaction_id_from_filename name = Ok (pt_transaction_id p)
  ∧ filename_for (pt_transaction_id p) = Ok name ∧ pt_path p = store_path root name
  ∧ ∃ es, load_file (node_file node) (store_path root name) = Ok es
      ∧ inspect_log (store_path root name) (pt_transaction_id p) es (pt_identity p)
        = Ret (Log_Pending p).
Proof.
  intros [Hn Hd]. unfold discover_entry in Hd. destruct (node_listed node) as [[kind|]|]; [| |done].
  2: { by case_bool_decide. }
  case_bool_decide; [done|]. case_bool_decide; [done|].
  destruct (transaction_id_from_filename name) as [tid|] eqn:Hid; [|done].
  destruct (load_read_only root name d) as [o|] eqn:Hl; [|done].
  case_bool_decide; [by destruct (_ =? _)%nat|].
  destruct (inspect_log _ tid _ _) as [[p'|]| |] eqn:Hi; try done. injection Hd as ->.
  destruct (inspect_log_path _ _ _ _ _ Hi) as (Hp & <- & Hident).
  split; [done|]. split; [by apply id_of_filename|]. split; [done|].
  unfold load_read_only in Hl. apply result_bind_Ok in Hl as (f & Hf%map_err_Ok & Hl).
  destruct (open_node_Ok _ _ _ _ Hf) as (node' & Hn' & <-). rewrite Hn in Hn'. injection Hn' as <-.
  apply result_bind_Ok in Hl as (meta & _ & Hl). apply reject_bind_Ok in Hl as [_ Hl].
  apply result_bind_Ok in Hl as (es & Hes & [= <-]). simpl in *. exists es. split; [done|]. by rewrite Hident.
Qed.

(** The handle of a pending transaction, opened where its file is as it was found. *)
Lemma pending_opened d d0 p name node log :
  pending_of d p name node → crash_left (pt_transaction_id p) (node_file node) →
  nodes d0 !! name = Some node → open_existing root p d0 = Ok log →
  file log = node_file node ∧ wal_ok log ∧ Z.of_nat (length (durable log)) <= u64_max
  ∧ ∃ r, good_log (pt_transaction_id p) (pt_intent_pin p) caps (durable log) r.
Proof.
  intros Hp (Hread & Hcalls & es & Hes & Hcrash) Hn Ho.
  destruct (pending_of_name _ _ _ _ Hp) as (_ & Hfn & _ & es' & Hload & Hi).
  rewrite (load_file_holds _ _ es Hread Hes) in Hload. injection Hload as <-.
  assert (file log = node_file node) as Hf.
  { unfold open_existing in Ho. rewrite Hfn in Ho. simpl in Ho. apply reject_bind_Ok in Ho as [_ Ho].
    apply result_bind_Ok in Ho as (f & Hf%map_err_Ok & Ho).
    destruct (open_node_Ok _ _ _ _ Hf) as (node' & Hn' & <-). rewrite Hn in Hn'. injection Hn' as <-.
    apply result_bind_Ok in Ho as (meta & _ & Ho). rewrite !reject_bind_Ok in Ho.
    destruct Ho as (_ & _ & Ho). unfold from_open_file in Ho.
    apply result_bind_Ok in Ho as (meta' & _ & Ho). destruct (is_regular meta'); [|done]. simpl in Ho.
    by apply result_bind_Ok in Ho as (? & _ & [= <-]). }
  assert (es ≠ []) as Hne.
  { intros ->. unfold inspect_log in Hi. by rewrite bool_decide_eq_true_2 in Hi. }
  destruct (Hcrash Hne) as (s & w & Hs & Hc & <- & Htid & Hcaps).
  assert (durable log = durable w) as Hd.
  { apply file_durable_holds; by rewrite Hf. }
  split; [done|]. split; [|rewrite Hd; split].
  - split_and!; [by rewrite Hf..|]. exists (durable w). by rewrite Hf.
  - apply Hc.
  - rewrite <- Htid in Hi |- *. rewrite <- Hcaps. by eapply pending_good.
Qed.

(** ** Recovering one of them *)

(** [p] was recovered from the file it was found in and rolled back to the
    baseline, and [m] holds the log the rollback left. *)
Definition restored_in d m p : Prop :=
  ∃ name node log k w x, filename_for (pt_transaction_id p) = Ok name ∧ m !! name = Some node
    ∧ open_existing root p d = Ok log
    ∧ recover (pt_transaction_id p) (pt_intent_pin p) caps log = Ret k
    ∧ rolled_back (MkSys k w []) x ∧ node_file node = file (wal (kernel x)).

(** All but the directory is unchanged. *)
Definition same_counts s s' : Prop :=
  failed_items s' = failed_items s ∧ audit_failures s' = audit_failures s ∧ gate_log s' = gate_log s.

Definition only_changes (name : string) m m' : Prop := ∀ other, other ≠ name → m' !! other = m !! other.

Lemma open_existing_same d d' p name :
  filename_for (pt_transaction_id p) = Ok name → nodes d' !! name = nodes d !! name →
  open_existing root p d' = open_existing root p d.
Proof. intros Hf Hn. unfold open_existing. rewrite Hf. simpl. unfold open_node. by rewrite Hn. Qed.

Lemma wp_recover_pending d p name node s :
  pending_of d p name node → crash_left (pt_transaction_id p) (node_file node) →
  nodes (gate_directory s) !! name = Some node →
  wp (recover_pending root caps p)
    (λ _ s', same_counts s s' ∧ only_changes name (nodes (gate_directory s)) (nodes (gate_directory s'))
             ∧ restored_in d (nodes (gate_directory s')) p)
    (λ _ s', same_counts s s' ∧ only_changes name (nodes (gate_directory s)) (nodes (gate_directory s'))) s.
Proof.
  intros Hp Hleft Hn. destruct (pending_of_name _ _ _ _ Hp) as (_ & Hfn & _).
  unfold wp, recover_pending. destruct (open_existing _ _ _) as [log|error] eqn:Ho; [|done].
  destruct (pending_opened d _ p name node log Hp Hleft Hn Ho) as (Hfile & Hok & Hlen & r & Hg).
  destruct (recover_good _ _ _ log r (gate_world s) Hok Hg Hlen) as (k & Hk & Hl & _). rewrite Hk.
  assert (good (MkSys k (gate_world s) [])) as Hgood by by exists r.
  pose proof (wp_rollback_all _ Hgood) as Hw. unfold wp in Hw.
  destruct (rollback_all _) as [[restored|error|] x]; [| |done]; rewrite Hfn.
  - destruct Hw as [Hx _]. split; [done|]. split.
    + intros other Hother. simpl. by rewrite lookup_alter_ne.
    + do 6 eexists. split_and!; [done| | |exact Hk|exact Hx|].
      * simpl. rewrite lookup_alter_eq, Hn. reflexivity.
      * rewrite <- Ho. symmetry. apply (open_existing_same d _ _ name); [done|]. rewrite Hn. symmetry. apply Hp.
      * done.
  - split; [done|]. intros other Hother. simpl. by rewrite lookup_alter_ne.
Qed.

Lemma wp_gate_pending d p name node s :
  pending_of d p name node → crash_left (pt_transaction_id p) (node_file node) →
  is_utf8 (store_path root name) = true → gate_ok s → nodes (gate_directory s) !! name = Some node →
  wp (E := string) (gate_pending root caps p)
    (λ _ s', gate_ok s' ∧ only_changes name (nodes (gate_directory s)) (nodes (gate_directory s'))
       ∧ (clean_audit s' → clean_audit s ∧ restored_in d (nodes (gate_directory s')) p))
    (λ _ _, False) s.
Proof.
  intros Hp Hleft Hutf Hok Hn. destruct (pending_of_name _ _ _ _ Hp) as (_ & _ & Hpath & _).
  unfold gate_pending. apply wp_bind, wp_attempt.
  assert (∀ s1, same_counts s s1 → gate_ok s1) as Hok1.
  { intros s1 (Ha1 & Ha2 & Ha3). by apply (gate_ok_same s). }
  assert (∀ s1, same_counts s s1 → clean_audit s1 → clean_audit s) as Hcl.
  { unfold clean_audit. by intros s1 (_ & _ & ->). }
  eapply wp_mono; [by eapply wp_recover_pending| |].
  - intros n s1 (Hs & Hch & Hres). eapply wp_mono; [apply wp_collect; [by apply Hok1|done]| |done].
    intros [] s2 (Ha1 & -> & Ha2). split_and!; [done|done|]. intros Hc. split; [|done]. apply (Hcl s1); auto.
  - intros error s1 (Hs & Hch). eapply wp_mono; [apply wp_fail_recorded; [by rewrite Hpath|by apply Hok1]| |done].
    intros [] s2 (Ha1 & -> & Ha2). by split_and!.
Qed.

(** ** The loops *)

(** Files that hold something are as they were, and no file is new. *)
Definition only_empty_removed m m' : Prop :=
  m' ⊆ m ∧ ∀ name node, m !! name = Some node → contents (node_file node) ≠ "" → m' !! name = Some node.

Definition discarded_in m (u : UnstartedTransaction) : Prop :=
  ∃ name, filename_for (ut_transaction_id u) = Ok name ∧ m !! name = None.

Lemma only_empty_removed_trans m1 m2 m3 :
  only_empty_removed m1 m2 → only_empty_removed m2 m3 → only_empty_removed m1 m3.
Proof. intros [Ha1 Ha2] [Ha3 Ha4]. split; [by etrans|]. intros name node Hn Hc. by apply Ha4; [apply Ha2|]. Qed.

Lemma discard_frame u d :
  wp (discard_unstarted root u)
    (λ _ d', only_empty_removed (nodes d) (nodes d') ∧ discarded_in (nodes d') u)
    (λ _ d', only_empty_removed (nodes d) (nodes d')) d.
Proof.
  pose proof (discard_removes_only_empty_logs root u d) as Hd. unfold wp.
  assert (∀ name d', empty_log_file root u name d → nodes d' = delete name (nodes d) →
    only_empty_removed (nodes d) (nodes d')) as Hrem.
  { intros name d' (_ & _ & node & meta & Hn & _ & _ & _ & Hc) ->. split; [apply delete_subseteq|].
    intros other node' Hn' Hc'. rewrite lookup_delete_ne; [done|]. intros ->. congruence. }
  destruct (discard_unstarted root u d) as [[[]|e|] d']; [| |done].
  - destruct Hd as (name & Hlog & Hd'). split; [by eapply Hrem|]. exists name. split; [apply Hlog|].
    rewrite Hd'. apply lookup_delete_eq.
  - destruct Hd as [Hsame|(name & Hlog & Hd')]; [|by eapply Hrem]. rewrite Hsame. by split.
Qed.

Lemma wp_gate_unstarted u s :
  is_utf8 (ut_path u) = true → gate_ok s →
  wp (E := string) (gate_unstarted root u)
    (λ _ s', gate_ok s' ∧ only_empty_removed (nodes (gate_directory s)) (nodes (gate_directory s'))
       ∧ (clean_audit s' → clean_audit s ∧ discarded_in (nodes (gate_directory s')) u))
    (λ _ _, False) s.
Proof.
  intros Hu Hok. unfold gate_unstarted. apply wp_bind, wp_attempt. unfold wp at 1, in_store.
  pose proof (discard_frame u (gate_directory s)) as Hd. unfold wp in Hd.
  destruct (discard_unstarted root u (gate_directory s)) as [[[]|e|] d']; [| |done].
  - destruct Hd as [Hrem Hdis]. apply wp_bind, wp_path; [done|].
    eapply wp_mono; [apply wp_collect; [by apply (gate_ok_same s)|done]| |done].
    intros [] s2 (Ha1 & -> & Ha2). by split_and!; auto.
  - eapply wp_mono; [apply wp_fail_recorded; [done|by apply (gate_ok_same s)]| |done].
    intros [] s2 (Ha1 & -> & Ha2). by split_and!.
Qed.

Lemma wp_gate_sealed t s :
  is_utf8 (st_path t) = true → gate_ok s →
  wp (E := string) (gate_sealed t)
    (λ _ s', gate_ok s' ∧ gate_directory s' = gate_directory s
       ∧ (clean_audit s' → clean_audit s ∧ seal_consistent t = true)) (λ _ _, False) s.
Proof.
  intros Hu Hok. unfold gate_sealed. destruct (seal_consistent t).
  - apply wp_bind, wp_path; [done|].
    destruct (st_authorization t); (eapply wp_mono; [by apply wp_collect| |done]);
      intros [] s2 (Ha1 & Ha2 & Ha3); by split_and!; auto.
  - eapply wp_mono; [by apply wp_fail_recorded| |done]. intros [] s2 (Ha1 & Ha2 & Ha3). by split_and!.
Qed.

Lemma wp_gate_corrupt c s :
  is_utf8 (ct_path c) = true → gate_ok s →
  wp (E := string) (gate_corrupt c) (λ _, item_failed s) (λ _ _, False) s.
Proof. intros Hu Hok. by apply wp_fail_recorded. Qed.

Lemma wp_gate_verdict s :
  gate_ok s →
  wp gate_verdict (λ _ s', s' = s ∧ clean_audit s) (λ _ s', ¬ clean_audit s') s.
Proof.
  intros [Hf Hc]. unfold gate_verdict. apply wp_bind, wp_gets. unfold id.
  destruct (Z.eqb_spec (failed_items s) 0) as [Ha0|Ha0]; simpl.
  - case_bool_decide as Hn; simpl; [apply wp_ret; split; [done|by apply Hc]|].
    apply wp_bind. eapply wp_mono; [by apply wp_collect| |done]. intros [] s2 (_ & _ & Ha2).
    apply wp_bind, wp_gets, wp_throw. intros [_ ?]%Ha2%Hc. done.
  - apply wp_bind. eapply wp_mono; [by apply wp_collect| |done]. intros [] s2 (_ & _ & Ha2).
    apply wp_bind, wp_gets, wp_throw. intros [? _]%Ha2%Hc. done.
Qed.

(** ** The inventory *)

Definition found_pending (f : Finding) : option PendingTransaction :=
  match f with Found_Pending p => Some p | _ => None end.

Lemma add_findings_pendings fs i :
  inv_pending (foldl (flip add_finding) i fs) = inv_pending i ++ omap found_pending fs.
Proof.
  revert i. induction fs as [|f fs IH]; intros i; csimpl; [by rewrite app_nil_r|]. rewrite IH.
  destruct f; simpl; [by rewrite <- app_assoc|done..].
Qed.

Lemma findings_pending_names d (entries : list (string * Node)) :
  (∀ e, e ∈ entries → nodes d !! e.1 = Some e.2) →
  (λ p, filename_for (pt_transaction_id p)) <$> omap found_pending (omap (entry_finding root d) entries)
  `sublist_of` (λ e, Ok e.1) <$> entries.
Proof.
  induction entries as [|[name node] entries IH]; intros Hin; [constructor|].
  assert (∀ e, e ∈ entries → nodes d !! e.1 = Some e.2) as Hin' by (intros; apply Hin; by right).
  specialize (IH Hin'). csimpl. destruct (entry_finding root d (name, node)) as [f|] eqn:Hf.
  2: { by apply sublist_cons. }
  csimpl. destruct (found_pending f) as [p|] eqn:Hp; [|by apply sublist_cons].
  destruct f as [p'| | |]; try done. injection Hp as ->.
  assert (pending_of d p name node) as Hpo.
  { split; [apply (Hin (name, node)); by left|]. unfold entry_finding in Hf.
    destruct (discover_entry root d (name, node)) as [f| |]; [|done..]. by rewrite Hf. }
  destruct (pending_of_name _ _ _ _ Hpo) as (_ & Hfn & _). csimpl. rewrite Hfn. by constructor.
Qed.

Lemma inventory_pendings d inv d1 :
  (∀ m, listing m ≡ₚ map_to_list m) → discover root listing d = (Ret inv, d1) →
  ∃ d0, nodes d0 = nodes d
    ∧ (∀ p, p ∈ inv_pending inv → ∃ name node, pending_of d0 p name node)
    ∧ NoDup ((λ p, filename_for (pt_transaction_id p)) <$> inv_pending inv).
Proof.
  intros Hl Hd. destruct (discover_Ret _ _ _ _ _ Hd) as (_ & d0 & Hn & ->). exists d0. split; [done|].
  assert (∀ e, e ∈ listing (nodes d) → nodes d0 !! e.1 = Some e.2) as Hin.
  { intros [name node]. rewrite Hl, Hn. apply elem_of_map_to_list. }
  unfold sort_inventory. simpl. split.
  - intros p. rewrite sort_by_perm, add_findings_pendings. simpl. rewrite list_elem_of_omap.
    intros (f & (e & He & Hf)%list_elem_of_omap & Hp). exists e.1, e.2. split; [by apply Hin|].
    destruct f; try done. injection Hp as ->. unfold entry_finding in Hf. rewrite <- surjective_pairing.
    destruct (discover_entry root d0 e); [|done..]. by rewrite Hf.
  - rewrite sort_by_perm, add_findings_pendings. simpl.
    assert (NoDup ((Ok (E:=WalError) ∘ fst) <$> listing (nodes d))) as Hnd.
    { rewrite list_fmap_compose. apply NoDup_fmap_2; [by intros ? ? [=]|].
      rewrite Hl. apply NoDup_fst_map_to_list. }
    eapply sublist_NoDup; [exact Hnd|by apply findings_pending_names].
Qed.

(** ** The whole gate *)

(** The paths the gate puts into its records can be written as JSON. *)
Definition utf8_store m : Prop :=
  is_utf8 root = true
  ∧ ∀ name node, m !! name = Some node → extension name = Some "jsonl" → is_utf8 (store_path root name) = true.

(** What the gate leaves of an inventory it accepts. *)
Definition reconciled d inv m : Prop :=
  inv_corrupt inv = [] ∧ Forall (λ t, seal_consistent t = true) (inv_sealed inv)
  ∧ Forall (discarded_in m) (inv_unstarted inv) ∧ Forall (restored_in d m) (inv_pending inv).

Lemma inventory_utf8 d inv d1 :
  (∀ m, listing m ≡ₚ map_to_list m) → discover root listing d = (Ret inv, d1) → utf8_store (nodes d) →
  Forall (λ path, is_utf8 path = true) (inventory_paths inv).
Proof.
  intros Hl Hd [Hroot Hnames]. rewrite (discover_paths _ _ _ _ _ Hl Hd). apply Forall_forall. intros path.
  rewrite list_elem_of_omap. intros ([name node] & Hin%elem_of_map_to_list & Hp).
  unfold entry_path in Hp. simpl in Hp. destruct (node_listed node); [|by injection Hp as <-].
  case_bool_decide; [|done]. injection Hp as <-. by eapply Hnames.
Qed.

Lemma wp_loop_unstarted us s :
  Forall (λ path, is_utf8 path = true) (ut_path <$> us) → gate_ok s →
  wp (E := string) (for_each (gate_unstarted root) us)
    (λ _ s', gate_ok s' ∧ only_empty_removed (nodes (gate_directory s)) (nodes (gate_directory s'))
       ∧ (clean_audit s' → Forall (discarded_in (nodes (gate_directory s'))) us))
    (λ _ _, False) s.
Proof.
  rewrite Forall_fmap. intros Hu Hok.
  apply (wp_for_each (λ pre s', gate_ok s'
    ∧ only_empty_removed (nodes (gate_directory s)) (nodes (gate_directory s'))
    ∧ (clean_audit s' → Forall (discarded_in (nodes (gate_directory s'))) pre))).
  - split_and!; [done|by split|by constructor].
  - intros pre u post s1 -> (Ha1 & Hrem & Hpre).
    assert (is_utf8 (ut_path u) = true) as Hutf by by apply Forall_app in Hu as [_ [? _]%Forall_cons].
    eapply wp_mono; [by apply wp_gate_unstarted| |done]. intros [] s2 (Ha2 & Hrem2 & Hc).
    split_and!; [done|by eapply only_empty_removed_trans|]. intros [Hc1 Hu2]%Hc. apply Forall_app.
    split; [|by constructor]. eapply Forall_impl; [by apply Hpre|]. intros v (name & Hn & Hv).
    exists name. split; [done|]. by eapply lookup_weaken_None; [exact Hv|apply Hrem2].
  - done.
Qed.

Lemma wp_loop_sealed ts s :
  Forall (λ path, is_utf8 path = true) (st_path <$> ts) → gate_ok s →
  wp (E := string) (for_each gate_sealed ts)
    (λ _ s', gate_ok s' ∧ gate_directory s' = gate_directory s
       ∧ (clean_audit s' → clean_audit s ∧ Forall (λ t, seal_consistent t = true) ts)) (λ _ _, False) s.
Proof.
  rewrite Forall_fmap. intros Hu Hok.
  apply (wp_for_each (λ pre s', gate_ok s' ∧ gate_directory s' = gate_directory s
    ∧ (clean_audit s' → clean_audit s ∧ Forall (λ t, seal_consistent t = true) pre))).
  - by split_and!.
  - intros pre t post s1 -> (Ha1 & Hd & Hpre).
    assert (is_utf8 (st_path t) = true) as Hutf by by apply Forall_app in Hu as [_ [? _]%Forall_cons].
    eapply wp_mono; [by apply wp_gate_sealed| |done]. intros [] s2 (Ha2 & Hd2 & Hc).
    split_and!; [done|congruence|]. intros [[Hc1 Hp]%Hpre Ht]%Hc. split; [done|].
    apply Forall_app. split; [done|by constructor].
  - done.
Qed.

Lemma wp_loop_corrupt cs s :
  Forall (λ path, is_utf8 path = true) (ct_path <$> cs) → gate_ok s →
  wp (E := string) (for_each gate_corrupt cs)
    (λ _ s', gate_ok s' ∧ gate_directory s' = gate_directory s
       ∧ (clean_audit s' → clean_audit s ∧ cs = [])) (λ _ _, False) s.
Proof.
  rewrite Forall_fmap. intros Hu Hok.
  apply (wp_for_each (λ pre s', gate_ok s' ∧ gate_directory s' = gate_directory s
    ∧ (clean_audit s' → clean_audit s ∧ pre = []))).
  - by split_and!.
  - intros pre c post s1 -> (Ha1 & Hd & Hpre).
    assert (is_utf8 (ct_path c) = true) as Hutf by by apply Forall_app in Hu as [_ [? _]%Forall_cons].
    eapply wp_mono; [by apply wp_gate_corrupt| |done]. intros [] s2 (Ha2 & Hd2 & Hc).
    split_and!; [done|congruence|by intros ?%Hc].
  - done.
Qed.

(** A file the loop over the pending transactions did not come to yet. *)
Definition untouched (pre : list PendingTransaction) d m : Prop :=
  ∀ name node, nodes d !! name = Some node → contents (node_file node) ≠ "" →
  Forall (λ q, filename_for (pt_transaction_id q) ≠ Ok name) pre → m !! name = Some node.

Lemma restored_elsewhere d m m' name q :
  only_changes name m m' → filename_for (pt_transaction_id q) ≠ Ok name → restored_in d m q →
  restored_in d m' q.
Proof.
  intros Hch Hne (n & node & log & k & w & x & Hn & Hm & Hrest). exists n, node, log, k, w, x.
  split; [done|]. split; [|done]. rewrite Hch; [done|]. intros ->. congruence.
Qed.

Lemma pending_nonempty d p name node :
  pending_of d p name node → contents (node_file node) ≠ "".
Proof.
  intros Hp Hc. destruct (pending_of_name _ _ _ _ Hp) as (_ & _ & _ & es & Hload & Hi).
  unfold load_file in Hload. rewrite Hc in Hload.
  assert (es = []) as ->.
  { destruct (read_fault (node_file node)) as [[| |]|]; simpl in Hload; congruence. }
  unfold inspect_log in Hi. by rewrite bool_decide_eq_true_2 in Hi.
Qed.

Lemma wp_loop_pending d ps (us : list UnstartedTransaction) s :
  (∀ p, p ∈ ps → ∃ name node, pending_of d p name node) →
  NoDup ((λ p, filename_for (pt_transaction_id p)) <$> ps) →
  utf8_store (nodes d) → crash_directory (nodes d) → gate_ok s →
  untouched [] d (nodes (gate_directory s)) →
  (clean_audit s → Forall (discarded_in (nodes (gate_directory s))) us) →
  wp (E := string) (for_each (gate_pending root caps) ps)
    (λ _ s', gate_ok s' ∧ (clean_audit s' → clean_audit s
       ∧ Forall (discarded_in (nodes (gate_directory s'))) us
       ∧ Forall (restored_in d (nodes (gate_directory s'))) ps)) (λ _ _, False) s.
Proof.
  intros Hps Hnd Hutf Hleft Hok Hun Hdis.
  apply (wp_for_each (λ pre s', gate_ok s' ∧ untouched pre d (nodes (gate_directory s'))
    ∧ (clean_audit s' → clean_audit s ∧ Forall (discarded_in (nodes (gate_directory s'))) us
         ∧ Forall (restored_in d (nodes (gate_directory s'))) pre))).
  - split_and!; [done|done|]. intros Hc. split_and!; auto.
  - intros pre p post s1 -> (Ha1 & Hun1 & Hpre).
    destruct (Hps p) as (name & node & Hp); [set_solver|].
    destruct (pending_of_name _ _ _ _ Hp) as (Hid & Hfn & _).
    assert (Forall (λ q, filename_for (pt_transaction_id q) ≠ Ok name) pre) as Hne.
    { rewrite fmap_app, fmap_cons, NoDup_app in Hnd. destruct Hnd as (_ & Hnd & _).
      apply Forall_forall. intros q Hq Hqn. apply (Hnd (Ok name)); [|rewrite Hfn; by left].
      apply list_elem_of_fmap. by exists q. }
    pose proof (Hun1 _ _ (proj1 Hp) (pending_nonempty _ _ _ _ Hp) Hne) as Hn.
    eapply wp_mono; [eapply wp_gate_pending; try done| |done].
    { eapply Hleft; [apply Hp|done]. }
    { eapply Hutf; [apply Hp|]. by eapply id_of_filename. }
    intros [] s2 (Ha2 & Hch & Hc). split_and!; [done| |].
    + intros other node' Hn' Hc' [Hpre' [Hp' _]%Forall_cons]%Forall_app. rewrite Hch by congruence.
      by apply Hun1.
    + intros [(Hcs & Hd1 & Hr1)%Hpre Hr2]%Hc. split_and!; [done| |].
      * eapply Forall_impl; [exact Hd1|]. intros u (n & Hu & Hnone). exists n. split; [done|].
        rewrite Hch; [done|]. intros ->. congruence.
      * apply Forall_app. split; [|by constructor]. rewrite Forall_forall in Hr1, Hne |- *.
        intros q Hq. eapply restored_elsewhere; [exact Hch|by apply Hne|by apply Hr1].
  - by intros s1 (? & _ & ?).
Qed.

Lemma wp_gate_items d d0 d1 inv s :
  (∀ m, listing m ≡ₚ map_to_list m) → discover root listing d = (Ret inv, d1) →
  utf8_store (nodes d) → crash_directory (nodes d) → gate_ok s → nodes (gate_directory s) = nodes d →
  wp (gate_items root caps inv)
    (λ _ s', clean_audit s' ∧ reconciled d inv (nodes (gate_directory s')))
    (λ _ s', ¬ clean_audit s') s.
Proof.
  intros Hl Hd Hutf Hleft Hok Hs. pose proof (inventory_utf8 _ _ _ Hl Hd Hutf) as Hpaths.
  unfold inventory_paths in Hpaths. rewrite !Forall_app in Hpaths. destruct Hpaths as (_ & Hst & Hut & Hct).
  destruct (inventory_pendings _ _ _ Hl Hd) as (d2 & Hd2 & Hps & Hnd). rewrite <- Hd2 in Hs, Hutf, Hleft.
  unfold gate_items. apply wp_bind. eapply wp_mono; [by apply wp_loop_unstarted| |done].
  intros [] s1 (Hok1 & Hrem & Hc1). apply wp_bind.
  eapply wp_mono; [by apply wp_loop_sealed| |done]. intros [] s2 (Hok2 & Hdir2 & Hc2). apply wp_bind.
  eapply wp_mono; [by apply wp_loop_corrupt| |done]. intros [] s3 (Hok3 & Hdir3 & Hc3). apply wp_bind.
  assert (untouched [] d2 (nodes (gate_directory s3))) as Hun.
  { intros name node Hn Hc _. rewrite Hdir3, Hdir2. apply Hrem; [by rewrite Hs|done]. }
  eapply wp_mono; [apply (wp_loop_pending d2 _ (inv_unstarted inv)); try done| |done].
  { rewrite Hdir3, Hdir2. intros [[? _]%Hc2 _]%Hc3. by apply Hc1. }
  intros [] s4 (Hok4 & Hc4). eapply wp_mono; [by apply wp_gate_verdict| |done].
  intros [] s5 [-> Hclean]. split; [done|]. destruct (Hc4 Hclean) as ([[_ Hseal]%Hc2 Hcor]%Hc3 & Hu & Hp).
  split_and!; try done. eapply Forall_impl; [exact Hp|].
  intros p (name & node & log & k & w & x & Hn & Hm & Ho & Hrest).
  exists name, node, log, k, w, x. split_and!; try done; [|apply Hrest..].
  rewrite <- Ho. eapply open_existing_same; [exact Hn|by rewrite Hd2].
Qed.

End GateSafety.
