(* ===== verification/GateWitnesses.v ===== *)
(** * The gate at concrete stores

    A store with the log a crash left and an unstarted one: the gate opens and the
    log ends in the seal of a rollback.  A store with a log whose name is not
    UTF-8: the gate panics. *)

From S2P Require Import Gate Codec EvalScenario RunWitnesses.

Local Open Scope Z_scope.

Definition store_root : string := "/var/lib/tuning".

Definition interrupted_store (file : OsFile) : Directory :=
  MkDirectory
    (list_to_map [("tx-7478.jsonl", MkNode (Ok (Ok RegularFile)) RegularFile None file);
                  ("tx-74.jsonl", node_of [])])
    (MkFileIdentity 1 8) [] [].

Definition same_capabilities : CapabilitySnapshot FakeWorld := Kernel.capabilities (kernel replayed_a).

(** The file of the interrupted transaction in the table codec of [Directory.v]. *)
Definition interrupted : Directory := interrupted_store (file_of (mem_entries (log_at 6))).

Definition gate_at (d : Directory) : outcome string unit * GateState (W := FakeWorld) :=
  recover_before_activation store_root map_to_list fake_capabilities (gate_start (world replayed_a) d).

Definition last_line (name : string) (d : Directory) : option string :=
  nodes d !! name ≫= λ node, last (lines (contents (node_file node))).

Definition opens (r : outcome string unit) : bool := match r with Ret _ => true | _ => false end.

Example the_gate_opens :
  opens (gate_at interrupted).1 = true
  ∧ gate_log (gate_at interrupted).2
    = [("transaction_recovered", true); ("unstarted_transaction_wal_discarded", true)]
  ∧ nodes (gate_directory (gate_at interrupted).2) !! "tx-74.jsonl" = None
  ∧ current (gate_world (gate_at interrupted).2) !! resource_a = Some "old".
Proof. by vm_compute. Qed.

(** ** The theorem at the same log *)

Definition numbered_file : OsFile :=
  MkOsFile (lines_text (entry_digits <$> mem_entries (log_at 6))) (Ok (MkMetadata true 1 7)) [] None.
Definition numbered_store : Directory := interrupted_store numbered_file.

Lemma numbered_names name node :
  nodes numbered_store !! name = Some node →
  name = "tx-7478.jsonl" ∧ node_file node = numbered_file
  ∨ name = "tx-74.jsonl" ∧ node_file node = file_of [].
Proof.
  unfold numbered_store, interrupted_store. cbn [nodes list_to_map foldr].
  rewrite lookup_insert_Some. intros [[<- <-]|[_ Hn]]; [by left|]. right.
  rewrite lookup_insert_Some in Hn. destruct Hn as [[<- <-]|[_ Hn]]; [done|by rewrite lookup_empty in Hn].
Qed.

Lemma numbered_utf8 : utf8_store store_root (nodes numbered_store).
Proof. split; [done|]. intros name node [[-> _]|[-> _]]%numbered_names _; reflexivity. Qed.

Lemma numbered_crash :
  crash_directory (Deserialize0 := numbered_Deserialize) (T := MemoryWal) same_capabilities
    (nodes numbered_store).
Proof.
  intros name node tid Hn Hid. destruct (numbered_names _ _ Hn) as [[-> ->]|[-> ->]].
  - assert (tid = tx) as -> by (vm_compute in Hid; by injection Hid as <-).
    split; [done|]. split; [constructor|]. exists (mem_entries (log_at 6)). split.
    { apply written_holds. }
    intros _. exists replayed_a, (log_at 6). split; [exact replayed_a_reachable|].
    split; [exact log_at_6_crash|]. split; [reflexivity|]. split; [vm_compute; reflexivity|reflexivity].
  - split; [done|]. split; [constructor|]. exists []. split; [|done]. by exists [].
Qed.


(** ** A name that is not UTF-8 *)

Definition stray_name : string := String "255"%char ".jsonl".
Definition stray_store : Directory :=
  MkDirectory {[stray_name := node_of []]} (MkFileIdentity 1 8) [] [].

(** A file in the store whose name ends in [.jsonl] and is not UTF-8 is reported
    by discovery as corrupt, and then makes the gate panic while it puts the path
    into the audit record, where it means to record the item and to refuse. *)
Theorem gate_panics_on_a_name_that_is_not_utf8 w :
  (discover store_root map_to_list stray_store).1
  = Ret (MkInventory [] [] [] [MkCorrupt (store_path store_root stray_name)
                                "transaction WAL filename is not valid UTF-8"])
  ∧ (recover_before_activation store_root map_to_list fake_capabilities (gate_start w stray_store)).1 = Panic.
Proof. split; reflexivity. Qed.
