(* ===== verification/Schema.v ===== *)
(** * JSON schemas of remote tools ([tuning_agent/src/adapters/mcp/schema.rs])

    [JsonSchema::compile] checks that a JSON value is a schema of the supported
    keywords, within a nesting depth and a number of nodes; [JsonSchema::validate]
    checks an instance against it.  Both recurse with the depth: the argument [n] of
    their models is [MAX_SCHEMA_DEPTH + 1 - depth], so that [n = 0] is exactly the
    depth check of the source and not a fuel of the model.  A [panic] of
    [validate_instance] is the [expect] of a nested schema that is not an object. *)

From S2P Require Export Values.

Open Scope Z_scope.

(** What the schemas use of [serde_json::Value] beyond [JsonData]: the integer
    accessors and [Value]'s [PartialEq]. *)
Class JsonNumbers `{J : Json} := {
  as_u64 : Value → option Z;
  as_i64 : Value → option Z;
  is_number : Value → bool;
  value_eq : Value → Value → bool;
}.

Definition MAX_SCHEMA_DEPTH : nat := 64.
Definition MAX_SCHEMA_NODES : Z := 4096.

(** [number.fract() == 0.0]. *)
Definition is_integral (x : spec_float) : bool :=
  match x with
  | S754_zero _ => true
  | S754_finite _ m e => (0 <=? e) || (Z.pos m mod 2 ^ (- e) =? 0)
  | _ => false
  end.

(** [str::replace] of one ASCII character, and [<[&str]>::join]. *)
Fixpoint replace_with (c : ascii) (by_ s : string) : string :=
  match s with
  | EmptyString => EmptyString
  | String a s => if Ascii.eqb a c then by_ +:+ replace_with c by_ s else String a (replace_with c by_ s)
  end.
Fixpoint join_str (separator : string) (l : list string) : string :=
  match l with
  | [] => ""
  | [s] => s
  | s :: l => s +:+ separator +:+ join_str separator l
  end.

(** A JSON pointer segment. *)
Definition property_path (base property : string) : string :=
  base +:+ "/" +:+ replace_with "/" "~1" (replace_with "~" "~0" property).

(** [l.iter().any(f)] and [l.iter().filter(f).count()], where [f] is [is_ok] of a
    call that can panic. *)
Fixpoint any_ok {E A} (f : A → outcome E unit) (l : list A) : outcome E bool :=
  match l with
  | [] => Ret false
  | a :: l => match f a with Ret _ => Ret true | Throw _ => any_ok f l | Panic => Panic end
  end.
Fixpoint count_ok {E A} (f : A → outcome E unit) (l : list A) : outcome E Z :=
  match l with
  | [] => Ret 0
  | a :: l =>
    match f a with
    | Ret _ => n ← count_ok f l; mret (1 + n)
    | Throw _ => count_ok f l
    | Panic => Panic
    end
  end.

(** [for (index, a) in l.iter().enumerate() { f(index, a)?; }] *)
Fixpoint each_from {E A} (f : Z → A → outcome E unit) (i : Z) (l : list A) : outcome E unit :=
  match l with
  | [] => Ret tt
  | a :: l => _ ← f i a; each_from f (1 + i) l
  end.

Definition throw_err {E E' A} (f : E → E') (o : outcome E A) : outcome E' A :=
  match o with Ret a => Ret a | Throw e => Throw (f e) | Panic => Panic end.

Section Schemas.
Context `{JD : JsonData, !JsonNumbers, !Serialize Value}.

(** [for (key, value) in object]. *)
Definition object_entries (v : Value) : list (string * Value) :=
  omap (λ k, pair k <$> value_get k v) (default [] (object_keys v)).
Definition contains_key (k : string) (v : Value) : bool := bool_decide (is_Some (value_get k v)).
Definition object_len (v : Value) : Z := Z.of_nat (length (default [] (object_keys v))).

(** ** Keyword values *)

Definition require_object (value : Value) (path : string) : result string Value :=
  if is_object value then Ok value else Err ("value at " +:+ path +:+ " must be an object").
Definition require_array (value : Value) (path : string) : result string (list Value) :=
  ok_or ("value at " +:+ path +:+ " must be an array") (as_array value).
Definition require_string (value : Value) (path : string) : result string string :=
  ok_or ("value at " +:+ path +:+ " must be a string") (as_string value).
Definition require_bool (value : Value) (path : string) : result string unit :=
  reject (negb (bool_decide (is_Some (as_bool value)))) ("value at " +:+ path +:+ " must be a boolean").
Definition require_number (value : Value) (path : string) : result string unit :=
  reject (negb (bool_decide (is_Some (as_f64 value)))) ("value at " +:+ path +:+ " must be a number").
(** [usize] has 64 bits: [usize::try_from] of a [u64] succeeds. *)
Definition require_nonnegative_usize (value : Value) (path : string) : result string unit :=
  reject (negb (bool_decide (is_Some (as_u64 value))))
    ("value at " +:+ path +:+ " must be a non-negative platform-sized integer").

Definition type_names : list string :=
  ["null"; "boolean"; "object"; "array"; "number"; "integer"; "string"].

Definition validate_type_name (name path : string) : result string unit :=
  reject (negb (bool_decide (name ∈ type_names))) ("unsupported JSON type '" +:+ name +:+ "' at " +:+ path).

(** One element of a [type] array; [seen] is the [BTreeSet]. *)
Definition validate_type_element (path : string) (seen : gset string) (element : Value)
    : result string (gset string) :=
  name ← require_string element path;
  _ ← validate_type_name name path;
  _ ← reject (bool_decide (name ∈ seen))
        ("type array at " +:+ path +:+ " contains duplicate '" +:+ name +:+ "'");
  mret ({[name]} ∪ seen).

Definition validate_type_keyword (value : Value) (path : string) : result string unit :=
  let invalid := Err ("type at " +:+ path +:+ " must be a supported type name or a non-empty array") in
  match as_string value with
  | Some name => validate_type_name name path
  | None =>
    match as_array value with
    | Some [] | None => invalid
    | Some names => _ ← fold_result (validate_type_element path) ∅ names; mret tt
    end
  end.

(** [values[..index].iter().any(|right| right == left)] for each index. *)
Definition validate_enum (value : Value) (path : string) : result string unit :=
  values ← require_array value path;
  _ ← fold_result (λ seen left,
        _ ← reject (existsb (λ right, value_eq right left) seen)
              ("enum at " +:+ path +:+ " contains a duplicate value");
        mret (seen ++ [left])) [] values;
  mret tt.

Definition validate_unique_string_array (value : Value) (path : string) : result string unit :=
  values ← require_array value path;
  _ ← fold_result (λ seen element,
        name ← require_string element path;
        _ ← reject (bool_decide (name ∈ seen))
              ("array at " +:+ path +:+ " contains duplicate '" +:+ name +:+ "'");
        mret ({[name]} ∪ seen)) (∅ : gset string) values;
  mret tt.

Definition validate_range_pair (schema : Value) (path minimum maximum : string) : result string unit :=
  match value_get minimum schema ≫= as_u64 with
  | None => Ok tt
  | Some minimum_value =>
    match value_get maximum schema ≫= as_u64 with
    | None => Ok tt
    | Some maximum_value =>
      reject (maximum_value <? minimum_value)
        ("schema at " +:+ path +:+ " has " +:+ minimum +:+ " greater than " +:+ maximum)
    end
  end.

Definition validate_numeric_bounds (schema : Value) (path : string) : result string unit :=
  match value_get "minimum" schema ≫= as_f64, value_get "maximum" schema ≫= as_f64 with
  | Some minimum, Some maximum =>
    reject (f64_lt maximum minimum) ("schema at " +:+ path +:+ " has minimum greater than maximum")
  | _, _ => Ok tt
  end.

(** ** Compilation *)

Definition string_keywords : list string := ["$schema"; "$id"; "$comment"; "title"; "description"].
Definition bool_keywords : list string := ["deprecated"; "readOnly"; "writeOnly"].
Definition size_keywords : list string :=
  ["minProperties"; "maxProperties"; "minItems"; "maxItems"; "minLength"; "maxLength"].
Definition bound_keywords : list string := ["minimum"; "maximum"; "exclusiveMinimum"; "exclusiveMaximum"].
Definition branch_keywords : list string := ["allOf"; "anyOf"; "oneOf"].

(** One iteration of the keyword loop; [nested schema path nodes] is
    [validate_schema] at [depth + 1], the third component of the result the count of
    nodes. *)
Definition validate_keyword (nested : Value → string → Z → result string Z) (path : string)
    (nodes : Z) (entry : string * Value) : result string Z :=
  let '(keyword, value) := entry in
  let keyword_path := property_path path keyword in
  let keep (r : result string unit) := _ ← r; mret nodes in
  if bool_decide (keyword ∈ string_keywords) then _ ← require_string value keyword_path; mret nodes
  else if bool_decide (keyword ∈ ["default"; "const"]) then mret nodes
  else if bool_decide (keyword = "examples") then _ ← require_array value keyword_path; mret nodes
  else if bool_decide (keyword ∈ bool_keywords) then keep (require_bool value keyword_path)
  else if bool_decide (keyword = "type") then keep (validate_type_keyword value keyword_path)
  else if bool_decide (keyword = "enum") then keep (validate_enum value keyword_path)
  else if bool_decide (keyword = "properties") then
    properties ← require_object value keyword_path;
    fold_result (λ nodes p, nested p.2 (property_path keyword_path p.1) nodes) nodes
      (object_entries properties)
  else if bool_decide (keyword = "required") then keep (validate_unique_string_array value keyword_path)
  else if bool_decide (keyword = "additionalProperties") then
    if is_boolean value then mret nodes else nested value keyword_path nodes
  else if bool_decide (keyword ∈ size_keywords) then keep (require_nonnegative_usize value keyword_path)
  else if bool_decide (keyword = "items") then nested value keyword_path nodes
  else if bool_decide (keyword = "uniqueItems") then keep (require_bool value keyword_path)
  else if bool_decide (keyword ∈ bound_keywords) then keep (require_number value keyword_path)
  else if bool_decide (keyword ∈ branch_keywords) then
    schemas ← require_array value keyword_path;
    fold_result (λ nodes p, nested p.2 (keyword_path +:+ "/" +:+ show (Z.of_nat p.1)) nodes) nodes
      (imap pair schemas)
  else if bool_decide (keyword = "not") then nested value keyword_path nodes
  else Err ("unsupported JSON Schema keyword '" +:+ keyword +:+ "' at " +:+ path).

Fixpoint validate_schema (n : nat) (schema : Value) (path : string) (nodes : Z) : result string Z :=
  match n with
  | O => Err ("schema at " +:+ path +:+ " exceeds maximum nesting depth")
  | S n =>
    let nodes := u64_saturating_add nodes 1 in
    _ ← reject (MAX_SCHEMA_NODES <? nodes) ("schema exceeds " +:+ show MAX_SCHEMA_NODES +:+ " nodes");
    _ ← reject (negb (is_object schema))
          ("schema at " +:+ path +:+ " must be an object; boolean schemas are unsupported");
    nodes ← fold_result (validate_keyword (validate_schema n) path) nodes (object_entries schema);
    _ ← validate_range_pair schema path "minProperties" "maxProperties";
    _ ← validate_range_pair schema path "minItems" "maxItems";
    _ ← validate_range_pair schema path "minLength" "maxLength";
    _ ← validate_numeric_bounds schema path;
    mret nodes
  end.

(** [JsonSchema], a schema that was compiled. *)
Record JsonSchema := MkJsonSchema { schema_value : Value }.

Definition JsonSchema_compile (value : Value) : result string JsonSchema :=
  _ ← validate_schema (S MAX_SCHEMA_DEPTH) value "$" 0;
  mret (MkJsonSchema value).

(** ** Types and sizes of an instance *)

Definition is_string (v : Value) : bool := bool_decide (is_Some (as_string v)).

Definition matches_type (v : Value) (expected : string) : bool :=
  if bool_decide (expected = "null") then is_null v
  else if bool_decide (expected = "boolean") then is_boolean v
  else if bool_decide (expected = "object") then is_object v
  else if bool_decide (expected = "array") then is_array v
  else if bool_decide (expected = "number") then is_number v
  else if bool_decide (expected = "integer") then
    bool_decide (is_Some (as_i64 v)) || bool_decide (is_Some (as_u64 v))
    || match as_f64 v with Some number => is_integral number | None => false end
  else if bool_decide (expected = "string") then is_string v
  else false.

Definition instance_type (v : Value) : string :=
  if is_null v then "null"
  else if is_boolean v then "boolean"
  else if is_number v then "number"
  else if is_string v then "string"
  else if is_array v then "array"
  else "object".

Definition display_types (v : Value) : string :=
  match as_string v, as_array v with
  | Some name, _ => name
  | None, Some names => join_str " or " (omap as_string names)
  | None, None => "a supported type"
  end.

(** The names a [type] keyword lists. *)
Definition listed_types (expected : Value) : list string :=
  match as_string expected, as_array expected with
  | Some name, _ => [name]
  | None, Some names => omap as_string names
  | None, None => []
  end.

Definition check_limit (schema : Value) (keyword : string) (beyond : Z → bool) (actual : Z)
    (path position : string) : result string unit :=
  match value_get keyword schema ≫= as_u64 with
  | Some limit =>
    reject (beyond limit) ("value at " +:+ path +:+ " has size " +:+ show actual +:+ ", " +:+ position
      +:+ " " +:+ keyword +:+ " " +:+ show limit)
  | None => Ok tt
  end.
Definition validate_size (schema : Value) (minimum maximum : string) (actual : Z) (path : string)
    : result string unit :=
  _ ← check_limit schema minimum (λ limit, actual <? limit) actual path "below";
  check_limit schema maximum (λ limit, limit <? actual) actual path "above".

Definition validate_string (schema : Value) (s path : string) : result string unit :=
  validate_size schema "minLength" "maxLength" (Z.of_nat (length (chars s))) path.

Definition check_bound (schema : Value) (keyword : string) (beyond : spec_float → bool)
    (path position : string) : result string unit :=
  match value_get keyword schema ≫= as_f64 with
  | Some bound => reject (beyond bound) ("number at " +:+ path +:+ position +:+ f64_display bound)
  | None => Ok tt
  end.
Definition validate_number (schema v : Value) (path : string) : result string unit :=
  number ← ok_or ("number at " +:+ path +:+ " cannot be represented for bound validation") (as_f64 v);
  _ ← check_bound schema "minimum" (λ b, f64_lt number b) path " is less than minimum ";
  _ ← check_bound schema "maximum" (λ b, f64_lt b number) path " is greater than maximum ";
  _ ← check_bound schema "exclusiveMinimum" (λ b, f64_le number b) path " is not greater than exclusiveMinimum ";
  check_bound schema "exclusiveMaximum" (λ b, f64_ge number b) path " is not less than exclusiveMaximum ".

(** ** Validation *)

Definition validate_type (schema v : Value) (path : string) : result string unit :=
  match value_get "type" schema with
  | Some expected =>
    reject (negb (existsb (matches_type v) (listed_types expected)))
      ("instance at " +:+ path +:+ " has type " +:+ instance_type v +:+ ", expected "
        +:+ display_types expected)
  | None => Ok tt
  end.

Definition validate_const (schema v : Value) (path : string) : result string unit :=
  match value_get "const" schema with
  | Some expected => reject (negb (value_eq v expected)) ("instance at " +:+ path +:+ " does not match const")
  | None => Ok tt
  end.

Definition validate_enumerated (schema v : Value) (path : string) : result string unit :=
  match value_get "enum" schema ≫= as_array with
  | Some values =>
    reject (negb (existsb (λ value, value_eq value v) values))
      ("instance at " +:+ path +:+ " is not one of the allowed enum values")
  | None => Ok tt
  end.

(** In the functions that follow [nested schema instance path] is
    [validate_instance] at [depth + 1]. *)
Definition Nested : Type := Value → Value → string → outcome string unit.

Definition validate_compositions (nested : Nested) (schema v : Value) (path : string) : outcome string unit :=
  _ ← match value_get "allOf" schema ≫= as_array with
      | Some branches =>
        each_from (λ index branch,
          throw_err (λ error, "allOf branch " +:+ show index +:+ " failed: " +:+ error) (nested branch v path))
          0 branches
      | None => Ret tt
      end;
  _ ← match value_get "anyOf" schema ≫= as_array with
      | Some branches =>
        matched ← any_ok (λ branch, nested branch v path) branches;
        of_result (reject (negb matched) ("instance at " +:+ path +:+ " does not match any anyOf branch"))
      | None => Ret tt
      end;
  _ ← match value_get "oneOf" schema ≫= as_array with
      | Some branches =>
        matches ← count_ok (λ branch, nested branch v path) branches;
        of_result (reject (negb (matches =? 1)) ("instance at " +:+ path +:+ " matches " +:+ show matches
          +:+ " oneOf branches, expected exactly one"))
      | None => Ret tt
      end;
  match value_get "not" schema with
  | Some negated =>
    match nested negated v path with
    | Ret _ => Throw ("instance at " +:+ path +:+ " matches a forbidden not schema")
    | Throw _ => Ret tt
    | Panic => Panic
    end
  | None => Ret tt
  end.

Definition validate_required (schema v : Value) (path : string) : result string unit :=
  match value_get "required" schema ≫= as_array with
  | Some required =>
    fold_result (λ _ name, reject (negb (contains_key name v))
      ("instance at " +:+ path +:+ " is missing required property '" +:+ name +:+ "'")) tt
      (omap as_string required)
  | None => Ok tt
  end.

(** One property of the instance. *)
Definition validate_property (nested : Nested) (schema : Value) (path : string) (entry : string * Value)
    : outcome string unit :=
  let '(name, value) := entry in
  let properties := known ← value_get "properties" schema; if is_object known then Some known else None in
  match properties ≫= value_get name with
  | Some property_schema => nested property_schema value (property_path path name)
  | None =>
    match value_get "additionalProperties" schema with
    | Some additional =>
      if bool_decide (as_bool additional = Some false) then
        Throw ("instance at " +:+ path +:+ " contains unknown property '" +:+ name +:+ "'")
      else if negb (is_boolean additional) then nested additional value (property_path path name)
      else Ret tt
    | None => Ret tt
    end
  end.

Definition validate_object (nested : Nested) (schema v : Value) (path : string) : outcome string unit :=
  _ ← of_result (validate_size schema "minProperties" "maxProperties" (object_len v) path);
  _ ← of_result (validate_required schema v path);
  fold_outcome (λ _, validate_property nested schema path) tt (object_entries v).

(** One insertion into the [HashSet] of encoded items. *)
Definition insert_encoded (path : string) (seen : gset string) (item : Value) : result string (gset string) :=
  encoded ← map_err (λ error, "failed to compare array items at " +:+ path +:+ ": " +:+ error) (to_vec item);
  _ ← reject (bool_decide (encoded ∈ seen)) ("array at " +:+ path +:+ " contains duplicate items");
  mret ({[encoded]} ∪ seen).

Definition validate_unique (schema : Value) (items : list Value) (path : string) : result string unit :=
  if bool_decide (value_get "uniqueItems" schema ≫= as_bool = Some true) then
    _ ← fold_result (insert_encoded path) ∅ items; mret tt
  else Ok tt.

Definition validate_array (nested : Nested) (schema : Value) (items : list Value) (path : string)
    : outcome string unit :=
  _ ← of_result (validate_size schema "minItems" "maxItems" (Z.of_nat (length items)) path);
  _ ← of_result (validate_unique schema items path);
  match value_get "items" schema with
  | Some item_schema =>
    each_from (λ index item, nested item_schema item (path +:+ "/" +:+ show index)) 0 items
  | None => Ret tt
  end.

Fixpoint validate_instance (n : nat) (schema v : Value) (path : string) : outcome string unit :=
  match n with
  | O => Throw ("instance at " +:+ path +:+ " exceeds maximum validation depth")
  | S n =>
    if negb (is_object schema) then Panic else
    _ ← of_result (validate_type schema v path);
    _ ← of_result (validate_const schema v path);
    _ ← of_result (validate_enumerated schema v path);
    _ ← validate_compositions (validate_instance n) schema v path;
    _ ← (if is_object v then validate_object (validate_instance n) schema v path else Ret tt);
    _ ← match as_array v with
        | Some items => validate_array (validate_instance n) schema items path
        | None => Ret tt
        end;
    _ ← of_result (match as_string v with Some s => validate_string schema s path | None => Ok tt end);
    of_result (if is_number v then validate_number schema v path else Ok tt)
  end.

Definition JsonSchema_validate (schema : JsonSchema) (v : Value) : outcome string unit :=
  validate_instance (S MAX_SCHEMA_DEPTH) (schema_value schema) v "$".
End Schemas.
Arguments JsonSchema {J}.
Arguments MkJsonSchema {J} schema_value.
Arguments schema_value {J} j.
