(* ===== verification/SchemaSafety.v ===== *)
(** * What a compiled schema promises

    A specification of conformance that speaks of the keywords and not of the
    algorithm, and the theorem that [JsonSchema_validate] decides it on every
    compiled schema: no panic, and no instance refused by the depth limit. *)

From S2P Require Export Schema.

Open Scope Z_scope.

(** ** Calls that decide a property *)

(** The call returns [Ok] exactly when [P] holds, and does not panic. *)
Definition decides {E A} (o : outcome E A) (P : Prop) : Prop :=
  match o with Ret _ => P | Throw _ => ¬ P | Panic => False end.

Create HintDb deciding.

Section Decides.
Context {E : Type}.

Lemma decides_iff {A} (o : outcome E A) P Q : decides o P → (P ↔ Q) → decides o Q.
Proof. unfold decides. destruct o; tauto. Qed.

Lemma decides_bind {A B} (o : outcome E A) (k : A → outcome E B) P Q :
  decides o P → (∀ a, P → decides (k a) Q) → decides (o ≫= k) (P ∧ Q).
Proof.
  destruct o as [a|e|]; simpl; [|tauto|tauto]. intros HP Hk. eapply decides_iff; [by apply Hk|tauto].
Qed.

Lemma decides_reject (b : bool) (e : E) : decides (of_result (reject b e)) (b = false).
Proof. by destruct b. Qed.

Lemma decides_ok : decides (of_result (E := E) (Ok tt)) True.
Proof. done. Qed.

Lemma decides_match {A} (o : option A) (f : A → outcome E unit) (P : A → Prop) :
  (∀ a, o = Some a → decides (f a) (P a)) →
  decides (match o with Some a => f a | None => Ret tt end) (∀ a, o = Some a → P a).
Proof.
  intros Hf. destruct o as [a|]; [|by intros]. eapply decides_iff; [by apply Hf|]. split; [by intros ? ? [= <-]|auto].
Qed.

Lemma of_result_match {A} (o : option A) (f : A → result E unit) :
  of_result (match o with Some a => f a | None => Ok tt end)
  = match o with Some a => of_result (f a) | None => Ret tt end.
Proof. by destruct o. Qed.

Lemma of_result_bind {A B} (r : result E A) (k : A → result E B) :
  of_result (r ≫= k) = of_result r ≫= λ a, of_result (k a).
Proof. by destruct r. Qed.

Lemma decides_throw_err {E' A} (f : E → E') (o : outcome E A) P : decides o P → decides (throw_err f o) P.
Proof. by destruct o. Qed.

Lemma decides_each {A} (f : Z → A → outcome E unit) (P : A → Prop) i l :
  (∀ i a, a ∈ l → decides (f i a) (P a)) → decides (each_from f i l) (Forall P l).
Proof.
  revert i. induction l as [|a l IH]; intros i Hf; simpl; [by constructor|].
  eapply decides_iff; [|symmetry; apply Forall_cons]. apply decides_bind; [apply Hf; by left|].
  intros _ _. apply IH. intros j b Hb. apply Hf. by right.
Qed.

Lemma decides_fold {A} (f : A → outcome E unit) (P : A → Prop) l :
  (∀ a, a ∈ l → decides (f a) (P a)) → decides (fold_outcome (λ _, f) tt l) (Forall P l).
Proof.
  intros Hf. assert (∀ i, fold_outcome (λ _, f) tt l = each_from (λ _, f) i l) as Heq.
  { clear. induction l as [|a l IH]; intros i; simpl; [done|]. destruct (f a) as [[]|e|]; simpl; auto. }
  rewrite (Heq 0). apply decides_each. auto.
Qed.

Lemma any_ok_decides {A} (f : A → outcome E unit) (P : A → Prop) l :
  (∀ a, a ∈ l → decides (f a) (P a)) → ∃ b, any_ok f l = Ret b ∧ (b = true ↔ Exists P l).
Proof.
  induction l as [|a l IH]; intros Hf; simpl; [exists false; by rewrite Exists_nil|].
  setoid_rewrite Exists_cons. pose proof (Hf a ltac:(by left)) as Ha.
  destruct (f a); simpl in Ha; [by exists true; naive_solver| |done].
  destruct IH as (b & Hb & Hiff); [intros; apply Hf; by right|]. exists b. naive_solver.
Qed.

(** Exactly one element satisfies [P]. *)
Definition exactly_one {A} (P : A → Prop) (l : list A) : Prop :=
  ∃ l1 a l2, l = l1 ++ a :: l2 ∧ P a ∧ Forall (λ b, ¬ P b) l1 ∧ Forall (λ b, ¬ P b) l2.

Lemma count_ok_decides {A} (f : A → outcome E unit) (P : A → Prop) l :
  (∀ a, a ∈ l → decides (f a) (P a)) →
  ∃ k, count_ok f l = Ret k ∧ 0 <= k ∧ (k = 0 ↔ Forall (λ a, ¬ P a) l) ∧ (k = 1 ↔ exactly_one P l).
Proof.
  induction l as [|a l IH]; intros Hf; simpl.
  { exists 0. split_and!; [done|lia|by rewrite Forall_nil|]. split; [done|].
    by intros (l1 & a & l2 & Hl & _); destruct l1. }
  pose proof (Hf a ltac:(by left)) as Ha.
  destruct IH as (k & Hk & Hpos & H0k & H1k); [intros; apply Hf; by right|].
  destruct (f a); simpl in Ha; [| |done].
  - rewrite Hk. exists (1 + k). split_and!; [done|lia|rewrite Forall_cons; split; [lia|tauto]|]. split.
    + intros Hone. exists [], a, l. split_and!; [done|done|by constructor|apply H0k; lia].
    + intros ([|b l1] & c & l2 & [= <- ->] & Hc & Hl1 & Hl2); [apply H0k in Hl2; lia|].
      by apply Forall_cons in Hl1 as [Hl1 _].
  - exists k. split_and!; [done|done|rewrite Forall_cons; tauto|]. rewrite H1k. split.
    + intros (l1 & b & l2 & -> & Hb & Hl1 & Hl2). exists (a :: l1), b, l2. by rewrite Forall_cons.
    + intros ([|b l1] & c & l2 & [= <- ->] & Hc & Hl1 & Hl2); [done|].
      apply Forall_cons in Hl1 as [_ Hl1]. by exists l1, c, l2.
Qed.
End Decides.
#[export] Hint Resolve decides_reject decides_ok decides_throw_err : deciding.

(** ** Conformance *)

(** [serde_json::Map]: the keys of an object are those [get] finds. *)
Class ObjectLaws `{JD : JsonData} : Prop := {
  keys_of_value_get k v x : value_get k v = Some x → ∃ ks, object_keys v = Some ks ∧ k ∈ ks;
  boolean_not_object v : is_object v = true → is_boolean v = false;
}.

Section Conformance.
Context `{JD : JsonData, !JsonNumbers, !Serialize Value}.

Definition keyword (schema : Value) (k : string) : option Value := value_get k schema.
Definition within (schema : Value) (minimum maximum : string) (size : Z) : Prop :=
  (∀ limit, keyword schema minimum ≫= as_u64 = Some limit → limit <= size) ∧
  (∀ limit, keyword schema maximum ≫= as_u64 = Some limit → size <= limit).
Definition bounded (schema : Value) (x : spec_float) : Prop :=
  (∀ b, keyword schema "minimum" ≫= as_f64 = Some b → f64_lt x b = false) ∧
  (∀ b, keyword schema "maximum" ≫= as_f64 = Some b → f64_lt b x = false) ∧
  (∀ b, keyword schema "exclusiveMinimum" ≫= as_f64 = Some b → f64_le x b = false) ∧
  (∀ b, keyword schema "exclusiveMaximum" ≫= as_f64 = Some b → f64_le b x = false).
Definition distinct_items (items : list Value) : Prop :=
  ∃ encoded, Forall2 (λ item e, to_vec item = Ok e) items encoded ∧ NoDup encoded.

Definition typed (schema v : Value) : Prop :=
  ∀ expected, keyword schema "type" = Some expected →
    Exists (λ name, matches_type v name = true) (listed_types expected).
Definition constant (schema v : Value) : Prop :=
  ∀ expected, keyword schema "const" = Some expected → value_eq v expected = true.
Definition enumerated (schema v : Value) : Prop :=
  ∀ values, keyword schema "enum" ≫= as_array = Some values → Exists (λ e, value_eq e v = true) values.

(** [P schema v] is conformance to a nested schema. *)
Definition composed (P : Value → Value → Prop) (schema v : Value) : Prop :=
  (∀ branches, keyword schema "allOf" ≫= as_array = Some branches → Forall (λ b, P b v) branches) ∧
  (∀ branches, keyword schema "anyOf" ≫= as_array = Some branches → Exists (λ b, P b v) branches) ∧
  (∀ branches, keyword schema "oneOf" ≫= as_array = Some branches → exactly_one (λ b, P b v) branches) ∧
  (∀ negated, keyword schema "not" = Some negated → ¬ P negated v).

(** A declared property conforms to its schema, another one to
    [additionalProperties]. *)
Definition known_property (schema : Value) (name : string) : option Value :=
  known ← keyword schema "properties"; if is_object known then value_get name known else None.
Definition property_conforms (P : Value → Value → Prop) (schema : Value) (entry : string * Value) : Prop :=
  match known_property schema entry.1 with
  | Some sub => P sub entry.2
  | None => ∀ additional, keyword schema "additionalProperties" = Some additional →
      as_bool additional ≠ Some false ∧ (is_boolean additional = false → P additional entry.2)
  end.
Definition object_conforms (P : Value → Value → Prop) (schema v : Value) : Prop :=
  within schema "minProperties" "maxProperties" (object_len v) ∧
  (∀ required, keyword schema "required" ≫= as_array = Some required →
     Forall (λ name, is_Some (value_get name v)) (omap as_string required)) ∧
  Forall (property_conforms P schema) (object_entries v).
Definition array_conforms (P : Value → Value → Prop) (schema : Value) (items : list Value) : Prop :=
  within schema "minItems" "maxItems" (Z.of_nat (length items)) ∧
  (keyword schema "uniqueItems" ≫= as_bool = Some true → distinct_items items) ∧
  (∀ sub, keyword schema "items" = Some sub → Forall (P sub) items).

Fixpoint conforms (n : nat) (schema v : Value) : Prop :=
  match n with
  | O => False
  | S n =>
    typed schema v ∧ constant schema v ∧ enumerated schema v ∧ composed (conforms n) schema v ∧
    (is_object v = true → object_conforms (conforms n) schema v) ∧
    (∀ items, as_array v = Some items → array_conforms (conforms n) schema items) ∧
    (∀ s, as_string v = Some s → within schema "minLength" "maxLength" (Z.of_nat (length (chars s)))) ∧
    (is_number v = true → ∃ x, as_f64 v = Some x ∧ bounded schema x)
  end.

(** ** Well-formed schemas *)

Inductive nested_in (schema : Value) : Value → Prop :=
  | in_properties known name sub :
      keyword schema "properties" = Some known → is_object known = true → value_get name known = Some sub →
      nested_in schema sub
  | in_additional sub : keyword schema "additionalProperties" = Some sub → is_boolean sub = false → nested_in schema sub
  | in_items sub : keyword schema "items" = Some sub → nested_in schema sub
  | in_not sub : keyword schema "not" = Some sub → nested_in schema sub
  | in_branch k branches sub :
      k ∈ branch_keywords → keyword schema k ≫= as_array = Some branches → sub ∈ branches → nested_in schema sub.

(** Objects, nested no deeper than [n]. *)
Inductive well_formed : nat → Value → Prop :=
  | well_formed_intro n schema :
      is_object schema = true → (∀ sub, nested_in schema sub → well_formed n sub) → well_formed (S n) schema.

Lemma elem_of_entries k v x `{!ObjectLaws} : value_get k v = Some x → (k, x) ∈ object_entries v.
Proof.
  intros Hk. destruct (keys_of_value_get k v x Hk) as (ks & Hks & Hin). unfold object_entries. rewrite Hks.
  apply list_elem_of_omap. exists k. by rewrite Hk.
Qed.

Lemma fold_result_each {E S A} (f : S → A → result E S) s l s' :
  fold_result f s l = Ok s' → ∀ a, a ∈ l → ∃ s1 s2, f s1 a = Ok s2.
Proof.
  revert s. induction l as [|b l IH]; intros s Hl a Ha; [by apply not_elem_of_nil in Ha|]. simpl in Hl.
  destruct (f s b) eqn:Hb; [|done]. apply elem_of_cons in Ha as [->|Ha]; eauto.
Qed.

(** The schemas a keyword nests were passed to [validate_schema]. *)
Lemma keyword_nested nested path nodes k value nodes' sub `{!ObjectLaws} :
  validate_keyword nested path nodes (k, value) = Ok nodes' →
  (k = "properties" ∧ (∃ name, value_get name value = Some sub))
  ∨ (k = "additionalProperties" ∧ is_boolean value = false ∧ sub = value)
  ∨ (k ∈ ["items"; "not"] ∧ sub = value)
  ∨ (k ∈ branch_keywords ∧ ∃ l, as_array value = Some l ∧ sub ∈ l) →
  ∃ p n1 n2, nested sub p n1 = Ok n2.
Proof.
  intros Hok [[-> [name Hname]]|[(-> & Hb & ->)|[[Hk ->]|[Hk (l & Hl & Hsub)]]]].
  - unfold validate_keyword in Hok; simpl in Hok. unfold require_object in Hok. destruct (is_object value); [|done]. simpl in Hok.
    destruct (fold_result_each _ _ _ _ Hok (name, sub)) as (n1 & n2 & Hn); [by apply elem_of_entries|]. eauto.
  - unfold validate_keyword in Hok; simpl in Hok. rewrite Hb in Hok. eauto.
  - unfold validate_keyword in Hok. set_unfold in Hk. destruct Hk as [->|[->|[]]]; simpl in Hok; eauto.
  - assert (∃ l p f, as_array value = Some l ∧ fold_result (λ nodes q, nested (q : nat * Value).2 (f q) nodes) p (imap pair l) = Ok nodes')
      as (l' & p & f & Hl' & Hf).
    { unfold validate_keyword, require_array in Hok. unfold branch_keywords in Hk. set_unfold in Hk.
      destruct Hk as [->|[->|[->|[]]]]; simpl in Hok; rewrite Hl in Hok;
        do 3 eexists; (split; [exact Hl|exact Hok]). }
    assert (l' = l) as -> by congruence. apply list_elem_of_lookup in Hsub as [i Hi].
    destruct (fold_result_each _ _ _ _ Hf (i, sub)) as (n1 & n2 & Hn); [|eauto].
    apply list_elem_of_lookup. exists i. by rewrite list_lookup_imap, Hi.
Qed.

Lemma validated_well_formed n schema path nodes nodes' `{!ObjectLaws} :
  validate_schema n schema path nodes = Ok nodes' → well_formed n schema.
Proof.
  revert schema path nodes nodes'. induction n as [|n IH]; intros schema path nodes nodes' Hok; [done|]. simpl in Hok.
  apply reject_bind_Ok in Hok as [_ Hok]. apply reject_bind_Ok in Hok as [Hobj Hok].
  apply reject_Ok, negb_false_iff in Hobj. apply result_bind_Ok in Hok as (nodes1 & Hfold & _).
  constructor; [done|]. intros sub Hsub.
  assert (∃ k value, value_get k schema = Some value ∧
    ((k = "properties" ∧ (∃ name, value_get name value = Some sub))
     ∨ (k = "additionalProperties" ∧ is_boolean value = false ∧ sub = value)
     ∨ (k ∈ ["items"; "not"] ∧ sub = value)
     ∨ (k ∈ branch_keywords ∧ ∃ l, as_array value = Some l ∧ sub ∈ l))) as (k & value & Hk & Hcase).
  { destruct Hsub as [known name sub Hk Ho Hn|sub Hk Hb|sub Hk|sub Hk|k l sub Hin Hk Hsub].
    - exists "properties", known. eauto 10.
    - exists "additionalProperties", sub. eauto 10.
    - exists "items", sub. split; [done|]. do 2 right. left. split; [set_solver|done].
    - exists "not", sub. split; [done|]. do 2 right. left. split; [set_solver|done].
    - apply bind_Some in Hk as (value & Hk & Hl). exists k, value. eauto 10. }
  destruct (fold_result_each _ _ _ _ Hfold (k, value) (elem_of_entries _ _ _ Hk)) as (n1 & n2 & Hn).
  destruct (keyword_nested _ _ _ _ _ _ _ Hn Hcase) as (p & m1 & m2 & Hm). eauto.
Qed.

(** ** Each part of [validate_instance] decides its clause *)

Lemma decides_check_limit schema k beyond actual path position :
  decides (of_result (check_limit schema k beyond actual path position))
    (∀ limit, keyword schema k ≫= as_u64 = Some limit → beyond limit = false).
Proof. unfold check_limit. rewrite of_result_match. apply decides_match. auto with deciding. Qed.

Lemma decides_check_bound schema k beyond path position :
  decides (of_result (check_bound schema k beyond path position))
    (∀ b, keyword schema k ≫= as_f64 = Some b → beyond b = false).
Proof. unfold check_bound. rewrite of_result_match. apply decides_match. auto with deciding. Qed.

Lemma decides_size schema minimum maximum actual path :
  decides (of_result (validate_size schema minimum maximum actual path)) (within schema minimum maximum actual).
Proof.
  unfold validate_size. rewrite of_result_bind.
  eapply decides_iff; [apply decides_bind; [apply decides_check_limit|intros; apply decides_check_limit]|].
  unfold within. by setoid_rewrite Z.ltb_ge.
Qed.

Lemma decides_number schema v path :
  decides (of_result (validate_number schema v path)) (∃ x, as_f64 v = Some x ∧ bounded schema x).
Proof.
  unfold validate_number. destruct (as_f64 v) as [x|]; simpl; [|naive_solver]. rewrite !of_result_bind.
  apply (decides_iff _ (bounded schema x)); [|split; [eauto|by intros (? & [= <-] & ?)]].
  unfold bounded. repeat (apply decides_bind; [|intros ? _]; [apply decides_check_bound|rewrite ?of_result_bind]).
  apply decides_check_bound.
Qed.

Lemma existsb_Exists {A} (f : A → bool) l : existsb f l = true ↔ Exists (λ a, f a = true) l.
Proof. rewrite existsb_exists, Exists_exists. by setoid_rewrite list_elem_of_In. Qed.

Lemma decides_some_of {A} (f : A → bool) (l : list A) (e : string) :
  decides (of_result (reject (negb (existsb f l)) e)) (Exists (λ a, f a = true) l).
Proof. eapply decides_iff; [apply decides_reject|]. by rewrite negb_false_iff, existsb_Exists. Qed.
#[local] Hint Resolve decides_some_of decides_size decides_number : deciding.

Lemma decides_type schema v path : decides (of_result (validate_type schema v path)) (typed schema v).
Proof. unfold validate_type. rewrite of_result_match. apply decides_match. auto with deciding. Qed.

Lemma decides_const schema v path : decides (of_result (validate_const schema v path)) (constant schema v).
Proof.
  unfold validate_const. rewrite of_result_match. apply decides_match. intros expected _.
  eapply decides_iff; [apply decides_reject|]. by rewrite negb_false_iff.
Qed.

Lemma decides_enumerated schema v path : decides (of_result (validate_enumerated schema v path)) (enumerated schema v).
Proof. unfold validate_enumerated. rewrite of_result_match. apply decides_match. auto with deciding. Qed.

Lemma decides_required schema v path :
  decides (of_result (validate_required schema v path))
    (∀ required, keyword schema "required" ≫= as_array = Some required →
       Forall (λ name, is_Some (value_get name v)) (omap as_string required)).
Proof.
  unfold validate_required. rewrite of_result_match. apply decides_match. intros required _.
  generalize (omap as_string required) as names. induction names as [|name names IH]; simpl; [by constructor|].
  eapply decides_iff; [|symmetry; apply Forall_cons]. unfold contains_key.
  case_bool_decide as Hin; simpl; [eapply decides_iff; [exact IH|tauto]|tauto].
Qed.

(** The set of encodings seen so far. *)
Lemma fold_insert_encoded path items (seen : gset string) :
  decides (of_result (fold_result (insert_encoded path) seen items))
    (∃ encoded, Forall2 (λ item e, to_vec item = Ok e) items encoded ∧ NoDup encoded ∧ Forall (.∉ seen) encoded).
Proof.
  revert seen. induction items as [|item items IH]; intros seen; simpl.
  { exists []. repeat constructor. }
  unfold insert_encoded at 1. destruct (to_vec item) as [e|e] eqn:He; simpl.
  2:{ intros (l & Hl & _). apply Forall2_cons_inv_l in Hl as (y & l' & Hy & _). congruence. }
  case_bool_decide as Hin; simpl.
  { intros (l & Hl & _ & Hf). apply Forall2_cons_inv_l in Hl as (y & l' & Hy & _ & ->).
    apply Forall_cons in Hf as [Hf _]. congruence. }
  eapply decides_iff; [apply IH|]. split.
  - intros (l & Hl & Hnd & Hf). exists (e :: l). rewrite Forall_cons, NoDup_cons. split_and!; [by constructor| |done|done|].
    + intros Hel. rewrite Forall_forall in Hf. apply Hf in Hel. set_solver.
    + eapply Forall_impl; [exact Hf|]. set_solver.
  - intros (l & Hl & Hnd & Hf). apply Forall2_cons_inv_l in Hl as (y & l' & Hy & Hl & ->).
    assert (y = e) as -> by congruence. apply NoDup_cons in Hnd as [Hel Hnd]. apply Forall_cons in Hf as [_ Hf].
    exists l'. split_and!; [done|done|]. rewrite Forall_forall in *. intros x Hx. apply not_elem_of_union.
    split; [|by apply Hf]. intros ->%elem_of_singleton. done.
Qed.

Lemma decides_unique schema items path :
  decides (of_result (validate_unique schema items path))
    (keyword schema "uniqueItems" ≫= as_bool = Some true → distinct_items items).
Proof.
  unfold validate_unique, keyword. case_bool_decide as Hu; [|intros Ha; by destruct (Hu Ha)]. rewrite of_result_bind.
  eapply decides_iff; [eapply (decides_bind _ _ _ True); [apply fold_insert_encoded|by intros]|]. unfold distinct_items. split.
  - intros [(l & Hl & Hnd & _) _] _. eauto.
  - intros Hd. destruct (Hd Hu) as (l & Hl & Hnd). split; [|done]. exists l.
    split_and!; [done|done|]. apply Forall_true. set_solver.
Qed.
#[local] Hint Resolve decides_type decides_const decides_enumerated decides_required decides_unique : deciding.

(** The nested schemas of [schema] are decided by [nested]. *)
Definition nested_decided (nested : Nested) (P : Value → Value → Prop) (schema : Value) : Prop :=
  ∀ sub v path, nested_in schema sub → decides (nested sub v path) (P sub v).

Section Nested.
Context (nested : Nested) (P : Value → Value → Prop) (schema : Value).
Context (Hnested : nested_decided nested P schema).

Lemma branches_decided k branches v path :
  k ∈ branch_keywords → keyword schema k ≫= as_array = Some branches →
  ∀ b, b ∈ branches → decides (nested b v path) (P b v).
Proof. intros Hk Hb b Hin. apply Hnested. by eapply in_branch. Qed.

Lemma decides_compositions v path : decides (validate_compositions nested schema v path) (composed P schema v).
Proof.
  unfold validate_compositions, composed.
  assert (∀ k, k ∈ ["allOf"; "anyOf"; "oneOf"] → k ∈ branch_keywords) as Hk by done.
  apply decides_bind; [|intros _ _; apply decides_bind; [|intros _ _; apply decides_bind; [|intros _ _]]].
  - apply decides_match. intros branches Hb. apply decides_each. intros i b Hin. apply decides_throw_err.
    by eapply branches_decided; [apply Hk; left|..].
  - apply decides_match. intros branches Hb.
    destruct (any_ok_decides (λ b, nested b v path) (λ b, P b v) branches) as (matched & -> & Hm).
    { by eapply branches_decided; [apply Hk; right; left|..]. }
    eapply decides_iff; [apply decides_reject|]. by rewrite negb_false_iff.
  - apply decides_match. intros branches Hb.
    destruct (count_ok_decides (λ b, nested b v path) (λ b, P b v) branches) as (k & -> & _ & _ & Hm).
    { by eapply branches_decided; [apply Hk; do 2 right; left|..]. }
    eapply decides_iff; [apply decides_reject|]. by rewrite negb_false_iff, Z.eqb_eq.
  - destruct (value_get "not" schema) as [negated|] eqn:Hn; [|by unfold keyword; rewrite Hn].
    pose proof (Hnested negated v path (in_not _ _ Hn)) as Hd. unfold keyword. rewrite Hn.
    destruct (nested negated v path); simpl in *; [naive_solver|naive_solver|done].
Qed.

Lemma decides_property path entry :
  decides (validate_property nested schema path entry) (property_conforms P schema entry).
Proof.
  destruct entry as [name value]. unfold validate_property, property_conforms. simpl.
  assert ((known ← value_get "properties" schema; if is_object known then Some known else None) ≫= value_get name
    = known_property schema name) as ->.
  { unfold known_property, keyword. destruct (value_get "properties" schema) as [known|]; simpl; [|done].
    by destruct (is_object known). }
  destruct (known_property schema name) as [sub|] eqn:Hsub.
  - unfold known_property in Hsub. apply bind_Some in Hsub as (known & Hk & Hsub).
    destruct (is_object known) eqn:Ho; [|done]. apply Hnested. by eapply in_properties.
  - apply decides_match. intros additional Ha. case_bool_decide as Hf; [simpl; tauto|].
    destruct (is_boolean additional) eqn:Hb; simpl; [split; [done|by intros]|].
    eapply decides_iff; [apply Hnested; by apply in_additional|]. tauto.
Qed.

Lemma decides_object v path : decides (validate_object nested schema v path) (object_conforms P schema v).
Proof.
  unfold validate_object, object_conforms. apply decides_bind; [apply decides_size|intros _ _].
  apply decides_bind; [apply decides_required|intros _ _]. apply decides_fold. intros. apply decides_property.
Qed.

Lemma decides_array items path : decides (validate_array nested schema items path) (array_conforms P schema items).
Proof.
  unfold validate_array, array_conforms. apply decides_bind; [apply decides_size|intros _ _].
  apply decides_bind; [apply decides_unique|intros _ _]. apply decides_match. intros sub Hsub.
  apply decides_each. intros. apply Hnested. by apply in_items.
Qed.
End Nested.

(** A schema well formed at depth [n] is decided at depth [n]; a deeper
    specification has the same instances. *)
Lemma instance_decided n m schema v path :
  well_formed n schema → (n ≤ m)%nat → decides (validate_instance n schema v path) (conforms m schema v).
Proof.
  intros Hwf. revert m v path. induction Hwf as [n schema Hobj Hsub IH]; intros m v path Hm.
  destruct m as [|m]; [lia|]. simpl. rewrite Hobj. simpl.
  assert (nested_decided (validate_instance n) (conforms m) schema) as Hnested.
  { intros sub w p Hin. apply IH; [done|lia]. }
  apply decides_bind; [apply decides_type|intros _ _]. apply decides_bind; [apply decides_const|intros _ _].
  apply decides_bind; [apply decides_enumerated|intros _ _].
  apply decides_bind; [by apply decides_compositions|intros _ _].
  apply decides_bind; [destruct (is_object v); [|by intros]|intros _ _].
  { eapply decides_iff; [by apply decides_object|]. tauto. }
  apply decides_bind; [apply decides_match; intros; by apply decides_array|intros _ _].
  apply decides_bind; [rewrite of_result_match; apply decides_match; intros; apply decides_size|intros _ _].
  destruct (is_number v); [|by intros]. eapply decides_iff; [apply decides_number|]. tauto.
Qed.

Lemma compiled_well_formed `{!ObjectLaws} value schema :
  JsonSchema_compile value = Ok schema → schema_value schema = value ∧ well_formed (S MAX_SCHEMA_DEPTH) value.
Proof.
  intros Hc. unfold JsonSchema_compile in Hc. apply result_bind_Ok in Hc as (nodes & Hv & [= <-]). split; [done|].
  by eapply validated_well_formed.
Qed.

Lemma compiled_decides `{!ObjectLaws} value schema v m :
  JsonSchema_compile value = Ok schema → (S MAX_SCHEMA_DEPTH ≤ m)%nat →
  decides (JsonSchema_validate schema v) (conforms m value v).
Proof.
  intros Hc Hm. destruct (compiled_well_formed _ _ Hc) as [Heq Hwf]. unfold JsonSchema_validate. rewrite Heq.
  by apply instance_decided.
Qed.

(** C19. A compiled schema decides conformance: validation of any instance returns
    without a panic, [Ok] exactly on the instances that conform to the keywords of the
    schema, and the depth limit decides nothing (a specification that recurses deeper
    has the same instances). *)
Theorem compiled_schemas_decide_conformance `{!ObjectLaws} value schema v m :
  JsonSchema_compile value = Ok schema → (S MAX_SCHEMA_DEPTH ≤ m)%nat →
  ∃ r, JsonSchema_validate schema v = of_result r ∧ (r = Ok tt ↔ conforms m value v).
Proof.
  intros Hc Hm. pose proof (compiled_decides value schema v m Hc Hm) as Hd.
  destruct (JsonSchema_validate schema v) as [[]|e|]; simpl in Hd; [by exists (Ok tt)|exists (Err e)|done].
  split; [done|]. split; [done|]. intros Hv. by destruct Hd.
Qed.
End Conformance.
