(* ===== verification/McpClient.v ===== *)
(** * The MCP stdio client ([tuning_agent/src/adapters/mcp/client.rs], [error.rs])

    The newline-delimited frames, the JSON-RPC responses, the checks of the process
    configuration and of the [initialize] result, and the decoding of a tool result.
    The threads and channels of the client are in [McpRequests.v]; here [request] and
    [notify] are arguments of what is composed from them. *)

From S2P Require Export Schema Config Paths.

Open Scope Z_scope.

(** ** Errors *)

Inductive McpAdapterErrorKind :=
  | McpInvalidConfig | McpSpawn | McpIo | McpTimeout | McpProtocol | McpRpc | McpTool | McpManifest.
#[export] Instance McpAdapterErrorKind_eq_dec : EqDecision McpAdapterErrorKind.
Proof. solve_decision. Defined.

Record McpAdapterError := MkMcpError {
  mcp_kind : McpAdapterErrorKind;
  mcp_message : string;
  mcp_retryable : bool;
}.
#[export] Instance McpAdapterError_eq_dec : EqDecision McpAdapterError.
Proof. solve_decision. Defined.

Definition McpAdapterError_new (k : McpAdapterErrorKind) (message : string) : McpAdapterError :=
  MkMcpError k message false.
Definition mcp_with_retryable (e : McpAdapterError) (b : bool) : McpAdapterError :=
  MkMcpError (mcp_kind e) (mcp_message e) b.

Definition provider_error_kind_of (k : McpAdapterErrorKind) : ProviderErrorKind :=
  match k with
  | McpInvalidConfig | McpManifest => InvalidRequest
  | McpTimeout => Timeout
  | McpSpawn | McpIo => Unavailable
  | McpProtocol | McpRpc => Protocol
  | McpTool => Internal
  end.
(** [provider_error]; [Display] of the error is its message. *)
Definition mcp_provider_error (e : McpAdapterError) : ProviderError :=
  with_retryable (ProviderError_new (provider_error_kind_of (mcp_kind e)) (mcp_message e)) (mcp_retryable e).

Definition mcp_protocol (message : string) : McpAdapterError := McpAdapterError_new McpProtocol message.
Definition manifest_error (message : string) : McpAdapterError := McpAdapterError_new McpManifest message.
Definition mcp_config_error (message : string) : McpAdapterError := McpAdapterError_new McpInvalidConfig message.
Definition mcp_io_error (message : string) : McpAdapterError :=
  mcp_with_retryable (McpAdapterError_new McpIo message) true.

Definition MCP_PROTOCOL_VERSION : string := "2024-11-05".
Definition MAX_TRANSPORT_FRAME_BYTES : Z := 8 * 1024 * 1024.
Definition MAX_STDERR_TAIL_BYTES : Z := 16 * 1024.
Definition ENVELOPE_ALLOWANCE_BYTES : Z := 64 * 1024.
Definition MAX_REQUEST_TIMEOUT_MS : Z := 300000.

Definition bytes (s : string) : Z := Z.of_nat (String.length s).

(** ** Frames *)

Definition newline : ascii := "010"%char.
Definition return_ : ascii := "013"%char.
Definition has_byte (c : ascii) (s : string) : bool :=
  existsb (Ascii.eqb c) (String.list_ascii_of_string s).

(** What [write_frame] writes; the pipe can refuse it. *)
Definition write_frame (payload : string) : result string string :=
  if has_byte newline payload || has_byte return_ payload
  then Err "MCP newline-delimited JSON payload contains a raw line break"
  else Ok (payload +:+ String newline "").

(** A buffered reader: the bytes of its buffer, and what the reads to come return;
    an empty read, or no more of them, is the end of the stream. *)
Record BufRead := MkBufRead { buffer : string; incoming : list (result string string) }.

(** The bytes before the first newline and after it. *)
Fixpoint split_line (s : string) : option (string * string) :=
  match s with
  | EmptyString => None
  | String a s =>
    if Ascii.eqb a newline then Some ("", s)
    else match split_line s with Some (l, r) => Some (String a l, r) | None => None end
  end.

Section Frames.
Context (max_payload_bytes : Z).

Definition frame_too_long : McpAdapterError :=
  mcp_protocol ("MCP frame payload exceeds limit: more than " +:+ show max_payload_bytes +:+ " bytes").

Definition finish_frame (payload : string) : result McpAdapterError (option string) :=
  if bool_decide (payload = "") then Err (mcp_protocol "MCP frame payload must not be empty")
  else if has_byte return_ payload
  then Err (mcp_protocol "MCP newline-delimited JSON payload contains a raw carriage return")
  else Ok (Some payload).

Definition end_of_frames (payload : string) : result McpAdapterError (option string) :=
  if bool_decide (payload = "") then Ok None
  else Err (mcp_protocol "MCP stream ended before the frame newline").

(** One turn of the loop on a buffer with bytes in it: the result of the call and
    what stays in the buffer, or the payload read so far. *)
Definition read_available (payload available : string)
    : (result McpAdapterError (option string) * string) + string :=
  match split_line available with
  | Some (line, rest) =>
    if max_payload_bytes <? bytes payload + bytes line then inl (Err frame_too_long, available)
    else inl (finish_frame (payload +:+ line), rest)
  | None =>
    if max_payload_bytes <? bytes payload + bytes available then inl (Err frame_too_long, available)
    else inr (payload +:+ available)
  end.

Fixpoint read_incoming (payload : string) (incoming : list (result string string))
    : result McpAdapterError (option string) * BufRead :=
  match incoming with
  | [] => (end_of_frames payload, MkBufRead "" [])
  | Err error :: incoming =>
    (Err (mcp_io_error ("failed to read MCP newline-delimited frame: " +:+ error)), MkBufRead "" incoming)
  | Ok available :: incoming =>
    if bool_decide (available = "") then (end_of_frames payload, MkBufRead "" incoming)
    else match read_available payload available with
         | inl (r, rest) => (r, MkBufRead rest incoming)
         | inr payload => read_incoming payload incoming
         end
  end.

Definition read_frame (r : BufRead) : result McpAdapterError (option string) * BufRead :=
  if bool_decide (buffer r = "") then read_incoming "" (incoming r)
  else match read_available "" (buffer r) with
       | inl (result, rest) => (result, MkBufRead rest (incoming r))
       | inr payload => read_incoming payload (incoming r)
       end.
End Frames.

(** The last bytes of the server's standard error. *)
Definition retain_tail (tail chunk : string) : string :=
  let retained := tail +:+ chunk in
  let excess := (String.length retained - Z.to_nat MAX_STDERR_TAIL_BYTES)%nat in
  String.substring excess (String.length retained - excess)%nat retained.

Section Client.
Context `{JD : JsonData, !JsonNumbers, !Serialize Value}.
(** [serde_json::from_slice] and [from_str] at [Value]. *)
Context (value_from_slice : string → result string Value).

(** ** Responses *)

Definition get_string (k : string) (v : Value) : option string := value_get k v ≫= as_string.

Definition parse_error (error : Value) : result McpAdapterError McpAdapterError :=
  _ ← reject (negb (is_object error)) (mcp_protocol "MCP JSON-RPC error member must be an object");
  code ← ok_or (mcp_protocol "MCP JSON-RPC error object is missing an integer code")
           (value_get "code" error ≫= as_i64);
  message ← ok_or (mcp_protocol "MCP JSON-RPC error object is missing a string message")
              (get_string "message" error);
  mret (McpAdapterError_new McpRpc ("MCP JSON-RPC error " +:+ show code +:+ ": " +:+ message)).

Definition PendingResponse : Type := result McpAdapterError Value.

Definition parse_response (payload : string) : result McpAdapterError (option (Z * PendingResponse)) :=
  value ← map_err (λ error, mcp_protocol ("MCP frame is not valid JSON: " +:+ error)) (value_from_slice payload);
  _ ← reject (negb (is_object value)) (mcp_protocol "MCP JSON-RPC message must be an object");
  _ ← reject (bool_decide (get_string "jsonrpc" value ≠ Some "2.0"))
        (mcp_protocol "MCP message does not declare jsonrpc=2.0");
  match value_get "id" value with
  | None => Ok None
  | Some id_value =>
    id ← ok_or (mcp_protocol "MCP response id must echo the numeric client request id") (as_u64 id_value);
    match value_get "result" value, value_get "error" value with
    | Some result, None => Ok (Some (id, Ok result))
    | None, Some error => e ← parse_error error; Ok (Some (id, Err e))
    | _, _ => Err (mcp_protocol "MCP response must contain exactly one of result or error")
    end
  end.

(** ** Connecting *)

Definition has_equals (s : string) : bool := has_byte "=" s.

Definition validate_process_config (c : McpServerConfig) : result McpAdapterError unit :=
  let about := "MCP server '" +:+ server_id c +:+ "'" in
  _ ← reject (negb (server_enabled c)) (mcp_config_error (about +:+ " is disabled"));
  _ ← reject (is_blank (server_id c) || has_surrounding_whitespace (server_id c))
        (mcp_config_error "MCP server id must be non-empty and have no surrounding whitespace");
  _ ← reject (is_blank (command c)) (mcp_config_error (about +:+ " has no command"));
  _ ← reject (negb (is_absolute (command c)))
        (mcp_config_error (about +:+ " command must be an absolute path; PATH lookup is forbidden"));
  _ ← reject ((request_timeout_ms c =? 0) || (MAX_REQUEST_TIMEOUT_MS <? request_timeout_ms c))
        (mcp_config_error (about +:+ " request timeout must be within 1..=" +:+ show MAX_REQUEST_TIMEOUT_MS +:+ " ms"));
  fold_result (λ _ entry,
    reject (bool_decide (entry.1 = "") || has_equals entry.1 || existsb is_control (chars entry.1))
      (mcp_config_error (about +:+ " has invalid environment key '" +:+ entry.1 +:+ "'"))) tt
    (in_key_order (env c)).

Definition advertises (k : string) (capabilities : Value) : bool :=
  match value_get k capabilities with Some v => is_object v | None => false end.

Definition validate_initialize_result (v : Value) : result McpAdapterError unit :=
  _ ← reject (negb (is_object v)) (mcp_protocol "MCP initialize result must be an object");
  version ← ok_or (mcp_protocol "MCP initialize result is missing protocolVersion")
    (version ← get_string "protocolVersion" v; if bool_decide (version = "") then None else Some version);
  _ ← reject (bool_decide (version ≠ MCP_PROTOCOL_VERSION))
        (mcp_protocol ("MCP server selected unsupported protocol version '" +:+ version
          +:+ "', expected '" +:+ MCP_PROTOCOL_VERSION +:+ "'"));
  capabilities ← ok_or (mcp_protocol "MCP initialize result is missing capabilities")
    (capabilities ← value_get "capabilities" v; if is_object capabilities then Some capabilities else None);
  reject (negb (advertises "tools" capabilities) || negb (advertises "resources" capabilities))
    (mcp_protocol "MCP server must advertise tools and resources capabilities").

Section Calls.
Context {W : Type}.
(** [self.request(method, params, timeout)], the timeout in milliseconds, and
    [self.notify(method, params)]. *)
Context (request : string → Value → Z → M W McpAdapterError Value)
  (notify : string → Value → M W McpAdapterError unit).
(** [env!("CARGO_PKG_VERSION")], and [from_value] at the envelope of a tool result. *)
Context (package_version : string).

Definition initialize (c : McpServerConfig) : M W McpAdapterError unit :=
  v ← request "initialize" (json_object [
        ("protocolVersion", json_string MCP_PROTOCOL_VERSION);
        ("capabilities", json_object []);
        ("clientInfo", json_object [("name", json_string "tuning-agent"); ("version", json_string package_version)])])
      (request_timeout_ms c);
  _ ← lift (validate_initialize_result v);
  notify "notifications/initialized" (json_object []).

(** ** Tool results *)

Inductive ToolContent := ToolText (text : string) | ToolUnsupported.
Record ToolCallEnvelope := MkEnvelope {
  content : list ToolContent;
  structured_content : option Value;
  is_error : bool;
}.
Context (decode_envelope : Value → result string ToolCallEnvelope).

Definition tool_text (c : ToolContent) : option string :=
  match c with ToolText text => Some text | ToolUnsupported => None end.

(** The value of an envelope that is not an error. *)
Definition envelope_value (tool : string) (e : ToolCallEnvelope) : result McpAdapterError Value :=
  match structured_content e, content e with
  | Some value, _ => Ok value
  | None, [ToolText text] =>
    _ ← reject (bool_decide (text = ""))
          (mcp_protocol ("MCP tool '" +:+ tool +:+ "' returned an empty JSON text block"));
    map_err (λ error, mcp_protocol ("MCP tool '" +:+ tool +:+ "' text content is not JSON: " +:+ error))
      (value_from_slice text)
  | None, [ToolUnsupported] =>
    Err (mcp_protocol ("MCP tool '" +:+ tool +:+ "' returned unsupported content instead of structured JSON"))
  | None, _ =>
    Err (mcp_protocol ("MCP tool '" +:+ tool
      +:+ "' must return exactly one text block when structuredContent is absent"))
  end.

Definition decode_tool_result (tool : string) (raw : Value) (max_output_bytes : Z) : result McpAdapterError Value :=
  let about := "MCP tool '" +:+ tool +:+ "'" in
  _ ← reject (max_output_bytes =? 0) (mcp_config_error (about +:+ " has a zero output limit"));
  encoded ← map_err (λ error, mcp_protocol ("failed to size " +:+ about +:+ " result: " +:+ error)) (to_vec raw);
  _ ← reject (u64_saturating_add max_output_bytes ENVELOPE_ALLOWANCE_BYTES <? bytes encoded)
        (mcp_protocol (about +:+ " response exceeded its output limit: " +:+ show (bytes encoded) +:+ " bytes"));
  envelope ← map_err (λ error, mcp_protocol ("invalid MCP tools/call result for '" +:+ tool +:+ "': " +:+ error))
               (decode_envelope raw);
  _ ← (if is_error envelope then
         let message := join_str "; " (omap tool_text (content envelope)) in
         Err (McpAdapterError_new McpTool
           (if bool_decide (message = "") then about +:+ " reported an error"
            else about +:+ " reported an error: " +:+ message))
       else Ok tt);
  value ← envelope_value tool envelope;
  output ← map_err (λ error, mcp_protocol ("failed to encode " +:+ about +:+ " structured output: " +:+ error))
             (to_vec value);
  _ ← reject (max_output_bytes <? bytes output)
        (mcp_protocol (about +:+ " structured output exceeded its limit: " +:+ show (bytes output) +:+ " > "
          +:+ show max_output_bytes +:+ " bytes"));
  mret value.

Definition client_call_tool (c : McpServerConfig) (name : string) (arguments : Value) (timeout max_output_bytes : Z)
    : M W McpAdapterError Value :=
  _ ← lift (reject (negb (is_object arguments))
        (mcp_protocol ("MCP tool '" +:+ name +:+ "' arguments must serialize to an object")));
  v ← request "tools/call" (json_object [("name", json_string name); ("arguments", arguments)])
        (Z.min timeout (request_timeout_ms c));
  lift (decode_tool_result name v max_output_bytes).
End Calls.
End Client.
