(* ===== verification/McpRequests.v ===== *)
(** * The threads of the MCP client ([tuning_agent/src/adapters/mcp/client.rs])

    Any number of calls of [request] share one connection with the thread that reads
    the responses.  They meet in the map of pending responses (under its lock), in the
    [closed] flag and in a channel per request; [client_step] interleaves them, one
    access to the shared state per step.

    The second part shows that a value reaches only the request whose id it answers and
    that nobody waits forever; the third, that frames survive any chunking. *)

From S2P Require Export McpClient.

Open Scope Z_scope.

Section Requests.
Context `{JD : JsonData, !JsonNumbers, !Serialize Value}.
Context (value_from_slice : string → result string Value).

(** ** The reader thread *)

Inductive ReaderEvent :=
  | Deliver (id : Z) (r : PendingResponse)
  | Ignored
  | Failed (e : McpAdapterError).

(** What [read_responses] does on a stream: every turn but the last reads a frame of at
    least a byte and its newline, so [fuel] is the number of bytes of the stream, and
    one. *)
Fixpoint read_responses (fuel : nat) (r : BufRead) : list ReaderEvent :=
  match fuel with
  | O => []
  | S fuel =>
    match read_frame MAX_TRANSPORT_FRAME_BYTES r with
    | (Ok (Some payload), r) =>
      match parse_response value_from_slice payload with
      | Ok (Some (id, response)) => Deliver id response :: read_responses fuel r
      | Ok None => Ignored :: read_responses fuel r
      | Err e => [Failed e]
      end
    | (Ok None, _) => [Failed (mcp_io_error "MCP server closed stdout")]
    | (Err e, _) => [Failed e]
    end
  end.

(** The reader: events to come; [closed] is set and the map not yet drained; the senders
    drained and not yet told; returned. *)
Inductive ReaderState :=
  | Reading (events : list ReaderEvent)
  | Closing (e : McpAdapterError)
  | Failing (senders : list nat) (e : McpAdapterError)
  | Stopped.

(** ** The requests *)

(** Where a call of [request] is: it has its number; its sender is in the map; it saw
    [closed] unset again; its frame is written and it waits on its channel; it takes its
    sender out of the map, to return [r]; it returned. *)
Inductive Stage :=
  | Numbered | Registered | Rechecked | Dispatched
  | Withdrawing (r : PendingResponse)
  | Done (r : PendingResponse).

(** [pending] maps a request id to the call whose channel it is, [mailbox] holds what was
    sent on the channel of a call.  [ids] and [delivered] are history: the id of each
    call, the responses the reader handed over. *)
Record Client := MkClient {
  closed : bool;
  next_id : Z;
  pending : gmap Z nat;
  mailbox : gmap nat PendingResponse;
  stages : gmap nat Stage;
  reader : ReaderState;
  ids : gmap nat Z;
  delivered : list (Z * PendingResponse);
}.

Definition client_new (events : list ReaderEvent) : Client :=
  MkClient false 1 ∅ ∅ ∅ (Reading events) ∅ [].

Definition set_stage (k : nat) (stage : Stage) (s : Client) : Client :=
  MkClient (closed s) (next_id s) (pending s) (mailbox s) (<[k := stage]> (stages s)) (reader s)
    (ids s) (delivered s).
Definition set_pending (p : gmap Z nat) (s : Client) : Client :=
  MkClient (closed s) (next_id s) p (mailbox s) (stages s) (reader s) (ids s) (delivered s).
Definition set_closed (s : Client) : Client :=
  MkClient true (next_id s) (pending s) (mailbox s) (stages s) (reader s) (ids s) (delivered s).
Definition set_reader (r : ReaderState) (s : Client) : Client :=
  MkClient (closed s) (next_id s) (pending s) (mailbox s) (stages s) r (ids s) (delivered s).
(** [sender.send(r)]; a channel is sent to at most once. *)
Definition send (k : nat) (r : PendingResponse) (s : Client) : Client :=
  MkClient (closed s) (next_id s) (pending s) (<[k := r]> (mailbox s)) (stages s) (reader s)
    (ids s) (delivered s).
Definition record_delivery (id : Z) (r : PendingResponse) (s : Client) : Client :=
  MkClient (closed s) (next_id s) (pending s) (mailbox s) (stages s) (reader s) (ids s)
    ((id, r) :: delivered s).

(** [next_id.fetch_add(1)] wraps. *)
Definition take_id (k : nat) (s : Client) : Client :=
  MkClient (closed s) (u64_wrap (next_id s + 1)) (pending s) (mailbox s) (<[k := Numbered]> (stages s))
    (reader s) (<[k := next_id s]> (ids s)) (delivered s).

(** The text of the server's standard error that [unavailable] appends. *)
Definition unavailable (message tail : string) : McpAdapterError := mcp_io_error (message +:+ tail).
Definition timed_out (method : string) (timeout : Z) : McpAdapterError :=
  mcp_with_retryable (McpAdapterError_new McpTimeout
    ("MCP request '" +:+ method +:+ "' timed out after " +:+ show timeout +:+ " ms")) true.

(** The payload of a request, [json!] and [serde_json::to_vec]. *)
Definition request_payload (id : Z) (method : string) (params : Value) : result McpAdapterError string :=
  payload ← map_err (λ error, mcp_protocol ("failed to encode MCP request '" +:+ method +:+ "': " +:+ error))
    (to_vec (json_object [("jsonrpc", json_string "2.0"); ("id", json_integer id);
       ("method", json_string method); ("params", params)]));
  _ ← reject (MAX_TRANSPORT_FRAME_BYTES <? bytes payload)
        (mcp_protocol ("MCP request '" +:+ method +:+ "' exceeds the transport frame limit"));
  mret payload.

(** Call [k] is [request(method, params, timeout)]. *)
Context (call : nat → string * Value * Z).
Definition method_of (k : nat) : string := (call k).1.1.
Definition params_of (k : nat) : Value := (call k).1.2.
Definition timeout_of (k : nat) : Z := (call k).2.

(** The refusals before a request has a number. *)
Definition refused (s : Client) (k : nat) (tail : string) : option McpAdapterError :=
  if closed s then Some (unavailable "MCP connection is closed" tail)
  else if timeout_of k =? 0 then Some (mcp_config_error "MCP request timeout must be greater than zero")
  else None.

Inductive client_step : Client → Client → Prop :=
  (** [request] *)
  | step_refuse s k tail e :
      stages s !! k = None → refused s k tail = Some e → client_step s (set_stage k (Done (Err e)) s)
  | step_number s k tail :
      stages s !! k = None → refused s k tail = None → client_step s (take_id k s)
  | step_unencodable s k id e :
      stages s !! k = Some Numbered → ids s !! k = Some id →
      request_payload id (method_of k) (params_of k) = Err e →
      client_step s (set_stage k (Done (Err e)) s)
  | step_register s k id payload :
      stages s !! k = Some Numbered → ids s !! k = Some id →
      request_payload id (method_of k) (params_of k) = Ok payload →
      client_step s (set_stage k Registered (set_pending (<[id := k]> (pending s)) s))
  | step_recheck s k tail :
      stages s !! k = Some Registered →
      client_step s (set_stage k (if closed s
        then Withdrawing (Err (unavailable "MCP connection closed before request dispatch" tail))
        else Rechecked) s)
  | step_write s k : stages s !! k = Some Rechecked → client_step s (set_stage k Dispatched s)
  | step_write_fails s k error tail :
      stages s !! k = Some Rechecked →
      client_step s (set_stage k (Withdrawing (Err (unavailable
        ("failed to write MCP request '" +:+ method_of k +:+ "': " +:+ error) tail))) (set_closed s))
  | step_receive s k r :
      stages s !! k = Some Dispatched → mailbox s !! k = Some r → client_step s (set_stage k (Done r) s)
  | step_timeout s k :
      stages s !! k = Some Dispatched → mailbox s !! k = None →
      client_step s (set_stage k (Withdrawing (Err (timed_out (method_of k) (timeout_of k)))) s)
  | step_withdraw s k id r :
      stages s !! k = Some (Withdrawing r) → ids s !! k = Some id →
      client_step s (set_stage k (Done r) (set_pending (delete id (pending s)) s))
  (** [read_responses] *)
  | step_deliver s id r events k :
      reader s = Reading (Deliver id r :: events) → pending s !! id = Some k →
      client_step s (record_delivery id r (send k r (set_pending (delete id (pending s))
        (set_reader (Reading events) s))))
  | step_unclaimed s id r events :
      reader s = Reading (Deliver id r :: events) → pending s !! id = None →
      client_step s (set_reader (Reading events) s)
  | step_ignore s events :
      reader s = Reading (Ignored :: events) → client_step s (set_reader (Reading events) s)
  | step_close s e events :
      reader s = Reading (Failed e :: events) → client_step s (set_reader (Closing e) (set_closed s))
  (** [fail_all_pending] *)
  | step_drain s e :
      reader s = Closing e →
      client_step s (set_reader (Failing ((map_to_list (pending s)).*2) e) (set_pending ∅ s))
  | step_fail s k senders e :
      reader s = Failing (k :: senders) e →
      client_step s (send k (Err e) (set_reader (Failing senders e) s))
  | step_stop s e : reader s = Failing [] e → client_step s (set_reader Stopped s).

Definition client_reaches : Client → Client → Prop := rtc client_step.
End Requests.

(** * What the MCP client promises its callers

    The interleavings of [McpRequests.v]: an invariant of the shared state, from which a
    reply reaches the request it answers and no request waits for a reader that is gone.
    And the frames: what was written is read back, however the stream is cut. *)

Open Scope Z_scope.

(** ** The shared state *)

Section Shared.
Context `{JD : JsonData, !JsonNumbers, !Serialize Value}.
Context (call : nat → string * Value * Z).
Implicit Types (s : Client) (k : nat).

Definition stage s k : option Stage := stages s !! k.
(** Before the numbers wrap. *)
Definition few s : Prop := Z.of_nat (size (ids s)) < u64_max.

Definition failing s k : Prop := ∃ senders e, reader s = Failing senders e ∧ k ∈ senders.
(** A result was or is being sent on the channel of the call. *)
Definition answered s k : Prop := is_Some (mailbox s !! k) ∨ failing s k.
(** The senders were drained. *)
Definition drained s : Prop := reader s = Stopped ∨ ∃ senders e, reader s = Failing senders e.

Definition waiting (st : Stage) : bool :=
  match st with Registered | Rechecked | Dispatched | Withdrawing _ => true | _ => false end.
Definition listening (st : Stage) : bool :=
  match st with Registered | Rechecked | Dispatched => true | _ => false end.
(** The stages that look at [closed] again, or return without waiting. *)
Definition leaving (st : Stage) : bool :=
  match st with Registered | Withdrawing _ => true | _ => false end.
Definition at_ (f : Stage → bool) s k : Prop := ∃ st, stages s !! k = Some st ∧ f st = true.

Record shared s : Prop := {
  sh_numbered k st : stages s !! k = Some st → (∀ e, st ≠ Done (Err e)) → is_Some (ids s !! k);
  sh_started k : is_Some (ids s !! k) → is_Some (stages s !! k);
  sh_answered k : answered s k → is_Some (stages s !! k) ∧ stages s !! k ≠ Some Numbered;
  sh_pending id k : pending s !! id = Some k → ids s !! k = Some id ∧ ¬ answered s k ∧ at_ waiting s k;
  sh_closed : (∀ events, reader s ≠ Reading events) → closed s = true;
  sh_drained id k : drained s → pending s !! id = Some k → at_ leaving s k;
  sh_withdrawing k r : stages s !! k = Some (Withdrawing r) → ∃ e, r = Err e;
  sh_mailbox k v : mailbox s !! k = Some (Ok v) → ∃ id, ids s !! k = Some id ∧ (id, Ok v) ∈ delivered s;
  sh_done k v : stages s !! k = Some (Done (Ok v)) → ∃ id, ids s !! k = Some id ∧ (id, Ok v) ∈ delivered s;
}.

(** The ids of distinct calls differ, and a call that listens was not forgotten. *)
Record distinct s : Prop := {
  di_next : next_id s = 1 + Z.of_nat (size (ids s));
  di_range k id : ids s !! k = Some id → 0 < id < next_id s;
  di_inj k k' id : ids s !! k = Some id → ids s !! k' = Some id → k = k';
  di_heard k id : at_ listening s k → ids s !! k = Some id → pending s !! id = Some k ∨ answered s k;
}.

Ltac client_step_cases :=
  match goal with Hs : client_step _ _ _ |- _ => inversion Hs; subst; clear Hs end;
  unfold set_stage, set_pending, set_closed, set_reader, send, record_delivery, take_id in *; simpl in *.

Ltac map_cases :=
  repeat match goal with
  | H : <[?i := _]> _ !! ?j = _ |- _ => rewrite lookup_insert in H; case_decide; simplify_eq/=
  | H : is_Some (<[?i := _]> _ !! ?j) |- _ => rewrite lookup_insert in H; case_decide; simplify_eq/=
  | H : delete ?i _ !! ?j = Some _ |- _ => apply lookup_delete_Some in H as [? H]
  | H : ∅ !! _ = Some _ |- _ => by rewrite lookup_empty in H
  | |- context [<[?i := _]> _ !! ?j] => rewrite lookup_insert; case_decide; simplify_eq/=
  end.

Lemma shared_new events : shared (client_new events).
Proof.
  split; unfold answered, failing, drained, at_; simpl; intros; rewrite ?lookup_empty in *; try done; naive_solver.
Qed.

Section Step.
Context s s' (Hstep : client_step call s s') (Hs : shared s).

Lemma step_numbered_ids k st :
  stages s' !! k = Some st → (∀ e, st ≠ Done (Err e)) → is_Some (ids s' !! k).
Proof.
  destruct Hs as [Hn Hst Ha Hp Hc Hd Hw Hm Hdone]. client_step_cases; intros; map_cases; eauto 3; try (exfalso; by eauto 3).
  all: match goal with Hne : ∀ e, _ ≠ Done (Err e) |- _ => by edestruct Hne end.
Qed.

Lemma step_started k : is_Some (ids s' !! k) → is_Some (stages s' !! k).
Proof.
  destruct Hs as [Hn Hst Ha Hp Hc Hd Hw Hm Hdone]. client_step_cases; intros; map_cases; eauto 3; try (exfalso; by eauto 3).
Qed.

Lemma step_closed : (∀ events, reader s' ≠ Reading events) → closed s' = true.
Proof.
  destruct Hs as [Hn Hst Ha Hp Hc Hd Hw Hm Hdone]. client_step_cases; intros; map_cases; eauto 3; try (exfalso; by eauto 3).
  all: by apply Hc; intros; congruence.
Qed.

Lemma step_withdrawing k r : stages s' !! k = Some (Withdrawing r) → ∃ e, r = Err e.
Proof.
  destruct Hs as [Hn Hst Ha Hp Hc Hd Hw Hm Hdone]. client_step_cases; intros; map_cases; eauto 3; try (exfalso; by eauto 3).
  destruct (closed s); simplify_eq; eauto.
Qed.

Lemma step_mailbox k v : mailbox s' !! k = Some (Ok v) → ∃ id, ids s' !! k = Some id ∧ (id, Ok v) ∈ delivered s'.
Proof.
  destruct Hs as [Hn Hst Ha Hp Hc Hd Hw Hm Hdone]. client_step_cases; intros; map_cases; eauto 3; try (exfalso; by eauto 3).
  - destruct (Hm _ _ ltac:(eassumption)) as (id & Hid & _). exfalso.
    destruct (Hst k ltac:(eauto)) as [? ?]. congruence.
  - exists id. split; [|by left]. by apply Hp.
  - destruct (Hm _ _ ltac:(eassumption)) as (id' & Hid & Hin). exists id'. split; [done|by right].
Qed.

Lemma step_done k v : stages s' !! k = Some (Done (Ok v)) → ∃ id, ids s' !! k = Some id ∧ (id, Ok v) ∈ delivered s'.
Proof.
  destruct Hs as [Hn Hst Ha Hp Hc Hd Hw Hm Hdone]. client_step_cases; intros; map_cases; eauto 3; try (exfalso; by eauto 3).
  - by destruct (closed s).
  - destruct (Hw _ _ ltac:(eassumption)) as [e ?]. congruence.
  - destruct (Hdone _ _ ltac:(eassumption)) as (id' & Hid & Hin). exists id'. split; [done|by right].
Qed.

Lemma waiting_stage k : at_ waiting s k → is_Some (stages s !! k) ∧ stages s !! k ≠ Some Numbered.
Proof. intros (st & Hk & Hw). rewrite Hk. split; [eauto|]. by intros [= ->]. Qed.

Lemma drained_senders k : k ∈ (map_to_list (pending s)).*2 → ∃ id, pending s !! id = Some k.
Proof.
  intros Hk. apply list_elem_of_fmap in Hk as ([id k'] & -> & Hk). apply elem_of_map_to_list in Hk. eauto.
Qed.

(** A step answers a call that was answered, or whose sender was in the map. *)
Lemma answered_before k : answered s' k → answered s k ∨ ∃ id, pending s !! id = Some k.
Proof.
  client_step_cases; intros [Hbox|(senders' & e' & Hr & Hin)]; simpl in *; map_cases; simplify_eq; eauto.
  all: try (left; by left); try (left; right; by exists senders', e'); try (right; by eauto).
  - right. by apply drained_senders.
  - left. right. eexists _, _. split; [eassumption|by left].
  - left. right. eexists _, _. split; [eassumption|by right].
Qed.

Lemma step_answered k : answered s' k → is_Some (stages s' !! k) ∧ stages s' !! k ≠ Some Numbered.
Proof.
  intros Hk. apply answered_before in Hk as Hk'.
  assert (is_Some (stages s !! k) ∧ stages s !! k ≠ Some Numbered) as [[st Hst] Hne].
  { destruct Hk' as [Hk'|[id Hid]]; [by apply Hs|]. apply waiting_stage. by eapply Hs. }
  client_step_cases; map_cases; (split; [eauto|]); try congruence. by destruct (closed s).
Qed.

(** A call whose sender stays in the map keeps its id, its empty channel and a
    stage at which it waits. *)
Lemma pending_kept id k st :
  ids s !! k = Some id → ¬ answered s k → stages s !! k = Some st → waiting st = true →
  pending s' !! id = Some k → ids s' !! k = Some id ∧ ¬ answered s' k ∧ at_ waiting s' k.
Proof.
  intros Hid Hna Hk Hw Hp. pose proof (sh_pending s Hs) as Hids.
  split_and!.
  - client_step_cases; map_cases; try done; congruence.
  - intros Han. destruct (answered_before _ Han) as [Ha|_]; [done|]. revert Han Hp.
    client_step_cases; intros [Hbox|(senders' & e' & Hr & Hin)] Hp; simpl in *; map_cases; simplify_eq.
    all: try (apply Hna; left; done); try (apply Hna; right; by exists senders', e').
    + apply Hids in H1 as [H1 _]. congruence.
    + apply Hna. right. eexists _, _. split; [eassumption|by left].
    + apply Hna. right. eexists _, _. split; [eassumption|by right].
  - unfold at_. client_step_cases; map_cases; eauto; try congruence.
    + by destruct (closed s); eauto.
    + destruct Hna. left. eauto.
Qed.

(** A sender comes into the map when its call registers. *)
Lemma pending_before id k : pending s' !! id = Some k →
  pending s !! id = Some k
  ∨ ids s' !! k = Some id ∧ stages s !! k = Some Numbered ∧ stages s' !! k = Some Registered
    ∧ mailbox s' = mailbox s ∧ reader s' = reader s.
Proof. intros Hk. client_step_cases; map_cases; eauto 10. Qed.

Lemma step_pending id k : pending s' !! id = Some k → ids s' !! k = Some id ∧ ¬ answered s' k ∧ at_ waiting s' k.
Proof.
  intros Hk. destruct (pending_before _ _ Hk) as [Hp|(Hid & Hnum & Hreg & Hbox & Hr)].
  - destruct (sh_pending s Hs _ _ Hp) as (Hid & Hna & st & Hst & Hw). by eapply pending_kept.
  - split_and!; [done| |by exists Registered]. unfold answered, failing. rewrite Hbox, Hr. intros Ha.
    by apply (sh_answered s Hs) in Ha as [_ []].
Qed.

Lemma step_drained id k : drained s' → pending s' !! id = Some k → at_ leaving s' k.
Proof.
  intros Hdr Hk. destruct (pending_before _ _ Hk) as [Hp|(_ & _ & Hreg & _)]; [|by exists Registered].
  destruct (sh_pending s Hs _ _ Hp) as (Hid & Hna & st & Hst & Hw).
  pose proof (sh_drained s Hs id k) as Hd. pose proof (sh_closed s Hs) as Hc. unfold at_ in *.
  client_step_cases; map_cases; eauto.
  - rewrite Hc; [eauto|]. intros events He. destruct Hdr as [Hr|(? & ? & Hr)]; simpl in Hr; congruence.
  - destruct (Hd Hdr) as (? & ? & ?); [eassumption|]. by simplify_eq.
  - destruct Hna. left. eauto.
  - by destruct Hdr as [Hr|(? & ? & Hr)].
  - by destruct Hdr as [Hr|(? & ? & Hr)].
  - by destruct Hdr as [Hr|(? & ? & Hr)].
  - by destruct Hdr as [Hr|(? & ? & Hr)].
  - apply Hd; [right; eauto|eassumption].
  - apply Hd; [right; eauto|eassumption].
Qed.

Lemma shared_step : shared s'.
Proof.
  split; eauto using step_numbered_ids, step_started, step_answered, step_pending, step_closed,
    step_drained, step_withdrawing, step_mailbox, step_done.
Qed.

Lemma few_before : few s' → few s.
Proof.
  unfold few. intros Hf. client_step_cases; try done.
  destruct (decide (ids s !! k = None)) as [Hk|Hk]; [rewrite map_size_insert_None in Hf by done; lia|].
  destruct (ids s !! k) as [id|] eqn:Hi; [|done]. rewrite map_size_insert_Some in Hf by eauto. done.
Qed.

Lemma answered_after k : answered s k → answered s' k.
Proof.
  intros [Hbox|(senders & e & Hr & Hin)]; client_step_cases; unfold answered, failing; simpl; map_cases;
    simplify_eq; eauto 10;
    try congruence.
  - assert (k ∈ k0 :: senders0) as Hk by congruence. apply elem_of_cons in Hk as [->|Hk]; [done|eauto].
  - assert (k ∈ []) as Hk by congruence. by apply not_elem_of_nil in Hk.
Qed.

(** A call comes to listen when it registers. *)
Lemma listening_before id k : at_ listening s' k → ids s' !! k = Some id →
  pending s' !! id = Some k ∨ at_ listening s k ∧ ids s !! k = Some id.
Proof.
  intros (st & Hk & Hl) Hid. unfold at_.
  client_step_cases; map_cases; eauto.
Qed.

Lemma pending_after (Hd : distinct s) id k : pending s !! id = Some k → at_ listening s' k →
  pending s' !! id = Some k ∨ answered s' k.
Proof.
  intros Hp (st & Hk & Hl). pose proof (sh_pending s Hs _ _ Hp) as (Hid & Hna & st' & Hst & Hw).
  pose proof (di_inj s Hd) as Hinj.
  client_step_cases; map_cases; eauto.
  - left. rewrite lookup_delete_ne; [done|]. intros ->. by pose proof (Hinj k0 k id ltac:(done) ltac:(done)).
  - destruct (decide (k0 = k)) as [->|Hne]; [right; left; simpl; rewrite lookup_insert_eq; eauto|].
    left. rewrite lookup_delete_ne; [done|]. intros ->. congruence.
  - right. right. eexists _, _. split; [done|]. apply list_elem_of_fmap. exists (id, k).
    by rewrite elem_of_map_to_list.
Qed.

Lemma next_after (Hd : distinct s) : few s' → next_id s' = 1 + Z.of_nat (size (ids s')) ∧ (ids s' = ids s ∨ next_id s < next_id s').
Proof.
  intros Hf. pose proof (di_next s Hd) as Hnext. unfold few in *. client_step_cases; try (split; [done|by left]).
  rewrite map_size_insert_None in * by (apply eq_None_not_Some; intros Hi; apply (sh_started s Hs) in Hi as [? ?]; congruence).
  unfold u64_wrap, u64_max in *. rewrite Z.mod_small; lia.
Qed.

Lemma distinct_step : few s' → distinct s → distinct s'.
Proof.
  intros Hf Hd. pose proof (few_before Hf) as Hf0. split.
  - by apply next_after.
  - pose proof (di_range s Hd) as Hr. pose proof (di_next s Hd) as Hnext.
    destruct (next_after Hd Hf) as [_ [Heq|Hlt]]; intros k id.
    + pose proof (Hf : few s'). rewrite Heq. intros Hk. apply Hr in Hk as Hk'.
      destruct (next_after Hd Hf) as [-> _]. rewrite Heq. lia.
    + client_step_cases; intros Hk; map_cases; try lia; try (apply Hr in Hk; lia).
  - pose proof (di_range s Hd) as Hr. pose proof (di_inj s Hd) as Hinj. intros k k' id.
    client_step_cases; intros Hk Hk'; map_cases; eauto.
    all: match goal with Hk : ids s !! _ = Some _ |- _ => apply Hr in Hk; lia end.
  - intros k id Hl Hid. destruct (listening_before _ _ Hl Hid) as [?|[Hl0 Hid0]]; [by left|].
    destruct (di_heard s Hd k id Hl0 Hid0) as [Hp|Ha]; [by eapply pending_after|]. right. by apply answered_after.
Qed.
End Step.

(** The states the threads reach from a new client. *)
Definition reached (events : list ReaderEvent) s : Prop := client_reaches call (client_new events) s.

Lemma reached_shared events s : reached events s → shared s ∧ (few s → distinct s).
Proof.
  intros Hr. revert s Hr. apply rtc_ind_r; [|intros s s' _ Hstep [IHs IHd]].
  - split; [apply shared_new|]. intros _. split; unfold at_; simpl; intros; rewrite ?lookup_empty in *;
      try done; by destruct_and?; naive_solver.
  - pose proof (shared_step s s' Hstep IHs) as Hs'. split; [done|]. intros Hf.
    apply (distinct_step s s' Hstep IHs Hf). apply IHd. by eapply few_before.
Qed.

(** C20. While fewer than 2^64 - 1 requests were made: a value a call of [request] returns
    is one the reader handed over for the id of that call, which no other call has; and
    when the reader is gone no call waits in vain, since one that waits for its reply
    has a result on its channel. *)
Theorem replies_reach_their_requests events s k :
  reached events s → few s →
  (∀ v, stages s !! k = Some (Done (Ok v)) →
     ∃ id, ids s !! k = Some id ∧ (id, Ok v) ∈ delivered s ∧ ∀ k', ids s !! k' = Some id → k' = k) ∧
  (reader s = Stopped → stages s !! k = Some Dispatched → is_Some (mailbox s !! k)).
Proof.
  intros Hr Hf. destruct (reached_shared _ _ Hr) as [Hs Hd]. specialize (Hd Hf). split.
  - intros v Hk. destruct (sh_done s Hs k v Hk) as (id & Hid & Hin). exists id. split_and!; [done|done|].
    intros k' Hk'. by eapply (di_inj s Hd).
  - intros Hstop Hk. destruct (sh_numbered s Hs k _ Hk ltac:(done)) as [id Hid].
    destruct (di_heard s Hd k id) as [Hp|[Ha|(? & ? & He & _)]]; [by exists Dispatched|done| |done|congruence].
    destruct (sh_drained s Hs id k (or_introl Hstop) Hp) as (st & Hst & Hl). rewrite Hk in Hst. by simplify_eq.
Qed.
End Shared.

(** * The frames of the MCP client are read as they were written

    [read_frame] on any stream of buffers, of any sizes, that together hold written
    frames. *)

Open Scope Z_scope.

Definition join_chunks (l : list string) : string := foldr (λ s t, s +:+ t) "" l.

Lemma join_chunks_app l1 l2 : join_chunks (l1 ++ l2) = join_chunks l1 +:+ join_chunks l2.
Proof. induction l1 as [|s l1 IH]; simpl; [done|]. by rewrite IH, string_app_assoc. Qed.

(** ** Lines *)

Lemma has_byte_cons c a s : has_byte c (String a s) = Ascii.eqb c a || has_byte c s.
Proof. done. Qed.

Lemma has_byte_app c s t : has_byte c (s +:+ t) = has_byte c s || has_byte c t.
Proof.
  induction s as [|a s IH]; [done|]. rewrite string_app_cons, !has_byte_cons, IH. by rewrite orb_assoc.
Qed.

Lemma split_line_spec s :
  match split_line s with
  | Some (l, r) => s = l +:+ String newline r ∧ has_byte newline l = false
  | None => has_byte newline s = false
  end.
Proof.
  induction s as [|a s IH]; [done|]. simpl split_line. destruct (Ascii.eqb_spec a newline) as [->|Hne]; [done|].
  assert (Ascii.eqb newline a = false) as Ha by (destruct (Ascii.eqb_spec newline a); congruence).
  destruct (split_line s) as [[l r]|]; [destruct IH as [-> Hl]|]; rewrite has_byte_cons, Ha; [|done].
  split; [by rewrite string_app_cons|done].
Qed.

Lemma split_line_app x y : has_byte newline x = false →
  split_line (x +:+ y) = match split_line y with Some (l, r) => Some (x +:+ l, r) | None => None end.
Proof.
  induction x as [|a x IH]; intros Hx; [change ("" +:+ y) with y; by destruct (split_line y) as [[l r]|]|].
  rewrite has_byte_cons in Hx. apply orb_false_iff in Hx as [Ha Hx]. rewrite string_app_cons. simpl split_line.
  destruct (Ascii.eqb_spec a newline) as [->|Hne]; [done|]. rewrite IH by done.
  by destruct (split_line y) as [[l r]|].
Qed.

Lemma split_line_newline l r : has_byte newline l = false → split_line (l +:+ String newline r) = Some (l, r).
Proof. intros Hl. rewrite split_line_app by done. simpl. by rewrite string_app_nil_r. Qed.

Lemma bytes_app s t : bytes (s +:+ t) = bytes s + bytes t.
Proof. unfold bytes. rewrite string_length_app. lia. Qed.

Lemma bytes_nonneg s : 0 <= bytes s.
Proof. unfold bytes. lia. Qed.

(** ** One frame *)

(** What is left of a stream: the bytes of its buffer and of the reads to come. *)
Definition holds_text (r : BufRead) (text : string) : Prop :=
  ∃ chunks, incoming r = Ok <$> chunks ∧ Forall (.≠ "") chunks ∧ text = buffer r +:+ join_chunks chunks.

Section Frame.
Context (max : Z) (line rest : string).
Context (Hline : has_byte newline line = false) (Hmax : bytes line <= max).

(** A turn of the loop that has read [payload] and finds [available]. *)
Lemma read_available_line payload available later :
  payload +:+ available +:+ later = line +:+ String newline rest → has_byte newline payload = false →
  match read_available max payload available with
  | inl (r, unread) => r = finish_frame line ∧ unread +:+ later = rest
  | inr payload' => payload' +:+ later = line +:+ String newline rest ∧ has_byte newline payload' = false
  end.
Proof.
  intros Htext Hp. unfold read_available. pose proof (split_line_spec available) as Hs.
  pose proof (split_line_newline line rest Hline) as Hl. rewrite <- Htext, split_line_app in Hl by done.
  destruct (split_line available) as [[l r]|].
  - destruct Hs as [-> Hl']. rewrite <- string_app_assoc, split_line_app in Hl by done. simpl in Hl. rewrite string_app_nil_r in Hl.
    injection Hl as Hl <-. pose proof (f_equal bytes Hl) as Hb. rewrite bytes_app in Hb.
    destruct (Z.ltb_spec max (bytes payload + bytes l)); [lia|]. by rewrite Hl.
  - rewrite split_line_app in Hl by done. destruct (split_line later) as [[l r]|] eqn:Hlater; [|done].
    injection Hl as Hl <-. pose proof (f_equal bytes Hl) as Hb. rewrite !bytes_app in Hb. pose proof (bytes_nonneg l).
    destruct (Z.ltb_spec max (bytes payload + bytes available)); [lia|].
    split; [by rewrite <- string_app_assoc|]. rewrite has_byte_app, Hp. done.
Qed.

Lemma read_incoming_line chunks payload :
  Forall (.≠ "") chunks → payload +:+ join_chunks chunks = line +:+ String newline rest →
  has_byte newline payload = false →
  ∃ r, read_incoming max payload (Ok <$> chunks) = (finish_frame line, r) ∧ holds_text r rest.
Proof.
  intros Hc. revert payload. induction Hc as [|available chunks Hne Hc IH]; intros payload Htext Hp; simpl in *.
  { rewrite string_app_nil_r in Htext. subst. rewrite has_byte_app in Hp. by rewrite Hline in Hp. }
  rewrite bool_decide_eq_false_2 by done.
  pose proof (read_available_line payload available (join_chunks chunks) Htext Hp) as Hr.
  destruct (read_available max payload available) as [[r unread]|payload'].
  - destruct Hr as [-> Hrest]. eexists. split; [done|]. by exists chunks.
  - destruct Hr as [Ht Hp']. by apply IH.
Qed.

Lemma read_frame_line r :
  holds_text r (line +:+ String newline rest) →
  ∃ r', read_frame max r = (finish_frame line, r') ∧ holds_text r' rest.
Proof.
  intros (chunks & Hin & Hc & Htext). unfold read_frame. rewrite Hin. case_bool_decide as Hb.
  - rewrite Hb in Htext. by apply read_incoming_line.
  - pose proof (read_available_line "" (buffer r) (join_chunks chunks) (eq_sym Htext) eq_refl) as Hr.
    destruct (read_available max "" (buffer r)) as [[res unread]|payload'].
    + destruct Hr as [-> Hrest]. eexists. split; [done|]. by exists chunks.
    + destruct Hr as [Ht Hp']. by apply read_incoming_line.
Qed.
End Frame.

Lemma write_frame_Ok payload frame :
  write_frame payload = Ok frame →
  frame = payload +:+ String newline "" ∧ has_byte newline payload = false ∧ has_byte return_ payload = false.
Proof.
  unfold write_frame. destruct (has_byte newline payload), (has_byte return_ payload); simpl; [done..|].
  by intros [= <-].
Qed.

Lemma read_end max r : holds_text r "" → read_frame max r = (Ok None, MkBufRead "" []).
Proof.
  intros (chunks & Hin & Hc & Htext). unfold read_frame. rewrite Hin.
  destruct (buffer r); [|done]. destruct Hc as [|s chunks Hne Hc]; [done|]. by destruct s.
Qed.

(** ** All of them *)

Section Reader.
Context `{JD : JsonData, !JsonNumbers, !Serialize Value}.
Context (value_from_slice : string → result string Value).

(** The event of a payload that is a JSON-RPC message, if it is one. *)
Definition message_event (payload : string) (e : ReaderEvent) : Prop :=
  match parse_response value_from_slice payload with
  | Ok (Some (id, r)) => e = Deliver id r
  | Ok None => e = Ignored
  | Err _ => False
  end.

Definition sendable (payload frame : string) : Prop :=
  write_frame payload = Ok frame ∧ payload ≠ "" ∧ bytes payload <= MAX_TRANSPORT_FRAME_BYTES.

Lemma read_sendable payload frame rest r :
  sendable payload frame → holds_text r (frame +:+ rest) →
  ∃ r', read_frame MAX_TRANSPORT_FRAME_BYTES r = (Ok (Some payload), r') ∧ holds_text r' rest.
Proof.
  intros (Hw & Hne & Hmax) Hr. destruct (write_frame_Ok _ _ Hw) as (-> & Hnl & Hcr).
  rewrite <- string_app_assoc in Hr. simpl in Hr.
  destruct (read_frame_line _ payload rest Hnl Hmax r Hr) as (r' & Hread & Hrest). exists r'. split; [|done].
  rewrite Hread. unfold finish_frame. by rewrite bool_decide_eq_false_2, Hcr.
Qed.

Lemma read_written payloads frames events r fuel :
  Forall2 sendable payloads frames → Forall2 message_event payloads events →
  holds_text r (join_chunks frames) → (length payloads < fuel)%nat →
  read_responses value_from_slice fuel r = events ++ [Failed (mcp_io_error "MCP server closed stdout")].
Proof.
  intros Hf He. revert frames r fuel Hf.
  induction He as [|payload e payloads events Hpe He IH]; intros frames r fuel Hf Hr Hfuel.
  - apply Forall2_nil_inv_l in Hf as ->. destruct fuel; [simpl in Hfuel; lia|]. simpl. by rewrite read_end.
  - apply Forall2_cons_inv_l in Hf as (frame & frames' & Hs & Hf & ->).
    destruct (read_sendable _ _ _ _ Hs Hr) as (r' & Hread & Hr').
    destruct fuel as [|fuel]; [simpl in Hfuel; lia|]. simpl. rewrite Hread.
    unfold message_event in Hpe. destruct (parse_response value_from_slice payload) as [[[id resp]|]|]; [| |done];
      subst e; simpl; f_equal; (eapply IH; [done|done|simpl in Hfuel; lia]).
Qed.

(** C21. The stream of the server, cut into reads in any way, is read as the messages that
    were written to it, in their order, and then its end fails the requests still
    pending: neither a frame split over reads nor several frames in one read are
    lost, merged or refused. *)
Theorem frames_survive_any_chunking payloads frames events chunks fuel :
  Forall2 sendable payloads frames → Forall2 message_event payloads events →
  Forall (.≠ "") chunks → join_chunks chunks = join_chunks frames → (length payloads < fuel)%nat →
  read_responses value_from_slice fuel (MkBufRead "" (Ok <$> chunks))
  = events ++ [Failed (mcp_io_error "MCP server closed stdout")].
Proof.
  intros Hf He Hc Hj Hfuel. eapply read_written; [done|done| |done]. exists chunks. simpl. by rewrite Hj.
Qed.
End Reader.
