(* ===== verification/McpProvider.v ===== *)
(** * MCP providers ([tuning_agent/src/adapters/mcp/provider.rs])

    The probe, measurement, comparison and mutation providers whose operations are tools
    of an MCP server: the request is validated against the declared schemas, the tool is
    called, and the structured response is decoded and checked.  The caller of the tools
    is an interface; the decoding of a response that serde derives is a parameter per
    wire type. *)

From S2P Require Export McpClient.

Open Scope Z_scope.

(** The trait [ToolCaller]: the tool, its arguments, the timeout in milliseconds and the
    limit of the output. *)
Class ToolCaller `{J : Json} (W : Type) :=
  call_tool : string → Value → Z → Z → M W McpAdapterError Value.

(** ** Wire types *)

Section Wire.
Context `{J : Json}.

Record ValidateSpecificationRequest := MkValidateSpecification { specification : Value }.
Record ValidateSpecificationResponse := MkValidateResponse { valid : bool; response_message : option string }.
Record WireProbeEvidence := MkWireProbeEvidence {
  wire_observed_at_ns : Z; wire_data : Value; wire_warnings : list string }.
Record WireMeasurementSession := MkWireSession { wire_session : string; wire_session_data : Value }.
Record WireCleanupReceipt := MkWireCleanup {
  wire_session_id : string; wire_cleaned_up : bool; wire_cleanup_details : Value }.
Record WireMetricValue := MkWireMetric { wire_value : Value; wire_unit : string; wire_kind : MetricKind }.
Record WireMetricBatch := MkWireBatch {
  wire_started_at_ns : Z;
  wire_ended_at_ns : Z;
  wire_quality : MetricQuality;
  wire_fingerprint : option string;
  wire_metrics : gmap string WireMetricValue;
  wire_provenance : Value;
}.
Record WireConditionEvidence := MkWireCondition {
  wire_name : string; wire_passed : bool; wire_condition_details : Value }.
Record WireComparisonEvidence := MkWireComparison {
  wire_conclusion : ComparisonConclusion;
  wire_conditions : list WireConditionEvidence;
  wire_details : Value;
}.
Record WireMutationState := MkWireState { wire_state_value : Value }.
Record WirePreparedMutation := MkWirePrepared {
  wire_resource : string;
  wire_baseline : WireMutationState;
  wire_desired : WireMutationState;
  wire_driver_data : Value;
}.
(** [WireMutationReceipt] and [WireMutationStatus] have the same fields. *)
Record WireMutationReceipt := MkWireReceipt {
  wire_operation_id : string;
  wire_state : MutationOperationState;
  wire_observed : option WireMutationState;
  wire_receipt_data : Value;
}.
Record WireMutationStatus := MkWireStatus {
  wire_status_id : string;
  wire_status_state : MutationOperationState;
  wire_status_observed : option WireMutationState;
  wire_status_data : Value;
}.
Record WireMutationVerification := MkWireVerification {
  wire_matched : bool;
  wire_verification_observed : option WireMutationState;
  wire_verification_details : Value;
}.
End Wire.

(** ** Conversions *)

Definition protocol (message : string) : ProviderError := ProviderError_new Protocol message.

Section Conversions.
Context `{JD : JsonData, !Serialize Value, !Sha256}.

Definition from_remote {A} (r : result string A) : result ProviderError A := map_err protocol r.

Definition has_control (s : string) : bool := existsb is_control (chars s).

Definition probe_evidence (raw : WireProbeEvidence) : result ProviderError ProbeEvidence :=
  _ ← reject ((256 <? Z.of_nat (length (wire_warnings raw)))
              || existsb (λ w, (4096 <? bytes w) || has_control w) (wire_warnings raw))
        (protocol "MCP probe returned invalid warnings");
  mret (MkProbeEvidence (wire_observed_at_ns raw) (wire_data raw) (wire_warnings raw)).

Definition measurement_session (raw : WireMeasurementSession) : result ProviderError MeasurementSession :=
  id ← from_remote (string_id_new N_MeasurementSession (wire_session raw));
  mret (MkSession id (wire_session_data raw)).

Definition cleanup_receipt (raw : WireCleanupReceipt) : result ProviderError CleanupReceipt :=
  id ← from_remote (string_id_new N_MeasurementSession (wire_session_id raw));
  mret (MkCleanupReceipt id (wire_cleaned_up raw) (wire_cleanup_details raw)).

(** One metric, inserted into the converted map. *)
Definition convert_metric (metrics : gmap string MetricValue) (entry : string * WireMetricValue)
    : result ProviderError (gmap string MetricValue) :=
  let '(name, metric) := entry in
  _ ← reject (bool_decide (name = "") || (256 <? bytes name) || has_surrounding_whitespace name || has_control name)
        (protocol "MCP metric name is invalid");
  _ ← reject (bool_decide (wire_unit metric = "") || (128 <? bytes (wire_unit metric)) || has_control (wire_unit metric))
        (protocol ("MCP metric '" +:+ name +:+ "' has an invalid unit"));
  let value := MkMetricValue (wire_value metric) (wire_unit metric) (wire_kind metric) in
  _ ← reject (negb (metric_kind_matches value))
        (protocol ("MCP metric '" +:+ name +:+ "' value does not match its declared kind"));
  mret (<[name := value]> metrics).

(** The metrics of the wire in the order of their names. *)
Definition wire_metrics_in_order (m : gmap string WireMetricValue) : list (string * WireMetricValue) :=
  merge_sort key_le (map_to_list m).

Definition metric_batch (raw : WireMetricBatch) : result ProviderError MetricBatch :=
  _ ← reject (wire_ended_at_ns raw <? wire_started_at_ns raw) (protocol "MCP metric batch ends before it starts");
  _ ← reject (4096 <? Z.of_nat (size (wire_metrics raw))) (protocol "MCP metric batch contains too many metrics");
  _ ← reject (match wire_fingerprint raw with Some f => 4096 <? bytes f | None => false end)
        (protocol "MCP workload fingerprint exceeds 4096 bytes");
  metrics ← fold_result convert_metric ∅ (wire_metrics_in_order (wire_metrics raw));
  mret (MkMetricBatch (wire_started_at_ns raw) (wire_ended_at_ns raw) (wire_quality raw)
    (wire_fingerprint raw) metrics (wire_provenance raw)).

Definition condition_evidence (c : WireConditionEvidence) : result ProviderError ConditionEvidence :=
  _ ← reject (bool_decide (wire_name c = "") || (256 <? bytes (wire_name c)) || has_control (wire_name c))
        (protocol "MCP comparison condition name is invalid");
  mret (MkConditionEvidence (wire_name c) (wire_passed c) (wire_condition_details c)).

Definition comparison_evidence (raw : WireComparisonEvidence) : result ProviderError ComparisonEvidence :=
  _ ← reject (4096 <? Z.of_nat (length (wire_conditions raw)))
        (protocol "MCP comparison returned too many conditions");
  conditions ← collect_result condition_evidence (wire_conditions raw);
  mret (MkComparisonEvidence (wire_conclusion raw) conditions (wire_details raw)).

Definition mutation_state_of (raw : WireMutationState) : result ProviderError MutationState :=
  digest ← from_remote (content_digest (wire_state_value raw));
  mret (MkMutationState (wire_state_value raw) digest).

(** [option.map(TryInto::try_into).transpose()?] *)
Definition observed_state (o : option WireMutationState) : result ProviderError (option MutationState) :=
  match o with
  | Some raw => state ← mutation_state_of raw; mret (Some state)
  | None => Ok None
  end.

Definition same_operation (what : string) (received : string) (expected : OperationId) : result ProviderError OperationId :=
  id ← from_remote (string_id_new N_Operation received);
  _ ← reject (bool_decide (id ≠ expected))
        (protocol ("MCP mutation " +:+ what +:+ " operation '" +:+ as_str id +:+ "' does not match '"
          +:+ as_str expected +:+ "'"));
  mret id.

Definition into_receipt (raw : WireMutationReceipt) (expected : OperationId) : result ProviderError MutationReceipt :=
  id ← same_operation "receipt" (wire_operation_id raw) expected;
  observed ← observed_state (wire_observed raw);
  mret (MkReceipt id (wire_state raw) observed (wire_receipt_data raw)).

Definition into_status (raw : WireMutationStatus) (expected : OperationId) : result ProviderError MutationStatus :=
  id ← same_operation "status" (wire_status_id raw) expected;
  observed ← observed_state (wire_status_observed raw);
  mret (MkStatus id (wire_status_state raw) observed (wire_status_data raw)).
End Conversions.

(** ** Providers *)

Section ProviderRecords.
Context `{J : Json}.

Record OperationTool := MkOperationTool {
  tool_name : string;
  tool_input : JsonSchema;
  tool_output : option JsonSchema;
}.

(** [ProviderCore]; the caller is the interface. *)
Record ProviderCore := MkProviderCore {
  core_meta : CapabilityMeta;
  capability_input : JsonSchema;
}.

Record McpProbeProvider := MkMcpProbe { probe_core : ProviderCore; probe_tool : OperationTool }.
Record MeasurementTools := MkMeasurementTools {
  validate_tool : OperationTool; open_tool : OperationTool; sample_tool : OperationTool; close_tool : OperationTool }.
Record McpMeasurementProvider := MkMcpMeasurement {
  measurement_core : ProviderCore; measurement_tools : MeasurementTools }.
Record McpComparisonPolicy := MkMcpComparison {
  comparison_core : ProviderCore; comparison_validate_tool : OperationTool; compare_tool : OperationTool }.
Record MutationTools := MkMutationTools {
  prepare_tool : OperationTool; apply_tool : OperationTool; status_tool : OperationTool;
  verify_tool : OperationTool; restore_tool : OperationTool; finalize_tool : OperationTool }.
Record McpMutationDriver := MkMcpMutation {
  mutation_core : ProviderCore; mutation_tools : MutationTools }.
End ProviderRecords.

(** The codecs serde derives for the requests and the wire types. *)
Class McpCodecs `{J : Json} := {
  encode_ProbeRequest :: ToValue ProbeRequest;
  encode_MeasurementOpenRequest :: ToValue MeasurementOpenRequest;
  encode_MeasurementSampleRequest :: ToValue MeasurementSampleRequest;
  encode_MeasurementSession :: ToValue MeasurementSession;
  encode_ComparisonRequest :: ToValue ComparisonRequest;
  encode_ValidateSpecificationRequest :: ToValue ValidateSpecificationRequest;
  encode_MutationPrepareRequest :: ToValue MutationPrepareRequest;
  encode_MutationApplyRequest :: ToValue MutationApplyRequest;
  encode_MutationQuery :: ToValue MutationQuery;
  encode_MutationVerifyRequest :: ToValue MutationVerifyRequest;
  encode_MutationRestoreRequest :: ToValue MutationRestoreRequest;
  encode_MutationFinalizeRequest :: ToValue MutationFinalizeRequest;
  decode_WireProbeEvidence :: FromValue WireProbeEvidence;
  decode_WireMeasurementSession :: FromValue WireMeasurementSession;
  decode_WireCleanupReceipt :: FromValue WireCleanupReceipt;
  decode_WireMetricBatch :: FromValue WireMetricBatch;
  decode_WireComparisonEvidence :: FromValue WireComparisonEvidence;
  decode_ValidateSpecificationResponse :: FromValue ValidateSpecificationResponse;
  decode_WirePreparedMutation :: FromValue WirePreparedMutation;
  decode_WireMutationReceipt :: FromValue WireMutationReceipt;
  decode_WireMutationStatus :: FromValue WireMutationStatus;
  decode_WireMutationVerification :: FromValue WireMutationVerification;
}.

Section Providers.
Context {W : Type} `{JD : JsonData, !JsonNumbers, !Serialize Value, !Sha256, !ToolCaller W, !McpCodecs}.

Definition lift_outcome {E A} (o : outcome E A) : M W E A := λ w, (o, w).

(** A [map_err] on a call. *)
Definition with_error {E E' A} (f : E → E') (m : M W E A) : M W E' A := λ w,
  let '(o, w) := m w in (throw_err f o, w).

Definition invalid_request (message : string) : ProviderError := ProviderError_new InvalidRequest message.

Definition invoke_value {Request} `{!ToValue Request} (core : ProviderCore) (tool : OperationTool) (request : Request)
    : M W ProviderError Value :=
  arguments ← lift (map_err (λ error, invalid_request
    ("failed to encode MCP tool '" +:+ tool_name tool +:+ "' request: " +:+ error)) (to_value request));
  _ ← lift_outcome (throw_err (λ error, invalid_request
        ("MCP tool '" +:+ tool_name tool +:+ "' request violates its declared input schema: " +:+ error))
        (JsonSchema_validate (tool_input tool) arguments));
  output ← with_error mcp_provider_error (call_tool (tool_name tool) arguments
    (timeout_ms (limits (core_meta core))) (max_output_bytes (limits (core_meta core))));
  _ ← match tool_output tool with
      | Some schema =>
        lift_outcome (throw_err (λ error, protocol
          ("MCP tool '" +:+ tool_name tool +:+ "' response violates its declared output schema: " +:+ error))
          (JsonSchema_validate schema output))
      | None => mret tt
      end;
  mret output.

Definition invoke {Request Response} `{!ToValue Request, !FromValue Response} (core : ProviderCore) (tool : OperationTool)
    (request : Request) : M W ProviderError Response :=
  output ← invoke_value core tool request;
  lift (map_err (λ error, protocol
    ("MCP tool '" +:+ tool_name tool +:+ "' returned an invalid structured response: " +:+ error))
    (from_value output)).

Definition validate_capability_input (core : ProviderCore) (v : Value) : M W ProviderError unit :=
  lift_outcome (throw_err (λ error, invalid_request
    ("request violates the capability input schema: " +:+ error))
    (JsonSchema_validate (capability_input core) v)).

Definition validate_remote_specification (core : ProviderCore) (tool : OperationTool) (v : Value)
    : M W ProviderError unit :=
  _ ← validate_capability_input core v;
  response ← invoke (Response := ValidateSpecificationResponse) core tool (MkValidateSpecification v);
  if valid response then mret tt
  else throw (invalid_request (default "MCP provider rejected the specification" (response_message response))).

(** *** Probes *)

Definition mcp_probe (p : McpProbeProvider) (request : ProbeRequest) : M W ProviderError ProbeEvidence :=
  _ ← validate_capability_input (probe_core p) (probe_arguments request);
  raw ← invoke (probe_core p) (probe_tool p) request;
  lift (probe_evidence raw).

(** *** Measurements *)

Definition mcp_validate_measurement (p : McpMeasurementProvider) (v : Value) : M W ProviderError unit :=
  validate_remote_specification (measurement_core p) (validate_tool (measurement_tools p)) v.

Definition mcp_open (p : McpMeasurementProvider) (request : MeasurementOpenRequest)
    : M W ProviderError MeasurementSession :=
  _ ← validate_capability_input (measurement_core p) (open_specification request);
  raw ← invoke (measurement_core p) (open_tool (measurement_tools p)) request;
  lift (measurement_session raw).

Definition mcp_sample (p : McpMeasurementProvider) (request : MeasurementSampleRequest)
    : M W ProviderError MetricBatch :=
  raw ← invoke (measurement_core p) (sample_tool (measurement_tools p)) request;
  lift (metric_batch raw).

Definition mcp_close (p : McpMeasurementProvider) (session : MeasurementSession)
    : M W ProviderError CleanupReceipt :=
  raw ← invoke (measurement_core p) (close_tool (measurement_tools p)) session;
  receipt ← lift (cleanup_receipt raw);
  _ ← lift (reject (bool_decide (cleanup_session_id receipt ≠ session_id session))
        (protocol ("MCP measurement close returned session '" +:+ as_str (cleanup_session_id receipt)
          +:+ "', expected '" +:+ as_str (session_id session) +:+ "'")));
  mret receipt.

(** *** Comparisons *)

Definition mcp_validate_comparison (p : McpComparisonPolicy) (v : Value) : M W ProviderError unit :=
  validate_remote_specification (comparison_core p) (comparison_validate_tool p) v.

Definition mcp_compare (p : McpComparisonPolicy) (request : ComparisonRequest)
    : M W ProviderError ComparisonEvidence :=
  _ ← validate_capability_input (comparison_core p) (comparison_specification request);
  raw ← invoke (comparison_core p) (compare_tool p) request;
  lift (comparison_evidence raw).

(** *** Mutations *)

Definition mcp_prepare (d : McpMutationDriver) (request : MutationPrepareRequest)
    : M W ProviderError PreparedMutation :=
  let meta := core_meta (mutation_core d) in
  _ ← validate_capability_input (mutation_core d) (prepare_arguments request);
  raw ← invoke (mutation_core d) (prepare_tool (mutation_tools d)) request;
  remote ← lift (from_remote (ResourceKey_new (wire_resource raw)));
  resource ← lift (from_remote (ResourceKey_new
    (as_str (provider_id (provider meta)) +:+ "/" +:+ resource_str remote)));
  baseline ← lift (mutation_state_of (wire_baseline raw));
  desired ← lift (mutation_state_of (wire_desired raw));
  mret (MkPreparedMutation (meta_id meta) (provider meta) resource baseline desired (wire_driver_data raw)).

Definition mcp_apply (d : McpMutationDriver) (request : MutationApplyRequest) : M W ProviderError MutationReceipt :=
  raw ← invoke (mutation_core d) (apply_tool (mutation_tools d)) request;
  lift (into_receipt raw (apply_operation_id request)).

Definition mcp_status (d : McpMutationDriver) (query : MutationQuery) : M W ProviderError MutationStatus :=
  raw ← invoke (mutation_core d) (status_tool (mutation_tools d)) query;
  lift (into_status raw (query_operation_id query)).

Definition mcp_verify (d : McpMutationDriver) (request : MutationVerifyRequest)
    : M W ProviderError MutationVerification :=
  raw ← invoke (mutation_core d) (verify_tool (mutation_tools d)) request;
  observed ← lift (observed_state (wire_verification_observed raw));
  mret (MkVerification (wire_matched raw) observed (wire_verification_details raw)).

Definition mcp_restore (d : McpMutationDriver) (request : MutationRestoreRequest)
    : M W ProviderError MutationReceipt :=
  raw ← invoke (mutation_core d) (restore_tool (mutation_tools d)) request;
  lift (into_receipt raw (restore_operation_id request)).

Definition mcp_finalize (d : McpMutationDriver) (request : MutationFinalizeRequest)
    : M W ProviderError MutationReceipt :=
  raw ← invoke (mutation_core d) (finalize_tool (mutation_tools d)) request;
  lift (into_receipt raw (finalize_operation_id request)).
End Providers.
