(* ===== verification/McpManifest.v ===== *)
(** * MCP manifests ([tuning_agent/src/adapters/mcp/manifest.rs])

    Reading the capability manifest of a server, discovering its tools page by page, and
    building the providers of the capabilities the configuration lets through. *)

From S2P Require Export McpProvider Capability.

Open Scope Z_scope.

Definition TUNING_CAPABILITIES_URI : string := "tuning://capabilities/v1".
Definition MANIFEST_SCHEMA_VERSION : Z := 1.
Definition MAX_MANIFEST_BYTES : Z := 1024 * 1024.
Definition MAX_MANIFEST_CAPABILITIES : Z := 1024.
Definition MAX_TOOL_PAGES : nat := 64.
Definition MAX_TOOLS : Z := 4096.
Definition MAX_CAPABILITY_OUTPUT_BYTES : Z := 8 * 1024 * 1024.

(** ** The manifest as it is decoded *)

Record RawProvider := MkRawProvider { raw_provider_id : string; raw_provider_version : string }.
Record RawLimits := MkRawLimits { raw_timeout_ms : Z; raw_max_output_bytes : Z }.
Record RawOperations := MkRawOperations {
  op_probe : option string;
  op_validate : option string;
  op_open : option string;
  op_sample : option string;
  op_close : option string;
  op_compare : option string;
  op_prepare : option string;
  op_apply : option string;
  op_status : option string;
  op_verify : option string;
  op_restore : option string;
  op_finalize : option string;
}.

Section Raw.
Context `{J : Json}.

Record RawCapability := MkRawCapability {
  raw_id : string;
  raw_kind : CapabilityKind;
  raw_effect : EffectClass;
  raw_description : string;
  raw_input_schema : Value;
  raw_output_schema : Value;
  raw_allowed_phases : list EpisodePhase;
  raw_limits : RawLimits;
  raw_deterministic : bool;
  raw_idempotent : bool;
  raw_operations : RawOperations;
}.
Record RawManifest := MkRawManifest {
  raw_schema_version : Z;
  raw_provider : RawProvider;
  raw_capabilities : list RawCapability;
}.
Record DiscoveredTool := MkDiscoveredTool {
  discovered_input : Value; discovered_output : option Value }.
End Raw.

(** ** What is loaded *)

Section Loaded.
Context `{J : Json}.

Inductive LoadedMcpCapability :=
  | LoadedProbe (p : McpProbeProvider)
  | LoadedMutation (d : McpMutationDriver)
  | LoadedMeasurement (p : McpMeasurementProvider)
  | LoadedComparison (p : McpComparisonPolicy).

Definition loaded_core (c : LoadedMcpCapability) : ProviderCore :=
  match c with
  | LoadedProbe p => probe_core p
  | LoadedMutation d => mutation_core d
  | LoadedMeasurement p => measurement_core p
  | LoadedComparison p => comparison_core p
  end.
Definition loaded_meta (c : LoadedMcpCapability) : CapabilityMeta := core_meta (loaded_core c).

Record SkippedMcpCapability := MkSkipped { skipped_id : string; skipped_reason : string }.

Record LoadedMcpServer := MkLoadedServer {
  loaded_server_id : string;
  loaded_provider : ProviderPin;
  loaded_capabilities : list LoadedMcpCapability;
  skipped_capabilities : list SkippedMcpCapability;
}.
End Loaded.

Definition validate_tool_name (name : string) : result McpAdapterError unit :=
  reject (bool_decide (name = "") || (256 <? bytes name) || has_surrounding_whitespace name || has_control name)
    (mcp_protocol "MCP tool name is invalid").

Section Manifest.
Context `{JD : JsonData, !JsonNumbers, !Serialize Value, !Sha256, !Serialize RawManifest}.

(** ** Reading and discovery *)

Section Reading.
Context {W : Type} (request : string → Value → Z → M W McpAdapterError Value).
(** [serde_json::from_str] at [RawManifest]. *)
Context (decode_manifest : string → result string RawManifest).
Context (request_timeout : Z).

Definition object_or (message : string) (v : Value) : result McpAdapterError Value :=
  if is_object v then Ok v else Err (mcp_protocol message).

Definition decode_resource (v : Value) : result McpAdapterError RawManifest :=
  object ← object_or "MCP resources/read result must be an object" v;
  contents ← ok_or (mcp_protocol "MCP resources/read result is missing contents")
               (value_get "contents" object ≫= as_array);
  first ← (match contents with
           | [first] => Ok first
           | _ => Err (mcp_protocol ("MCP resources/read must return exactly one manifest resource, got "
                    +:+ show (Z.of_nat (length contents))))
           end : result McpAdapterError Value);
  content ← object_or "MCP manifest resource content must be an object" first;
  _ ← reject (bool_decide (get_string "uri" content ≠ Some TUNING_CAPABILITIES_URI))
        (mcp_protocol ("MCP manifest resource must echo URI '" +:+ TUNING_CAPABILITIES_URI +:+ "'"));
  text ← ok_or (mcp_protocol "MCP manifest resource must contain text JSON, not blob content")
           (get_string "text" content);
  _ ← reject (contains_key "blob" content)
        (mcp_protocol "MCP manifest resource must not mix text and blob content");
  _ ← reject (MAX_MANIFEST_BYTES <? bytes text)
        (manifest_error ("MCP capability manifest exceeds " +:+ show MAX_MANIFEST_BYTES +:+ " bytes"));
  map_err (λ error, manifest_error ("failed to decode strict MCP capability manifest: " +:+ error))
    (decode_manifest text).

Definition read_manifest : M W McpAdapterError RawManifest :=
  v ← request "resources/read" (json_object [("uri", json_string TUNING_CAPABILITIES_URI)]) request_timeout;
  lift (decode_resource v).

(** One tool of a page. *)
Definition insert_tool (tools : gmap string DiscoveredTool) (raw_tool : Value)
    : result McpAdapterError (gmap string DiscoveredTool) :=
  _ ← reject (MAX_TOOLS <=? Z.of_nat (size tools))
        (mcp_protocol ("MCP tools/list exceeds the " +:+ show MAX_TOOLS +:+ "-tool limit"));
  tool ← object_or "MCP tools/list tool must be an object" raw_tool;
  name ← ok_or (mcp_protocol "MCP tools/list tool is missing name") (get_string "name" tool);
  _ ← validate_tool_name name;
  input ← ok_or (mcp_protocol ("MCP tool '" +:+ name +:+ "' is missing inputSchema")) (value_get "inputSchema" tool);
  _ ← reject (negb (is_object input)) (mcp_protocol ("MCP tool '" +:+ name +:+ "' inputSchema must be an object"));
  let output := value_get "outputSchema" tool in
  _ ← reject (match output with Some schema => negb (is_object schema) | None => false end)
        (mcp_protocol ("MCP tool '" +:+ name +:+ "' outputSchema must be an object when declared"));
  _ ← reject (bool_decide (is_Some (tools !! name)))
        (mcp_protocol ("MCP tools/list contains duplicate tool '" +:+ name +:+ "'"));
  mret (<[name := MkDiscoveredTool input output]> tools).

(** [nextCursor]. *)
Definition next_cursor (object : Value) : result McpAdapterError (option string) :=
  match value_get "nextCursor" object with
  | None => Ok None
  | Some v =>
    if is_null v then Ok None
    else match as_string v with
         | Some cursor => if bool_decide (cursor = "") then Err (mcp_protocol
             "MCP tools/list nextCursor must be a non-empty string or null") else Ok (Some cursor)
         | None => Err (mcp_protocol "MCP tools/list nextCursor must be a non-empty string or null")
         end
  end.

Definition list_params (cursor : option string) : Value :=
  match cursor with
  | Some cursor => json_object [("cursor", json_string cursor)]
  | None => json_object []
  end.

(** [pages] turns of [for _ in 0..MAX_TOOL_PAGES] are left. *)
Fixpoint discover_pages (pages : nat) (tools : gmap string DiscoveredTool) (cursor : option string)
    (seen : gset string) : M W McpAdapterError (gmap string DiscoveredTool) :=
  match pages with
  | O => throw (mcp_protocol ("MCP tools/list exceeds the " +:+ show (Z.of_nat MAX_TOOL_PAGES) +:+ "-page limit"))
  | S pages =>
    v ← request "tools/list" (list_params cursor) request_timeout;
    object ← lift (object_or "MCP tools/list result must be an object" v);
    page ← lift (ok_or (mcp_protocol "MCP tools/list result is missing tools")
             (value_get "tools" object ≫= as_array));
    tools ← lift (fold_result insert_tool tools page);
    cursor ← lift (next_cursor object);
    match cursor with
    | None => mret tools
    | Some next =>
      _ ← lift (reject (bool_decide (next ∈ seen)) (mcp_protocol "MCP tools/list repeated a pagination cursor"));
      discover_pages pages tools cursor ({[next]} ∪ seen)
    end
  end.

Definition discover_tools : M W McpAdapterError (gmap string DiscoveredTool) :=
  discover_pages MAX_TOOL_PAGES ∅ None ∅.
End Reading.

(** ** Validation of a capability *)

Definition from_manifest {A} (r : result string A) : result McpAdapterError A := map_err manifest_error r.

Definition about_capability (id : CapabilityId) : string := "MCP capability '" +:+ as_str id +:+ "'".

Definition security_contract (raw : RawCapability) : bool :=
  match raw_kind raw with
  | Probe | Measurement => bool_decide (raw_effect raw = ReadOnly)
  | Comparison => bool_decide (raw_effect raw = PureComputation) && raw_deterministic raw
  | Mutation => bool_decide (raw_effect raw = ReversibleMutation) && raw_idempotent raw
  end.
Definition validate_security_contract (id : CapabilityId) (raw : RawCapability) : result McpAdapterError unit :=
  reject (negb (security_contract raw)) (manifest_error (about_capability id
    +:+ " violates the required effect/determinism/idempotency contract")).

(** [actual.windows(2).any(|pair| pair[0] == pair[1])] *)
Fixpoint adjacent_equal (l : list EpisodePhase) : bool :=
  match l with
  | p :: (q :: _) as l' => bool_decide (p = q) || adjacent_equal l'
  | _ => false
  end.

Definition permitted_phases (k : CapabilityKind) : list EpisodePhase :=
  match k with
  | Probe | Mutation => [Clean; Experimenting]
  | Measurement | Comparison => [CommitPending]
  end.

Definition validate_phases (id : CapabilityId) (k : CapabilityKind) (phases : list EpisodePhase)
    : result McpAdapterError unit :=
  let actual := sort_by (λ p q, (phase_index p <=? phase_index q)%nat) phases in
  _ ← reject (adjacent_equal actual)
        (manifest_error (about_capability id +:+ " contains duplicate allowed phases"));
  reject (bool_decide (actual ≠ permitted_phases k))
    (manifest_error (about_capability id +:+ " must declare exactly the phases permitted for "
      +:+ CapabilityKind_debug k)).

Definition operation_fields (o : RawOperations) : list (string * option string) :=
  [("probe", op_probe o); ("validate", op_validate o); ("open", op_open o); ("sample", op_sample o);
   ("close", op_close o); ("compare", op_compare o); ("prepare", op_prepare o); ("apply", op_apply o);
   ("status", op_status o); ("verify", op_verify o); ("restore", op_restore o); ("finalize", op_finalize o)].

Definition expected_operations (k : CapabilityKind) : list string :=
  match k with
  | Probe => ["probe"]
  | Measurement => ["validate"; "open"; "sample"; "close"]
  | Comparison => ["validate"; "compare"]
  | Mutation => ["prepare"; "apply"; "status"; "verify"; "restore"; "finalize"]
  end.

Definition validate_operation (id : CapabilityId) (k : CapabilityKind) (field : string * option string)
    : result McpAdapterError unit :=
  let '(name, value) := field in
  _ ← reject (bool_decide (bool_decide (name ∈ expected_operations k) ≠ bool_decide (is_Some value)))
        (manifest_error (about_capability id +:+ " operations must declare exactly "
          +:+ join_str ", " (expected_operations k)));
  match value with
  | Some value =>
    map_err (λ error, manifest_error (about_capability id +:+ " operation '" +:+ name +:+ "' is invalid: "
      +:+ mcp_message error)) (validate_tool_name value)
  | None => Ok tt
  end.

Definition validate_operation_shape (id : CapabilityId) (k : CapabilityKind) (o : RawOperations)
    : result McpAdapterError unit :=
  fold_result (λ _, validate_operation id k) tt (operation_fields o).

Record ValidatedCapability := MkValidated {
  source_id : string;
  validated_meta : CapabilityMeta;
  validated_input : JsonSchema;
  validated_operations : RawOperations;
}.

(** The metadata [CapabilityMeta::new] and the assignments after it build. *)
Definition capability_meta (config : McpServerConfig) (raw : RawCapability) (id : CapabilityId)
    (pin : ProviderPin) : CapabilityMeta :=
  let meta := with_allowed_phases (CapabilityMeta_new id (raw_kind raw) (raw_effect raw) pin
    (raw_description raw) (raw_input_schema raw) (raw_output_schema raw)) (raw_allowed_phases raw) in
  {| meta_id := meta_id meta; kind := kind meta; effect := effect meta; provider := provider meta;
     description := description meta; input_schema := input_schema meta; output_schema := output_schema meta;
     role := role meta; allowed_phases := allowed_phases meta;
     limits := MkCapabilityLimits (Z.min (raw_timeout_ms (raw_limits raw)) (request_timeout_ms config))
       (raw_max_output_bytes (raw_limits raw));
     deterministic := raw_deterministic raw; idempotent := raw_idempotent raw |}.

Definition compile_schema (what : string) (value : Value) : result McpAdapterError JsonSchema :=
  map_err (λ error, manifest_error (what +:+ ": " +:+ error)) (JsonSchema_compile value).

Definition validate_capability (config : McpServerConfig) (raw : RawCapability) (pin : ProviderPin)
    : result McpAdapterError ValidatedCapability :=
  source ← from_manifest (string_id_new N_Capability (raw_id raw));
  id ← from_manifest (string_id_new N_Capability ("mcp/" +:+ server_id config +:+ "/" +:+ as_str source));
  _ ← reject (is_blank (raw_description raw) || (4096 <? bytes (raw_description raw)) || has_control (raw_description raw))
        (manifest_error (about_capability id +:+ " has an invalid description"));
  _ ← validate_security_contract id raw;
  _ ← validate_phases id (raw_kind raw) (raw_allowed_phases raw);
  _ ← reject ((raw_timeout_ms (raw_limits raw) =? 0) || (raw_max_output_bytes (raw_limits raw) =? 0)
              || (MAX_CAPABILITY_OUTPUT_BYTES <? raw_max_output_bytes (raw_limits raw)))
        (manifest_error (about_capability id +:+ " has invalid execution limits"));
  _ ← validate_operation_shape id (raw_kind raw) (raw_operations raw);
  input ← compile_schema (about_capability id +:+ " has an invalid input_schema") (raw_input_schema raw);
  _ ← compile_schema (about_capability id +:+ " has an invalid output_schema") (raw_output_schema raw);
  mret (MkValidated (as_str source) (capability_meta config raw id pin) input (raw_operations raw)).

(** ** Building the providers *)

Definition required (value : option string) (operation : string) : result McpAdapterError string :=
  ok_or (manifest_error ("missing required MCP operation '" +:+ operation +:+ "'")) value.

Definition resolve_tool (id : CapabilityId) (discovered : gmap string DiscoveredTool) (name : string)
    : result McpAdapterError OperationTool :=
  tool ← ok_or (manifest_error (about_capability id +:+ " references absent tool '" +:+ name +:+ "'"))
           (discovered !! name);
  input ← compile_schema ("MCP tool '" +:+ name +:+ "' has an unsupported or invalid inputSchema")
            (discovered_input tool);
  output ← (match discovered_output tool with
            | Some schema => output ← compile_schema ("MCP tool '" +:+ name
                +:+ "' has an unsupported or invalid outputSchema") schema; mret (Some output)
            | None => Ok None
            end : result McpAdapterError (option JsonSchema));
  mret (MkOperationTool name input output).

(** [resolve_tool(&id, required(value, operation)?, discovered)?] *)
Definition resolve (id : CapabilityId) (discovered : gmap string DiscoveredTool) (value : option string)
    (operation : string) : result McpAdapterError OperationTool :=
  name ← required value operation; resolve_tool id discovered name.

Definition build_capability (c : ValidatedCapability) (discovered : gmap string DiscoveredTool)
    : result McpAdapterError LoadedMcpCapability :=
  let core := MkProviderCore (validated_meta c) (validated_input c) in
  let o := validated_operations c in
  let resolve := resolve (meta_id (validated_meta c)) discovered in
  match kind (validated_meta c) with
  | Probe => tool ← resolve (op_probe o) "probe"; mret (LoadedProbe (MkMcpProbe core tool))
  | Measurement =>
    validate ← resolve (op_validate o) "validate";
    open_ ← resolve (op_open o) "open";
    sample_ ← resolve (op_sample o) "sample";
    close_ ← resolve (op_close o) "close";
    mret (LoadedMeasurement (MkMcpMeasurement core (MkMeasurementTools validate open_ sample_ close_)))
  | Comparison =>
    validate ← resolve (op_validate o) "validate";
    compare_ ← resolve (op_compare o) "compare";
    mret (LoadedComparison (MkMcpComparison core validate compare_))
  | Mutation =>
    prepare_ ← resolve (op_prepare o) "prepare";
    apply_ ← resolve (op_apply o) "apply";
    status_ ← resolve (op_status o) "status";
    verify_ ← resolve (op_verify o) "verify";
    restore_ ← resolve (op_restore o) "restore";
    finalize_ ← resolve (op_finalize o) "finalize";
    mret (LoadedMutation (MkMcpMutation core
      (MkMutationTools prepare_ apply_ status_ verify_ restore_ finalize_)))
  end.

(** [declared_ids]: every id is valid and declared once. *)
Definition declare_id (declared : gset string) (raw : RawCapability) : result McpAdapterError (gset string) :=
  _ ← from_manifest (string_id_new N_Capability (raw_id raw));
  _ ← reject (bool_decide (raw_id raw ∈ declared))
        (manifest_error ("MCP manifest contains duplicate capability id '" +:+ raw_id raw +:+ "'"));
  mret ({[raw_id raw]} ∪ declared).

(** Why a capability that was built is not loaded. *)
Definition filtered_out (config : McpServerConfig) (source : string) (k : CapabilityKind) : option string :=
  if bool_decide (server_allowed config ≠ []) && bool_decide (source ∉ server_allowed config) then
    Some "not selected by the server capability allowlist"
  else if bool_decide (k = Mutation) && negb (allow_mutations config) then
    Some "MCP mutations are disabled for this server"
  else None.

(** One turn of the loop over the capabilities of the manifest. *)
Definition load_capability (config : McpServerConfig) (pin : ProviderPin) (tools : gmap string DiscoveredTool)
    (acc : list LoadedMcpCapability * list SkippedMcpCapability) (raw : RawCapability)
    : result McpAdapterError (list LoadedMcpCapability * list SkippedMcpCapability) :=
  validated ← validate_capability config raw pin;
  capability ← build_capability validated tools;
  let '(loaded, skipped) := acc in
  match filtered_out config (source_id validated) (kind (validated_meta validated)) with
  | Some reason => mret (loaded, skipped ++ [MkSkipped (as_str (meta_id (validated_meta validated))) reason])
  | None => mret (loaded ++ [capability], skipped)
  end.

Definition build_server (config : McpServerConfig) (manifest : RawManifest)
    (tools : gmap string DiscoveredTool) : result McpAdapterError LoadedMcpServer :=
  _ ← reject (bool_decide (raw_schema_version manifest ≠ MANIFEST_SCHEMA_VERSION))
        (manifest_error ("unsupported MCP capability manifest schema_version "
          +:+ show (raw_schema_version manifest) +:+ ", expected " +:+ show MANIFEST_SCHEMA_VERSION));
  _ ← reject (MAX_MANIFEST_CAPABILITIES <? Z.of_nat (length (raw_capabilities manifest)))
        (manifest_error ("MCP capability manifest exceeds the " +:+ show MAX_MANIFEST_CAPABILITIES
          +:+ "-capability limit"));
  remote ← from_manifest (string_id_new N_Provider (raw_provider_id (raw_provider manifest)));
  version ← from_manifest (string_id_new N_ProviderVersion (raw_provider_version (raw_provider manifest)));
  id ← from_manifest (string_id_new N_Provider ("mcp/" +:+ server_id config +:+ "/" +:+ as_str remote));
  digest ← from_manifest (content_digest manifest);
  let pin := MkProviderPin id version Mcp digest in
  declared ← fold_result declare_id ∅ (raw_capabilities manifest);
  _ ← fold_result (λ _ allowed, reject (bool_decide (allowed ∉ declared))
        (mcp_config_error ("MCP server '" +:+ server_id config
          +:+ "' allowlist references undeclared capability '" +:+ allowed +:+ "'"))) tt (server_allowed config);
  acc ← fold_result (load_capability config pin tools) ([], []) (raw_capabilities manifest);
  mret (MkLoadedServer (server_id config) pin acc.1 acc.2).

(** [load_server], once the client of the server is connected. *)
Definition load_server {W} (request : string → Value → Z → M W McpAdapterError Value)
    (decode_manifest : string → result string RawManifest) (config : McpServerConfig)
    : M W McpAdapterError LoadedMcpServer :=
  manifest ← read_manifest request decode_manifest (request_timeout_ms config);
  tools ← discover_tools request (request_timeout_ms config);
  lift (build_server config manifest tools).
End Manifest.
