(* ===== verification/McpSafety.v ===== *)
(** * What the MCP adapter lets through

    The capabilities [build_server] loads stay in the authority boundary of their kind
    and of the configuration, with every tool resolved and every schema compiled; a
    provider so built calls a tool only with arguments its schema accepts, and what it
    returns for a mutation is confined to its own resources and operations. *)

From S2P Require Export SchemaSafety McpManifest Registry.

Open Scope Z_scope.

(** ** Schemas *)

Section Accepts.
Context `{JD : JsonData, !JsonNumbers, !Serialize Value, !ObjectLaws}.

Definition compiled (s : JsonSchema) : Prop := JsonSchema_compile (schema_value s) = Ok s.
Definition accepts (s : JsonSchema) (v : Value) : Prop := conforms (S MAX_SCHEMA_DEPTH) (schema_value s) v.

Lemma compile_compiled v s : JsonSchema_compile v = Ok s → compiled s ∧ schema_value s = v.
Proof. intros Hc. destruct (compiled_well_formed _ _ Hc) as [Hv _]. unfold compiled. by rewrite Hv. Qed.

Lemma compiled_validates s v : compiled s → decides (JsonSchema_validate s v) (accepts s v).
Proof. intros Hs. by apply compiled_decides. Qed.

Lemma wp_schema {W E} (s : JsonSchema) v (f : string → E) (Q : unit → W → Prop) (R : E → W → Prop) w :
  compiled s → (accepts s v → Q tt w) → (∀ e, ¬ accepts s v → R (f e) w) →
  wp (lift_outcome (throw_err f (JsonSchema_validate s v))) Q R w.
Proof.
  intros Hs HQ HR. pose proof (compiled_validates s v Hs) as Hd. unfold wp, lift_outcome.
  destruct (JsonSchema_validate s v) as [[]|e|]; simpl in *; eauto.
Qed.
End Accepts.

(** ** Loaded capabilities *)

Section Loaded.
Context `{JD : JsonData, !JsonNumbers, !Serialize Value, !Sha256, !Serialize RawManifest, !ObjectLaws}.
Context (config : McpServerConfig) (pin : ProviderPin) (tools : gmap string DiscoveredTool).

(** [t] is the discovered tool [name], its schemas compiled. *)
Record resolved (name : string) (t : OperationTool) : Prop := {
  re_name : tool_name t = name;
  re_discovered : ∃ d, tools !! name = Some d ∧ JsonSchema_compile (discovered_input d) = Ok (tool_input t) ∧
    match discovered_output d, tool_output t with
    | Some v, Some s => JsonSchema_compile v = Ok s
    | None, None => True
    | _, _ => False
    end;
}.

(** The tools of a capability, in the order of [expected_operations]. *)
Definition loaded_tools (c : LoadedMcpCapability) : list OperationTool :=
  match c with
  | LoadedProbe p => [probe_tool p]
  | LoadedMeasurement p =>
    let t := measurement_tools p in [validate_tool t; open_tool t; sample_tool t; close_tool t]
  | LoadedComparison p => [comparison_validate_tool p; compare_tool p]
  | LoadedMutation d =>
    let t := mutation_tools d in
    [prepare_tool t; apply_tool t; status_tool t; verify_tool t; restore_tool t; finalize_tool t]
  end.

(** The capability of the manifest entry [raw]. *)
Record loaded_from (raw : RawCapability) (c : LoadedMcpCapability) : Prop := {
  lf_id : as_str (meta_id (loaded_meta c)) = "mcp/" +:+ server_id config +:+ "/" +:+ raw_id raw;
  lf_pin : provider (loaded_meta c) = pin;
  lf_admitted : admitted (raw_kind raw) (loaded_meta c);
  lf_limits : timeout_ms (limits (loaded_meta c)) <= request_timeout_ms config ∧
    max_output_bytes (limits (loaded_meta c)) <= MAX_CAPABILITY_OUTPUT_BYTES;
  lf_input : JsonSchema_compile (raw_input_schema raw) = Ok (capability_input (loaded_core c));
  lf_tools : Forall2 (λ operation t, ∃ name,
      (operation, Some name) ∈ operation_fields (raw_operations raw) ∧ resolved name t)
    (expected_operations (raw_kind raw)) (loaded_tools c);
}.

Lemma resolve_Ok id value operation t :
  resolve id tools value operation = Ok t → ∃ name, value = Some name ∧ resolved name t.
Proof.
  unfold resolve, required, resolve_tool, compile_schema. intros Hr.
  apply ok_or_bind_Ok in Hr as (name & Hname & Hr). apply ok_or_bind_Ok in Hr as (d & Hd & Hr).
  apply result_bind_Ok in Hr as (input & Hin & Hr). apply map_err_Ok in Hin.
  apply result_bind_Ok in Hr as (output & Hout & [= <-]). exists name. split; [done|].
  split; [done|]. exists d. split_and!; [done|done|]. simpl.
  destruct (discovered_output d) as [v|]; [|by injection Hout as <-].
  apply result_bind_Ok in Hout as (s & Hs & [= <-]). by apply map_err_Ok in Hs.
Qed.

Ltac resolve_all :=
  repeat match goal with
  | H : (resolve _ _ _ _ ≫= _) = Ok _ |- _ =>
    let t := fresh "t" in let Ht := fresh "Ht" in apply result_bind_Ok in H as (t & Ht & H);
    apply resolve_Ok in Ht
  end.

(** A resolved operation of the record is one of its fields. *)
Lemma declared_tool (o : RawOperations) operation (value : option string) t :
  (∃ name, value = Some name ∧ resolved name t) → (operation, value) ∈ operation_fields o →
  ∃ name, (operation, Some name) ∈ operation_fields o ∧ resolved name t.
Proof. intros (name & -> & Hr) Hin. eauto. Qed.

Lemma build_capability_Ok v c :
  build_capability v tools = Ok c →
  loaded_core c = MkProviderCore (validated_meta v) (validated_input v) ∧
  Forall2 (λ operation t, ∃ name, (operation, Some name) ∈ operation_fields (validated_operations v) ∧ resolved name t)
    (expected_operations (kind (validated_meta v))) (loaded_tools c).
Proof.
  unfold build_capability. destruct (kind (validated_meta v)); simpl; intros Hb; resolve_all;
    injection Hb as <-; (split; [done|]); simpl.
  all: repeat (apply Forall2_cons; split; [eapply declared_tool; [eassumption|unfold operation_fields; set_solver]|]); apply Forall2_nil_2.
Qed.

Lemma string_id_new_str n s (id : string_id n) : string_id_new n s = Ok id → as_str id = s.
Proof. unfold string_id_new. intros Hs. by apply reject_bind_Ok in Hs as [_ [= <-]]. Qed.

(** ** Validation *)

Lemma elem_of_dedup p l : p ∈ dedup_phases l → p ∈ l.
Proof.
  induction l as [|q [|q' l] IH]; intros Hp; [done|done|]. change (dedup_phases (q :: q' :: l)) with
    (if bool_decide (q = q') then dedup_phases (q' :: l) else q :: dedup_phases (q' :: l)) in Hp.
  case_bool_decide; set_solver.
Qed.

Lemma dedup_not_nil l : l ≠ [] → dedup_phases l ≠ [].
Proof.
  induction l as [|q [|q' l] IH]; intros Hl; [done|done|]. change (dedup_phases (q :: q' :: l)) with
    (if bool_decide (q = q') then dedup_phases (q' :: l) else q :: dedup_phases (q' :: l)).
  case_bool_decide; [by apply IH|done].
Qed.

Lemma permitted_valid k : permitted_phases k = valid_phases k.
Proof. by destruct k. Qed.

Lemma validate_phases_Ok id k phases :
  validate_phases id k phases = Ok tt → phases ≡ₚ valid_phases k.
Proof.
  unfold validate_phases. intros Hv. apply reject_bind_Ok in Hv as [_ Hv].
  apply reject_Ok, bool_decide_eq_false in Hv. apply dec_stable in Hv. rewrite permitted_valid in Hv.
  by rewrite <- Hv, sort_by_perm.
Qed.

Lemma capability_meta_phases raw id :
  raw_allowed_phases raw ≡ₚ valid_phases (raw_kind raw) →
  let phases := allowed_phases (capability_meta config raw id pin) in
  phases ≠ [] ∧ ∀ p, p ∈ phases → p ∈ valid_phases (raw_kind raw).
Proof.
  intros Hp. simpl. pose proof (merge_sort_Permutation phase_le (raw_allowed_phases raw)) as Hm. split.
  - apply dedup_not_nil. intros Hnil. rewrite Hnil in Hm. rewrite <- Hm in Hp.
    apply Permutation_nil in Hp. by destruct (raw_kind raw).
  - intros p Hin. apply elem_of_dedup in Hin. by rewrite Hm, Hp in Hin.
Qed.

Lemma security_admitted raw id :
  security_contract raw = true → raw_allowed_phases raw ≡ₚ valid_phases (raw_kind raw) →
  raw_timeout_ms (raw_limits raw) ≠ 0 → raw_max_output_bytes (raw_limits raw) ≠ 0 →
  request_timeout_ms config ≠ 0 → admitted (raw_kind raw) (capability_meta config raw id pin).
Proof.
  intros Hc Hp Ht Ho Hr. pose proof (capability_meta_phases raw id Hp) as Hphases.
  unfold security_contract in Hc. split; try done.
  - simpl. destruct (raw_kind raw); simpl in *; try apply andb_true_iff in Hc as [Hc _];
      by apply bool_decide_eq_true in Hc.
  - simpl. intros Hk. rewrite Hk in Hc. by apply andb_true_iff in Hc as [_ Hc].
  - simpl. intros Hk. rewrite Hk in Hc. by apply andb_true_iff in Hc as [_ Hc].
  - simpl. lia.
Qed.

Lemma validate_capability_Ok raw v :
  request_timeout_ms config ≠ 0 → validate_capability config raw pin = Ok v →
  source_id v = raw_id raw ∧ validated_operations v = raw_operations raw ∧
  JsonSchema_compile (raw_input_schema raw) = Ok (validated_input v) ∧
  raw_max_output_bytes (raw_limits raw) <= MAX_CAPABILITY_OUTPUT_BYTES ∧
  ∃ id, as_str id = "mcp/" +:+ server_id config +:+ "/" +:+ raw_id raw ∧
    validated_meta v = capability_meta config raw id pin ∧ admitted (raw_kind raw) (validated_meta v).
Proof.
  intros Hreq Hv. unfold validate_capability, from_manifest, compile_schema in Hv.
  apply result_bind_Ok in Hv as (source & Hs & Hv). apply map_err_Ok, string_id_new_str in Hs.
  apply result_bind_Ok in Hv as (id & Hid & Hv). apply map_err_Ok, string_id_new_str in Hid.
  apply reject_bind_Ok in Hv as [_ Hv]. apply reject_bind_Ok in Hv as [Hc Hv].
  apply reject_bind_Ok in Hv as [Hp Hv]. apply reject_bind_Ok in Hv as [Hl Hv].
  apply reject_bind_Ok in Hv as [_ Hv]. apply result_bind_Ok in Hv as (input & Hin & Hv). apply map_err_Ok in Hin.
  apply result_bind_Ok in Hv as (output & _ & [= <-]). simpl.
  apply reject_Ok, negb_false_iff in Hc. apply validate_phases_Ok in Hp. apply reject_Ok in Hl.
  rewrite !orb_false_iff, !Z.eqb_neq, Z.ltb_ge in Hl. destruct Hl as [[Ht Ho] Hmax].
  rewrite Hs in Hid. split_and!; [done|done|done|done|]. exists id. split_and!; [done|done|].
  by apply security_admitted.
Qed.

(** One entry of the manifest. *)
Lemma load_entry raw v c :
  request_timeout_ms config ≠ 0 → validate_capability config raw pin = Ok v →
  build_capability v tools = Ok c → loaded_from raw c.
Proof.
  intros Hreq Hv Hb. destruct (validate_capability_Ok raw v Hreq Hv) as (Hs & Hop & Hin & Hmax & id & Hid & Hmeta & Ha).
  destruct (build_capability_Ok v c Hb) as [Hcore Htools]. rewrite Hmeta, Hop in Htools.
  split; unfold loaded_meta; rewrite ?Hcore; simpl; rewrite ?Hmeta; try done.
  - by rewrite <- Hmeta.
  - simpl. lia.
Qed.

Definition kept (raw : RawCapability) : Prop := filtered_out config (raw_id raw) (raw_kind raw) = None.

Lemma load_all raws loaded skipped acc :
  request_timeout_ms config ≠ 0 →
  fold_result (load_capability config pin tools) (loaded, skipped) raws = Ok acc →
  ∃ added, acc.1 = loaded ++ added ∧ Forall2 loaded_from (base.filter kept raws) added.
Proof.
  intros Hreq. revert loaded skipped. induction raws as [|raw raws IH]; intros loaded skipped Hf; simpl in Hf.
  { injection Hf as <-. exists []. rewrite app_nil_r. split; [done|constructor]. }
  unfold load_capability at 1 in Hf.
  destruct (validate_capability config raw pin) as [v|] eqn:Hv; [|done]. simpl in Hf.
  destruct (build_capability v tools) as [c|] eqn:Hb; [|done]. simpl in Hf.
  pose proof (load_entry raw v c Hreq Hv Hb) as Hc.
  destruct (validate_capability_Ok raw v Hreq Hv) as (Hs & _ & _ & _ & id & _ & Hmeta & _).
  rewrite Hs, Hmeta in Hf. simpl in Hf. rewrite filter_cons. destruct (decide (kept raw)) as [Hk|Hk].
  - rewrite Hk in Hf. destruct (IH _ _ Hf) as (added & Ha & Hall). exists (c :: added).
    rewrite Ha, <- app_assoc. split; [done|]. by constructor.
  - unfold kept in Hk. destruct (filtered_out config (raw_id raw) (raw_kind raw)) as [reason|]; [|done].
    destruct (IH _ _ Hf) as (added & Ha & Hall). by exists added.
Qed.

Lemma kept_spec raw : kept raw ↔
  (server_allowed config = [] ∨ raw_id raw ∈ server_allowed config) ∧
  (raw_kind raw = Mutation → allow_mutations config = true).
Proof.
  unfold kept, filtered_out.
  repeat case_bool_decide; simpl; destruct (allow_mutations config); simpl; naive_solver.
Qed.
End Loaded.

Lemma build_server_Ok
    `{JD : JsonData, !JsonNumbers, !Serialize Value, !Sha256, !Serialize RawManifest, !ObjectLaws}
    config manifest tools server :
  validate_process_config config = Ok tt →
  build_server config manifest tools = Ok server →
  provider_class (loaded_provider server) = Mcp ∧
  Forall2 (loaded_from config (loaded_provider server) tools)
    (base.filter (λ raw,
       (server_allowed config = [] ∨ raw_id raw ∈ server_allowed config) ∧
       (raw_kind raw = Mutation → allow_mutations config = true)) (raw_capabilities manifest))
    (loaded_capabilities server).
Proof.
  intros Hconfig Hb. assert (request_timeout_ms config ≠ 0) as Hreq.
  { unfold validate_process_config in Hconfig. do 4 apply reject_bind_Ok in Hconfig as [_ Hconfig].
    apply reject_bind_Ok in Hconfig as [Ht _]. apply reject_Ok, orb_false_iff in Ht as [Ht _]. by apply Z.eqb_neq. }
  unfold build_server, from_manifest in Hb. do 2 apply reject_bind_Ok in Hb as [_ Hb].
  do 4 (apply result_bind_Ok in Hb as (? & _ & Hb)). apply result_bind_Ok in Hb as (declared & _ & Hb).
  apply reject_bind_Ok in Hb as [_ Hb]. apply result_bind_Ok in Hb as (acc & Hacc & [= <-]). split; [done|].
  destruct (load_all config _ tools _ [] [] acc Hreq Hacc) as (added & Ha & Hall). simpl. rewrite Ha. simpl.
  erewrite list_filter_ext_in; [exact Hall|]. intros raw _. symmetry. apply kept_spec.
Qed.

(** C18. The capabilities a server loads are those of its manifest that the allowlist and the
    mutation switch let through, in the order of the manifest.  Each carries the pin of
    the MCP provider and an id in the namespace of the server, stays within the authority
    boundary of its kind (effect, phases, determinism, idempotency, role) and within the
    timeout of the configuration, and every operation of it is a discovered tool whose
    schemas are compiled. *)
Theorem loaded_capabilities_are_authorized
    `{JD : JsonData, !JsonNumbers, !Serialize Value, !Sha256, !Serialize RawManifest, !ObjectLaws}
    config manifest tools server :
  validate_process_config config = Ok tt →
  build_server config manifest tools = Ok server →
  provider_class (loaded_provider server) = Mcp ∧
  Forall2 (loaded_from config (loaded_provider server) tools)
    (base.filter (λ raw,
       (server_allowed config = [] ∨ raw_id raw ∈ server_allowed config) ∧
       (raw_kind raw = Mutation → allow_mutations config = true)) (raw_capabilities manifest))
    (loaded_capabilities server).
Proof. apply build_server_Ok. Qed.

(** ** Providers *)

(** [call_tool] returns a [Result]. *)
Class ToolCallerLaws `{J : Json} (W : Type) `{!ToolCaller W} : Prop :=
  call_tool_returns name arguments timeout limit (w : W) : (call_tool name arguments timeout limit w).1 ≠ Panic.

Section Providers.
Context {W : Type} `{JD : JsonData, !JsonNumbers, !Serialize Value, !Sha256, !ToolCaller W, !McpCodecs}.
Context `{!ObjectLaws, !ToolCallerLaws W}.

Record ready (t : OperationTool) : Prop := {
  ready_input : compiled (tool_input t);
  ready_output s : tool_output t = Some s → compiled s;
}.

Lemma resolved_ready tools name t : resolved tools name t → ready t.
Proof.
  intros [_ (d & _ & Hin & Hout)]. split; [by eapply compile_compiled|]. intros s Hs. rewrite Hs in Hout.
  destruct (discovered_output d); [|done]. by eapply compile_compiled.
Qed.

(** The call of a tool. *)
Definition asked (core : ProviderCore) (t : OperationTool) (arguments : Value) : M W McpAdapterError Value :=
  call_tool (tool_name t) arguments (timeout_ms (limits (core_meta core))) (max_output_bytes (limits (core_meta core))).

(** The arguments of a request, in the language of the tool. *)
Definition arguments_of {Request} `{!ToValue Request} (t : OperationTool) (request : Request) (v : Value) : Prop :=
  to_value request = Ok v ∧ accepts (tool_input t) v.

(** The world changed only by a call the schema of the tool accepts. *)
Definition only_asked {Request} `{!ToValue Request} core t (request : Request) (w w' : W) : Prop :=
  w' = w ∨ ∃ v, arguments_of t request v ∧ w' = (asked core t v w).2.

(** The tool was called once, with arguments its schema accepts, and answered [out] as
    its output schema says. *)
Definition answers {Request} `{!ToValue Request} core t (request : Request) (w : W) (out : Value) (w' : W) : Prop :=
  (∃ v, arguments_of t request v ∧ asked core t v w = (Ret out, w')) ∧ ∀ s, tool_output t = Some s → accepts s out.

Lemma answers_only_asked {Request} `{!ToValue Request} core t (request : Request) w out w' :
  answers core t request w out w' → only_asked core t request w w'.
Proof. intros [(v & Hv & Hcall) _]. right. exists v. by rewrite Hcall. Qed.

Lemma wp_invoke_value {Request} `{!ToValue Request} core t (request : Request) w :
  ready t →
  wp (invoke_value core t request) (answers core t request w) (λ _ w', only_asked core t request w w') w.
Proof.
  intros [Hin Hout]. unfold invoke_value, answers, arguments_of, only_asked.
  apply wp_bind, wp_lift; [intros v Hv; apply map_err_Ok in Hv|by left].
  apply wp_bind. apply wp_schema; [done| |by left]. intros Hacc.
  apply wp_bind. unfold wp at 1, with_error. fold (asked core t v). pose proof (call_tool_returns (tool_name t) v
    (timeout_ms (limits (core_meta core))) (max_output_bytes (limits (core_meta core))) w) as Hp.
  fold (asked core t v) in Hp. destruct (asked core t v w) as [[out|e|] w'] eqn:Hcall; simpl in *; [| |done].
  2:{ right. exists v. by rewrite Hcall. }
  apply wp_bind. destruct (tool_output t) as [s|] eqn:Hs.
  - apply wp_schema; [by apply Hout| |].
    + intros Ho. apply wp_ret. split; [eauto 10|]. by intros ? [= <-].
    + intros e _. right. exists v. by rewrite Hcall.
  - apply wp_ret, wp_ret. split; [eauto 10|done].
Qed.

Lemma wp_invoke {Request Response} `{!ToValue Request, !FromValue Response} core t (request : Request) w
    (Q : Response → W → Prop) (R : ProviderError → W → Prop) :
  ready t → (∀ out r w', answers core t request w out w' → from_value out = Ok r → Q r w') →
  (∀ e w', only_asked core t request w w' → R e w') →
  wp (invoke core t request) Q R w.
Proof.
  intros Ht HQ HR. unfold invoke. apply wp_bind. eapply wp_mono; [by apply wp_invoke_value| |done].
  intros out w' Ho. apply wp_lift.
  - intros r Hr%map_err_Ok. by eapply HQ.
  - intros e _. eapply HR, answers_only_asked, Ho.
Qed.

(** A state whose digest is that of its value. *)
Definition sealed_state (s : MutationState) : Prop := content_digest (state_value s) = Ok (state_digest s).

Lemma mutation_state_sealed raw s : mutation_state_of raw = Ok s → sealed_state s.
Proof. intros Hs. apply result_bind_Ok in Hs as (d & Hd & [= <-]). by apply map_err_Ok in Hd. Qed.

Lemma observed_sealed o s : observed_state o = Ok (Some s) → sealed_state s.
Proof.
  destruct o as [raw|]; [|done]. intros Hs. apply result_bind_Ok in Hs as (s' & Hs & [= ->]).
  by eapply mutation_state_sealed.
Qed.

Lemma same_operation_Ok what s expected id :
  same_operation what s expected = Ok id → id = expected ∧ as_str expected = s.
Proof.
  intros Hs. apply result_bind_Ok in Hs as (id' & Hid & Hs). apply reject_bind_Ok in Hs as [Hr [= <-]].
  apply reject_Ok, bool_decide_eq_false in Hr. apply dec_stable in Hr. split; [done|]. rewrite <- Hr.
  apply map_err_Ok in Hid. by apply string_id_new_str in Hid.
Qed.

(** The receipt, and the status, of operation [id] that a response gives. *)
Definition receipt_of (id : OperationId) (raw : WireMutationReceipt) (r : MutationReceipt) : Prop :=
  receipt_operation_id r = id ∧ as_str id = wire_operation_id raw ∧ receipt_state r = wire_state raw
  ∧ ∀ s, receipt_observed r = Some s → sealed_state s.
Definition status_of (id : OperationId) (raw : WireMutationStatus) (st : MutationStatus) : Prop :=
  status_operation_id st = id ∧ as_str id = wire_status_id raw ∧ status_state st = wire_status_state raw
  ∧ ∀ s, status_observed st = Some s → sealed_state s.

Lemma into_receipt_of raw id r : into_receipt raw id = Ok r → receipt_of id raw r.
Proof.
  intros Hr. apply result_bind_Ok in Hr as (id' & Hid & Hr). apply result_bind_Ok in Hr as (o & Ho & [= <-]).
  apply same_operation_Ok in Hid as [-> Hid]. split_and!; [done..|]. simpl. intros s ->. by eapply observed_sealed.
Qed.

Lemma into_status_of raw id st : into_status raw id = Ok st → status_of id raw st.
Proof.
  intros Hr. apply result_bind_Ok in Hr as (id' & Hid & Hr). apply result_bind_Ok in Hr as (o & Ho & [= <-]).
  apply same_operation_Ok in Hid as [-> Hid]. split_and!; [done..|]. simpl. intros s ->. by eapply observed_sealed.
Qed.

(** [m] does not panic; it returns only what [P] says of a response decoded from the
    answer of [t], which was called once, with arguments its schema accepts; and when it
    fails the world changed at most by such a call. *)
Definition remote {A Request} `{!ToValue Request} core t (request : Request) (P : Value → A → Prop)
    (m : M W ProviderError A) : Prop :=
  ∀ w, wp m (λ a w', ∃ out, answers core t request w out w' ∧ P out a) (λ _ w', only_asked core t request w w') w.

(** [P] of a response that was decoded. *)
Definition from_answer {Response A} `{!FromValue Response} (P : Response → A → Prop) (out : Value) (a : A) : Prop :=
  ∃ raw, from_value out = Ok raw ∧ P raw a.

Lemma remote_decoded {A Request Response} `{!ToValue Request, !FromValue Response} core t (request : Request)
    (P : Response → A → Prop) (decode : Response → result ProviderError A) :
  ready t → (∀ raw a, decode raw = Ok a → P raw a) →
  remote core t request (from_answer P) (raw ← invoke core t request; lift (decode raw)).
Proof.
  intros Ht HP w. apply wp_bind. apply wp_invoke; [done| |done]. intros out raw w' Ho Hraw. apply wp_lift.
  - intros a Ha. exists out. split; [done|]. exists raw. split; [done|]. by apply HP.
  - intros e _. by eapply answers_only_asked.
Qed.

Section Driver.
Context (d : McpMutationDriver).
Abbreviation core := (mutation_core d).
Abbreviation tools := (mutation_tools d).
Abbreviation meta := (core_meta core).

(** A mutation the driver prepared from a response: its own, in its own namespace, with
    the states of the response, sealed. *)
Record contained (raw : WirePreparedMutation) (p : PreparedMutation) : Prop := {
  ct_capability : prepared_capability_id p = meta_id meta;
  ct_provider : prepared_provider p = provider meta;
  ct_resource : resource_str (prepared_resource p)
    = as_str (provider_id (provider meta)) +:+ "/" +:+ wire_resource raw;
  ct_baseline : state_value (baseline p) = wire_state_value (wire_baseline raw) ∧ sealed_state (baseline p);
  ct_desired : state_value (desired p) = wire_state_value (wire_desired raw) ∧ sealed_state (desired p);
}.

Lemma mutation_state_value raw s : mutation_state_of raw = Ok s → state_value s = wire_state_value raw.
Proof. intros Hs. by apply result_bind_Ok in Hs as (d' & _ & [= <-]). Qed.

Lemma prepare_contained request w :
  compiled (capability_input core) → ready (prepare_tool tools) →
  wp (mcp_prepare d request)
    (λ p w', accepts (capability_input core) (prepare_arguments request)
       ∧ ∃ out, answers core (prepare_tool tools) request w out w' ∧ from_answer contained out p)
    (λ _ w', only_asked core (prepare_tool tools) request w w'
       ∧ (¬ accepts (capability_input core) (prepare_arguments request) → w' = w)) w.
Proof.
  intros Hc Ht. unfold mcp_prepare. apply wp_bind. apply wp_schema; [done| |by split; [left|] ]. intros Hacc.
  apply wp_bind. apply wp_invoke; [done| |by split]. intros out raw w' Ho Hraw.
  assert (∀ e : ProviderError, only_asked core (prepare_tool tools) request w w'
    ∧ (¬ accepts (capability_input core) (prepare_arguments request) → w' = w)) as Herr.
  { intros e. split; [by eapply answers_only_asked|done]. }
  apply wp_bind, wp_lift; [intros remote Hrem|intros; by apply Herr].
  apply wp_bind, wp_lift; [intros resource Hres|intros; by apply Herr].
  apply wp_bind, wp_lift; [intros b Hb|intros; by apply Herr].
  apply wp_bind, wp_lift; [intros de Hde|intros; by apply Herr].
  apply wp_ret. split; [done|]. exists out. split; [done|]. exists raw. split; [done|].
  apply map_err_Ok, reject_bind_Ok in Hrem as [_ [= <-]]. apply map_err_Ok, reject_bind_Ok in Hres as [_ [= <-]].
  split; [done|done|done|..]; (split; [by apply mutation_state_value|by eapply mutation_state_sealed]).
Qed.

(** What a verification tells of the response. *)
Definition verified (raw : WireMutationVerification) (v : MutationVerification) : Prop :=
  matched v = wire_matched raw ∧ ∀ s, verification_observed v = Some s → sealed_state s.

Lemma verify_remote request : ready (verify_tool tools) →
  remote core (verify_tool tools) request (from_answer verified) (mcp_verify d request).
Proof.
  intros Ht w. unfold mcp_verify. apply wp_bind. apply wp_invoke; [done| |done]. intros out raw w' Ho Hraw.
  apply wp_bind, wp_lift; [intros o Hobs|intros; by eapply answers_only_asked]. apply wp_ret.
  exists out. split; [done|]. exists raw. split; [done|]. split; [done|]. simpl. intros s ->. by eapply observed_sealed.
Qed.
End Driver.
End Providers.

(** C17. A mutation driver that [build_server] loaded never panics, and is contained.  It
    prepares only arguments the schema of the capability accepts (other ones reach no
    tool), as a mutation of its own capability and provider, on the resource of the
    answer below the id of the provider, with the states of the answer under their own
    digests; a receipt or a status is that of the operation that was asked for and says
    what the answer says, and so does a verification.  Each operation, [prepare] included,
    calls at most one tool, the one declared for it, once, with arguments its input
    schema accepts; it succeeds only if that call was made and its answer fits the
    declared output schema. *)
Theorem remote_mutations_are_contained
    {W} `{JD : JsonData, !JsonNumbers, !Serialize Value, !Sha256, !Serialize RawManifest, !ToolCaller W,
      !McpCodecs, !ObjectLaws, !ToolCallerLaws W} config manifest tools server d :
  validate_process_config config = Ok tt → build_server config manifest tools = Ok server →
  LoadedMutation d ∈ loaded_capabilities server →
  let core := mutation_core d in
  let t := mutation_tools d in
  (∀ request (w : W), wp (mcp_prepare d request)
     (λ p w', accepts (capability_input core) (prepare_arguments request)
        ∧ ∃ out, answers core (prepare_tool t) request w out w' ∧ from_answer (contained d) out p)
     (λ _ w', only_asked core (prepare_tool t) request w w'
        ∧ (¬ accepts (capability_input core) (prepare_arguments request) → w' = w)) w) ∧
  (∀ request, remote core (apply_tool t) request
     (from_answer (receipt_of (apply_operation_id request))) (mcp_apply d request)) ∧
  (∀ request, remote core (restore_tool t) request
     (from_answer (receipt_of (restore_operation_id request))) (mcp_restore d request)) ∧
  (∀ request, remote core (finalize_tool t) request
     (from_answer (receipt_of (finalize_operation_id request))) (mcp_finalize d request)) ∧
  (∀ query, remote core (status_tool t) query
     (from_answer (status_of (query_operation_id query))) (mcp_status d query)) ∧
  (∀ request, remote core (verify_tool t) request (from_answer verified) (mcp_verify d request)).
Proof.
  intros Hc Hb Hd. destruct (build_server_Ok config manifest tools server Hc Hb) as [_ Hall].
  apply list_elem_of_lookup in Hd as [i Hi]. destruct (Forall2_lookup_r _ _ _ _ _ Hall Hi) as (raw & _ & Hraw).
  destruct (compile_compiled _ _ (lf_input _ _ _ _ _ Hraw)) as [Hin _].
  pose proof (lf_tools _ _ _ _ _ Hraw) as Ht. simpl in *.
  assert (Forall ready (loaded_tools (LoadedMutation d))) as Hready.
  { apply Forall_forall. intros t Hin'. apply list_elem_of_lookup in Hin' as [j Hj].
    destruct (Forall2_lookup_r _ _ _ _ _ Ht Hj) as (op & _ & name & _ & Hr). by eapply resolved_ready. }
  simpl in Hready. rewrite !Forall_cons in Hready. destruct Hready as (Hp & Ha & Hs & Hv & Hr & Hf & _).
  split_and!; intros.
  - by apply prepare_contained.
  - apply remote_decoded; [done|]. intros. by eapply into_receipt_of.
  - apply remote_decoded; [done|]. intros. by eapply into_receipt_of.
  - apply remote_decoded; [done|]. intros. by eapply into_receipt_of.
  - apply remote_decoded; [done|]. intros. by eapply into_status_of.
  - by apply verify_remote.
Qed.
