(* ===== verification/McpWitnesses.v ===== *)
(** * An MCP server

    A schema, a server with a probe and a mutation, a stream of frames cut into reads,
    and one request on the connection: the theorems of the MCP adapter on them. *)

From S2P Require Import McpSafety McpRequests EvalScenario LinuxWitnesses.

Open Scope Z_scope.

(** ** JSON numbers and objects *)

(** The integer a number without a fraction is. *)
Definition float_integer (x : spec_float) : option Z :=
  match x with
  | S754_zero _ => Some 0
  | S754_finite s m e =>
    if is_integral x then
      let n := if 0 <=? e then Z.pos m * 2 ^ e else Z.pos m / 2 ^ (- e) in Some (if s then - n else n)
    else None
  | _ => None
  end.
Definition json_integer_of (v : json) : option Z :=
  match v with JNumber x => float_integer x | _ => None end.

#[export] Instance json_JsonNumbers : JsonNumbers (J := json_Json) := {
  as_u64 v := n ← json_integer_of v; if 0 <=? n then Some n else None;
  as_i64 := json_integer_of;
  is_number v := match v with JNumber _ => true | _ => false end;
  value_eq v w := bool_decide (v = w);
}.

#[export] Instance json_ObjectLaws : ObjectLaws (JD := json_JsonData).
Proof.
  split; [|by intros []]. intros k v x. simpl. unfold json_lookup. destruct (json_keys v) as [ks|] eqn:Hks; [|done].
  simpl. intros Hx. exists ks. split; [done|]. revert ks Hks Hx.
  induction v as [| | | | | | | |k' v _ rest IH]; simpl; intros ks Hks Hx; try done.
  destruct (json_keys rest) as [ks'|]; [|done]. injection Hks as <-.
  case_bool_decide as Hk; [subst; by left|]. right. by apply IH.
Qed.

(** ** A schema *)

Definition object_schema (properties : list (string * Value)) : Value :=
  json_of_fields [("type", JString "object"); ("additionalProperties", JBool false);
    ("properties", json_of_fields properties)].
Definition mode_schema : Value := object_schema
  [("mode", json_of_fields [("enum", json_of_list [JString "latency"; JString "throughput"])]);
   ("values", json_of_fields [("type", JString "array"); ("uniqueItems", JBool true);
      ("items", json_of_fields [("type", JString "integer"); ("minimum", json_integer 0)])])].

Definition mode_instance (values : list Value) : Value :=
  json_of_fields [("mode", JString "latency"); ("values", json_of_list values)].

Example mode_accepted :
  JsonSchema_validate (MkJsonSchema mode_schema) (mode_instance [json_integer 1; json_integer 2]) = Ret tt.
Proof. vm_compute. reflexivity. Qed.
Example mode_duplicate :
  JsonSchema_validate (MkJsonSchema mode_schema) (mode_instance [json_integer 1; json_integer 1])
  = Throw "array at $/values contains duplicate items".
Proof. vm_compute. reflexivity. Qed.
Example mode_unknown : JsonSchema_compile (json_of_fields [("pattern", JString "x")])
  = Err "unsupported JSON Schema keyword 'pattern' at $".
Proof. vm_compute. reflexivity. Qed.

Lemma compiled_schemas_decide_conformance_witness :
  ∃ schema, JsonSchema_compile mode_schema = Ok schema ∧
  ∃ r, JsonSchema_validate schema (mode_instance [json_integer 1]) = of_result r ∧
    (r = Ok tt ↔ conforms 65 mode_schema (mode_instance [json_integer 1])).
Proof.
  exists (MkJsonSchema mode_schema). split; [vm_compute; reflexivity|].
  apply compiled_schemas_decide_conformance; [vm_compute; reflexivity|exact (le_n 65)].
Defined.

(** ** Frames *)

Definition note : Value := json_of_fields [("jsonrpc", JString "2.0")].
Definition reply : Value :=
  json_of_fields [("jsonrpc", JString "2.0"); ("id", json_integer 1); ("result", JString "done")].
(** The payloads the parser knows. *)
Definition parse_payload (s : string) : result string Value :=
  if bool_decide (s = "note") then Ok note else if bool_decide (s = "reply") then Ok reply else Err "unexpected".

Definition nl : string := String newline "".

Lemma frames_survive_any_chunking_witness :
  read_responses parse_payload 3 (MkBufRead "" (Ok <$> ["no"; "te" +:+ nl +:+ "rep"; "ly"; nl]))
  = [Ignored; Deliver 1 (Ok (JString "done" : Value))] ++ [Failed (mcp_io_error "MCP server closed stdout")].
Proof.
  apply (frames_survive_any_chunking parse_payload ["note"; "reply"] ["note" +:+ nl; "reply" +:+ nl]).
  - repeat constructor; try (vm_compute; reflexivity); vm_compute; discriminate.
  - repeat constructor; vm_compute; reflexivity.
  - repeat constructor; discriminate.
  - vm_compute. reflexivity.
  - simpl. lia.
Defined.

(** ** A request *)

Definition calls (k : nat) : string * Value * Z := ("tools/list", json_object [], 1000).
Definition answered_client : Client := MkClient true 2 ∅ {[0%nat := Ok (JString "done")]}
  {[0%nat := Done (Ok (JString "done"))]} Stopped {[0%nat := 1]} [(1, Ok (JString "done"))].
Definition gone : McpAdapterError := mcp_io_error "MCP server closed stdout".

Lemma request_answered :
  reached calls [Deliver 1 (Ok (JString "done")); Failed gone] answered_client.
Proof.
  unfold reached, client_reaches.
  eapply rtc_l; [eapply (step_number _ _ 0%nat ""); vm_compute; reflexivity|].
  eapply rtc_l; [eapply (step_register _ _ 0%nat); vm_compute; reflexivity|].
  eapply rtc_l; [eapply (step_recheck _ _ 0%nat ""); vm_compute; reflexivity|].
  eapply rtc_l; [eapply (step_write _ _ 0%nat); vm_compute; reflexivity|].
  eapply rtc_l; [eapply step_deliver; vm_compute; reflexivity|].
  eapply rtc_l; [eapply (step_receive _ _ 0%nat); vm_compute; reflexivity|].
  eapply rtc_l; [eapply step_close; vm_compute; reflexivity|].
  eapply rtc_l; [eapply step_drain; vm_compute; reflexivity|].
  eapply rtc_once. eapply (step_stop calls). vm_compute. reflexivity.
Qed.

Lemma replies_reach_their_requests_witness :
  stages answered_client !! 0%nat = Some (Done (Ok (JString "done" : Value))) ∧
  ∃ id, ids answered_client !! 0%nat = Some id ∧ (id, Ok (JString "done" : Value)) ∈ delivered answered_client ∧
    ∀ k', ids answered_client !! k' = Some id → k' = 0%nat.
Proof.
  split; [vm_compute; reflexivity|].
  apply (replies_reach_their_requests calls _ answered_client 0 request_answered); vm_compute; reflexivity.
Defined.

(** ** A server *)

#[export] Instance manifest_Serialize : Serialize RawManifest := λ m,
  Ok (raw_provider_id (raw_provider m) +:+ foldr (λ c s, raw_id c +:+ "," +:+ s) "" (raw_capabilities m)).

Definition any_object : Value := json_of_fields [("type", JString "object")].
Definition no_operations : RawOperations :=
  MkRawOperations None None None None None None None None None None None None.
Definition raw_probe : RawCapability :=
  MkRawCapability "observe" Probe ReadOnly "Reads the load." any_object any_object [Experimenting; Clean]
    (MkRawLimits 60000 4096) false true
    (MkRawOperations (Some "observe") None None None None None None None None None None None).
Definition raw_mutation : RawCapability :=
  MkRawCapability "weights" Mutation ReversibleMutation "Sets the weights." any_object any_object
    [Clean; Experimenting] (MkRawLimits 500 4096) false true
    (MkRawOperations None None None None None None (Some "prepare") (Some "apply") (Some "status")
       (Some "verify") (Some "restore") (Some "finalize")).
Definition manifest : RawManifest := MkRawManifest 1 (MkRawProvider "classes" "1.0") [raw_probe; raw_mutation].

Definition server_tools : gmap string DiscoveredTool :=
  list_to_map ((λ name, (name, MkDiscoveredTool any_object (Some any_object)))
    <$> ["observe"; "prepare"; "apply"; "status"; "verify"; "restore"; "finalize"]).

Definition server_config (mutations : bool) : McpServerConfig :=
  MkMcpServer "sched" true "/usr/bin/scx-mcp" [] ∅ 1000 [] mutations.

Definition built (mutations : bool) : result McpAdapterError LoadedMcpServer :=
  build_server (server_config mutations) manifest server_tools.
Definition server_of (r : result McpAdapterError LoadedMcpServer) : LoadedMcpServer :=
  match r with Ok s => s | Err _ => MkLoadedServer "" (MkProviderPin (StringId "") (StringId "") Mcp (StringId "")) [] [] end.

Lemma config_valid mutations : validate_process_config (server_config mutations) = Ok tt.
Proof. destruct mutations; vm_compute; reflexivity. Qed.
Lemma built_Ok mutations : built mutations = Ok (server_of (built mutations)).
Proof. destruct mutations; vm_compute; reflexivity. Qed.

Example mutation_disabled : skipped_capabilities (server_of (built false)) =
  [MkSkipped "mcp/sched/weights" "MCP mutations are disabled for this server"].
Proof. vm_compute. reflexivity. Qed.

Lemma loaded_capabilities_are_authorized_witness :
  provider_class (loaded_provider (server_of (built false))) = Mcp ∧
  Forall2 (loaded_from (server_config false) (loaded_provider (server_of (built false))) server_tools)
    (base.filter (λ raw,
       (server_allowed (server_config false) = [] ∨ raw_id raw ∈ server_allowed (server_config false)) ∧
       (raw_kind raw = Mutation → allow_mutations (server_config false) = true)) (raw_capabilities manifest))
    (loaded_capabilities (server_of (built false))).
Proof. exact (loaded_capabilities_are_authorized _ _ _ _ (config_valid false) (built_Ok false)). Defined.

(** ** Its tools *)

(** Requests are encoded as objects of their operation; the responses are read from a
    [resource], an [operation] and a [state]. *)
Definition text_field (k : string) (v : Value) : result string string := ok_or ("missing " +:+ k) (get_string k v).
Definition of_operation (id : OperationId) : result string Value := Ok (json_of_fields [("operation", JString (as_str id))]).

#[export] Instance mcp_codecs : McpCodecs := {
  encode_ProbeRequest r := Ok (probe_arguments r);
  encode_MeasurementOpenRequest r := Ok (open_specification r);
  encode_MeasurementSampleRequest r := Ok (JString (as_str (session_id (sample_session r))));
  encode_MeasurementSession s := Ok (JString (as_str (session_id s)));
  encode_ComparisonRequest r := Ok (comparison_specification r);
  encode_ValidateSpecificationRequest r := Ok (specification r);
  encode_MutationPrepareRequest r := Ok (prepare_arguments r);
  encode_MutationApplyRequest r := of_operation (apply_operation_id r);
  encode_MutationQuery r := of_operation (query_operation_id r);
  encode_MutationVerifyRequest r := of_operation (verify_operation_id r);
  encode_MutationRestoreRequest r := of_operation (restore_operation_id r);
  encode_MutationFinalizeRequest r := of_operation (finalize_operation_id r);
  decode_WireProbeEvidence v := Ok (MkWireProbeEvidence 0 v []);
  decode_WireMeasurementSession v := id ← text_field "session" v; Ok (MkWireSession id v);
  decode_WireCleanupReceipt v := id ← text_field "session" v; Ok (MkWireCleanup id true v);
  decode_WireMetricBatch v := Ok (MkWireBatch 0 0 Valid None ∅ v);
  decode_WireComparisonEvidence v := Ok (MkWireComparison Inconclusive [] v);
  decode_ValidateSpecificationResponse v := Ok (MkValidateResponse true None);
  decode_WirePreparedMutation v :=
    r ← text_field "resource" v; Ok (MkWirePrepared r (MkWireState JNull) (MkWireState v) JNull);
  decode_WireMutationReceipt v := id ← text_field "operation" v; Ok (MkWireReceipt id Applied None JNull);
  decode_WireMutationStatus v := id ← text_field "operation" v; Ok (MkWireStatus id Applied None JNull);
  decode_WireMutationVerification v := Ok (MkWireVerification true None v);
}.

(** A server that answers a request with its arguments and keeps the names called. *)
#[export] Instance echo_ToolCaller : ToolCaller (list string) := λ name arguments _ _ called,
  (Ret arguments, called ++ [name]).
#[export] Instance echo_laws : ToolCallerLaws (list string).
Proof. by intros name arguments timeout limit w. Qed.

Definition mutation_driver : McpMutationDriver :=
  match loaded_capabilities (server_of (built true)) with
  | [_; LoadedMutation d] => d
  | _ => MkMcpMutation (MkProviderCore (capability_meta (server_config true) raw_mutation (StringId "")
      (loaded_provider (server_of (built true)))) (MkJsonSchema any_object))
      (let t := MkOperationTool "" (MkJsonSchema any_object) None in MkMutationTools t t t t t t)
  end.
Lemma driver_loaded : LoadedMutation mutation_driver ∈ loaded_capabilities (server_of (built true)).
Proof.
  assert (∃ c, loaded_capabilities (server_of (built true)) = [c; LoadedMutation mutation_driver]) as [c ->].
  { eexists. vm_compute. reflexivity. }
  right. by left.
Qed.

(** A prepared change of the weights: its resource is below the provider's id. *)
Definition prepare_weights : MutationPrepareRequest :=
  MkPrepareRequest (MkInvocationContext 1 (StringId "op-1")) (json_of_fields [("resource", JString "class/0")]).
Example prepared_resource_confined :
  match mcp_prepare (W := list string) mutation_driver prepare_weights [] with
  | (Ret p, called) => resource_str (prepared_resource p) = "mcp/sched/classes/class/0" ∧ called = ["prepare"]
  | _ => False
  end.
Proof. vm_compute. split; reflexivity. Qed.

Lemma remote_mutations_are_contained_witness :
  let core := mutation_core mutation_driver in
  let t := mutation_tools mutation_driver in
  LoadedMutation mutation_driver ∈ loaded_capabilities (server_of (built true)) ∧
  wp (mcp_prepare mutation_driver prepare_weights)
    (λ p w', accepts (capability_input core) (prepare_arguments prepare_weights)
       ∧ ∃ out, answers core (prepare_tool t) prepare_weights [] out w' ∧ from_answer (contained mutation_driver) out p)
    (λ _ w', only_asked core (prepare_tool t) prepare_weights [] w'
       ∧ (¬ accepts (capability_input core) (prepare_arguments prepare_weights) → w' = [])) ([] : list string).
Proof.
  split; [exact driver_loaded|].
  exact (proj1 (remote_mutations_are_contained (W := list string) (server_config true) manifest server_tools
    (server_of (built true)) mutation_driver (config_valid true) (built_Ok true) driver_loaded) prepare_weights []).
Defined.
