(* ===== verification/ControlWire.v ===== *)
(** * The control protocol of the scheduler ([scx_agent_classed/control-api])

    The messages between the scheduler and its MCP server: process names
    ([comm]), rule states, requests with their validation, and responses. *)

From S2P Require Export Paths Values.

Local Open Scope nat_scope.

Definition CONTROL_VERSION : Z := 1.
Definition MAX_COMM_BYTES : nat := 15.
Definition MAX_REQUEST_ID_BYTES : nat := 256.
Definition MAX_SNAPSHOT_COMMS : nat := 128.
Definition MAX_CONTROL_FRAME_BYTES : Z := 64 * 1024.

Definition nul : ascii := "000"%char.

Definition validate_comm (comm : string) : result string unit :=
  _ ← reject (bool_decide (comm = "")) "comm must not be empty";
  _ ← reject (PeanoNat.Nat.ltb MAX_COMM_BYTES (String.length comm))
        ("comm '" +:+ comm +:+ "' is " +:+ show (Z.of_nat (String.length comm))
           +:+ " bytes; Linux comm supports at most " +:+ show (Z.of_nat MAX_COMM_BYTES));
  _ ← reject (contains_char nul comm) "comm must not contain a NUL byte";
  reject (existsb is_control (chars comm)) "comm must not contain control characters".

(** ** The messages *)

Module control_wire.

Inductive RuleClass := Latency | Batch.
#[export] Instance RuleClass_eq_dec : EqDecision RuleClass.
Proof. solve_decision. Defined.

Record RuleState := MkRuleState { present : bool; class : option RuleClass }.
#[export] Instance RuleState_eq_dec : EqDecision RuleState.
Proof. solve_decision. Defined.

Definition state_absent : RuleState := MkRuleState false None.
Definition state_present (class : RuleClass) : RuleState := MkRuleState true (Some class).
Definition is_valid (s : RuleState) : bool := eqb (present s) (bool_decide (is_Some (class s))).

Inductive ControlOp := GetRule | Snapshot | CompareAndSetRule.
#[export] Instance ControlOp_eq_dec : EqDecision ControlOp.
Proof. solve_decision. Defined.

Record ControlRequest := MkControlRequest {
  cq_version : Z;
  cq_request_id : string;
  cq_op : ControlOp;
  cq_comm : option string;
  cq_comms : option (list string);
  cq_expected : option RuleState;
  cq_desired : option RuleState;
}.
#[export] Instance ControlRequest_eq_dec : EqDecision ControlRequest.
Proof. solve_decision. Defined.

Definition some_and {A} (p : A → bool) (o : option A) : bool :=
  match o with Some a => p a | None => false end.
Definition is_none {A} (o : option A) : bool := match o with Some _ => false | None => true end.

(** The fields an operation takes. *)
Definition fields_match (q : ControlRequest) : bool :=
  match cq_op q with
  | GetRule =>
    some_and (λ comm, is_ok (validate_comm comm)) (cq_comm q)
    && is_none (cq_comms q) && is_none (cq_expected q) && is_none (cq_desired q)
  | Snapshot =>
    is_none (cq_comm q)
    && some_and (λ comms, negb (bool_decide (comms = []))
          && (length comms <=? MAX_SNAPSHOT_COMMS)%nat
          && forallb (λ comm, is_ok (validate_comm comm)) comms) (cq_comms q)
    && is_none (cq_expected q) && is_none (cq_desired q)
  | CompareAndSetRule =>
    some_and (λ comm, is_ok (validate_comm comm)) (cq_comm q)
    && is_none (cq_comms q) && some_and is_valid (cq_expected q) && some_and is_valid (cq_desired q)
  end.

Definition request_validate (q : ControlRequest) : result string unit :=
  _ ← reject (negb (Z.eqb (cq_version q) CONTROL_VERSION))
        ("unsupported control version " +:+ show (cq_version q) +:+ "; expected " +:+ show CONTROL_VERSION);
  _ ← reject (bool_decide (cq_request_id q = "")
              || (MAX_REQUEST_ID_BYTES <? String.length (cq_request_id q))%nat
              || existsb is_control (chars (cq_request_id q))) "invalid control request_id";
  reject (negb (fields_match q)) "control request fields do not match operation".

Inductive ControlStatus := StatusOk | StatusApplied | StatusNoop | StatusConflict | StatusError.
#[export] Instance ControlStatus_eq_dec : EqDecision ControlStatus.
Proof. solve_decision. Defined.

Inductive RuleSource := FromBase | FromLearned | FromDefault.
#[export] Instance RuleSource_eq_dec : EqDecision RuleSource.
Proof. solve_decision. Defined.

Record RuleObservation := MkRuleObservation {
  ro_comm : string;
  ro_class : RuleClass;
  ro_source : RuleSource;
  ro_active_class : option RuleClass;
  ro_persisted_class : option RuleClass;
  ro_consistent : bool;
}.
#[export] Instance RuleObservation_eq_dec : EqDecision RuleObservation.
Proof. solve_decision. Defined.

Record ControlStats := MkControlStats { cs_task_state_errors : Z; cs_rule_refresh_deferred : Z }.
#[export] Instance ControlStats_eq_dec : EqDecision ControlStats.
Proof. solve_decision. Defined.

Record ControlResponse := MkControlResponse {
  cp_version : Z;
  cp_request_id : string;
  cp_status : ControlStatus;
  cp_current : option RuleState;
  cp_rules : list RuleObservation;
  cp_revision : Z;
  cp_rules_seq : Z;
  cp_effective_digest : string;
  cp_stats : option ControlStats;
  cp_workload_fingerprint : option string;
  cp_message : option string;
}.
#[export] Instance ControlResponse_eq_dec : EqDecision ControlResponse.
Proof. solve_decision. Defined.

Lemma is_valid_spec s : is_valid s = true ↔ s = state_absent ∨ ∃ c, s = state_present c.
Proof.
  destruct s as [[] [c|]]; vm_compute; split; try done; eauto.
  all: intros [|[? ?]]; congruence.
Qed.

End control_wire.

(** What the validation of a process name guarantees. *)
Record valid_comm (comm : string) : Prop := {
  vc_nonempty : comm ≠ "";
  vc_length : String.length comm ≤ MAX_COMM_BYTES;
  vc_no_nul : contains_char nul comm = false;
  vc_printable : existsb is_control (chars comm) = false;
}.

Lemma validate_comm_Ok comm : validate_comm comm = Ok tt ↔ valid_comm comm.
Proof.
  unfold validate_comm. rewrite !reject_bind_Ok, !reject_Ok, bool_decide_eq_false, PeanoNat.Nat.ltb_ge.
  split; [intros (? & ? & ? & ?); by split|intros []; auto].
Qed.

Lemma is_ok_validate_comm comm : is_ok (validate_comm comm) = true ↔ valid_comm comm.
Proof. rewrite <- validate_comm_Ok. by destruct (validate_comm comm) as [[]|]. Qed.
