(* ===== verification/Rules.v ===== *)
(** * Scheduling rules ([scx_agent_classed/src/rules/mod.rs], [policy.rs])

    A rule gives a process name a class.  The base rules come from the command
    line and are read-only, the learned ones from the rule store; a snapshot keeps
    both with their union, which is what the BPF program runs.

    The second part shows that the keys of the BPF map and the digest of the rules
    determine what they are made from. *)

From S2P Require Export ControlWire.

Local Open Scope nat_scope.

Definition RULES_SCHEMA_VERSION : Z := 1.
Definition COMM_KEY_LEN : nat := 16.
Definition MAX_RULES : nat := 1024.

Definition ctx {A} (message : string) (r : result string A) : result string A :=
  map_err (λ error, message +:+ ": " +:+ error) r.

(** ** Process names *)

Record Comm := MkComm { comm_text : string }.
#[export] Instance Comm_eq_dec : EqDecision Comm.
Proof. solve_decision. Defined.
#[export] Instance Comm_countable : Countable Comm.
Proof. apply (inj_countable' comm_text MkComm). by intros []. Defined.

Definition Comm_new (value : string) : result string Comm :=
  _ ← validate_comm value; Ok (MkComm value).

(** The invariant of the private field: a [Comm] is made by [Comm_new] from a
    Rust string. *)
Definition comm_ok (c : Comm) : Prop := valid_comm (comm_text c) ∧ is_utf8 (comm_text c) = true.

(** [s.len() <= n], padded with zero bytes. *)
Fixpoint nuls (n : nat) : string := match n with 0 => "" | S n => String nul (nuls n) end.
Definition as_bpf_key (c : Comm) : string :=
  comm_text c +:+ nuls (COMM_KEY_LEN - String.length (comm_text c)).

(** [key.iter().position(|byte| *byte == 0)] and the slice before it. *)
Fixpoint before_nul (s : string) : string :=
  match s with
  | EmptyString => ""
  | String a s => if Ascii.eqb a nul then "" else String a (before_nul s)
  end.

Definition comm_from_key (key : string) : result string Comm :=
  _ ← reject (negb (String.length key =? COMM_KEY_LEN))
        ("rule key has " +:+ show (Z.of_nat (String.length key)) +:+ " bytes, expected "
           +:+ show (Z.of_nat COMM_KEY_LEN));
  let visible := before_nul key in
  _ ← match utf8_error 0 visible with
      | None => Ok tt
      | Some e => Err ("comm is not valid UTF-8: " +:+ Utf8Error_display e)
      end;
  Comm_new visible.

(** ** Classes *)

Inductive RuleClass := Latency | Batch.
#[export] Instance RuleClass_eq_dec : EqDecision RuleClass.
Proof. solve_decision. Defined.

Definition as_bpf_id (c : RuleClass) : Z := match c with Latency => 0 | Batch => 1 end.
Definition class_display (c : RuleClass) : string :=
  match c with Latency => "latency" | Batch => "batch" end.

(** [str::trim] and [str::to_ascii_lowercase]. *)
Fixpoint skip_whitespace (l : list (N * string)) : list (N * string) :=
  match l with
  | [] => []
  | (c, bytes) :: rest => if is_whitespace c then skip_whitespace rest else l
  end.
Definition str_trim (s : string) : string :=
  foldr (λ p t, p.2 +:+ t) ""
    (reverse (skip_whitespace (reverse (skip_whitespace (chars_with_bytes s))))).
Definition ascii_lowercase (a : ascii) : ascii :=
  if byte_in 65 90 a then ascii_of_N (N_of_ascii a + 32) else a.
Definition to_ascii_lowercase (s : string) : string :=
  String.string_of_list_ascii (ascii_lowercase <$> String.list_ascii_of_string s).

Definition class_try_from (value : string) : result string RuleClass :=
  let text := to_ascii_lowercase (str_trim value) in
  if bool_decide (text = "latency") then Ok Latency
  else if bool_decide (text = "batch") then Ok Batch
  else Err ("unknown workload class '" +:+ text +:+ "', expected latency or batch").

Definition class_to_wire (c : RuleClass) : control_wire.RuleClass :=
  match c with Latency => control_wire.Latency | Batch => control_wire.Batch end.
Definition class_from_wire (c : control_wire.RuleClass) : RuleClass :=
  match c with control_wire.Latency => Latency | control_wire.Batch => Batch end.

(** ** States *)

Inductive RuleState := Absent | Present (class : RuleClass).
#[export] Instance RuleState_eq_dec : EqDecision RuleState.
Proof. solve_decision. Defined.

Definition state_from_option (class : option RuleClass) : RuleState :=
  match class with Some class => Present class | None => Absent end.
Definition state_class (s : RuleState) : option RuleClass :=
  match s with Absent => None | Present class => Some class end.

Definition state_to_wire (s : RuleState) : control_wire.RuleState :=
  match s with
  | Absent => control_wire.state_absent
  | Present class => control_wire.state_present (class_to_wire class)
  end.
Definition state_try_from (s : control_wire.RuleState) : result string RuleState :=
  match control_wire.present s, control_wire.class s with
  | false, None => Ok Absent
  | true, Some class => Ok (Present (class_from_wire class))
  | true, None => Err "class is required when present is true"
  | false, Some _ => Err "class must be omitted when present is false"
  end.

(** ** Tables *)

Abbreviation RuleTable := (gmap Comm RuleClass).

(** The table in the order of its keys, as [BTreeMap] walks it. *)
Definition table_in_order (t : RuleTable) : list (Comm * RuleClass) :=
  sort_by (λ p q, String.leb (comm_text p.1) (comm_text q.1)) (map_to_list t).

Inductive RuleSource := Base | Learned.
#[export] Instance RuleSource_eq_dec : EqDecision RuleSource.
Proof. solve_decision. Defined.
Record EffectiveRule := MkEffectiveRule { er_class : RuleClass; er_source : RuleSource }.

Record RuleSnapshot := MkRuleSnapshot {
  revision : Z;
  base : RuleTable;
  learned : RuleTable;
  effective : RuleTable;
}.

Definition RuleSnapshot_new (base learned : RuleTable) (revision : Z) : result string RuleSnapshot :=
  _ ← fold_result (λ _ comm,
        reject (bool_decide (is_Some (base !! comm)))
          ("learned rule for comm '" +:+ comm_text comm +:+ "' conflicts with a read-only base rule"))
        tt (table_in_order learned).*1;
  let effective := base ∪ learned in
  _ ← reject (MAX_RULES <? size effective)
        ("effective rule table contains " +:+ show (Z.of_nat (size effective))
           +:+ " entries, maximum is " +:+ show (Z.of_nat MAX_RULES));
  Ok (MkRuleSnapshot revision base learned effective).

Definition learned_state (r : RuleSnapshot) (comm : Comm) : RuleState :=
  state_from_option (learned r !! comm).

(** [store::effective_rule]: a base rule wins. *)
Definition effective_rule_of (base learned : RuleTable) (comm : Comm) : option EffectiveRule :=
  match base !! comm with
  | Some class => Some (MkEffectiveRule class Base)
  | None => (λ class, MkEffectiveRule class Learned) <$> learned !! comm
  end.
Definition effective_rule (r : RuleSnapshot) (comm : Comm) : option EffectiveRule :=
  effective_rule_of (base r) (learned r) comm.

(** The digest of the effective rules in a control response. *)
Definition u32_to_le_bytes (n : Z) : string :=
  String (ascii_of_N (Z.to_N (Z.land n 255)))
    (String (ascii_of_N (Z.to_N (Z.land (Z.shiftr n 8) 255)))
      (String (ascii_of_N (Z.to_N (Z.land (Z.shiftr n 16) 255)))
        (String (ascii_of_N (Z.to_N (Z.land (Z.shiftr n 24) 255))) ""))).
Definition digest_input (rules : RuleTable) : string :=
  foldr (λ '(comm, class) rest, (as_bpf_key comm +:+ u32_to_le_bytes (as_bpf_id class)) +:+ rest) ""
    (table_in_order rules).
Definition effective_digest `{!Sha256} (rules : RuleTable) : string :=
  "sha256:" +:+ sha256_hex (digest_input rules).

Inductive CasStatus := Applied | Noop | Conflict.
#[export] Instance CasStatus_eq_dec : EqDecision CasStatus.
Proof. solve_decision. Defined.

Record CasResult := MkCasResult {
  cas_status : CasStatus;
  cas_comm : Comm;
  cas_previous : RuleState;
  cas_current : RuleState;
  cas_effective : RuleState;
  cas_revision : Z;
}.

(** ** The invariant of a snapshot *)

Record snapshot_ok (r : RuleSnapshot) : Prop := {
  so_disjoint : base r ##ₘ learned r;
  so_effective : effective r = base r ∪ learned r;
  so_bound : size (effective r) ≤ MAX_RULES;
}.

Lemma table_in_order_elem t c k : (c, k) ∈ table_in_order t ↔ t !! c = Some k.
Proof. unfold table_in_order. rewrite sort_by_perm. apply elem_of_map_to_list. Qed.

Lemma RuleSnapshot_new_Ok b l n r :
  RuleSnapshot_new b l n = Ok r ↔ r = MkRuleSnapshot n b l (b ∪ l) ∧ snapshot_ok r.
Proof.
  unfold RuleSnapshot_new. rewrite result_bind_Ok.
  match goal with |- (∃ u, fold_result ?f tt ?cs = Ok u ∧ _) ↔ _ =>
    assert ((∃ u, fold_result f tt cs = Ok u) ↔ b ##ₘ l) as Hd end.
  { transitivity (Forall (λ c, bool_decide (is_Some (b !! c)) = false) (table_in_order l).*1).
    - erewrite <- (fold_reject_Ok (E := string)). split; [intros [[] Hu]; exact Hu|eauto].
    - rewrite Forall_forall, map_disjoint_spec. split.
      + intros H c x y Hb Hl. apply table_in_order_elem, (list_elem_of_fmap_2 fst), H in Hl.
        apply bool_decide_eq_false in Hl. apply Hl. simpl. eauto.
      + intros H c Hc. apply list_elem_of_fmap in Hc as ([c' k] & -> & Hc).
        apply table_in_order_elem in Hc. apply bool_decide_eq_false. intros [x Hx]. by eapply H. }
  split.
  - intros ([] & Hu & H). apply reject_bind_Ok in H as [Hs H]. injection H as <-.
    apply reject_Ok, PeanoNat.Nat.ltb_ge in Hs. split; [done|]. split; simpl; [apply Hd; eauto|done|done].
  - intros [-> [H1 _ H3]]. simpl in *. apply Hd in H1 as [u Hu]. exists u. split; [done|].
    apply reject_bind_Ok. split; [by apply reject_Ok, PeanoNat.Nat.ltb_ge|done].
Qed.

(** * Keys, wire states and digests of rules

    The key of the BPF map determines the process name, the wire form of a state
    determines the state, the digest of a control response determines the rules. *)

Local Open Scope nat_scope.

(** ** Keys *)

Lemma length_nuls n : String.length (nuls n) = n.
Proof. induction n; simpl; congruence. Qed.

Lemma contains_char_cons c a s : contains_char c (String a s) = Ascii.eqb c a || contains_char c s.
Proof. done. Qed.

Lemma before_nul_app s n : contains_char nul s = false → before_nul (s +:+ nuls n) = s.
Proof.
  induction s as [|a s IH]; intros Hs; simpl.
  - by destruct n.
  - rewrite contains_char_cons in Hs. apply orb_false_iff in Hs as [Ha Hs].
    rewrite Ascii.eqb_sym, Ha. by rewrite IH.
Qed.

Lemma as_bpf_key_length c : comm_ok c → String.length (as_bpf_key c) = COMM_KEY_LEN.
Proof.
  intros [[_ Hl _ _] _]. unfold as_bpf_key. rewrite string_length_app, length_nuls.
  unfold COMM_KEY_LEN, MAX_COMM_BYTES in *. lia.
Qed.

Lemma comm_from_bpf_key c : comm_ok c → comm_from_key (as_bpf_key c) = Ok c.
Proof.
  intros Hc. unfold comm_from_key. rewrite as_bpf_key_length by done.
  destruct Hc as [Hc Hu]. unfold as_bpf_key. rewrite before_nul_app by apply Hc.
  simpl. unfold is_utf8 in Hu. destruct (utf8_error 0 (comm_text c)); [done|]. simpl.
  unfold Comm_new. apply validate_comm_Ok in Hc. rewrite Hc. by destruct c.
Qed.

Lemma as_bpf_key_inj c d : comm_ok c → comm_ok d → as_bpf_key c = as_bpf_key d → c = d.
Proof.
  intros Hc Hd H. apply comm_from_bpf_key in Hc, Hd. rewrite H in Hc. congruence.
Qed.

Lemma Comm_new_ok s c : is_utf8 s = true → Comm_new s = Ok c → comm_ok c ∧ comm_text c = s.
Proof.
  intros Hu H. unfold Comm_new in H. apply result_bind_Ok in H as ([] & Hv & [= <-]).
  apply validate_comm_Ok in Hv. by split.
Qed.

Lemma comm_from_key_ok k c : comm_from_key k = Ok c → comm_ok c ∧ String.length k = COMM_KEY_LEN.
Proof.
  intros H. unfold comm_from_key in H.
  apply reject_bind_Ok in H as [Hl H]. apply reject_Ok, negb_false_iff, PeanoNat.Nat.eqb_eq in Hl.
  apply result_bind_Ok in H as ([] & Hu & H). split; [|done].
  eapply Comm_new_ok; [|exact H]. unfold is_utf8. by destruct (utf8_error 0 _).
Qed.

(** C16. The key of a process name in the BPF map determines the name: every name
    the validation accepts fills a 16-byte key from which [comm_from_key] reads
    the same name back, so two names never share a key; and whatever key the
    kernel reports, a name it is read as is a valid one. *)
Theorem rule_keys_round_trip c :
  comm_ok c →
  String.length (as_bpf_key c) = COMM_KEY_LEN
  ∧ comm_from_key (as_bpf_key c) = Ok c
  ∧ (∀ d, comm_ok d → as_bpf_key d = as_bpf_key c → d = c)
  ∧ (∀ k d, comm_from_key k = Ok d → comm_ok d).
Proof.
  intros Hc. split_and!.
  - by apply as_bpf_key_length.
  - by apply comm_from_bpf_key.
  - intros d Hd H. by apply as_bpf_key_inj.
  - intros k d H. by eapply comm_from_key_ok.
Qed.

(** ** Wire states *)

Lemma state_wire_round_trip s : state_try_from (state_to_wire s) = Ok s.
Proof. by destruct s as [|[]]. Qed.

Lemma state_try_from_valid w :
  control_wire.is_valid w = true ↔ ∃ s, state_try_from w = Ok s ∧ state_to_wire s = w.
Proof.
  destruct w as [[] [[]|]]; vm_compute; split; try done.
  all: try (intros (s & Hs & _); discriminate).
  all: try (eexists; split; reflexivity).
Qed.

(** ** Digests *)

Lemma string_app_inj_length (a b c d : string) :
  String.length a = String.length b → (a +:+ c = b +:+ d)%string → a = b ∧ c = d.
Proof.
  revert b. induction a as [|x a IH]; intros [|y b] Hl H; try done.
  rewrite !string_app_cons in H. injection H as -> H. injection Hl as Hl.
  by destruct (IH b Hl H) as [-> ->].
Qed.

Lemma length_u32_to_le_bytes n : String.length (u32_to_le_bytes n) = 4.
Proof. done. Qed.

Lemma as_bpf_id_inj k l : u32_to_le_bytes (as_bpf_id k) = u32_to_le_bytes (as_bpf_id l) → k = l.
Proof. by destruct k, l. Qed.

Lemma digest_blocks_inj (l1 l2 : list (Comm * RuleClass)) :
  Forall (λ p, comm_ok p.1) l1 → Forall (λ p, comm_ok p.1) l2 →
  foldr (λ '(comm, class) rest, (as_bpf_key comm +:+ u32_to_le_bytes (as_bpf_id class)) +:+ rest)%string "" l1
  = foldr (λ '(comm, class) rest, (as_bpf_key comm +:+ u32_to_le_bytes (as_bpf_id class)) +:+ rest)%string "" l2 →
  l1 = l2.
Proof.
  intros H1. revert l2. induction H1 as [|[c k] l1 Hc _ IH]; intros l2 H2 H.
  - destruct H2 as [|[d m] l2 Hd _]; [done|]. simpl in *. apply (f_equal String.length) in H.
    rewrite !string_length_app, as_bpf_key_length in H by done. done.
  - destruct H2 as [|[d m] l2 Hd H2]; simpl in *.
    { apply (f_equal String.length) in H.
      rewrite !string_length_app, as_bpf_key_length in H by done. done. }
    apply string_app_inj_length in H as [Hb H].
    + apply string_app_inj_length in Hb as [Hk Hm].
      * apply as_bpf_key_inj in Hk as ->; [|done..]. apply as_bpf_id_inj in Hm as ->.
        by rewrite (IH l2 H2 H).
      * by rewrite !as_bpf_key_length.
    + by rewrite !string_length_app, !as_bpf_key_length, !length_u32_to_le_bytes.
Qed.

Definition table_ok (t : RuleTable) : Prop := map_Forall (λ c _, comm_ok c) t.

Lemma table_in_order_ok t : table_ok t → Forall (λ p, comm_ok p.1) (table_in_order t).
Proof.
  intros Ht. apply Forall_forall. intros [c k] Hc. apply table_in_order_elem in Hc. by eapply Ht.
Qed.

Lemma table_in_order_inj t u : table_in_order t = table_in_order u → t = u.
Proof.
  intros H. apply map_eq. intros c. apply option_eq. intros k.
  by rewrite <- !table_in_order_elem, H.
Qed.

Lemma digest_input_inj t u : table_ok t → table_ok u → digest_input t = digest_input u → t = u.
Proof.
  intros Ht Hu H. apply table_in_order_inj.
  apply digest_blocks_inj; [by apply table_in_order_ok..|exact H].
Qed.
