(* ===== verification/RuleStore.v ===== *)
(** * The store of learned rules ([scx_agent_classed/src/rules/store.rs])

    First specifications of computations that may stop: [wpc m Q R C s] says that, run
    from [s], a value [m] returns satisfies [Q] with the final state, an error it
    throws satisfies [R], and when the machine stops (or the program panics) on the
    way, the state reached satisfies [C].  Then the disk and the store. *)

From S2P Require Export Prelude Rules.

(** [anyhow::Context::context]: the message in front of an error, as [{:#}] prints it. *)
Definition with_context {S A} (message : string) (m : M S string A) : M S string A :=
  r ← attempt m;
  match r with Ok a => mret a | Err error => throw (message +:+ ": " +:+ error) end.

Definition wpc {S E A} (m : M S E A) (Q : A → S → Prop) (R : E → S → Prop) (C : S → Prop) (s : S) : Prop :=
  match m s with
  | (Ret a, s') => Q a s'
  | (Throw e, s') => R e s'
  | (Panic, s') => C s'
  end.

Section Wpc.
Context {S E : Type}.
Implicit Types (s : S) (C : S → Prop).

Lemma wpc_ret {A} (a : A) Q (R : E → S → Prop) C s : Q a s → wpc (mret a) Q R C s.
Proof. done. Qed.

Lemma wpc_throw {A} e (Q : A → S → Prop) (R : E → S → Prop) C s : R e s → wpc (throw e) Q R C s.
Proof. done. Qed.

Lemma wpc_gets {A} (f : S → A) Q (R : E → S → Prop) C s : Q (f s) s → wpc (gets f) Q R C s.
Proof. done. Qed.

Lemma wpc_modify f Q (R : E → S → Prop) C s : Q tt (f s) → wpc (modify f) Q R C s.
Proof. done. Qed.

Lemma wpc_lift {A} (r : result E A) (Q : A → S → Prop) R C s :
  (∀ a, r = Ok a → Q a s) → (∀ e, r = Err e → R e s) → wpc (lift r) Q R C s.
Proof. unfold wpc, lift. destruct r; simpl; eauto. Qed.

Lemma wpc_expect {A} (o : option A) (Q : A → S → Prop) (R : E → S → Prop) C s a :
  o = Some a → Q a s → wpc (expect o) Q R C s.
Proof. unfold wpc, expect. by intros ->. Qed.

Lemma wpc_bind {A B} (m : M S E A) (f : A → M S E B) Q R C s :
  wpc m (λ a, wpc (f a) Q R C) R C s → wpc (m ≫= f) Q R C s.
Proof. unfold wpc, mbind, M_bind. destruct (m s) as [[] s']; auto. Qed.

Lemma wpc_mono {A} (m : M S E A) (Q Q' : A → S → Prop) (R R' : E → S → Prop) C C' s :
  wpc m Q' R' C' s → (∀ a s', Q' a s' → Q a s') → (∀ e s', R' e s' → R e s') →
  (∀ s', C' s' → C s') → wpc m Q R C s.
Proof. unfold wpc. destruct (m s) as [[] s']; auto. Qed.

Lemma wpc_attempt {E' A} (m : M S E A) (Q : result E A → S → Prop) (R : E' → S → Prop) C s :
  wpc m (λ a, Q (Ok a)) (λ e, Q (Err e)) C s → wpc (attempt m) Q R C s.
Proof. unfold wpc, attempt. destruct (m s) as [[] s']; auto. Qed.

Lemma wpc_and {A} (m : M S E A) (Q Q' : A → S → Prop) (R R' : E → S → Prop) C C' s :
  wpc m Q R C s → wpc m Q' R' C' s →
  wpc m (λ a s', Q a s' ∧ Q' a s') (λ e s', R e s' ∧ R' e s') (λ s', C s' ∧ C' s') s.
Proof. unfold wpc. destruct (m s) as [[] s']; auto. Qed.

Lemma wpc_for_each {A} (I : S → Prop) (f : A → M S E unit) l (R : E → S → Prop) C s :
  I s → (∀ a s, a ∈ l → I s → wpc (f a) (λ _, I) R C s) → wpc (for_each f l) (λ _, I) R C s.
Proof.
  revert s. induction l as [|a l IH]; intros s Hs Hf; simpl; [done|].
  apply wpc_bind. eapply wpc_mono; [apply Hf; [set_solver|done]| |done..].
  intros [] s' Hs'. apply IH; [done|]. intros. apply Hf; set_solver.
Qed.

Lemma wpc_elim {A} (m : M S E A) Q R C s :
  wpc m Q R C s →
  (∃ a s', m s = (Ret a, s') ∧ Q a s') ∨ (∃ e s', m s = (Throw e, s') ∧ R e s')
  ∨ (∃ s', m s = (Panic, s') ∧ C s').
Proof. unfold wpc. destruct (m s) as [[] s']; naive_solver. Qed.

(** A computation that leaves [I] true however it ends. *)
Lemma wpc_stays {A} (m : M S E A) (I : S → Prop) s : wpc m (λ _, I) (λ _, I) I s → I (m s).2.
Proof. unfold wpc. by destruct (m s) as [[] s']. Qed.
End Wpc.

Lemma wpc_context {S A} message (m : M S string A) (Q : A → S → Prop) (R : string → S → Prop) (C : S → Prop) s :
  wpc m Q (λ e, R (message +:+ ": " +:+ e)) C s → wpc (with_context message m) Q R C s.
Proof.
  intros Hm. unfold with_context. apply wpc_bind, wpc_attempt.
  eapply wpc_mono; [exact Hm| | |done]; intros; [by apply wpc_ret|by apply wpc_throw].
Qed.

Ltac wpc_step :=
  lazymatch goal with
  | |- wpc (mret _) _ _ _ _ => apply wpc_ret
  | |- wpc (throw _) _ _ _ _ => apply wpc_throw
  | |- wpc (gets _) _ _ _ _ => apply wpc_gets
  | |- wpc (modify _) _ _ _ _ => apply wpc_modify
  | |- wpc (lift _) _ _ _ _ => apply wpc_lift; intros ? ?
  | |- wpc (attempt _) _ _ _ _ => apply wpc_attempt
  | |- wpc (mbind _ _) _ _ _ _ => apply wpc_bind
  | |- wpc (match ?x with _ => _ end) _ _ _ _ => destruct x eqn:?
  | |- wpc (match ?x with _ => _ end _) _ _ _ _ => destruct x eqn:?
  end; simpl.
Ltac wpc_steps := repeat wpc_step.
Tactic Notation "wpc_call" uconstr(H) := eapply wpc_mono; [eapply H| | |].

(** ** Invariants of a computation *)

(** [keeps I m]: [I] holds again however [m] ends. *)
Definition keeps {S E A} (I : S → Prop) (m : M S E A) : Prop :=
  ∀ s, I s → wpc m (λ _, I) (λ _, I) I s.

Section Keeps.
Context {S E : Type} (I : S → Prop).

Lemma keeps_ret {A} (a : A) : keeps (E := E) I (mret a).
Proof. by intros s Hs. Qed.
Lemma keeps_throw {A} (e : E) : keeps (A := A) I (throw e).
Proof. by intros s Hs. Qed.
Lemma keeps_gets {A} (f : S → A) : keeps (E := E) I (gets f).
Proof. by intros s Hs. Qed.
Lemma keeps_lift {A} (r : result E A) : keeps I (lift r).
Proof. intros s Hs. by apply wpc_lift. Qed.
Lemma keeps_expect {A} (o : option A) : keeps (E := E) I (expect o).
Proof. intros s Hs. unfold wpc, expect. by destruct o. Qed.
Lemma keeps_modify f : (∀ s, I s → I (f s)) → keeps (E := E) I (modify f).
Proof. intros Hf s Hs. by apply wpc_modify, Hf. Qed.
Lemma keeps_bind {A B} (m : M S E A) (f : A → M S E B) :
  keeps I m → (∀ a, keeps I (f a)) → keeps I (m ≫= f).
Proof. intros Hm Hf s Hs. apply wpc_bind. eapply wpc_mono; [by apply Hm| |done|done]. intros a s' Hs'. by apply Hf. Qed.
Lemma keeps_attempt {E' A} (m : M S E A) : keeps I m → keeps (E := E') I (attempt m).
Proof. intros Hm s Hs. apply wpc_attempt. by apply Hm. Qed.
Lemma keeps_for_each {A} (f : A → M S E unit) l : (∀ a, keeps I (f a)) → keeps I (for_each f l).
Proof. intros Hf. induction l as [|a l IH]; [apply keeps_ret|]. simpl. by apply keeps_bind. Qed.
End Keeps.

Lemma keeps_context {S A} (I : S → Prop) message (m : M S string A) : keeps I m → keeps I (with_context message m).
Proof. intros Hm s Hs. apply wpc_context. by apply Hm. Qed.

Create HintDb keeps.
#[export] Hint Resolve keeps_ret keeps_throw keeps_gets keeps_lift keeps_expect keeps_bind keeps_attempt
  keeps_for_each keeps_context : keeps.

(** Walks through the computation; [keeps] lemmas of called operations are hints. *)
Ltac keeps_step :=
  lazymatch goal with
  | |- ∀ _, _ => intros ?
  | |- keeps _ (match ?x with _ => _ end) => destruct x
  | |- keeps _ (let '_ := ?x in _) => destruct x
  | |- keeps _ (mbind _ _) => apply keeps_bind
  | |- keeps _ (attempt _) => apply keeps_attempt
  | |- keeps _ (with_context _ _) => apply keeps_context
  | |- keeps _ (for_each _ _) => apply keeps_for_each
  | |- keeps _ _ => solve [eauto with keeps]
  end.
Ltac keeps_tac := repeat keeps_step.

(** * The store of learned rules ([scx_agent_classed/src/rules/store.rs])

    The document of learned rules, replaced atomically: a temporary file is
    written and synced, renamed over the document, and the directory synced.  The
    disk of the model keeps what a loss of power can bring back: the directory
    states since the last sync of the directory, and which files are synced.  A
    call of the operating system works, fails or is where the machine stops. *)

Local Open Scope nat_scope.

(** ** The disk *)

Record Inode := MkInode { written : string; synced : bool }.

(** [Fails n error] and [Dies n]: a write has written [n] bytes by then. *)
Inductive DiskCall := Works | Fails (n : nat) (error : string) | Dies (n : nat).

(** The directory of the document: [unsynced] are its earlier states that may
    still be the ones on the medium. *)
Record Disk := MkDisk {
  inodes : gmap nat Inode;
  next_inode : nat;
  directory : gmap string nat;
  unsynced : list (gmap string nat);
  parent_is_directory : bool;
  process_id : Z;
  temp_sequence : Z;
  disk_calls : list DiskCall;
}.

Definition set_calls (calls : list DiskCall) (d : Disk) : Disk :=
  MkDisk (inodes d) (next_inode d) (directory d) (unsynced d) (parent_is_directory d) (process_id d)
    (temp_sequence d) calls.
Definition set_inode (i : nat) (ino : Inode) (d : Disk) : Disk :=
  MkDisk (<[i := ino]> (inodes d)) (next_inode d) (directory d) (unsynced d) (parent_is_directory d)
    (process_id d) (temp_sequence d) (disk_calls d).
Definition set_directory (dir : gmap string nat) (d : Disk) : Disk :=
  MkDisk (inodes d) (next_inode d) dir (unsynced d ++ [directory d]) (parent_is_directory d)
    (process_id d) (temp_sequence d) (disk_calls d).

Definition disk_call (partial : nat → Disk → Disk) (full : Disk → Disk) : M Disk string unit := λ d,
  match disk_calls d with
  | [] => (Ret tt, full d)
  | Works :: calls => (Ret tt, full (set_calls calls d))
  | Fails n error :: calls => (Throw error, partial n (set_calls calls d))
  | Dies n :: calls => (Panic, partial n (set_calls calls d))
  end.
Definition query : M Disk string unit := disk_call (λ _, id) id.

Definition append_to (i : nat) (text : string) (d : Disk) : Disk :=
  match inodes d !! i with
  | Some ino => set_inode i (MkInode (written ino +:+ text) false) d
  | None => d
  end.
Definition write_all (i : nat) (text : string) : M Disk string unit :=
  disk_call (λ n, append_to i (String.substring 0 n text)) (append_to i text).
Definition sync_all (i : nat) : M Disk string unit :=
  disk_call (λ _, id) (λ d,
    match inodes d !! i with Some ino => set_inode i (MkInode (written ino) true) d | None => d end).

Definition link (name : string) (d : Disk) : Disk :=
  let i := next_inode d in
  let d := set_directory (<[name := i]> (directory d)) d in
  MkDisk (<[i := MkInode "" false]> (inodes d)) (S i) (directory d) (unsynced d)
    (parent_is_directory d) (process_id d) (temp_sequence d) (disk_calls d).

(** [open] with [create_new]; [None] when the name exists. *)
Definition create_new (name : string) : M Disk string (option nat) :=
  _ ← query;
  d ← gets id;
  match directory d !! name with
  | Some _ => mret None
  | None => _ ← modify (link name); mret (Some (next_inode d))
  end.

Definition move (from to : string) (d : Disk) : Disk :=
  match directory d !! from with
  | Some i => set_directory (<[to := i]> (delete from (directory d))) d
  | None => d
  end.
Definition rename (from to : string) : M Disk string unit :=
  d ← gets id;
  match directory d !! from with
  | Some _ => disk_call (λ _, id) (move from to)
  | None => throw "No such file or directory (os error 2)"
  end.
Definition remove_file (name : string) : M Disk string unit :=
  disk_call (λ _, id) (λ d, set_directory (delete name (directory d)) d).

(** [File::open(parent)] and [sync_all]. *)
Definition sync_parent : M Disk string unit :=
  _ ← query;
  disk_call (λ _, id) (λ d, MkDisk (inodes d) (next_inode d) (directory d) []
    (parent_is_directory d) (process_id d) (temp_sequence d) (disk_calls d)).

(** [fs::read]; [None] when there is no such file. *)
Definition read_file (name : string) : M Disk string (option string) :=
  _ ← query;
  d ← gets id;
  match directory d !! name with
  | None => mret None
  | Some i => match inodes d !! i with Some ino => mret (Some (written ino)) | None => mret None end
  end.

(** ** Paths *)

(** [Path::file_name] and [Path::parent], an empty parent taken as [.]. *)
Definition file_name (path : string) : option string :=
  match last (components path) with Some (Normal name) => Some name | _ => None end.
Definition component_text (c : Component) : string :=
  match c with RootDir => "" | CurDir => "." | ParentDir => ".." | Normal name => name end.
Definition parent_directory (path : string) : string :=
  match removelast (components path) with
  | [] => "."
  | [RootDir] => "/"
  | c :: cs => foldl (λ s c, s +:+ "/" +:+ component_text c) (component_text c) cs
  end.
Definition join_name (parent name : string) : string :=
  if bool_decide (parent = "/") then "/" +:+ name else parent +:+ "/" +:+ name.
Definition no_file_name (path : string) : string :=
  "learned rules path '" +:+ path +:+ "' has no file name".

(** ** Documents *)

Record StoredRule := MkStoredRule { sr_comm : Comm; sr_class : RuleClass }.
Record StoredDocument := MkStoredDocument {
  schema_version : Z; sd_revision : Z; sd_rules : list StoredRule }.

(** [serde_json::to_vec_pretty], and what serde decodes before
    [Comm::deserialize] has checked the names. *)
Class DocumentCodec := {
  to_vec_pretty : StoredDocument → result string string;
  from_slice : string → result string (Z * Z * list (string * RuleClass));
}.

(** One element of the [rules] array. *)
Definition stored_rule (p : Comm * RuleClass) : StoredRule := MkStoredRule p.1 p.2.
Definition decode_rule (p : string * RuleClass) : result string StoredRule :=
  comm ← Comm_new p.1; Ok (MkStoredRule comm p.2).

Section RuleStore.
Context `{DC : DocumentCodec}.

Definition document_from_slice (bytes : string) : result string StoredDocument :=
  '(version, revision, rules) ← from_slice bytes;
  rules ← collect_result decode_rule rules;
  Ok (MkStoredDocument version revision rules).

Definition insert_rule (path : string) (learned : RuleTable) (rule : StoredRule) : result string RuleTable :=
  match learned !! sr_comm rule with
  | Some _ => Err ("duplicate learned rule for comm '" +:+ comm_text (sr_comm rule) +:+ "' in " +:+ path)
  | None => Ok (<[sr_comm rule := sr_class rule]> learned)
  end.

Definition parse_document (path bytes : string) : result string (RuleTable * Z) :=
  document ← ctx ("parsing learned rules " +:+ path) (document_from_slice bytes);
  _ ← reject (negb (schema_version document =? RULES_SCHEMA_VERSION)%Z)
        ("unsupported learned rules schema_version " +:+ show (schema_version document) +:+ " in " +:+ path
           +:+ "; expected " +:+ show RULES_SCHEMA_VERSION);
  learned ← fold_result (insert_rule path) ∅ (sd_rules document);
  Ok (learned, sd_revision document).

Definition load_document (path : string) : M Disk string (RuleTable * Z) :=
  bytes ← with_context ("reading learned rules " +:+ path) (read_file (default "" (file_name path)));
  match bytes with
  | None => mret (∅, 0%Z)
  | Some bytes => lift (parse_document path bytes)
  end.

Definition canonical_document (revision : Z) (learned : RuleTable) : result string string :=
  bytes ← ctx "serializing learned rules"
    (to_vec_pretty (MkStoredDocument RULES_SCHEMA_VERSION revision
       (stored_rule <$> table_in_order learned)));
  Ok (bytes +:+ String "010"%char "").

Definition canonical_learned_json (r : RuleSnapshot) : result string string :=
  canonical_document (revision r) (learned r).

(** ** Replacing the document *)

Inductive ReplaceOutcome := Durable | RenamedButUnsynced (error : string).

Definition temp_name (target : string) (d : Disk) : string :=
  "." +:+ target +:+ "." +:+ show (process_id d) +:+ "." +:+ show (temp_sequence d) +:+ ".tmp".
Definition next_temp (d : Disk) : Disk :=
  MkDisk (inodes d) (next_inode d) (directory d) (unsynced d) (parent_is_directory d) (process_id d)
    (u64_wrap (temp_sequence d + 1)) (disk_calls d).

Fixpoint create_temp_file (attempts : nat) (parent target : string) : M Disk string (nat * string) :=
  match attempts with
  | 0 => throw ("could not allocate a temporary rules file in " +:+ parent)
  | S attempts =>
    d ← gets id;
    let temp := temp_name target d in
    _ ← modify next_temp;
    opened ← with_context ("creating temporary rules file " +:+ join_name parent temp) (create_new temp);
    match opened with
    | Some i => mret (i, temp)
    | None => create_temp_file attempts parent target
    end
  end.

Definition atomic_replace (path contents : string) : M Disk string ReplaceOutcome :=
  let parent := parent_directory path in
  name ← lift (ok_or (no_file_name path) (file_name path));
  '(i, temp) ← create_temp_file 32 parent name;
  replaced ← attempt (
    _ ← with_context ("writing temporary rules file " +:+ join_name parent temp) (write_all i contents);
    _ ← with_context ("syncing temporary rules file " +:+ join_name parent temp) (sync_all i);
    with_context ("replacing learned rules " +:+ path +:+ " with " +:+ join_name parent temp) (rename temp name));
  match replaced with
  | Err error => _ ← attempt (E' := string) (remove_file temp); throw error
  | Ok _ =>
    synced ← attempt sync_parent;
    match synced with
    | Ok _ => mret Durable
    | Err error => mret (RenamedButUnsynced ("syncing learned rules directory " +:+ parent +:+ ": " +:+ error))
    end
  end.

(** ** The store *)

Record RuleStore := MkRuleStore {
  store_path : string;
  rules : RuleSnapshot;
  persistence_uncertain : bool;
}.

Definition ensure_parent_directory (path : string) : M Disk string unit :=
  _ ← lift (ok_or (no_file_name path) (file_name path));
  let parent := parent_directory path in
  _ ← with_context ("creating learned rules directory " +:+ parent) query;
  _ ← with_context ("inspecting learned rules directory " +:+ parent) query;
  is_directory ← gets parent_is_directory;
  lift (reject (negb is_directory) ("learned rules parent '" +:+ parent +:+ "' is not a directory")).

Definition store_open (path : string) (base : RuleTable) : M Disk string RuleStore :=
  _ ← ensure_parent_directory path;
  '(learned, revision) ← load_document path;
  rules ← lift (ctx ("validating learned rules from " +:+ path) (RuleSnapshot_new base learned revision));
  mret (MkRuleStore path rules false).

Definition read_persisted (s : RuleStore) : M Disk string (RuleTable * Z) := load_document (store_path s).

Definition cas_result (s : RuleStore) (status : CasStatus) (comm : Comm) (previous current : RuleState)
    : CasResult :=
  MkCasResult status comm previous current (state_from_option (effective (rules s) !! comm))
    (revision (rules s)).

Definition on_disk {A} (m : M Disk string A) : M (RuleStore * Disk) string A := λ s,
  let '(r, d) := m s.2 in (r, (s.1, d)).
Definition set_rules (next : RuleSnapshot) (s : RuleStore * Disk) : RuleStore * Disk :=
  (MkRuleStore (store_path s.1) next (persistence_uncertain s.1), s.2).
Definition set_uncertain (s : RuleStore * Disk) : RuleStore * Disk :=
  (MkRuleStore (store_path s.1) (rules s.1) true, s.2).

(** The rules and the document a change gives. *)
Definition next_revision (r : RuleSnapshot) : result string Z :=
  reject (u64_max <? revision r + 1)%Z "learned rule revision overflow" ≫= λ _, Ok (revision r + 1)%Z.
Definition with_rule (learned : RuleTable) (comm : Comm) (desired : RuleState) : RuleTable :=
  match desired with Absent => delete comm learned | Present class => <[comm := class]> learned end.

Definition compare_and_set (comm : Comm) (expected desired : RuleState) : M (RuleStore * Disk) string CasResult :=
  s ← gets fst;
  _ ← lift (reject (bool_decide (is_Some (base (rules s) !! comm)))
              ("comm '" +:+ comm_text comm +:+ "' is owned by a read-only base rule"));
  let previous := learned_state (rules s) comm in
  if bool_decide (previous ≠ expected) then mret (cas_result s Conflict comm previous previous) else
  if bool_decide (previous = desired) then mret (cas_result s Noop comm previous desired) else
  revision ← lift (next_revision (rules s));
  next ← lift (RuleSnapshot_new (base (rules s)) (with_rule (learned (rules s)) comm desired) revision);
  encoded ← lift (canonical_learned_json next);
  replaced ← on_disk (atomic_replace (store_path s) encoded);
  match replaced with
  | Durable =>
    _ ← modify (set_rules next);
    s ← gets fst;
    mret (cas_result s Applied comm previous desired)
  | RenamedButUnsynced error =>
    _ ← modify (set_rules next);
    _ ← modify set_uncertain;
    throw error
  end.
End RuleStore.
