(* ===== verification/RuleStoreSafety.v ===== *)
(** * The rule store survives crashes

    Whatever call of a change fails or is where the machine stops, the document
    that a restart reads is the old one or the new one, whole; the rules in memory
    follow what the directory shows. *)

From S2P Require Export RuleStore.

Local Open Scope nat_scope.

(** ** What the medium can hold *)

(** The directory states a loss of power can bring back. *)
Definition possible (d : Disk) : list (gmap string nat) := unsynced d ++ [directory d].

(** [dir] gives [name] the content [c], whole and synced, or no file. *)
Definition in_directory (d : Disk) (dir : gmap string nat) (name : string) (c : option string) : Prop :=
  match c with
  | None => dir !! name = None
  | Some text => ∃ i, dir !! name = Some i ∧ inodes d !! i = Some (MkInode text true)
  end.

(** What a restart can read after a loss of power: a file that was not synced
    holds anything. *)
Definition may_hold (d : Disk) (name : string) (c : option string) : Prop :=
  ∃ dir, dir ∈ possible d ∧
    match dir !! name with
    | None => c = None
    | Some i => ∃ ino text, inodes d !! i = Some ino ∧ c = Some text ∧ (synced ino = true → text = written ino)
    end.

(** What the running system reads. *)
Definition visible (d : Disk) (name : string) : option string :=
  i ← directory d !! name; written <$> inodes d !! i.

Record disk_ok (d : Disk) : Prop := {
  do_bound : ∀ dir name i, dir ∈ possible d → dir !! name = Some i → i < next_inode d;
}.

(** Every possible directory gives [name] a content of [P]. *)
Record safe (name : string) (P : option string → Prop) (d : Disk) : Prop := {
  safe_ok : disk_ok d;
  safe_docs : ∀ dir, dir ∈ possible d → ∃ c, P c ∧ in_directory d dir name c;
}.

(** The temporary file [i], named [temp], which no directory knows as [name]. *)
Record temp_file (name temp : string) (i : nat) (ino : Inode) (d : Disk) : Prop := {
  tf_unlinked : ∀ dir, dir ∈ possible d → dir !! name ≠ Some i;
  tf_named : directory d !! temp = Some i;
  tf_inode : inodes d !! i = Some ino;
  tf_name : temp ≠ name;
}.

Lemma possible_current d : directory d ∈ possible d.
Proof. unfold possible. set_solver. Qed.

Lemma safe_may_hold name P d c : safe name P d → may_hold d name c → P c.
Proof.
  intros [_ Hd] (dir & Hdir & H). destruct (Hd dir Hdir) as ([text|] & HP & Hin); simpl in Hin.
  - destruct Hin as (i & Hi & Hino). rewrite Hi in H. destruct H as (ino & t & Hino' & -> & Ht).
    rewrite Hino in Hino'. injection Hino' as <-. by rewrite (Ht eq_refl).
  - rewrite Hin in H. by subst.
Qed.

Lemma safe_visible name P d : safe name P d → P (visible d name).
Proof.
  intros H. apply (safe_may_hold name P d); [done|]. exists (directory d). split; [apply possible_current|].
  destruct H as [_ Hd]. destruct (Hd _ (possible_current d)) as ([text|] & _ & Hin); simpl in Hin.
  - destruct Hin as (i & Hi & Hino). unfold visible. rewrite Hi. simpl. rewrite Hino. simpl. eauto.
  - unfold visible. by rewrite Hin.
Qed.

Lemma safe_visible_Some name P d : safe name P d → is_Some (directory d !! name) → is_Some (visible d name).
Proof.
  intros [_ Hd] [i Hi]. destruct (Hd _ (possible_current d)) as ([text|] & _ & Hin); simpl in Hin.
  - destruct Hin as (j & Hj & Hino). unfold visible. rewrite Hj. simpl. by rewrite Hino.
  - congruence.
Qed.

Lemma safe_mono name (P Q : option string → Prop) d : (∀ c, P c → Q c) → safe name P d → safe name Q d.
Proof. intros H [Hok Hd]. split; [done|]. intros dir Hdir. destruct (Hd dir Hdir) as (c & ? & ?). eauto. Qed.

(** ** One call *)

Lemma wpc_disk_call partial full (Q : unit → Disk → Prop) R C d :
  (∀ calls, Q tt (full (set_calls calls d))) →
  (∀ calls n e, R e (partial n (set_calls calls d))) →
  (∀ calls n, C (partial n (set_calls calls d))) →
  (Q tt (full d)) →
  wpc (disk_call partial full) Q R C d.
Proof. intros HQ HR HC H0. unfold wpc, disk_call. destruct (disk_calls d) as [|[]]; eauto. Qed.

Lemma safe_set_calls name P calls d : safe name P (set_calls calls d) ↔ safe name P d.
Proof. split; intros [[H1] H2]; split; [by split|done|by split|done]. Qed.

Lemma temp_file_set_calls name temp i ino calls d :
  temp_file name temp i ino (set_calls calls d) ↔ temp_file name temp i ino d.
Proof. split; intros []; by split. Qed.

Lemma visible_set_calls calls d name : visible (set_calls calls d) name = visible d name.
Proof. done. Qed.

Lemma safe_set_inode name P i ino d :
  (∀ dir, dir ∈ possible d → dir !! name ≠ Some i) → safe name P d → safe name P (set_inode i ino d).
Proof.
  intros Hi [[Hb] Hd]. split; [by split|]. intros dir Hdir. destruct (Hd dir Hdir) as (c & HP & Hin).
  exists c. split; [done|]. destruct c as [text|]; simpl in *; [|done].
  destruct Hin as (j & Hj & Hino). exists j. split; [done|]. rewrite lookup_insert_ne; [done|].
  intros ->. by apply (Hi dir).
Qed.

Lemma possible_set_directory dir d : possible (set_directory dir d) = possible d ++ [dir].
Proof. done. Qed.

Lemma safe_set_directory name (P : option string → Prop) dir c d :
  (∀ n i, dir !! n = Some i → i < next_inode d) → P c → in_directory d dir name c →
  safe name P d → safe name P (set_directory dir d).
Proof.
  intros Hb HP Hc [[Hok] Hd]. split; [split|]; rewrite possible_set_directory.
  - intros dir' n i [?| ->%list_elem_of_singleton]%elem_of_app; [by eapply Hok|apply Hb].
  - intros dir' [H'| ->%list_elem_of_singleton]%elem_of_app; [by apply Hd|eauto].
Qed.

(** ** Replacing the document, call by call *)

Section Replace.
Context (name : string) (P : option string → Prop).
Implicit Types (d : Disk).

Lemma disk_ok_current d n i : disk_ok d → directory d !! n = Some i → i < next_inode d.
Proof. intros [H] Hi. eapply H; [apply possible_current|done]. Qed.

Lemma safe_link temp d :
  temp ≠ name → safe name P d → directory d !! temp = None →
  safe name P (link temp d) ∧ temp_file name temp (next_inode d) (MkInode "" false) (link temp d)
  ∧ visible (link temp d) name = visible d name.
Proof.
  intros Hn Hs Ht.
  set (i := next_inode d).
  assert (Hfresh : ∀ dir n, dir ∈ possible d → dir !! n ≠ Some i).
  { intros dir n Hdir Hi. destruct Hs as [[Hb] _]. specialize (Hb dir n i Hdir Hi). unfold i in Hb. lia. }
  set (dir' := <[temp := i]> (directory d)).
  assert (Hname : dir' !! name = directory d !! name) by (unfold dir'; by rewrite lookup_insert_ne).
  assert (Hposs : possible (link temp d) = possible d ++ [dir']) by done.
  assert (Hun : ∀ dir, dir ∈ possible (link temp d) → dir !! name ≠ Some i).
  { rewrite Hposs. intros dir [H| ->%list_elem_of_singleton]%elem_of_app; [by apply Hfresh|].
    rewrite Hname. apply Hfresh, possible_current. }
  assert (Hino : ∀ j, j ≠ i → inodes (link temp d) !! j = inodes d !! j).
  { intros j Hj. unfold link. simpl. by rewrite lookup_insert_ne. }
  split_and!.
  - destruct Hs as [[Hb] Hd]. split; [split|].
    + intros dir n j Hdir Hj. rewrite Hposs in Hdir. change (next_inode (link temp d)) with (S i).
      apply elem_of_app in Hdir as [Hdir| ->%list_elem_of_singleton].
      * specialize (Hb dir n j Hdir Hj). unfold i. lia.
      * unfold dir' in Hj. apply lookup_insert_Some in Hj as [[_ <-]|[_ Hj]]; [lia|].
        specialize (Hb _ n j (possible_current d) Hj). unfold i. lia.
    + intros dir Hdir. rewrite Hposs in Hdir.
      assert (∃ dir0, dir0 ∈ possible d ∧ dir0 !! name = dir !! name) as (dir0 & H0 & He).
      { apply elem_of_app in Hdir as [Hdir| ->%list_elem_of_singleton]; [eauto|].
        exists (directory d). split; [apply possible_current|done]. }
      destruct (Hd dir0 H0) as (c & HP & Hc). exists c. split; [done|].
      destruct c as [text|]; simpl in *; [|congruence].
      destruct Hc as (j & Hj & Hjo). exists j. split; [congruence|].
      rewrite Hino; [done|]. intros ->. by apply (Hfresh dir0 name).
  - split; [done| | |done].
    + change (dir' !! temp = Some i). unfold dir'. apply lookup_insert_eq.
    + unfold link. simpl. apply lookup_insert_eq.
  - unfold visible. change (directory (link temp d)) with dir'. rewrite Hname.
    destruct (directory d !! name) as [j|] eqn:Hj; [|done]. simpl.
    rewrite Hino; [done|]. intros ->. by apply (Hfresh (directory d) name (possible_current d)).
Qed.

Definition kept (v : option string) d : Prop := safe name P d ∧ visible d name = v.

Lemma kept_set_calls v calls d : kept v (set_calls calls d) ↔ kept v d.
Proof. unfold kept. by rewrite safe_set_calls, visible_set_calls. Qed.

Lemma kept_next_temp v d : kept v d → kept v (next_temp d).
Proof. intros [[[H1] H2] H3]. split; [split; [by split|done]|done]. Qed.

Lemma query_spec v (I : Disk → Prop) d :
  (∀ calls d, I d → I (set_calls calls d)) → kept v d → I d →
  wpc query (λ _ d', kept v d' ∧ I d' ∧ directory d' = directory d ∧ inodes d' = inodes d)
    (λ _, kept v) (kept v) d.
Proof.
  intros HI Hk Hi. apply wpc_disk_call; intros; try apply kept_set_calls; try done; simpl.
  all: split_and!; try apply kept_set_calls; auto.
Qed.

Lemma create_new_spec v temp d :
  temp ≠ name → kept v d →
  wpc (create_new temp)
    (λ r d', kept v d' ∧ match r with
                         | Some i => temp_file name temp i (MkInode "" false) d'
                         | None => True end)
    (λ _, kept v) (kept v) d.
Proof.
  intros Hn Hk. unfold create_new. wpc_step. eapply wpc_mono; [by apply (query_spec v (λ _, True))| |done|done].
  intros [] d1 (Hk1 & _ & _ & _). wpc_step. wpc_step. wpc_step; wpc_steps; [done|].
  destruct Hk1 as [Hs Hv]. destruct (safe_link temp d1 Hn Hs Heqo) as (H1 & H2 & H3).
  split; [split; [done|congruence]|done].
Qed.

Lemma temp_name_not d : temp_name name d ≠ name.
Proof.
  intros H. apply (f_equal String.length) in H. unfold temp_name in H.
  rewrite !string_length_app in H. simpl in H. lia.
Qed.

Lemma create_temp_file_spec v n parent d :
  kept v d →
  wpc (create_temp_file n parent name)
    (λ '(i, temp) d', kept v d' ∧ temp_file name temp i (MkInode "" false) d')
    (λ _, kept v) (kept v) d.
Proof.
  revert d. induction n as [|n IH]; intros d Hk; [by apply wpc_throw|]. simpl.
  wpc_step. wpc_step. wpc_step. wpc_step. wpc_step. apply wpc_context.
  eapply wpc_mono; [apply (create_new_spec v); [apply temp_name_not|by apply kept_next_temp]| |done|done].
  intros [i|] d1 [H1 H2]; wpc_steps; [done|by apply IH].
Qed.

#[local] Arguments create_temp_file : simpl never.

Lemma append_to_spec v temp i ino text d :
  kept v d → temp_file name temp i ino d →
  kept v (append_to i text d)
  ∧ temp_file name temp i (MkInode (written ino +:+ text) false) (append_to i text d).
Proof.
  intros [Hs Hv] [H1 H2 H3 H4]. unfold append_to. rewrite H3. split; [split|].
  - by apply safe_set_inode.
  - rewrite <- Hv. unfold visible. simpl. destruct (directory d !! name) as [j|] eqn:Hj; [|done]. simpl.
    rewrite lookup_insert_ne; [done|]. intros ->. by apply (H1 _ (possible_current d)).
  - split; [done|done| |done]. simpl. apply lookup_insert_eq.
Qed.

Lemma write_all_spec v temp i ino text d :
  kept v d → temp_file name temp i ino d →
  wpc (write_all i text)
    (λ _ d', kept v d' ∧ temp_file name temp i (MkInode (written ino +:+ text) false) d')
    (λ _ d', kept v d' ∧ ∃ ino, temp_file name temp i ino d') (kept v) d.
Proof.
  intros Hk Ht.
  assert (∀ calls t, kept v (append_to i t (set_calls calls d))
            ∧ temp_file name temp i (MkInode (written ino +:+ t) false) (append_to i t (set_calls calls d))) as H.
  { intros calls t. by apply (append_to_spec v temp i ino); [apply kept_set_calls|apply temp_file_set_calls]. }
  apply wpc_disk_call; intros.
  - apply H.
  - destruct (H calls (String.substring 0 n text)) as [? ?]. eauto.
  - apply H.
  - by apply (append_to_spec v temp i ino).
Qed.

Lemma sync_all_spec v temp i text d :
  kept v d → temp_file name temp i (MkInode text false) d →
  wpc (sync_all i)
    (λ _ d', kept v d' ∧ temp_file name temp i (MkInode text true) d')
    (λ _ d', kept v d' ∧ ∃ ino, temp_file name temp i ino d') (kept v) d.
Proof.
  intros Hk Ht.
  assert (∀ d, kept v d → temp_file name temp i (MkInode text false) d →
     kept v (set_inode i (MkInode text true) d)
     ∧ temp_file name temp i (MkInode text true) (set_inode i (MkInode text true) d)) as H.
  { clear. intros d [Hs Hv] [H1 H2 H3 H4]. split; [split|].
    - by apply safe_set_inode.
    - rewrite <- Hv. unfold visible. simpl. destruct (directory d !! name) as [j|] eqn:Hj; [|done]. simpl.
      rewrite lookup_insert_ne; [done|]. intros ->. by apply (H1 _ (possible_current d)).
    - split; [done|done| |done]. simpl. apply lookup_insert_eq. }
  pose proof (tf_inode _ _ _ _ _ Ht) as Hi.
  apply wpc_disk_call; intros; simpl.
  - rewrite Hi. simpl. apply (H (set_calls calls d)); [by apply kept_set_calls|by apply temp_file_set_calls].
  - split; [by apply kept_set_calls|]. eexists. by apply temp_file_set_calls.
  - by apply kept_set_calls.
  - rewrite Hi. by apply H.
Qed.

(** The old contents or the new ones. *)
Definition old_or (text : string) (c : option string) : Prop := P c ∨ c = Some text.

(** The document is [text] in the current directory. *)
Record replaced (text : string) d : Prop := {
  rp_safe : safe name (old_or text) d;
  rp_current : in_directory d (directory d) name (Some text);
}.

Lemma replaced_set_calls text calls d : replaced text (set_calls calls d) ↔ replaced text d.
Proof. split; intros [H1 H2]; split; try done; by eapply safe_set_calls. Qed.

Lemma replaced_visible text d : replaced text d → visible d name = Some text.
Proof.
  intros [_ (i & Hi & Hino)]. unfold visible. rewrite Hi. simpl. by rewrite Hino.
Qed.

Lemma move_spec v temp i text d :
  kept v d → temp_file name temp i (MkInode text true) d → replaced text (move temp name d).
Proof.
  intros [Hs _] [H1 H2 H3 H4]. unfold move. rewrite H2.
  assert (in_directory d (<[name := i]> (delete temp (directory d))) name (Some text)) as Hc.
  { exists i. split; [apply lookup_insert_eq|done]. }
  split.
  - eapply safe_set_directory; [|by right|exact Hc|eapply safe_mono; [|exact Hs]; by left].
    intros n j Hj. apply (disk_ok_current d temp i (safe_ok _ _ _ Hs)) in H2 as Hi.
    apply lookup_insert_Some in Hj as [[_ <-]|[_ Hj]]; [done|].
    apply lookup_delete_Some in Hj as [_ Hj]. by eapply disk_ok_current; [apply Hs|].
  - exact Hc.
Qed.

Lemma rename_spec v temp i text d :
  kept v d → temp_file name temp i (MkInode text true) d →
  wpc (rename temp name) (λ _, replaced text)
    (λ _ d', kept v d' ∧ ∃ ino, temp_file name temp i ino d') (kept v) d.
Proof.
  intros Hk Ht. unfold rename. wpc_step. wpc_step. unfold id. rewrite (tf_named _ _ _ _ _ Ht).
  apply wpc_disk_call; intros.
  - eapply (move_spec v temp i); [by apply kept_set_calls|by apply temp_file_set_calls].
  - split; [by apply kept_set_calls|]. eexists. by apply temp_file_set_calls.
  - by apply kept_set_calls.
  - by eapply (move_spec v temp i).
Qed.

Lemma remove_file_spec v temp d :
  temp ≠ name → kept v d → wpc (remove_file temp) (λ _, kept v) (λ _, kept v) (kept v) d.
Proof.
  intros Hn Hk.
  assert (∀ d, kept v d → kept v (set_directory (delete temp (directory d)) d)) as H.
  { clear d Hk. intros d [Hs Hv].
    destruct (safe_docs _ _ _ Hs _ (possible_current d)) as (c & HP & Hc).
    assert (delete temp (directory d) !! name = directory d !! name) as He by by rewrite lookup_delete_ne.
    split.
    - eapply (safe_set_directory _ _ _ c); [|done| |done].
      + intros n j [_ Hj]%lookup_delete_Some. eapply disk_ok_current; [apply Hs|done].
      + destruct c; simpl in *; by rewrite He.
    - rewrite <- Hv. unfold visible. simpl. by rewrite He. }
  apply wpc_disk_call; intros; try (apply H; by apply kept_set_calls); try (by apply kept_set_calls).
  by apply H.
Qed.

Lemma sync_directory_spec text d :
  replaced text d →
  wpc sync_parent (λ _ d', safe name (eq (Some text)) d') (λ _, replaced text) (replaced text) d.
Proof.
  intros Hr. unfold sync_parent.
  assert (∀ d, replaced text d → safe name (eq (Some text))
    (MkDisk (inodes d) (next_inode d) (directory d) [] (parent_is_directory d) (process_id d)
      (temp_sequence d) (disk_calls d))) as H.
  { clear d Hr. intros d [Hs Hc]. split; [split|].
    - intros dir n j [= ->]%list_elem_of_singleton Hj.
      exact (disk_ok_current d n j (safe_ok _ _ _ Hs) Hj).
    - intros dir [= ->]%list_elem_of_singleton. exists (Some text). by split. }
  wpc_step. apply wpc_disk_call; intros; try by apply replaced_set_calls.
  all: apply wpc_disk_call; intros; try (by repeat apply replaced_set_calls).
  all: unfold id.
  - apply (H (set_calls _ (set_calls _ d))). by repeat apply replaced_set_calls.
  - apply (H (set_calls _ d)). by repeat apply replaced_set_calls.
  - apply (H (set_calls _ d)). by repeat apply replaced_set_calls.
  - by apply H.
Qed.

(** Writing, syncing and renaming the temporary file. *)
Lemma fill_and_rename_spec v temp i text c1 c2 c3 d :
  kept v d → temp_file name temp i (MkInode "" false) d →
  wpc (_ ← with_context c1 (write_all i text); _ ← with_context c2 (sync_all i); with_context c3 (rename temp name))
    (λ _, replaced text) (λ _ d', kept v d' ∧ ∃ ino, temp_file name temp i ino d') (kept v) d.
Proof.
  intros Hk Ht. wpc_step. apply wpc_context. wpc_call write_all_spec; [done..| |done|done].
  intros _ d1 [H1 H2]. wpc_step. apply wpc_context. wpc_call sync_all_spec; [done..| |done|done].
  intros _ d2 [H3 H4]. apply wpc_context. by eapply rename_spec.
Qed.

Lemma atomic_replace_spec v path text d :
  file_name path = Some name → kept v d →
  wpc (atomic_replace path text)
    (λ r d', match r with
             | Durable => safe name (eq (Some text)) d'
             | RenamedButUnsynced _ => replaced text d' end)
    (λ _, kept v) (λ d', safe name (old_or text) d') d.
Proof.
  intros Hn Hk. unfold atomic_replace. rewrite Hn. wpc_step. apply wpc_ret. simpl.
  assert (∀ d, kept v d → safe name (old_or text) d) as Hold.
  { intros d' [H _]. eapply safe_mono; [|exact H]. by left. }
  wpc_step. eapply wpc_mono; [by apply (create_temp_file_spec v)| |done|done].
  intros [i temp] d1 [H1 H2]. wpc_step. apply wpc_attempt.
  eapply wpc_mono; [by eapply (fill_and_rename_spec v)| | |done].
  - intros [] d2 H3. wpc_step. apply wpc_attempt.
    eapply wpc_mono; [by apply (sync_directory_spec text)| | |by intros ? []]; by intros * ?; wpc_steps.
  - intros e d2 [H3 [ino H4]]. wpc_step. apply wpc_attempt.
    eapply wpc_mono; [by apply remove_file_spec; [apply H4|]| | |by intros; apply Hold]; by intros * ?; wpc_steps.
Qed.
End Replace.

(** ** Documents *)

Definition stored_fields (r : StoredRule) : string * RuleClass := (comm_text (sr_comm r), sr_class r).

(** What [serde_json] documents: decoding the pretty-printed document gives its
    fields back, and a decoded number and string have their Rust types. *)
Class DocumentCodecLaws `{DC : DocumentCodec} : Prop := {
  decode_pretty (d : StoredDocument) bytes :
    (0 ≤ sd_revision d ≤ u64_max)%Z →
    Forall (λ r, is_utf8 (comm_text (sr_comm r)) = true) (sd_rules d) →
    to_vec_pretty d = Ok bytes →
    from_slice (bytes +:+ String "010"%char "")
    = Ok (schema_version d, sd_revision d, stored_fields <$> sd_rules d);
  decode_types bytes version n rs :
    from_slice bytes = Ok (version, n, rs) → (0 ≤ n ≤ u64_max)%Z ∧ Forall (λ r, is_utf8 r.1 = true) rs;
}.

(** A load of the contents a name has on the medium. *)
Definition load_contents `{DocumentCodec} (path : string) (c : option string) : result string (RuleTable * Z) :=
  match c with None => Ok (∅, 0%Z) | Some bytes => parse_document path bytes end.

Definition stores `{DocumentCodec} (path : string) (r : RuleSnapshot) (c : option string) : Prop :=
  load_contents path c = Ok (learned r, revision r).

Section Documents.
Context `{DC : DocumentCodec, !DocumentCodecLaws}.

Lemma decode_rules (l : list (Comm * RuleClass)) :
  Forall (λ p, comm_ok p.1) l →
  collect_result decode_rule
    (stored_fields <$> (stored_rule <$> l))
  = Ok (stored_rule <$> l).
Proof.
  induction 1 as [|[c k] l [Hc _] _ IH]; [done|]. csimpl. unfold decode_rule at 1. unfold Comm_new. csimpl.
  apply validate_comm_Ok in Hc. simpl in Hc. rewrite Hc. simpl. rewrite IH. by destruct c.
Qed.

Lemma insert_rules path (l : list (Comm * RuleClass)) (m : RuleTable) :
  NoDup l.*1 → Forall (λ p, m !! p.1 = None) l →
  fold_result (insert_rule path) m (stored_rule <$> l)
  = Ok (list_to_map l ∪ m).
Proof.
  revert m. induction l as [|[c k] l IH]; intros m Hn Hm; csimpl; [by rewrite (left_id_L ∅ (∪))|].
  apply NoDup_cons in Hn as [Hc Hn]. apply Forall_cons in Hm as [Hk Hm]. simpl in *.
  unfold insert_rule at 1. simpl. rewrite Hk. unfold mbind, result_bind. rewrite IH.
  - f_equal. rewrite <- insert_union_l, <- insert_union_r; [done|].
    by apply not_elem_of_list_to_map_1.
  - done.
  - apply Forall_forall. intros [d j] Hd. rewrite Forall_forall in Hm. simpl.
    rewrite lookup_insert_ne; [by apply (Hm _ Hd)|].
    intros ->. apply Hc. apply list_elem_of_fmap. by exists (d, j).
Qed.

Lemma table_in_order_NoDup (t : RuleTable) : NoDup (table_in_order t).*1.
Proof.
  unfold table_in_order. rewrite sort_by_perm. apply NoDup_fst_map_to_list.
Qed.

Lemma list_to_map_in_order (t : RuleTable) : list_to_map (table_in_order t) = t.
Proof.
  rewrite <- (list_to_map_to_list t) at 2. apply list_to_map_proper; [apply table_in_order_NoDup|].
  apply sort_by_perm.
Qed.

Lemma canonical_round_trip path r bytes :
  table_ok (learned r) → (0 ≤ revision r ≤ u64_max)%Z →
  canonical_learned_json r = Ok bytes → stores path r (Some bytes).
Proof.
  intros Ht Hr Hb. unfold canonical_learned_json, canonical_document in Hb.
  apply result_bind_Ok in Hb as (text & Hb & [= <-]). apply map_err_Ok in Hb.
  unfold stores, load_contents, parse_document, document_from_slice.
  erewrite (decode_pretty (MkStoredDocument RULES_SCHEMA_VERSION (revision r) (stored_rule <$> table_in_order (learned r))));
    [simpl|exact Hr| |exact Hb].
  2:{ simpl. apply Forall_fmap, (Forall_impl (λ p, comm_ok p.1)); [by apply table_in_order_ok|]. by intros p []. }
  rewrite decode_rules by by apply table_in_order_ok.
  simpl.
  rewrite insert_rules; [|apply table_in_order_NoDup|].
  - simpl. by rewrite (right_id_L ∅ (∪)), list_to_map_in_order.
  - apply Forall_forall. intros. apply lookup_empty.
Qed.
End Documents.

(** ** Compare and set *)

Section CompareAndSet.
Context `{DC : DocumentCodec, !DocumentCodecLaws}.
Implicit Types (s : RuleStore) (d : Disk).

Record rules_ok (r : RuleSnapshot) : Prop := {
  ro_snapshot : snapshot_ok r;
  ro_names : table_ok (learned r);
  ro_revision : (0 ≤ revision r ≤ u64_max)%Z;
}.

(** The store and its document agree, whatever a loss of power does. *)
Record store_ok s d (name : string) : Prop := {
  st_name : file_name (store_path s) = Some name;
  st_rules : rules_ok (rules s);
  st_document : safe name (stores (store_path s) (rules s)) d;
}.

(** The rules with [comm] changed to [desired]. *)
Record changed_rule (comm : Comm) (desired : RuleState) (r r' : RuleSnapshot) : Prop := {
  cr_learned : learned r' = with_rule (learned r) comm desired;
  cr_base : base r' = base r;
  cr_revision : revision r' = (revision r + 1)%Z;
  cr_rules : rules_ok r';
}.

Lemma next_rules r comm desired n next :
  rules_ok r → comm_ok comm → next_revision r = Ok n →
  RuleSnapshot_new (base r) (with_rule (learned r) comm desired) n = Ok next →
  changed_rule comm desired r next.
Proof.
  intros [Hs Hn Hr] Hc Hrev Hnew. apply reject_bind_Ok in Hrev as [Hb [= <-]].
  apply reject_Ok, Z.ltb_ge in Hb. apply RuleSnapshot_new_Ok in Hnew as [-> Hok].
  split; [done..|]. split; [done| |simpl; lia].
  simpl. destruct desired as [|class]; simpl; [by apply map_Forall_delete|by apply map_Forall_insert_2].
Qed.

Lemma wpc_on_disk {A} (m : M Disk string A) Q R C s d :
  wpc m (λ a d', Q a (s, d')) (λ e d', R e (s, d')) (λ d', C (s, d')) d →
  wpc (on_disk m) Q R C (s, d).
Proof. unfold wpc, on_disk. simpl. by destruct (m d) as [[] d']. Qed.

(** The document a power loss leaves, in a change from [r] to [r']. *)
Definition one_of_two (path : string) (r r' : RuleSnapshot) (c : option string) : Prop :=
  stores path r c ∨ stores path r' c.

(** How a change of [comm] can end. *)
Definition cas_returns comm expected desired s d name (result : CasResult) (sd : RuleStore * Disk) : Prop :=
  store_ok sd.1 sd.2 name ∧ persistence_uncertain sd.1 = persistence_uncertain s
  ∧ store_path sd.1 = store_path s
  ∧ cas_comm result = comm ∧ cas_previous result = learned_state (rules s) comm
  ∧ cas_revision result = revision (rules sd.1)
  ∧ cas_current result = learned_state (rules sd.1) comm
  ∧ cas_effective result = state_from_option (effective (rules sd.1) !! comm)
  ∧ match cas_status result with
    | Conflict => learned_state (rules s) comm ≠ expected ∧ sd = (s, d)
    | Noop => learned_state (rules s) comm = expected ∧ expected = desired ∧ sd = (s, d)
    | Applied => learned_state (rules s) comm = expected ∧ expected ≠ desired
                 ∧ changed_rule comm desired (rules s) (rules sd.1)
    end.

Definition cas_throws comm expected desired s (name : string) (sd : RuleStore * Disk) : Prop :=
  store_path sd.1 = store_path s ∧ file_name (store_path s) = Some name
  ∧ ((sd.1 = s ∧ store_ok s sd.2 name)
     ∨ (persistence_uncertain sd.1 = true ∧ learned_state (rules s) comm = expected
        ∧ changed_rule comm desired (rules s) (rules sd.1)
        ∧ stores (store_path s) (rules sd.1) (visible sd.2 name)
        ∧ safe name (one_of_two (store_path s) (rules s) (rules sd.1)) sd.2)).

Definition cas_stops comm desired s name (sd : RuleStore * Disk) : Prop :=
  ∃ r', changed_rule comm desired (rules s) r'
        ∧ safe name (one_of_two (store_path s) (rules s) r') sd.2.

Lemma learned_state_with_rule comm desired r r' :
  changed_rule comm desired r r' → learned_state r' comm = desired.
Proof.
  intros [Hl _ _ _]. unfold learned_state. rewrite Hl.
  destruct desired; simpl; [by rewrite lookup_delete_eq|by rewrite lookup_insert_eq].
Qed.

Lemma compare_and_set_spec comm expected desired s d name :
  comm_ok comm → store_ok s d name →
  wpc (compare_and_set comm expected desired)
    (cas_returns comm expected desired s d name) (λ _, cas_throws comm expected desired s name)
    (cas_stops comm desired s name) (s, d).
Proof.
  intros Hc Hok. pose proof Hok as [Hn Hr Hd].
  assert (cas_throws comm expected desired s name (s, d)) as Hthrow by (split_and!; auto).
  unfold compare_and_set. wpc_step. wpc_step. wpc_step. wpc_step; [|exact Hthrow].
  destruct (bool_decide_reflect (learned_state (rules s) comm ≠ expected)) as [He|He].
  { apply wpc_ret. split_and!; done. }
  apply dec_stable in He.
  destruct (bool_decide_reflect (learned_state (rules s) comm = desired)) as [Hq|Hq].
  { apply wpc_ret. unfold cas_returns. simpl. split_and!; auto; congruence. }
  wpc_step. wpc_step; [|exact Hthrow]. wpc_step. wpc_step; [|exact Hthrow].
  rename a0 into n, a1 into next. wpc_step. wpc_step; [|exact Hthrow]. rename a0 into text.
  assert (changed_rule comm desired (rules s) next) as Hch by by eapply next_rules.
  assert (stores (store_path s) next (Some text)) as Hst.
  { destruct Hch as [_ _ _ []]. by apply canonical_round_trip. }
  wpc_step. apply wpc_on_disk.
  eapply wpc_mono;
    [by apply (atomic_replace_spec name (stores (store_path s) (rules s)) (visible d name))| | |].
  - intros [|error] d1 Hd1; wpc_steps.
    + assert (store_ok (MkRuleStore (store_path s) next (persistence_uncertain s)) d1 name) as Hok'.
      { split; [done|by apply Hch|]. eapply safe_mono; [|exact Hd1]. by intros ? <-. }
      unfold cas_returns. simpl. rewrite (learned_state_with_rule _ _ _ _ Hch).
      split_and!; try done; congruence.
    + split_and!; try done. right. destruct Hd1 as [Hd1 Hd2].
      split_and!; try done.
      * simpl. rewrite (replaced_visible name (stores (store_path s) (rules s)) text d1) by by split. done.
      * eapply safe_mono; [|exact Hd1]. intros c [?| ->]; [by left|by right].
  - intros e d1 [Hd1 _]. split_and!; try done. left. split; [done|]. by split.
  - intros d1 Hd1. exists next. split; [done|]. eapply safe_mono; [|exact Hd1].
    intros c [?| ->]; [by left|by right].
Qed.
End CompareAndSet.

(** ** Restarting after a loss of power *)

Record power_loss (d d' : Disk) : Prop := {
  pl_directory : directory d' ∈ possible d;
  pl_settled : unsynced d' = [];
  pl_inodes i ino : inodes d !! i = Some ino →
    ∃ text, inodes d' !! i = Some (MkInode text true) ∧ (synced ino = true → text = written ino);
  pl_next : next_inode d' = next_inode d;
}.

Lemma safe_power_loss name P d d' :
  safe name P d → power_loss d d' → ∃ c, P c ∧ safe name (eq c) d'.
Proof.
  intros [[Hb] Hd] [Hdir Hu Hi Hn]. destruct (Hd _ Hdir) as (c & HP & Hc). exists c. split; [done|].
  assert (possible d' = [directory d']) as Hp by (unfold possible; by rewrite Hu).
  split; [split|].
  - rewrite Hp, Hn. intros dir n i ->%list_elem_of_singleton. by apply Hb.
  - rewrite Hp. intros dir ->%list_elem_of_singleton. exists c. split; [done|].
    destruct c as [text|]; simpl in *; [|done]. destruct Hc as (i & Hl & Hino).
    destruct (Hi _ _ Hino) as (t & Ht & He). rewrite (He eq_refl) in Ht. eauto.
Qed.

Section Restart.
Context `{DC : DocumentCodec, !DocumentCodecLaws}.

Lemma read_kept_spec name P v d :
  kept name P v d →
  wpc (read_file name) (λ r d', r = v ∧ kept name P v d') (λ _, kept name P v) (kept name P v) d.
Proof.
  intros Hk. unfold read_file. wpc_step.
  eapply wpc_mono; [by apply (query_spec name P v (λ _, True))| |done|done].
  intros [] d1 (Hk1 & _). wpc_step. wpc_step. unfold id. pose proof Hk1 as [_ Hv]. unfold visible in Hv.
  destruct (directory d1 !! name) as [i|]; simpl in *; [|by apply wpc_ret].
  destruct (inodes d1 !! i); by apply wpc_ret.
Qed.

Lemma read_file_spec name P d :
  safe name P d →
  wpc (read_file name) (λ r d', P r ∧ safe name P d') (λ _ d', safe name P d') (λ d', safe name P d') d.
Proof.
  intros Hs. wpc_call (read_kept_spec name P (visible d name)); [by split| |by intros ?? []|by intros ? []].
  intros r d' [-> [Hs' _]]. split; [by apply safe_visible|done].
Qed.

Lemma load_document_spec path name r P d :
  file_name path = Some name → (∀ c, P c → stores path r c) → safe name P d →
  wpc (load_document path) (λ lr d', lr = (learned r, revision r) ∧ safe name P d')
    (λ _ d', safe name P d') (λ d', safe name P d') d.
Proof.
  intros Hn HP Hs. unfold load_document. rewrite Hn. wpc_step. apply wpc_context. simpl.
  wpc_call read_file_spec; [done| |done|done]. intros c d1 [Hc Hs1]. apply HP in Hc.
  unfold stores, load_contents in Hc. destruct c as [bytes|]; [|apply wpc_ret; split; [congruence|done]].
  rewrite Hc. by apply wpc_ret.
Qed.

Lemma wpc_ensure_parent path name P (Q : unit → Disk → Prop) d :
  file_name path = Some name → safe name P d → (∀ d', safe name P d' → Q tt d') →
  wpc (ensure_parent_directory path) Q (λ _ d', safe name P d') (λ d', safe name P d') d.
Proof.
  intros Hn Hs HQ. unfold ensure_parent_directory. rewrite Hn.
  assert (∀ m d, safe name P d →
    wpc (with_context m query) (λ _ d', safe name P d') (λ _ d', safe name P d') (λ d', safe name P d') d) as Hq.
  { intros m d' Hs'. apply wpc_context, wpc_disk_call; intros; try by apply safe_set_calls. done. }
  wpc_step. apply wpc_ret. wpc_step. wpc_call Hq; [done| |done|done]. intros [] d1 Hs1. wpc_step.
  wpc_call Hq; [done| |done|done]. intros [] d2 Hs2. wpc_step. wpc_step. apply wpc_lift; [|done].
  intros [] _. by apply HQ.
Qed.

Lemma store_open_spec path name c r d :
  file_name path = Some name → safe name (eq c) d → rules_ok r → stores path r c →
  wpc (store_open path (base r))
    (λ s' d', s' = MkRuleStore path r false ∧ store_ok s' d' name) (λ _ d', safe name (eq c) d')
    (λ d', safe name (eq c) d') d.
Proof.
  intros Hn Hs Hr Hst. unfold store_open. wpc_step. apply wpc_ensure_parent with (name := name); [done|done|].
  intros d3 Hs3.
  wpc_step. wpc_call (load_document_spec path name r (eq c)); [done|by intros ? <-|done| |done|done].
  intros lr d4 [-> Hs4]. wpc_step. pose proof Hr as [[R1 R2 R3] _ _].
  assert (RuleSnapshot_new (base r) (learned r) (revision r) = Ok r) as Hnew.
  { apply RuleSnapshot_new_Ok. split; [|by split]. destruct r; simpl in *. congruence. }
  rewrite Hnew. apply wpc_lift; [intros a0 [= <-]|done]. apply wpc_ret. split; [done|].
  split; [done|done|]. eapply safe_mono; [|exact Hs4]. by intros ? <-.
Qed.

(** Any document that loads gives valid rules. *)
Lemma insert_rules_ok path (rs : list StoredRule) (m m' : RuleTable) :
  Forall (λ r, comm_ok (sr_comm r)) rs → table_ok m → fold_result (insert_rule path) m rs = Ok m' → table_ok m'.
Proof.
  intros Hrs. revert m. induction Hrs as [|r rs Hr _ IH]; intros m Hm Hf; simpl in Hf; [by injection Hf as <-|].
  apply result_bind_Ok in Hf as (m1 & Hi & Hf). apply (IH m1); [|done].
  unfold insert_rule in Hi. destruct (m !! sr_comm r); [done|]. injection Hi as <-. by apply map_Forall_insert_2.
Qed.

Lemma load_contents_ok path c l n :
  load_contents path c = Ok (l, n) → table_ok l ∧ (0 ≤ n ≤ u64_max)%Z.
Proof.
  destruct c as [bytes|]; simpl; [|intros [= <- <-]; split; [apply map_Forall_empty|by vm_compute]].
  unfold parse_document, document_from_slice. intros Hp.
  apply result_bind_Ok in Hp as (doc & Hd & Hp). apply map_err_Ok in Hd.
  apply result_bind_Ok in Hd as ([[v m] rs] & Hdec & Hd). apply decode_types in Hdec as [Hm Hu].
  apply result_bind_Ok in Hd as (rs' & Hc & [= <-]). apply reject_bind_Ok in Hp as [_ Hp].
  apply result_bind_Ok in Hp as (l' & Hf & [= <- <-]). simpl in *. split; [|done].
  eapply insert_rules_ok; [|apply map_Forall_empty|exact Hf].
  apply collect_result_Ok in Hc. clear Hf. revert Hu. induction Hc as [|r r' rs rs' Hr _ IH]; [constructor|].
  intros [Hr1 Hrs]%Forall_cons. constructor; [|by apply IH].
  unfold decode_rule in Hr. apply result_bind_Ok in Hr as (comm & Hn & [= <-]). simpl.
  by eapply Comm_new_ok.
Qed.

Lemma store_opens path name c b d :
  file_name path = Some name → safe name (eq c) d →
  wpc (store_open path b)
    (λ s d', store_path s = path ∧ base (rules s) = b ∧ persistence_uncertain s = false ∧ store_ok s d' name)
    (λ _ d', safe name (eq c) d') (λ d', safe name (eq c) d') d.
Proof.
  intros Hn Hs.
  destruct (load_contents path c) as [[l n]|e] eqn:Hl;
    [destruct (RuleSnapshot_new b l n) as [r|e] eqn:Hr|].
  - apply load_contents_ok in Hl as Hlo. apply RuleSnapshot_new_Ok in Hr as [Hr Hok].
    destruct Hlo as [Hlt Hln].
    assert (rules_ok r) as Hrok by (subst r; by split).
    assert (stores path r c) as Hst by (subst r; done).
    assert (base r = b) as <- by (subst r; done).
    wpc_call (store_open_spec path name c r); [done|done|done|done| |done|done].
    intros s d' [-> Hd]. done.
  - unfold store_open. apply wpc_bind. apply wpc_ensure_parent with (name := name); [done|done|]. intros d1 Hs1.
    apply wpc_bind. unfold load_document. rewrite Hn. apply wpc_bind, wpc_context.
    wpc_call read_file_spec; [exact Hs1| |done|done]. intros c' d2 [<- Hs2].
    unfold load_contents in Hl. destruct c as [bytes|]; [rewrite Hl|injection Hl as <- <-]; simpl.
    + apply wpc_lift; [|done]. intros lr [= <-]. apply wpc_bind. rewrite Hr. simpl. by apply wpc_lift.
    + apply wpc_ret, wpc_bind. rewrite Hr. simpl. by apply wpc_lift.
  - unfold store_open. apply wpc_bind. apply wpc_ensure_parent with (name := name); [done|done|]. intros d1 Hs1.
    apply wpc_bind. unfold load_document. rewrite Hn. apply wpc_bind, wpc_context.
    wpc_call read_file_spec; [exact Hs1| |done|done]. intros c' d2 [<- Hs2].
    unfold load_contents in Hl. destruct c as [bytes|]; [rewrite Hl|done]. by apply wpc_lift.
Qed.

(** Without failing calls the store opens. *)
Lemma query_quiet d : disk_calls d = [] → query d = (Ret tt, d).
Proof. intros Hc. unfold query, disk_call. by rewrite Hc. Qed.

Lemma load_document_quiet path name d :
  disk_calls d = [] → file_name path = Some name →
  load_document path d = (of_result (load_contents path (visible d name)), d).
Proof.
  intros Hc Hn. unfold load_document, with_context, attempt, read_file. rewrite Hn.
  unfold mbind, M_bind. simpl. rewrite query_quiet by done. unfold gets, id, visible.
  destruct (directory d !! name) as [i|]; simpl; [|done]. by destruct (inodes d !! i).
Qed.

Lemma store_open_quiet path name d r :
  disk_calls d = [] → parent_is_directory d = true → file_name path = Some name →
  rules_ok r → stores path r (visible d name) →
  store_open path (base r) d = (Ret (MkRuleStore path r false), d).
Proof.
  intros Hc Hp Hn [[R1 R2 R3] _ _] Hst.
  assert (RuleSnapshot_new (base r) (learned r) (revision r) = Ok r) as Hnew.
  { apply RuleSnapshot_new_Ok. split; [|by split]. destruct r; simpl in *. congruence. }
  unfold store_open, ensure_parent_directory, with_context, attempt, gets, lift, mbind, M_bind. rewrite Hn.
  do 2 (simpl; rewrite query_quiet by done). simpl. rewrite Hp. simpl.
  rewrite (load_document_quiet path name) by done. unfold stores in Hst. rewrite Hst. simpl.
  by rewrite Hnew.
Qed.

(** What a restart finds after a loss of power at any moment of a change. *)
Definition restart_finds comm (expected desired : RuleState) (s : RuleStore) (m : outcome string CasResult)
    (r : RuleSnapshot) : Prop :=
  match m with
  | Ret result =>
    if decide (cas_status result = Applied) then changed_rule comm desired (rules s) r else r = rules s
  | _ => r = rules s ∨ changed_rule comm desired (rules s) r
  end.

Lemma power_loss_finds comm expected desired s d name d' :
  comm_ok comm → store_ok s d name →
  power_loss (compare_and_set comm expected desired (s, d)).2.2 d' →
  ∃ r c, restart_finds comm expected desired s (compare_and_set comm expected desired (s, d)).1 r
       ∧ base r = base (rules s) ∧ rules_ok r ∧ stores (store_path s) r c ∧ safe name (eq c) d'.
Proof.
  intros Hc Hok Hp. pose proof (st_rules _ _ _ Hok) as Hr.
  destruct (wpc_elim _ _ _ _ _ (compare_and_set_spec comm expected desired s d name Hc Hok))
    as [(result & sd & He & Hret)|[(e & sd & He & Hthrow)|(sd & He & Hstop)]]; rewrite He in *; simpl in *.
  - destruct Hret as ([Hn Hr' Hsafe] & _ & Hpath & _ & _ & _ & _ & _ & Hstatus).
    destruct (safe_power_loss _ _ _ _ Hsafe Hp) as (c & Hst & Hc'). rewrite Hpath in Hst.
    exists (rules sd.1), c. unfold restart_finds.
    destruct (cas_status result); simpl in *.
    + destruct Hstatus as (_ & _ & Hch). split_and!; try done. by destruct Hch.
    + by destruct Hstatus as (_ & _ & ->).
    + by destruct Hstatus as (_ & ->).
  - destruct Hthrow as (Hpath & Hn & [[Hs [_ Hr' Hsafe]]|(_ & _ & Hch & _ & Hsafe)]).
    + destruct (safe_power_loss _ _ _ _ Hsafe Hp) as (c & Hst & Hc').
      exists (rules s), c. split_and!; try done. by left.
    + destruct (safe_power_loss _ _ _ _ Hsafe Hp) as (c & [Hst|Hst] & Hc').
      * exists (rules s), c. split_and!; try done. by left.
      * exists (rules sd.1), c. split_and!; try done; [by right|by destruct Hch..].
  - destruct Hstop as (r' & Hch & Hsafe).
    destruct (safe_power_loss _ _ _ _ Hsafe Hp) as (c & [Hst|Hst] & Hc').
    + exists (rules s), c. split_and!; try done. by left.
    + exists r', c. split_and!; try done; [by right|by destruct Hch..].
Qed.

(** C14. Learned rules survive crashes: whatever system call of a change fails or
    is where the machine stops, and whichever unsynced state the medium keeps, the
    store reopens with the rules before the change or the rules after it, whole,
    and in agreement with its document again; after an acknowledged change it is
    the rules after it, after a conflict or a no-op the rules before. *)
Theorem learned_rules_survive_crashes comm expected desired s d name d' :
  comm_ok comm → store_ok s d name →
  power_loss (compare_and_set comm expected desired (s, d)).2.2 d' →
  ∃ r, restart_finds comm expected desired s (compare_and_set comm expected desired (s, d)).1 r
    ∧ wpc (store_open (store_path s) (base (rules s)))
        (λ s' d'', rules s' = r ∧ store_ok s' d'' name) (λ _ _, True) (λ _, True) d'
    ∧ (disk_calls d' = [] → parent_is_directory d' = true →
       store_open (store_path s) (base (rules s)) d' = (Ret (MkRuleStore (store_path s) r false), d')).
Proof.
  intros Hc Hok Hp. pose proof (st_name _ _ _ Hok) as Hn.
  destruct (power_loss_finds _ _ _ _ _ _ _ Hc Hok Hp) as (r & c & Hf & Hb & Hr & Hst & Hs).
  exists r. rewrite <- Hb. split_and!; [done| |].
  - wpc_call store_open_spec; try done. by intros s' d'' [-> ?].
  - intros Hq Hdir. apply (store_open_quiet _ name); try done.
    by rewrite <- (safe_visible name (eq c) d' Hs).
Qed.
End Restart.
