(* ===== verification/RuleActivation.v ===== *)
(** * Activations of the agent ([scx_agent_classed/src/activation.rs])

    Unknown process names are gathered and sent to the tuning agent in batches, one
    in flight at a time, by a worker thread behind channels of one slot. *)

From S2P Require Export Rules.

Local Open Scope nat_scope.

(** ** Batches *)

Record ActivationBatcher := MkBatcher {
  ab_pending : gset Comm;
  ab_pending_since : option Z;
  ab_in_flight : option (list Comm);
  ab_coalesce : Z;
  ab_max_batch : nat;
}.

(** [assert!(max_batch > 0)]. *)
Definition batcher_new (coalesce : Z) (max_batch : nat) : outcome string ActivationBatcher :=
  if 0 <? max_batch then Ret (MkBatcher ∅ None None coalesce max_batch) else Panic.

Definition set_pending_names (pending : gset Comm) (since : option Z) (b : ActivationBatcher) : ActivationBatcher :=
  MkBatcher pending since (ab_in_flight b) (ab_coalesce b) (ab_max_batch b).
Definition since_if_any (pending : gset Comm) (since : option Z) : option Z :=
  if bool_decide (pending = ∅) then None else since.

Definition observe (comm : Comm) (now : Z) (b : ActivationBatcher) : ActivationBatcher :=
  if bool_decide (comm ∈ default [] (ab_in_flight b)) then b else
  let inserted := bool_decide (comm ∉ ab_pending b) in
  set_pending_names ({[comm]} ∪ ab_pending b)
    (match ab_pending_since b with
     | None => if inserted then Some now else None
     | Some t => Some t
     end) b.

Definition remove_pending (comm : Comm) (b : ActivationBatcher) : ActivationBatcher :=
  let pending := ab_pending b ∖ {[comm]} in
  set_pending_names pending (since_if_any pending (ab_pending_since b)) b.

(** [BTreeSet::iter]. *)
Definition comms_in_order (s : gset Comm) : list Comm :=
  sort_by (λ c d, String.leb (comm_text c) (comm_text d)) (elements s).

(** [duration_since] is zero for an earlier instant. *)
Definition ready (now : Z) (b : ActivationBatcher) : bool :=
  (ab_max_batch b <=? size (ab_pending b))
  || match ab_pending_since b with
     | Some started => (ab_coalesce b <=? Z.max (now - started) 0)%Z
     | None => false
     end.

Definition take_ready (now : Z) (b : ActivationBatcher) : option (list Comm) * ActivationBatcher :=
  if bool_decide (is_Some (ab_in_flight b)) || bool_decide (ab_pending b = ∅) then (None, b) else
  if negb (ready now b) then (None, b) else
  let batch := take (ab_max_batch b) (comms_in_order (ab_pending b)) in
  let pending := ab_pending b ∖ list_to_set batch in
  (Some batch,
   MkBatcher pending (since_if_any pending (ab_pending_since b)) (Some batch) (ab_coalesce b) (ab_max_batch b)).

Definition finish (b : ActivationBatcher) : option (list Comm) * ActivationBatcher :=
  (ab_in_flight b,
   MkBatcher (ab_pending b) (ab_pending_since b) None (ab_coalesce b) (ab_max_batch b)).

(** ** The notifier and its worker *)

Record RuleMissActivation := MkRuleMissActivation { ra_comms : list string; ra_revision : Z }.

Record ActivationResponse := MkActivationResponse {
  ar_accepted : bool; ar_status : string; ar_error : option string }.
Inductive ActivationCompletion := CompletedWith (response : ActivationResponse) | FailedWith (error : string).
Inductive NotifierError := Busy | Disconnected.

(** The two channels hold one message each; [an_working] is the activation the
    worker is sending or whose completion it is handing over. *)
Record ActivationNotifier := MkNotifier {
  an_command : option RuleMissActivation;
  an_working : option (RuleMissActivation * option ActivationCompletion);
  an_completion : option ActivationCompletion;
  an_stopped : bool;
}.
Definition notifier_start : ActivationNotifier := MkNotifier None None None false.

Definition start_activation (a : RuleMissActivation) (n : ActivationNotifier)
    : result NotifierError unit * ActivationNotifier :=
  if an_stopped n then (Err Disconnected, n) else
  match an_command n with
  | Some _ => (Err Busy, n)
  | None => (Ok tt, MkNotifier (Some a) (an_working n) (an_completion n) (an_stopped n))
  end.

Definition poll_completion (n : ActivationNotifier)
    : result NotifierError (option ActivationCompletion) * ActivationNotifier :=
  match an_completion n with
  | Some c => (Ok (Some c), MkNotifier (an_command n) (an_working n) None (an_stopped n))
  | None => if an_stopped n then (Err Disconnected, n) else (Ok None, n)
  end.

(** One step of the worker: it receives the command, its request to the agent
    ends, or it hands the completion over to a channel with room. *)
Inductive worker_step : ActivationNotifier → ActivationNotifier → Prop :=
  | worker_receives a done :
      worker_step (MkNotifier (Some a) None done false) (MkNotifier None (Some (a, None)) done false)
  | worker_sent a completion command done :
      worker_step (MkNotifier command (Some (a, None)) done false)
        (MkNotifier command (Some (a, Some completion)) done false)
  | worker_hands_over a completion command :
      worker_step (MkNotifier command (Some (a, Some completion)) None false)
        (MkNotifier command None (Some completion) false).

(** ** The response of the agent *)

(** The response the socket gives, read to the end and decoded. *)
Record WireActivationResponse := MkWireResponse {
  wr_request_id : string; wr_status : string; wr_accepted : bool; wr_error : option string }.

Definition MAX_RESPONSE_BYTES : nat := 64 * 1024.

(** What a read of the socket gives: bytes, the end, a time-out, or an error; and
    whether the notifier was told to stop before it. *)
Inductive SocketRead := ReadBytes (bytes : string) | ReadEnd | ReadTimeout | ReadError (error : string).

Fixpoint read_response (expired : bool) (reads : list (bool * SocketRead)) (response : string)
    : result string string :=
  match reads with
  | [] => Ok response
  | (true, _) :: _ => Err "activation notifier is stopping"
  | (false, ReadEnd) :: _ => Ok response
  | (false, ReadBytes bytes) :: reads =>
    let response := response +:+ bytes in
    if MAX_RESPONSE_BYTES <? String.length response
    then Err "tuning-agent activation response exceeds 64 KiB"
    else read_response expired reads response
  | (false, ReadTimeout) :: reads =>
    if expired then Err "timed out" else read_response expired reads response
  | (false, ReadError error) :: _ => Err error
  end.

Definition activation_response (decode : string → result string WireActivationResponse) (request_id : string)
    (response : string) : result string ActivationResponse :=
  response ← decode response;
  _ ← reject (negb (String.eqb (wr_request_id response) request_id))
        "tuning-agent activation response has the wrong request_id";
  Ok (MkActivationResponse (wr_accepted response) (wr_status response) (wr_error response)).

(** ** The invariant of the batcher *)

Record batcher_ok (b : ActivationBatcher) : Prop := {
  bo_since : ab_pending_since b = None ↔ ab_pending b = ∅;
  bo_apart : ∀ batch, ab_in_flight b = Some batch →
    batch ≠ [] ∧ length batch ≤ ab_max_batch b ∧ NoDup batch ∧ (∀ c, c ∈ batch → c ∉ ab_pending b);
  bo_max : 0 < ab_max_batch b;
}.

Lemma comms_in_order_elem s c : c ∈ comms_in_order s ↔ c ∈ s.
Proof. unfold comms_in_order. rewrite sort_by_perm. apply elem_of_elements. Qed.
Lemma comms_in_order_NoDup s : NoDup (comms_in_order s).
Proof. unfold comms_in_order. rewrite sort_by_perm. apply NoDup_elements. Qed.
Lemma comms_in_order_length s : length (comms_in_order s) = size s.
Proof. unfold comms_in_order, size, set_size. simpl. by rewrite sort_by_perm. Qed.

Lemma since_if_any_ok pending since :
  (since = None → pending = ∅) → since_if_any pending since = None ↔ pending = ∅.
Proof. intros H. unfold since_if_any. case_bool_decide; naive_solver. Qed.

Lemma observe_ok comm now b : batcher_ok b → batcher_ok (observe comm now b).
Proof.
  intros [H1 H2 H3]. unfold observe. case_bool_decide as Hin; [done|].
  assert ({[comm]} ∪ ab_pending b ≠ ∅) as Hne by (intros He; assert (comm ∈ ({[comm]} ∪ ab_pending b)) as Hc by
    (apply elem_of_union; left; by apply elem_of_singleton); rewrite He in Hc; by apply not_elem_of_empty in Hc).
  split; simpl; [| |done].
  - destruct (ab_pending_since b) as [t|] eqn:Ht; [by split|].
    assert (ab_pending b = ∅) as Hp by by apply H1.
    rewrite bool_decide_eq_true_2; [by split|]. rewrite Hp. apply not_elem_of_empty.
  - intros batch Hb. destruct (H2 batch Hb) as (? & ? & ? & Hap). split_and!; [done..|].
    intros c Hc. rewrite Hb in Hin. simpl in Hin. rewrite elem_of_union, elem_of_singleton.
    intros [->|Hp]; [done|by apply (Hap c)].
Qed.

Lemma remove_pending_ok comm b : batcher_ok b → batcher_ok (remove_pending comm b).
Proof.
  intros [H1 H2 H3]. split; simpl; [| |done].
  - apply since_if_any_ok. intros Hs. apply H1 in Hs as ->. apply set_eq. intros c. set_solver.
  - intros batch Hb. destruct (H2 batch Hb) as (? & ? & ? & Hap). split_and!; [done..|].
    intros c Hc. rewrite elem_of_difference. intros [? _]. by apply (Hap c).
Qed.

Lemma take_ready_ok now b : batcher_ok b → batcher_ok (take_ready now b).2.
Proof.
  intros Hb. pose proof Hb as [H1 H2 H3]. unfold take_ready. case_bool_decide as Hf; simpl; [done|].
  case_bool_decide as Hp; simpl; [done|]. destruct (negb (ready now b)); [done|].
  split; simpl; [|intros batch [= <-]; split_and!|done].
  - apply since_if_any_ok. intros Hs. apply H1 in Hs. done.
  - intros He. apply (f_equal length) in He. rewrite length_take, comms_in_order_length in He. simpl in He.
    pose proof (size_non_empty_iff (ab_pending b)) as [_ Hz]. specialize (Hz ltac:(by rewrite leibniz_equiv_iff)). lia.
  - rewrite length_take. lia.
  - eapply sublist_NoDup; [apply comms_in_order_NoDup|apply sublist_take].
  - intros c Hc. rewrite elem_of_difference, elem_of_list_to_set. tauto.
Qed.

Lemma finish_ok b : batcher_ok b → batcher_ok (finish b).2.
Proof. intros [H1 H2 H3]. split; simpl; [done|discriminate|done]. Qed.

(** What is taken was pending, nothing else leaves the pending names. *)
Lemma take_ready_moves now b batch b' :
  take_ready now b = (Some batch, b') →
  ab_in_flight b = None ∧ ab_in_flight b' = Some batch
  ∧ (∀ c, c ∈ ab_pending b ↔ c ∈ batch ∨ c ∈ ab_pending b') ∧ (∀ c, c ∈ batch → c ∈ ab_pending b).
Proof.
  unfold take_ready. case_bool_decide as Hf; simpl; [done|]. case_bool_decide as Hp; simpl; [done|].
  destruct (negb (ready now b)); [done|]. intros [= <- <-]. simpl.
  assert (∀ c, c ∈ take (ab_max_batch b) (comms_in_order (ab_pending b)) → c ∈ ab_pending b) as Ht.
  { intros c Hc. apply comms_in_order_elem. eapply subseteq_take; exact Hc. }
  split_and!; [by apply eq_None_not_Some|done| |done].
  intros c. rewrite elem_of_difference, elem_of_list_to_set. split; [|naive_solver].
  intros Hc. destruct (decide (c ∈ take (ab_max_batch b) (comms_in_order (ab_pending b)))); auto.
Qed.
