(* ===== verification/Scheduler.v ===== *)
(** * The scheduler's rule control ([scx_agent_classed/src/scheduler.rs])

    The control requests on the learned rules: the store on disk, the rules in
    memory and the map the BPF program reads are changed together, or the change
    is rolled back, or the scheduler stops.  Then the gathering of unknown process
    names and their activations.  Every map call and every system call can fail. *)

From S2P Require Export RuleStore RuleActivation.

Local Open Scope nat_scope.

(** [bpf_calls]: the outcome of the next calls on the BPF maps, [None] when they
    work.  [bss] is mapped since [init] has checked it. *)
Record Scheduler := MkScheduler {
  rules_map : gmap string string;
  rule_miss_comms : gmap string Z;
  rules_seq : Z;
  nr_task_state_errors : Z;
  nr_rule_refresh_deferred : Z;
  bpf_calls : list (option string);
  disk : Disk;
  rule_store : option RuleStore;
  activation_notifier : option ActivationNotifier;
  activation_allowlist : option (gset Comm);
  activation_batcher : ActivationBatcher;
  last_rule_miss_rescan : Z;
  instant : Z;
  ticks : list Z;
  scheduler_instance_id : string;
  default_class : RuleClass;
  fatal_control_error : option string;
  rule_miss_collection_enabled : bool;
}.

Definition RULE_MISS_RESCAN_INTERVAL : Z := 30 * 1000000000.
Definition MAX_ACTIVATION_COMMS : nat := 128.
Definition ACTIVATION_COALESCE : Z := 250 * 1000000.

Definition set_rules_map (m : gmap string string) (c : Scheduler) : Scheduler :=
  MkScheduler m (rule_miss_comms c) (rules_seq c) (nr_task_state_errors c) (nr_rule_refresh_deferred c)
    (bpf_calls c) (disk c) (rule_store c) (activation_notifier c) (activation_allowlist c)
    (activation_batcher c) (last_rule_miss_rescan c) (instant c) (ticks c) (scheduler_instance_id c)
    (default_class c) (fatal_control_error c) (rule_miss_collection_enabled c).
Definition set_misses (m : gmap string Z) (c : Scheduler) : Scheduler :=
  MkScheduler (rules_map c) m (rules_seq c) (nr_task_state_errors c) (nr_rule_refresh_deferred c)
    (bpf_calls c) (disk c) (rule_store c) (activation_notifier c) (activation_allowlist c)
    (activation_batcher c) (last_rule_miss_rescan c) (instant c) (ticks c) (scheduler_instance_id c)
    (default_class c) (fatal_control_error c) (rule_miss_collection_enabled c).
Definition write_rules_seq (value : Z) (c : Scheduler) : Scheduler :=
  MkScheduler (rules_map c) (rule_miss_comms c) value (nr_task_state_errors c) (nr_rule_refresh_deferred c)
    (bpf_calls c) (disk c) (rule_store c) (activation_notifier c) (activation_allowlist c)
    (activation_batcher c) (last_rule_miss_rescan c) (instant c) (ticks c) (scheduler_instance_id c)
    (default_class c) (fatal_control_error c) (rule_miss_collection_enabled c).
Definition set_bpf_calls (calls : list (option string)) (c : Scheduler) : Scheduler :=
  MkScheduler (rules_map c) (rule_miss_comms c) (rules_seq c) (nr_task_state_errors c)
    (nr_rule_refresh_deferred c) calls (disk c) (rule_store c) (activation_notifier c)
    (activation_allowlist c) (activation_batcher c) (last_rule_miss_rescan c) (instant c) (ticks c)
    (scheduler_instance_id c) (default_class c) (fatal_control_error c) (rule_miss_collection_enabled c).
Definition set_store (store : option RuleStore) (d : Disk) (c : Scheduler) : Scheduler :=
  MkScheduler (rules_map c) (rule_miss_comms c) (rules_seq c) (nr_task_state_errors c)
    (nr_rule_refresh_deferred c) (bpf_calls c) d store (activation_notifier c)
    (activation_allowlist c) (activation_batcher c) (last_rule_miss_rescan c) (instant c) (ticks c)
    (scheduler_instance_id c) (default_class c) (fatal_control_error c) (rule_miss_collection_enabled c).
Definition set_fatal (error : option string) (c : Scheduler) : Scheduler :=
  MkScheduler (rules_map c) (rule_miss_comms c) (rules_seq c) (nr_task_state_errors c)
    (nr_rule_refresh_deferred c) (bpf_calls c) (disk c) (rule_store c) (activation_notifier c)
    (activation_allowlist c) (activation_batcher c) (last_rule_miss_rescan c) (instant c) (ticks c)
    (scheduler_instance_id c) (default_class c) error (rule_miss_collection_enabled c).
Definition set_batcher (b : ActivationBatcher) (c : Scheduler) : Scheduler :=
  MkScheduler (rules_map c) (rule_miss_comms c) (rules_seq c) (nr_task_state_errors c)
    (nr_rule_refresh_deferred c) (bpf_calls c) (disk c) (rule_store c) (activation_notifier c)
    (activation_allowlist c) b (last_rule_miss_rescan c) (instant c) (ticks c)
    (scheduler_instance_id c) (default_class c) (fatal_control_error c) (rule_miss_collection_enabled c).
Definition set_notifier (n : ActivationNotifier) (c : Scheduler) : Scheduler :=
  MkScheduler (rules_map c) (rule_miss_comms c) (rules_seq c) (nr_task_state_errors c)
    (nr_rule_refresh_deferred c) (bpf_calls c) (disk c) (rule_store c) (Some n)
    (activation_allowlist c) (activation_batcher c) (last_rule_miss_rescan c) (instant c) (ticks c)
    (scheduler_instance_id c) (default_class c) (fatal_control_error c) (rule_miss_collection_enabled c).
Definition set_clock (rescan now : Z) (rest : list Z) (c : Scheduler) : Scheduler :=
  MkScheduler (rules_map c) (rule_miss_comms c) (rules_seq c) (nr_task_state_errors c)
    (nr_rule_refresh_deferred c) (bpf_calls c) (disk c) (rule_store c) (activation_notifier c)
    (activation_allowlist c) (activation_batcher c) rescan now rest
    (scheduler_instance_id c) (default_class c) (fatal_control_error c) (rule_miss_collection_enabled c).

Abbreviation SM := (M Scheduler string).

(** ** The BPF maps *)

Definition bpf_call {A} (f : Scheduler → A * Scheduler) : SM A := λ c,
  match bpf_calls c with
  | [] => let '(a, c) := f c in (Ret a, c)
  | None :: calls => let '(a, c) := f (set_bpf_calls calls c) in (Ret a, c)
  | Some error :: calls => (Throw error, set_bpf_calls calls c)
  end.

(** [u32::to_ne_bytes] and [u32::from_ne_bytes] on a little-endian machine. *)
Definition byte_of (s : string) (i : nat) : Z :=
  match String.get i s with Some a => Z.of_N (N_of_ascii a) | None => 0 end.
Definition u32_from_ne_bytes (s : string) : Z :=
  (byte_of s 0 + Z.shiftl (byte_of s 1) 8 + Z.shiftl (byte_of s 2) 16 + Z.shiftl (byte_of s 3) 24)%Z.
Definition class_bytes (class : RuleClass) : string := u32_to_le_bytes (as_bpf_id class).

Definition bpf_lookup (key : string) : SM (option string) := bpf_call (λ c, (rules_map c !! key, c)).
Definition bpf_update (key value : string) : SM unit :=
  bpf_call (λ c, (tt, set_rules_map (<[key := value]> (rules_map c)) c)).
Definition bpf_delete (key : string) : SM unit :=
  bpf_call (λ c, (tt, set_rules_map (delete key (rules_map c)) c)).

Definition publish_update (comm : Comm) (state : RuleState) : SM unit :=
  let key := as_bpf_key comm in
  match state with
  | Present class => with_context "updating BPF rule" (bpf_update key (class_bytes class))
  | Absent =>
    value ← bpf_lookup key;
    match value with
    | Some _ => with_context "deleting BPF rule" (bpf_delete key)
    | None => mret tt
    end
  end.

(** The readers of [rules_map] retry while the sequence is odd or has changed. *)
Definition publish_rule (comm : Comm) (state : RuleState) : SM unit :=
  seq ← gets rules_seq;
  let stable := Z.land seq (u64_max - 1) in
  let updating := u64_wrap (stable + 1) in
  let published := u64_wrap (stable + 2) in
  _ ← modify (write_rules_seq updating);
  update_result ← attempt (publish_update comm state);
  _ ← modify (write_rules_seq published);
  with_context "publishing BPF rule" (lift update_result).

Definition active_rule (comm : Comm) : SM (option RuleClass) :=
  value ← bpf_lookup (as_bpf_key comm);
  match value with
  | None => mret None
  | Some value =>
    if negb (String.length value =? 4) then throw "rules_map returned an invalid value size" else
    let id := u32_from_ne_bytes value in
    if (id =? as_bpf_id Latency)%Z then mret (Some Latency)
    else if (id =? as_bpf_id Batch)%Z then mret (Some Batch)
    else throw ("rules_map returned invalid class id " +:+ show id)
  end.

(** ** Observations *)

Definition store_disabled : string := "learned rule store is disabled".
Definition the_store : SM RuleStore := s ← gets rule_store; lift (ok_or store_disabled s).
Definition in_disk {A} (m : M Disk string A) : SM A := λ c,
  let '(r, d) := m (disk c) in (r, set_store (rule_store c) d c).
Definition in_store {A} (m : M (RuleStore * Disk) string A) : SM A := λ c,
  match rule_store c with
  | None => (Throw store_disabled, c)
  | Some s => let '(r, (s, d)) := m (s, disk c) in (r, set_store (Some s) d c)
  end.

Section Scheduler.
Context `{DC : DocumentCodec, !Sha256}.

Definition persisted_snapshot : SM (RuleTable * bool) :=
  store ← the_store;
  '(persisted, rev) ← in_disk (read_persisted store);
  mret (persisted, (rev =? revision (rules store))%Z && bool_decide (persisted = learned (rules store))).

Definition wire_source (s : RuleSource) : control_wire.RuleSource :=
  match s with Base => control_wire.FromBase | Learned => control_wire.FromLearned end.

Definition rule_observation_with_persisted (comm : Comm) (persisted : RuleTable) (matches_store : bool)
    : SM control_wire.RuleObservation :=
  store ← the_store;
  default ← gets default_class;
  let effective := effective_rule (rules store) comm in
  let '(class, source) := match effective with
                          | Some rule => (er_class rule, wire_source (er_source rule))
                          | None => (default, control_wire.FromDefault)
                          end in
  active ← active_rule comm;
  mret (control_wire.MkRuleObservation (comm_text comm) (class_to_wire class) source
          (class_to_wire <$> active) (class_to_wire <$> persisted !! comm)
          (bool_decide (active = er_class <$> effective) && matches_store)).

Definition rule_observation (comm : Comm) : SM control_wire.RuleObservation :=
  '(persisted, matches_store) ← persisted_snapshot;
  rule_observation_with_persisted comm persisted matches_store.

Definition control_response (request_id : string) (status : control_wire.ControlStatus)
    (current : option RuleState) (observations : list control_wire.RuleObservation)
    (message : option string) (c : Scheduler) : control_wire.ControlResponse :=
  control_wire.MkControlResponse CONTROL_VERSION request_id status (state_to_wire <$> current) observations
    (match rule_store c with Some s => revision (rules s) | None => 0 end)
    (rules_seq c)
    (effective_digest (match rule_store c with Some s => effective (rules s) | None => ∅ end))
    (Some (control_wire.MkControlStats (nr_task_state_errors c) (nr_rule_refresh_deferred c)))
    (Some ("sha256:" +:+ sha256_hex (scheduler_instance_id c)))
    message.

(** ** Unknown names *)

Definition clear_rule_miss (comm : Comm) : SM unit :=
  let key := as_bpf_key comm in
  found ← attempt (bpf_call (λ c, (rule_miss_comms c !! key, c)));
  _ ← match found with
      | Ok (Some _) =>
        _ ← attempt (E' := string) (bpf_call (λ c, (tt, set_misses (delete key (rule_miss_comms c)) c)));
        mret tt
      | _ => mret tt
      end;
  modify (λ c, set_batcher (remove_pending comm (activation_batcher c)) c).

Definition classified (comm : Comm) (c : Scheduler) : bool :=
  match rule_store c with
  | Some store => bool_decide (is_Some (effective_rule (rules store) comm))
  | None => false
  end.

(** ** Control requests *)

Definition respond_control (q : control_wire.ControlRequest) (status : control_wire.ControlStatus)
    (current : option RuleState) (observations : list control_wire.RuleObservation)
    (message : option string) : SM control_wire.ControlResponse :=
  gets (control_response (control_wire.cq_request_id q) status current observations message).

Definition get_rule (q : control_wire.ControlRequest) : SM control_wire.ControlResponse :=
  text ← expect (control_wire.cq_comm q);
  comm ← lift (Comm_new text);
  store ← the_store;
  let current := learned_state (rules store) comm in
  observation ← rule_observation comm;
  respond_control q control_wire.StatusOk (Some current) [observation] None.

Fixpoint observe_all (comms : list Comm) (persisted : RuleTable) (matches_store : bool)
    : SM (list control_wire.RuleObservation) :=
  match comms with
  | [] => mret []
  | comm :: comms =>
    o ← rule_observation_with_persisted comm persisted matches_store;
    os ← observe_all comms persisted matches_store;
    mret (o :: os)
  end.

Definition snapshot_rules (q : control_wire.ControlRequest) : SM control_wire.ControlResponse :=
  texts ← expect (control_wire.cq_comms q);
  comms ← lift (collect_result Comm_new texts);
  '(persisted, matches_store) ← persisted_snapshot;
  observations ← observe_all comms persisted matches_store;
  respond_control q control_wire.StatusOk None observations None.

(** A failed publication: the rule on disk is put back and published again. *)
Definition recover_publish (comm : Comm) (cas : CasResult) : SM unit :=
  rollback ← with_context "rolling back persistent rule after BPF publish failure"
    (in_store (compare_and_set comm (cas_current cas) (cas_previous cas)));
  with_context "restoring BPF rule after publish failure" (publish_rule comm (cas_effective rollback)).

Definition clear_if_present (comm : Comm) (current : RuleState) : SM unit :=
  match current with Present _ => clear_rule_miss comm | Absent => mret tt end.

Definition finish_noop (q : control_wire.ControlRequest) (comm : Comm) (cas : CasResult)
    : SM control_wire.ControlResponse :=
  active ← active_rule comm;
  _ ← (if bool_decide (active ≠ state_class (cas_effective cas)) then
         published ← attempt (publish_rule comm (cas_effective cas));
         match published with
         | Ok _ => mret tt
         | Err error =>
           _ ← modify (set_fatal (Some ("failed to reconcile persistent rule with BPF state: " +:+ error)));
           throw error
         end
       else mret tt);
  _ ← clear_if_present comm (cas_current cas);
  observation ← rule_observation comm;
  respond_control q control_wire.StatusNoop (Some (cas_current cas)) [observation] None.

Definition finish_applied (q : control_wire.ControlRequest) (comm : Comm) (cas : CasResult)
    : SM control_wire.ControlResponse :=
  published ← attempt (publish_rule comm (cas_effective cas));
  match published with
  | Err error =>
    recovery ← attempt (recover_publish comm cas);
    _ ← match recovery with
        | Ok _ => mret tt
        | Err recovery_error =>
          modify (set_fatal (Some ("rule publish failed (" +:+ error +:+ ") and recovery failed ("
                                     +:+ recovery_error +:+ ")")))
        end;
    throw error
  | Ok _ =>
    _ ← clear_if_present comm (cas_current cas);
    observation ← rule_observation comm;
    respond_control q control_wire.StatusApplied (Some (cas_current cas)) [observation] None
  end.

Definition compare_and_set_rule (q : control_wire.ControlRequest) : SM control_wire.ControlResponse :=
  text ← expect (control_wire.cq_comm q);
  comm ← lift (Comm_new text);
  expected ← expect (control_wire.cq_expected q);
  expected ← lift (state_try_from expected);
  desired ← expect (control_wire.cq_desired q);
  desired ← lift (state_try_from desired);
  store ← the_store;
  _ ← lift (reject (bool_decide (is_Some (base (rules store) !! comm)))
              ("comm '" +:+ comm_text comm +:+ "' is owned by a read-only base rule"));
  cas ← attempt (in_store (compare_and_set comm expected desired));
  match cas with
  | Err error =>
    uncertain ← gets (λ c, match rule_store c with Some s => persistence_uncertain s | None => false end);
    _ ← (if (uncertain : bool) then
           modify (set_fatal (Some ("learned-rule rename completed but durability is uncertain: " +:+ error)))
         else mret tt);
    throw error
  | Ok cas =>
    match cas_status cas with
    | Conflict =>
      observation ← rule_observation comm;
      respond_control q control_wire.StatusConflict (Some (cas_current cas)) [observation]
        (Some "learned rule changed since prepare")
    | Noop => finish_noop q comm cas
    | Applied => finish_applied q comm cas
    end
  end.

Definition handle_control_inner (q : control_wire.ControlRequest) : SM control_wire.ControlResponse :=
  _ ← lift (control_wire.request_validate q);
  match control_wire.cq_op q with
  | control_wire.GetRule => get_rule q
  | control_wire.Snapshot => snapshot_rules q
  | control_wire.CompareAndSetRule => compare_and_set_rule q
  end.

Definition handle_control (q : control_wire.ControlRequest) : SM control_wire.ControlResponse :=
  result ← attempt (handle_control_inner q);
  match result with
  | Ok response => mret response
  | Err error => respond_control q control_wire.StatusError None [] (Some error)
  end.

(** The requests a poll of the socket accepted, at most one, answered in turn; a
    response that cannot be sent is only reported. *)
Fixpoint answer_controls (requests : list control_wire.ControlRequest)
    (answers : list control_wire.ControlResponse) : SM (list control_wire.ControlResponse) :=
  match requests with
  | [] => mret answers
  | q :: requests =>
    response ← handle_control q;
    fatal ← gets fatal_control_error;
    _ ← modify (set_fatal None);
    match fatal with
    | Some error => throw ("fatal dynamic-rule control failure: " +:+ error)
    | None => answer_controls requests (answers ++ [response])
    end
  end.
Definition poll_control (polled : option (result string (list control_wire.ControlRequest)))
    : SM (list control_wire.ControlResponse) :=
  match polled with
  | None => mret []
  | Some polled => requests ← lift polled; answer_controls requests []
  end.

(** ** Gathering the unknown names *)

(** [Instant::now]. *)
Definition instant_now : SM Z := λ c,
  let now := (instant c + Z.max (hd 0%Z (ticks c)) 0)%Z in
  (Ret now, set_clock (last_rule_miss_rescan c) now (tl (ticks c)) c).

(** An event of the ring buffer, as the kernel lays it out. *)
Definition EVENT_BYTES : nat := 32.
Definition relay_rule_miss (data : string) : option string :=
  if String.length data <? EVENT_BYTES then None
  else if negb ((u32_from_ne_bytes data =? 1)%Z
                && (u32_from_ne_bytes (String.substring 4 4 data) =? 1)%Z) then None
  else Some (String.substring 16 COMM_KEY_LEN data).

Definition record_rule_miss (comm : Comm) : SM unit :=
  allowlist ← gets activation_allowlist;
  if match allowlist with Some allowed => bool_decide (comm ∉ allowed) | None => false end then mret tt else
  known ← gets (classified comm);
  if (known : bool) then clear_rule_miss comm
  else
    now ← instant_now;
    modify (λ c, set_batcher (observe comm now (activation_batcher c)) c).

Definition record_key (key : string) : SM unit :=
  match comm_from_key key with
  | Ok comm => record_rule_miss comm
  | Err _ => mret tt
  end.

Definition discard_resolved_rule_misses : SM unit :=
  c ← gets id;
  for_each clear_rule_miss
    (filter (λ comm, classified comm c = true) (comms_in_order (ab_pending (activation_batcher c)))).

Definition poll_activation_completion : SM unit :=
  notifier ← gets activation_notifier;
  match notifier with
  | None => mret tt
  | Some notifier =>
    let '(polled, notifier) := poll_completion notifier in
    _ ← modify (set_notifier notifier);
    match polled with
    | Err error => throw "tuning-agent activation notifier failed"
    | Ok None => mret tt
    | Ok (Some completion) =>
      b ← gets activation_batcher;
      let '(finished, b) := finish b in
      _ ← modify (set_batcher b);
      match finished with
      | None => mret tt
      | Some comms =>
        for_each (λ comm, known ← gets (classified comm);
                          if (known : bool) then clear_rule_miss comm else mret tt) comms
      end
    end
  end.

(** [consumed]: the result of reading the ring buffer, whose events passed
    [relay_rule_miss], with the keys received from the channel. *)
Definition rescan : SM unit :=
  now ← instant_now;
  since ← gets last_rule_miss_rescan;
  if (RULE_MISS_RESCAN_INTERVAL <=? now - since)%Z then
    now ← instant_now;
    _ ← modify (λ c, set_clock now (instant c) (ticks c) c);
    keys ← gets (λ c, (map_to_list (rule_miss_comms c)).*1);
    for_each record_key keys
  else mret tt.

Definition start_batch : SM unit :=
  now ← instant_now;
  b ← gets activation_batcher;
  let '(taken, b) := take_ready now b in
  _ ← modify (set_batcher b);
  match taken with
  | None => mret tt
  | Some comms =>
    revision ← gets (λ c, match rule_store c with Some s => revision (rules s) | None => 0%Z end);
    notifier ← gets activation_notifier;
    notifier ← expect notifier;
    let '(started, notifier) := start_activation (MkRuleMissActivation (comm_text <$> comms) revision) notifier in
    _ ← modify (set_notifier notifier);
    match started with
    | Ok _ => mret tt
    | Err Busy => throw "failed to start tuning-agent activation: Busy"
    | Err Disconnected => throw "failed to start tuning-agent activation: Disconnected"
    end
  end.

Definition collect_rule_misses (consumed : result string (list string)) : SM unit :=
  enabled ← gets rule_miss_collection_enabled;
  if negb enabled then mret tt else
  keys ← with_context "consuming rule-miss ring buffer" (lift consumed);
  notifier ← gets activation_notifier;
  match notifier with
  | None => mret tt
  | Some _ =>
    _ ← for_each record_key keys;
    _ ← rescan;
    _ ← discard_resolved_rule_misses;
    start_batch
  end.

(** An iteration of [run], after the answer to a statistics request. *)
Definition run_iteration (polled : option (result string (list control_wire.ControlRequest)))
    (consumed : result string (list string)) : SM (list control_wire.ControlResponse) :=
  answers ← poll_control polled;
  _ ← poll_activation_completion;
  _ ← collect_rule_misses consumed;
  mret answers.
End Scheduler.
