(* ===== verification/SchedulerSafety.v ===== *)
(** * The control of the rules is consistent

    What the disk holds, what the store has in memory and what the BPF program runs
    agree before and after every control request, unless the scheduler stops with a
    fatal error; whatever fails, the rules are those before the request or those it
    asked for. *)

From S2P Require Export RuleStore Scheduler RuleStoreSafety.

Local Open Scope nat_scope.

(** ** The map and the tables *)

Definition runs_rules (m : gmap string string) (t : RuleTable) : Prop :=
  ∀ k v, m !! k = Some v ↔ ∃ comm class, t !! comm = Some class ∧ k = as_bpf_key comm ∧ v = class_bytes class.

Definition apply_rule (comm : Comm) (state : RuleState) (m : gmap string string) : gmap string string :=
  match state with
  | Present class => <[as_bpf_key comm := class_bytes class]> m
  | Absent => delete (as_bpf_key comm) m
  end.

Lemma runs_lookup m t comm :
  runs_rules m t → table_ok t → comm_ok comm → m !! as_bpf_key comm = class_bytes <$> t !! comm.
Proof.
  intros Hm Ht Hc. apply option_eq. intros v. rewrite (Hm _ v), fmap_Some. split.
  - intros (d & class & Hd & Hk & ->). apply as_bpf_key_inj in Hk as <-; [eauto|done|by eapply Ht].
  - intros (class & Hd & ->). eauto.
Qed.

Lemma table_ok_with_rule t comm state : table_ok t → comm_ok comm → table_ok (with_rule t comm state).
Proof. intros Ht Hc. destruct state; simpl; [by apply map_Forall_delete|by apply map_Forall_insert_2]. Qed.

Lemma runs_with_rule m t comm state :
  runs_rules m t → table_ok t → comm_ok comm → runs_rules (apply_rule comm state m) (with_rule t comm state).
Proof.
  intros Hm Ht Hc k v. destruct state as [|class]; simpl.
  - rewrite lookup_delete_Some, (Hm k v). split.
    + intros [Hk (d & class & Hd & -> & ->)]. exists d, class. rewrite lookup_delete_ne; [done|congruence].
    + intros (d & class & [Hn Hd]%lookup_delete_Some & -> & ->). split; [|eauto].
      intros Hk. apply as_bpf_key_inj in Hk as ->; [done|done|by eapply Ht].
  - rewrite lookup_insert_Some, (Hm k v). split.
    + intros [[<- <-]|[Hk (d & x & Hd & -> & ->)]].
      * exists comm, class. by rewrite lookup_insert_eq.
      * exists d, x. rewrite lookup_insert_ne; [done|congruence].
    + intros (d & x & [[<- <-]|[Hn Hd]]%lookup_insert_Some & -> & ->); [by left|right].
      split; [|eauto]. intros Hk. apply as_bpf_key_inj in Hk as ->; [done|done|by eapply Ht].
Qed.

Lemma with_rule_of_option (t t' : RuleTable) comm :
  (∀ d, d ≠ comm → t !! d = t' !! d) → with_rule t comm (state_from_option (t' !! comm)) = t'.
Proof.
  intros H. apply map_eq. intros d. destruct (t' !! comm) as [class|] eqn:Ht; simpl.
  - destruct (decide (d = comm)) as [->|Hn]; [by rewrite lookup_insert_eq|rewrite lookup_insert_ne; auto].
  - destruct (decide (d = comm)) as [->|Hn]; [by rewrite lookup_delete_eq|rewrite lookup_delete_ne; auto].
Qed.

Lemma with_rule_undo r comm state :
  with_rule (with_rule (learned r) comm state) comm (learned_state r comm) = learned r.
Proof.
  unfold learned_state. apply with_rule_of_option. intros d Hd.
  destruct state; simpl; [by rewrite lookup_delete_ne|by rewrite lookup_insert_ne].
Qed.

Lemma changed_rule_others comm state r r' d :
  rules_ok r → changed_rule comm state r r' → d ≠ comm → effective r' !! d = effective r !! d.
Proof.
  intros [[_ He _] _ _] [Hl Hb _ [[_ He' _] _ _]] Hd. rewrite He, He', Hb, Hl, !lookup_union.
  f_equal. destruct state; simpl; [by rewrite lookup_delete_ne|by rewrite lookup_insert_ne].
Qed.

Lemma effective_table_ok r : rules_ok r → table_ok (base r) → table_ok (effective r).
Proof.
  intros [[_ -> _] Hl _] Hb. intros comm class Hc.
  apply lookup_union_Some_raw in Hc as [Hc|[_ Hc]]; [by eapply Hb|by eapply Hl].
Qed.

Lemma effective_rule_class r comm :
  snapshot_ok r → er_class <$> effective_rule r comm = effective r !! comm.
Proof.
  intros [_ -> _]. unfold effective_rule, effective_rule_of. rewrite lookup_union.
  destruct (base r !! comm), (learned r !! comm); done.
Qed.

(** ** The invariant *)

Definition stable_seq (n : Z) : Prop := (0 ≤ n ≤ u64_max)%Z ∧ Z.even n = true.

Section Control.
Context `{DC : DocumentCodec, DL : !DocumentCodecLaws, !Sha256}.

(** The store [s] with its document, while the BPF program runs [t]. *)
Record coherent (name : string) (s : RuleStore) (t : RuleTable) (c : Scheduler) : Prop := {
  co_store : rule_store c = Some s;
  co_document : store_ok s (disk c) name;
  co_certain : persistence_uncertain s = false;
  co_base : table_ok (base (rules s));
  co_names : table_ok t;
  co_map : runs_rules (rules_map c) t;
  co_seq : stable_seq (rules_seq c);
  co_fatal : fatal_control_error c = None;
}.

Definition in_sync (name : string) (s : RuleStore) (c : Scheduler) : Prop :=
  coherent name s (effective (rules s)) c.

Lemma coherent_bpf_calls name s t calls c : coherent name s t c → coherent name s t (set_bpf_calls calls c).
Proof. intros []. by split. Qed.

Lemma wpc_bpf_call {A} (f : Scheduler → A * Scheduler) Q R C c :
  (∀ calls, Q (f (set_bpf_calls calls c)).1 (f (set_bpf_calls calls c)).2) →
  (∀ calls e, R e (set_bpf_calls calls c)) → wpc (bpf_call f) Q R C c.
Proof.
  intros HQ HR. unfold wpc, bpf_call. destruct (bpf_calls c) as [|[e|] calls] eqn:Hc.
  - specialize (HQ []). assert (set_bpf_calls [] c = c) as Heq by (destruct c; simpl in *; by subst).
    rewrite Heq in HQ. by destruct (f c).
  - apply HR.
  - specialize (HQ calls). by destruct (f (set_bpf_calls calls c)).
Qed.

(** ** Publishing a rule *)

Definition next_seq (n : Z) : Z := u64_wrap (Z.land n (u64_max - 1) + 2).

Lemma stable_next_seq n : stable_seq (next_seq n).
Proof.
  unfold next_seq, stable_seq, u64_wrap. set (a := Z.land n (u64_max - 1)).
  assert (Z.even a = true) as Ha.
  { rewrite <- Z.negb_odd, <- Z.bit0_odd. unfold a. rewrite Z.land_spec.
    replace (Z.testbit (u64_max - 1) 0) with false by reflexivity. by rewrite andb_false_r. }
  pose proof (Z.mod_pos_bound (a + 2) (2 ^ 64) ltac:(lia)). unfold u64_max. split; [lia|].
  rewrite (Z.mod_eq (a + 2) (2 ^ 64)) by lia.
  rewrite Z.even_sub, Z.even_add, Z.even_mul, Ha. simpl. done.
Qed.

Lemma publish_update_spec comm state (Q : unit → Scheduler → Prop) R C c :
  (∀ calls, Q tt (set_bpf_calls calls (set_rules_map (apply_rule comm state (rules_map c)) c))) →
  (∀ calls e, R e (set_bpf_calls calls c)) →
  wpc (publish_update comm state) Q R C c.
Proof.
  intros HQ HR. unfold publish_update. destruct state as [|class].
  - wpc_step. apply wpc_bpf_call; [|done]. intros calls. simpl. destruct (rules_map c !! as_bpf_key comm) eqn:Hk.
    + apply wpc_context, wpc_bpf_call; [|intros; apply HR].
      intros calls'. simpl. apply HQ.
    + apply wpc_ret. specialize (HQ calls). simpl in HQ. rewrite delete_id in HQ by done.
      by destruct c.
  - apply wpc_context, wpc_bpf_call; [|done]. intros calls. simpl. apply HQ.
Qed.

Lemma coherent_publish name s t comm state calls c :
  coherent name s t c → comm_ok comm →
  coherent name s (with_rule t comm state)
    (write_rules_seq (next_seq (rules_seq c))
       (set_bpf_calls calls (set_rules_map (apply_rule comm state (rules_map c)) c))).
Proof.
  intros [] Hc. split; try done; simpl.
  - by apply table_ok_with_rule.
  - by apply runs_with_rule.
  - apply stable_next_seq.
Qed.

Lemma coherent_unpublished name s t calls c n :
  coherent name s t c → coherent name s t (write_rules_seq (next_seq n) (set_bpf_calls calls c)).
Proof. intros []. split; try done. apply stable_next_seq. Qed.

Lemma publish_rule_spec name s t comm state c :
  coherent name s t c → comm_ok comm →
  wpc (publish_rule comm state) (λ _, coherent name s (with_rule t comm state)) (λ _, coherent name s t)
    (λ _, False) c.
Proof.
  intros Hco Hc. unfold publish_rule. wpc_step. wpc_step. wpc_step. wpc_step. wpc_step. apply wpc_attempt.
  apply publish_update_spec.
  - intros calls. wpc_step. wpc_step. apply wpc_context, wpc_lift; [|done]. intros [] _.
    exact (coherent_publish name s t comm state calls c Hco Hc).
  - intros calls e. wpc_step. wpc_step. apply wpc_context, wpc_lift; [done|]. intros e' _.
    exact (coherent_unpublished name s t calls c (rules_seq c) Hco).
Qed.

(** ** Observing a rule *)

Lemma active_rule_spec name s t comm c :
  coherent name s t c → comm_ok comm →
  wpc (active_rule comm) (λ r c', r = t !! comm ∧ coherent name s t c') (λ _, coherent name s t)
    (λ _, False) c.
Proof.
  intros Hco Hc. unfold active_rule. wpc_step. apply wpc_bpf_call; [|intros; by apply coherent_bpf_calls].
  intros calls. simpl. pose proof (coherent_bpf_calls _ _ _ calls _ Hco) as Hco'.
  rewrite (runs_lookup _ t) by (done || apply Hco). destruct (t !! comm) as [class|]; simpl.
  - destruct class; by apply wpc_ret.
  - by apply wpc_ret.
Qed.

Lemma wpc_the_store name s t c (Q : RuleStore → Scheduler → Prop) R C :
  coherent name s t c → Q s c → wpc the_store Q R C c.
Proof.
  intros Hco HQ. unfold the_store. wpc_step. wpc_step. by rewrite (co_store _ _ _ _ Hco).
Qed.

Lemma wpc_in_disk {A} (m : M Disk string A) Q R C c :
  wpc m (λ a d, Q a (set_store (rule_store c) d c)) (λ e d, R e (set_store (rule_store c) d c))
    (λ d, C (set_store (rule_store c) d c)) (disk c) →
  wpc (in_disk m) Q R C c.
Proof. unfold wpc, in_disk. by destruct (m (disk c)) as [[] d]. Qed.

Lemma coherent_disk name s t c d :
  coherent name s t c → safe name (stores (store_path s) (rules s)) d →
  coherent name s t (set_store (rule_store c) d c).
Proof.
  intros [Hs [Hn Hr _] ? ? ? ? ? ?] Hd. by split.
Qed.

Lemma persisted_snapshot_spec name s t c :
  coherent name s t c →
  wpc persisted_snapshot (λ p c', p = (learned (rules s), true) ∧ coherent name s t c')
    (λ _, coherent name s t) (coherent name s t) c.
Proof.
  intros Hco. unfold persisted_snapshot. wpc_step. eapply wpc_the_store; [exact Hco|].
  pose proof (co_document _ _ _ _ Hco) as [Hn Hr Hd].
  wpc_step. apply wpc_in_disk. unfold read_persisted.
  wpc_call (load_document_spec _ name (rules s)); [done|by intros ? ?|done| | |].
  - intros lr d' [-> Hd']. wpc_step. rewrite Z.eqb_refl, bool_decide_eq_true_2 by done.
    split; [done|]. by apply coherent_disk.
  - intros e d' Hd'. by apply coherent_disk.
  - intros d' Hd'. by apply coherent_disk.
Qed.

(** An observation of a scheduler in sync. *)
Record observed (s : RuleStore) (comm : Comm) (o : control_wire.RuleObservation) : Prop := {
  ob_comm : control_wire.ro_comm o = comm_text comm;
  ob_consistent : control_wire.ro_consistent o = true;
  ob_active : control_wire.ro_active_class o = class_to_wire <$> effective (rules s) !! comm;
  ob_persisted : control_wire.ro_persisted_class o = class_to_wire <$> learned (rules s) !! comm;
}.

Lemma observation_spec name s comm c :
  in_sync name s c → comm_ok comm →
  wpc (rule_observation_with_persisted comm (learned (rules s)) true)
    (λ o c', observed s comm o ∧ in_sync name s c') (λ _, in_sync name s) (in_sync name s) c.
Proof.
  intros Hco Hc. unfold rule_observation_with_persisted. wpc_step. eapply wpc_the_store; [exact Hco|].
  wpc_step. wpc_step.
  pose proof (effective_rule_class (rules s) comm (ro_snapshot _ (st_rules _ _ _ (co_document _ _ _ _ Hco)))) as He.
  assert (∀ class source, wpc (active ← active_rule comm;
      mret (control_wire.MkRuleObservation (comm_text comm) (class_to_wire class) source
          (class_to_wire <$> active) (class_to_wire <$> learned (rules s) !! comm)
          (bool_decide (active = er_class <$> effective_rule (rules s) comm) && true)))
      (λ o c', observed s comm o ∧ in_sync name s c') (λ _, in_sync name s) (in_sync name s) c) as Ha.
  { intros class source. wpc_step. wpc_call active_rule_spec; [exact Hco|done| |done|done].
    intros r c' [-> Hco']. apply wpc_ret. split; [|done]. split; try done. simpl.
    by rewrite He, bool_decide_eq_true_2. }
  destruct (effective_rule (rules s) comm) as [rule|]; apply Ha.
Qed.

Lemma rule_observation_spec name s comm c :
  in_sync name s c → comm_ok comm →
  wpc (rule_observation comm) (λ o c', observed s comm o ∧ in_sync name s c') (λ _, in_sync name s)
    (in_sync name s) c.
Proof.
  intros Hco Hc. unfold rule_observation. wpc_step. wpc_call persisted_snapshot_spec; [exact Hco| |done|done].
  intros p c' [-> Hco']. by apply observation_spec.
Qed.

Lemma observe_all_spec name s comms c :
  in_sync name s c → Forall comm_ok comms →
  wpc (observe_all comms (learned (rules s)) true)
    (λ os c', Forall2 (observed s) comms os ∧ in_sync name s c') (λ _, in_sync name s) (in_sync name s) c.
Proof.
  intros Hco Hc. revert c Hco. induction Hc as [|comm comms Hc _ IH]; intros c Hco; simpl; [by apply wpc_ret|].
  wpc_step. wpc_call observation_spec; [exact Hco|done| |done|done]. intros o c1 [Ho Hco1].
  wpc_step. wpc_call IH; [exact Hco1| |done|done]. intros os c2 [Hos Hco2].
  apply wpc_ret. split; [by constructor|done].
Qed.

(** ** Clearing an unknown name changes none of it *)

Lemma coherent_misses name s t m c : coherent name s t c → coherent name s t (set_misses m c).
Proof. intros []. by split. Qed.
Lemma coherent_batcher name s t b c : coherent name s t c → coherent name s t (set_batcher b c).
Proof. intros []. by split. Qed.

Lemma clear_rule_miss_spec name s t comm c :
  coherent name s t c → wpc (clear_rule_miss comm) (λ _, coherent name s t) (λ _ _, False) (λ _, False) c.
Proof.
  intros Hco. unfold clear_rule_miss. wpc_step. apply wpc_attempt.
  assert (∀ c, coherent name s t c →
    wpc (modify (λ c, set_batcher (remove_pending comm (activation_batcher c)) c)) (λ _, coherent name s t)
      (λ (_ : string) _, False) (λ _, False) c) as Hm.
  { intros c' Hco'. apply wpc_modify. by apply coherent_batcher. }
  apply wpc_bpf_call; [intros calls; simpl|intros calls e].
  - wpc_step. destruct (rule_miss_comms c !! as_bpf_key comm).
    + wpc_step. apply wpc_attempt, wpc_bpf_call; intros; apply wpc_ret; apply Hm; simpl.
      * by apply coherent_misses, coherent_bpf_calls, coherent_bpf_calls.
      * by apply coherent_bpf_calls, coherent_bpf_calls.
    + apply wpc_ret. by apply Hm, coherent_bpf_calls.
  - wpc_step. apply wpc_ret. by apply Hm, coherent_bpf_calls.
Qed.

Lemma clear_if_present_spec name s t comm state c :
  coherent name s t c → wpc (clear_if_present comm state) (λ _, coherent name s t) (λ _ _, False) (λ _, False) c.
Proof. intros Hco. destruct state; [by apply wpc_ret|by apply clear_rule_miss_spec]. Qed.

(** ** A change of a rule *)

Lemma wpc_in_store {A} (m : M (RuleStore * Disk) string A) Q R C s c :
  rule_store c = Some s →
  wpc m (λ a sd, Q a (set_store (Some sd.1) sd.2 c)) (λ e sd, R e (set_store (Some sd.1) sd.2 c))
    (λ sd, C (set_store (Some sd.1) sd.2 c)) (s, disk c) →
  wpc (in_store m) Q R C c.
Proof. intros Hs. unfold wpc, in_store. rewrite Hs. by destruct (m (s, disk c)) as [[] [? ?]]. Qed.

(** Rules on disk that have one of two learned tables. *)
Definition learned_one_of (path : string) (l1 l2 : RuleTable) (c : option string) : Prop :=
  ∃ r, stores path r c ∧ (learned r = l1 ∨ learned r = l2).

(** What a request leaves behind: the scheduler in sync with one of the two
    tables, or stopping, a restart finding one of them. *)
Definition left_with (name : string) (s : RuleStore) (l : RuleTable) (c : Scheduler) : Prop :=
  safe name (learned_one_of (store_path s) (learned (rules s)) l) (disk c)
  ∧ (fatal_control_error c = None →
     ∃ s', in_sync name s' c ∧ store_path s' = store_path s ∧ base (rules s') = base (rules s)
           ∧ (learned (rules s') = learned (rules s) ∨ learned (rules s') = l)).

Definition restart_safe (name : string) (s : RuleStore) (l : RuleTable) (c : Scheduler) : Prop :=
  safe name (learned_one_of (store_path s) (learned (rules s)) l) (disk c).

Lemma coherent_restart_safe name s s' t l c :
  coherent name s' t c → store_path s' = store_path s →
  learned (rules s') = learned (rules s) ∨ learned (rules s') = l → restart_safe name s l c.
Proof.
  intros [_ [_ _ Hd] _ _ _ _ _ _] Hp Hl. unfold restart_safe. rewrite <- Hp.
  eapply safe_mono; [|exact Hd]. intros x Hx. by exists (rules s').
Qed.

Lemma in_sync_left_with name s s' l c :
  in_sync name s' c → store_path s' = store_path s → base (rules s') = base (rules s) →
  learned (rules s') = learned (rules s) ∨ learned (rules s') = l → left_with name s l c.
Proof.
  intros Hs Hp Hb Hl. split; [by eapply coherent_restart_safe|]. intros _. by exists s'.
Qed.

(** The parts of a change that the BPF program has not seen. *)
Lemma coherent_store name s t c s' d' :
  coherent name s t c → store_ok s' d' name → persistence_uncertain s' = false →
  base (rules s') = base (rules s) → coherent name s' t (set_store (Some s') d' c).
Proof. intros [] Hok Hu Hb. split; try done. simpl. by rewrite Hb. Qed.

Section Change.
Context (name : string) (s : RuleStore) (comm : Comm) (expected desired : RuleState).
Context (Hcomm : comm_ok comm).
Abbreviation target := (with_rule (learned (rules s)) comm desired).

Lemma stops_safe r' d :
  safe name (one_of_two (store_path s) (rules s) r') d → learned r' = target →
  safe name (learned_one_of (store_path s) (learned (rules s)) target) d.
Proof.
  intros Hs Hl. eapply safe_mono; [|exact Hs]. intros c [Hc|Hc]; [exists (rules s)|exists r']; auto.
Qed.

(** The rollback after a failed publication. *)
Lemma recover_publish_spec s1 cas c :
  coherent name s1 (effective (rules s)) c → rules_ok (rules s) →
  changed_rule comm desired (rules s) (rules s1) → store_path s1 = store_path s →
  learned_state (rules s) comm ≠ desired →
  cas_current cas = desired → cas_previous cas = learned_state (rules s) comm →
  wpc (recover_publish comm cas) (λ _, left_with name s target) (λ _, restart_safe name s target)
    (restart_safe name s target) c.
Proof.
  intros Hco Hr Hch Hp Hne Hcur Hprev. unfold recover_publish. rewrite Hcur, Hprev. wpc_step.
  apply wpc_context. eapply wpc_in_store; [apply Hco|].
  assert (learned (rules s1) = target) as Hl1 by apply Hch.
  assert (learned_state (rules s1) comm = desired) as Hd1 by by eapply learned_state_with_rule.
  assert (∀ r2, changed_rule comm (learned_state (rules s) comm) (rules s1) r2 →
            learned r2 = learned (rules s) ∧ base r2 = base (rules s)) as Hback.
  { intros r2 [Hl Hb _ _]. destruct Hch as [_ Hb1 _ _].
    split; [|congruence]. rewrite Hl, Hl1. apply with_rule_undo. }
  assert (∀ P d2 r2, safe name P d2 → (∀ x, P x → one_of_two (store_path s1) (rules s1) r2 x) →
     changed_rule comm (learned_state (rules s) comm) (rules s1) r2 →
     safe name (learned_one_of (store_path s) (learned (rules s)) target) d2) as Hsafe.
  { intros P d2 r2 Hs HP H2. rewrite <- Hp. eapply safe_mono; [|exact Hs]. intros x Hx.
    destruct (HP x Hx) as [Hst|Hst]; [exists (rules s1); auto|exists r2; split; [done|]].
    left. by apply Hback. }
  eapply wpc_mono;
    [by apply (compare_and_set_spec comm desired (learned_state (rules s) comm) s1 (disk c) name); [|apply Hco]
    | | |].
  - intros rb sd (Hok & Hu & Hpath & _ & _ & _ & _ & Heff & Hst).
    destruct (cas_status rb); simpl in *; [|by destruct Hst as (_ & ? & _)|by destruct Hst as [? _]].
    destruct Hst as (_ & _ & H2). destruct (Hback _ H2) as [Hl2 Hb2].
    apply wpc_context. rewrite Heff. eapply wpc_mono; [apply publish_rule_spec; [|done]| | |done].
    + eapply coherent_store; [exact Hco|done| |].
      * rewrite Hu. apply Hco.
      * by destruct H2.
    + intros [] c2 Hco2.
      rewrite with_rule_of_option in Hco2.
      * by eapply in_sync_left_with; [exact Hco2|congruence|done|left].
      * intros d Hd. rewrite (changed_rule_others comm _ (rules s1) _ _ ltac:(apply Hch) H2 Hd).
        symmetry. by eapply changed_rule_others.
    + intros e c2 Hco2. by eapply coherent_restart_safe; [exact Hco2|congruence|left].
  - intros e sd (Hpath & _ & [[Hs1 Hok]|(_ & _ & H2 & _ & Hs2)]).
    + unfold restart_safe. simpl. destruct Hok as [_ _ Hd]. rewrite <- Hp.
      eapply safe_mono; [|exact Hd]. intros x Hx. exists (rules s1). auto.
    + unfold restart_safe. simpl. by eapply Hsafe.
  - intros sd (r2 & H2 & Hs2). unfold restart_safe. simpl. by eapply Hsafe.
Qed.
End Change.

(** ** Answers *)

Definition cas_request (q : control_wire.ControlRequest) (comm : Comm) (expected desired : RuleState) : Prop :=
  control_wire.cq_op q = control_wire.CompareAndSetRule
  ∧ control_wire.cq_comm q = Some (comm_text comm)
  ∧ control_wire.cq_expected q = Some (state_to_wire expected)
  ∧ control_wire.cq_desired q = Some (state_to_wire desired).

Definition outcome_of (q : control_wire.ControlRequest) (r : RuleSnapshot) (resp : control_wire.ControlResponse)
    (r' : RuleSnapshot) : Prop :=
  match control_wire.cp_status resp with
  | control_wire.StatusOk =>
    r' = r ∧ control_wire.cq_op q ≠ control_wire.CompareAndSetRule
    ∧ (control_wire.cq_op q = control_wire.GetRule → ∃ text, control_wire.cq_comm q = Some text
         ∧ control_wire.cp_current resp = Some (state_to_wire (learned_state r (MkComm text))))
  | control_wire.StatusNoop =>
    r' = r ∧ ∃ comm state, cas_request q comm state state ∧ learned_state r comm = state
  | control_wire.StatusConflict =>
    r' = r ∧ ∃ comm expected desired, cas_request q comm expected desired ∧ learned_state r comm ≠ expected
      ∧ control_wire.cp_current resp = Some (state_to_wire (learned_state r comm))
  | control_wire.StatusApplied =>
    ∃ comm expected desired, cas_request q comm expected desired
      ∧ learned_state r comm = expected ∧ expected ≠ desired ∧ changed_rule comm desired r r'
      ∧ control_wire.cp_current resp = Some (state_to_wire desired)
  | control_wire.StatusError => False
  end.

Record answered (q : control_wire.ControlRequest) (name : string) (s : RuleStore)
    (resp : control_wire.ControlResponse) (c : Scheduler) : Prop := {
  an_store : ∃ s', in_sync name s' c ∧ store_path s' = store_path s ∧ base (rules s') = base (rules s)
    ∧ outcome_of q (rules s) resp (rules s')
    ∧ control_wire.cp_revision resp = revision (rules s')
    ∧ control_wire.cp_effective_digest resp = effective_digest (effective (rules s'));
  an_consistent : Forall (λ o, control_wire.ro_consistent o = true) (control_wire.cp_rules resp);
  an_request : control_wire.cp_request_id resp = control_wire.cq_request_id q;
  an_seq : control_wire.cp_rules_seq resp = rules_seq c;
}.

Lemma respond_spec q name s s' status current os message c (R : string → Scheduler → Prop) C :
  in_sync name s' c → store_path s' = store_path s → base (rules s') = base (rules s) →
  Forall (λ o, control_wire.ro_consistent o = true) os →
  (∀ resp, control_wire.cp_status resp = status → control_wire.cp_current resp = state_to_wire <$> current →
     outcome_of q (rules s) resp (rules s')) →
  wpc (respond_control q status current os message) (answered q name s) R C c.
Proof.
  intros Hs Hp Hb Ho Hout. unfold respond_control. apply wpc_gets. unfold control_response.
  rewrite (co_store _ _ _ _ Hs). split; [|done..]. exists s'. split_and!; try done. by apply Hout.
Qed.

Section Changes.
Context (q : control_wire.ControlRequest) (name : string) (s : RuleStore) (comm : Comm) (expected desired : RuleState).
Context (Hcomm : comm_ok comm) (Hq : cas_request q comm expected desired).
Abbreviation target := (with_rule (learned (rules s)) comm desired).

(** Observing and answering, in sync. *)
Lemma observe_and_respond s' status current message c :
  in_sync name s' c → store_path s' = store_path s → base (rules s') = base (rules s) →
  learned (rules s') = learned (rules s) ∨ learned (rules s') = target →
  (∀ resp, control_wire.cp_status resp = status → control_wire.cp_current resp = state_to_wire <$> current →
     outcome_of q (rules s) resp (rules s')) →
  wpc (observation ← rule_observation comm; respond_control q status current [observation] message)
    (answered q name s) (λ _, left_with name s target) (restart_safe name s target) c.
Proof.
  intros Hs Hp Hb Hl Hout. wpc_step. wpc_call rule_observation_spec; [exact Hs|done| | |].
  - intros o c1 [Ho Hs1]. eapply respond_spec; try done. apply Forall_singleton. by destruct Ho.
  - intros e c1 Hs1. exact (in_sync_left_with name s s' target c1 Hs1 Hp Hb Hl).
  - intros c1 Hs1. exact (coherent_restart_safe name s s' _ target c1 Hs1 Hp Hl).
Qed.

Lemma finish_noop_spec cas c :
  in_sync name s c → learned_state (rules s) comm = expected → expected = desired →
  cas_current cas = learned_state (rules s) comm →
  cas_effective cas = state_from_option (effective (rules s) !! comm) →
  wpc (finish_noop q comm cas) (answered q name s) (λ _, left_with name s target)
    (restart_safe name s target) c.
Proof.
  intros Hs He Hd Hcur Heff. unfold finish_noop. wpc_step.
  wpc_call active_rule_spec; [exact Hs|done| | |done].
  - intros r c1 [-> Hs1]. rewrite Heff. rewrite bool_decide_eq_false_2.
    2:{ intros Hn. apply Hn. by destruct (effective (rules s) !! comm). }
    wpc_step. apply wpc_ret. wpc_step. eapply wpc_mono; [by apply clear_if_present_spec| |done|done].
    intros [] c2 Hs2. apply (observe_and_respond s); try done; [by left|].
    intros resp Hst Hcr. unfold outcome_of. rewrite Hst. split; [done|].
    exists comm, expected. split; [|done]. by rewrite <- Hd in Hq.
  - intros e c1 Hs1. apply (in_sync_left_with name s s); [exact Hs1|done|done|by left].
Qed.

Lemma finish_applied_spec s1 cas c :
  coherent name s1 (effective (rules s)) c → rules_ok (rules s) →
  changed_rule comm desired (rules s) (rules s1) → store_path s1 = store_path s →
  learned_state (rules s) comm = expected → expected ≠ desired →
  cas_current cas = desired → cas_previous cas = learned_state (rules s) comm →
  cas_effective cas = state_from_option (effective (rules s1) !! comm) →
  wpc (finish_applied q comm cas) (answered q name s) (λ _, left_with name s target)
    (restart_safe name s target) c.
Proof.
  intros Hco Hr Hch Hp He Hne Hcur Hprev Heff. unfold finish_applied. wpc_step. apply wpc_attempt.
  assert (learned (rules s1) = target) as Hl by apply Hch.
  assert (base (rules s1) = base (rules s)) as Hb by apply Hch.
  eapply wpc_mono; [by apply publish_rule_spec| | |done].
  - intros [] c1 Hs1. rewrite Heff, with_rule_of_option in Hs1.
    2:{ intros d Hd. symmetry. by eapply changed_rule_others. }
    wpc_step. eapply wpc_mono; [by apply clear_if_present_spec| |done|done].
    intros [] c2 Hs2. apply (observe_and_respond s1); try done; [by right|].
    intros resp Hst Hcr. unfold outcome_of. rewrite Hst. exists comm, expected, desired.
    split_and!; try done. by rewrite Hcr, Hcur.
  - intros e c1 Hs1. wpc_step. apply wpc_attempt.
    eapply wpc_mono; [apply (recover_publish_spec name s comm desired Hcomm s1); try done; by rewrite He| | |].
    + intros [] c2 Hs2. wpc_step. apply wpc_ret. by apply wpc_throw.
    + intros e2 c2 Hs2. wpc_step. apply wpc_modify. apply wpc_throw. split; [exact Hs2|done].
    + done.
Qed.
End Changes.

(** ** Whole requests *)

(** The texts of a request are Rust strings. *)
Definition request_text (q : control_wire.ControlRequest) : Prop :=
  (∀ t, control_wire.cq_comm q = Some t → is_utf8 t = true)
  ∧ (∀ ts, control_wire.cq_comms q = Some ts → Forall (λ t, is_utf8 t = true) ts).

(** The learned rules the request asks for. *)
Definition requested (q : control_wire.ControlRequest) (l : RuleTable) : RuleTable :=
  match control_wire.cq_op q, control_wire.cq_comm q, state_try_from <$> control_wire.cq_desired q with
  | control_wire.CompareAndSetRule, Some text, Some (Ok desired) => with_rule l (MkComm text) desired
  | _, _, _ => l
  end.

Lemma some_and_true {A} (p : A → bool) o : control_wire.some_and p o = true ↔ ∃ a, o = Some a ∧ p a = true.
Proof. destruct o; naive_solver. Qed.

Lemma state_wire_of_valid w : control_wire.is_valid w = true → ∃ st, w = state_to_wire st.
Proof. intros Hw. apply state_try_from_valid in Hw as (st & _ & <-). eauto. Qed.

Lemma Comm_new_valid t : is_ok (validate_comm t) = true → Comm_new t = Ok (MkComm t).
Proof. unfold Comm_new. by destruct (validate_comm t) as [[]|]. Qed.

Lemma comm_ok_valid t : is_ok (validate_comm t) = true → is_utf8 t = true → comm_ok (MkComm t).
Proof. intros Ht Hu. split; [|done]. by apply is_ok_validate_comm. Qed.

Lemma collect_comms ts :
  forallb (λ t, is_ok (validate_comm t)) ts = true → collect_result Comm_new ts = Ok (MkComm <$> ts).
Proof.
  induction ts as [|t ts IH]; simpl; [done|]. intros [Ht Hts]%andb_true_iff.
  rewrite Comm_new_valid by done. simpl. by rewrite IH.
Qed.

Lemma compare_and_set_rule_spec q name s comm expected desired c :
  in_sync name s c → comm_ok comm → cas_request q comm expected desired → Comm_new (comm_text comm) = Ok comm →
  wpc (compare_and_set_rule q) (answered q name s)
    (λ _, left_with name s (with_rule (learned (rules s)) comm desired))
    (restart_safe name s (with_rule (learned (rules s)) comm desired)) c.
Proof.
  intros Hs Hc Hq Hnew. pose proof Hq as (_ & Hcq & He & Hd). unfold compare_and_set_rule.
  set (target := with_rule (learned (rules s)) comm desired).
  assert (left_with name s target c) as Hleft by (apply (in_sync_left_with name s s); [exact Hs|done|done|by left]).
  wpc_step. apply (wpc_expect _ _ _ _ _ _ Hcq). wpc_step. rewrite Hnew. apply wpc_ret.
  wpc_step. apply (wpc_expect _ _ _ _ _ _ He). wpc_step. rewrite state_wire_round_trip. apply wpc_ret.
  wpc_step. apply (wpc_expect _ _ _ _ _ _ Hd). wpc_step. rewrite state_wire_round_trip. apply wpc_ret.
  wpc_step. eapply wpc_the_store; [exact Hs|]. wpc_step. wpc_step; [|done].
  wpc_step. apply wpc_attempt. eapply wpc_in_store; [apply Hs|].
  pose proof (co_document _ _ _ _ Hs) as Hok.
  eapply wpc_mono; [by apply (compare_and_set_spec comm expected desired s (disk c) name)| | |].
  - intros cas sd (Hok' & Hu & Hp & _ & Hprev & Hrev & Hcur & Heff & Hst).
    destruct (cas_status cas).
    + destruct Hst as (He1 & Hne & Hch).
      apply (finish_applied_spec q name s comm expected desired Hc Hq sd.1); try done.
      * eapply coherent_store; [exact Hs|done|by rewrite Hu; apply Hs|by apply Hch].
      * apply Hok.
      * rewrite Hcur. by eapply learned_state_with_rule.
    + destruct Hst as (He1 & Hed & ->). simpl in *.
      apply (finish_noop_spec q name s comm expected desired Hc Hq); try done.
      eapply coherent_store; [exact Hs|done|by apply Hs|done].
    + destruct Hst as (Hne & ->). simpl in *.
      apply (observe_and_respond q name s comm desired Hc s); try done; [|by left|].
      * eapply coherent_store; [exact Hs|done|by apply Hs|done].
      * intros resp Hst Hcr. unfold outcome_of. rewrite Hst. split; [done|].
        exists comm, expected, desired. split_and!; try done. by rewrite Hcr, Hcur.
  - intros e sd (Hp & _ & [[Hs1 Hok1]|(Hunc & _ & Hch & _ & Hsafe)]).
    + wpc_step. wpc_step. simpl. rewrite Hs1, (co_certain _ _ _ _ Hs). apply wpc_bind, wpc_ret, wpc_throw.
      apply (in_sync_left_with name s s); [|done|done|by left].
      eapply coherent_store; [exact Hs|done|by apply Hs|done].
    + wpc_step. wpc_step. simpl. rewrite Hunc. apply wpc_bind, wpc_modify, wpc_throw. split; [|done].
      simpl. by eapply stops_safe; [exact Hsafe|apply Hch].
  - intros sd (r2 & Hch & Hsafe). by eapply stops_safe; [exact Hsafe|apply Hch].
Qed.

Lemma get_rule_spec q name s comm c :
  in_sync name s c → comm_ok comm → Comm_new (comm_text comm) = Ok comm →
  control_wire.cq_comm q = Some (comm_text comm) → control_wire.cq_op q ≠ control_wire.CompareAndSetRule →
  wpc (get_rule q) (answered q name s) (λ _, left_with name s (learned (rules s)))
    (restart_safe name s (learned (rules s))) c.
Proof.
  intros Hs Hc Hnew Hq Hop. unfold get_rule. wpc_step. apply (wpc_expect _ _ _ _ _ _ Hq). wpc_step.
  rewrite Hnew. apply wpc_ret. wpc_step. eapply wpc_the_store; [exact Hs|].
  wpc_step. wpc_call rule_observation_spec; [exact Hs|done| | |].
  - intros o c1 [Ho Hs1]. eapply (respond_spec _ name s s); try done.
    + apply Forall_singleton. by destruct Ho.
    + intros resp Hst Hcur. unfold outcome_of. rewrite Hst. split_and!; [done..|]. intros _.
      exists (comm_text comm). split; [done|]. by destruct comm.
  - intros e c1 Hs1. apply (in_sync_left_with name s s); [exact Hs1|done|done|by left].
  - intros c1 Hs1. apply (coherent_restart_safe name s s _ _ c1 Hs1); [done|by left].
Qed.

Lemma snapshot_spec q name s ts c :
  in_sync name s c → Forall comm_ok (MkComm <$> ts) → collect_result Comm_new ts = Ok (MkComm <$> ts) →
  control_wire.cq_comms q = Some ts → control_wire.cq_op q = control_wire.Snapshot →
  wpc (snapshot_rules q) (answered q name s) (λ _, left_with name s (learned (rules s)))
    (restart_safe name s (learned (rules s))) c.
Proof.
  intros Hs Hc Hnew Hq Hop. unfold snapshot_rules. wpc_step. apply (wpc_expect _ _ _ _ _ _ Hq). wpc_step.
  rewrite Hnew. apply wpc_ret.
  assert (∀ c, in_sync name s c → left_with name s (learned (rules s)) c) as Hl.
  { intros c1 Hs1. apply (in_sync_left_with name s s); [exact Hs1|done|done|by left]. }
  assert (∀ c, in_sync name s c → restart_safe name s (learned (rules s)) c) as Hr.
  { intros c1 Hs1. apply (coherent_restart_safe name s s _ _ c1 Hs1); [done|by left]. }
  wpc_step. wpc_call persisted_snapshot_spec; [exact Hs| |by intros; apply Hl|by intros; apply Hr].
  intros p c1 [-> Hs1]. wpc_step. wpc_call observe_all_spec; [exact Hs1|done| |by intros; apply Hl|by intros; apply Hr].
  intros os c2 [Hos Hs2]. eapply (respond_spec _ name s s); try done.
  - clear -Hos. induction Hos as [|? ? ? ? Ho]; constructor; [by destruct Ho|done].
  - intros resp Hst _. unfold outcome_of. rewrite Hst, Hop. by split_and!.
Qed.

Lemma handle_control_inner_spec q name s c :
  in_sync name s c → request_text q →
  wpc (handle_control_inner q) (answered q name s)
    (λ _, left_with name s (requested q (learned (rules s))))
    (restart_safe name s (requested q (learned (rules s)))) c.
Proof.
  intros Hs [Hu Hus]. unfold handle_control_inner. wpc_step.
  apply wpc_lift; [|intros e _; apply (in_sync_left_with name s s); [exact Hs|done|done|by left]].
  intros [] Hv. unfold control_wire.request_validate in Hv.
  rewrite !reject_bind_Ok, !reject_Ok in Hv. destruct Hv as (_ & _ & Hf). apply negb_false_iff in Hf.
  unfold control_wire.fields_match in Hf. unfold requested.
  destruct (control_wire.cq_op q) eqn:Hop; rewrite !andb_true_iff, !some_and_true in Hf.
  - destruct Hf as [[[(t & Ht & Hv) _] _] _].
    apply (get_rule_spec q name s (MkComm t)); try done; [|by apply Comm_new_valid|congruence].
    apply comm_ok_valid; auto.
  - destruct Hf as [[[_ (ts & Hts & Hv)] _] _]. apply andb_true_iff in Hv as [_ Hv].
    apply (snapshot_spec q name s ts); try done; [|by apply collect_comms].
    specialize (Hus ts Hts). clear Hts. induction Hus as [|t ts Ht _ IH]; [constructor|].
    simpl in Hv. apply andb_true_iff in Hv as [Hv1 Hv2].
    constructor; [by apply comm_ok_valid|by apply IH].
  - destruct Hf as [[[(t & Ht & Hv) _] (e & He & Hev)] (d & Hd & Hdv)].
    apply state_wire_of_valid in Hev as [expected ->]. apply state_wire_of_valid in Hdv as [desired ->].
    rewrite Ht, Hd. simpl. rewrite state_wire_round_trip.
    apply (compare_and_set_rule_spec q name s (MkComm t) expected desired); try done.
    + apply comm_ok_valid; auto.
    + by apply Comm_new_valid.
Qed.

Lemma control_requests_keep_rules_consistent_spec q name s c :
  in_sync name s c → request_text q →
  wpc (handle_control q)
    (λ resp c', left_with name s (requested q (learned (rules s))) c'
      ∧ control_wire.cp_request_id resp = control_wire.cq_request_id q
      ∧ (control_wire.cp_status resp ≠ control_wire.StatusError → answered q name s resp c'))
    (λ _ _, False) (restart_safe name s (requested q (learned (rules s)))) c.
Proof.
  intros Hs Ht. unfold handle_control. wpc_step. apply wpc_attempt.
  wpc_call handle_control_inner_spec; [exact Hs|done| | |done].
  - intros resp c1 Ha. wpc_step. pose proof Ha as [(s' & Hs' & Hp & Hb & Hout & _) _ Hr _].
    split_and!; [|done|done]. apply (in_sync_left_with name s s'); [exact Hs'|done|done|].
    unfold outcome_of in Hout.
    destruct (control_wire.cp_status resp); try (left; by destruct Hout as [-> _]); [|done].
    destruct Hout as (comm & e & d & (Hop & Hc & He & Hd) & _ & _ & [Hl _ _ _] & _). right.
    unfold requested. rewrite Hop, Hc, Hd. simpl. rewrite state_wire_round_trip, Hl. by destruct comm.
  - intros e c1 Hl. unfold respond_control. apply wpc_gets. done.
Qed.

(** C12. A control request leaves the rules consistent: started with the disk, the
    memory and the BPF map in agreement, whatever system call or map call fails,
    the request is answered under its own identifier; either the three agree again,
    on the rules before the request or on those it asked for, or the scheduler has
    a fatal error and stops.  An answer that is not an error says which: applied
    exactly when the rule had the expected state and now has the desired one, with
    the next revision; a no-op or a conflict changed nothing; every observation in
    it is consistent.  Where the machine stops instead, a restart finds one of the
    two tables. *)
Theorem control_requests_keep_rules_consistent q name s c :
  in_sync name s c → request_text q →
  wpc (handle_control q)
    (λ resp c', left_with name s (requested q (learned (rules s))) c'
      ∧ control_wire.cp_request_id resp = control_wire.cq_request_id q
      ∧ (control_wire.cp_status resp ≠ control_wire.StatusError → answered q name s resp c'))
    (λ _ _, False) (restart_safe name s (requested q (learned (rules s)))) c.
Proof. apply control_requests_keep_rules_consistent_spec. Qed.
End Control.
