(* ===== verification/SchedulerActivation.v ===== *)
(** * Activations of unknown names

    At most one batch of unknown names is with the agent; the notifier is idle
    whenever the scheduler starts the next; a batch holds only names that the
    command line allows and that have no rule. *)

From S2P Require Export RuleStore Scheduler SchedulerSafety.

Local Open Scope nat_scope.

(** ** One activation at a time *)

(** The notifier while [batch] is in flight: its activation waits for the worker,
    is with the worker, or has completed. *)
Inductive carries (batch : list Comm) : ActivationNotifier → Prop :=
  | carries_command a : ra_comms a = comm_text <$> batch → carries batch (MkNotifier (Some a) None None false)
  | carries_working a o : ra_comms a = comm_text <$> batch → carries batch (MkNotifier None (Some (a, o)) None false)
  | carries_completion c : carries batch (MkNotifier None None (Some c) false).

Definition allowed (c : Scheduler) (comm : Comm) : Prop :=
  ∀ names, activation_allowlist c = Some names → comm ∈ names.

Record activation_ok (c : Scheduler) : Prop := {
  ao_batcher : batcher_ok (activation_batcher c);
  ao_notifier : ∀ n, activation_notifier c = Some n →
    match ab_in_flight (activation_batcher c) with
    | None => n = notifier_start
    | Some batch => carries batch n
    end;
  ao_none : activation_notifier c = None → ab_in_flight (activation_batcher c) = None;
  ao_allowed comm : comm ∈ ab_pending (activation_batcher c) → allowed c comm;
  ao_sent batch comm : ab_in_flight (activation_batcher c) = Some batch → comm ∈ batch → allowed c comm;
}.

(** The fields the invariant reads. *)
Definition same_activation (c c' : Scheduler) : Prop :=
  activation_batcher c' = activation_batcher c ∧ activation_notifier c' = activation_notifier c
  ∧ activation_allowlist c' = activation_allowlist c.

Lemma activation_ok_same c c' : same_activation c c' → activation_ok c → activation_ok c'.
Proof.
  intros (Hb & Hn & Ha) [H1 H2 H3 H4 H5].
  split; unfold allowed; rewrite ?Hb, ?Hn, ?Ha; auto.
Qed.

(** The worker moves its activation along. *)
Lemma worker_keeps c n n' :
  activation_ok c → activation_notifier c = Some n → worker_step n n' → activation_ok (set_notifier n' c).
Proof.
  intros [H1 H2 H3 H4 H5] Hn Hw. split; try done; simpl. intros m [= <-]. specialize (H2 n Hn).
  destruct (ab_in_flight (activation_batcher c)) as [batch|].
  - inversion Hw; subst; inversion H2; subst; by constructor.
  - subst. unfold notifier_start in Hw. inversion Hw.
Qed.

(** ** The control requests leave the activations alone, except that a name which
    gets a rule is no longer pending *)

Lemma keeps_bpf_call {A} (f : Scheduler → A * Scheduler) :
  (∀ c, same_activation c (f c).2) → keeps activation_ok (bpf_call f).
Proof.
  intros Hf c Hc. unfold wpc, bpf_call. destruct (bpf_calls c) as [|[e|] calls].
  - specialize (Hf c). destruct (f c) as [a c']. by eapply activation_ok_same.
  - by eapply activation_ok_same; [|exact Hc].
  - specialize (Hf (set_bpf_calls calls c)). destruct (f _) as [a c'].
    eapply activation_ok_same; [exact Hf|]. by eapply activation_ok_same; [|exact Hc].
Qed.

Lemma keeps_modify_same (f : Scheduler → Scheduler) :
  (∀ c, same_activation c (f c)) → keeps (E := string) activation_ok (modify f).
Proof. intros Hf. apply keeps_modify. intros c. by apply activation_ok_same. Qed.

Lemma keeps_in_disk {A} (m : M Disk string A) : keeps activation_ok (in_disk m).
Proof.
  intros c Hc. unfold wpc, in_disk. destruct (m (disk c)) as [[] d]; by eapply activation_ok_same; [|exact Hc].
Qed.

Lemma keeps_in_store {A} (m : M (RuleStore * Disk) string A) : keeps activation_ok (in_store m).
Proof.
  intros c Hc. unfold wpc, in_store. destruct (rule_store c) as [s|]; [|done].
  destruct (m (s, disk c)) as [[] [s' d]]; by eapply activation_ok_same; [|exact Hc].
Qed.

Lemma keeps_bpf_lookup key : keeps activation_ok (bpf_lookup key).
Proof. by apply keeps_bpf_call. Qed.
Lemma keeps_bpf_update key v : keeps activation_ok (bpf_update key v).
Proof. by apply keeps_bpf_call. Qed.
Lemma keeps_bpf_delete key : keeps activation_ok (bpf_delete key).
Proof. by apply keeps_bpf_call. Qed.
Lemma keeps_rules_seq n : keeps (E := string) activation_ok (modify (write_rules_seq n)).
Proof. by apply keeps_modify_same. Qed.
Lemma keeps_fatal e : keeps (E := string) activation_ok (modify (set_fatal e)).
Proof. by apply keeps_modify_same. Qed.
#[export] Hint Resolve keeps_in_disk keeps_in_store keeps_bpf_lookup keeps_bpf_update
  keeps_bpf_delete keeps_rules_seq keeps_fatal : keeps.

Lemma activation_ok_batcher c b :
  activation_ok c → batcher_ok b → ab_in_flight b = ab_in_flight (activation_batcher c) →
  (∀ comm, comm ∈ ab_pending b → allowed c comm) → activation_ok (set_batcher b c).
Proof. intros [H1 H2 H3 H4 H5] Hb Hf Hp. split; simpl; rewrite ?Hf; auto. Qed.

Lemma keeps_clear_rule_miss comm : keeps activation_ok (clear_rule_miss comm).
Proof.
  unfold clear_rule_miss. apply keeps_bind; [by apply keeps_attempt, keeps_bpf_call|]. intros found.
  apply keeps_bind; [|intros _; apply keeps_modify].
  - destruct found as [[x|]|]; keeps_tac. by apply keeps_bpf_call.
  - intros c Hc. apply activation_ok_batcher; [done|apply remove_pending_ok, Hc|done|].
    simpl. intros d [Hd _]%elem_of_difference. by apply Hc.
Qed.
#[export] Hint Resolve keeps_clear_rule_miss : keeps.

Section Activations.
Context `{DC : DocumentCodec, !Sha256}.

Lemma keeps_publish_rule comm state : keeps activation_ok (publish_rule comm state).
Proof. unfold publish_rule, publish_update. keeps_tac. Qed.
Lemma keeps_active_rule comm : keeps activation_ok (active_rule comm).
Proof. unfold active_rule. keeps_tac. Qed.
Lemma keeps_the_store : keeps activation_ok the_store.
Proof. unfold the_store. keeps_tac. Qed.
#[local] Hint Resolve keeps_publish_rule keeps_active_rule keeps_the_store : keeps.

Lemma keeps_observation comm persisted b : keeps activation_ok (rule_observation_with_persisted comm persisted b).
Proof. unfold rule_observation_with_persisted. keeps_tac. Qed.
Lemma keeps_persisted_snapshot : keeps activation_ok persisted_snapshot.
Proof. unfold persisted_snapshot. keeps_tac. Qed.
#[local] Hint Resolve keeps_observation keeps_persisted_snapshot : keeps.
Lemma keeps_rule_observation comm : keeps activation_ok (rule_observation comm).
Proof. unfold rule_observation. keeps_tac. Qed.
Lemma keeps_observe_all comms persisted b : keeps activation_ok (observe_all comms persisted b).
Proof. induction comms; simpl; keeps_tac. Qed.
Lemma keeps_respond q st cur os msg : keeps activation_ok (respond_control q st cur os msg).
Proof. unfold respond_control. keeps_tac. Qed.
#[local] Hint Resolve keeps_rule_observation keeps_observe_all keeps_respond : keeps.

Lemma keeps_recover_publish comm cas : keeps activation_ok (recover_publish comm cas).
Proof. unfold recover_publish. keeps_tac. Qed.
Lemma keeps_clear_if_present comm state : keeps activation_ok (clear_if_present comm state).
Proof. unfold clear_if_present. keeps_tac. Qed.
#[local] Hint Resolve keeps_recover_publish keeps_clear_if_present : keeps.

Lemma keeps_handle_control q : keeps activation_ok (handle_control q).
Proof.
  unfold handle_control. apply keeps_bind; [apply keeps_attempt|keeps_tac].
  unfold handle_control_inner, get_rule, snapshot_rules, compare_and_set_rule, finish_noop, finish_applied. keeps_tac.
Qed.
#[local] Hint Resolve keeps_handle_control : keeps.

Lemma keeps_poll_control polled : keeps activation_ok (poll_control polled).
Proof.
  unfold poll_control. destruct polled as [polled|]; [|apply keeps_ret]. apply keeps_bind; [apply keeps_lift|].
  intros requests. generalize (@nil control_wire.ControlResponse).
  induction requests as [|q requests IH]; intros answers; simpl; keeps_tac.
Qed.

(** ** Gathering *)

Abbreviation pending c := (ab_pending (activation_batcher c)).
Abbreviation in_flight c := (ab_in_flight (activation_batcher c)).

(** Removing pending names, and nothing else that matters. *)
Record removed (gone : gset Comm) (c c' : Scheduler) : Prop := {
  rm_ok : activation_ok c';
  rm_store : rule_store c' = rule_store c;
  rm_pending : pending c' = pending c ∖ gone;
  rm_flight : in_flight c' = in_flight c;
  rm_notifier : activation_notifier c' = activation_notifier c;
}.

Lemma removed_refl c : activation_ok c → removed ∅ c c.
Proof. intros Hc. split; try done. by rewrite difference_empty_L. Qed.

Lemma clear_rule_miss_removes comm c :
  activation_ok c → wpc (clear_rule_miss comm) (λ _, removed {[comm]} c) (λ _ _, False) (λ _, False) c.
Proof.
  intros Hc. unfold clear_rule_miss. wpc_step. apply wpc_attempt.
  assert (∀ c', same_activation c c' → rule_store c' = rule_store c →
    wpc (E := string) (modify (λ c, set_batcher (remove_pending comm (activation_batcher c)) c))
      (λ _, removed {[comm]} c) (λ _ _, False) (λ _, False) c') as Hm.
  { intros c' (Hb & Hn & Ha) Hs. apply wpc_modify. split; simpl; rewrite ?Hb; try done.
    assert (activation_ok c') as Hc' by by eapply activation_ok_same.
    rewrite <- Hb. apply activation_ok_batcher; [done|apply remove_pending_ok, Hc'|done|].
    simpl. intros d [Hd _]%elem_of_difference. by apply Hc'. }
  unfold wpc at 1, bpf_call. destruct (bpf_calls c) as [|[e|] calls]; simpl.
  2: apply wpc_bind, wpc_ret; by apply Hm.
  all: wpc_step; destruct (rule_miss_comms c !! as_bpf_key comm); [|apply wpc_ret; by apply Hm].
  all: wpc_step; apply wpc_attempt; unfold wpc at 1, bpf_call; simpl.
  - destruct (bpf_calls c) as [|[e|] calls]; apply wpc_ret; by apply Hm.
  - destruct calls as [|[e|] calls]; apply wpc_ret; by apply Hm.
Qed.

Lemma clear_all_removes comms c0 c gone :
  removed gone c0 c →
  wpc (for_each clear_rule_miss comms) (λ _, removed (gone ∪ list_to_set comms) c0) (λ _ _, False)
    (λ _, False) c.
Proof.
  revert c gone. induction comms as [|comm comms IH]; intros c gone Hc; simpl.
  - apply wpc_ret. by rewrite union_empty_r_L.
  - wpc_step. wpc_call clear_rule_miss_removes; [apply Hc| |done|done]. intros [] c1 H1.
    rewrite union_assoc_L. apply IH. destruct Hc, H1. split; [done|congruence| |congruence..].
    rewrite rm_pending1, rm_pending0. by rewrite difference_difference_l_L.
Qed.

(** A step that may add pending names but starts nothing. *)
Record gathers (c c' : Scheduler) : Prop := {
  ga_ok : activation_ok c';
  ga_store : rule_store c' = rule_store c;
  ga_flight : in_flight c' = in_flight c;
  ga_notifier : activation_notifier c' = activation_notifier c;
}.
Lemma gathers_trans c1 c2 c3 : gathers c1 c2 → gathers c2 c3 → gathers c1 c3.
Proof. intros [] []. split; congruence. Qed.
Lemma gathers_refl c : activation_ok c → gathers c c.
Proof. by split. Qed.
Lemma removed_gathers gone c c' : removed gone c c' → gathers c c'.
Proof. intros []. by split. Qed.

Lemma record_rule_miss_gathers comm c :
  activation_ok c → wpc (record_rule_miss comm) (λ _, gathers c) (λ _ _, False) (λ _, False) c.
Proof.
  intros Hc. unfold record_rule_miss. wpc_step. wpc_step.
  destruct (match activation_allowlist c with Some allowed => bool_decide (comm ∉ allowed) | None => false end) eqn:Ha.
  { apply wpc_ret. by apply gathers_refl. }
  assert (allowed c comm) as Hal.
  { intros names Hn. rewrite Hn in Ha. apply bool_decide_eq_false in Ha. by apply dec_stable in Ha. }
  wpc_step. wpc_step. destruct (classified comm c).
  { wpc_call clear_rule_miss_removes; [done| |done|done]. intros [] c' Hr. by eapply removed_gathers. }
  wpc_step. unfold wpc at 1, instant_now.
  set (c1 := set_clock _ _ _ _). assert (activation_ok c1) as Hc1 by by eapply (activation_ok_same c).
  set (t := (instant c + _)%Z). apply wpc_modify.
  assert (in_flight (set_batcher (observe comm t (activation_batcher c1)) c1) = in_flight c) as Hf.
  { simpl. unfold observe. by case_bool_decide. }
  split; [|done|exact Hf|done]. apply activation_ok_batcher; [done|apply observe_ok, Hc1|exact Hf|].
  intros d Hd. unfold observe in Hd. case_bool_decide; [by apply Hc1|]. simpl in Hd.
  apply elem_of_union in Hd as [->%elem_of_singleton|Hd]; [done|by apply Hc1].
Qed.

Lemma record_keys_gather keys c :
  activation_ok c → wpc (for_each record_key keys) (λ _, gathers c) (λ _ _, False) (λ _, False) c.
Proof.
  intros Hc. apply (wpc_for_each (gathers c)); [by apply gathers_refl|]. intros key c' _ Hg.
  unfold record_key. destruct (comm_from_key key); [|by apply wpc_ret].
  wpc_call record_rule_miss_gathers; [apply Hg| |done|done]. intros [] c2 H2. by eapply gathers_trans.
Qed.

Lemma rescan_gathers c : activation_ok c → wpc rescan (λ _, gathers c) (λ _ _, False) (λ _, False) c.
Proof.
  intros Hc. unfold rescan. wpc_step. unfold wpc at 1, instant_now. wpc_step. wpc_step.
  assert (∀ c', same_activation c c' → rule_store c' = rule_store c → gathers c c') as Hg.
  { intros c' (Hb & Hn & Ha) Hs. split; [by eapply activation_ok_same|done|by rewrite Hb|done]. }
  match goal with |- wpc (if ?b then _ else _) _ _ _ _ => destruct b end.
  - wpc_step. unfold wpc at 1. simpl. wpc_step. wpc_step. wpc_step. wpc_step.
    eapply wpc_mono; [apply record_keys_gather| |done|done].
    + eapply activation_ok_same; [|exact Hc]. done.
    + intros [] c2 H2. eapply gathers_trans; [|exact H2]. by apply Hg.
  - apply wpc_ret. by apply Hg.
Qed.

Lemma discard_removes c :
  activation_ok c →
  wpc discard_resolved_rule_misses
    (λ _ c', gathers c c' ∧ ∀ comm, comm ∈ pending c' → classified comm c' = false)
    (λ _ _, False) (λ _, False) c.
Proof.
  intros Hc. unfold discard_resolved_rule_misses. wpc_step. wpc_step. unfold id.
  wpc_call clear_all_removes; [by apply removed_refl| |done|done]. intros [] c' Hr.
  split; [by eapply removed_gathers|]. intros comm Hp. destruct Hr as [_ Hs Hpe _ _].
  rewrite Hpe in Hp. apply elem_of_difference in Hp as [Hp Hn].
  apply not_true_iff_false. intros Ht. apply Hn. apply elem_of_union. right.
  apply elem_of_list_to_set, list_elem_of_filter. split; [|by apply comms_in_order_elem].
  unfold classified in *. by rewrite <- Hs.
Qed.

(** ** Starting a batch and its completion *)

(** Either nothing is started, or a batch of names without a rule is handed to an
    idle notifier. *)
Definition starts (c c' : Scheduler) : Prop :=
  activation_ok c' ∧ rule_store c' = rule_store c
  ∧ (in_flight c' = in_flight c
     ∨ ∃ batch, in_flight c = None ∧ in_flight c' = Some batch
         ∧ activation_notifier c' = Some (MkNotifier (Some (MkRuleMissActivation (comm_text <$> batch)
             (match rule_store c with Some s => revision (rules s) | None => 0%Z end))) None None false)
         ∧ Forall (λ comm, classified comm c' = false ∧ allowed c' comm) batch).

Lemma activation_ok_clock c rescan now rest : activation_ok c → activation_ok (set_clock rescan now rest c).
Proof. by apply activation_ok_same. Qed.

Lemma start_batch_spec c :
  activation_ok c → is_Some (activation_notifier c) →
  (∀ comm, comm ∈ pending c → classified comm c = false) →
  wpc start_batch (λ _, starts c) (λ _ _, False) (λ _, False) c.
Proof.
  intros Hc [n Hn] Hk. unfold start_batch. wpc_step. unfold wpc at 1, instant_now. wpc_step. wpc_step.
  set (t := (instant c + _)%Z). set (c1 := set_clock _ _ _ _).
  assert (activation_ok c1) as Hc1 by by apply activation_ok_clock.
  change (activation_batcher c1) with (activation_batcher c).
  destruct (take_ready t (activation_batcher c)) as [taken b] eqn:Ht.
  wpc_step. wpc_step. destruct taken as [batch|].
  - destruct (take_ready_moves _ _ _ _ Ht) as (Hf & Hf' & Hmove & Hin).
    pose proof (ao_notifier _ Hc n Hn) as Hidle. rewrite Hf in Hidle. subst n.
    wpc_step. wpc_step. wpc_step. wpc_step. wpc_step. change (activation_notifier c1) with (activation_notifier c).
    rewrite Hn. apply (wpc_expect _ _ _ _ _ _ eq_refl). simpl. wpc_step. wpc_step. apply wpc_ret.
    pose proof (take_ready_ok t _ (ao_batcher _ Hc)) as Hok. rewrite Ht in Hok. simpl in Hok.
    split_and!; [|done|].
    + destruct Hc as [H1 H2 H3 H4 H5]. split; simpl; try done.
      * intros m [= <-]. rewrite Hf'. by constructor.
      * intros comm Hp. apply H4, Hmove. by right.
      * intros batch' comm Hb Hcm. rewrite Hf' in Hb. injection Hb as <-. by apply H4, Hin.
    + right. exists batch. simpl. split_and!; try done.
      apply Forall_forall. intros comm Hcm. split; [exact (Hk comm (Hin comm Hcm))|].
      exact (ao_allowed _ Hc comm (Hin comm Hcm)).
  - assert (b = activation_batcher c) as ->.
    { unfold take_ready in Ht. repeat case_match; congruence. }
    apply wpc_ret. split_and!; [|done|by left].
    by eapply activation_ok_same; [|exact Hc].
Qed.

Lemma collect_rule_misses_spec consumed c :
  activation_ok c →
  wpc (collect_rule_misses consumed) (λ _, starts c) (λ _ _, ∃ e, consumed = Err e) (λ _, False) c.
Proof.
  intros Hc. unfold collect_rule_misses. wpc_step. wpc_step.
  assert (starts c c) as Hnone by (split_and!; [done|done|by left]).
  destruct (negb _); [by apply wpc_ret|]. wpc_step. apply wpc_context, wpc_lift; [|eauto]. intros keys _.
  wpc_step. wpc_step. destruct (activation_notifier c) as [n|] eqn:Hn; [|by apply wpc_ret].
  wpc_step. wpc_call record_keys_gather; [done| |done|done]. intros [] c1 H1.
  wpc_step. wpc_call rescan_gathers; [apply H1| |done|done]. intros [] c2 H2.
  wpc_step. wpc_call discard_removes; [apply H2| |done|done]. intros [] c3 [H3 Hk].
  assert (gathers c c3) as Hg by by do 2 (eapply gathers_trans; [|done]).
  eapply wpc_mono; [apply start_batch_spec; [apply H3| |exact Hk]| |done|done].
  - rewrite (ga_notifier _ _ Hg), Hn. eauto.
  - intros [] c4 (Ha & Hs & Hst). destruct Hg as [_ Hgs Hgf Hgn]. rewrite Hgs, Hgf in *.
    split_and!; [done|done|exact Hst].
Qed.

Lemma poll_activation_completion_keeps c :
  activation_ok c → wpc poll_activation_completion (λ _, activation_ok) (λ _ _, False) (λ _, False) c.
Proof.
  intros Hc. unfold poll_activation_completion. wpc_step. wpc_step.
  destruct (activation_notifier c) as [n|] eqn:Hn; [|by apply wpc_ret].
  pose proof Hc as [H1 H2 H3 H4 H5]. specialize (H2 n Hn).
  assert (∀ comms c, activation_ok c →
    wpc (for_each (λ comm, known ← gets (classified comm);
                           if (known : bool) then clear_rule_miss comm else mret tt) comms)
      (λ _, activation_ok) (λ _ _, False) (λ _, False) c) as Hclear.
  { intros comms c' Hc'. apply (wpc_for_each activation_ok); [done|]. intros comm c1 _ Hc1.
    wpc_step. wpc_step. destruct (classified comm c1); [|by apply wpc_ret].
    wpc_call clear_rule_miss_removes; [done| |done|done]. intros [] c2 Hr. apply Hr. }
  destruct (in_flight c) as [batch|] eqn:Hf.
  - destruct H2 as [a Ha|a o Ha|completion]; simpl; wpc_step; wpc_step.
    1,2: apply wpc_ret; split; simpl; rewrite ?Hf; try done; intros m [= <-]; by constructor.
    wpc_step. wpc_step. wpc_step. wpc_step. rewrite Hf. apply Hclear.
    split; simpl; try done; [by apply finish_ok|]. by intros m [= <-].
  - subst n. simpl. wpc_step. wpc_step. apply wpc_ret.
    split; simpl; rewrite ?Hf; try done. by intros m [= <-].
Qed.

(** ** The loop *)

(** What the scheduler goes through: iterations, whose requests decode to Rust
    strings, and steps of the worker. *)
Inductive loop_step : Scheduler → Scheduler → Prop :=
  | loop_iteration polled consumed answers c c' :
      (∀ requests, polled = Some (Ok requests) → Forall request_text requests) →
      run_iteration polled consumed c = (Ret answers, c') → loop_step c c'
  | loop_worker c n n' :
      activation_notifier c = Some n → worker_step n n' → loop_step c (set_notifier n' c).

Lemma run_iteration_keeps polled consumed c :
  activation_ok c → wpc (run_iteration polled consumed) (λ _, activation_ok) (λ _ _, True) (λ _, True) c.
Proof.
  intros Hc. unfold run_iteration. wpc_step.
  eapply wpc_mono; [by apply keeps_poll_control| |done|done]. intros answers c1 H1.
  wpc_step. wpc_call poll_activation_completion_keeps; [done| |done|done]. intros [] c2 H2.
  wpc_step. wpc_call collect_rule_misses_spec; [done| |done|done]. intros [] c3 (H3 & _). by apply wpc_ret.
Qed.

Lemma loop_keeps c c' : rtc loop_step c c' → activation_ok c → activation_ok c'.
Proof.
  induction 1 as [|c c1 c2 Hstep _ IH]; [done|]. intros Hc. apply IH.
  destruct Hstep as [polled consumed answers c c1 _ He|c n n' Hn Hw].
  - pose proof (run_iteration_keeps polled consumed c Hc) as Hk. unfold wpc in Hk. by rewrite He in Hk.
  - by eapply worker_keeps.
Qed.

(** C15. The agent is notified of one batch at a time: however the iterations of the
    scheduler and the steps of the worker thread interleave, at most one activation
    is on its way and it carries exactly the batch in flight, which shares no name
    with the pending ones; gathering the misses fails only when the ring buffer
    does, never because the notifier is busy or missing; and the batch it starts,
    if any, goes to an idle notifier and holds only names the command line allows
    that have no rule. *)
Theorem activations_go_one_at_a_time c c' consumed :
  activation_ok c → rtc loop_step c c' →
  activation_ok c'
  ∧ wpc (collect_rule_misses consumed) (λ _, starts c') (λ _ _, ∃ e, consumed = Err e) (λ _, False) c'
  ∧ wpc poll_activation_completion (λ _, activation_ok) (λ _ _, False) (λ _, False) c'.
Proof.
  intros Hc Hr. pose proof (loop_keeps _ _ Hr Hc) as Hc'. split_and!; [done| |].
  - by apply collect_rule_misses_spec.
  - by apply poll_activation_completion_keeps.
Qed.
End Activations.
