(* ===== verification/SchedulerLoop.v ===== *)
(** * Options and start of the scheduler ([scx_agent_classed/src/policy.rs], [cli.rs], [scheduler.rs])

    The rule table and the timing options of the command line with their checks,
    the paths of the dynamic rules, and the part of [Scheduler::init] that opens
    the rule store, loads the map of the BPF program and starts the activations.

    The second part shows that a started scheduler stays consistent through every
    iteration of its loop and every step of its worker. *)

From S2P Require Import Wal.
From S2P Require Export SchedulerSafety SchedulerActivation.

Local Open Scope nat_scope.

(** ** Options *)

Record Opts := MkOpts {
  latency_slice_us : Z;
  batch_min_epoch_us : Z;
  batch_max_epoch_us : Z;
  batch_round_us : Z;
  latency_burst_us : Z;
  class_max_debt_us : Z;
  batch_min_run_us : Z;
  batch_preempt_granularity_us : Z;
  latency_weight : Z;
  batch_weight : Z;
  opt_default_class : RuleClass;
  opt_rules : option string;
  opt_rule : list string;
  learned_rules : option string;
  control_socket : option string;
  tuning_agent_socket : option string;
  activation_comm : list string;
  steal_scan : Z;
  same_llc_migration_cost_us : Z;
  same_node_migration_cost_us : Z;
  remote_node_migration_cost_us : Z;
  track_rule_misses : bool;
}.

Definition MAX_STEAL_SCAN : Z := 32.
Definition i64_max : Z := 2 ^ 63 - 1.

Definition checked_mul (a b : Z) (message : string) : result string Z :=
  if (a * b <=? u64_max)%Z then Ok (a * b)%Z else Err message.
Definition checked_ns (value_us : Z) (name : string) : result string Z :=
  _ ← reject (value_us =? 0)%Z (name +:+ " must be greater than zero");
  checked_mul value_us 1000 (name +:+ " is too large").

Record BatchEpochPolicy := MkBatchEpochPolicy {
  min_epoch_ns : Z; max_epoch_ns : Z; round_ns : Z; min_run_ns : Z; preempt_granularity_ns : Z }.

Definition from_opts (o : Opts) : result string BatchEpochPolicy :=
  min_epoch ← checked_ns (batch_min_epoch_us o) "batch-min-epoch-us";
  max_epoch ← checked_ns (batch_max_epoch_us o) "batch-max-epoch-us";
  round ← checked_ns (batch_round_us o) "batch-round-us";
  min_run ← checked_ns (batch_min_run_us o) "batch-min-run-us";
  granularity ← checked_ns (batch_preempt_granularity_us o) "batch-preempt-granularity-us";
  _ ← checked_mul min_epoch 8 "batch-min-epoch-us is too large for epoch levels";
  _ ← reject (max_epoch <? min_epoch)%Z "batch-max-epoch-us must be at least batch-min-epoch-us";
  _ ← reject (min_epoch * 8 <? max_epoch)%Z "batch-max-epoch-us must not exceed eight times batch-min-epoch-us";
  _ ← reject (round <? min_epoch)%Z "batch-round-us must be at least batch-min-epoch-us";
  _ ← reject (min_epoch <? min_run)%Z "batch-min-run-us must not exceed batch-min-epoch-us";
  Ok (MkBatchEpochPolicy min_epoch max_epoch round min_run granularity).

(** The timing part of [init], into the constants of the BPF program. *)
Record Timing := MkTiming {
  latency_slice_ns : Z;
  batch : BatchEpochPolicy;
  latency_burst_budget_ns : Z;
  class_max_debt_ns : Z;
  same_llc_migration_cost_ns : Z;
  same_node_migration_cost_ns : Z;
  remote_node_migration_cost_ns : Z;
}.

Definition check_timing (o : Opts) : result string Timing :=
  slice ← checked_ns (latency_slice_us o) "latency-slice-us";
  batch ← from_opts o;
  burst ← checked_ns (latency_burst_us o) "latency-burst-us";
  debt ← checked_ns (class_max_debt_us o) "class-max-debt-us";
  llc ← checked_ns (same_llc_migration_cost_us o) "same-llc-migration-cost-us";
  node ← checked_ns (same_node_migration_cost_us o) "same-node-migration-cost-us";
  remote ← checked_ns (remote_node_migration_cost_us o) "remote-node-migration-cost-us";
  _ ← checked_mul slice 2 "latency-slice-us is too large for latency accounting";
  _ ← reject (burst <? slice)%Z "latency-burst-us must be at least latency-slice-us";
  _ ← reject (slice * 2 <? burst)%Z "latency-burst-us must not exceed twice latency-slice-us";
  _ ← reject (i64_max <? debt)%Z "class-max-debt-us exceeds the signed vruntime comparison range";
  _ ← reject ((latency_weight o =? 0) || (batch_weight o =? 0))%Z "class weights must be greater than zero";
  _ ← reject (MAX_STEAL_SCAN <? steal_scan o)%Z ("steal-scan must be in the range 0..=" +:+ show MAX_STEAL_SCAN);
  _ ← reject ((node <? llc) || (remote <? node))%Z
        "migration costs must be ordered same-LLC <= same-node <= remote-node";
  Ok (MkTiming slice batch burst debt llc node remote).

(** ** Rules of the command line *)

Definition parse_rule (spec origin : string) : result string (Comm * RuleClass) :=
  '(comm, class) ← ok_or ("invalid rule '" +:+ spec +:+ "' in " +:+ origin +:+ ": expected COMM=CLASS")
                     (split_once "="%char spec);
  comm ← map_err (λ error, "invalid rule in " +:+ origin +:+ ": " +:+ error) (Comm_new (str_trim comm));
  class ← map_err (λ error, "invalid rule in " +:+ origin +:+ ": " +:+ error) (class_try_from class);
  Ok (comm, class).

Definition insert_spec (rules : RuleTable) (spec origin : string) : result string RuleTable :=
  '(comm, class) ← parse_rule spec origin; Ok (<[comm := class]> rules).

(** A line of the rule file: its text before a [#]. *)
Definition rule_line (raw : string) : string := str_trim (hd "" (Paths.split "#"%char raw)).

Definition load_rule_line (path : string) (acc : nat * RuleTable) (raw : string) : result string (nat * RuleTable) :=
  let '(index, rules) := acc in
  let line := rule_line raw in
  if bool_decide (line = "") then Ok (S index, rules) else
  rules ← insert_spec rules line (path +:+ ":" +:+ show (Z.of_nat (S index)));
  Ok (S index, rules).
Definition load_spec (acc : nat * RuleTable) (spec : string) : result string (nat * RuleTable) :=
  let '(index, rules) := acc in
  rules ← insert_spec rules spec ("--rule #" +:+ show (Z.of_nat (S index)));
  Ok (S index, rules).

(** [read]: the contents of the rule file. *)
Definition load_rule_table (read : string → result string string) (o : Opts) : result string RuleTable :=
  from_file ← match opt_rules o with
              | None => Ok ∅
              | Some path =>
                contents ← ctx ("reading rule file " +:+ path) (read path);
                acc ← fold_result (load_rule_line path) (0, ∅) (lines contents);
                Ok acc.2
              end;
  acc ← fold_result load_spec (0, from_file) (opt_rule o);
  let rules := acc.2 in
  _ ← reject (MAX_RULES <? size rules)
        ("rule table contains " +:+ show (Z.of_nat (size rules)) +:+ " entries, maximum is "
           +:+ show (Z.of_nat MAX_RULES));
  Ok rules.

Definition allow_comm (allowlist : gset Comm) (value : string) : result string (gset Comm) :=
  comm ← ctx ("invalid --activation-comm '" +:+ value +:+ "'") (Comm_new value);
  if bool_decide (comm ∈ allowlist) then Err ("duplicate --activation-comm '" +:+ value +:+ "'")
  else Ok ({[comm]} ∪ allowlist).
Definition load_activation_allowlist (o : Opts) : result string (option (gset Comm)) :=
  if bool_decide (activation_comm o = []) then Ok None
  else allowlist ← fold_result allow_comm ∅ (activation_comm o); Ok (Some allowlist).

(** ** Paths of the dynamic rules *)

(** A path built by [push] and [pop], as its components. *)
Definition push_component (normalized : list Component) (c : Component) : list Component :=
  match c with
  | CurDir => normalized
  | ParentDir => match last normalized with Some (Normal _) => removelast normalized | _ => normalized end
  | c => normalized ++ [c]
  end.
Definition normalize_cli_path (current_dir : result string string) (path : string)
    : result string (list Component) :=
  absolute ← (if is_absolute path then Ok (components path)
              else dir ← ctx "resolving dynamic-rule paths from the current directory" current_dir;
                   Ok (components dir ++ components path));
  Ok (foldl push_component [] absolute).

Fixpoint check_distinct (current_dir : result string string) (left_name : string) (path : list Component)
    (others : list (string * option string)) : result string unit :=
  match others with
  | [] => Ok tt
  | (_, None) :: others => check_distinct current_dir left_name path others
  | (right_name, Some other) :: others =>
    normalized ← normalize_cli_path current_dir other;
    _ ← reject (bool_decide (path = normalized)) (left_name +:+ " and " +:+ right_name +:+ " must use distinct paths");
    check_distinct current_dir left_name path others
  end.
Fixpoint check_paths (current_dir : result string string) (paths : list (string * option string))
    : result string unit :=
  match paths with
  | [] => Ok tt
  | (_, None) :: paths => check_paths current_dir paths
  | (name, Some path) :: paths =>
    normalized ← normalize_cli_path current_dir path;
    _ ← check_distinct current_dir name normalized paths;
    check_paths current_dir paths
  end.
Definition validate_dynamic_paths (current_dir : result string string) (o : Opts) : result string unit :=
  check_paths current_dir
    [("--learned-rules", learned_rules o); ("--control-socket", control_socket o);
     ("--tuning-agent-socket", tuning_agent_socket o)].

(** ** Starting *)

Section Init.
Context `{DC : DocumentCodec, !Sha256}.

(** The state before [init]: the maps are empty, nothing is opened. *)
Definition boot (d : Disk) (calls : list (option string)) (now : Z) (ticks : list Z) (instance_id : string)
    (o : Opts) : Scheduler :=
  MkScheduler ∅ ∅ 0 0 0 calls d None None None
    (MkBatcher ∅ None None ACTIVATION_COALESCE MAX_ACTIVATION_COMMS) now now ticks instance_id
    (opt_default_class o) None (track_rule_misses o || bool_decide (is_Some (tuning_agent_socket o))).

Definition set_agent (n : option ActivationNotifier) (allowlist : option (gset Comm)) (c : Scheduler) : Scheduler :=
  MkScheduler (rules_map c) (rule_miss_comms c) (rules_seq c) (nr_task_state_errors c)
    (nr_rule_refresh_deferred c) (bpf_calls c) (disk c) (rule_store c) n allowlist (activation_batcher c)
    (last_rule_miss_rescan c) (instant c) (ticks c) (scheduler_instance_id c) (default_class c)
    (fatal_control_error c) (rule_miss_collection_enabled c).

Definition load_map_entry (p : Comm * RuleClass) : SM unit := bpf_update (as_bpf_key p.1) (class_bytes p.2).

Definition init (read : string → result string string) (o : Opts) : SM unit :=
  _ ← lift (check_timing o);
  base_rules ← lift (load_rule_table read o);
  allowlist ← lift (load_activation_allowlist o);
  effective_rules ← match learned_rules o with
    | None => mret base_rules
    | Some path =>
      store ← with_context "loading learned rules" (in_disk (store_open path base_rules));
      _ ← modify (λ c, set_store (Some store) (disk c) c);
      mret (effective (rules store))
    end;
  _ ← for_each load_map_entry (table_in_order effective_rules);
  _ ← modify (write_rules_seq 2);
  modify (set_agent ((λ _, notifier_start) <$> tuning_agent_socket o) allowlist).
End Init.

(** * The running scheduler

    From its start, through any number of iterations: the options are in bounds,
    the start puts the disk, the memory and the BPF map in agreement, and they stay
    so as long as the scheduler runs. *)

Local Open Scope nat_scope.

(** ** Options *)

Definition u64 (n : Z) : Prop := (0 ≤ n ≤ u64_max)%Z.

(** The options are machine integers. *)
Record opts_ok (o : Opts) : Prop := {
  oo_slice : u64 (latency_slice_us o);
  oo_min : u64 (batch_min_epoch_us o);
  oo_max : u64 (batch_max_epoch_us o);
  oo_round : u64 (batch_round_us o);
  oo_burst : u64 (latency_burst_us o);
  oo_debt : u64 (class_max_debt_us o);
  oo_run : u64 (batch_min_run_us o);
  oo_granularity : u64 (batch_preempt_granularity_us o);
  oo_llc : u64 (same_llc_migration_cost_us o);
  oo_node : u64 (same_node_migration_cost_us o);
  oo_remote : u64 (remote_node_migration_cost_us o);
}.

Lemma checked_mul_Ok a b m n : checked_mul a b m = Ok n ↔ n = (a * b)%Z ∧ (a * b ≤ u64_max)%Z.
Proof.
  unfold checked_mul. destruct (a * b <=? u64_max)%Z eqn:Hn.
  - apply Z.leb_le in Hn. split; [intros [= <-]; done|by intros [-> _]].
  - apply Z.leb_gt in Hn. split; [done|lia].
Qed.

Lemma checked_ns_Ok v name n :
  u64 v → checked_ns v name = Ok n → n = (v * 1000)%Z ∧ (0 < n ≤ u64_max)%Z.
Proof.
  unfold u64. intros Hv Hn. apply reject_bind_Ok in Hn as [Hz Hn]. apply reject_Ok, Z.eqb_neq in Hz.
  apply checked_mul_Ok in Hn as [-> Hb]. lia.
Qed.

(** The order of the constants the BPF program relies on. *)
Record timing_ok (o : Opts) (t : Timing) : Prop := {
  ti_slice : (0 < latency_slice_ns t)%Z ∧ (2 * latency_slice_ns t ≤ u64_max)%Z;
  ti_burst : (latency_slice_ns t ≤ latency_burst_budget_ns t ≤ 2 * latency_slice_ns t)%Z;
  ti_epochs : (0 < min_epoch_ns (batch t) ≤ max_epoch_ns (batch t))%Z
    ∧ (max_epoch_ns (batch t) ≤ 8 * min_epoch_ns (batch t) ≤ u64_max)%Z;
  ti_round : (min_epoch_ns (batch t) ≤ round_ns (batch t) ≤ u64_max)%Z;
  ti_run : (0 < min_run_ns (batch t) ≤ min_epoch_ns (batch t))%Z;
  ti_granularity : (0 < preempt_granularity_ns (batch t) ≤ u64_max)%Z;
  ti_debt : (0 < class_max_debt_ns t ≤ i64_max)%Z;
  ti_costs : (0 < same_llc_migration_cost_ns t ≤ same_node_migration_cost_ns t)%Z
    ∧ (same_node_migration_cost_ns t ≤ remote_node_migration_cost_ns t ≤ u64_max)%Z;
  ti_weights : latency_weight o ≠ 0%Z ∧ batch_weight o ≠ 0%Z;
  ti_scan : (steal_scan o ≤ MAX_STEAL_SCAN)%Z;
}.

Ltac bind_Ok H :=
  lazymatch type of H with
  | (reject _ _ ≫= _) = Ok _ => let Hr := fresh "Hr" in apply reject_bind_Ok in H as [Hr H]; apply reject_Ok in Hr
  | (_ ≫= _) = Ok _ => let x := fresh "x" in let Hx := fresh "Hx" in apply result_bind_Ok in H as (x & Hx & H)
  end.

Lemma from_opts_Ok o b :
  opts_ok o → from_opts o = Ok b →
  ((0 < min_epoch_ns b ≤ max_epoch_ns b) ∧ (max_epoch_ns b ≤ 8 * min_epoch_ns b ≤ u64_max)
   ∧ (min_epoch_ns b ≤ round_ns b ≤ u64_max) ∧ (0 < min_run_ns b ≤ min_epoch_ns b)
   ∧ (0 < preempt_granularity_ns b ≤ u64_max))%Z.
Proof.
  intros [] Hb. unfold from_opts in Hb. repeat bind_Ok Hb. injection Hb as <-. simpl.
  repeat match goal with
         | Hx : checked_ns _ _ = Ok _ |- _ => apply checked_ns_Ok in Hx; [|done]
         | Hx : checked_mul _ _ _ = Ok _ |- _ => apply checked_mul_Ok in Hx
         | Hx : (_ <? _)%Z = false |- _ => apply Z.ltb_ge in Hx
         end. lia.
Qed.

Lemma check_timing_Ok o t : opts_ok o → check_timing o = Ok t → timing_ok o t.
Proof.
  intros Ho Ht. unfold check_timing in Ht. repeat bind_Ok Ht. injection Ht as <-.
  match goal with Hx : from_opts _ = Ok _ |- _ => apply from_opts_Ok in Hx; [|done] end.
  destruct Ho.
  repeat match goal with
         | Hx : checked_ns _ _ = Ok _ |- _ => apply checked_ns_Ok in Hx; [|done]
         | Hx : checked_mul _ _ _ = Ok _ |- _ => apply checked_mul_Ok in Hx
         | Hx : (_ || _) = false |- _ => apply orb_false_iff in Hx as [? ?]
         | Hx : (_ <? _)%Z = false |- _ => apply Z.ltb_ge in Hx
         | Hx : (_ =? _)%Z = false |- _ => apply Z.eqb_neq in Hx
         end.
  split; simpl; lia.
Qed.

(** ** Names of the rule table *)

Definition table_valid (t : RuleTable) : Prop := map_Forall (λ c _, valid_comm (comm_text c)) t.

Lemma insert_spec_valid t spec origin t' : table_valid t → insert_spec t spec origin = Ok t' → table_valid t'.
Proof.
  intros Ht Hi. unfold insert_spec in Hi. apply result_bind_Ok in Hi as ([comm class] & Hp & [= <-]).
  unfold parse_rule in Hp. apply result_bind_Ok in Hp as ([l r] & _ & Hp).
  apply result_bind_Ok in Hp as (comm' & Hc & Hp). apply result_bind_Ok in Hp as (class' & _ & [= <- <-]).
  apply map_err_Ok in Hc. unfold Comm_new in Hc. apply result_bind_Ok in Hc as ([] & Hv & [= <-]).
  apply map_Forall_insert_2; [by apply validate_comm_Ok|done].
Qed.

Lemma load_rule_table_valid read o t : load_rule_table read o = Ok t → table_valid t ∧ size t ≤ MAX_RULES.
Proof.
  intros Ht. unfold load_rule_table in Ht. apply result_bind_Ok in Ht as (t0 & H0 & Ht).
  apply result_bind_Ok in Ht as ([n t1] & H1 & Ht). apply reject_bind_Ok in Ht as [Hs [= <-]].
  apply reject_Ok, PeanoNat.Nat.ltb_ge in Hs. split; [|exact Hs]. simpl.
  assert (table_valid t0) as Hv0.
  { destruct (opt_rules o) as [path|]; [|injection H0 as <-; apply map_Forall_empty].
    apply result_bind_Ok in H0 as (text & _ & H0). apply result_bind_Ok in H0 as ([m t2] & H0 & [= <-]). simpl.
    refine (fold_result_inv _ (λ acc, table_valid acc.2) _ _ _ _ _ H0); [|apply map_Forall_empty].
    intros [i t] raw [j t'] _ Hi Hl. unfold load_rule_line in Hl. case_bool_decide; [by injection Hl as _ <-|].
    apply result_bind_Ok in Hl as (t3 & Hl & [= _ <-]). by eapply insert_spec_valid. }
  refine (fold_result_inv _ (λ acc, table_valid acc.2) _ _ _ _ _ H1); [|done].
  intros [i t] spec [j t'] _ Hi Hl. unfold load_spec in Hl.
  apply result_bind_Ok in Hl as (t3 & Hl & [= _ <-]). by eapply insert_spec_valid.
Qed.

(** ** Loading the map *)

Section Start.
Context `{DC : DocumentCodec, DL : !DocumentCodecLaws, !Sha256}.

Definition insert_pair (t : RuleTable) (p : Comm * RuleClass) : RuleTable := <[p.1 := p.2]> t.

Lemma insert_pairs_lookup (l : list (Comm * RuleClass)) t c k :
  NoDup l.*1 → foldl insert_pair t l !! c = Some k ↔ (c, k) ∈ l ∨ (¬ (c ∈ l.*1) ∧ t !! c = Some k).
Proof.
  revert t. induction l as [|[d j] l IH]; intros t Hn; simpl; [set_solver|].
  apply NoDup_cons in Hn as [Hd Hn]. rewrite IH by done. unfold insert_pair. simpl.
  rewrite lookup_insert_Some, elem_of_cons, not_elem_of_cons. split.
  - intros [?|[? [[<- <-]|[? ?]]]]; [left; by right|left; by left|right; split; [split; [congruence|done]|done]].
  - intros [[[= -> ->]|?]|[[? ?] ?]]; [|by left|right; split; [done|right; split; [congruence|done]]].
    right. split; [done|by left].
Qed.

Lemma insert_table t : foldl insert_pair ∅ (table_in_order t) = t.
Proof.
  apply map_eq. intros c. apply option_eq. intros k.
  rewrite insert_pairs_lookup by apply table_in_order_NoDup.
  rewrite table_in_order_elem, lookup_empty. naive_solver.
Qed.

(** The fields the loading of the map leaves alone. *)
Record loads (c c' : Scheduler) : Prop := {
  ld_store : rule_store c' = rule_store c;
  ld_disk : disk c' = disk c;
  ld_fatal : fatal_control_error c' = fatal_control_error c;
  ld_same : same_activation c c';
}.

Lemma load_map_spec l t c0 c :
  Forall (λ p, comm_ok p.1) l → table_ok t → runs_rules (rules_map c) t → loads c0 c →
  wpc (for_each load_map_entry l)
    (λ _ c', runs_rules (rules_map c') (foldl insert_pair t l) ∧ loads c0 c')
    (λ _ c', loads c0 c') (λ _, False) c.
Proof.
  intros Hl. revert t c. induction Hl as [|[comm class] l Hc _ IH]; intros t c Ht Hr Hld; [by apply wpc_ret|].
  simpl. wpc_step. apply wpc_bpf_call; [|intros calls e; by destruct Hld].
  intros calls. simpl. apply IH; [by apply map_Forall_insert_2| |by destruct Hld].
  exact (runs_with_rule (rules_map c) t comm (Present class) Hr Ht Hc).
Qed.

Lemma runs_nothing : runs_rules ∅ ∅.
Proof. intros k v. rewrite lookup_empty. split; [done|]. intros (? & ? & H' & _). by rewrite lookup_empty in H'. Qed.

(** The names of the table are Rust strings. *)
Definition table_text (t : RuleTable) : Prop := map_Forall (λ c _, is_utf8 (comm_text c) = true) t.

Lemma table_valid_ok t : table_valid t → table_text t → table_ok t.
Proof. intros Hv Hu c k Hc. split; [by eapply Hv|by eapply Hu]. Qed.

Lemma started_activation (c : Scheduler) n allowlist :
  activation_batcher c = MkBatcher ∅ None None ACTIVATION_COALESCE MAX_ACTIVATION_COMMS →
  n = Some notifier_start ∨ n = None → activation_ok (set_agent n allowlist c).
Proof.
  intros Hb Hn. split; simpl; rewrite ?Hb; simpl; try done.
  - split; simpl; [done|done|]. unfold MAX_ACTIVATION_COMMS. lia.
  - intros m ->. by destruct Hn as [[= ->]|].
Qed.

Lemma init_spec read o path name contents d calls now ticks id :
  learned_rules o = Some path → file_name path = Some name → safe name (eq contents) d →
  (∀ t, load_rule_table read o = Ok t → table_text t) →
  wpc (init read o)
    (λ _ c, activation_ok c ∧ is_ok (check_timing o) = true
       ∧ ∃ s, in_sync name s c ∧ store_path s = path ∧ load_rule_table read o = Ok (base (rules s)))
    (λ _ _, True) (λ _, True)
    (boot d calls now ticks id o).
Proof.
  intros Hl Hn Hs Hu. unfold init. rewrite Hl.
  wpc_step. wpc_step; [|done]. wpc_step. wpc_step; [|done]. rename a0 into b.
  wpc_step. wpc_step; [|done]. wpc_step. wpc_step. apply wpc_context, wpc_in_disk. simpl.
  wpc_call (store_opens path name contents b d); [done|done| | |]; [|by intros..].
  intros s d1 (Hp & Hb & Hunc & Hok). wpc_step. wpc_step. apply wpc_ret.
  set (c1 := set_store _ _ _). pose proof (st_rules _ _ _ Hok) as Hr.
  assert (table_ok (base (rules s))) as Hbase.
  { rewrite Hb. apply table_valid_ok; [by eapply load_rule_table_valid|by apply Hu]. }
  pose proof (effective_table_ok _ Hr Hbase) as Heff.
  wpc_step. eapply wpc_mono;
    [apply (load_map_spec _ ∅ c1); [by apply table_in_order_ok|apply map_Forall_empty|apply runs_nothing|done]
    | |done|done].
  - intros [] c2 [Hrun [Hst Hd Hf Hsame]]. rewrite insert_table in Hrun.
    wpc_step. apply wpc_modify, wpc_modify. split_and!.
    + apply started_activation; [simpl; by destruct Hsame as (-> & _)|]. destruct (tuning_agent_socket o); [by left|by right].
    + by match goal with Ht : check_timing o = Ok _ |- _ => rewrite Ht end.
    + exists s. split_and!; [|done|congruence].
      split; simpl; rewrite ?Hst, ?Hd, ?Hf; done.
Qed.

(** ** The loop keeps the agreement *)

(** What gathering touches: pending names, the notifier, the miss map, the clock. *)
Definition blind (I : Scheduler → Prop) : Prop :=
  (∀ c b, I c → I (set_batcher b c)) ∧ (∀ c m, I c → I (set_misses m c)) ∧ (∀ c n, I c → I (set_notifier n c))
  ∧ (∀ c calls, I c → I (set_bpf_calls calls c)) ∧ (∀ c r t l, I c → I (set_clock r t l c)).

Lemma in_sync_blind name s : blind (in_sync name s).
Proof. split_and!; intros c *; intros []; by split. Qed.

Section Blind.
Context (I : Scheduler → Prop) (Hblind : blind I).

Lemma blind_modify f : (∀ c, I c → I (f c)) → keeps (E := string) I (modify f).
Proof. apply keeps_modify. Qed.

Lemma blind_bpf_call {A} (f : Scheduler → A * Scheduler) : (∀ c, I c → I (f c).2) → keeps I (bpf_call f).
Proof.
  destruct Hblind as (_ & _ & _ & Hc & _). intros Hf c Hi. apply wpc_bpf_call; intros; [apply Hf|]; by apply Hc.
Qed.

Lemma blind_clear_rule_miss comm : keeps I (clear_rule_miss comm).
Proof.
  pose proof Hblind as (Hb & Hm & _). unfold clear_rule_miss.
  apply keeps_bind; [by apply keeps_attempt, blind_bpf_call|]. intros [[x|]|].
  all: keeps_tac; try (apply blind_bpf_call; intros; by apply Hm); apply blind_modify; intros; by apply Hb.
Qed.

Lemma blind_instant_now : keeps I instant_now.
Proof. intros c Hc. unfold wpc, instant_now. by apply Hblind. Qed.

Lemma blind_record_key key : keeps I (record_key key).
Proof.
  pose proof Hblind as (Hb & _). unfold record_key, record_rule_miss. destruct (comm_from_key key); keeps_tac.
  - apply blind_clear_rule_miss.
  - apply blind_instant_now.
  - apply blind_modify. intros; by apply Hb.
Qed.

Lemma blind_rescan : keeps I rescan.
Proof.
  pose proof Hblind as (_ & _ & _ & _ & Ht). unfold rescan. keeps_tac.
  - apply blind_instant_now.
  - apply blind_instant_now.
  - apply blind_modify. intros; by apply Ht.
  - apply blind_record_key.
Qed.

Lemma blind_discard : keeps I discard_resolved_rule_misses.
Proof. unfold discard_resolved_rule_misses. keeps_tac. apply blind_clear_rule_miss. Qed.

Lemma blind_start_batch : keeps I start_batch.
Proof.
  pose proof Hblind as (Hb & _ & Hn & _). unfold start_batch. keeps_tac.
  - apply blind_instant_now.
  - apply blind_modify. intros; by apply Hb.
  - apply blind_modify. intros; by apply Hn.
Qed.

Lemma blind_collect consumed : keeps I (collect_rule_misses consumed).
Proof.
  unfold collect_rule_misses. keeps_tac.
  - apply blind_record_key.
  - apply blind_rescan.
  - apply blind_discard.
  - apply blind_start_batch.
Qed.

Lemma blind_completion : keeps I poll_activation_completion.
Proof.
  pose proof Hblind as (Hb & _ & Hn & _). unfold poll_activation_completion. keeps_tac.
  - apply blind_modify. intros; by apply Hn.
  - apply blind_modify. intros; by apply Hb.
  - apply blind_clear_rule_miss.
Qed.
End Blind.

Definition consistent (name path : string) (b : RuleTable) (c : Scheduler) : Prop :=
  ∃ s, in_sync name s c ∧ store_path s = path ∧ base (rules s) = b.

Lemma answer_controls_consistent name path b requests answers c :
  consistent name path b c → Forall request_text requests →
  wpc (answer_controls requests answers) (λ _, consistent name path b) (λ _ _, True) (λ _, True) c.
Proof.
  intros Hc Hq. revert answers c Hc. induction Hq as [|q requests Hq _ IH]; intros answers c Hc; simpl; [by apply wpc_ret|].
  destruct Hc as (s & Hs & Hp & Hb). wpc_step.
  wpc_call control_requests_keep_rules_consistent_spec; [exact Hs|done| |done|done].
  intros resp c1 ((_ & Hl) & _). wpc_step. wpc_step. wpc_step. wpc_step.
  destruct (fatal_control_error c1) as [e|] eqn:Hf; [by apply wpc_throw|].
  destruct (Hl eq_refl) as (s' & Hs' & Hp' & Hb' & _). apply IH. exists s'.
  split_and!; [|congruence|congruence]. destruct Hs'. by split.
Qed.

Lemma run_iteration_consistent name path b polled consumed c :
  consistent name path b c → (∀ requests, polled = Some (Ok requests) → Forall request_text requests) →
  wpc (run_iteration polled consumed) (λ _, consistent name path b) (λ _ _, True) (λ _, True) c.
Proof.
  intros Hc Hq. unfold run_iteration. wpc_step.
  assert (wpc (poll_control polled) (λ _, consistent name path b) (λ _ _, True) (λ _, True) c) as Hpoll.
  { unfold poll_control. destruct polled as [[requests|e]|]; [| |by apply wpc_ret].
    - wpc_step. apply wpc_ret. apply answer_controls_consistent; auto.
    - wpc_step. by apply wpc_lift. }
  eapply wpc_mono; [exact Hpoll| |done|done]. intros answers c1 (s & Hs & Hp & Hb).
  wpc_step. eapply wpc_mono; [by apply (blind_completion _ (in_sync_blind name s))| |done|done].
  intros [] c2 Hs2. wpc_step. eapply wpc_mono; [by apply (blind_collect _ (in_sync_blind name s))| |done|done].
  intros [] c3 Hs3. apply wpc_ret. by exists s.
Qed.

Lemma loop_consistent name path b c c' :
  rtc loop_step c c' → consistent name path b c → consistent name path b c'.
Proof.
  induction 1 as [|c c1 c2 Hstep _ IH]; [done|]. intros Hc. apply IH.
  destruct Hstep as [polled consumed answers c c1 Hq He|c n n' Hn Hw].
  - pose proof (run_iteration_consistent name path b polled consumed c Hc Hq) as Hk. unfold wpc in Hk. by rewrite He in Hk.
  - destruct Hc as (s & Hs & ? & ?). exists s. split; [|done]. by apply in_sync_blind.
Qed.

(** C13. A scheduler that has started stays consistent: with valid timing options,
    a rule file and a document that load, and the names of a request Rust strings,
    in every state its iterations and its worker reach, the document on disk
    decodes to the learned rules in memory, the BPF program runs exactly the
    union of the base rules of the command line and those, under an even sequence
    number, and at most one activation is on its way.  A fatal error ends the loop
    before any other state. *)
Theorem running_scheduler_is_consistent read o path name contents d calls now ticks id c0 c :
  learned_rules o = Some path → file_name path = Some name → safe name (eq contents) d →
  opts_ok o → (∀ t, load_rule_table read o = Ok t → table_text t) →
  init read o (boot d calls now ticks id o) = (Ret tt, c0) → rtc loop_step c0 c →
  (∃ t, check_timing o = Ok t ∧ timing_ok o t)
  ∧ activation_ok c
  ∧ ∃ s, rule_store c = Some s ∧ load_rule_table read o = Ok (base (rules s))
      ∧ (∀ x, may_hold (disk c) name x → load_contents path x = Ok (learned (rules s), revision (rules s)))
      ∧ runs_rules (rules_map c) (base (rules s) ∪ learned (rules s))
      ∧ base (rules s) ##ₘ learned (rules s) ∧ size (effective (rules s)) ≤ MAX_RULES
      ∧ Z.even (rules_seq c) = true.
Proof.
  intros Hl Hn Hs Ho Hu Hi Hr.
  pose proof (init_spec read o path name contents d calls now ticks id Hl Hn Hs Hu) as Hinit.
  unfold wpc in Hinit. rewrite Hi in Hinit. destruct Hinit as (Ha & Ht & s0 & Hs0 & Hp0 & Hb0).
  destruct (loop_consistent name path (base (rules s0)) c0 c Hr) as (s & Hsync & Hp & Hb); [by exists s0|].
  split; [|split; [by eapply loop_keeps|]].
  - destruct (check_timing o) as [t|] eqn:Hc; [|done]. exists t. split; [done|]. by apply check_timing_Ok.
  - destruct Hsync as [Hst [_ [[Hd He Hz] _ _] Hdoc] _ _ _ Hm [_ Heven] _].
    exists s. split_and!; try done; [congruence| |by rewrite <- He].
    intros x Hx. rewrite <- Hp. exact (safe_may_hold _ _ _ _ Hdoc Hx).
Qed.
End Start.
