(* ===== verification/SchedulerWitnesses.v ===== *)
(** * Concrete runs of the scheduler

    A codec of documents that satisfies the laws asked of [serde_json], a disk, a
    start of the scheduler and requests on it: the hypotheses of the scheduler's
    theorems hold there. *)

From stdpp Require Import countable.
From S2P Require Import Codec.
From S2P Require Export SchedulerLoop.

Local Open Scope nat_scope.

(** ** A codec: the binary digits of a number of the document *)

#[export] Instance RuleClass_countable : Countable RuleClass.
Proof.
  refine (inj_countable' (λ c, match c with Latency => true | Batch => false end)
    (λ b : bool, if b then Latency else Batch) _). by intros [].
Defined.

Definition document_bytes (d : StoredDocument) : string :=
  digits (encode (schema_version d, sd_revision d, stored_fields <$> sd_rules d)).

Definition checked_document (fields : Z * Z * list (string * RuleClass))
    : result string (Z * Z * list (string * RuleClass)) :=
  let '(version, n, rs) := fields in
  if (0 <=? n)%Z && (n <=? u64_max)%Z && forallb (λ r : string * RuleClass, is_utf8 r.1) rs
  then Ok fields else Err "invalid type".

Definition document_number (bytes : string) : option (Z * Z * list (string * RuleClass)) :=
  s ← Text.strip_suffix (String "010"%char "") bytes; p ← of_digits s; countable.decode p.

Definition document_fields (bytes : string) : result string (Z * Z * list (string * RuleClass)) :=
  match document_number bytes with
  | Some fields => checked_document fields
  | None => Err "not a document"
  end.

#[export] Instance numbered_documents : DocumentCodec := {
  to_vec_pretty d := Ok (document_bytes d);
  from_slice := document_fields;
}.

#[export] Instance numbered_documents_laws : DocumentCodecLaws.
Proof.
  split.
  - intros d bytes Hr Ht [= <-]. simpl. unfold document_fields, document_number.
    assert (Text.strip_suffix (String "010"%char "") (document_bytes d +:+ String "010"%char "")
            = Some (document_bytes d)) as -> by by apply Text.strip_suffix_Some.
    simpl. unfold document_bytes. rewrite of_digits_digits. simpl. rewrite decode_encode. simpl.
    replace (0 <=? sd_revision d)%Z with true by (symmetry; apply Z.leb_le; lia).
    replace (sd_revision d <=? u64_max)%Z with true by (symmetry; apply Z.leb_le; lia). simpl.
    replace (forallb _ _) with true; [done|]. symmetry. apply forallb_forall. intros r Hin.
    apply list_elem_of_In, list_elem_of_fmap in Hin as (x & -> & Hx). simpl.
    rewrite Forall_forall in Ht. by apply Ht.
  - intros bytes version n rs. simpl. unfold document_fields, checked_document.
    destruct (document_number bytes) as [[[v m] l]|]; [|done].
    destruct ((0 <=? m)%Z && (m <=? u64_max)%Z && _) eqn:Hc; [|done]. intros [= <- <- <-].
    apply andb_true_iff in Hc as [[H1 H2]%andb_true_iff Hf]. apply Z.leb_le in H1, H2. split; [lia|].
    apply Forall_forall. intros r Hr. rewrite forallb_forall in Hf. apply Hf. by apply list_elem_of_In.
Qed.

Definition plain_sha256 : Sha256 := λ s, s.
#[local] Existing Instance plain_sha256.

(** ** A disk without a document *)

Definition rules_path : string := "/var/lib/scx/rules.json".
Definition rules_name : string := "rules.json".
Definition empty_disk (calls : list DiskCall) : Disk := MkDisk ∅ 0 ∅ [] true 42 7 calls.

Definition no_rules : RuleSnapshot := MkRuleSnapshot 0 ∅ ∅ ∅.
Definition empty_store : RuleStore := MkRuleStore rules_path no_rules false.
Definition bash : Comm := MkComm "bash".

Lemma bash_ok : comm_ok bash.
Proof. split; [by apply validate_comm_Ok|done]. Qed.

Lemma empty_disk_safe calls : safe rules_name (eq None) (empty_disk calls).
Proof.
  split; [split|].
  - intros dir n i ->%list_elem_of_singleton. simpl. by rewrite lookup_empty.
  - intros dir ->%list_elem_of_singleton. exists None. split; [done|]. simpl. apply lookup_empty.
Qed.

Lemma no_rules_ok : rules_ok no_rules.
Proof.
  split; [split|apply map_Forall_empty|by vm_compute]; simpl.
  - apply map_disjoint_empty_l.
  - by rewrite (left_id_L ∅ (∪)).
  - rewrite map_size_empty. unfold MAX_RULES. lia.
Qed.

Lemma empty_store_ok calls : store_ok empty_store (empty_disk calls) rules_name.
Proof.
  split; [by vm_compute|apply no_rules_ok|]. eapply safe_mono; [|apply empty_disk_safe]. by intros ? <-.
Qed.

(** A loss of power that keeps the last directory. *)
Definition restarted (d : Disk) : Disk :=
  MkDisk ((λ ino, MkInode (written ino) true) <$> inodes d) (next_inode d) (directory d) [] true 43 0 [].

Lemma restarted_power_loss d : power_loss d (restarted d).
Proof.
  split; [exact (possible_current d)|done| |done]. intros i ino Hi. exists (written ino).
  simpl. by rewrite lookup_fmap, Hi.
Qed.

(** ** The witnesses of the keys and of the store *)

Lemma rule_keys_round_trip_witness :
  comm_ok bash
  ∧ String.length (as_bpf_key bash) = COMM_KEY_LEN ∧ comm_from_key (as_bpf_key bash) = Ok bash
  ∧ (∀ d, comm_ok d → as_bpf_key d = as_bpf_key bash → d = bash)
  ∧ (∀ k d, comm_from_key k = Ok d → comm_ok d).
Proof. split; [exact bash_ok|]. exact (rule_keys_round_trip bash bash_ok). Defined.

(** The machine stops between the rename and the sync of the directory. *)
Definition dying_calls : list DiskCall := [Works; Works; Works; Works; Dies 0].
Abbreviation dying_change :=
  (compare_and_set bash Absent (Present Latency) (empty_store, empty_disk dying_calls)).

Lemma learned_rules_survive_crashes_witness :
  dying_change.1 = Panic
  ∧ length (possible dying_change.2.2) = 3
  ∧ ∃ r, restart_finds bash Absent (Present Latency) empty_store dying_change.1 r
    ∧ wpc (store_open rules_path ∅) (λ s' d'', rules s' = r ∧ store_ok s' d'' rules_name) (λ _ _, True)
        (λ _, True) (restarted dying_change.2.2)
    ∧ (disk_calls (restarted dying_change.2.2) = [] →
       parent_is_directory (restarted dying_change.2.2) = true →
       store_open rules_path ∅ (restarted dying_change.2.2)
       = (Ret (MkRuleStore rules_path r false), restarted dying_change.2.2)).
Proof.
  split; [vm_compute; reflexivity|]. split; [vm_compute; reflexivity|].
  exact (learned_rules_survive_crashes bash Absent (Present Latency) empty_store (empty_disk dying_calls)
           rules_name (restarted dying_change.2.2) bash_ok (empty_store_ok dying_calls)
           (restarted_power_loss dying_change.2.2)).
Defined.

Example restart_after_the_rename :
  (store_open rules_path ∅ (restarted dying_change.2.2)).1
  = Ret (MkRuleStore rules_path
           (MkRuleSnapshot 1 ∅ {[bash := Latency]} {[bash := Latency]}) false).
Proof. vm_compute. reflexivity. Qed.

(** ** A started scheduler *)

Definition options : Opts :=
  MkOpts 1000 1000 8000 16000 2000 1000 500 500 200 100 Batch None ["make=batch"] (Some rules_path)
    (Some "/run/scx/control.sock") (Some "/run/scx/agent.sock") [] 8 250 500 1000 false.
Definition no_file (path : string) : result string string := Err "no such file".

Definition booted : Scheduler := boot (empty_disk []) [] 0 [] "4242-1" options.
Definition started : Scheduler := (init no_file options booted).2.
Definition make_rule : RuleTable := {[MkComm "make" := Batch]}.

Lemma options_ok : opts_ok options.
Proof. by split. Qed.

Lemma make_table : load_rule_table no_file options = Ok make_rule.
Proof. vm_compute. reflexivity. Qed.

Lemma make_text t : load_rule_table no_file options = Ok t → table_text t.
Proof.
  rewrite make_table. intros [= <-]. by apply map_Forall_singleton.
Qed.

Lemma started_in_sync :
  ∃ s, in_sync rules_name s started ∧ store_path s = rules_path ∧ base (rules s) = make_rule
       ∧ activation_ok started.
Proof.
  pose proof (init_spec no_file options rules_path rules_name None (empty_disk []) [] 0 [] "4242-1"
    eq_refl eq_refl (empty_disk_safe []) make_text) as Hi.
  unfold wpc in Hi. change (boot (empty_disk []) [] 0 [] "4242-1" options) with booted in Hi.
  destruct (init no_file options booted) as [[[]|e|] c] eqn:He.
  - destruct Hi as (Ha & _ & s & Hs & Hp & Hb). exists s. unfold started. rewrite He.
    rewrite make_table in Hb. injection Hb as Hb. split; [exact Hs|]. split; [exact Hp|].
    split; [symmetry; exact Hb|exact Ha].
  - exfalso. assert ((init no_file options booted).1 = Throw e) as Hc by by rewrite He.
    vm_compute in Hc. discriminate.
  - exfalso. assert ((init no_file options booted).1 = Panic) as Hc by by rewrite He.
    vm_compute in Hc. discriminate.
Qed.

Lemma running_scheduler_is_consistent_witness :
  ∃ c, init no_file options booted = (Ret tt, started) ∧ rtc loop_step started c
  ∧ (∃ t, check_timing options = Ok t ∧ timing_ok options t)
  ∧ activation_ok c
  ∧ ∃ s, rule_store c = Some s ∧ load_rule_table no_file options = Ok (base (rules s))
      ∧ (∀ x, may_hold (disk c) rules_name x →
           load_contents rules_path x = Ok (learned (rules s), revision (rules s)))
      ∧ runs_rules (rules_map c) (base (rules s) ∪ learned (rules s))
      ∧ base (rules s) ##ₘ learned (rules s) ∧ size (effective (rules s)) ≤ MAX_RULES
      ∧ Z.even (rules_seq c) = true.
Proof.
  exists started.
  assert (init no_file options booted = (Ret tt, started)) as Hi by (vm_compute; reflexivity).
  assert (rtc loop_step started started) as Hr by constructor.
  split; [exact Hi|]. split; [exact Hr|].
  exact (running_scheduler_is_consistent no_file options rules_path rules_name None (empty_disk []) [] 0 []
    "4242-1" started started eq_refl eq_refl (empty_disk_safe []) options_ok make_text Hi Hr).
Defined.

(** ** Requests on it *)

Definition cas_bash : control_wire.ControlRequest :=
  control_wire.MkControlRequest 1 "req-1" control_wire.CompareAndSetRule (Some "bash") None
    (Some control_wire.state_absent) (Some (control_wire.state_present control_wire.Latency)).

Lemma cas_bash_text : request_text cas_bash.
Proof. split; [by intros t [= <-]|done]. Qed.

Definition answer_status (m : outcome string control_wire.ControlResponse) : option control_wire.ControlStatus :=
  match m with Ret r => Some (control_wire.cp_status r) | _ => None end.

(** The map refuses the update: the change is rolled back. *)
Definition refusing : Scheduler := set_bpf_calls [Some "E2BIG"] started.

Example requests_are_answered :
  answer_status (handle_control cas_bash started).1 = Some control_wire.StatusApplied
  ∧ answer_status (handle_control cas_bash (handle_control cas_bash started).2).1 = Some control_wire.StatusConflict
  ∧ answer_status (handle_control cas_bash refusing).1 = Some control_wire.StatusError
  ∧ fatal_control_error (handle_control cas_bash refusing).2 = None
  ∧ (λ s, (learned (rules s), revision (rules s))) <$> rule_store (handle_control cas_bash refusing).2 = Some (∅, 2%Z).
Proof. vm_compute. split_and!; reflexivity. Qed.

Lemma refusing_in_sync : ∃ s, in_sync rules_name s refusing.
Proof. destruct started_in_sync as (s & Hs & _). exists s. by apply coherent_bpf_calls. Qed.

Lemma control_requests_keep_rules_consistent_witness :
  ∃ s, in_sync rules_name s refusing ∧ request_text cas_bash
  ∧ wpc (handle_control cas_bash)
    (λ resp c', left_with rules_name s (requested cas_bash (learned (rules s))) c'
      ∧ control_wire.cp_request_id resp = "req-1"
      ∧ (control_wire.cp_status resp ≠ control_wire.StatusError → answered cas_bash rules_name s resp c'))
    (λ _ _, False) (restart_safe rules_name s (requested cas_bash (learned (rules s)))) refusing.
Proof.
  destruct refusing_in_sync as (s & Hs). exists s. split; [exact Hs|]. split; [exact cas_bash_text|].
  exact (control_requests_keep_rules_consistent cas_bash rules_name s refusing Hs cas_bash_text).
Defined.

Lemma activations_go_one_at_a_time_witness :
  ∃ c', activation_ok started ∧ rtc loop_step started c'
  ∧ activation_ok c'
  ∧ wpc (collect_rule_misses (Ok [as_bpf_key bash])) (λ _, starts c')
      (λ _ _, ∃ e, Ok (E := string) [as_bpf_key bash] = Err e) (λ _, False) c'
  ∧ wpc poll_activation_completion (λ _, activation_ok) (λ _ _, False) (λ _, False) c'.
Proof.
  assert (activation_ok started) as Ha by (destruct started_in_sync as (s & _ & _ & _ & Ha); exact Ha).
  assert (rtc loop_step started started) as Hr by constructor.
  exists started. split; [exact Ha|]. split; [exact Hr|].
  exact (activations_go_one_at_a_time started started (Ok [as_bpf_key bash]) Ha Hr).
Defined.
