(* ===== verification/RuleWorkload.v ===== *)
(** * The workload behind a measurement ([scx_agent_classed_mcp/src/workload.rs])

    The tasks of the measured process names, read from [/proc], and their
    fingerprint.  A directory is the entries its reading gives, in the order of the
    kernel; entries, files and directories can be gone or fail. *)

From stdpp Require Import countable.
From S2P Require Export Rules.

Local Open Scope nat_scope.

Definition MAX_PROC_PROCESSES : Z := 131072.
Definition MAX_PROC_TASKS : Z := 262144.
Definition MAX_MATCHED_TASKS : Z := 65536.
Definition MAX_PROC_FILE_BYTES : Z := 4096.
Definition MAX_PROC_SCAN_DURATION : Z := 3 * 1000000000.

(** ** The entries of [/proc] *)

(** [transient]: not found, or the process is gone. *)
Record ProcError := MkProcError { transient : bool; proc_message : string }.
(** A file cannot be opened, or not be read. *)
Inductive ProcFileError := NotOpened (e : ProcError) | NotRead (e : ProcError).
Record ProcTask := MkProcTask {
  task_name : string; task_comm : result ProcFileError string; task_stat : result ProcFileError string }.
Record ProcProcess := MkProcProcess {
  process_name : string; process_tasks : result ProcError (list (result ProcError ProcTask)) }.
(** [proc_clock]: the answers of [elapsed]. *)
Record Proc := MkProc {
  proc_root : string;
  proc_processes : result ProcError (list (result ProcError ProcProcess));
  proc_clock : list Z;
}.

Definition skip_transient {A} (message : string) (r : result ProcError A) : result string (option A) :=
  match r with
  | Ok a => Ok (Some a)
  | Err e => if transient e then Ok None else Err message
  end.

Definition numeric_name (name : string) : option Z := parse_u32 name.

Definition read_proc_file (path : string) (file : result ProcFileError string) : result string (option string) :=
  match file with
  | Err (NotOpened e) => if transient e then Ok None else Err ("opening '" +:+ path +:+ "'")
  | Err (NotRead e) => if transient e then Ok None else Err ("reading '" +:+ path +:+ "'")
  | Ok bytes =>
    _ ← reject (MAX_PROC_FILE_BYTES <? Z.of_nat (String.length bytes))%Z
          ("proc file '" +:+ path +:+ "' exceeds " +:+ show MAX_PROC_FILE_BYTES +:+ " bytes");
    Ok (Some bytes)
  end.

Definition parse_stat_starttime (stat : string) : result string Z :=
  '(tid, rest) ← ok_or "proc task stat is missing comm" (split_once "("%char stat);
  '(comm, fields) ← ok_or "proc task stat has an unterminated comm" (split_last ")"%char rest);
  _ ← ok_or "proc task stat has an invalid tid" (parse_u32 (trim tid));
  field ← ok_or "proc task stat is missing starttime" (split_whitespace fields !! 19);
  ok_or "proc task stat has an invalid starttime" (parse_u64 field).

(** ** The scan *)

Record TaskIdentity := MkTaskIdentity { tid : Z; starttime : Z; identity_comm : string }.
#[export] Instance TaskIdentity_eq_dec : EqDecision TaskIdentity.
Proof. solve_decision. Defined.
#[export] Instance TaskIdentity_countable : Countable TaskIdentity.
Proof.
  refine (inj_countable' (λ t, (tid t, starttime t, identity_comm t))
    (λ '(t, s, c), MkTaskIdentity t s c) _). by intros [].
Defined.

Record Scan := MkScan {
  process_count : Z;
  task_count : Z;
  identities : gset TaskIdentity;
  matched_by_comm : gmap string nat;
  scan_clock : list Z;
}.

Definition too_slow : string := "proc scan exceeds its 3 second time limit".
Definition late (s : Scan) : bool := (MAX_PROC_SCAN_DURATION <? hd 0 (scan_clock s))%Z.
Definition tick (s : Scan) : Scan :=
  MkScan (process_count s) (task_count s) (identities s) (matched_by_comm s) (tl (scan_clock s)).
Definition count_process (s : Scan) : Scan :=
  MkScan (process_count s + 1) (task_count s) (identities s) (matched_by_comm s) (scan_clock s).
Definition count_task (s : Scan) : Scan :=
  MkScan (process_count s) (task_count s + 1) (identities s) (matched_by_comm s) (scan_clock s).
Definition add_identity (i : TaskIdentity) (s : Scan) : Scan :=
  MkScan (process_count s) (task_count s) ({[i]} ∪ identities s)
    (<[identity_comm i := S (default 0 (matched_by_comm s !! identity_comm i))]> (matched_by_comm s))
    (scan_clock s).

(** The clock is looked at for every 256th task. *)
Definition check_clock (s : Scan) : result string Scan :=
  if (Z.land (task_count s) 255 =? 0)%Z then
    _ ← reject (late s) too_slow; Ok (tick s)
  else Ok s.

Definition without_newline (bytes : string) : string :=
  default bytes (Text.strip_suffix (String "010"%char "") bytes).

Definition scan_comm (targets : gset string) (path : string) (tid : Z) (task : ProcTask) (s : Scan)
    : result string Scan :=
  comm ← read_proc_file (path +:+ "/comm") (task_comm task);
  match without_newline <$> comm with
  | None => Ok s
  | Some comm =>
    if negb (is_utf8 comm && bool_decide (comm ∈ targets)) then Ok s else
    stat ← read_proc_file (path +:+ "/stat") (task_stat task);
    match stat with
    | None => Ok s
    | Some stat =>
      _ ← reject (negb (is_utf8 stat)) "proc task stat is not UTF-8";
      starttime ← parse_stat_starttime stat;
      let s := add_identity (MkTaskIdentity tid starttime comm) s in
      _ ← reject (MAX_MATCHED_TASKS <? Z.of_nat (size (identities s)))%Z
            ("proc scan exceeds " +:+ show MAX_MATCHED_TASKS +:+ " matching tasks");
      Ok s
    end
  end.

Definition scan_task (targets : gset string) (task_dir : string) (s : Scan) (entry : result ProcError ProcTask)
    : result string Scan :=
  task ← skip_transient "enumerating proc tasks" entry;
  match task with
  | None => Ok s
  | Some task =>
    match numeric_name (task_name task) with
    | None => Ok s
    | Some tid =>
      let s := count_task s in
      _ ← reject (MAX_PROC_TASKS <? task_count s)%Z
            ("proc scan exceeds " +:+ show MAX_PROC_TASKS +:+ " tasks");
      s ← check_clock s;
      scan_comm targets (task_dir +:+ "/" +:+ task_name task) tid task s
    end
  end.

Definition scan_process (targets : gset string) (root : string) (s : Scan) (entry : result ProcError ProcProcess)
    : result string Scan :=
  process ← skip_transient "enumerating proc processes" entry;
  match process with
  | None => Ok s
  | Some process =>
    match numeric_name (process_name process) with
    | None => Ok s
    | Some _ =>
      let s := count_process s in
      _ ← reject (MAX_PROC_PROCESSES <? process_count s)%Z
            ("proc scan exceeds " +:+ show MAX_PROC_PROCESSES +:+ " processes");
      _ ← reject (late s) too_slow;
      let s := tick s in
      let task_dir := root +:+ "/" +:+ process_name process +:+ "/task" in
      tasks ← skip_transient ("reading task directory '" +:+ task_dir +:+ "'") (process_tasks process);
      match tasks with
      | None => Ok s
      | Some tasks => fold_result (scan_task targets task_dir) s tasks
      end
    end
  end.

(** ** The fingerprint *)

Record WorkloadFingerprint := MkFingerprint { wf_digest : string; wf_task_count : nat }.

(** The derived order of [TaskIdentity]. *)
Definition identity_leb (a b : TaskIdentity) : bool :=
  (tid a <? tid b)%Z
  || (tid a =? tid b)%Z && ((starttime a <? starttime b)%Z
                            || (starttime a =? starttime b)%Z && String.leb (identity_comm a) (identity_comm b)).

Definition u64_to_le_bytes (n : Z) : string := u32_to_le_bytes n +:+ u32_to_le_bytes (Z.shiftr n 32).
Definition hash_field (value : string) : string :=
  u32_to_le_bytes (Z.of_nat (String.length value)) +:+ value.
Definition class_text (class : control_wire.RuleClass) : string :=
  match class with control_wire.Latency => "latency" | control_wire.Batch => "batch" end.

Definition workload_bytes (targets : list (string * control_wire.RuleClass)) (tasks : list TaskIdentity) : string :=
  "scx_agent_classed/workload/v1" +:+ String nul ""
  +:+ foldr (λ t rest, (hash_field t.1 +:+ hash_field (class_text t.2)) +:+ rest) ""
        (sort_by (λ p q, String.leb p.1 q.1) targets)
  +:+ String nul ("tasks" +:+ String nul "")
  +:+ foldr (λ t rest, (u32_to_le_bytes (tid t) +:+ u64_to_le_bytes (starttime t) +:+ hash_field (identity_comm t)) +:+ rest) ""
        (sort_by identity_leb tasks).

(** The bytes of a digest that is known in hexadecimal. *)
Definition hex_value (a : ascii) : N :=
  let n := N_of_ascii a in if (n <? 58)%N then (n - 48)%N else (n - 87)%N.
Fixpoint of_hex (s : string) : string :=
  match s with
  | String a (String b s) => String (ascii_of_N (16 * hex_value a + hex_value b)) (of_hex s)
  | _ => ""
  end.

Section Fingerprint.
Context `{SH : !Sha256}.

Definition canonical_workload_digest (targets : list (string * control_wire.RuleClass)) (tasks : list TaskIdentity)
    : string :=
  "sha256:" +:+ sha256_hex (of_hex (sha256_hex (workload_bytes targets tasks))).

Definition join_names (names : list string) : string :=
  match names with
  | [] => ""
  | name :: names => foldl (λ s n, s +:+ ", " +:+ n) name names
  end.

Definition scan_start (targets : list (string * control_wire.RuleClass)) (clock : list Z) : Scan :=
  MkScan 0 0 ∅ (list_to_map ((λ t, (t.1, 0)) <$> targets)) clock.

Definition workload_fingerprint (proc : Proc) (targets : list (string * control_wire.RuleClass))
    : result string WorkloadFingerprint :=
  processes ← map_err (λ _, "reading proc root '" +:+ proc_root proc +:+ "'") (proc_processes proc);
  s ← fold_result (scan_process (list_to_set targets.*1) (proc_root proc)) (scan_start targets (proc_clock proc))
        processes;
  let missing := (filter (λ p, p.2 = 0) (in_key_order (matched_by_comm s))).*1 in
  _ ← reject (negb (bool_decide (missing = [])))
        ("no live tasks found for target comms: " +:+ join_names missing);
  Ok (MkFingerprint (canonical_workload_digest targets (elements (identities s))) (size (identities s))).
End Fingerprint.

(** ** What a scan finds *)

(** A task whose files could be read, of one of the processes named. *)
Definition task_is (targets : gset string) (task : ProcTask) (i : TaskIdentity) : Prop :=
  numeric_name (task_name task) = Some (tid i)
  ∧ (∃ bytes, task_comm task = Ok bytes ∧ without_newline bytes = identity_comm i)
  ∧ is_utf8 (identity_comm i) = true ∧ identity_comm i ∈ targets
  ∧ ∃ stat, task_stat task = Ok stat ∧ parse_stat_starttime stat = Ok (starttime i).
Definition process_has (targets : gset string) (process : ProcProcess) (i : TaskIdentity) : Prop :=
  is_Some (numeric_name (process_name process))
  ∧ ∃ tasks task, process_tasks process = Ok tasks ∧ Ok task ∈ tasks ∧ task_is targets task i.
Definition live (proc : Proc) (targets : gset string) (i : TaskIdentity) : Prop :=
  ∃ processes process, proc_processes proc = Ok processes ∧ Ok process ∈ processes
    ∧ process_has targets process i.

(** The counts say which names have a task. *)
Record counted (s : Scan) : Prop := {
  ct_found : ∀ c n, matched_by_comm s !! c = Some n → n ≠ 0 → ∃ i, i ∈ identities s ∧ identity_comm i = c;
  ct_bound : (Z.of_nat (size (identities s)) ≤ MAX_MATCHED_TASKS)%Z;
}.

(** [s'] has the tasks of [s] and those of [P]. *)
Record scanned (P : TaskIdentity → Prop) (s s' : Scan) : Prop := {
  sn_identities : ∀ i, i ∈ identities s' ↔ i ∈ identities s ∨ P i;
  sn_counted : counted s → counted s';
  sn_names : ∀ c, is_Some (matched_by_comm s !! c) → is_Some (matched_by_comm s' !! c);
}.

Lemma scanned_same (P : TaskIdentity → Prop) s s' :
  (∀ i, ¬ P i) → identities s' = identities s → matched_by_comm s' = matched_by_comm s → scanned P s s'.
Proof.
  intros HP Hi Hm. split.
  - intros i. rewrite Hi. naive_solver.
  - intros [H1 H2]. split; [rewrite Hm, Hi|rewrite Hi]; done.
  - intros c. by rewrite Hm.
Qed.

Lemma scanned_from (P : TaskIdentity → Prop) s0 s s' :
  identities s = identities s0 → matched_by_comm s = matched_by_comm s0 → scanned P s s' → scanned P s0 s'.
Proof.
  intros Hi Hm [H1 H2 H3]. rewrite Hi in H1. rewrite Hm in H3. split; [done| |done].
  intros [H4 H5]. apply H2. split; [by rewrite Hm, Hi|by rewrite Hi].
Qed.

Lemma scanned_fold {A} (f : Scan → A → result string Scan) (P : A → TaskIdentity → Prop) l s s' :
  (∀ a s s', f s a = Ok s' → scanned (P a) s s') → fold_result f s l = Ok s' →
  scanned (λ i, ∃ a, a ∈ l ∧ P a i) s s'.
Proof.
  intros Hf. revert s. induction l as [|a l IH]; intros s; simpl.
  - intros [= <-]. apply scanned_same; [|done..]. intros i (a & Ha & _). by apply elem_of_nil in Ha.
  - destruct (f s a) as [s1|] eqn:Ha; [|done]. intros Hl.
    destruct (Hf _ _ _ Ha) as [H1 H2 H3]. destruct (IH _ Hl) as [H4 H5 H6].
    split; [|by auto|by auto]. intros i. rewrite H4, H1. setoid_rewrite elem_of_cons. naive_solver.
Qed.

Lemma add_identity_counted i s :
  counted s → (Z.of_nat (size (identities (add_identity i s))) ≤ MAX_MATCHED_TASKS)%Z → counted (add_identity i s).
Proof.
  intros [Hf _] Hb. split; [|done]. intros c n. simpl. intros [[<- <-]|[Hn Hc]]%lookup_insert_Some Hz.
  - exists i. set_solver.
  - destruct (Hf c n Hc Hz) as (j & Hj & <-). exists j. set_solver.
Qed.

Lemma read_proc_file_Ok path file c : read_proc_file path file = Ok (Some c) → file = Ok c.
Proof.
  unfold read_proc_file. destruct file as [bytes|[e|e]]; [|by destruct (transient e)..].
  rewrite reject_bind_Ok. by intros [_ [= ->]].
Qed.
Lemma read_proc_file_None path file c : read_proc_file path file = Ok None → file ≠ Ok c.
Proof.
  unfold read_proc_file. destruct file as [bytes|[e|e]]; [|by destruct (transient e)..].
  rewrite reject_bind_Ok. by intros [_ ?].
Qed.

Lemma scan_comm_scanned targets path n task s s' :
  numeric_name (task_name task) = Some n → scan_comm targets path n task s = Ok s' →
  scanned (task_is targets task) s s'.
Proof.
  intros Hn. unfold scan_comm. rewrite result_bind_Ok. intros ([bytes|] & Hc & H); simpl in H.
  2:{ injection H as <-. apply scanned_same; [|done..]. intros i (_ & (b & Hb & _) & _).
      by eapply read_proc_file_None. }
  apply read_proc_file_Ok in Hc.
  destruct (is_utf8 (without_newline bytes) && bool_decide (without_newline bytes ∈ targets)) eqn:Ht; simpl in H.
  2:{ injection H as <-. apply scanned_same; [|done..]. intros i (_ & (b & Hb & He) & Hu & Hi & _).
      rewrite Hc in Hb. injection Hb as <-. rewrite He, Hu, bool_decide_true in Ht; done. }
  apply andb_true_iff in Ht as [Hu Hi%bool_decide_eq_true].
  apply result_bind_Ok in H as ([stat|] & Hs & H).
  2:{ injection H as <-. apply scanned_same; [|done..]. intros i (_ & _ & _ & _ & st & Hst & _).
      by eapply read_proc_file_None. }
  apply read_proc_file_Ok in Hs. apply reject_bind_Ok in H as [_ H].
  apply result_bind_Ok in H as (start & Hp & H). apply reject_bind_Ok in H as [Hb [= <-]].
  apply reject_Ok, Z.ltb_ge in Hb. split.
  - intros i. simpl. rewrite elem_of_union, elem_of_singleton. split.
    + intros [->|?]; [right|by left]. split_and!; eauto.
    + intros [?|(Hn' & (b & Hb' & He) & _ & _ & st & Hst & Hps)]; [by right|left].
      rewrite Hc in Hb'. injection Hb' as <-. rewrite Hs in Hst. injection Hst as <-.
      destruct i; simpl in *. congruence.
  - intros Hct. by apply add_identity_counted.
  - intros c Hcc. simpl. destruct (decide (c = without_newline bytes)) as [->|Hne];
      [by rewrite lookup_insert_eq|by rewrite lookup_insert_ne].
Qed.

Lemma check_clock_same s s' :
  check_clock s = Ok s' → identities s' = identities s ∧ matched_by_comm s' = matched_by_comm s.
Proof.
  unfold check_clock. destruct (_ =? 0)%Z; [|by intros [= <-]]. rewrite reject_bind_Ok. by intros [_ [= <-]].
Qed.

Lemma skip_transient_cases {A} message (r : result ProcError A) o :
  skip_transient message r = Ok o → match o with Some a => r = Ok a | None => ∃ e, r = Err e end.
Proof.
  unfold skip_transient. destruct r as [a|e]; [by intros [= <-]|].
  destruct (transient e); [|done]. intros [= <-]. eauto.
Qed.

Lemma scan_task_scanned targets dir entry s s' :
  scan_task targets dir s entry = Ok s' → scanned (λ i, ∃ task, entry = Ok task ∧ task_is targets task i) s s'.
Proof.
  unfold scan_task. rewrite result_bind_Ok. intros (o & Ho & H). apply skip_transient_cases in Ho.
  destruct o as [task|].
  2:{ destruct Ho as [e ->]. injection H as <-. apply scanned_same; [|done..]. by intros i (? & ? & _). }
  subst entry. destruct (numeric_name (task_name task)) as [n|] eqn:Hn.
  2:{ injection H as <-. apply scanned_same; [|done..]. intros i (t & [= <-] & Ht & _). congruence. }
  apply reject_bind_Ok in H as [_ H]. apply result_bind_Ok in H as (s1 & Hc & H).
  apply check_clock_same in Hc as [Hi Hm]. apply (scan_comm_scanned _ _ _ _ _ _ Hn) in H.
  apply (scanned_from _ s) in H; [|done..]. destruct H as [H1 H2 H3]. split; [|done..].
  intros i. rewrite H1. naive_solver.
Qed.

Lemma scan_process_scanned targets root entry s s' :
  scan_process targets root s entry = Ok s' →
  scanned (λ i, ∃ process, entry = Ok process ∧ process_has targets process i) s s'.
Proof.
  unfold scan_process. rewrite result_bind_Ok. intros (o & Ho & H). apply skip_transient_cases in Ho.
  destruct o as [process|].
  2:{ destruct Ho as [e ->]. injection H as <-. apply scanned_same; [|done..]. by intros i (? & ? & _). }
  subst entry. destruct (numeric_name (process_name process)) as [n|] eqn:Hn.
  2:{ injection H as <-. apply scanned_same; [|done..]. intros i (t & [= <-] & [? Ht] & _). congruence. }
  apply reject_bind_Ok in H as [_ H]. apply reject_bind_Ok in H as [_ H].
  apply result_bind_Ok in H as (o & Ho & H). apply skip_transient_cases in Ho. destruct o as [tasks|].
  2:{ destruct Ho as [e He]. injection H as <-. apply scanned_same; [|done..].
      intros i (t & [= <-] & _ & ts & _ & Hts & _). congruence. }
  apply (scanned_fold _ _ _ _ _ (λ a s s', scan_task_scanned _ _ a s s')) in H.
  apply (scanned_from _ s) in H; [|done..]. destruct H as [H1 H2 H3]. split; [|done..].
  intros i. rewrite H1. unfold process_has. split; (intros [?|HP]; [by left|right]).
  - destruct HP as (a & Ha & task & -> & Ht). exists process. split; [done|]. split; [done|]. eauto.
  - destruct HP as (p & [= <-] & _ & ts & task & Hts & Hin & Ht). exists (Ok task).
    split; [congruence|]. eauto.
Qed.

Section Found.
Context `{SH : !Sha256}.

Lemma workload_fingerprint_found_spec proc targets f :
  workload_fingerprint proc targets = Ok f →
  ∃ S : gset TaskIdentity,
    (∀ i, i ∈ S ↔ live proc (list_to_set targets.*1) i)
    ∧ f = MkFingerprint (canonical_workload_digest targets (elements S)) (size S)
    ∧ (Z.of_nat (size S) ≤ MAX_MATCHED_TASKS)%Z
    ∧ ∀ c, c ∈ targets.*1 → ∃ i, i ∈ S ∧ identity_comm i = c.
Proof.
  unfold workload_fingerprint. rewrite result_bind_Ok. intros (ps & Hps%map_err_Ok & H).
  apply result_bind_Ok in H as (s & Hs & H). apply reject_bind_Ok in H as [Hm [= <-]].
  apply reject_Ok, negb_false_iff, bool_decide_eq_true in Hm.
  apply (scanned_fold _ _ _ _ _ (λ a s s', scan_process_scanned _ _ a s s')) in Hs as [H1 H2 H3].
  destruct H2 as [Hf Hb].
  { split; simpl; [|done]. intros c n Hc%elem_of_list_to_map_2 Hn. apply list_elem_of_fmap in Hc as (t & [= _ ->] & _). done. }
  exists (identities s). split_and!; [|done|done|].
  - intros i. rewrite H1. simpl. rewrite elem_of_empty. unfold live. split.
    + intros [[]|(a & Ha & process & -> & Hp)]. eauto.
    + intros (ps' & process & Hps' & Hin & Hp). right. exists (Ok process). split; [congruence|eauto].
  - intros c Hc. assert (is_Some (matched_by_comm s !! c)) as [n Hn].
    { apply H3. simpl. apply list_elem_of_fmap in Hc as (t & -> & Ht).
      apply not_eq_None_Some. intros Hno%not_elem_of_list_to_map_2. apply Hno.
      apply list_elem_of_fmap. exists (t.1, 0). split; [done|]. apply list_elem_of_fmap. eauto. }
    destruct (decide (n = 0)) as [->|Hz]; [|by eapply Hf]. exfalso.
    assert (c ∈ (filter (λ p, p.2 = 0) (in_key_order (matched_by_comm s))).*1) as Hin.
    { apply list_elem_of_fmap. exists (c, 0). split; [done|]. apply list_elem_of_filter. split; [done|].
      by apply in_key_order_elem. }
    rewrite Hm in Hin. by apply elem_of_nil in Hin.
Qed.

(** C38. The fingerprint is of the matching tasks: when the scan succeeds, it is
    the digest of exactly the readable tasks of the measured names, each name has
    one, there are no more than the limit, and a scan that meets the same tasks in
    another order, among other processes, gives the same fingerprint. *)
Theorem workload_fingerprint_found proc targets f :
  workload_fingerprint proc targets = Ok f →
  (∃ S : gset TaskIdentity,
    (∀ i, i ∈ S ↔ live proc (list_to_set targets.*1) i)
    ∧ f = MkFingerprint (canonical_workload_digest targets (elements S)) (size S)
    ∧ (Z.of_nat (size S) ≤ MAX_MATCHED_TASKS)%Z
    ∧ ∀ c, c ∈ targets.*1 → ∃ i, i ∈ S ∧ identity_comm i = c)
  ∧ ∀ proc' f', workload_fingerprint proc' targets = Ok f' →
      (∀ i, live proc' (list_to_set targets.*1) i ↔ live proc (list_to_set targets.*1) i) → f' = f.
Proof.
  intros Hf. apply workload_fingerprint_found_spec in Hf as (S & HS & Hfs & Hb & Hc).
  split; [by exists S|]. intros proc' f' Hf' Hl.
  apply workload_fingerprint_found_spec in Hf' as (S' & HS' & -> & _ & _).
  assert (S' = S) as ->; [|done]. apply set_eq. intros i. by rewrite HS', HS, Hl.
Qed.
End Found.
