(* ===== verification/RuleJournal.v ===== *)
(** * The operation journal of the scheduler's MCP server ([scx_agent_classed_mcp/src/journal.rs], [lib.rs])

    The prepared mutations the server is sent, with their validation, and the
    journal that makes its operations idempotent: a record per operation, in a
    document replaced atomically on the disk of [RuleStore.v]. *)

From S2P Require Export RuleStoreSafety.

Local Open Scope nat_scope.
#[export] Existing Instance control_wire.RuleState_eq_dec.

Definition validate_id (label value : string) : result string unit :=
  reject (bool_decide (value = "") || (4096 <? String.length value)
          || has_surrounding_whitespace value || existsb is_control (chars value))
    (label +:+ " is invalid").

(** ** Prepared mutations *)

Record MutationState := MkMutState { ms_value : control_wire.RuleState; ms_digest : string }.
#[export] Instance MutationState_eq_dec : EqDecision MutationState.
Proof. solve_decision. Defined.

Record MutationDriverData := MkDriverData {
  dd_schema_version : Z;
  dd_comm : string;
  dd_baseline : control_wire.RuleState;
  dd_desired : control_wire.RuleState;
}.
#[export] Instance MutationDriverData_eq_dec : EqDecision MutationDriverData.
Proof. solve_decision. Defined.

Record ProviderPin := MkPin {
  pin_provider_id : string;
  pin_provider_version : string;
  pin_provider_class : string;
  pin_manifest_digest : string;
}.
#[export] Instance ProviderPin_eq_dec : EqDecision ProviderPin.
Proof. solve_decision. Defined.

Record PreparedMutation := MkPrepared {
  pm_capability_id : string;
  pm_provider : ProviderPin;
  pm_resource : string;
  pm_baseline : MutationState;
  pm_desired : MutationState;
  pm_driver_data : MutationDriverData;
}.
#[export] Instance PreparedMutation_eq_dec : EqDecision PreparedMutation.
Proof. solve_decision. Defined.

Definition PROVIDER_VERSION : string := "1.0.0".

(** [str::ends_with]. *)
Definition ends_with (suffix s : string) : bool := bool_decide (is_Some (Text.strip_suffix suffix s)).

Definition driver_data_validate (d : MutationDriverData) : result string unit :=
  _ ← reject (negb (dd_schema_version d =? 1)%Z) "unsupported mutation driver_data schema_version";
  _ ← validate_comm (dd_comm d);
  _ ← reject (negb (control_wire.is_valid (dd_baseline d)) || negb (control_wire.is_valid (dd_desired d)))
        "mutation driver_data contains an invalid rule state";
  _ ← reject (negb (control_wire.present (dd_desired d))) "upsert desired state must be present";
  reject (bool_decide (dd_baseline d = dd_desired d)) "mutation baseline and desired states are identical".

Definition pin_validate (p : ProviderPin) : result string unit :=
  _ ← validate_id "provider_id" (pin_provider_id p);
  _ ← validate_id "provider_version" (pin_provider_version p);
  _ ← validate_id "manifest_digest" (pin_manifest_digest p);
  reject (bool_decide (pin_provider_class p ≠ "mcp") || bool_decide (pin_provider_version p ≠ PROVIDER_VERSION))
    "prepared mutation provider pin does not match this MCP provider".

(** [serde_json::to_value] of a state and [to_vec] of the value: the bytes the
    agent digests. *)
Class RuleStateJson := state_bytes : control_wire.RuleState → result string string.

Section Prepared.
Context `{!RuleStateJson, !Sha256}.

Definition validate_state_digest (s : MutationState) : result string unit :=
  encoded ← state_bytes (ms_value s);
  reject (bool_decide (ms_digest s ≠ "sha256:" +:+ sha256_hex encoded))
    "mutation state digest does not match its value".

Definition rule_resource (comm : string) : string := "learned-rule/" +:+ sha256_hex comm.

Definition prepared_validate (p : PreparedMutation) : result string unit :=
  _ ← driver_data_validate (pm_driver_data p);
  _ ← validate_id "capability_id" (pm_capability_id p);
  _ ← validate_id "resource" (pm_resource p);
  _ ← validate_id "baseline digest" (ms_digest (pm_baseline p));
  _ ← validate_id "desired digest" (ms_digest (pm_desired p));
  _ ← pin_validate (pm_provider p);
  _ ← reject (negb (ends_with "/rule.upsert.v1" (pm_capability_id p)))
        "prepared capability_id is not rule.upsert.v1";
  _ ← validate_state_digest (pm_baseline p);
  _ ← validate_state_digest (pm_desired p);
  _ ← reject (bool_decide (ms_value (pm_baseline p) ≠ dd_baseline (pm_driver_data p))
              || bool_decide (ms_value (pm_desired p) ≠ dd_desired (pm_driver_data p)))
        "prepared states do not match mutation driver_data";
  let expected := rule_resource (dd_comm (pm_driver_data p)) in
  reject (bool_decide (pm_resource p ≠ expected) && negb (ends_with ("/" +:+ expected) (pm_resource p)))
    "prepared resource does not match comm".

Record MutationOperationRequest := MkOperationRequest { or_operation_id : string; or_prepared : PreparedMutation }.
Definition operation_request_validate (q : MutationOperationRequest) : result string unit :=
  _ ← validate_id "operation_id" (or_operation_id q);
  prepared_validate (or_prepared q).

Record MutationVerifyRequest := MkVerifyRequest {
  vr_operation_id : string; vr_prepared : PreparedMutation; vr_expected : MutationState }.
Definition verify_request_validate (q : MutationVerifyRequest) : result string unit :=
  _ ← validate_id "operation_id" (vr_operation_id q);
  _ ← prepared_validate (vr_prepared q);
  reject (negb (control_wire.is_valid (ms_value (vr_expected q)))) "verify expected state is invalid".
End Prepared.

(** ** Records *)

Inductive JournalKind := Apply | Restore | Finalize.
#[export] Instance JournalKind_eq_dec : EqDecision JournalKind.
Proof. solve_decision. Defined.
Inductive JournalPhase := Started | Completed.
#[export] Instance JournalPhase_eq_dec : EqDecision JournalPhase.
Proof. solve_decision. Defined.

Record OperationRecord := MkRecord {
  rec_kind : JournalKind;
  rec_phase : JournalPhase;
  rec_result_state : option string;
  rec_comm : string;
  rec_baseline : control_wire.RuleState;
  rec_desired : control_wire.RuleState;
  rec_prepared : PreparedMutation;
}.
#[export] Instance OperationRecord_eq_dec : EqDecision OperationRecord.
Proof. solve_decision. Defined.

Definition record_new (kind : JournalKind) (prepared : PreparedMutation) : OperationRecord :=
  let d := pm_driver_data prepared in
  MkRecord kind Started None (dd_comm d) (dd_baseline d) (dd_desired d) prepared.

Definition with_phase (phase : JournalPhase) (state : option string) (r : OperationRecord) : OperationRecord :=
  MkRecord (rec_kind r) phase state (rec_comm r) (rec_baseline r) (rec_desired r) (rec_prepared r).

Definition completed_as (state : string) (r : OperationRecord) : bool :=
  bool_decide (rec_phase r = Completed) && bool_decide (rec_result_state r = Some state).

Definition infer_state (observed : control_wire.RuleState) (integrity_matches : bool) (r : OperationRecord) : string :=
  let baseline := bool_decide (observed = rec_baseline r) && integrity_matches in
  let desired := bool_decide (observed = rec_desired r) && integrity_matches in
  match rec_kind r with
  | Apply => if desired then "applied" else if baseline then "not_applied" else "unknown"
  | Restore => if baseline then "restored" else if desired then "applied" else "unknown"
  | Finalize => if desired then "finalized" else "unknown"
  end.

Definition completed_state (kind : JournalKind) : string :=
  match kind with Apply => "applied" | Restore => "restored" | Finalize => "finalized" end.
Definition is_completion (state : string) (r : OperationRecord) : bool :=
  bool_decide (state = completed_state (rec_kind r)).

(** ** The journal *)

Definition MAX_JOURNAL_BYTES : Z := 8 * 1024 * 1024.

Record JournalData := MkJournalData { jd_version : Z; jd_operations : gmap string OperationRecord }.
Definition journal_default : JournalData := MkJournalData 1 ∅.

Class JournalCodec := {
  journal_to_vec : JournalData → result string string;
  journal_from_reader : string → result string JournalData;
}.

(** The disk of the journal, which of the next calls of [stat] work, and the
    answers of [SystemTime::now]. *)
Record JournalWorld := MkJournalWorld {
  jw_disk : Disk; jw_stats : list bool; jw_clock : list (result string Z) }.
Abbreviation JM := (M JournalWorld string).

Definition journal_disk {A} (m : M Disk string A) : JM A := λ w,
  let '(r, d) := m (jw_disk w) in (r, MkJournalWorld d (jw_stats w) (jw_clock w)).
Definition now_ns : JM Z := λ w,
  (of_result (hd (Ok 0%Z) (jw_clock w)), MkJournalWorld (jw_disk w) (jw_stats w) (tl (jw_clock w))).

(** [anyhow::Context] as [to_string] shows it: only the outermost message, which
    is what the server sends. *)
Definition labelled {S A} (message : string) (m : M S string A) : M S string A :=
  r ← attempt m;
  match r with Ok a => mret a | Err _ => throw message end.

Section Journal.
Context `{!RuleStateJson, !Sha256, JC : !JournalCodec}.

Definition check_record (entry : string * OperationRecord) : result string unit :=
  let '(operation_id, r) := entry in
  _ ← validate_id "journal operation_id" operation_id;
  _ ← prepared_validate (rec_prepared r);
  let d := pm_driver_data (rec_prepared r) in
  reject (bool_decide (rec_comm r ≠ dd_comm d) || bool_decide (rec_baseline r ≠ dd_baseline d)
          || bool_decide (rec_desired r ≠ dd_desired d))
    ("operation journal record '" +:+ operation_id +:+ "' is inconsistent").

Definition invalid_journal (path : string) : string := "invalid operation journal '" +:+ path +:+ "'".
Definition parse_journal (path text : string) : result string JournalData :=
  data ← map_err (λ _, invalid_journal path) (journal_from_reader text);
  _ ← reject (negb (jd_version data =? 1)%Z)
        ("unsupported operation journal version " +:+ show (jd_version data));
  _ ← fold_result (λ _, check_record) tt (in_key_order (jd_operations data));
  Ok data.

Definition too_long : string := "operation journal exceeds " +:+ show MAX_JOURNAL_BYTES +:+ " bytes".

(** [Path::exists] is false when the call fails.  A path without a file name is
    a directory. *)
Definition exists_in (path : string) (d : Disk) : bool :=
  match file_name path with None => true | Some name => bool_decide (is_Some (directory d !! name)) end.
Definition path_exists (path : string) : JM bool := λ w,
  (Ret (hd true (jw_stats w) && exists_in path (jw_disk w)),
   MkJournalWorld (jw_disk w) (tl (jw_stats w)) (jw_clock w)).

Definition file_size (path : string) (d : Disk) : Z :=
  match file_name path with
  | None => 4096
  | Some name => Z.of_nat (String.length (default "" (visible d name)))
  end.
Definition read_journal (path : string) : M Disk string string :=
  match file_name path with
  | None => throw "Is a directory (os error 21)"
  | Some name => text ← read_file name; mret (default "" text)
  end.

Definition journal_load (path : string) : JM JournalData :=
  exists_ ← path_exists path;
  if negb exists_ then mret journal_default else
  _ ← labelled ("failed to open journal '" +:+ path +:+ "'") (journal_disk query);
  _ ← journal_disk query;
  size ← gets (λ w, file_size path (jw_disk w));
  _ ← lift (reject (MAX_JOURNAL_BYTES <? size)%Z too_long);
  text ← labelled (invalid_journal path) (journal_disk (read_journal path));
  lift (parse_journal path text).

(** [Path::with_extension]: the name without its extension, and the new one. *)
Definition file_stem (name : string) : string :=
  match split_last_dot name with
  | Some (EmptyString, _) | None => name
  | Some (stem, _) => stem
  end.
Definition temporary_name (name : string) (pid now : Z) : string :=
  file_stem name +:+ "." +:+ "tmp." +:+ show pid +:+ "." +:+ show now.

Definition beside (path name other : string) : string :=
  match Text.strip_suffix name path with
  | Some front => front +:+ other
  | None => join_name (parent_directory path) other
  end.
(** The closure of [save]; the error of every step is only shown. *)
Definition replace_journal (path name temporary payload : string) : M Disk string unit :=
  let shown := beside path name temporary in
  created ← labelled ("failed to create journal temporary '" +:+ shown +:+ "'") (create_new temporary);
  match created with
  | None => throw ("failed to create journal temporary '" +:+ shown +:+ "'")
  | Some i =>
    _ ← write_all i payload;
    _ ← write_all i (String "010"%char "");
    _ ← sync_all i;
    _ ← labelled ("failed to replace journal '" +:+ path +:+ "' with '" +:+ shown +:+ "'") (rename temporary name);
    sync_parent
  end.

Definition journal_save (path : string) (data : JournalData) : JM unit :=
  _ ← labelled ("failed to create journal directory '" +:+ parent_directory path +:+ "'") (journal_disk query);
  payload ← lift (journal_to_vec data);
  _ ← lift (reject (MAX_JOURNAL_BYTES <? Z.of_nat (String.length payload))%Z too_long);
  now ← now_ns;
  d ← gets jw_disk;
  match file_name path with
  | None => throw ("failed to create journal temporary '" +:+ path +:+ "'")
  | Some name =>
    let temporary := temporary_name name (process_id d) now in
    result ← attempt (journal_disk (replace_journal path name temporary payload));
    match result with
    | Ok _ => mret tt
    | Err error => _ ← attempt (E' := string) (journal_disk (remove_file temporary)); throw error
    end
  end.

Definition journal_get (path operation_id : string) : JM (option OperationRecord) :=
  data ← journal_load path; mret (jd_operations data !! operation_id).

Definition journal_begin (path operation_id : string) (record : OperationRecord) : JM OperationRecord :=
  _ ← lift (validate_id "operation_id" operation_id);
  data ← journal_load path;
  match jd_operations data !! operation_id with
  | Some existing =>
    if bool_decide (existing ≠ with_phase (rec_phase existing) (rec_result_state existing) record)
    then throw ("operation_id '" +:+ operation_id +:+ "' was reused with different input")
    else mret existing
  | None =>
    _ ← journal_save path (MkJournalData (jd_version data) (<[operation_id := record]> (jd_operations data)));
    mret record
  end.

Definition journal_complete (path operation_id result_state : string) : JM unit :=
  data ← journal_load path;
  match jd_operations data !! operation_id with
  | None => throw ("operation_id '" +:+ operation_id +:+ "' is not journaled")
  | Some record =>
    if bool_decide (rec_phase record = Completed) then
      if bool_decide (rec_result_state record ≠ Some result_state)
      then throw ("operation_id '" +:+ operation_id +:+ "' completed with a different state")
      else mret tt
    else
      journal_save path (MkJournalData (jd_version data)
        (<[operation_id := with_phase Completed (Some result_state) record]> (jd_operations data)))
  end.
End Journal.
