(* ===== verification/RuleJournalSafety.v ===== *)
(** * The operation journal survives crashes

    Whatever call fails and wherever the machine stops, the journal loads; and it
    reads as a history of its operations, in which a record once written keeps its
    input and a completed record never changes, unless a call of [stat] failed and
    the journal was started anew. *)

From S2P Require Export RuleJournal.

Local Open Scope nat_scope.

(** ** The names of the temporary files *)

Lemma split_last_dot_Some s a b :
  split_last_dot s = Some (a, b) → s = a +:+ "." +:+ b ∧ split_last_dot b = None.
Proof.
  revert a b. induction s as [|c s IH]; intros a b; simpl; [done|].
  destruct (split_last_dot s) as [[a' b']|] eqn:Hs.
  - intros [= <- <-]. destruct (IH a' b' eq_refl) as [-> ?]. by split.
  - destruct (Ascii.eqb_spec c "."%char) as [->|]; [|done]. by intros [= <- <-].
Qed.

Lemma split_last_dot_dot s : split_last_dot ("tmp." +:+ s) ≠ None.
Proof.
  change ("tmp." +:+ s) with (String "t" (String "m" (String "p" (String "." s)))). simpl.
  by destruct (split_last_dot s) as [[? ?]|].
Qed.

Lemma temporary_name_not name pid now : temporary_name name pid now ≠ name.
Proof.
  unfold temporary_name, file_stem.
  assert (name +:+ "." +:+ "tmp." +:+ show pid +:+ "." +:+ show now ≠ name) as Hlong.
  { intros H. apply (f_equal String.length) in H. rewrite !string_length_app in H. simpl in H. lia. }
  destruct (split_last_dot name) as [[[|a stem] ext]|] eqn:Hs; [done| |done].
  apply split_last_dot_Some in Hs as [Hn He]. rewrite Hn. intros H.
  do 2 apply (inj (String.append _)) in H.
  apply (split_last_dot_dot (show pid +:+ "." +:+ show now)). by rewrite H.
Qed.

(** ** What the codec guarantees *)

(** The strings of the records and their numbers are those of their Rust types. *)
Record pin_typed (p : ProviderPin) : Prop := {
  pt_id : is_utf8 (pin_provider_id p) = true;
  pt_version : is_utf8 (pin_provider_version p) = true;
  pt_class : is_utf8 (pin_provider_class p) = true;
  pt_digest : is_utf8 (pin_manifest_digest p) = true;
}.
Record prepared_typed (p : PreparedMutation) : Prop := {
  ppt_capability : is_utf8 (pm_capability_id p) = true;
  ppt_provider : pin_typed (pm_provider p);
  ppt_resource : is_utf8 (pm_resource p) = true;
  ppt_baseline : is_utf8 (ms_digest (pm_baseline p)) = true;
  ppt_desired : is_utf8 (ms_digest (pm_desired p)) = true;
  ppt_version : (0 ≤ dd_schema_version (pm_driver_data p) < 2 ^ 32)%Z;
  ppt_comm : is_utf8 (dd_comm (pm_driver_data p)) = true;
}.
Record record_typed (r : OperationRecord) : Prop := {
  rt_state : from_option (λ s, is_utf8 s = true) True (rec_result_state r);
  rt_comm : is_utf8 (rec_comm r) = true;
  rt_prepared : prepared_typed (rec_prepared r);
}.
Record journal_typed (data : JournalData) : Prop := {
  jt_version : (0 ≤ jd_version data < 2 ^ 32)%Z;
  jt_operations : map_Forall (λ id r, is_utf8 id = true ∧ record_typed r) (jd_operations data);
}.

(** What [serde_json] documents: a journal that was written reads back, and a
    decoded journal has the Rust types. *)
Class JournalCodecLaws `{JC : JournalCodec} : Prop := {
  decode_journal data bytes :
    journal_typed data → journal_to_vec data = Ok bytes →
    journal_from_reader (bytes +:+ String "010"%char "") = Ok data;
  decode_journal_types bytes data : journal_from_reader bytes = Ok data → journal_typed data;
}.

Lemma wpc_labelled {S A} message (m : M S string A) (Q : A → S → Prop) (R : string → S → Prop) C s :
  wpc m Q (λ _, R message) C s → wpc (labelled message m) Q R C s.
Proof.
  intros Hm. unfold labelled. apply wpc_bind, wpc_attempt.
  eapply wpc_mono; [exact Hm| | |done]; intros; [by apply wpc_ret|by apply wpc_throw].
Qed.

Lemma wpc_journal_disk {A} (m : M Disk string A) Q R C d st cl :
  wpc m (λ a d', Q a (MkJournalWorld d' st cl)) (λ e d', R e (MkJournalWorld d' st cl))
    (λ d', C (MkJournalWorld d' st cl)) d →
  wpc (journal_disk m) Q R C (MkJournalWorld d st cl).
Proof. unfold wpc, journal_disk. simpl. by destruct (m d) as [[] d']. Qed.

Section Journal.
Context `{RJ : !RuleStateJson, SH : !Sha256, JC : !JournalCodec, JL : !JournalCodecLaws}.

(** ** Journals that load *)

Record journal_ok (data : JournalData) : Prop := {
  jo_version : jd_version data = 1%Z;
  jo_records : map_Forall (λ id r, check_record (id, r) = Ok tt) (jd_operations data);
  jo_typed : journal_typed data;
}.

Lemma check_operations m :
  fold_result (λ _, check_record) tt (in_key_order m) = Ok tt
  ↔ map_Forall (λ id r, check_record (id, r) = Ok tt) m.
Proof.
  rewrite fold_checks_Ok, Forall_forall. split.
  - intros H id r Hr. apply H. by apply in_key_order_elem.
  - intros H [id r] Hr. apply H. by apply in_key_order_elem.
Qed.

Lemma parse_journal_Ok path text data :
  parse_journal path text = Ok data ↔ journal_from_reader text = Ok data ∧ journal_ok data.
Proof.
  unfold parse_journal. rewrite result_bind_Ok. split.
  - intros (d & Hd & Hp). apply map_err_Ok in Hd. apply reject_bind_Ok in Hp as [Hv Hp].
    apply result_bind_Ok in Hp as ([] & Hf & [= <-]). split; [done|]. split.
    + by apply reject_Ok, negb_false_iff, Z.eqb_eq in Hv.
    + by apply check_operations.
    + by eapply decode_journal_types.
  - intros (Hd & [Hv Hr _]). exists data. split; [by apply map_err_Ok|]. apply reject_bind_Ok. split.
    + by apply reject_Ok, negb_false_iff, Z.eqb_eq.
    + apply result_bind_Ok. exists tt. split; [by apply check_operations|done].
Qed.

(** What a load makes of the contents of the name. *)
Definition journal_contents (path : string) (c : option string) : result string JournalData :=
  match c with None => Ok journal_default | Some text => parse_journal path text end.

Lemma journal_default_ok : journal_ok journal_default.
Proof. split; [done|apply map_Forall_empty|split; [by vm_compute|apply map_Forall_empty]]. Qed.

Lemma journal_contents_ok path c data : journal_contents path c = Ok data → journal_ok data.
Proof.
  destruct c as [text|]; simpl; [by intros [_ ?]%parse_journal_Ok|].
  intros [= <-]. apply journal_default_ok.
Qed.

(** ** The history of the records *)

Definition same_input (r r' : OperationRecord) : Prop :=
  r' = with_phase (rec_phase r') (rec_result_state r') r.
(** [forgets] says that a call of [stat] may fail: [Path::exists] is false then, and
    the journal starts anew without its records. *)
Context (forgets : Prop).

(** [m] may become [m']: records are added, and started ones completed, or the
    journal was forgotten. *)
Definition grows (m m' : JournalData) : Prop :=
  forgets ∨ ∀ id r, jd_operations m !! id = Some r →
  ∃ r', jd_operations m' !! id = Some r' ∧ same_input r r' ∧ (rec_phase r = Completed → r' = r).

Lemma same_input_refl r : same_input r r.
Proof. unfold same_input. by destruct r. Qed.

#[export] Instance grows_preorder : PreOrder grows.
Proof.
  split.
  - intros m. right. intros id r Hr. exists r. split_and!; [done|apply same_input_refl|done].
  - intros m1 m2 m3 [?|H12] [?|H23]; try by left. right. intros id r Hr.
    destruct (H12 id r Hr) as (r2 & Hr2 & Hs2 & Hc2).
    destruct (H23 id r2 Hr2) as (r3 & Hr3 & Hs3 & Hc3). exists r3. split; [done|]. split.
    + unfold same_input in *. rewrite Hs3, Hs2. by destruct r.
    + intros Hp. specialize (Hc2 Hp) as ->. by apply Hc3.
Qed.

(** The document reads as [data]; what a crash can leave are states between
    [low], which is on the medium for good, and [data]. *)
Definition earlier (path : string) (low data : JournalData) (c : option string) : Prop :=
  ∃ m, journal_contents path c = Ok m ∧ grows low m ∧ grows m data.
Definition recoverable (path name : string) (low data : JournalData) : Disk → Prop :=
  safe name (earlier path low data).
Definition journaled (path name : string) (low data : JournalData) (d : Disk) : Prop :=
  recoverable path name low data d ∧ journal_contents path (visible d name) = Ok data.
Definition durable (path name : string) (data : JournalData) : Disk → Prop :=
  safe name (λ c, journal_contents path c = Ok data).

Lemma journaled_kept path name low data d :
  journaled path name low data d → kept name (earlier path low data) (visible d name) d.
Proof. by intros [? _]. Qed.

Lemma kept_journaled path name low data v d :
  journal_contents path v = Ok data → kept name (earlier path low data) v d → journaled path name low data d.
Proof. intros Hv [Hs He]. split; [done|]. by rewrite He. Qed.

Lemma durable_journaled path name data d : durable path name data d → journaled path name data data d.
Proof.
  intros Hd. split; [|exact (safe_visible _ _ _ Hd)]. eapply safe_mono; [|exact Hd].
  intros c Hc. by exists data.
Qed.

Lemma journaled_recoverable path name low data d :
  journaled path name low data d → recoverable path name low data d.
Proof. by intros []. Qed.

Lemma journaled_grows path name low data d : journaled path name low data d → grows low data.
Proof.
  intros [Hs Hv]. apply safe_visible in Hs as (m & Hm & Hl & _). rewrite Hv in Hm. by injection Hm as <-.
Qed.

Lemma recoverable_mono path name low m m' d :
  grows m m' → recoverable path name low m d → recoverable path name low m' d.
Proof.
  intros Hg. apply safe_mono. intros c (m0 & Hc & Hl & Hm). exists m0. split_and!; [done..|]. by etrans.
Qed.

Lemma recoverable_low path name low low' m d :
  grows low low' → recoverable path name low' m d → recoverable path name low m d.
Proof.
  intros Hg. apply safe_mono. intros c (m0 & Hc & Hl & Hm). exists m0. split_and!; [done| |done]. by etrans.
Qed.

(** ** Reading and writing the document *)

Definition stats_work (w : JournalWorld) : Prop := Forall (λ b, b = true) (jw_stats w).
Definition stats_ok (w : JournalWorld) : Prop := forgets ∨ stats_work w.

Section Document.
Context (path name : string) (Hname : file_name path = Some name).

Lemma journal_load_spec P v data w :
  journal_contents path v = Ok data → stats_ok w → kept name P v (jw_disk w) →
  wpc (journal_load path)
    (λ r w', (r = data ∨ forgets ∧ r = journal_default) ∧ stats_ok w' ∧ kept name P v (jw_disk w'))
    (λ _ w', stats_ok w' ∧ kept name P v (jw_disk w')) (λ w', kept name P v (jw_disk w')) w.
Proof.
  intros Hv Hst Hk. destruct w as [d st cl]. unfold stats_ok, stats_work in *. simpl in *. unfold journal_load. wpc_step.
  assert (forgets ∨ Forall (λ b, b = true) (tl st)) as Ht by (destruct Hst as [|Hst]; [by left|right; by destruct Hst]).
  assert (hd true st = true ∨ forgets ∧ hd true st = false) as Hh.
  { destruct Hst as [|Hst]; [destruct (hd true st); auto|left; by destruct Hst]. }
  assert (∀ m, wpc (labelled m (journal_disk query))
    (λ _ w', stats_ok w' ∧ kept name P v (jw_disk w')) (λ _ w', stats_ok w' ∧ kept name P v (jw_disk w'))
    (λ w', kept name P v (jw_disk w')) (MkJournalWorld d (tl st) cl)) as Hq.
  { intros m. apply wpc_labelled, wpc_journal_disk. unfold stats_ok, stats_work. simpl.
    wpc_call (query_spec name P v (λ _, True)); try done. by intros [] ? []. }
  unfold wpc at 1, path_exists. simpl. unfold exists_in. rewrite Hname.
  destruct Hh as [->|[Hf ->] ]; simpl; [|apply wpc_ret; split; [by right|done] ].
  destruct (bool_decide_reflect (is_Some (directory d !! name))) as [Hd|Hd]; simpl.
  2:{ apply wpc_ret. split; [left|done]. destruct Hk as [_ Hk]. unfold visible in Hk.
      destruct (directory d !! name); [by destruct Hd|]. simpl in Hk. subst v. by injection Hv. }
  assert (∃ text, v = Some text) as [text ->].
  { destruct Hk as [Hs <-]. by eapply safe_visible_Some. }
  wpc_step. wpc_call Hq; [|by intros|done]. intros [] [d1 st1 cl1] [Hst1 Hk1]. unfold stats_ok, stats_work in *. simpl in *.
  wpc_step. apply wpc_journal_disk. wpc_call (query_spec name P (Some text) (λ _, True)); try done.
  intros [] d2 (Hk2 & _). wpc_step. wpc_step. wpc_step. wpc_step; [|done]. wpc_step. apply wpc_labelled, wpc_journal_disk.
  unfold read_journal. rewrite Hname. wpc_step. wpc_call read_kept_spec; try done.
  intros r d3 [-> Hk3]. apply wpc_ret. wpc_step; [split; [left|done]|done]. simpl in *. congruence.
Qed.

Lemma kept_replaced P text d : replaced name P text d → kept name (old_or P text) (Some text) d.
Proof. intros Hr. split; [apply Hr|by apply (replaced_visible name P)]. Qed.

Lemma replace_journal_spec P v temporary payload d :
  temporary ≠ name → kept name P v d →
  let text := payload +:+ String "010"%char "" in
  wpc (replace_journal path name temporary payload)
    (λ _ d', safe name (eq (Some text)) d')
    (λ _ d', kept name P v d' ∨ kept name (old_or P text) (Some text) d')
    (λ d', safe name (old_or P text) d') d.
Proof.
  intros Hn Hk text. unfold replace_journal.
  assert (∀ d, kept name P v d → safe name (old_or P text) d) as Hold.
  { intros d' [H _]. eapply safe_mono; [|exact H]. by left. }
  wpc_step. apply wpc_labelled. wpc_call (create_new_spec name P v); [done..| | |by intros; apply Hold].
  2:{ intros e d1 Hk1. by left. }
  intros [i|] d1 [Hk1 Ht]; [|apply wpc_throw; by left].
  wpc_step. wpc_call (write_all_spec name P v); [done..| |intros e d2 [? _]; by left|by intros; apply Hold].
  intros [] d2 [Hk2 Ht2]. simpl in Ht2.
  wpc_step. wpc_call (write_all_spec name P v); [done..| |intros e d3 [? _]; by left|by intros; apply Hold].
  intros [] d3 [Hk3 Ht3]. simpl in Ht3.
  wpc_step. wpc_call (sync_all_spec name P v); [done..| |intros e d4 [? _]; by left|by intros; apply Hold].
  intros [] d4 [Hk4 Ht4].
  wpc_step. apply wpc_labelled. wpc_call (rename_spec name P v); [done..| |intros e d5 [? _]; by left|by intros; apply Hold].
  intros [] d5 Hr. wpc_call (sync_directory_spec name P); [done|by intros []| |].
  - intros e d6 Hr'. right. by apply kept_replaced.
  - by intros d6 [].
Qed.

Lemma journal_save_spec low data data' w :
  stats_ok w → journaled path name low data (jw_disk w) → grows data data' → journal_ok data' →
  wpc (journal_save path data')
    (λ _ w', stats_ok w' ∧ durable path name data' (jw_disk w'))
    (λ _ w', stats_ok w' ∧ (journaled path name low data (jw_disk w') ∨ journaled path name low data' (jw_disk w')))
    (λ w', recoverable path name low data' (jw_disk w')) w.
Proof.
  intros Hst Hjd Hg Hok. pose proof Hjd as [Hs Hv]. destruct w as [d st cl]. unfold stats_ok, stats_work in *. simpl in *.
  set (P := earlier path low data) in *. assert (kept name P (visible d name) d) as Hk by done.
  assert (∀ d', kept name P (visible d name) d' → journaled path name low data d') as Hj by by intros; eapply kept_journaled.
  assert (∀ d', kept name P (visible d name) d' → recoverable path name low data' d') as Hc.
  { intros d' [H _]. by eapply recoverable_mono. }
  unfold journal_save. wpc_step. apply wpc_labelled, wpc_journal_disk.
  eapply wpc_mono; [by apply (query_spec name P (visible d name) (λ _, True))| |simpl; by auto|simpl; by auto].
  intros [] d1 (Hk1 & _). wpc_step. apply wpc_lift; [intros payload Henc|simpl; auto].
  wpc_step. wpc_step; [|simpl; auto]. wpc_step. unfold wpc at 1, now_ns. simpl.
  destruct (hd (Ok 0%Z) cl) as [now|e]; simpl; [|by split; auto].
  wpc_step. wpc_step. rewrite Hname. wpc_step. wpc_step. apply wpc_journal_disk.
  set (text := payload +:+ String "010"%char "").
  assert (journal_contents path (Some text) = Ok data') as Htext.
  { apply parse_journal_Ok. split; [|done]. apply decode_journal; [apply Hok|done]. }
  assert (∀ c, old_or P text c → earlier path low data' c) as Hold.
  { intros c [(m & Hm & Hl & Hg')| ->]; [exists m; split_and!; [done|done|by etrans]|].
    exists data'. split_and!; [done| |done]. etrans; [by eapply journaled_grows|done]. }
  assert (∀ d', kept name (old_or P text) (Some text) d' → journaled path name low data' d') as Hj'.
  { intros d' [Hsafe Hvis]. split; [|by rewrite Hvis]. by eapply safe_mono. }
  pose proof (temporary_name_not name (process_id d1) now) as Hn.
  wpc_call (replace_journal_spec P (visible d name)); [exact Hn|exact Hk1| | |].
  - intros [] d2 H2. apply wpc_ret. split; [done|]. eapply safe_mono; [|exact H2]. by intros c <-.
  - intros e d2 Hd2. wpc_step. wpc_step. apply wpc_journal_disk. destruct Hd2 as [Hd2|Hd2].
    + wpc_call (remove_file_spec name P (visible d name)); [exact Hn|exact Hd2|..]; simpl; intros; [wpc_steps; auto..|auto].
    + wpc_call (remove_file_spec name (old_or P text) (Some text)); [exact Hn|exact Hd2|..]; simpl; intros;
        [wpc_steps; auto..|]. apply (journaled_recoverable path name low data'). auto.
  - intros d2 H2. by eapply safe_mono.
Qed.

(** ** Beginning and completing an operation *)

(** The journal after a step, and what is left of it where the machine stops. *)
Definition moved (low data : JournalData) (w : JournalWorld) : Prop :=
  stats_ok w ∧ ∃ data', grows data data' ∧ journaled path name low data' (jw_disk w).
Definition left_behind (low data : JournalData) (w : JournalWorld) : Prop :=
  ∃ data', grows data data' ∧ recoverable path name low data' (jw_disk w).

Lemma moved_stay low data w : stats_ok w → journaled path name low data (jw_disk w) → moved low data w.
Proof. intros Hst Hj. split; [done|]. by exists data. Qed.

Lemma moved_left_behind low data w : moved low data w → left_behind low data w.
Proof. intros [_ (data' & Hg & Hj)]. exists data'. split; [done|by apply journaled_recoverable]. Qed.

Lemma journaled_load low data w :
  stats_ok w → journaled path name low data (jw_disk w) →
  wpc (journal_load path)
    (λ r w', (r = data ∨ forgets ∧ r = journal_default) ∧ stats_ok w' ∧ journaled path name low data (jw_disk w'))
    (λ _, moved low data) (left_behind low data) w.
Proof.
  intros Hst Hj.
  wpc_call (journal_load_spec (earlier path low data) (visible (jw_disk w) name) data);
    [apply Hj|done|by apply journaled_kept| | |].
  - intros r w' (Hr & Hst' & Hk). split_and!; [done..|]. eapply kept_journaled; [apply Hj|done].
  - intros e w' (Hst' & Hk). apply moved_stay; [done|]. eapply kept_journaled; [apply Hj|done].
  - intros w' [Hs _]. by exists data.
Qed.

Lemma journal_save_moves low data data' w :
  stats_ok w → journaled path name low data (jw_disk w) → grows data data' → journal_ok data' →
  wpc (journal_save path data')
    (λ _ w', stats_ok w' ∧ durable path name data' (jw_disk w')) (λ _, moved low data) (left_behind low data) w.
Proof.
  intros Hst Hj Hg Hok. wpc_call journal_save_spec; [exact Hst|exact Hj|exact Hg|exact Hok|done| |].
  - intros e w' [Hst' [Hj'|Hj']]; [by apply moved_stay|]. split; [done|]. by exists data'.
  - intros w' Hr. by exists data'.
Qed.

Lemma journaled_ok low data d : journaled path name low data d → journal_ok data.
Proof. intros [_ Hv]. by eapply journal_contents_ok. Qed.

Lemma grows_insert data id r :
  (∀ r0, jd_operations data !! id = Some r0 → same_input r0 r ∧ (rec_phase r0 = Completed → r = r0)) →
  grows data (MkJournalData (jd_version data) (<[id := r]> (jd_operations data))).
Proof.
  intros H. right. intros id' r0 Hr0. simpl. destruct (decide (id' = id)) as [->|Hn].
  - rewrite lookup_insert_eq. destruct (H r0 Hr0) as [? ?]. eauto.
  - rewrite lookup_insert_ne by done. exists r0. split_and!; [done|apply same_input_refl|done].
Qed.

Lemma journal_ok_insert data id r :
  journal_ok data → check_record (id, r) = Ok tt → is_utf8 id = true → record_typed r →
  journal_ok (MkJournalData (jd_version data) (<[id := r]> (jd_operations data))).
Proof.
  intros [Hv Hr [Ht1 Ht2]] Hc Hid Ht. split; [done|by apply map_Forall_insert_2|].
  split; [done|]. by apply map_Forall_insert_2.
Qed.

(** What a begun operation knows of the journal: its record is there, and on
    the medium for good when it is new. *)
Definition begun (id : string) (r existing : OperationRecord) (low data low' data' : JournalData) : Prop :=
  jd_operations data' !! id = Some existing ∧ same_input r existing
  ∧ (low' = low ∧ data' = data
     ∨ (forgets ∨ jd_operations data !! id = None) ∧ existing = r ∧ low' = data').

Lemma journal_begin_spec id r low data w :
  check_record (id, r) = Ok tt → is_utf8 id = true → record_typed r →
  stats_ok w → journaled path name low data (jw_disk w) →
  wpc (journal_begin path id r)
    (λ existing w', stats_ok w' ∧ ∃ low' data', grows data data' ∧ journaled path name low' data' (jw_disk w')
                    ∧ begun id r existing low data low' data')
    (λ _, moved low data) (left_behind low data) w.
Proof.
  intros Hc Hid Ht Hst Hj. unfold journal_begin. wpc_step.
  apply wpc_lift; [intros [] _|by intros; apply moved_stay].
  wpc_step. wpc_call journaled_load; [exact Hst|exact Hj| |done|done].
  intros d0 w1 (Hd0 & Hst1 & Hj1).
  assert (journal_ok d0) as Hok by (destruct Hd0 as [->|[_ ->] ]; [by eapply journaled_ok|apply journal_default_ok]).
  assert (grows data d0) as Hg0 by (destruct Hd0 as [->|[Hf _] ]; [done|by left]).
  destruct (jd_operations d0 !! id) as [existing|] eqn:Hd.
  - assert (d0 = data) as -> by (destruct Hd0 as [|[_ ->] ]; [done|discriminate Hd]).
    destruct (bool_decide_reflect (existing ≠ with_phase (rec_phase existing) (rec_result_state existing) r))
      as [Hn|Hn]; [apply wpc_throw; by apply moved_stay|].
    apply dec_stable in Hn. apply wpc_ret. split; [done|]. exists low, data. split_and!; [done|done|].
    split_and!; [done|done|by left].
  - assert (grows data (MkJournalData (jd_version d0) (<[id := r]> (jd_operations d0)))) as Hg.
    { etrans; [exact Hg0|]. apply grows_insert. intros r0. congruence. }
    wpc_step. wpc_call journal_save_moves; [exact Hst1|exact Hj1|exact Hg|by apply journal_ok_insert| |done|done].
    intros [] w2 [Hst2 Hdur]. apply wpc_ret. split; [done|].
    eexists _, _. split; [exact Hg|]. split; [by apply durable_journaled|].
    split_and!; [apply lookup_insert_eq|apply same_input_refl|right]. split; [|done].
    destruct Hd0 as [->|[Hf _] ]; [by right|by left].
Qed.

Lemma journal_complete_spec id r state low data w :
  jd_operations data !! id = Some r → is_utf8 state = true →
  stats_ok w → journaled path name low data (jw_disk w) →
  wpc (journal_complete path id state)
    (λ _ w', stats_ok w' ∧ ∃ data' r', grows data data' ∧ journaled path name low data' (jw_disk w')
             ∧ jd_operations data' !! id = Some r' ∧ same_input r r' ∧ completed_as state r' = true)
    (λ _, moved low data) (left_behind low data) w.
Proof.
  intros Hd Hs Hst Hj. unfold journal_complete. wpc_step.
  wpc_call journaled_load; [exact Hst|exact Hj| |done|done].
  intros d0 w1 ([->|[_ ->] ] & Hst1 & Hj1); [|apply wpc_throw; by apply moved_stay].
  pose proof (journaled_ok _ _ _ Hj) as Hok. rewrite Hd.
  destruct (bool_decide_reflect (rec_phase r = Completed)) as [Hp|Hp].
  - destruct (bool_decide_reflect (rec_result_state r ≠ Some state)) as [Hn|Hn];
      [apply wpc_throw; by apply moved_stay|].
    apply dec_stable in Hn. apply wpc_ret. split; [done|]. exists data, r.
    split_and!; [done..|apply same_input_refl|]. unfold completed_as. by rewrite !bool_decide_true.
  - set (r' := with_phase Completed (Some state) r).
    assert (grows data (MkJournalData (jd_version data) (<[id := r']> (jd_operations data)))) as Hg.
    { apply grows_insert. intros r0. rewrite Hd. intros [= <-]. by split. }
    destruct Hok as [Hv Hr Hty]. pose proof (jt_operations _ Hty id r Hd) as [Hid [_ Ht2 Ht3]].
    assert (journal_ok (MkJournalData (jd_version data) (<[id := r']> (jd_operations data)))) as Hok'.
    { apply journal_ok_insert; [done|by apply (Hr id r)|done|by split]. }
    wpc_call journal_save_moves; [exact Hst1|exact Hj1|exact Hg|exact Hok'| |done|done].
    intros [] w2 [Hst2 Hdur]. split; [done|].
    eexists _, r'. split; [exact Hg|]. split.
    { apply durable_journaled in Hdur as [Hs' Hv']. split; [|done]. eapply recoverable_low; [|exact Hs'].
      etrans; [by eapply journaled_grows|done]. }
    split_and!; [apply lookup_insert_eq|done|]. unfold completed_as. by rewrite !bool_decide_true.
Qed.

Lemma journal_get_spec id low data w :
  stats_ok w → journaled path name low data (jw_disk w) →
  wpc (journal_get path id)
    (λ r w', (r = jd_operations data !! id ∨ forgets ∧ r = None) ∧ stats_ok w' ∧ journaled path name low data (jw_disk w'))
    (λ _, moved low data) (left_behind low data) w.
Proof.
  intros Hst Hj. unfold journal_get. wpc_step. wpc_call journaled_load; [exact Hst|exact Hj| |done|done].
  intros d w' (Hd & ? & ?). apply wpc_ret. split; [|done]. destruct Hd as [->|[Hf ->] ]; [by left|by right].
Qed.

(** ** After a loss of power *)

Lemma journal_power_loss low data w d' :
  left_behind low data w → power_loss (jw_disk w) d' →
  ∃ data0 data', grows data data' ∧ grows low data0 ∧ grows data0 data' ∧ durable path name data0 d'.
Proof.
  intros (data' & Hg & Hr) Hp. destruct (safe_power_loss _ _ _ _ Hr Hp) as (c & (data0 & Hc & Hl & Hg0) & Hs).
  exists data0, data'. split_and!; [done..|]. eapply safe_mono; [|exact Hs]. by intros ? <-.
Qed.

Lemma wpc_query {A} (m : M Disk string A) P v d st cl :
  kept name P v d → (∀ d, kept name P v d → wpc m (λ _, kept name P v) (λ _, kept name P v) (kept name P v) d) →
  wpc (journal_disk m) (λ _ w', jw_stats w' = st ∧ kept name P v (jw_disk w'))
    (λ _ w', jw_stats w' = st ∧ kept name P v (jw_disk w')) (λ w', kept name P v (jw_disk w'))
    (MkJournalWorld d st cl).
Proof. intros Hk Hm. apply wpc_journal_disk. simpl. wpc_call Hm; [done|..]; by intros. Qed.

Lemma full_journal_spec P text w :
  (MAX_JOURNAL_BYTES < Z.of_nat (String.length text))%Z → stats_work w → kept name P (Some text) (jw_disk w) →
  wpc (journal_load path) (λ _ _, False) (λ _ _, True) (λ _, True) w.
Proof.
  intros Hl Hst Hk. destruct w as [d st cl]. unfold stats_work in *. simpl in *. unfold journal_load. wpc_step.
  assert (hd true st = true) as Hh by (by destruct Hst).
  unfold wpc at 1, path_exists. simpl. unfold exists_in. rewrite Hname, Hh.
  assert (is_Some (directory d !! name)) as Hd.
  { destruct Hk as [_ Hv]. unfold visible in Hv. destruct (directory d !! name); [by eexists|done]. }
  rewrite bool_decide_true by done. simpl.
  assert (∀ d st cl, kept name P (Some text) d →
    wpc (journal_disk query) (λ _ w', jw_stats w' = st ∧ kept name P (Some text) (jw_disk w'))
      (λ _ w', jw_stats w' = st ∧ kept name P (Some text) (jw_disk w')) (λ w', kept name P (Some text) (jw_disk w'))
      (MkJournalWorld d st cl)) as Hq.
  { intros. apply wpc_query; [done|]. intros d' Hk'. wpc_call (query_spec name P (Some text) (λ _, True)); try done.
    by intros [] ? []. }
  wpc_step. apply wpc_labelled. wpc_call Hq; [exact Hk| |done|done]. intros [] [d1 st1 cl1] [_ Hk1].
  wpc_step. wpc_call Hq; [exact Hk1| |done|done]. intros [] [d2 st2 cl2] [_ Hk2]. simpl in Hk2.
  wpc_step. wpc_step. wpc_step. apply wpc_lift; [|done]. intros [] Hr%reject_Ok. exfalso.
  unfold file_size in Hr. rewrite Hname in Hr. destruct Hk2 as [_ Hv]. rewrite Hv in Hr. simpl in Hr.
  apply Z.ltb_ge in Hr. lia.
Qed.

(** A journal of the largest size that is accepted is the last one: the line end
    is not counted when it is written, and from then on it never loads. *)
Theorem full_journal_never_loads low data data' payload w :
  stats_work w → journaled path name low data (jw_disk w) → grows data data' → journal_ok data' →
  journal_to_vec data' = Ok payload → Z.of_nat (String.length payload) = MAX_JOURNAL_BYTES →
  wpc (journal_save path data')
    (λ _ w', stats_work w' ∧ wpc (journal_load path) (λ _ _, False) (λ _ _, True) (λ _, True) w')
    (λ _ _, True) (λ _, True) w.
Proof.
  intros Hst Hj Hg Hok Hp Hl.
  set (text := payload +:+ String "010"%char "").
  assert (wpc (journal_save path data') (λ _ w', stats_work w' ∧ safe name (eq (Some text)) (jw_disk w'))
            (λ _ _, True) (λ _, True) w) as H.
  { destruct w as [d st cl]. unfold stats_work in *. simpl in *. destruct Hj as [Hs Hv].
    assert (kept name (earlier path low data) (visible d name) d) as Hk by done.
    unfold journal_save. wpc_step. apply wpc_labelled, wpc_journal_disk.
    eapply wpc_mono; [by apply (query_spec name (earlier path low data) (visible d name) (λ _, True))| |done|done].
    intros [] d1 (Hk1 & _). wpc_step. rewrite Hp. apply wpc_lift; [intros ? [= <-]|done].
    wpc_step. apply wpc_lift; [intros [] _|done]. wpc_step. unfold wpc at 1, now_ns. simpl.
    destruct (hd (Ok 0%Z) cl) as [now|e]; simpl; [|done].
    wpc_step. wpc_step. rewrite Hname. wpc_step. wpc_step. apply wpc_journal_disk.
    wpc_call (replace_journal_spec (earlier path low data) (visible d name));
      [apply temporary_name_not|exact Hk1|by intros [] d2 H2; apply wpc_ret| |done].
    intros e d2 _. wpc_step. unfold wpc at 1, attempt. destruct (journal_disk _ _) as [[]]; done. }
  eapply wpc_mono; [exact H| |done|done]. intros [] w' [Hst' Hs']. split; [done|].
  apply (full_journal_spec (eq (Some text)) text); [|done|split; [done|]].
  - unfold text. rewrite string_length_app. simpl. lia.
  - symmetry. exact (safe_visible name (eq (Some text)) _ Hs').
Qed.
End Document.
End Journal.
