(* ===== verification/RuleProvider.v ===== *)
(** * The MCP server of the scheduler ([scx_agent_classed_mcp/src/control.rs], [provider.rs], [rpc.rs])

    The client of the scheduler's control socket, the tools of the server over it
    and its operation journal, and the reading of requests. *)

From S2P Require Export RuleWorkload RuleJournal.

Local Open Scope nat_scope.
#[export] Existing Instance control_wire.RuleClass_eq_dec.
#[export] Existing Instance control_wire.RuleSource_eq_dec.
#[export] Existing Instance control_wire.ControlOp_eq_dec.
#[export] Existing Instance control_wire.ControlStatus_eq_dec.

(** ** The world of the server

    [sv_exchanges] is a history of the control requests with their checked
    answers and the disk of the journal at that time. *)
Record Exchange := MkExchange {
  ex_request : control_wire.ControlRequest;
  ex_answer : result string control_wire.ControlResponse;
  ex_disk : Disk;
}.
Record ServerWorld (W : Type) := MkServerWorld {
  sv_env : W;
  sv_journal : JournalWorld;
  sv_exchanges : list Exchange;
  sv_instant : Z;
  sv_ticks : list Z;
}.
Arguments MkServerWorld {W}.
Arguments sv_env {W}.
Arguments sv_journal {W}.
Arguments sv_exchanges {W}.
Arguments sv_instant {W}.
Arguments sv_ticks {W}.
Abbreviation PM W := (M (ServerWorld W) string).

(** The control socket: connecting, sending a request as a line and reading the
    answer, at most [MAX_CONTROL_FRAME_BYTES + 1] bytes of it. *)
Class ControlSocket (W : Type) := control_round_trip : control_wire.ControlRequest → W → result string string * W.
(** [serde_json::from_slice] at a response. *)
Class ResponseCodec := response_from_slice : string → result string control_wire.ControlResponse.
(** [/proc] at the time of a measurement. *)
Class ProcFiles (W : Type) := proc_snapshot : W → Proc * W.

(** ** The client of the control socket *)

Definition status_debug (status : control_wire.ControlStatus) : string :=
  match status with
  | control_wire.StatusOk => "Ok" | control_wire.StatusApplied => "Applied"
  | control_wire.StatusNoop => "Noop" | control_wire.StatusConflict => "Conflict"
  | control_wire.StatusError => "Error"
  end.
Definition failure (response : control_wire.ControlResponse) : string :=
  default ("control operation returned status " +:+ status_debug (control_wire.cp_status response))
    (control_wire.cp_message response).

Definition require_current (response : control_wire.ControlResponse) : result string control_wire.RuleState :=
  state ← ok_or "control response is missing current rule state" (control_wire.cp_current response);
  _ ← reject (negb (control_wire.is_valid state)) "control response current rule state is invalid";
  Ok state.

Definition require_rule (response : control_wire.ControlResponse) (comm : string)
    : result string control_wire.RuleObservation :=
  match filter (λ rule, control_wire.ro_comm rule = comm) (control_wire.cp_rules response) with
  | [] => Err ("control response is missing rule '" +:+ comm +:+ "'")
  | rule :: rest =>
    _ ← reject (negb (bool_decide (rest = []))) ("control response contains duplicate rule '" +:+ comm +:+ "'");
    _ ← validate_comm (control_wire.ro_comm rule);
    Ok rule
  end.

Definition require_stats (response : control_wire.ControlResponse) : result string control_wire.ControlStats :=
  ok_or "control response is missing scheduler integrity stats" (control_wire.cp_stats response).

Definition validate_rule_set (response : control_wire.ControlResponse) (expected : list string) : result string unit :=
  let rules := control_wire.cp_rules response in
  _ ← reject (negb (length rules =? length expected))
        ("control response returned " +:+ show (Z.of_nat (length rules)) +:+ " rules for "
           +:+ show (Z.of_nat (length expected)) +:+ " requested comms");
  actual ← collect_result
             (λ rule, _ ← validate_comm (control_wire.ro_comm rule); Ok (control_wire.ro_comm rule)) rules;
  let actual : gset string := list_to_set actual in
  reject (negb (size actual =? length rules) || bool_decide (actual ≠ list_to_set expected))
    "control response rule set does not match the request".

Definition get_rule_request (request_id comm : string) : control_wire.ControlRequest :=
  control_wire.MkControlRequest CONTROL_VERSION request_id control_wire.GetRule (Some comm) None None None.
Definition snapshot_request (request_id : string) (comms : list string) : control_wire.ControlRequest :=
  control_wire.MkControlRequest CONTROL_VERSION request_id control_wire.Snapshot None (Some comms) None None.
Definition compare_and_set_request (request_id comm : string) (expected desired : control_wire.RuleState)
    : control_wire.ControlRequest :=
  control_wire.MkControlRequest CONTROL_VERSION request_id control_wire.CompareAndSetRule (Some comm) None
    (Some expected) (Some desired).

Section Client.
Context {W : Type} `{!ControlSocket W, !ResponseCodec}.

(** What [exchange] checks of the bytes it read. *)
Definition check_response (request : control_wire.ControlRequest) (data : string)
    : result string control_wire.ControlResponse :=
  _ ← reject (MAX_CONTROL_FRAME_BYTES <? Z.of_nat (String.length data))%Z
        ("control response exceeds " +:+ show MAX_CONTROL_FRAME_BYTES +:+ " bytes");
  _ ← reject (bool_decide (data = "")) "control socket closed without a response";
  response ← map_err (λ _, "control socket returned an invalid response") (response_from_slice data);
  _ ← reject (negb (control_wire.cp_version response =? CONTROL_VERSION)%Z)
        ("unsupported control response version " +:+ show (control_wire.cp_version response));
  _ ← reject (bool_decide (control_wire.cp_request_id response ≠ control_wire.cq_request_id request))
        "control response request_id does not match request";
  _ ← reject (bool_decide (control_wire.cp_effective_digest response = ""))
        "control response has an empty effective_digest";
  _ ← reject (control_wire.some_and (λ state, negb (control_wire.is_valid state)) (control_wire.cp_current response))
        "control response contains an invalid current rule state";
  _ ← reject (bool_decide (control_wire.cp_status response = control_wire.StatusError)) (failure response);
  Ok response.

Definition exchange (request : control_wire.ControlRequest) : PM W control_wire.ControlResponse := λ s,
  let '(data, env) := control_round_trip request (sv_env s) in
  let answer := data ≫= check_response request in
  (of_result answer,
   MkServerWorld env (sv_journal s)
     (sv_exchanges s ++ [MkExchange request answer (jw_disk (sv_journal s))]) (sv_instant s) (sv_ticks s)).

Definition observe_rules (request : control_wire.ControlRequest) (comms : list string)
    : PM W control_wire.ControlResponse :=
  response ← exchange request;
  _ ← lift (reject (bool_decide (control_wire.cp_status response ≠ control_wire.StatusOk)) (failure response));
  _ ← lift (validate_rule_set response comms);
  mret response.
Definition client_get_rule (request_id comm : string) : PM W control_wire.ControlResponse :=
  observe_rules (get_rule_request request_id comm) [comm].
Definition client_snapshot (request_id : string) (comms : list string) : PM W control_wire.ControlResponse :=
  observe_rules (snapshot_request request_id comms) comms.
Definition client_compare_and_set (request_id comm : string) (expected desired : control_wire.RuleState)
    : PM W control_wire.ControlResponse :=
  exchange (compare_and_set_request request_id comm expected desired).
End Client.

Definition in_journal {W A} (m : M JournalWorld string A) : PM W A := λ s,
  let '(r, j) := m (sv_journal s) in
  (r, MkServerWorld (sv_env s) j (sv_exchanges s) (sv_instant s) (sv_ticks s)).

(** ** Requests *)

Definition MAX_TARGETS : nat := 128.

Record InvocationContext := MkContext { episode_id : Z; ic_operation_id : string }.
Definition context_validate (c : InvocationContext) : result string unit :=
  validate_id "operation_id" (ic_operation_id c).

Record ProbeRequest := MkProbeRequest { prq_context : InvocationContext; prq_comms : list string }.

Record Target := MkTarget { tg_comm : string; tg_class : control_wire.RuleClass }.
#[export] Instance Target_eq_dec : EqDecision Target.
Proof. solve_decision. Defined.

(** [targets.windows(2)] with an equal pair of names. *)
Fixpoint repeats (targets : list Target) : bool :=
  match targets with
  | t :: ((u :: _) as rest) => bool_decide (tg_comm t = tg_comm u) || repeats rest
  | _ => false
  end.
Definition canonical_targets (targets : list Target) : result string (list Target) :=
  _ ← reject (bool_decide (targets = []) || (MAX_TARGETS <? length targets))
        ("targets must contain 1..=" +:+ show (Z.of_nat MAX_TARGETS) +:+ " entries");
  _ ← fold_result (λ _ t, validate_comm (tg_comm t)) tt targets;
  let targets := sort_by (λ l r, String.leb (tg_comm l) (tg_comm r)) targets in
  _ ← reject (repeats targets) "targets contains duplicate comm entries";
  Ok targets.

Definition insert_comm (unique : gset string) (comm : string) : result string (gset string) :=
  _ ← validate_comm comm;
  _ ← reject (bool_decide (comm ∈ unique)) "comms contains a duplicate entry";
  Ok ({[comm]} ∪ unique).
Definition validate_comms (comms : list string) : result string (list string) :=
  _ ← reject (bool_decide (comms = []) || (MAX_TARGETS <? length comms))
        ("comms must contain 1..=" +:+ show (Z.of_nat MAX_TARGETS) +:+ " entries");
  unique ← fold_result insert_comm ∅ comms;
  Ok (names_in_order unique).

Record IntegritySpecification := MkSpecification { sp_targets : list Target; sp_settle_timeout_ms : Z }.
Definition specification_validate (s : IntegritySpecification) : result string unit :=
  _ ← reject (5000 <? sp_settle_timeout_ms s)%Z "settle_timeout_ms must not exceed 5000";
  _ ← canonical_targets (sp_targets s);
  Ok tt.

Record MeasurementOpenRequest := MkOpenRequest {
  mo_context : InvocationContext; mo_specification : IntegritySpecification }.

Record IntegritySessionData := MkSessionData {
  sd_schema_version : Z;
  sd_targets : list Target;
  sd_settle_timeout_ms : Z;
  task_state_errors_at_open : Z;
  rule_refresh_deferred_at_open : Z;
}.
Definition session_data_validate (d : IntegritySessionData) : result string unit :=
  _ ← reject (negb (sd_schema_version d =? 1)%Z) "unsupported measurement session schema_version";
  _ ← reject (5000 <? sd_settle_timeout_ms d)%Z "measurement session settle_timeout_ms exceeds 5000";
  canonical ← canonical_targets (sd_targets d);
  reject (bool_decide (canonical ≠ sd_targets d)) "measurement session targets are not canonical".

Record MeasurementSession := MkSession { se_id : string; se_driver_data : IntegritySessionData }.
Definition session_validate (s : MeasurementSession) : result string unit :=
  _ ← validate_id "measurement session id" (se_id s);
  session_data_validate (se_driver_data s).

Record MeasurementSampleRequest := MkSampleRequest {
  sr_context : InvocationContext; sr_session : MeasurementSession }.

Record MutationPrepareRequest := MkPrepareRequest {
  pr_context : InvocationContext; pr_comm : string; pr_class : control_wire.RuleClass }.

Definition target_comms (targets : list Target) : list string := tg_comm <$> targets.

(** ** Integrity *)

Record Integrity := MkIntegrity {
  active_coverage : spec_float; persisted_coverage : spec_float; consistency : spec_float }.

Definition count_if (b : bool) : nat := if b then 1 else 0.
Fixpoint count_integrity (response : control_wire.ControlResponse) (targets : list Target)
    : result string (nat * nat * nat) :=
  match targets with
  | [] => Ok (0, 0, 0)
  | target :: targets =>
    rule ← require_rule response (tg_comm target);
    '(active, persisted, consistent) ← count_integrity response targets;
    Ok (count_if (bool_decide (control_wire.ro_active_class rule = Some (tg_class target))) + active,
        count_if (bool_decide (control_wire.ro_persisted_class rule = Some (tg_class target))) + persisted,
        count_if (control_wire.ro_consistent rule
                  && bool_decide (control_wire.ro_active_class rule = control_wire.ro_persisted_class rule)) + consistent)
  end.
Definition ratio (n count : nat) : spec_float := f64_div (f64_of_Z (Z.of_nat n)) (f64_of_Z (Z.of_nat count)).
Definition integrity_evaluate (targets : list Target) (response : control_wire.ControlResponse)
    : result string Integrity :=
  _ ← reject (bool_decide (targets = [])) "measurement has no targets";
  '(active, persisted, consistent) ← count_integrity response targets;
  let count := length targets in
  Ok (MkIntegrity (ratio active count) (ratio persisted count) (ratio consistent count)).
Definition is_one (x : spec_float) : bool := SFeqb x (f64_of_Z 1).
Definition integrity_ready (i : Integrity) : bool :=
  is_one (active_coverage i) && is_one (persisted_coverage i) && is_one (consistency i).

(** ** Answers *)

Record Receipt := MkReceipt {
  rc_operation_id : string; rc_state : string; rc_observed : control_wire.RuleState }.
(** Without a record the status has no observed state. *)
Record StatusAnswer := MkStatusAnswer {
  sa_operation_id : string; sa_state : string; sa_observed : option control_wire.RuleState }.
Record Observed := MkObserved {
  ob_state : control_wire.RuleState;
  ob_observation : control_wire.RuleObservation;
  ob_revision : Z;
  ob_rules_seq : Z;
}.
Definition integrity_matches (o : Observed) (expected : control_wire.RuleState) : bool :=
  control_wire.ro_consistent (ob_observation o)
  && bool_decide (control_wire.ro_active_class (ob_observation o) = control_wire.class expected)
  && bool_decide (control_wire.ro_persisted_class (ob_observation o) = control_wire.class expected).
Record Verification := MkVerification { vf_matched : bool; vf_observed : Observed }.
Record Prepared := MkPreparedAnswer { pa_resource : string; pa_driver_data : MutationDriverData }.
Record ProbeAnswer := MkProbeAnswer {
  pb_observed_at_ns : Z; pb_response : control_wire.ControlResponse; pb_stats : control_wire.ControlStats }.
Record SampleAnswer := MkSampleAnswer {
  sm_started_at_ns : Z;
  sm_ended_at_ns : Z;
  sm_workload : WorkloadFingerprint;
  sm_integrity : Integrity;
  sm_task_errors_delta : Z;
  sm_deferred_delta : Z;
  sm_response : control_wire.ControlResponse;
  sm_target_count : nat;
}.

Definition class_debug (class : control_wire.RuleClass) : string :=
  match class with control_wire.Latency => "Latency" | control_wire.Batch => "Batch" end.
Definition state_debug (s : control_wire.RuleState) : string :=
  "RuleState { present: " +:+ (if control_wire.present s then "true" else "false") +:+ ", class: "
  +:+ match control_wire.class s with
      | Some class => "Some(" +:+ class_debug class +:+ ")"
      | None => "None"
      end +:+ " }".

Section Server.
Context {W : Type} `{CS : !ControlSocket W, RC : !ResponseCodec, PF : !ProcFiles W,
  RJ : !RuleStateJson, SH : !Sha256, JC : !JournalCodec}.
Context (path : string).

Definition short_digest (value : string) : string := String.substring 0 32 (sha256_hex value).
Definition control_request_id (operation_id phase : string) : string :=
  let candidate := operation_id +:+ "/" +:+ phase in
  if String.length candidate <=? 256 then candidate
  else "mcp/" +:+ phase +:+ "/" +:+ sha256_hex operation_id.

Definition read_rule (request_id comm : string) : PM W Observed :=
  response ← client_get_rule request_id comm;
  state ← lift (require_current response);
  observation ← lift (require_rule response comm);
  mret (MkObserved state observation (control_wire.cp_revision response) (control_wire.cp_rules_seq response)).

(** *** Probing and measuring *)

Definition probe (request : ProbeRequest) : PM W ProbeAnswer :=
  _ ← lift (context_validate (prq_context request));
  comms ← lift (validate_comms (prq_comms request));
  response ← client_snapshot (control_request_id (ic_operation_id (prq_context request)) "snapshot") comms;
  stats ← lift (require_stats response);
  now ← in_journal now_ns;
  mret (MkProbeAnswer now response stats).

Definition measurement_open (request : MeasurementOpenRequest) : PM W MeasurementSession :=
  let specification := mo_specification request in
  let id := ic_operation_id (mo_context request) in
  _ ← lift (context_validate (mo_context request));
  _ ← lift (specification_validate specification);
  targets ← lift (canonical_targets (sp_targets specification));
  response ← client_snapshot (control_request_id id "open") (target_comms targets);
  stats ← lift (require_stats response);
  mret (MkSession ("classification-integrity/" +:+ short_digest id)
          (MkSessionData 1 targets (sp_settle_timeout_ms specification)
             (control_wire.cs_task_state_errors stats) (control_wire.cs_rule_refresh_deferred stats))).

(** [Instant::now] and [thread::sleep]. *)
Definition server_instant : PM W Z := λ s,
  let now := (sv_instant s + Z.max (hd 0%Z (sv_ticks s)) 0)%Z in
  (Ret now, MkServerWorld (sv_env s) (sv_journal s) (sv_exchanges s) now (tl (sv_ticks s))).
Definition sleep (duration : Z) : PM W unit :=
  modify (λ s, MkServerWorld (sv_env s) (sv_journal s) (sv_exchanges s) (sv_instant s + duration)%Z (sv_ticks s)).

Definition ms : Z := 1000000.

(** At most 500 sleeps of ten milliseconds fit the longest timeout. *)
Fixpoint settle_loop (fuel : nat) (id : string) (targets : list Target) (started timeout : Z)
    : PM W (control_wire.ControlResponse * Integrity) :=
  match fuel with
  | 0 => λ s, (Panic, s)
  | S fuel =>
    response ← client_snapshot (control_request_id id "sample") (target_comms targets);
    integrity ← lift (integrity_evaluate targets response);
    if integrity_ready integrity then mret (response, integrity) else
    now ← server_instant;
    if (timeout <=? now - started)%Z then mret (response, integrity) else
    now ← server_instant;
    _ ← sleep (Z.min (10 * ms) (Z.max (timeout - (now - started)) 0));
    settle_loop fuel id targets started timeout
  end.
Definition SETTLE_FUEL : nat := 503.

Definition counter_delta (now at_open : Z) (message : string) : result string Z :=
  if (now <? at_open)%Z then Err message else Ok (now - at_open)%Z.

Definition snapshot_proc : PM W Proc := λ s,
  let '(proc, env) := proc_snapshot (sv_env s) in
  (Ret proc, MkServerWorld env (sv_journal s) (sv_exchanges s) (sv_instant s) (sv_ticks s)).

Definition measurement_sample (request : MeasurementSampleRequest) : PM W SampleAnswer :=
  let session := se_driver_data (sr_session request) in
  let id := ic_operation_id (sr_context request) in
  _ ← lift (context_validate (sr_context request));
  _ ← lift (session_validate (sr_session request));
  started_at_ns ← in_journal now_ns;
  started ← server_instant;
  '(response, integrity) ← settle_loop SETTLE_FUEL id (sd_targets session) started
                             (sd_settle_timeout_ms session * ms)%Z;
  stats ← lift (require_stats response);
  errors ← lift (counter_delta (control_wire.cs_task_state_errors stats) (task_state_errors_at_open session)
             "task_state_errors counter reset during measurement");
  deferred ← lift (counter_delta (control_wire.cs_rule_refresh_deferred stats)
               (rule_refresh_deferred_at_open session) "rule_refresh_deferred counter reset during measurement");
  proc ← snapshot_proc;
  workload ← lift (RuleWorkload.workload_fingerprint proc ((λ t, (tg_comm t, tg_class t)) <$> sd_targets session));
  ended_at_ns ← in_journal now_ns;
  mret (MkSampleAnswer started_at_ns ended_at_ns workload integrity errors deferred response
          (length (sd_targets session))).

Definition measurement_close (session : MeasurementSession) : PM W string :=
  _ ← lift (session_validate session); mret (se_id session).

(** *** Mutations *)

Definition mutation_prepare (request : MutationPrepareRequest) : PM W Prepared :=
  let comm := pr_comm request in
  _ ← lift (context_validate (pr_context request));
  _ ← lift (validate_comm comm);
  response ← client_get_rule (control_request_id (ic_operation_id (pr_context request)) "prepare") comm;
  baseline ← lift (require_current response);
  observation ← lift (require_rule response comm);
  _ ← lift (reject (bool_decide (control_wire.ro_source observation = control_wire.FromBase))
              ("base rule for '" +:+ comm +:+ "' is read-only"));
  let desired := control_wire.state_present (pr_class request) in
  _ ← lift (reject (bool_decide (baseline = desired))
              ("learned rule for '" +:+ comm +:+ "' already has the requested class"));
  mret (MkPreparedAnswer (rule_resource comm) (MkDriverData 1 comm baseline desired)).

(** [Apply] goes from the baseline to the desired state, [Restore] back. *)
Definition mutation_ends (kind : JournalKind) (d : MutationDriverData)
    : option (control_wire.RuleState * control_wire.RuleState) :=
  match kind with
  | Apply => Some (dd_baseline d, dd_desired d)
  | Restore => Some (dd_desired d, dd_baseline d)
  | Finalize => None
  end.

Definition reached (o : Observed) (state : control_wire.RuleState) : bool :=
  bool_decide (ob_state o = state) && integrity_matches o state.

Definition replay_receipt (id comm state phase : string) (to : control_wire.RuleState) : PM W Receipt :=
  observed ← read_rule (control_request_id id phase) comm;
  mret (MkReceipt id (if reached observed to then state else "unknown") (ob_state observed)).

Definition swap_rule (id comm state : string) (from to : control_wire.RuleState) : PM W Receipt :=
  current ← read_rule (control_request_id id "preflight") comm;
  if reached current to then
    _ ← in_journal (journal_complete path id state);
    mret (MkReceipt id state (ob_state current))
  else
  _ ← lift (reject (bool_decide (ob_state current ≠ from))
              ("rule '" +:+ comm +:+ "' drifted: expected " +:+ state_debug from +:+ ", observed "
                 +:+ state_debug (ob_state current)));
  response ← client_compare_and_set id comm from to;
  _ ← lift (reject (negb (bool_decide (control_wire.cp_status response = control_wire.StatusApplied)
                          || bool_decide (control_wire.cp_status response = control_wire.StatusNoop)))
              (failure response));
  observed ← read_rule (control_request_id id "readback") comm;
  _ ← lift (reject (negb (reached observed to))
              ("rule '" +:+ comm +:+ "' CAS readback did not match the requested state"));
  _ ← in_journal (journal_complete path id state);
  mret (MkReceipt id state (ob_state observed)).

Definition mutate (request : MutationOperationRequest) (kind : JournalKind) : PM W Receipt :=
  let id := or_operation_id request in
  let driver := pm_driver_data (or_prepared request) in
  let comm := dd_comm driver in
  let state := completed_state kind in
  _ ← lift (operation_request_validate request);
  '(from, to) ← expect (mutation_ends kind driver);
  existing ← in_journal (journal_begin path id (record_new kind (or_prepared request)));
  if completed_as state existing then replay_receipt id comm state "replay" to
  else swap_rule id comm state from to.

Definition mutation_finalize (request : MutationOperationRequest) : PM W Receipt :=
  let id := or_operation_id request in
  let driver := pm_driver_data (or_prepared request) in
  let comm := dd_comm driver in
  _ ← lift (operation_request_validate request);
  existing ← in_journal (journal_begin path id (record_new Finalize (or_prepared request)));
  if completed_as "finalized" existing then replay_receipt id comm "finalized" "finalize-replay" (dd_desired driver)
  else
  observed ← read_rule (control_request_id id "finalize") comm;
  _ ← lift (reject (negb (reached observed (dd_desired driver)))
              ("cannot finalize '" +:+ comm +:+ "': desired rule is not active and persisted"));
  _ ← in_journal (journal_complete path id "finalized");
  mret (MkReceipt id "finalized" (ob_state observed)).

Definition mutation_status (id : string) : PM W StatusAnswer :=
  _ ← lift (validate_id "operation_id" id);
  record ← in_journal (journal_get path id);
  match record with
  | None => mret (MkStatusAnswer id "unknown" None)
  | Some record =>
    observed ← read_rule (control_request_id id "status") (rec_comm record);
    let state := infer_state (ob_state observed) (integrity_matches observed (ob_state observed)) record in
    _ ← (if is_completion state record then in_journal (journal_complete path id state) else mret tt);
    mret (MkStatusAnswer id state (Some (ob_state observed)))
  end.

Definition mutation_verify (request : MutationVerifyRequest) : PM W Verification :=
  _ ← lift (verify_request_validate request);
  observed ← read_rule (control_request_id (vr_operation_id request) "verify")
               (dd_comm (pm_driver_data (vr_prepared request)));
  mret (MkVerification (reached observed (ms_value (vr_expected request))) observed).
End Server.

(** ** Frames *)

Inductive Frame := Data (data : string) | TooLarge.

Definition newline : ascii := "010"%char.
Definition strip_return (data : string) : string :=
  default data (Text.strip_suffix (String "013"%char "") data).

(** The answers of [fill_buf]; an empty one is the end of the stream.  What a frame
    leaves of the last one is read first the next time. *)
Definition chunk_rest (after : string) (chunks : list (result string string)) : list (result string string) :=
  if bool_decide (after = "") then chunks else Ok after :: chunks.

Definition extend (limit : nat) (payload : string) (acc : string * bool) : string * bool :=
  let '(data, too_large) := acc in
  if too_large then (data, true)
  else if String.length data + String.length payload <=? limit then (data +:+ payload, false)
  else ("", true).

Fixpoint read_frame (limit : nat) (acc : string * bool) (chunks : list (result string string))
    : result string (option Frame) * list (result string string) :=
  match chunks with
  | Err error :: chunks => (Err error, chunks)
  | [] | Ok EmptyString :: _ =>
    let chunks := tl chunks in
    let '(data, too_large) := acc in
    if bool_decide (data = "") && negb too_large then (Ok None, chunks)
    else if too_large then (Ok (Some TooLarge), chunks)
    else (Ok (Some (Data data)), chunks)
  | Ok available :: chunks =>
    match split_once newline available with
    | Some (payload, after) =>
      let '(data, too_large) := extend limit payload acc in
      (Ok (Some (if too_large then TooLarge else Data (strip_return data))), chunk_rest after chunks)
    | None => read_frame limit (extend limit available acc) chunks
    end
  end.
Definition read_bounded_frame (limit : nat) (chunks : list (result string string))
    : result string (option Frame) * list (result string string) := read_frame limit ("", false) chunks.

(** ** JSON-RPC *)

Section RpcRecords.
Context `{J : Json}.
Record RpcRequest := MkRpcRequest {
  rq_jsonrpc : string; rq_id : option Value; rq_method : string; rq_params : Value }.
Record CallRequest := MkCallRequest { cr_name : string; cr_arguments : Value }.
End RpcRecords.

(** The codecs serde derives. *)
Class ServerCodecs `{J : Json} := {
  rpc_from_slice : string → result string RpcRequest;
  decode_uri :: FromValue string;
  decode_call :: FromValue CallRequest;
  decode_probe :: FromValue ProbeRequest;
  decode_specification :: FromValue IntegritySpecification;
  decode_open :: FromValue MeasurementOpenRequest;
  decode_sample :: FromValue MeasurementSampleRequest;
  decode_session :: FromValue MeasurementSession;
  decode_prepare :: FromValue MutationPrepareRequest;
  decode_operation :: FromValue MutationOperationRequest;
  decode_status : Value → result string string;
  decode_verify :: FromValue MutationVerifyRequest;
  state_json : control_wire.RuleState → Value;
  class_json : control_wire.RuleClass → Value;
  observation_json : control_wire.RuleObservation → Value;
  stats_json : control_wire.ControlStats → Value;
  session_json : IntegritySessionData → Value;
  driver_json : MutationDriverData → Value;
}.

Definition PROTOCOL_VERSION : string := "2024-11-05".
Definition CAPABILITIES_URI : string := "tuning://capabilities/v1".

Section Rpc.
Context {W : Type} `{CS : !ControlSocket W, RC : !ResponseCodec, PF : !ProcFiles W,
  RJ : !RuleStateJson, SH : !Sha256, JC : !JournalCodec}.
Context `{JD : JsonData, SC : !ServerCodecs}.
(** The manifest, serialized, and the tools: the constants of [schema.rs]. *)
Context (path : string) (manifest_text : result string string) (tools : Value).

Definition rpc_result (id result : Value) : Value :=
  json_object [("jsonrpc", json_string "2.0"); ("id", id); ("result", result)].
Definition rpc_error (id : Value) (code : Z) (message : string) : Value :=
  json_object [("jsonrpc", json_string "2.0"); ("id", id);
               ("error", json_object [("code", json_integer code); ("message", json_string message)])].

Definition decoded {A} `{!FromValue A} (label : string) (value : Value) : result string A :=
  map_err (λ _, "invalid " +:+ label) (from_value value).

Definition observed_json (state : control_wire.RuleState) : Value := json_object [("value", state_json state)].
Definition receipt_json (r : Receipt) : Value :=
  json_object [("operation_id", json_string (rc_operation_id r)); ("state", json_string (rc_state r));
               ("observed", observed_json (rc_observed r)); ("driver_data", json_object [])].
Definition status_json (a : StatusAnswer) : Value :=
  match sa_observed a with
  | Some state => receipt_json (MkReceipt (sa_operation_id a) (sa_state a) state)
  | None => json_object [("operation_id", json_string (sa_operation_id a)); ("state", json_string (sa_state a));
                         ("driver_data", json_object [])]
  end.
Definition verification_json (v : Verification) : Value :=
  let o := vf_observed v in
  json_object [("matched", json_bool (vf_matched v));
    ("observed", observed_json (ob_state o));
    ("details", json_object [
      ("active_class", json_option class_json (control_wire.ro_active_class (ob_observation o)));
      ("persisted_class", json_option class_json (control_wire.ro_persisted_class (ob_observation o)));
      ("consistent", json_bool (control_wire.ro_consistent (ob_observation o)));
      ("revision", json_integer (ob_revision o)); ("rules_seq", json_integer (ob_rules_seq o))])].
Definition prepared_json (p : Prepared) : Value :=
  let d := pa_driver_data p in
  json_object [("resource", json_string (pa_resource p));
    ("baseline", observed_json (dd_baseline d)); ("desired", observed_json (dd_desired d));
    ("driver_data", driver_json d)].
Definition probe_json (a : ProbeAnswer) : Value :=
  let r := pb_response a in
  json_object [("observed_at_ns", json_integer (pb_observed_at_ns a));
    ("data", json_object [("rules", json_array (observation_json <$> control_wire.cp_rules r));
      ("revision", json_integer (control_wire.cp_revision r)); ("rules_seq", json_integer (control_wire.cp_rules_seq r));
      ("effective_digest", json_string (control_wire.cp_effective_digest r)); ("stats", stats_json (pb_stats a))]);
    ("warnings", json_array [])].
Definition validation_json (valid : result string unit) : Value :=
  match valid with
  | Ok _ => json_object [("valid", json_bool true)]
  | Err error => json_object [("valid", json_bool false); ("message", json_string error)]
  end.
Definition session_answer_json (s : MeasurementSession) : Value :=
  json_object [("id", json_string (se_id s)); ("driver_data", session_json (se_driver_data s))].
Definition closed_json (id : string) : Value :=
  json_object [("session_id", json_string id); ("cleaned_up", json_bool true); ("details", json_object [])].
Definition metric (value : Value) (unit kind : string) : Value :=
  json_object [("value", value); ("unit", json_string unit); ("kind", json_string kind)].
Definition sample_json (a : SampleAnswer) : Value :=
  let r := sm_response a in let i := sm_integrity a in
  json_object [("started_at_ns", json_integer (sm_started_at_ns a)); ("ended_at_ns", json_integer (sm_ended_at_ns a));
    ("quality", json_string "valid"); ("workload_fingerprint", json_string (wf_digest (sm_workload a)));
    ("metrics", json_object [
      ("active_rule_coverage", metric (json_f64 (active_coverage i)) "ratio" "gauge");
      ("persisted_rule_coverage", metric (json_f64 (persisted_coverage i)) "ratio" "gauge");
      ("active_persisted_consistency", metric (json_f64 (consistency i)) "ratio" "gauge");
      ("task_state_errors_delta", metric (json_integer (sm_task_errors_delta a)) "errors" "counter");
      ("rule_refresh_deferred_delta", metric (json_integer (sm_deferred_delta a)) "tasks" "counter")]);
    ("provenance", json_object [("provider", json_string "scx_agent_classed_mcp");
      ("version", json_string PROVIDER_VERSION); ("revision", json_integer (control_wire.cp_revision r));
      ("rules_seq", json_integer (control_wire.cp_rules_seq r));
      ("effective_digest", json_string (control_wire.cp_effective_digest r));
      ("target_count", json_integer (Z.of_nat (sm_target_count a)));
      ("matched_task_count", json_integer (Z.of_nat (wf_task_count (sm_workload a))))])].

(** A tool: its arguments decoded, its answer rendered. *)
Definition tool {A B} `{!FromValue A} (label : string) (run : A → PM W B) (render : B → Value) (arguments : Value)
    : PM W Value :=
  request ← lift (decoded label arguments); answer ← run request; mret (render answer).

Definition call_tool (name : string) : option (Value → PM W Value) :=
  if bool_decide (name = "scx_agent_classed.rules_snapshot") then
    Some (tool "rules.snapshot request" probe probe_json)
  else if bool_decide (name = "scx_agent_classed.integrity_validate") then
    Some (tool "measurement validate request" (λ s, mret (specification_validate s)) validation_json)
  else if bool_decide (name = "scx_agent_classed.integrity_open") then
    Some (tool "measurement open request" measurement_open session_answer_json)
  else if bool_decide (name = "scx_agent_classed.integrity_sample") then
    Some (tool "measurement sample request" measurement_sample sample_json)
  else if bool_decide (name = "scx_agent_classed.integrity_close") then
    Some (tool "measurement close request" measurement_close closed_json)
  else if bool_decide (name = "scx_agent_classed.rule_prepare") then
    Some (tool "mutation prepare request" mutation_prepare prepared_json)
  else if bool_decide (name = "scx_agent_classed.rule_apply") then
    Some (tool "mutation apply request" (λ q, mutate path q Apply) receipt_json)
  else if bool_decide (name = "scx_agent_classed.rule_status") then
    Some (tool (FromValue0 := decode_status) "mutation status request" (mutation_status path) status_json)
  else if bool_decide (name = "scx_agent_classed.rule_verify") then
    Some (tool "mutation verify request" mutation_verify verification_json)
  else if bool_decide (name = "scx_agent_classed.rule_restore") then
    Some (tool "mutation restore request" (λ q, mutate path q Restore) receipt_json)
  else if bool_decide (name = "scx_agent_classed.rule_finalize") then
    Some (tool "mutation finalize request" (mutation_finalize path) receipt_json)
  else None.

Definition tools_call (params : Value) : PM W Value :=
  outcome ← attempt (
    request ← lift (decoded "tools/call parameters" params);
    match call_tool (cr_name request) with
    | Some run => run (cr_arguments request)
    | None => throw ("unknown tool '" +:+ cr_name request +:+ "'")
    end);
  mret match outcome with
       | Ok structured => json_object [("structuredContent", structured)]
       | Err error =>
         json_object [("isError", json_bool true);
           ("content", json_array [json_object [("type", json_string "text"); ("text", json_string error)]])]
       end.

Definition resources_read (params : Value) : result string Value :=
  uri ← decoded "resources/read parameters" params;
  _ ← reject (bool_decide (uri ≠ CAPABILITIES_URI)) ("unsupported resource URI '" +:+ uri +:+ "'");
  text ← manifest_text;
  Ok (json_object [("contents", json_array [json_object [
        ("uri", json_string CAPABILITIES_URI); ("mimeType", json_string "application/json");
        ("text", json_string text)]])]).

Definition initialize_json : Value :=
  json_object [("protocolVersion", json_string PROTOCOL_VERSION);
    ("capabilities", json_object [("tools", json_object []); ("resources", json_object [])]);
    ("serverInfo", json_object [("name", json_string "scx-agent-classed-tuning-mcp");
                                ("version", json_string PROVIDER_VERSION)])].

Definition answer_json (id : Value) (answer : result string Value) : Value :=
  match answer with Ok value => rpc_result id value | Err error => rpc_error id (-32602) error end.

Definition handle_rpc (request : RpcRequest) : PM W (option Value) :=
  match rq_id request with
  | None => mret None
  | Some id =>
    if bool_decide (rq_jsonrpc request ≠ "2.0") then mret (Some (rpc_error id (-32600) "jsonrpc must be '2.0'"))
    else if bool_decide (rq_method request = "initialize") then mret (Some (answer_json id (Ok initialize_json)))
    else if bool_decide (rq_method request = "resources/read") then
      mret (Some (answer_json id (resources_read (rq_params request))))
    else if bool_decide (rq_method request = "tools/list") then
      mret (Some (answer_json id (Ok (json_object [("tools", tools)]))))
    else if bool_decide (rq_method request = "tools/call") then
      answer ← tools_call (rq_params request); mret (Some (rpc_result id answer))
    else mret (Some (rpc_error id (-32601) "method not found"))
  end.

Definition MAX_FRAME_BYTES : Z := 8 * 1024 * 1024.

Definition serve_frame (frame : Frame) : PM W (option Value) :=
  match frame with
  | Data data =>
    match rpc_from_slice data with
    | Ok request => handle_rpc request
    | Err error => mret (Some (rpc_error Value_Null (-32700) ("invalid JSON: " +:+ error)))
    end
  | TooLarge => mret (Some (rpc_error Value_Null (-32600) ("request exceeds " +:+ show MAX_FRAME_BYTES +:+ " bytes")))
  end.

(** The answers in order, written as lines; each frame takes a chunk or part of one. *)
Fixpoint serve_stdio (fuel limit : nat) (chunks : list (result string string)) (answers : list Value)
    : PM W (list Value) :=
  match fuel with
  | 0 => λ s, (Panic, s)
  | S fuel =>
    let '(read, chunks) := read_bounded_frame limit chunks in
    frame ← lift read;
    match frame with
    | None => mret answers
    | Some frame =>
      answer ← serve_frame frame;
      serve_stdio fuel limit chunks (answers ++ match answer with Some v => [v] | None => [] end)
    end
  end.
End Rpc.
