(* ===== verification/RuleProviderSafety.v ===== *)
(** * The MCP server of the scheduler: receipts are earned

    Mutations are journaled before they touch the scheduler, change a rule at most
    once, and are acknowledged only after a readback; requests are read the same
    however their bytes arrive. *)

From S2P Require Export RuleJournalSafety RuleProvider.

Local Open Scope nat_scope.

(** ** Frames do not depend on the chunks *)

Lemma split_once_Some c s l r :
  split_once c s = Some (l, r) ↔ s = l +:+ String c r ∧ contains_char c l = false.
Proof.
  revert l. induction s as [|a s IH]; intros l; simpl.
  - split; [done|]. intros [H _]. by destruct l.
  - destruct (Ascii.eqb_spec a c) as [->|Hn].
    + split; [by intros [= <- <-]|]. intros [H Hl]. destruct l as [|b l]; [by injection H as ->|].
      rewrite string_app_cons in H. injection H as <- _. unfold contains_char in Hl. simpl in Hl.
      by rewrite Ascii.eqb_refl in Hl.
    + split.
      * destruct (split_once c s) as [[l' r']|]; [|done]. intros [= <- <-].
        destruct (proj1 (IH l') eq_refl) as [-> Hl]. split; [done|]. unfold contains_char in *. simpl.
        destruct (Ascii.eqb_spec c a); [congruence|done].
      * intros [H Hl]. destruct l as [|b l]; [injection H; congruence|].
        rewrite string_app_cons in H. injection H as <- ->. unfold contains_char in Hl. simpl in Hl.
        apply orb_false_iff in Hl as [_ Hl]. by rewrite (proj2 (IH l) (conj eq_refl Hl)).
Qed.

Lemma split_once_None c s : split_once c s = None → contains_char c s = false.
Proof.
  unfold contains_char. induction s as [|a s IH]; simpl; [done|]. rewrite Ascii.eqb_sym.
  destruct (Ascii.eqb c a); [done|]. destruct (split_once c s) as [[]|]; [done|]. auto.
Qed.

Lemma contains_char_app c p s : contains_char c (p +:+ s) = contains_char c p || contains_char c s.
Proof.
  unfold contains_char. induction p as [|a p IH]; [done|]. rewrite string_app_cons. simpl. by rewrite IH, orb_assoc.
Qed.

(** The stream the chunks make, and its first frame. *)
Fixpoint stream (chunks : list (result string string)) : string :=
  match chunks with Ok s :: chunks => s +:+ stream chunks | _ => "" end.
Definition limited (limit : nat) (line : string) (finish : string → string) : Frame :=
  if limit <? String.length line then TooLarge else Data (finish line).
Definition first_frame (limit : nat) (s : string) : option Frame * string :=
  match split_once newline s with
  | Some (line, rest) => (Some (limited limit line strip_return), rest)
  | None => (if bool_decide (s = "") then None else Some (limited limit s id), "")
  end.

Definition gathered (limit : nat) (line : string) : string * bool :=
  if limit <? String.length line then ("", true) else (line, false).

Lemma extend_gathered limit p s : extend limit s (gathered limit p) = gathered limit (p +:+ s).
Proof.
  unfold gathered, extend. rewrite string_length_app.
  destruct (Nat.ltb_spec limit (String.length p)), (Nat.ltb_spec limit (String.length p + String.length s));
    try lia; try done.
  - destruct (Nat.leb_spec (String.length p + String.length s) limit); [lia|done].
  - destruct (Nat.leb_spec (String.length p + String.length s) limit); [done|lia].
Qed.

Definition filled (c : result string string) : Prop := ∃ s, c = Ok s ∧ s ≠ "".

Lemma chunk_rest_stream after chunks :
  Forall filled chunks →
  stream (chunk_rest after chunks) = after +:+ stream chunks ∧ Forall filled (chunk_rest after chunks).
Proof.
  intros Hc. unfold chunk_rest. case_bool_decide as Ha; [by subst|]. split; [done|].
  constructor; [by exists after|done].
Qed.

Lemma read_frame_spec limit p chunks :
  contains_char newline p = false → Forall filled chunks →
  ∃ rest, read_frame limit (gathered limit p) chunks = (Ok (first_frame limit (p +:+ stream chunks)).1, rest)
    ∧ stream rest = (first_frame limit (p +:+ stream chunks)).2 ∧ Forall filled rest.
Proof.
  intros Hp Hc. revert p Hp. induction Hc as [|c chunks (s & -> & Hs) Hc IH]; intros p Hp.
  - simpl. rewrite string_app_nil_r. exists []. unfold first_frame.
    destruct (split_once newline p) as [[l r]|] eqn:Hsp.
    { apply split_once_Some in Hsp as [Hsp _]. rewrite Hsp, contains_char_app in Hp. unfold contains_char in Hp.
      simpl in Hp. by rewrite orb_true_r in Hp. }
    split; [|done]. unfold gathered, limited. destruct (limit <? String.length p) eqn:Hl; simpl.
    + case_bool_decide as He; [|done]. subst p. done.
    + case_bool_decide; by simpl.
  - destruct s as [|a s]; [done|]. change (stream (Ok (String a s) :: chunks)) with (String a s +:+ stream chunks).
    set (available := String a s) in *.
    assert (read_frame limit (gathered limit p) (Ok available :: chunks)
            = match split_once newline available with
              | Some (payload, after) =>
                let '(data, too_large) := extend limit payload (gathered limit p) in
                (Ok (Some (if too_large then TooLarge else Data (strip_return data))), chunk_rest after chunks)
              | None => read_frame limit (extend limit available (gathered limit p)) chunks
              end) as -> by done.
    destruct (split_once newline available) as [[payload after]|] eqn:Hsp.
    + apply split_once_Some in Hsp as [Hav Hpay]. exists (chunk_rest after chunks).
      destruct (chunk_rest_stream after chunks Hc) as [Hst Hf].
      assert (split_once newline (p +:+ available +:+ stream chunks) = Some (p +:+ payload, after +:+ stream chunks)) as Hw.
      { apply split_once_Some. split; [|by rewrite contains_char_app, Hp].
        rewrite Hav, <- !string_app_assoc. done. }
      unfold first_frame. rewrite Hw, extend_gathered. unfold gathered, limited. simpl.
      split_and!; [|done|done]. by destruct (limit <? String.length (p +:+ payload)).
    + rewrite extend_gathered. rewrite string_app_assoc. apply IH.
      rewrite contains_char_app, Hp. by apply split_once_None.
Qed.

(** A request is read the same however its bytes arrive: the answer is the first
    line of the stream, or that it is too long, and what is left is the rest of the
    stream; a line within the limit that was sent is the line that is read. *)
Theorem requests_survive_any_chunking limit chunks :
  Forall filled chunks →
  ∃ rest, read_bounded_frame limit chunks = (Ok (first_frame limit (stream chunks)).1, rest)
    ∧ stream rest = (first_frame limit (stream chunks)).2 ∧ Forall filled rest
    ∧ ∀ line tail, stream chunks = line +:+ String newline tail → contains_char newline line = false →
        String.length line ≤ limit → strip_return line = line →
        first_frame limit (stream chunks) = (Some (Data line), tail).
Proof.
  intros Hc. destruct (read_frame_spec limit "" chunks eq_refl Hc) as (rest & Hr & Hs & Hf).
  exists rest. split_and!; [exact Hr|exact Hs|done|].
  intros line tail Hst Hn Hl Hr'. unfold first_frame. rewrite Hst.
  rewrite (proj2 (split_once_Some newline _ line tail)) by done. unfold limited. rewrite Hr'.
  by destruct (Nat.ltb_spec limit (String.length line)); [lia|].
Qed.

(** ** The coverage of a measurement *)

Lemma ratio_one n count :
  n ≤ count → 0 < count ≤ MAX_TARGETS → is_one (ratio n count) = true ↔ n = count.
Proof.
  intros Hn Hc.
  assert (forallb (λ count, forallb (λ n, Bool.eqb (is_one (ratio n count)) (n =? count)) (seq 0 (S count)))
            (seq 1 MAX_TARGETS) = true) as H by (vm_compute; reflexivity).
  rewrite forallb_forall in H. specialize (H count). rewrite in_seq in H. specialize (H ltac:(lia)).
  rewrite forallb_forall in H. specialize (H n). rewrite in_seq in H. specialize (H ltac:(lia)).
  apply eqb_prop in H. rewrite H. apply Nat.eqb_eq.
Qed.

(** The rule of a target runs, is persisted and consistent. *)
Definition covered (response : control_wire.ControlResponse) (t : Target) : Prop :=
  ∃ rule, require_rule response (tg_comm t) = Ok rule ∧ control_wire.ro_consistent rule = true
    ∧ control_wire.ro_active_class rule = Some (tg_class t)
    ∧ control_wire.ro_persisted_class rule = Some (tg_class t).

Lemma count_integrity_full response targets a p c :
  count_integrity response targets = Ok (a, p, c) →
  a ≤ length targets ∧ p ≤ length targets ∧ c ≤ length targets
  ∧ (a = length targets ∧ p = length targets ∧ c = length targets ↔ Forall (covered response) targets).
Proof.
  revert a p c. induction targets as [|t targets IH]; intros a p c; simpl.
  { intros [= <- <- <-]. split_and!; try lia. split; [constructor|done]. }
  rewrite result_bind_Ok. intros (rule & Hr & H). apply result_bind_Ok in H as ([[a' p'] c'] & Hc & [= <- <- <-]).
  destruct (IH _ _ _ Hc) as (H1 & H2 & H3 & H4). rewrite Forall_cons, <- H4.
  assert (∀ b, count_if b ≤ 1) as Hb by (intros []; simpl; lia).
  split_and!; try (match goal with |- count_if ?b + _ ≤ _ => specialize (Hb b); lia end).
  unfold covered. split.
  - intros (Ha & Hp & Hcc). rewrite Hr.
    destruct (bool_decide_reflect (control_wire.ro_active_class rule = Some (tg_class t))); simpl in Ha; [|lia].
    destruct (bool_decide_reflect (control_wire.ro_persisted_class rule = Some (tg_class t))); simpl in Hp; [|lia].
    destruct (control_wire.ro_consistent rule) eqn:Hco; simpl in Hcc; [|lia].
    split; [|case_bool_decide; simpl in Hcc; lia]. exists rule. done.
  - intros ((rule' & Hr' & Hco & Ha & Hp) & -> & -> & ->). rewrite Hr in Hr'. injection Hr' as <-.
    rewrite Hco, Ha, Hp, !bool_decide_true by done. done.
Qed.

(** C39. A measurement is ready exactly when every target is covered: the three
    ratios, computed in binary64, are one exactly when each target's rule runs and
    is persisted with the target's class, consistently. *)
Theorem integrity_ready_iff targets response i :
  length targets ≤ MAX_TARGETS → integrity_evaluate targets response = Ok i →
  integrity_ready i = true ↔ Forall (covered response) targets.
Proof.
  intros Hl H. unfold integrity_evaluate in H. apply reject_bind_Ok in H as [He H].
  apply reject_Ok, bool_decide_eq_false in He. apply result_bind_Ok in H as ([[a p] c] & Hc & [= <-]).
  destruct (count_integrity_full _ _ _ _ _ Hc) as (H1 & H2 & H3 & <-).
  assert (0 < length targets) as H0 by (destruct targets; [done|simpl; lia]).
  unfold integrity_ready. simpl. rewrite !andb_true_iff, !ratio_one by lia. tauto.
Qed.

(** ** The world of the server *)

Section World.
Context {W : Type} `{CS : !ControlSocket W, RC : !ResponseCodec}.

Definition after_exchange (s : ServerWorld W) (e : Exchange) (env : W) : ServerWorld W :=
  MkServerWorld env (sv_journal s) (sv_exchanges s ++ [e]) (sv_instant s) (sv_ticks s).
Definition with_journal (s : ServerWorld W) (j : JournalWorld) : ServerWorld W :=
  MkServerWorld (sv_env s) j (sv_exchanges s) (sv_instant s) (sv_ticks s).

Lemma wpc_in_journal {A} (m : M JournalWorld string A) Q R C (s : ServerWorld W) :
  wpc m (λ a j, Q a (with_journal s j)) (λ e j, R e (with_journal s j)) (λ j, C (with_journal s j)) (sv_journal s) →
  wpc (in_journal m) Q R C s.
Proof. unfold wpc, in_journal. by destruct (m (sv_journal s)) as [[] j]. Qed.

(** One round trip, answered [answer]. *)
Record round_trip (q : control_wire.ControlRequest) (s : ServerWorld W)
    (answer : result string control_wire.ControlResponse) (env : W) : Prop := {
  rd_trip : ∃ data, control_round_trip q (sv_env s) = (data, env) ∧ answer = data ≫= check_response q;
}.

Lemma wpc_exchange q Q (R : string → ServerWorld W → Prop) C s :
  (∀ answer env, round_trip q s answer env →
     match answer with
     | Ok a => Q a (after_exchange s (MkExchange q answer (jw_disk (sv_journal s))) env)
     | Err e => R e (after_exchange s (MkExchange q answer (jw_disk (sv_journal s))) env)
     end) →
  wpc (exchange q) Q R C s.
Proof.
  intros H. unfold wpc, exchange. destruct (control_round_trip q (sv_env s)) as [data env] eqn:Hr.
  specialize (H (data ≫= check_response q) env (Build_round_trip _ _ _ _ (ex_intro _ data (conj Hr eq_refl)))).
  by destruct (data ≫= check_response q).
Qed.

(** What was read of a rule. *)
Definition observed_by (e : Exchange) (comm : string) (o : Observed) : Prop :=
  control_wire.cq_op (ex_request e) = control_wire.GetRule ∧ control_wire.cq_comm (ex_request e) = Some comm
  ∧ ∃ response, ex_answer e = Ok response ∧ control_wire.cp_status response = control_wire.StatusOk
      ∧ require_current response = Ok (ob_state o) ∧ require_rule response comm = Ok (ob_observation o).
Definition is_change (e : Exchange) : bool :=
  bool_decide (control_wire.cq_op (ex_request e) = control_wire.CompareAndSetRule).
End World.

(** ** The interface of the scheduler

    What a client knows of the rule it changes: a read that is answered shows
    [current], and only the reads of the rule and the change it asks for
    happen to the scheduler while [usable]. *)
Class SchedulerContract {W : Type} `{!ControlSocket W, !ResponseCodec} (comm : string)
    (from to : control_wire.RuleState) (usable : W → Prop) (current : W → control_wire.RuleState → Prop) : Prop := {
  contract_read request_id env data env' :
    usable env → control_round_trip (get_rule_request request_id comm) env = (data, env') →
    usable env' ∧ ∀ response state, data ≫= check_response (get_rule_request request_id comm) = Ok response →
      control_wire.cp_status response = control_wire.StatusOk → require_current response = Ok state → current env' state;
  contract_change request_id env data env' :
    usable env → control_round_trip (compare_and_set_request request_id comm from to) env = (data, env') →
    usable env';
}.

(** Of any socket nothing is known. *)
Lemma any_scheduler {W} `{!ControlSocket W, !ResponseCodec} comm from to :
  SchedulerContract comm from to (λ _ : W, True) (λ _ _, True).
Proof. by split. Qed.

(** ** Mutations *)

Section Mutations.
Context {W : Type} `{CS : !ControlSocket W, RC : !ResponseCodec, PF : !ProcFiles W,
  RJ : !RuleStateJson, SH : !Sha256, JC : !JournalCodec, JL : !JournalCodecLaws}.
(** [forgets]: a call of [stat] for the journal may fail. *)
Context (forgets : Prop) (path name : string) (Hname : file_name path = Some name).
Context (comm : string) (from to : control_wire.RuleState)
  (usable : W → Prop) (current : W → control_wire.RuleState → Prop)
  `{SC : !SchedulerContract comm from to usable current}.
Implicit Types (s : ServerWorld W) (es : list Exchange).

Lemma read_rule_spec request_id Q (R : string → ServerWorld W → Prop) C s :
  usable (sv_env s) →
  (∀ o e env, usable env → observed_by e comm o → current env (ob_state o) → is_change e = false →
     Q o (after_exchange s e env)) →
  (∀ err e env, usable env → is_change e = false → R err (after_exchange s e env)) →
  wpc (read_rule request_id comm) Q R C s.
Proof.
  intros Hu HQ HR. unfold read_rule, client_get_rule, observe_rules.
  wpc_step. wpc_step. apply wpc_exchange. intros answer env [(data & Ht & Ha)].
  set (e := MkExchange (get_rule_request request_id comm) answer (jw_disk (sv_journal s))).
  destruct (contract_read (SchedulerContract := SC) request_id _ _ _ Hu Ht) as [Hu' Hcur].
  assert (∀ err, R err (after_exchange s e env)) as Hr by (intros err; by apply HR).
  destruct answer as [response|err]; [|apply Hr].
  wpc_step. apply wpc_lift; [intros [] Hok%reject_Ok|by intros]. apply bool_decide_eq_false, dec_stable in Hok.
  wpc_step. apply wpc_lift; [intros [] _|by intros]. apply wpc_ret.
  wpc_step. apply wpc_lift; [intros state Hst|by intros]. wpc_step. apply wpc_lift; [intros rule Hrl|by intros].
  apply wpc_ret. apply HQ; [done| |simpl; by eapply Hcur|done].
  split_and!; [done..|]. by exists response.
Qed.

(** What the operation leaves: the exchanges [es], the journal moved on, and the
    scheduler usable. *)
Definition gone_on (s : ServerWorld W) (low data : JournalData) es (s' : ServerWorld W) : Prop :=
  sv_exchanges s' = sv_exchanges s ++ es ∧ usable (sv_env s') ∧ moved forgets path name low data (sv_journal s').
Definition stopped (s : ServerWorld W) (low data : JournalData) es (s' : ServerWorld W) : Prop :=
  sv_exchanges s' = sv_exchanges s ++ es ∧ left_behind forgets path name low data (sv_journal s').

(** The exchanges change the rule at most once, as asked, and only with the
    operation begun and not completed in the journal. *)
Definition change_ok (id state : string) (record : OperationRecord) (data : JournalData) (e : Exchange) : Prop :=
  ex_request e = compare_and_set_request id comm from to
  ∧ ∃ low1 data1 r1, journaled forgets path name low1 data1 (ex_disk e) ∧ grows forgets data data1
      ∧ jd_operations data1 !! id = Some r1 ∧ same_input record r1 ∧ completed_as state r1 = false
      ∧ (jd_operations data !! id = None → low1 = data1).
Definition careful (id state : string) (record : OperationRecord) (data : JournalData) es : Prop :=
  length (filter (λ e, is_change e = true) es) ≤ 1
  ∧ ∀ e, e ∈ es → is_change e = true → change_ok id state record data e.

Lemma no_changes es :
  Forall (λ e, is_change e = false) es → filter (λ e, is_change e = true) es = [].
Proof.
  induction 1 as [|e es He _ IH]; [done|]. rewrite filter_cons_False; [done|]. by rewrite He.
Qed.

Lemma careful_reads id state record data es :
  Forall (λ e, is_change e = false) es → careful id state record data es.
Proof.
  intros Hes. split; [rewrite no_changes by done; simpl; lia|].
  intros e He. rewrite Forall_forall in Hes. by rewrite (Hes e He).
Qed.

Lemma careful_one id state record data es1 e es2 :
  Forall (λ e, is_change e = false) es1 → Forall (λ e, is_change e = false) es2 →
  change_ok id state record data e → careful id state record data (es1 ++ e :: es2).
Proof.
  intros H1 H2 He. split.
  - rewrite filter_app, filter_cons, (no_changes es1 H1), (no_changes es2 H2). case_decide; simpl; lia.
  - rewrite Forall_forall in H1, H2. intros x [Hx|[->|Hx]%elem_of_cons]%elem_of_app Hc; [|done|].
    + by rewrite (H1 x Hx) in Hc.
    + by rewrite (H2 x Hx) in Hc.
Qed.

(** A receipt that says [state]: the last exchange read the rule at its end. *)
Record earned (id state : string) (s : ServerWorld W) (low data : JournalData) (record : OperationRecord)
    (receipt : Receipt) (s' : ServerWorld W) : Prop := {
  ea_exchanges : ∃ es e o, sv_exchanges s' = sv_exchanges s ++ es ++ [e] ∧ observed_by e comm o
    ∧ careful id state record data (es ++ [e]) ∧ rc_observed receipt = ob_state o
    ∧ (rc_state receipt = state → reached o to = true)
    ∧ current (sv_env s') (ob_state o);
  ea_operation : rc_operation_id receipt = id;
  ea_usable : usable (sv_env s');
  ea_journal : stats_ok forgets (sv_journal s') ∧ ∃ low' data' r, grows forgets data data'
    ∧ journaled forgets path name low' data' (jw_disk (sv_journal s'))
    ∧ jd_operations data' !! id = Some r ∧ same_input record r ∧ completed_as state r = true;
  ea_state : rc_state receipt = state ∨ rc_state receipt = "unknown" ∧ ∃ r, jd_operations data !! id = Some r
    ∧ completed_as state r = true;
}.

Lemma same_input_trans r1 r2 r3 : same_input r1 r2 → same_input r2 r3 → same_input r1 r3.
Proof. unfold same_input. intros H2 H3. rewrite H3, H2. by destruct r1. Qed.

(** The state of the operation when it has begun. *)
Record begun_at (id state : string) (s0 s : ServerWorld W) (low data low1 data1 : JournalData)
    (record r1 : OperationRecord) : Prop := {
  ba_exchanges : sv_exchanges s = sv_exchanges s0;
  ba_usable : usable (sv_env s);
  ba_stats : stats_ok forgets (sv_journal s);
  ba_grows : grows forgets data data1;
  ba_journal : journaled forgets path name low1 data1 (jw_disk (sv_journal s));
  ba_record : jd_operations data1 !! id = Some r1;
  ba_input : same_input record r1;
  ba_new : low1 = low ∧ data1 = data
    ∨ (forgets ∨ jd_operations data !! id = None) ∧ r1 = record ∧ low1 = data1;
}.

Lemma begun_low id state s0 s low data low1 data1 record r1 :
  begun_at id state s0 s low data low1 data1 record r1 → grows forgets low data → grows forgets low low1.
Proof. intros [_ _ _ Hg _ _ _ [[-> _]|(_ & _ & ->)]] Hl; [done|by etrans]. Qed.

Lemma moved_weaken low low1 data data1 j :
  grows forgets low low1 → grows forgets data data1 → moved forgets path name low1 data1 j → moved forgets path name low data j.
Proof.
  intros Hl Hg [Hst (d & Hd & Hr & Hv)]. split; [done|]. exists d. split; [by etrans|].
  split; [by eapply recoverable_low|done].
Qed.
Lemma left_behind_weaken low low1 data data1 j :
  grows forgets low low1 → grows forgets data data1 → left_behind forgets path name low1 data1 j → left_behind forgets path name low data j.
Proof. intros Hl Hg (d & Hd & Hr). exists d. split; [by etrans|by eapply recoverable_low]. Qed.

Definition failed (id state : string) (record : OperationRecord) s low data (s' : ServerWorld W) : Prop :=
  ∃ es, careful id state record data es ∧ gone_on s low data es s'.
Definition died (id state : string) (record : OperationRecord) s low data (s' : ServerWorld W) : Prop :=
  ∃ es, careful id state record data es ∧ stopped s low data es s'.

(** A readback followed by the completion of the record. *)
Lemma complete_and_answer id state s0 low data low1 data1 record r1 es e o s1 s :
  is_utf8 state = true → grows forgets low data →
  begun_at id state s0 s1 low data low1 data1 record r1 →
  sv_journal s = sv_journal s1 → sv_exchanges s = sv_exchanges s0 ++ es ++ [e] → usable (sv_env s) →
  observed_by e comm o → reached o to = true → current (sv_env s) (ob_state o) →
  careful id state record data (es ++ [e]) →
  wpc (_ ← in_journal (journal_complete path id state); mret (MkReceipt id state (ob_state o)))
    (earned id state s0 low data record) (λ _, failed id state record s0 low data)
    (died id state record s0 low data) s.
Proof.
  intros Hs Hlow Hb Hj He Hu Ho Hre Hc Hca. pose proof (begun_low _ _ _ _ _ _ _ _ _ _ Hb Hlow) as Hl.
  destruct Hb as [B1 B2 B3 B4 B5 B6 B7 B8].
  wpc_step. apply wpc_in_journal. rewrite Hj.
  wpc_call (journal_complete_spec forgets path name Hname id r1 state low1 data1); [done|done|done|done| | |].
  - intros [] j [Hst (d & r' & Hg & Hjd & Hd & Hin & Hcp)]. apply wpc_ret. split; simpl; try done.
    + exists es, e, o. by split_and!.
    + split; [done|]. exists low1, d, r'. split_and!; [by etrans|done|done| |done]. by eapply same_input_trans.
    + by left.
  - intros err j Hm. exists (es ++ [e]). split; [done|]. split; [done|]. split; [done|]. by eapply moved_weaken.
  - intros j Hm. exists (es ++ [e]). split; [done|]. split; [done|]. by eapply left_behind_weaken.
Qed.

(** A read of the rule when the operation has begun, after the exchanges [es]. *)
Lemma read_begun request_id id state s0 low data low1 data1 record r1 es s1 s Q :
  grows forgets low data → begun_at id state s0 s1 low data low1 data1 record r1 →
  sv_journal s = sv_journal s1 → sv_exchanges s = sv_exchanges s0 ++ es → usable (sv_env s) →
  (∀ e, is_change e = false → careful id state record data (es ++ [e])) →
  (∀ o e s', sv_journal s' = sv_journal s1 → sv_exchanges s' = sv_exchanges s0 ++ es ++ [e] → usable (sv_env s') →
     observed_by e comm o → current (sv_env s') (ob_state o) → is_change e = false → Q o s') →
  wpc (read_rule request_id comm) Q (λ _, failed id state record s0 low data)
    (died id state record s0 low data) s.
Proof.
  intros Hlow Hb Hj He Hu Hca HQ. pose proof (begun_low _ _ _ _ _ _ _ _ _ _ Hb Hlow) as Hl.
  apply read_rule_spec; [done| |].
  - intros o e env Hu' Ho Hc Hch. apply (HQ o e); try done. simpl. by rewrite He, app_assoc.
  - intros err e env Hu' Hch. exists (es ++ [e]). split; [by apply Hca|]. split; [simpl; by rewrite He, app_assoc|].
    split; [done|]. simpl. rewrite Hj. destruct Hb. eapply moved_weaken; [exact Hl|done|by apply moved_stay].
Qed.

Lemma change_is_ok id state s0 low data low1 data1 record r1 s1 e :
  begun_at id state s0 s1 low data low1 data1 record r1 → completed_as state r1 = false →
  ex_request e = compare_and_set_request id comm from to → ex_disk e = jw_disk (sv_journal s1) →
  change_ok id state record data e.
Proof.
  intros [B1 B2 B3 B4 B5 B6 B7 B8] Hnc Hr Hd. split; [done|]. exists low1, data1, r1.
  rewrite Hd. split_and!; try done. intros Hn. destruct B8 as [[_ ->]|(_ & _ & ?)]; [congruence|done].
Qed.

Lemma swap_rule_spec id state s0 s low data low1 data1 record r1 :
  is_utf8 state = true → grows forgets low data →
  begun_at id state s0 s low data low1 data1 record r1 → completed_as state r1 = false →
  wpc (swap_rule path id comm state from to)
    (earned id state s0 low data record) (λ _, failed id state record s0 low data)
    (died id state record s0 low data) s.
Proof.
  intros Hst Hlow Hb Hnc. pose proof Hb as [B1 B2 _ _ _ _ _ _]. unfold swap_rule. wpc_step.
  eapply (read_begun _ _ _ _ _ _ _ _ _ _ []); [done|exact Hb|done|by rewrite app_nil_r|done| |].
  { intros e He. apply careful_reads. by constructor. }
  intros o e1 s2 Hj2 He2 Hu2 Ho Hc He. simpl in He2. destruct (reached o to) eqn:Hre.
  { eapply (complete_and_answer id state s0 low data low1 data1 record r1 [] e1 o); try done.
    apply careful_reads. by constructor. }
  assert (∀ s', sv_journal s' = sv_journal s → sv_exchanges s' = sv_exchanges s0 ++ [e1] → usable (sv_env s') →
    failed id state record s0 low data s') as Hfail1.
  { intros s' Hj' Hs' Hu'. exists [e1]. split; [apply careful_reads; by constructor|]. split; [done|]. split; [done|].
    pose proof (begun_low _ _ _ _ _ _ _ _ _ _ Hb Hlow) as Hl. destruct Hb. rewrite Hj'.
    eapply moved_weaken; [exact Hl|done|by apply moved_stay]. }
  wpc_step. apply wpc_lift; [intros [] _|intros err _; by apply Hfail1].
  wpc_step. apply wpc_exchange. intros answer env [(data0 & Ht & Ha)].
  set (e2 := MkExchange _ answer _).
  pose proof (contract_change (SchedulerContract := SC) id _ _ _ Hu2 Ht) as Hu3.
  assert (change_ok id state record data e2) as Hok2.
  { eapply change_is_ok; [exact Hb|done|done|]. simpl. by rewrite Hj2. }
  assert (∀ es, Forall (λ e, is_change e = false) es → careful id state record data (e1 :: e2 :: es)) as Hca.
  { intros es Hes. apply (careful_one _ _ _ _ [e1] e2 es); [by constructor|done|done]. }
  assert (∀ s', sv_journal s' = sv_journal s → sv_exchanges s' = sv_exchanges s0 ++ [e1; e2] → usable (sv_env s') →
    failed id state record s0 low data s') as Hfail2.
  { intros s' Hj' Hs' Hu'. exists [e1; e2]. split; [by apply Hca|]. split; [done|]. split; [done|].
    pose proof (begun_low _ _ _ _ _ _ _ _ _ _ Hb Hlow) as Hl. destruct Hb. rewrite Hj'.
    eapply moved_weaken; [exact Hl|done|by apply moved_stay]. }
  assert (sv_exchanges (after_exchange s2 e2 env) = sv_exchanges s0 ++ [e1; e2]) as He3.
  { simpl. by rewrite He2, <- app_assoc. }
  destruct answer as [response|err]; [|by apply Hfail2].
  wpc_step. apply wpc_lift; [intros [] _|intros err _; by apply Hfail2].
  wpc_step. eapply (read_begun _ _ _ _ _ _ _ _ _ _ [e1; e2]); [done|exact Hb|done|exact He3|done| |].
  { intros e Hce. apply Hca. by constructor. }
  intros o3 e3 s3 Hj3 He4 Hu4 Ho3 Hc3 Hce3.
  wpc_step. apply wpc_lift; [intros [] Hre3|intros err _].
  - apply reject_Ok, negb_false_iff in Hre3.
    eapply (complete_and_answer id state s0 low data low1 data1 record r1 [e1; e2] e3 o3); try done.
    apply Hca. by constructor.
  - exists [e1; e2; e3]. split; [apply Hca; by constructor|]. split; [done|]. split; [done|].
    pose proof (begun_low _ _ _ _ _ _ _ _ _ _ Hb Hlow) as Hl. destruct Hb. rewrite Hj3.
    eapply moved_weaken; [exact Hl|done|by apply moved_stay].
Qed.

Lemma replay_receipt_spec phase id state s0 s low data low1 data1 record r1 :
  state ≠ "unknown" → grows forgets low data →
  begun_at id state s0 s low data low1 data1 record r1 → completed_as state r1 = true →
  (∀ r, jd_operations data !! id = Some r → r = r1) → is_Some (jd_operations data !! id) →
  wpc (replay_receipt id comm state phase to)
    (earned id state s0 low data record) (λ _, failed id state record s0 low data)
    (died id state record s0 low data) s.
Proof.
  intros Hun Hlow Hb Hco Hsame [r Hr]. pose proof Hb as [B1 B2 B3 B4 B5 B6 B7 B8]. unfold replay_receipt. wpc_step.
  eapply (read_begun _ _ _ _ _ _ _ _ _ _ []); [done|exact Hb|done|by rewrite app_nil_r|done| |].
  { intros e He. apply careful_reads. by constructor. }
  intros o e s2 Hj2 He2 Hu2 Ho Hc He. simpl in He2. apply wpc_ret. split; simpl; try done.
  - exists [], e, o. split_and!; try done; [apply careful_reads; by constructor|].
    destruct (reached o to) eqn:Hre; [done|]. by intros <-.
  - rewrite Hj2. split; [done|]. exists low1, data1, r1. by split_and!.
  - destruct (reached o to); [by left|right]. split; [done|]. exists r. split; [done|].
    by rewrite (Hsame r Hr).
Qed.

(** The names of a request are Rust strings. *)
Record request_typed (request : MutationOperationRequest) : Prop := {
  qt_id : is_utf8 (or_operation_id request) = true;
  qt_prepared : prepared_typed (or_prepared request);
}.

Lemma validate_id_label label label' id : validate_id label id = Ok tt → validate_id label' id = Ok tt.
Proof. unfold validate_id. by rewrite !reject_Ok. Qed.

Lemma new_record_ok kind request :
  operation_request_validate request = Ok tt → request_typed request →
  check_record (or_operation_id request, record_new kind (or_prepared request)) = Ok tt
  ∧ record_typed (record_new kind (or_prepared request)).
Proof.
  intros Hv [Hi Hp]. unfold operation_request_validate in Hv. apply result_bind_Ok in Hv as ([] & Hid & Hv).
  split; [|split; [done|apply Hp|done]].
  unfold check_record. rewrite (validate_id_label _ _ _ Hid). simpl. rewrite Hv. simpl.
  by rewrite !bool_decide_eq_false_2 by (intros H; by apply H).
Qed.

(** The operation begins: what its record says decides how it goes on. *)
Lemma begin_spec kind request low data s Q :
  let id := or_operation_id request in
  let record := record_new kind (or_prepared request) in
  let state := completed_state kind in
  operation_request_validate request = Ok tt → request_typed request →
  stats_ok forgets (sv_journal s) → journaled forgets path name low data (jw_disk (sv_journal s)) → usable (sv_env s) →
  (∀ r1 low1 data1 s1, begun_at id state s s1 low data low1 data1 record r1 →
     (completed_as state r1 = true →
      (∀ r, jd_operations data !! id = Some r → r = r1) ∧ is_Some (jd_operations data !! id)) → Q r1 s1) →
  wpc (in_journal (journal_begin path id record)) Q (λ _, failed id state record s low data)
    (died id state record s low data) s.
Proof.
  intros id record state Hv Ht Hst Hj Hu HQ. destruct (new_record_ok kind request Hv Ht) as [Hc Hty].
  assert (∀ s', careful id state record data []) as Hca by (intros; by apply careful_reads).
  apply wpc_in_journal. wpc_call (journal_begin_spec forgets path name Hname id record low data);
    [exact Hc|apply Ht|exact Hty|exact Hst|exact Hj| | |].
  - intros r1 j (Hst' & low1 & data1 & Hg & Hj1 & Hr1 & Hin & Hnew). apply (HQ r1 low1 data1).
    + by split.
    + intros Hco. destruct Hnew as [[-> ->]|(_ & -> & _)]; [|discriminate Hco].
      rewrite Hr1. split; [by intros r [= <-]|by eexists].
  - intros err j Hm. exists []. split; [by apply Hca|]. split; [simpl; by rewrite app_nil_r|done].
  - intros j Hm. exists []. split; [by apply Hca|]. split; [simpl; by rewrite app_nil_r|done].
Qed.

Lemma failed_at_once id state record s low data :
  stats_ok forgets (sv_journal s) → journaled forgets path name low data (jw_disk (sv_journal s)) → usable (sv_env s) →
  failed id state record s low data s.
Proof.
  intros Hst Hj Hu. exists []. split; [by apply careful_reads|]. split; [by rewrite app_nil_r|].
  split; [done|by apply moved_stay].
Qed.

Lemma completed_state_known kind : completed_state kind ≠ "unknown" ∧ is_utf8 (completed_state kind) = true.
Proof. by destruct kind. Qed.

Definition target_state (kind : JournalKind) (d : MutationDriverData) : control_wire.RuleState :=
  match kind with Apply | Finalize => dd_desired d | Restore => dd_baseline d end.
Definition source_state (kind : JournalKind) (d : MutationDriverData) : control_wire.RuleState :=
  match kind with Apply | Finalize => dd_baseline d | Restore => dd_desired d end.
Definition run_mutation (request : MutationOperationRequest) (kind : JournalKind) : PM W Receipt :=
  match kind with Finalize => mutation_finalize path request | _ => mutate path request kind end.

Lemma mutate_spec request kind low data s :
  let id := or_operation_id request in
  let record := record_new kind (or_prepared request) in
  let state := completed_state kind in
  comm = dd_comm (pm_driver_data (or_prepared request)) →
  mutation_ends kind (pm_driver_data (or_prepared request)) = Some (from, to) → request_typed request →
  stats_ok forgets (sv_journal s) → journaled forgets path name low data (jw_disk (sv_journal s)) → usable (sv_env s) →
  wpc (mutate path request kind) (earned id state s low data record)
    (λ _, failed id state record s low data) (died id state record s low data) s.
Proof.
  intros id record state Hcomm Hends Ht Hst Hj Hu. destruct (completed_state_known kind) as [Hun Hutf].
  pose proof (journaled_grows _ _ _ _ _ _ Hj) as Hlow.
  unfold mutate. wpc_step. apply wpc_lift; [intros [] Hv|intros; by apply failed_at_once].
  wpc_step. apply (wpc_expect _ _ _ _ _ _ Hends). wpc_step.
  apply begin_spec; [done..|]. intros r1 low1 data1 s1 Hb Hco. rewrite <- Hcomm.
  destruct (completed_as (completed_state kind) r1) eqn:Hc.
  - destruct (Hco eq_refl). by eapply replay_receipt_spec.
  - by eapply swap_rule_spec.
Qed.

Lemma mutation_finalize_spec request low data s :
  let id := or_operation_id request in
  let record := record_new Finalize (or_prepared request) in
  comm = dd_comm (pm_driver_data (or_prepared request)) → to = dd_desired (pm_driver_data (or_prepared request)) →
  request_typed request →
  stats_ok forgets (sv_journal s) → journaled forgets path name low data (jw_disk (sv_journal s)) → usable (sv_env s) →
  wpc (mutation_finalize path request) (earned id "finalized" s low data record)
    (λ _, failed id "finalized" record s low data) (died id "finalized" record s low data) s.
Proof.
  intros id record Hcomm Hto Ht Hst Hj Hu. pose proof (journaled_grows _ _ _ _ _ _ Hj) as Hlow.
  unfold mutation_finalize. wpc_step. apply wpc_lift; [intros [] Hv|intros; by apply failed_at_once].
  wpc_step. apply (begin_spec Finalize); [done..|]. intros r1 low1 data1 s1 Hb Hco. rewrite <- Hcomm, <- Hto.
  simpl in Hb, Hco. destruct (completed_as "finalized" r1) eqn:Hc.
  { destruct (Hco eq_refl). by eapply replay_receipt_spec. }
  wpc_step. pose proof Hb as [B1 B2 _ _ _ _ _ _].
  eapply (read_begun _ _ _ _ _ _ _ _ _ _ []); [done|exact Hb|done|by rewrite app_nil_r|done| |].
  { intros e He. apply careful_reads. by constructor. }
  intros o e s2 Hj2 He2 Hu2 Ho Hcu He. simpl in He2.
  wpc_step. apply wpc_lift; [intros [] Hre|intros err _].
  - apply reject_Ok, negb_false_iff in Hre.
    eapply (complete_and_answer id "finalized" s low data low1 data1 record r1 [] e o); try done.
    apply careful_reads. by constructor.
  - exists [e]. split; [apply careful_reads; by constructor|]. split; [done|]. split; [done|].
    pose proof (begun_low _ _ _ _ _ _ _ _ _ _ Hb Hlow) as Hl. destruct Hb. rewrite Hj2.
    eapply moved_weaken; [exact Hl|done|by apply moved_stay].
Qed.

Lemma run_mutation_spec request kind low data s :
  let d := pm_driver_data (or_prepared request) in
  let id := or_operation_id request in
  let record := record_new kind (or_prepared request) in
  let state := completed_state kind in
  comm = dd_comm d → from = source_state kind d → to = target_state kind d → request_typed request →
  stats_ok forgets (sv_journal s) → journaled forgets path name low data (jw_disk (sv_journal s)) → usable (sv_env s) →
  wpc (run_mutation request kind) (earned id state s low data record)
    (λ _, failed id state record s low data) (died id state record s low data) s.
Proof.
  intros d id record state Hc Hf Hto Ht Hst Hj Hu. unfold run_mutation. destruct kind.
  - apply mutate_spec; try done. by rewrite Hf, Hto.
  - apply mutate_spec; try done. by rewrite Hf, Hto.
  - by apply mutation_finalize_spec.
Qed.

Lemma died_restarts id state record s low data s' d' :
  died id state record s low data s' → power_loss (jw_disk (sv_journal s')) d' →
  ∃ data0, grows forgets low data0 ∧ durable path name data0 d'.
Proof.
  intros (es & _ & _ & Hl) Hp.
  destruct (journal_power_loss forgets path name low data _ d' Hl Hp) as (data0 & _ & _ & ? & _ & ?). by exists data0.
Qed.
End Mutations.

(** C11. Receipts are earned: whatever the socket answers and whichever system call
    of the journal fails, a mutation returns a receipt for the operation asked, and
    its last exchange with the scheduler was a read of the rule; the receipt says
    that it is applied, restored or finalized only if that read showed the rule at
    its end, running, persisted and consistent, and then the journal holds the
    operation, with this input, as completed; otherwise it was completed before.
    However the call ends it asked for at most one change, of this rule from its
    source to its target, and only while the journal held the operation as begun
    and not completed, on the medium for good if it is new.  Where the machine
    stops, a journal loads again.  Records keep their input and completed ones do
    not change, in the journal and in what loads after a crash, unless a [stat] of
    the journal's path fails ([forgets]): then [Path::exists] is false and the
    journal starts anew ([failed_stat_forgets_operations]). *)
Theorem mutations_are_journaled_and_read_back
    {W : Type} `{!ControlSocket W, !ResponseCodec, !RuleStateJson, !Sha256, JC : !JournalCodec, !JournalCodecLaws}
    path name comm from to (usable : W → Prop) current
    `{SC : !SchedulerContract comm from to usable current} request kind low data s :
  let d := pm_driver_data (or_prepared request) in
  let id := or_operation_id request in
  let record := record_new kind (or_prepared request) in
  let state := completed_state kind in
  let forgets := ¬ stats_work (sv_journal s) in
  file_name path = Some name →
  comm = dd_comm d → from = source_state kind d → to = target_state kind d → request_typed request →
  journaled forgets path name low data (jw_disk (sv_journal s)) → usable (sv_env s) →
  wpc (run_mutation path request kind)
    (earned forgets path name comm from to usable current id state s low data record)
    (λ _, failed forgets path name comm from to usable id state record s low data)
    (λ s', died forgets path name comm from to id state record s low data s'
           ∧ ∀ d', power_loss (jw_disk (sv_journal s')) d' →
               ∃ data0, grows forgets low data0 ∧ durable path name data0 d') s.
Proof.
  intros d id record state forgets Hn Hc Hf Hto Ht Hj Hu.
  wpc_call (run_mutation_spec forgets path name Hn comm from to usable current); [done..| |done|done| | |].
  - unfold stats_ok, forgets. destruct (decide (stats_work (sv_journal s))); [by right|by left].
  - done.
  - done.
  - intros s' Hd. split; [done|]. intros d' Hp. by eapply died_restarts.
Qed.

(** ** Sampling ends *)

Section Settle.
Context {W : Type} `{CS : !ControlSocket W, RC : !ResponseCodec, PF : !ProcFiles W, SH : !Sha256}.

Lemma settle_loop_ends fuel id targets started timeout (s : ServerWorld W) :
  fuel ≠ 0 → (timeout ≤ (sv_instant s - started) + (Z.of_nat fuel - 1) * (10 * ms))%Z →
  wpc (settle_loop fuel id targets started timeout) (λ _ _, True) (λ _ _, True) (λ _, False) s.
Proof.
  revert s. induction fuel as [|fuel IH]; intros s Hz Hf; [done|]. clear Hz. simpl.
  wpc_step. unfold client_snapshot, observe_rules. wpc_step. apply wpc_exchange. intros answer env _.
  destruct answer as [response|err]; [|done]. wpc_step. apply wpc_lift; [intros [] _|done].
  wpc_step. apply wpc_lift; [intros [] _|done]. apply wpc_ret.
  wpc_step. apply wpc_lift; [intros i _|done]. destruct (integrity_ready i); [done|].
  wpc_step. unfold wpc at 1, server_instant. simpl. set (now := (sv_instant s + _)%Z).
  assert (sv_instant s ≤ now)%Z as Hnow by (unfold now; lia).
  destruct (Z.leb_spec timeout (now - started)); [done|].
  wpc_step. unfold wpc at 1. simpl. set (now2 := (now + _)%Z). assert (now ≤ now2)%Z as Hnow2 by (unfold now2; lia).
  wpc_step. unfold sleep. wpc_step. apply IH; simpl; unfold ms in *; lia.
Qed.

#[local] Arguments settle_loop : simpl never.
#[local] Arguments SETTLE_FUEL : simpl never.

(** A sample is taken in bounded time: the server never waits for its targets
    beyond the timeout of the session, at most five seconds, and never panics,
    whatever the scheduler answers and the clock shows. *)
Theorem sampling_ends (request : MeasurementSampleRequest) (s : ServerWorld W) :
  wpc (measurement_sample request) (λ _ _, True) (λ _ _, True) (λ _, False) s.
Proof.
  unfold measurement_sample. wpc_step. apply wpc_lift; [intros [] _|done].
  wpc_step. apply wpc_lift; [intros [] Hv|done].
  assert (sd_settle_timeout_ms (se_driver_data (sr_session request)) ≤ 5000)%Z as Hto.
  { unfold session_validate in Hv. apply result_bind_Ok in Hv as (_ & _ & Hv). unfold session_data_validate in Hv.
    apply reject_bind_Ok in Hv as [_ Hv]. apply reject_bind_Ok in Hv as [Hv _].
    by apply reject_Ok, Z.ltb_ge in Hv. }
  assert (∀ s Q, (∀ a s, Q a s) → wpc (in_journal (W := W) now_ns) Q (λ _ _, True) (λ _, False) s) as Hnow.
  { intros s' Q HQ. apply wpc_in_journal. unfold wpc, now_ns. simpl. by destruct (hd _ _); simpl. }
  wpc_step. apply Hnow. intros t0 s1. wpc_step. unfold wpc at 1, server_instant. simpl.
  wpc_step. wpc_call settle_loop_ends; [done| | |done|done].
  { simpl. change (Z.of_nat SETTLE_FUEL - 1)%Z with 502%Z. unfold ms. lia. }
  intros [response i] s2 _. wpc_step. apply wpc_lift; [intros stats _|done].
  wpc_step. apply wpc_lift; [intros ? _|done]. wpc_step. apply wpc_lift; [intros ? _|done].
  wpc_step. unfold wpc at 1, snapshot_proc. destruct (proc_snapshot (sv_env s2)) as [proc env].
  wpc_step. apply wpc_lift; [intros ? _|done]. wpc_step. apply Hnow. intros t1 s3. by apply wpc_ret.
Qed.
End Settle.
