(* ===== verification/RuleServer.v ===== *)
(** * The MCP server in front of the scheduler

    The scheduler of [Scheduler.v] behind the control socket of [RuleProvider.v]:
    a receipt of the server is about the rules on the scheduler's disk, in its
    memory and in its BPF map. *)

From stdpp Require Import countable.
From S2P Require Import Codec.
From S2P Require Export SchedulerWitnesses RuleProviderSafety.

Local Open Scope nat_scope.

(** ** The socket *)

(** The scheduler answers a request in an iteration of its loop; after a fatal
    error it is gone. *)
Inductive Served := Running (c : Scheduler) | Gone.

(** [serde_json::to_vec] at a response, with its line end. *)
Class ResponseWriter := response_to_line : control_wire.ControlResponse → result string string.
Class ResponseWriterLaws `{!ResponseCodec, !ResponseWriter} : Prop :=
  response_round_trip response line : response_to_line response = Ok line → response_from_slice line = Ok response.

Section Served.
Context `{DC : DocumentCodec, DL : !DocumentCodecLaws, SH : !Sha256,
  RC : !ResponseCodec, RW : !ResponseWriter, RL : !ResponseWriterLaws}.

#[export] Instance scheduler_socket : ControlSocket Served := λ q env,
  match env with
  | Gone => (Err "Connection refused (os error 111)", Gone)
  | Running c =>
    match poll_control (Some (Ok [q])) c with
    | (Ret (response :: _), c) => (response_to_line response, Running c)
    | (Ret [], c) => (Ok "", Running c)
    | _ => (Ok "", Gone)
    end
  end.

(** The scheduler with its rules: those of [s], or with the rule of [comm] changed. *)
Definition serves (name : string) (s : RuleStore) (comm : Comm) (to : RuleState) (env : Served) : Prop :=
  match env with
  | Gone => True
  | Running c => ∃ s', in_sync name s' c ∧ store_path s' = store_path s ∧ base (rules s') = base (rules s)
      ∧ (learned (rules s') = learned (rules s) ∨ learned (rules s') = with_rule (learned (rules s)) comm to)
  end.
Definition shows (name : string) (s : RuleStore) (comm : Comm) (to : RuleState) (env : Served)
    (state : control_wire.RuleState) : Prop :=
  ∃ c s', env = Running c ∧ in_sync name s' c ∧ store_path s' = store_path s ∧ base (rules s') = base (rules s)
    ∧ (learned (rules s') = learned (rules s) ∨ learned (rules s') = with_rule (learned (rules s)) comm to)
    ∧ state = state_to_wire (learned_state (rules s') comm).

Lemma with_rule_again l comm to : with_rule (with_rule l comm to) comm to = with_rule l comm to.
Proof. destruct to; simpl; [by rewrite delete_delete_eq|by rewrite insert_insert_eq]. Qed.

Lemma with_rule_there r comm to : learned_state r comm = to → with_rule (learned r) comm to = learned r.
Proof.
  intros <-. unfold learned_state. apply with_rule_of_option. done.
Qed.

(** One request in an iteration of the scheduler. *)
Lemma poll_one name s q c :
  in_sync name s c → request_text q →
  match poll_control (Some (Ok [q])) c with
  | (Ret (response :: _), c') =>
    (∃ s', in_sync name s' c' ∧ store_path s' = store_path s ∧ base (rules s') = base (rules s)
       ∧ (learned (rules s') = learned (rules s) ∨ learned (rules s') = requested q (learned (rules s))))
    ∧ (control_wire.cp_status response = control_wire.StatusOk →
       ∃ s', in_sync name s' c' ∧ store_path s' = store_path s ∧ base (rules s') = base (rules s)
         ∧ learned (rules s') = learned (rules s)
         ∧ (control_wire.cq_op q = control_wire.GetRule → ∃ text, control_wire.cq_comm q = Some text
             ∧ control_wire.cp_current response = Some (state_to_wire (learned_state (rules s) (MkComm text)))))
  | (Ret [], _) => False
  | _ => True
  end.
Proof.
  intros Hs Hq.
  assert (∀ s' c, in_sync name s' c → fatal_control_error c = None → in_sync name s' (set_fatal None c)) as Hsf.
  { intros s' c' [] _. by split. }
  enough (wpc (poll_control (Some (Ok [q])))
    (λ answers c', ∃ response, answers = [response]
      ∧ (∃ s', in_sync name s' c' ∧ store_path s' = store_path s ∧ base (rules s') = base (rules s)
           ∧ (learned (rules s') = learned (rules s) ∨ learned (rules s') = requested q (learned (rules s))))
      ∧ (control_wire.cp_status response = control_wire.StatusOk →
         ∃ s', in_sync name s' c' ∧ store_path s' = store_path s ∧ base (rules s') = base (rules s)
           ∧ learned (rules s') = learned (rules s)
           ∧ (control_wire.cq_op q = control_wire.GetRule → ∃ text, control_wire.cq_comm q = Some text
               ∧ control_wire.cp_current response = Some (state_to_wire (learned_state (rules s) (MkComm text))))))
    (λ _ _, True) (λ _, True) c) as H.
  { unfold wpc in H. destruct (poll_control (Some (Ok [q])) c) as [[[|response l]| |] c']; try done;
      destruct H as (r & Hr & H1 & H2); [done|]. injection Hr as -> ->. done. }
  unfold poll_control. wpc_step. apply wpc_ret. simpl. wpc_step.
  wpc_call control_requests_keep_rules_consistent_spec; [exact Hs|done| |done|done].
  intros response c1 ((_ & Hl) & _ & Han). wpc_step. wpc_step. wpc_step. wpc_step.
  destruct (fatal_control_error c1) as [e|] eqn:Hf; [by apply wpc_throw|]. apply wpc_ret. simpl.
  exists response. split; [done|]. split.
  - destruct (Hl eq_refl) as (s' & Hs' & ?). exists s'. split; [by apply Hsf|done].
  - intros Hst. destruct Han as [(s' & Hs' & Hp & Hb & Ho & _) _ _ _]; [by rewrite Hst|].
    unfold outcome_of in Ho. rewrite Hst in Ho. destruct Ho as (Hr & _ & Hc).
    exists s'. split_and!; [by apply Hsf|done|done|by rewrite Hr|done].
Qed.

Lemma check_response_Ok q data response : check_response q data = Ok response → response_from_slice data = Ok response.
Proof.
  unfold check_response. rewrite !reject_bind_Ok. intros (_ & _ & H). apply result_bind_Ok in H as (r & Hr & H).
  apply map_err_Ok in Hr. rewrite !reject_bind_Ok in H. destruct H as (_ & _ & _ & _ & _ & [= <-]). done.
Qed.

Lemma require_current_Ok response state :
  require_current response = Ok state → control_wire.cp_current response = Some state.
Proof.
  unfold require_current. rewrite result_bind_Ok. intros (st & Hst & H). apply reject_bind_Ok in H as [_ [= <-]].
  by apply ok_or_Ok in Hst.
Qed.

(** The scheduler is what its client expects. *)
Lemma served_scheduler name s comm from to :
  comm_ok comm →
  SchedulerContract (comm_text comm) (state_to_wire from) (state_to_wire to) (serves name s comm to)
    (shows name s comm to).
Proof.
  intros Hc. split.
  - intros id env data env' Hu Ht. unfold control_round_trip, scheduler_socket in Ht.
    destruct env as [c|]; [|injection Ht as <- <-; done].
    destruct Hu as (s1 & Hs1 & Hp & Hb & Hl).
    assert (request_text (get_rule_request id (comm_text comm))) as Hq.
    { split; [|done]. intros t [= <-]. apply Hc. }
    pose proof (poll_one name s1 _ c Hs1 Hq) as H.
    destruct (poll_control _ c) as [[[|response l]| |] c']; injection Ht as <- <-; try done.
    destruct H as [(s2 & Hs2 & Hp2 & Hb2 & Hl2) Hok]. split.
    + exists s2. split_and!; [done|congruence..|]. unfold requested in Hl2. simpl in Hl2. destruct Hl2 as [-> | ->]; done.
    + intros resp state Hresp Hst Hcur. apply result_bind_Ok in Hresp as (line & Hline & Hresp).
      apply check_response_Ok in Hresp. rewrite (response_round_trip _ _ Hline) in Hresp. injection Hresp as ->.
      destruct (Hok Hst) as (s3 & Hs3 & Hp3 & Hb3 & Hl3 & Hcc). destruct (Hcc eq_refl) as (t & [= <-] & Hct).
      apply require_current_Ok in Hcur. rewrite Hct in Hcur. injection Hcur as <-.
      exists c', s3. split_and!; [done|done|congruence|congruence|by rewrite Hl3|].
      f_equal. unfold learned_state. rewrite Hl3. by destruct comm.
  - intros id env data env' Hu Ht. unfold control_round_trip, scheduler_socket in Ht.
    destruct env as [c|]; [|injection Ht as <- <-; done].
    destruct Hu as (s1 & Hs1 & Hp & Hb & Hl).
    assert (request_text (compare_and_set_request id (comm_text comm) (state_to_wire from) (state_to_wire to))) as Hq.
    { split; [|done]. intros t [= <-]. apply Hc. }
    pose proof (poll_one name s1 _ c Hs1 Hq) as H.
    destruct (poll_control _ c) as [[[|response l]| |] c']; injection Ht as <- <-; try done.
    destruct H as [(s2 & Hs2 & Hp2 & Hb2 & Hl2) _].
    exists s2. split_and!; [done|congruence..|].
    unfold requested in Hl2. simpl in Hl2. rewrite state_wire_round_trip in Hl2.
    destruct Hl2 as [->| ->]; [done|]. destruct comm as [t]. simpl. destruct Hl as [->| ->]; [by right|].
    right. apply with_rule_again.
Qed.

(** ** Receipts and rules *)

Lemma state_to_wire_inj a b : state_to_wire a = state_to_wire b → a = b.
Proof. destruct a as [|[]], b as [|[]]; by intros [=]. Qed.

Context `{RJ : !RuleStateJson, JC : !JournalCodec, JL : !JournalCodecLaws}.

(** The scheduler runs the rules of [s] with the rule of [comm] set to [state]. *)
Definition runs_with (name : string) (s : RuleStore) (comm : Comm) (state : RuleState) (env : Served) (s' : RuleStore)
    : Prop :=
  ∃ c, env = Running c ∧ in_sync name s' c ∧ store_path s' = store_path s ∧ base (rules s') = base (rules s)
    ∧ learned (rules s') = with_rule (learned (rules s)) comm state.

Record names_rule (request : MutationOperationRequest) (comm : Comm) (baseline desired : RuleState) : Prop := {
  nr_comm : dd_comm (pm_driver_data (or_prepared request)) = comm_text comm;
  nr_baseline : dd_baseline (pm_driver_data (or_prepared request)) = state_to_wire baseline;
  nr_desired : dd_desired (pm_driver_data (or_prepared request)) = state_to_wire desired;
}.
Definition ends_at (kind : JournalKind) (baseline desired : RuleState) : RuleState :=
  match kind with Apply | Finalize => desired | Restore => baseline end.

Lemma run_mutation_served path jname name request kind comm baseline desired low data st c (s : ServerWorld Served) :
  file_name path = Some jname → comm_ok comm → names_rule request comm baseline desired → request_typed request →
  journaled True path jname low data (jw_disk (sv_journal s)) →
  sv_env s = Running c → in_sync name st c →
  wpc (run_mutation path request kind)
    (λ receipt s', (∃ low' data', journaled True path jname low' data' (jw_disk (sv_journal s')))
       ∧ (rc_state receipt = completed_state kind →
          ∃ st', runs_with name st comm (ends_at kind baseline desired) (sv_env s') st'))
    (λ _ _, True) (λ _, True) s.
Proof.
  intros Hn Hc [H1 H2 H3] Ht Hj He Hs.
  set (to := ends_at kind baseline desired).
  pose proof (served_scheduler name st comm (match kind with Restore => desired | _ => baseline end) to Hc) as HS.
  wpc_call (run_mutation_spec True path jname Hn (comm_text comm) _ (state_to_wire to) (serves name st comm to)
    (shows name st comm to) (SC := HS)); try done.
  - by destruct kind; simpl.
  - by destruct kind; simpl.
  - by left.
  - rewrite He. exists st. split_and!; auto.
  - intros receipt s' [(es & e & o & _ & _ & _ & _ & Hre & Hcur) _ _ (_ & low' & data' & r & _ & Hj' & _) _].
    split; [eauto|]. intros Hr. apply Hre in Hr. unfold reached in Hr. apply andb_true_iff in Hr as [Hr _].
    apply bool_decide_eq_true in Hr. destruct Hcur as (c' & st' & He' & Hs' & Hp & Hb & Hl & Hw).
    rewrite Hr in Hw. apply state_to_wire_inj in Hw. exists st', c'. split_and!; try done.
    destruct Hl as [Hl|Hl]; [|done]. rewrite Hl. symmetry. apply with_rule_there.
    rewrite Hw. unfold learned_state. by rewrite Hl.
Qed.

(** C10. Receipts are about the rules that run: with the server in front of a
    scheduler whose disk, memory and BPF map agree, a receipt that a prepared
    change is applied means that the three agree on the rules with exactly this
    rule changed to the desired one; and when a later restore of it is
    acknowledged, they agree on exactly the rules of before.  Every call of the
    journal, a [stat] included (the [True] of [journaled]), of the scheduler's disk
    and of its BPF maps can fail on the way. *)
Theorem changes_reach_the_scheduler_and_back
    path jname name apply restore comm desired low data st c (s : ServerWorld Served) :
  file_name path = Some jname → comm_ok comm →
  names_rule apply comm (learned_state (rules st) comm) desired → request_typed apply →
  or_prepared restore = or_prepared apply → is_utf8 (or_operation_id restore) = true →
  journaled True path jname low data (jw_disk (sv_journal s)) →
  sv_env s = Running c → in_sync name st c →
  wpc (run_mutation path apply Apply)
    (λ receipt s1, rc_state receipt = "applied" →
       ∃ st1, runs_with name st comm desired (sv_env s1) st1
         ∧ wpc (run_mutation path restore Restore)
             (λ receipt s2, rc_state receipt = "restored" →
                ∃ c2 st2, sv_env s2 = Running c2 ∧ in_sync name st2 c2 ∧ base (rules st2) = base (rules st)
                  ∧ learned (rules st2) = learned (rules st))
             (λ _ _, True) (λ _, True) s1)
    (λ _ _, True) (λ _, True) s.
Proof.
  intros Hn Hc Hnr Ht Hpr Hu Hj He Hs.
  wpc_call (run_mutation_served path jname name apply Apply comm (learned_state (rules st) comm) desired); [done..| |done|done].
  intros receipt s1 ((low1 & data1 & Hj1) & Hrun) Hr. destruct (Hrun Hr) as (st1 & Hrw).
  exists st1. split; [done|]. destruct Hrw as (c1 & He1 & Hs1 & Hp1 & Hb1 & Hl1). simpl in Hl1.
  wpc_call (run_mutation_served path jname name restore Restore comm (learned_state (rules st) comm) desired);
    [done|done| | |exact Hj1|exact He1|exact Hs1| |done|done].
  - destruct Hnr as [N1 N2 N3]. split; by rewrite Hpr.
  - split; [done|]. rewrite Hpr. apply Ht.
  - intros receipt2 s2 (_ & Hrun2) Hr2. destruct (Hrun2 Hr2) as (st2 & c2 & He2 & Hs2 & Hp2 & Hb2 & Hl2).
    exists c2, st2. split_and!; [done|done|congruence|]. simpl in Hl2. rewrite Hl2, Hl1. apply with_rule_undo.
Qed.
End Served.

(** * Concrete runs of the server

    Codecs that satisfy the laws asked of [serde_json], a journal on an empty disk
    and the started scheduler: the hypotheses of the server's theorems hold there. *)

(** ** Codecs *)

#[export] Instance ControlStatus_countable : Countable control_wire.ControlStatus.
Proof.
  refine (inj_countable' (λ s, match s with
      | control_wire.StatusOk => 0 | control_wire.StatusApplied => 1 | control_wire.StatusNoop => 2
      | control_wire.StatusConflict => 3 | control_wire.StatusError => 4 end)
    (λ n, match n with 0 => control_wire.StatusOk | 1 => control_wire.StatusApplied | 2 => control_wire.StatusNoop
          | 3 => control_wire.StatusConflict | _ => control_wire.StatusError end) _). by intros [].
Defined.
#[export] Instance wire_class_countable : Countable control_wire.RuleClass.
Proof.
  refine (inj_countable' (λ c, match c with control_wire.Latency => true | control_wire.Batch => false end)
    (λ b : bool, if b then control_wire.Latency else control_wire.Batch) _). by intros [].
Defined.
#[export] Instance wire_source_countable : Countable control_wire.RuleSource.
Proof.
  refine (inj_countable' (λ s, match s with
      | control_wire.FromBase => 0 | control_wire.FromLearned => 1 | control_wire.FromDefault => 2 end)
    (λ n, match n with 0 => control_wire.FromBase | 1 => control_wire.FromLearned
          | _ => control_wire.FromDefault end) _). by intros [].
Defined.

(** The fields of a record, one after the other. *)
Definition field {A} `{Countable A} (l : list positive) (i : nat) : option A := p ← l !! i; countable.decode p.
Ltac fields := intros []; unfold field; cbn [mbind option_bind lookup list_lookup]; rewrite !decode_encode; done.

#[export] Instance wire_state_countable : Countable control_wire.RuleState.
Proof.
  refine (inj_countable (λ s, [encode (control_wire.present s); encode (control_wire.class s)])
    (λ l, p ← field l 0; c ← field l 1; Some (control_wire.MkRuleState p c)) _). fields.
Defined.
#[export] Existing Instance control_wire.RuleObservation_eq_dec.
#[export] Existing Instance control_wire.ControlStats_eq_dec.
#[export] Existing Instance control_wire.ControlResponse_eq_dec.
#[export] Instance RuleObservation_countable : Countable control_wire.RuleObservation.
Proof.
  refine (inj_countable (λ o, [encode (control_wire.ro_comm o); encode (control_wire.ro_class o);
      encode (control_wire.ro_source o); encode (control_wire.ro_active_class o);
      encode (control_wire.ro_persisted_class o); encode (control_wire.ro_consistent o)])
    (λ l, a ← field l 0; b ← field l 1; c ← field l 2; d ← field l 3; e ← field l 4; f ← field l 5;
          Some (control_wire.MkRuleObservation a b c d e f)) _). fields.
Defined.
#[export] Instance ControlStats_countable : Countable control_wire.ControlStats.
Proof.
  refine (inj_countable (λ s, [encode (control_wire.cs_task_state_errors s); encode (control_wire.cs_rule_refresh_deferred s)])
    (λ l, a ← field l 0; b ← field l 1; Some (control_wire.MkControlStats a b)) _). fields.
Defined.
#[export] Instance ControlResponse_countable : Countable control_wire.ControlResponse.
Proof.
  refine (inj_countable (λ r, [encode (control_wire.cp_version r); encode (control_wire.cp_request_id r);
      encode (control_wire.cp_status r); encode (control_wire.cp_current r); encode (control_wire.cp_rules r);
      encode (control_wire.cp_revision r); encode (control_wire.cp_rules_seq r);
      encode (control_wire.cp_effective_digest r); encode (control_wire.cp_stats r);
      encode (control_wire.cp_workload_fingerprint r); encode (control_wire.cp_message r)])
    (λ l, a ← field l 0; b ← field l 1; c ← field l 2; d ← field l 3; e ← field l 4; f ← field l 5;
          g ← field l 6; h ← field l 7; i ← field l 8; j ← field l 9; k ← field l 10;
          Some (control_wire.MkControlResponse a b c d e f g h i j k)) _). fields.
Defined.

#[export] Instance wire_prepared_countable : Countable PreparedMutation.
Proof.
  refine (inj_countable (λ p, let pin := pm_provider p in let d := pm_driver_data p in
     [encode (pm_capability_id p); encode (pin_provider_id pin); encode (pin_provider_version pin);
      encode (pin_provider_class pin); encode (pin_manifest_digest pin); encode (pm_resource p);
      encode (ms_value (pm_baseline p)); encode (ms_digest (pm_baseline p));
      encode (ms_value (pm_desired p)); encode (ms_digest (pm_desired p));
      encode (dd_schema_version d); encode (dd_comm d); encode (dd_baseline d); encode (dd_desired d)])
    (λ l, a ← field l 0; b ← field l 1; c ← field l 2; d ← field l 3; e ← field l 4; f ← field l 5;
          g ← field l 6; h ← field l 7; i ← field l 8; j ← field l 9; k ← field l 10; m ← field l 11;
          n ← field l 12; o ← field l 13;
          Some (MkPrepared a (MkPin b c d e) f (MkMutState g h) (MkMutState i j) (MkDriverData k m n o))) _).
  intros [? [] ? [] [] []]. unfold field. cbn [mbind option_bind lookup list_lookup]. rewrite !decode_encode. done.
Defined.
#[export] Instance JournalKind_countable : Countable JournalKind.
Proof.
  refine (inj_countable' (λ k, match k with Apply => 0 | Restore => 1 | Finalize => 2 end)
    (λ n, match n with 0 => Apply | 1 => Restore | _ => Finalize end) _). by intros [].
Defined.
#[export] Instance JournalPhase_countable : Countable JournalPhase.
Proof.
  refine (inj_countable' (λ p, match p with Started => true | Completed => false end)
    (λ b : bool, if b then Started else Completed) _). by intros [].
Defined.
#[export] Instance OperationRecord_countable : Countable OperationRecord.
Proof.
  refine (inj_countable (λ r, [encode (rec_kind r); encode (rec_phase r); encode (rec_result_state r);
      encode (rec_comm r); encode (rec_baseline r); encode (rec_desired r); encode (rec_prepared r)])
    (λ l, a ← field l 0; b ← field l 1; c ← field l 2; d ← field l 3; e ← field l 4; f ← field l 5; g ← field l 6;
          Some (MkRecord a b c d e f g)) _). fields.
Defined.

(** The types of a decoded journal, decided. *)
Definition texts_ok (l : list string) : bool := forallb is_utf8 l.
Definition record_texts (r : OperationRecord) : list string :=
  let p := rec_prepared r in let pin := pm_provider p in
  option_list (rec_result_state r) ++
  [rec_comm r; pm_capability_id p; pin_provider_id pin; pin_provider_version pin; pin_provider_class pin;
   pin_manifest_digest pin; pm_resource p; ms_digest (pm_baseline p); ms_digest (pm_desired p); dd_comm (pm_driver_data p)].
Definition in_u32 (n : Z) : bool := (0 <=? n)%Z && (n <? 2 ^ 32)%Z.
Definition record_typedb (r : OperationRecord) : bool :=
  texts_ok (record_texts r) && in_u32 (dd_schema_version (pm_driver_data (rec_prepared r))).
Definition journal_typedb (data : JournalData) : bool :=
  in_u32 (jd_version data)
  && forallb (λ p : string * OperationRecord, is_utf8 p.1 && record_typedb p.2) (map_to_list (jd_operations data)).

Lemma in_u32_true n : in_u32 n = true ↔ (0 ≤ n < 2 ^ 32)%Z.
Proof. unfold in_u32. rewrite andb_true_iff, Z.leb_le, Z.ltb_lt. done. Qed.

Lemma record_typedb_true r : record_typedb r = true ↔ record_typed r.
Proof.
  unfold record_typedb, record_texts, texts_ok. rewrite andb_true_iff, in_u32_true, forallb_app. simpl.
  rewrite !andb_true_iff. split.
  - intros [(H0 & H1 & H2 & H3 & H4 & H5 & H6 & H7 & H8 & H9 & H10 & _) H11]. split; [|done|by split].
    destruct (rec_result_state r); simpl in *; [by rewrite andb_true_r in H0|done].
  - intros [H0 H1 [H2 [H3 H4 H5 H6] H7 H8 H9 H10 H11]]. split_and!; try done; try apply H10.
    destruct (rec_result_state r); simpl in *; [by rewrite andb_true_r|done].
Qed.

Lemma journal_typedb_true data : journal_typedb data = true ↔ journal_typed data.
Proof.
  unfold journal_typedb. rewrite andb_true_iff, in_u32_true, forallb_forall. split.
  - intros [Hv Hf]. split; [done|]. intros id r Hr.
    specialize (Hf (id, r)). rewrite <- list_elem_of_In, elem_of_map_to_list in Hf.
    specialize (Hf Hr). apply andb_true_iff in Hf as [? ?%record_typedb_true]. done.
  - intros [Hv Hf]. split; [done|]. intros [id r] Hr%list_elem_of_In%elem_of_map_to_list.
    destruct (Hf id r Hr) as [? ?]. apply andb_true_iff. split; [done|by apply record_typedb_true].
Qed.

Definition line_of (p : positive) : string := digits p.
Definition number_of (line : string) : option positive :=
  s ← Text.strip_suffix (String "010"%char "") line; of_digits s.

#[export] Instance numbered_journal : JournalCodec := {
  journal_to_vec data := Ok (line_of (encode (jd_version data, jd_operations data)));
  journal_from_reader line :=
    match number_of line ≫= countable.decode with
    | Some (version, operations) =>
      let data := MkJournalData version operations in
      if journal_typedb data then Ok data else Err "invalid type"
    | None => Err "not a journal"
    end;
}.

Lemma number_of_line p : number_of (line_of p +:+ String "010"%char "") = Some p.
Proof.
  unfold number_of, line_of. rewrite (proj2 (Text.strip_suffix_Some _ _ (digits p)) eq_refl).
  simpl. apply of_digits_digits.
Qed.

#[export] Instance numbered_journal_laws : JournalCodecLaws.
Proof.
  split.
  - intros data bytes Ht [= <-]. simpl. rewrite number_of_line. simpl. rewrite decode_encode.
    rewrite (proj2 (journal_typedb_true _)); [by destruct data|]. by destruct data.
  - intros bytes data. simpl. destruct (number_of bytes ≫= countable.decode) as [[v m]|]; [|done].
    destruct (journal_typedb _) eqn:Ht; [|done]. intros [= <-]. by apply journal_typedb_true.
Qed.

#[export] Instance numbered_responses : ResponseCodec := λ line,
  match number_of line ≫= countable.decode with Some r => Ok r | None => Err "not a response" end.
#[export] Instance numbered_writer : ResponseWriter := λ r, Ok (line_of (encode r) +:+ String "010"%char "").
#[export] Instance numbered_writer_laws : ResponseWriterLaws.
Proof.
  intros r line [= <-]. unfold response_from_slice, numbered_responses. rewrite number_of_line. simpl.
  by rewrite decode_encode.
Qed.
#[local] Existing Instance plain_sha256.
#[export] Instance shown_states : RuleStateJson := λ s, Ok (state_debug s).

(** ** A change and its restore *)

Definition journal_path : string := "/var/lib/scx_agent_classed/mcp-operations.json".
Definition journal_file : string := "mcp-operations.json".

Definition mut_state (s : control_wire.RuleState) : MutationState := MkMutState s ("sha256:" +:+ state_debug s).
Definition bash_change : PreparedMutation :=
  MkPrepared "scx-agent-classed/rule.upsert.v1" (MkPin "scx-agent-classed" "1.0.0" "mcp" "sha256:manifest")
    "learned-rule/bash" (mut_state control_wire.state_absent) (mut_state (control_wire.state_present control_wire.Latency))
    (MkDriverData 1 "bash" control_wire.state_absent (control_wire.state_present control_wire.Latency)).
Definition apply_bash : MutationOperationRequest := MkOperationRequest "episode-1/apply" bash_change.
Definition restore_bash : MutationOperationRequest := MkOperationRequest "episode-1/restore" bash_change.

Definition journal_world (calls : list DiskCall) : JournalWorld :=
  MkJournalWorld (MkDisk ∅ 0 ∅ [] true 77 0 calls) [] [Ok 1%Z; Ok 2%Z; Ok 3%Z; Ok 4%Z].
Definition server_world (calls : list DiskCall) (env : Served) : ServerWorld Served :=
  MkServerWorld env (journal_world calls) [] 0 [].

Lemma empty_journal forgets calls :
  journaled forgets journal_path journal_file journal_default journal_default (jw_disk (journal_world calls)).
Proof.
  split; [|done]. split; [split|].
  - intros dir n i ->%list_elem_of_singleton. simpl. by rewrite lookup_empty.
  - intros dir ->%list_elem_of_singleton. exists None. split; [by exists journal_default|]. simpl. apply lookup_empty.
Qed.

Lemma bash_typed : request_typed apply_bash.
Proof. split; [done|]. split; try done; by split. Qed.

Example a_change_and_its_restore :
  let w := server_world [] (Running started) in
  let w1 := (run_mutation journal_path apply_bash Apply w).2 in
  let w2 := (run_mutation journal_path restore_bash Restore w1).2 in
  (run_mutation journal_path apply_bash Apply w).1
  = Ret (MkReceipt "episode-1/apply" "applied" (control_wire.state_present control_wire.Latency))
  ∧ (run_mutation journal_path apply_bash Apply w1).1
    = Ret (MkReceipt "episode-1/apply" "applied" (control_wire.state_present control_wire.Latency))
  ∧ (run_mutation journal_path restore_bash Restore w1).1
    = Ret (MkReceipt "episode-1/restore" "restored" control_wire.state_absent)
  ∧ length (sv_exchanges w1) = 3 ∧ length (sv_exchanges w2) = 6
  ∧ (run_mutation journal_path apply_bash Apply w2).1
    = Ret (MkReceipt "episode-1/apply" "unknown" control_wire.state_absent).
Proof. vm_compute. split_and!; reflexivity. Qed.

(** The machine stops when the journal completes the operation. *)
Definition dying_journal : list DiskCall := replicate 18 Works ++ [Dies 3].

Lemma mutations_are_journaled_and_read_back_witness :
  let s := server_world dying_journal (Running started) in
  let forgets := ¬ stats_work (sv_journal s) in
  (run_mutation journal_path apply_bash Apply s).1 = Panic
  ∧ request_typed apply_bash ∧ stats_work (sv_journal s)
  ∧ journaled forgets journal_path journal_file journal_default journal_default (jw_disk (sv_journal s))
  ∧ wpc (run_mutation journal_path apply_bash Apply)
    (earned forgets journal_path journal_file "bash" control_wire.state_absent
       (control_wire.state_present control_wire.Latency)
       (λ _, True) (λ _ _, True) "episode-1/apply" "applied" s journal_default journal_default
       (record_new Apply bash_change))
    (λ _, failed forgets journal_path journal_file "bash" control_wire.state_absent
            (control_wire.state_present control_wire.Latency) (λ _, True) "episode-1/apply" "applied"
            (record_new Apply bash_change) s journal_default journal_default)
    (λ s', died forgets journal_path journal_file "bash" control_wire.state_absent
             (control_wire.state_present control_wire.Latency) "episode-1/apply" "applied"
             (record_new Apply bash_change) s journal_default journal_default s'
           ∧ ∀ d', power_loss (jw_disk (sv_journal s')) d' →
               ∃ data0, grows forgets journal_default data0 ∧ durable journal_path journal_file data0 d') s.
Proof.
  split; [vm_compute; reflexivity|]. split; [exact bash_typed|]. split; [constructor|].
  split; [apply empty_journal|].
  exact (mutations_are_journaled_and_read_back (W := Served) journal_path journal_file "bash" control_wire.state_absent
    (control_wire.state_present control_wire.Latency) (λ _, True) (λ _ _, True)
    (SC := any_scheduler "bash" control_wire.state_absent (control_wire.state_present control_wire.Latency))
    apply_bash Apply journal_default journal_default (server_world dying_journal (Running started))
    eq_refl eq_refl eq_refl eq_refl bash_typed (empty_journal _ dying_journal) I).
Defined.

Lemma changes_reach_the_scheduler_and_back_witness :
  ∃ st, let s := server_world [] (Running started) in
  in_sync rules_name st started ∧ learned_state (rules st) bash = Absent
  ∧ names_rule apply_bash bash (learned_state (rules st) bash) (Present Latency)
  ∧ wpc (run_mutation journal_path apply_bash Apply)
    (λ receipt s1, rc_state receipt = "applied" →
       ∃ st1, runs_with rules_name st bash (Present Latency) (sv_env s1) st1
         ∧ wpc (run_mutation journal_path restore_bash Restore)
             (λ receipt s2, rc_state receipt = "restored" →
                ∃ c2 st2, sv_env s2 = Running c2 ∧ in_sync rules_name st2 c2 ∧ base (rules st2) = base (rules st)
                  ∧ learned (rules st2) = learned (rules st))
             (λ _ _, True) (λ _, True) s1)
    (λ _ _, True) (λ _, True) s.
Proof.
  destruct started_in_sync as (st & Hs & _). exists st.
  assert (learned_state (rules st) bash = Absent) as Hb.
  { destruct Hs as [Hst _ _ _ _ _ _ _].
    assert ((λ x, learned_state (rules x) bash) <$> rule_store started = Some Absent) as Hc by (vm_compute; reflexivity).
    rewrite Hst in Hc. by injection Hc. }
  assert (names_rule apply_bash bash (learned_state (rules st) bash) (Present Latency)) as Hn.
  { rewrite Hb. by split. }
  split; [exact Hs|]. split; [exact Hb|]. split; [exact Hn|].
  exact (changes_reach_the_scheduler_and_back journal_path journal_file rules_name apply_bash restore_bash bash
    (Present Latency) journal_default journal_default st started (server_world [] (Running started))
    eq_refl bash_ok Hn bash_typed eq_refl eq_refl (empty_journal True []) eq_refl Hs).
Defined.

(** ** A measurement *)

Definition bash_stat : string := "17 (bash) S 1 2 3 4 5 6 7 8 9 10 11 12 13 14 15 16 17 18 987654 20".
Definition bash_task : ProcTask := MkProcTask "17" (Ok ("bash" +:+ String newline "")) (Ok bash_stat).
Definition gone_task : ProcTask :=
  MkProcTask "18" (Err (NotOpened (MkProcError true "No such file or directory (os error 2)"))) (Ok "").
Definition bash_process : ProcProcess := MkProcProcess "17" (Ok [Ok gone_task; Ok bash_task]).
Definition one_bash : Proc :=
  MkProc "/proc" (Ok [Ok (MkProcProcess "self" (Ok [])); Ok bash_process; Err (MkProcError true "gone")]) [].
Definition bash_target : list (string * control_wire.RuleClass) := [("bash", control_wire.Latency)].

Lemma workload_fingerprint_found_witness :
  ∃ f, RuleWorkload.workload_fingerprint one_bash bash_target = Ok f ∧ wf_task_count f = 1
  ∧ (∃ S : gset TaskIdentity,
      (∀ i, i ∈ S ↔ live one_bash (list_to_set bash_target.*1) i)
      ∧ f = MkFingerprint (canonical_workload_digest bash_target (elements S)) (size S)
      ∧ (Z.of_nat (size S) ≤ MAX_MATCHED_TASKS)%Z
      ∧ ∀ c, c ∈ bash_target.*1 → ∃ i, i ∈ S ∧ identity_comm i = c)
  ∧ ∀ proc' f', RuleWorkload.workload_fingerprint proc' bash_target = Ok f' →
      (∀ i, live proc' (list_to_set bash_target.*1) i ↔ live one_bash (list_to_set bash_target.*1) i) → f' = f.
Proof.
  eexists. split; [vm_compute; reflexivity|]. split; [reflexivity|].
  apply (workload_fingerprint_found one_bash bash_target). vm_compute. reflexivity.
Defined.

Definition bash_covered (active : option control_wire.RuleClass) : control_wire.ControlResponse :=
  control_wire.MkControlResponse 1 "sample" control_wire.StatusOk None
    [control_wire.MkRuleObservation "bash" control_wire.Latency control_wire.FromLearned active
       (Some control_wire.Latency) true] 1 2 "sha256:" None None None.

Lemma integrity_ready_iff_witness :
  ∃ i, length [MkTarget "bash" control_wire.Latency] ≤ MAX_TARGETS
  ∧ integrity_evaluate [MkTarget "bash" control_wire.Latency] (bash_covered (Some control_wire.Latency)) = Ok i
  ∧ integrity_ready i = true
  ∧ (integrity_ready i = true
     ↔ Forall (covered (bash_covered (Some control_wire.Latency))) [MkTarget "bash" control_wire.Latency]).
Proof.
  eexists. split; [unfold MAX_TARGETS; simpl; lia|]. split; [vm_compute; reflexivity|].
  split; [vm_compute; reflexivity|].
  apply integrity_ready_iff; [unfold MAX_TARGETS; simpl; lia|]. vm_compute. reflexivity.
Defined.

Example a_rule_that_does_not_run_is_not_ready :
  integrity_ready <$> (match integrity_evaluate [MkTarget "bash" control_wire.Latency] (bash_covered None) with
                       | Ok i => Some i | Err _ => None end) = Some false.
Proof. vm_compute. reflexivity. Qed.

(** ** What the journal can lose *)

Definition begun_record : OperationRecord := record_new Apply bash_change.
Definition with_stats (stats : list bool) (w : JournalWorld) : JournalWorld :=
  MkJournalWorld (jw_disk w) stats (jw_clock w).

(** A call of [stat] that fails makes the journal look empty: the next
    operation that begins replaces the document, and the record of the operation
    before is gone, without an error. *)
Theorem failed_stat_forgets_operations :
  let w1 := (journal_begin journal_path "episode-1/apply" begun_record (journal_world [])).2 in
  let w2 := (journal_begin journal_path "episode-2/apply" begun_record (with_stats [false] w1)).2 in
  (journal_get journal_path "episode-1/apply" w1).1 = Ret (Some begun_record)
  ∧ (journal_begin journal_path "episode-2/apply" begun_record (with_stats [false] w1)).1 = Ret begun_record
  ∧ (journal_get journal_path "episode-1/apply" w2).1 = Ret None.
Proof. vm_compute. split_and!; reflexivity. Qed.

(** Identifiers between 257 and 4096 bytes are journaled, but the scheduler
    refuses the change, which carries the identifier itself: the operation can
    begin and never complete. *)
Theorem long_identifiers_never_apply (id : string) :
  256 < String.length id → control_wire.request_validate (compare_and_set_request id "bash"
    control_wire.state_absent (control_wire.state_present control_wire.Latency)) ≠ Ok tt.
Proof.
  intros Hl H. unfold control_wire.request_validate in H. rewrite !reject_bind_Ok in H.
  destruct H as (_ & H & _). apply reject_Ok in H. simpl in H.
  apply orb_false_iff in H as [H _]. apply orb_false_iff in H as [_ H].
  unfold MAX_REQUEST_ID_BYTES in H. apply PeanoNat.Nat.ltb_ge in H. lia.
Qed.
